(* ===== verification/_CoqProject ===== *)
-Q . S2P
Prelude.v
Billing.v
Sha256.v
Merkle.v
Base58.v
GoText.v
AclTypes.v
Acl.v
AclSpec.v
Solana.v
Json.v
Base64.v
Rpc.v
Tx.v
Schema.v
BillingStore.v
Projection.v
WithdrawalStore.v
WithdrawalInv.v
DepositStore.v
DepositInv.v
AllowanceStore.v
SettlementStore.v
SettlementInv.v
Market.v
Reachable.v
Worker.v
Watcher.v
WatcherSpec.v
Withdraw.v
SettlementWorker.v
BillingSpec.v
StoreSpec.v
SettlementSpec.v
WithdrawSpec.v
Recon.v
ReconSpec.v
Delegations.v
DelegationsSpec.v
DirSchema.v
Directory.v
Regions.v
DirInv.v
Keys.v
DirReach.v
DirSpec.v
ThinkFix.v
Gate.v
GateSpec.v
JsonPrint.v
Jwt.v
Peers.v
MarketGate.v
MarketSpec.v
Response.v
Http.v
Mesh.v
NodeCred.v
NodeCredSpec.v
Pricing.v
PricingSpec.v
Pages.v
BillingApi.v
Inputs.v
InputsSpec.v
WalletsApi.v
InstancesApi.v
RegionsApi.v
Access.v
AccessSpec.v
DeployLink.v
ManageSpec.v
Faucet.v
FaucetSpec.v
BillingApiSpec.v
PostSpec.v
PagesSpec.v
PublicApi.v
Server.v
WorkersSpec.v
