(* ===== verification/Prelude.v ===== *)
(** * api.opentela.ai: a verification development

    The program is the control plane of an inference mesh, written in Go under
    src/: an HTTP server in front of a Postgres database and a Solana node, which
    keeps a prepaid billing ledger, settles inference requests against it, watches
    deposits, pays withdrawals, moves delegated allowances on chain, and decides
    which caller may be routed to which peer.  This development models the parts
    that hold state or decide something, and proves what they promise.

    ** The files, in dependency order

    - Prelude: Go's machine integers ([i64], [u64], [u32]: wrap-around written out),
      slices, errors and the result type [res], list and map lemmas.
    - Billing: internal/billing/billing.go, prices, caps, charge, fee and reserve
      arithmetic.  Sha256 and Merkle: internal/billing/merkle.go, the ledger's
      commitment, over an executable SHA-256.
    - Base58, Solana: internal/solana/base58.go, pda.go, tx.go, solana.go and the
      message builders of the two workers.  GoText, Json, JsonPrint, Base64: the parts
      of Go's standard library the sources use, JSON from the bytes up.  Rpc:
      internal/solana/rpc.go.
    - AclTypes, Acl, AclSpec: internal/aclapi/api.go, the access decision.
    - Tx: pgx transactions over an abstract database, with a fault model.  Schema:
      the tables of migrations/ and one definition per statement shape.
    - BillingStore, WithdrawalStore, DepositStore, AllowanceStore,
      SettlementStore: the methods of internal/store/billing.go, withdrawal.go,
      deposit.go, allowance.go, delegation_settlement.go and the wallet reads of
      acl.go, statement by statement.  Projection, WithdrawalInv, DepositInv,
      SettlementInv: the invariants each method keeps.  Reachable: every operation
      as one constructor of [op], [step] as one method in any environment, and the
      invariants of all reachable states.
    - Worker, Watcher, Withdraw, SettlementWorker: the background workers of
      internal/deposits, internal/withdraw and internal/delegations, as computations
      that alternate calls to the node and to the store.
    - Recon, Delegations: internal/store/reconciliation.go, and the allowance poller
      and its audit in internal/delegations.
    - BillingSpec, StoreSpec, SettlementSpec, WatcherSpec, WithdrawSpec, ReconSpec,
      DelegationsSpec: what all of this guarantees.
    - DirSchema, Directory, Regions, Keys: the directory of accounts, wallets,
      instances, trusted regions, service policies, API keys, deploy keys and faucet
      claims: its sixteen tables and every method of internal/store/acl.go, policy.go,
      postgres.go, deploykey.go and faucet.go over them.  DirInv, DirReach, DirSpec:
      the invariant each statement keeps, the states all histories reach, and what
      the directory guarantees.
    - Market: internal/store/model_pricing.go and the live asks.  Gate, GateSpec:
      internal/gate/inspect.go, what a metered request is and what is forwarded of it.
      Peers: internal/peers/peers.go.  MarketGate, MarketSpec: internal/billinggate/gate.go,
      from a request to a reservation.
    - Response: internal/perf/parser.go, body.go, hook.go and
      internal/settlement/settle.go, from a response to a charge.  ThinkFix:
      internal/thinkfix, the rewriting of responses on their way.
    - Http: internal/httputil and the requests and replies every handler shares.  Jwt:
      internal/nodecred/jwt.go.  Mesh: internal/mesh and the signed identities of peers.
      NodeCred, NodeCredSpec: internal/nodecred/api.go.  Pricing, PricingSpec:
      internal/pricingapi, internal/askrefresh and the console's publication of asks.
    - Access, AccessSpec: internal/cache, auth, neonauth, principal, keysvc and keysapi,
      the middlewares and the API keys, with everything that interleaves on the verdict
      cache.  Inputs, InputsSpec: internal/identity and what the handlers accept.
    - BillingApi: internal/billingapi.  BillingApiSpec, PostSpec, PagesSpec (over the
      interface of Pages): what its endpoints may change, answer and list.
    - WalletsApi, InstancesApi, RegionsApi, DeployLink, ManageSpec: internal/walletsapi,
      instancesapi, regionsapi and deploykeys.  Faucet, FaucetSpec: internal/faucet and
      internal/faucetapi.
    - PublicApi: internal/catalog, internal/leaderboard and internal/solrpcproxy, what is
      served without an account.
    - Server: internal/server, corsmw and manageapi (which handler a path reaches and
      behind what), internal/config, and internal/askpublish.
    - WorkersSpec: the settlement worker's batches, and all processes together, over
      every table.

    The handlers are computations of Worker's [W] over a node: the state of a process
    (its caches, its directory) beside the database.  The middlewares of Access wrap the
    handlers, Server picks one by the path, and the store methods below them are the
    same definitions the workers call.

    ** How a method of the store is modelled

    A method is a computation [M db A] of Tx: it sends statements on the pool or in
    the transaction it opened, each a function on the database that succeeds or
    fails with an SQLSTATE (unique, check and foreign-key violations, values outside
    a column); [defer tx.Rollback] is the end of [with_tx] on every path that is not
    a commit.  The environment says which round trips are lost, before or after the
    server acted, the commit included, and what the clock says.  Transactions are
    serial: a method runs to its end on the database the last one left; the rows it
    reads under FOR UPDATE are those it would hold locked.  The statements outside a
    transaction (pool reads) therefore see the committed state of that moment.
    Times are nanoseconds in Go; a column keeps microseconds, which the model does
    not round: no decision in the modelled code depends on a finer difference.

    ** What is shown

    - The books: SettleBilling charges exactly the cost, splits it exactly and
      conserves the total ([SettleBilling_charges]);
      ReserveBilling and ReleaseBilling on every branch; in every reachable state,
      whatever was lost, 0 <= reserved <= credit with reserved the sum of the open
      reservations ([Reachable_balances]), the ledger only grows and no (ref, leg) is
      entered twice, the reconciliation is clean ([ReconcileAccount_clean]).
    - Money in and out: a deposit is credited once, a withdrawal is debited once and
      given back exactly when restored, states move along their machine only
      ([withdrawal_lifecycle], by which a failed withdrawal's debit stands for good);
      allowances plus open batches never grow but by the mirror.
    - The arithmetic: exact costs and fees, the reservation covers any usage within
      its ceilings, 64-bit overflow is an error exactly where the code checks it.
    - Codecs and commitments: base58 and Solana messages round trip and are
      canonical, Merkle paths verify, and a forgery is a SHA-256 collision.
    - Access: the handler answers the holder of a token or a credential and, for a
      partition spelled exactly, computes a declarative policy ([HandlerV2_policy]);
      version 1 of the evaluator is version 2 on one route.
    - Workers: the watcher's cursor passes no signature whose transaction, as the reader
      returned it, has a transfer without a row ([watcher_passes_nothing_unread]), and
      every pass ends ([watcher_pass_ends]); a withdrawal and a settlement batch move only
      for cause, and give their money back only when the transfer cannot land
      ([withdrawals_move_for_cause], [settlements_move_for_cause]), up to the race that
      [restore_races_landing] shows; an observation of the poller makes the registry the
      chain's; inclusion proofs verify against the reported root
      ([merkle_proof_verifies]).
    - The market: a request is forwarded only with a reservation for the peers it names,
      priced on the snapshot, the asks and the caps that it read itself
      ([enforced_forward]), at the cheapest eligible quotes ([quotes_cheapest]), as it
      came but for bounded output fields ([Inspect_forwards]); its response is observed
      once however it is cut and charged exactly, within the reservation
      ([gated_response_charged]).
    - The whole: every process changes the database by store operations only
      ([works_steps]), so what is shown of reachable states holds while they all run.
    - The directory: well-formed in every reachable state ([directory_sound]); its
      wallet table is the map of links the billing store reads
      ([wallet_links_refine]); a consumed challenge, a revoked key and a completed
      claim stay spent ([credentials_spent_once]); deploy keys stay in their budget.
    - The way in: without an accepted key or session no handler behind the middlewares
      makes a difference ([doors_are_guarded]); a revoked key stays out once its verdicts
      are purged ([revoked_key_stays_out]); node credentials and asks need the peer's
      proof and a live provider ([credential_needs_proof], [publication_verified],
      [accepted_token_signed]).
    - The console: a wallet is linked by its signature, an instance registered for the
      wallet it is seen with, a peer joined by its own key
      ([wallet_link_needs_signature], [registration_needs_live_wallet],
      [link_needs_proof]); the billing endpoints change and show one account
      ([billing_api_isolated]), answer in every case as [withdrawal_answers] says and page
      through a list without loss ([pages_complete]); rules that are accepted read back
      ([accepted_rules_read_back]); the faucet pays an account no more once a claim of it
      was completed ([faucet_pays_once]).
    - The edges: how a response is cut does not change what is taken for reasoning
      ([chunks_do_not_matter]) and the blocks made of it are numbered without gaps; the
      public catalogue lists exactly what is advertised and not kept to a region
      ([catalogue_lists_exposed]); the RPC
      proxy forwards listed calls ([forwarded_calls_are_listed]); a configuration that
      loads fits together ([loaded_configuration_is_coherent]).
    - What the code gets wrong, as theorems on the same definitions: the on-chain
      answers it cannot read, deposits that block the watcher, a withdrawal paid and
      restored, a failed withdrawal whose credit never returns, the settlement message that cannot execute, anchored legs that move
      again, denied worker routes, a trusted partition reached by its case, a pooled
      buffer reused while it is read, answers served free, consumed allowances granted
      again while their batch is in flight, a faucet payout sent again after a lost answer,
      a verdict that outlives its key, a method hidden from the RPC proxy's list, text lost
      from responses without markers.

    ** Fuel

    Recursion that is not structural has fuel, and a lemma that it is enough:
    [AppendCompactU16] takes 10 rounds (ceil(64/7)), the extended Euclid of the curve
    test 800 steps (each pair of steps halves a 255-bit number), [FindProgramAddress]
    256 bumps, the Merkle loops the number of leaves, each of which is proved or
    evident from the loop's own bound; a scan over a text its length ([feed_fuel],
    [strip_fuel], [readSSEFrame_fuel], [frames_concat]).  The watcher's page loop is bounded by
    nothing in the code: [watcher_pass_ends] proves that it ends.

    ** Not modelled

    Left out are the start-up of the processes and the command-line tools under cmd/
    (they construct the services and run their loops), the reverse proxy itself
    (httputil.ReverseProxy with two hooks), cookies, logging, the tracing and performance
    exporters and the SQL and HTTP text of the analytics queries: nothing reads them back.
    JSON replies are values: how a struct is written as text is modelled where it is read
    again (tokens, signed messages, challenges).  Third-party code (pgx, ed25519, libp2p,
    the identity provider, the node) is a parameter wherever the modelled code calls it.
    The token buckets compute with floating point and are arguments of their handlers;
    so are url.Parse, time.ParseDuration and strconv.ParseFloat in the configuration, and
    the order in which Go walks a map. *)
From Stdlib Require Import ZArith Lia.
From stdpp Require Import base gmap strings list fin_maps countable sorting.

Open Scope Z_scope.

(** ** Go machine integers

    Go's [int] and [int64] are 64-bit two's complement on every platform the
    server is built for; [+], [-] and [*] wrap around silently, [/] truncates
    towards zero ([Z.quot]) and [%] takes the dividend's sign ([Z.rem]). *)
Definition two63 : Z := 9223372036854775808.
Definition two64 : Z := 18446744073709551616.
Definition maxI64 : Z := two63 - 1.
Definition i64 (z : Z) : Z := (z + two63) mod two64 - two63.
Definition u64 (z : Z) : Z := z mod two64.
Definition u32 (z : Z) : Z := z mod 4294967296.
Definition in_i64 (z : Z) : Prop := - two63 <= z < two63.
Definition in_i32 (z : Z) : Prop := - 2147483648 <= z < 2147483648.

#[export] Instance in_i64_dec z : Decision (in_i64 z) := decide (- two63 <= z < two63).
#[export] Instance in_i32_dec z : Decision (in_i32 z) :=
  decide (- 2147483648 <= z < 2147483648).

Ltac unfold_i64 := unfold i64, in_i64, maxI64, two63, two64 in *.

Lemma i64_id z : in_i64 z -> i64 z = z.
Proof. unfold_i64. intros H. rewrite Z.mod_small; lia. Qed.

Lemma i64_range z : in_i64 (i64 z).
Proof.
  unfold_i64.
  pose proof (Z.mod_pos_bound (z + 9223372036854775808) 18446744073709551616). lia.
Qed.

(** The wrapped value differs from the true one by a multiple of 2^64. *)
Lemma i64_congr z : exists k, i64 z = z + k * two64.
Proof.
  exists (- ((z + two63) / two64)). unfold_i64.
  pose proof (Z.div_mod (z + 9223372036854775808) 18446744073709551616). lia.
Qed.

Lemma i64_idem z : i64 (i64 z) = i64 z.
Proof. apply i64_id, i64_range. Qed.

Lemma i64_add_l a b : i64 (i64 a + b) = i64 (a + b).
Proof.
  unfold_i64.
  replace ((a + 9223372036854775808) mod 18446744073709551616 - 9223372036854775808 + b
           + 9223372036854775808)
    with ((a + 9223372036854775808) mod 18446744073709551616 + b) by lia.
  rewrite Zplus_mod_idemp_l. do 2 f_equal. lia.
Qed.

Lemma i64_add_r a b : i64 (a + i64 b) = i64 (a + b).
Proof. rewrite Z.add_comm, i64_add_l. f_equal. lia. Qed.

(** ** Errors

    Go errors are values.  A sentinel ([errors.New]) is identified by its
    text (the texts of the repository's sentinels are distinct), a
    [fmt.Errorf] without [%w] keeps its format string, with [%w] it also keeps
    the wrapped error, and a server error carries its SQLSTATE. *)
Inductive err :=
  | Sentinel (text : string)
  | Errorf (format : string)
  | Wrapf (format : string) (e : err)
  | PgError (code : string).

#[export] Instance err_eq_dec : EqDecision err.
Proof. solve_decision. Defined.

(** [errors.Is(e, target)] for a sentinel target. *)
Fixpoint errors_is (e target : err) : bool :=
  bool_decide (e = target) ||
  match e with Wrapf _ e' => errors_is e' target | _ => false end.

(** [errors.As(e, &pgErr)]: the SQLSTATE carried by the chain, if any. *)
Fixpoint pg_code (e : err) : option string :=
  match e with
  | PgError c => Some c
  | Wrapf _ e' => pg_code e'
  | _ => None
  end.

(** ** Results: a Go function returning [(A, error)] *)
Inductive res (A : Type) :=
  | Ok (a : A)
  | Err (e : err).
Arguments Ok {A} a.
Arguments Err {A} e.

#[export] Instance res_eq_dec {A} `{EqDecision A} : EqDecision (res A).
Proof. solve_decision. Defined.

Definition res_bind {A B} (r : res A) (k : A -> res B) : res B :=
  match r with Ok a => k a | Err e => Err e end.

Declare Scope go_scope.
Delimit Scope go_scope with go.
Notation "'let?' x ':=' r 'in' k" := (res_bind r (fun x => k))
  (at level 10, x name, r at level 100, k at level 200) : go_scope.

Definition is_ok {A} (r : res A) : bool := match r with Ok _ => true | Err _ => false end.

Lemma res_bind_Ok {A B} (r : res A) (k : A -> res B) b :
  res_bind r k = Ok b <-> exists a, r = Ok a /\ k a = Ok b.
Proof. destruct r; simpl; naive_solver. Qed.

(** ** Automation *)
Create HintDb otela discriminated.
Create HintDb tame discriminated.
Create HintDb moves discriminated.

(** Case analysis on the scrutinee of a match or a conditional. *)
Ltac case_match_eqn :=
  match goal with
  | |- context [match ?x with _ => _ end] => let E := fresh "E" in destruct x eqn:E
  | H : context [match ?x with _ => _ end] |- _ => let E := fresh "E" in destruct x eqn:E
  end.

(** Turn boolean comparisons on integers into propositions. *)
Ltac zb :=
  repeat match goal with
  | H : (_ && _)%bool = true |- _ => apply andb_true_iff in H as [? ?]
  | H : (_ && _)%bool = false |- _ => apply andb_false_iff in H as [?|?]
  | H : (_ || _)%bool = false |- _ => apply orb_false_iff in H as [? ?]
  | H : (_ || _)%bool = true |- _ => apply orb_true_iff in H as [?|?]
  | H : negb _ = true |- _ => apply negb_true_iff in H
  | H : negb _ = false |- _ => apply negb_false_iff in H
  | H : (_ <? _) = true |- _ => apply Z.ltb_lt in H
  | H : (_ <? _) = false |- _ => apply Z.ltb_ge in H
  | H : (_ <=? _) = true |- _ => apply Z.leb_le in H
  | H : (_ <=? _) = false |- _ => apply Z.leb_gt in H
  | H : (_ =? _) = true |- _ => apply Z.eqb_eq in H
  | H : (_ =? _) = false |- _ => apply Z.eqb_neq in H
  | H : (_ >? _) = _ |- _ => rewrite Z.gtb_ltb in H
  | H : (_ >=? _) = _ |- _ => rewrite Z.geb_leb in H
  | H : bool_decide _ = true |- _ => apply bool_decide_eq_true in H
  | H : bool_decide _ = false |- _ => apply bool_decide_eq_false in H
  | H : String.eqb _ _ = true |- _ => apply String.eqb_eq in H
  | H : String.eqb _ _ = false |- _ => apply String.eqb_neq in H
  end.

(** ** Times

    A [time.Time] is the instant as an integer number of nanoseconds since the
    Unix epoch; Go's zero time ([IsZero]) is January 1 of year 1. *)
Notation time := Z (only parsing).
Definition zeroTime : time := -62135596800000000000.
Definition IsZero (t : time) : bool := t =? zeroTime.

(** ** Sums over the rows of a table *)
Section MapSum.
Context {K : Type} `{Countable K} {A : Type}.
Implicit Types m : gmap K A.

Definition map_sum (f : A -> Z) (m : gmap K A) : Z :=
  map_fold (fun _ a s => f a + s) 0 m.

Lemma map_sum_empty f : map_sum f ∅ = 0.
Proof. apply map_fold_empty. Qed.

Lemma map_sum_insert_new f m k a :
  m !! k = None -> map_sum f (<[k:=a]> m) = f a + map_sum f m.
Proof.
  intros. unfold map_sum. rewrite map_fold_insert_L; [done| |done].
  intros; lia.
Qed.

Lemma map_sum_delete f m k a :
  m !! k = Some a -> map_sum f m = f a + map_sum f (delete k m).
Proof.
  intros. rewrite <- (map_sum_insert_new f (delete k m) k) by apply lookup_delete_eq.
  by rewrite insert_delete_id.
Qed.

Lemma map_sum_insert f m k a b :
  m !! k = Some a -> map_sum f (<[k:=b]> m) = map_sum f m - f a + f b.
Proof.
  intros. rewrite (map_sum_delete f m k a) by done.
  rewrite <- insert_delete_eq, map_sum_insert_new by apply lookup_delete_eq.
  lia.
Qed.

Lemma map_sum_ext f g m :
  (forall k a, m !! k = Some a -> f a = g a) -> map_sum f m = map_sum g m.
Proof.
  induction m as [|k a m Hk IH] using map_ind; intros Heq.
  - by rewrite !map_sum_empty.
  - rewrite !map_sum_insert_new by done. rewrite IH, (Heq k a).
    + done.
    + apply lookup_insert_eq.
    + intros k' a' ?. apply (Heq k'). rewrite lookup_insert_ne; [done|congruence].
Qed.

Lemma map_sum_nonneg f m :
  (forall k a, m !! k = Some a -> 0 <= f a) -> 0 <= map_sum f m.
Proof.
  induction m as [|k a m Hk IH] using map_ind; intros Hf.
  - by rewrite map_sum_empty.
  - rewrite map_sum_insert_new by done.
    assert (0 <= f a) by (apply (Hf k); apply lookup_insert_eq).
    assert (0 <= map_sum f m); [|lia]. apply IH. intros k' a' ?.
    apply (Hf k'). rewrite lookup_insert_ne; [done|congruence].
Qed.

(** One row's share is at most the sum when every share is non-negative. *)
Lemma map_sum_lookup_le f m k a :
  (forall k a, m !! k = Some a -> 0 <= f a) ->
  m !! k = Some a -> f a <= map_sum f m.
Proof.
  intros Hf Hk. rewrite (map_sum_delete f m k a) by done.
  assert (0 <= map_sum f (delete k m)); [|lia].
  apply map_sum_nonneg. intros k' a' [_ ?]%lookup_delete_Some. eauto.
Qed.
End MapSum.

(** ** ORDER BY ... LIMIT over the rows of a table *)
Section Select.
Context {K : Type} `{Countable K} {A : Type}.
Context (R : relation (K * A)) `{!RelDecision R} (P : K * A -> Prop) `{!forall x, Decision (P x)}.

Definition select (n : nat) (m : gmap K A) : list (K * A) :=
  take n (merge_sort R (filter P (map_to_list m))).

Lemma select_In n m k a : (k, a) ∈ select n m -> m !! k = Some a /\ P (k, a).
Proof.
  unfold select. intros (i & Hi & _)%elem_of_take.
  apply list_elem_of_lookup_2 in Hi. rewrite merge_sort_Permutation in Hi.
  apply list_elem_of_filter in Hi as [HP Hm].
  by apply elem_of_map_to_list in Hm.
Qed.

Lemma select_NoDup n m : NoDup (select n m).*1.
Proof.
  eapply sublist_NoDup; [|apply fmap_sublist, sublist_take].
  rewrite merge_sort_Permutation.
  eapply sublist_NoDup; [apply (NoDup_fst_map_to_list m)|]. apply fmap_sublist, sublist_filter.
Qed.
End Select.

(** Lists left whole or emptied by a filter. *)
Lemma filter_every {A} (P : A -> Prop) `{!forall x, Decision (P x)} l : Forall P l -> filter P l = l.
Proof. induction 1 as [|x l Hx _ IH]; [done|]. by rewrite filter_cons_True, IH. Qed.
Lemma filter_none {A} (P : A -> Prop) `{!forall x, Decision (P x)} l : Forall (fun x => ~ P x) l -> filter P l = [].
Proof. induction 1 as [|x l Hx _ IH]; [done|]. by rewrite filter_cons_False. Qed.

(** Relations that decide alike sort alike. *)
Lemma list_merge_cons {A} (R : relation A) `{!RelDecision R} x l1 y l2 :
  list_merge R (x :: l1) (y :: l2) =
  if decide (R x y) then x :: list_merge R l1 (y :: l2) else y :: list_merge R (x :: l1) l2.
Proof. reflexivity. Qed.
Section SortExt.
Context {A : Type} (R S : relation A) `{!RelDecision R} `{!RelDecision S}.
Hypothesis (HRS : forall x y, R x y <-> S x y).

Lemma list_merge_ext l1 : forall l2, list_merge R l1 l2 = list_merge S l1 l2.
Proof using HRS.
  induction l1 as [|x l1 IH]; [by intros [|]|]. induction l2 as [|y l2 IH2]; [done|]. rewrite !list_merge_cons.
  rewrite (decide_ext (R x y) (S x y)) by apply HRS. by rewrite IH, IH2.
Qed.
Lemma merge_sort_ext l : merge_sort R l = merge_sort S l.
Proof using HRS.
  unfold merge_sort. generalize (@nil (option (list A))) as st. induction l as [|x l IH]; intros st; simpl.
  - induction st as [|[l|] st IH]; simpl; [done| |done]. by rewrite IH, list_merge_ext.
  - rewrite IH. f_equal. generalize [x]. induction st as [|[l'|] st IHs]; intros l2; simpl; [done| |done].
    by rewrite list_merge_ext, IHs.
Qed.
End SortExt.

(** Sums over lists of rows. *)
Definition list_sum_by {A} (f : A -> Z) (l : list A) : Z :=
  foldr (fun a s => f a + s) 0 l.

Lemma list_sum_by_app {A} (f : A -> Z) l1 l2 :
  list_sum_by f (l1 ++ l2) = list_sum_by f l1 + list_sum_by f l2.
Proof. induction l1 as [|a l1 IH]; simpl; [done|]. unfold list_sum_by in *. lia. Qed.

Lemma list_sum_by_nonneg {A} (f : A -> Z) l :
  (forall a, a ∈ l -> 0 <= f a) -> 0 <= list_sum_by f l.
Proof.
  induction l as [|a l IH]; simpl; intros Hf; [done|].
  assert (0 <= f a) by (apply Hf; left). unfold list_sum_by in *.
  assert (0 <= foldr (fun a s => f a + s) 0 l) by (apply IH; intros; apply Hf; by right). lia.
Qed.

#[export] Hint Resolve i64_range i64_idem map_sum_empty list_sum_by_nonneg : otela.
