(* ===== verification/Billing.v ===== *)
(** * internal/billing: the market and settlement contract

    The pure, database-free half of billing: prices, caps, the credit
    projection, checked 64-bit cost arithmetic and the conservative
    reservation ([src/internal/billing/billing.go]).  A Go [*int64] is an
    [option Z]; every other integer is a [Z] whose wrap-around is written
    where the code can reach it. *)
From Stdlib Require Import ZArith Lia.
From stdpp Require Import base gmap strings list fin_maps.
From S2P Require Import Prelude.

Open Scope Z_scope.

Definition Million : Z := 1000000.
Definition MaxBaseRate : Z := 1000000000000.

(** ** Data *)
Record Ask := mkAsk {
  ak_PeerID : string; ak_Service : string; ak_Model : string;
  ak_InputPerMillion : Z; ak_CachedInputPerMillion : Z; ak_OutputPerMillion : Z;
  ak_Revision : Z; ak_ExpiresAt : time; ak_UpdatedAt : time }.

Record Caps := mkCaps {
  InputPerMillion : option Z;
  CachedInputPerMillion : option Z;
  OutputPerMillion : option Z }.

Record ModelCaps := mkModelCaps {
  mc_Service : string; mc_Model : string;
  mc_InputPerMillion : option Z;
  mc_CachedInputPerMillion : option Z;
  mc_OutputPerMillion : option Z }.

Record EligiblePeerQuote := mkQuote {
  q_PeerID : string; q_SellerAccountID : string; q_OwnerWallet : string;
  q_Revision : Z;
  q_InputPerMillion : Z; q_CachedInputPerMillion : Z; q_OutputPerMillion : Z }.

Record Usage := mkUsage {
  InputTokens : Z; CachedInputTokens : Z; OutputTokens : Z }.

Record AccountCredit := mkAccountCredit {
  ac_AccountID : string;
  CreditRaw : Z; ReservedRaw : Z;
  MaxCaps : Caps; (* MaxInputPerMillion, MaxCachedInputPerMillion, MaxOutputPerMillion *)
  ac_UpdatedAt : time }.

Record Allowance := mkAllowance {
  al_AccountID : string; al_Delegate : string; AllowanceRaw : Z;
  ApprovedAt : time; RevokedAt : option time }.

#[export] Instance Caps_eq_dec : EqDecision Caps.
Proof. solve_decision. Defined.
#[export] Instance EligiblePeerQuote_eq_dec : EqDecision EligiblePeerQuote.
Proof. solve_decision. Defined.
#[export] Instance Usage_eq_dec : EqDecision Usage.
Proof. solve_decision. Defined.
#[export] Instance AccountCredit_eq_dec : EqDecision AccountCredit.
Proof. solve_decision. Defined.
#[export] Instance Allowance_eq_dec : EqDecision Allowance.
Proof. solve_decision. Defined.
#[export] Instance Ask_eq_dec : EqDecision Ask.
Proof. solve_decision. Defined.

(** ** Sentinel errors *)
Definition ErrInsufficientCredit := Sentinel "billing: insufficient credit".
Definition ErrPriceAboveMax := Sentinel "billing: price above max".
Definition ErrBillingAccountRequired := Sentinel "billing: account required".
Definition ErrBillingUnsupportedRoute := Sentinel "billing: unsupported route".
Definition ErrBillingUnavailable := Sentinel "billing: unavailable".
Definition ErrNotFound := Sentinel "billing: not found".
Definition ErrConflict := Sentinel "billing: conflict".
Definition ErrInvalid := Sentinel "billing: invalid".
Definition ErrOverflow := Sentinel "billing: overflow".

Definition TreasuryAccountID : string := "treasury".

(** ** Prices and caps *)
Definition empty (c : Caps) : bool :=
  match InputPerMillion c, CachedInputPerMillion c, OutputPerMillion c with
  | None, None, None => true
  | _, _, _ => false
  end.

Definition BillableProvider (sellerAccountID ownerWallet : string) : bool :=
  negb (String.eqb sellerAccountID "") && negb (String.eqb ownerWallet "").

Definition Affordable (q : EligiblePeerQuote) (caps : Caps) : bool :=
  if match InputPerMillion caps with Some c => q_InputPerMillion q >? c | None => false end
  then false
  else if match CachedInputPerMillion caps with
          | Some c => q_CachedInputPerMillion q >? c | None => false end
  then false
  else if match OutputPerMillion caps with Some c => q_OutputPerMillion q >? c | None => false end
  then false
  else true.

Definition override (row base : option Z) : option Z :=
  match row with Some _ => row | None => base end.

(** The loop of [Effective] stops at the first row of the (service, model). *)
Fixpoint Effective (flat : Caps) (rows : list ModelCaps) (service model : string) : Caps :=
  match rows with
  | [] => flat
  | r :: rest =>
    if negb (String.eqb (mc_Service r) service) || negb (String.eqb (mc_Model r) model)
    then Effective flat rest service model
    else mkCaps (override (mc_InputPerMillion r) (InputPerMillion flat))
                (override (mc_CachedInputPerMillion r) (CachedInputPerMillion flat))
                (override (mc_OutputPerMillion r) (OutputPerMillion flat))
  end.

Definition tighterCap (account request : option Z) : option Z :=
  match account, request with
  | None, _ => request
  | _, None => account
  | Some a, Some r => if r <? a then request else account
  end.

Definition MergeCaps (account request : Caps) : Caps :=
  mkCaps (tighterCap (InputPerMillion account) (InputPerMillion request))
         (tighterCap (CachedInputPerMillion account) (CachedInputPerMillion request))
         (tighterCap (OutputPerMillion account) (OutputPerMillion request)).

(** ** The credit projection *)
Definition Available (c : AccountCredit) : Z := i64 (CreditRaw c - ReservedRaw c).

Definition Active (a : Allowance) : bool :=
  match RevokedAt a with None => AllowanceRaw a >? 0 | Some _ => false end.

Definition sumActive (allowances : list Allowance) : Z :=
  fold_left (fun sum a => if Active a then i64 (sum + AllowanceRaw a) else sum) allowances 0.

Definition DelegationAvailable (credit : AccountCredit) (allowances : list Allowance) : Z :=
  let sum := sumActive allowances in
  let avail := Available credit in
  if avail <? 0 then 0
  else if (sum >? 0) && (sum <? avail) then sum
  else avail.

(** ** Checked arithmetic *)
Definition checkedMul (a b : Z) : res Z :=
  if (a <? 0) || (b <? 0) then Err ErrOverflow
  else if (a =? 0) || (b =? 0) then Ok 0
  else let r := i64 (a * b) in
       if negb (Z.quot r a =? b) then Err ErrOverflow else Ok r.

Definition checkedAdd (a b : Z) : res Z :=
  if (a <? 0) || (b <? 0) then Err ErrOverflow
  else let r := i64 (a + b) in
       if r <? a then Err ErrOverflow else Ok r.

Definition checkedSub (a b : Z) : res Z :=
  if (a <? 0) || (b <? 0) then Err ErrOverflow
  else if a <? b then Err ErrOverflow
  else Ok (i64 (a - b)).

Open Scope go_scope.

Definition ceilDiv (num den : Z) : res Z :=
  if den <=? 0 then Err (Errorf "billing: non-positive divisor %d")
  else if num <? 0 then Err ErrOverflow
  else let? rounded := checkedAdd num (i64 (den - 1)) in Ok (Z.quot rounded den).

Definition Cost (regularInput cachedInput output inRate cachedRate outRate : Z) : res Z :=
  if (regularInput <? 0) || (cachedInput <? 0) || (output <? 0)
  then Err (Errorf "billing: negative tokens (%d,%d,%d)")
  else if (inRate <? 0) || (cachedRate <? 0) || (outRate <? 0)
  then Err (Errorf "billing: negative rate (%d,%d,%d)")
  else
    let? pIn := checkedMul inRate regularInput in
    let? pCached := checkedMul cachedRate cachedInput in
    let? pOut := checkedMul outRate output in
    let? sum := checkedAdd pIn pCached in
    let? sum := checkedAdd sum pOut in
    if sum =? 0 then Ok 0 else ceilDiv sum Million.

(** [Fee] returns (feeRaw, sellerRaw). *)
Definition Fee (costRaw feeBps : Z) : res (Z * Z) :=
  if costRaw <? 0 then Err ErrOverflow
  else
    let feeBps := if feeBps <? 0 then 0 else feeBps in
    let feeBps := if feeBps >? 10000 then 10000 else feeBps in
    if (feeBps =? 0) || (costRaw =? 0) then Ok (0, costRaw)
    else
      let? num := checkedMul costRaw feeBps in
      let feeRaw := Z.quot num 10000 in
      let? sellerRaw := checkedSub costRaw feeRaw in
      Ok (feeRaw, sellerRaw).

Definition worstCaseCost (q : EligiblePeerQuote) (inputCeil outputCeil : Z) : res Z :=
  if (inputCeil <? 0) || (outputCeil <? 0)
  then Err (Errorf "billing: negative ceiling (%d,%d)")
  else
    let inRate := if q_CachedInputPerMillion q >? q_InputPerMillion q
                  then q_CachedInputPerMillion q else q_InputPerMillion q in
    let? pIn := checkedMul inRate inputCeil in
    let? pOut := checkedMul (q_OutputPerMillion q) outputCeil in
    let? sum := checkedAdd pIn pOut in
    if sum =? 0 then Ok 0 else ceilDiv sum Million.

Fixpoint reserveMax (quotes : list EligiblePeerQuote) (inputCeil outputCeil max : Z) : res Z :=
  match quotes with
  | [] => Ok max
  | q :: rest =>
    let? c := worstCaseCost q inputCeil outputCeil in
    reserveMax rest inputCeil outputCeil (if c >? max then c else max)
  end.

Definition ReserveAmount (quotes : list EligiblePeerQuote) (inputCeil outputCeil : Z) : res Z :=
  reserveMax quotes inputCeil outputCeil 0.

Close Scope go_scope.

(** ** Checked arithmetic is exact or reports overflow *)
Definition nonneg64 (z : Z) : Prop := 0 <= z <= maxI64.

Lemma nonneg64_i64 z : nonneg64 z -> i64 z = z.
Proof. unfold nonneg64. intros. apply i64_id. unfold_i64. lia. Qed.

#[export] Hint Unfold nonneg64 : otela.

(** The 64-bit wrap of a too large product has a smaller quotient. *)
Lemma mul_wrap_detected a b :
  0 < a -> 0 < b -> maxI64 < a * b -> Z.quot (i64 (a * b)) a <> b.
Proof.
  intros Ha Hb Hov Heq.
  destruct (i64_congr (a * b)) as [k Hk].
  pose proof (i64_range (a * b)) as Hr.
  assert (k < 0) by (unfold_i64; nia).
  assert (Hlt : i64 (a * b) < a * b) by (unfold two64 in *; nia).
  destruct (Z.le_gt_cases 0 (i64 (a * b))) as [Hnn|Hneg].
  - rewrite Z.quot_div_nonneg in Heq by lia.
    pose proof (Z.mul_div_le (i64 (a * b)) a Ha) as Hle. rewrite Heq in Hle. lia.
  - assert (Z.quot (i64 (a * b)) a <= 0); [|lia].
    apply Z.opp_nonneg_nonpos. rewrite <- Z.quot_opp_l by lia.
    apply Z.quot_pos; lia.
Qed.

Lemma checkedMul_eq a b :
  nonneg64 a -> nonneg64 b ->
  checkedMul a b = if a * b <=? maxI64 then Ok (a * b) else Err ErrOverflow.
Proof.
  unfold checkedMul. intros Ha Hb.
  destruct (a <? 0) eqn:?, (b <? 0) eqn:?; zb; try (destruct Ha, Hb; lia). simpl.
  destruct (a =? 0) eqn:?; [zb; subst; done|].
  destruct (b =? 0) eqn:?; [zb; subst; by rewrite Z.mul_0_r|]. simpl.
  zb. destruct Ha as [? _], Hb as [? _].
  destruct (a * b <=? maxI64) eqn:Hle; zb.
  - rewrite nonneg64_i64 by (unfold nonneg64; nia).
    rewrite Z.mul_comm, Z.quot_mul, Z.eqb_refl by lia. done.
  - pose proof (mul_wrap_detected a b ltac:(lia) ltac:(lia) ltac:(lia)).
    destruct (Z.quot _ _ =? b) eqn:?; zb; [done|done].
Qed.

Lemma checkedAdd_eq a b :
  nonneg64 a -> nonneg64 b ->
  checkedAdd a b = if a + b <=? maxI64 then Ok (a + b) else Err ErrOverflow.
Proof.
  unfold checkedAdd, nonneg64. intros Ha Hb.
  destruct (a <? 0) eqn:?, (b <? 0) eqn:?; zb; try lia. simpl.
  destruct (a + b <=? maxI64) eqn:Hle; zb.
  - rewrite nonneg64_i64 by (unfold nonneg64; lia).
    destruct (a + b <? a) eqn:?; zb; [lia|done].
  - destruct (i64 (a + b) <? a) eqn:Hlt; zb; [done|].
    destruct (i64_congr (a + b)) as [k Hk]. pose proof (i64_range (a + b)).
    unfold_i64. lia.
Qed.

Lemma checkedSub_eq a b :
  nonneg64 a -> nonneg64 b ->
  checkedSub a b = if b <=? a then Ok (a - b) else Err ErrOverflow.
Proof.
  unfold checkedSub, nonneg64. intros Ha Hb.
  destruct (a <? 0) eqn:?, (b <? 0) eqn:?; zb; try lia. simpl.
  destruct (a <? b) eqn:?, (b <=? a) eqn:?; zb; try lia; [done|].
  rewrite nonneg64_i64; [done|unfold nonneg64; lia].
Qed.

(** [ceil_div n d] is the mathematical ceiling. *)
Definition ceil_div (n d : Z) : Z := - ((- n) / d).

Lemma ceil_div_alt n d : 0 < d -> ceil_div n d = (n + (d - 1)) / d.
Proof.
  intros Hd. unfold ceil_div.
  pose proof (Z.div_mod n d ltac:(lia)). pose proof (Z.mod_pos_bound n d Hd).
  pose proof (Z.div_mod (-n) d ltac:(lia)). pose proof (Z.mod_pos_bound (-n) d Hd).
  pose proof (Z.div_mod (n + (d - 1)) d ltac:(lia)).
  pose proof (Z.mod_pos_bound (n + (d-1)) d Hd). nia.
Qed.

Lemma ceil_div_mono n m d : 0 < d -> n <= m -> ceil_div n d <= ceil_div m d.
Proof.
  intros. rewrite !ceil_div_alt by done. apply Z.div_le_mono; lia.
Qed.

Lemma ceil_div_0 d : ceil_div 0 d = 0.
Proof. unfold ceil_div. simpl. by rewrite Zdiv_0_l. Qed.

Lemma ceilDiv_eq num den :
  nonneg64 num -> 0 < den <= maxI64 ->
  ceilDiv num den = if num + (den - 1) <=? maxI64 then Ok (ceil_div num den) else Err ErrOverflow.
Proof.
  unfold ceilDiv. intros Hn Hd.
  destruct (den <=? 0) eqn:?, (num <? 0) eqn:?; zb; unfold nonneg64 in *; try lia.
  rewrite (nonneg64_i64 (den - 1)) by (unfold nonneg64; lia).
  rewrite checkedAdd_eq by (unfold nonneg64; lia).
  destruct (_ <=? maxI64) eqn:?; zb; simpl; [|done].
  rewrite Z.quot_div_nonneg, ceil_div_alt by lia. done.
Qed.

(** The charge of a request before rounding: rates are per [Million] tokens. *)
Definition rawCost (reg cached out inR cR outR : Z) : Z :=
  inR * reg + cR * cached + outR * out.

(** The value a checked "sum, then round up to the million" computation has. *)
Definition roundedCharge (sum : Z) : res Z :=
  if sum =? 0 then Ok 0
  else if sum + (Million - 1) <=? maxI64 then Ok (ceil_div sum Million) else Err ErrOverflow.

Lemma roundedCharge_overflow sum : maxI64 < sum -> roundedCharge sum = Err ErrOverflow.
Proof.
  unfold roundedCharge, Million. intros.
  destruct (sum =? 0) eqn:?; zb; [unfold_i64; lia|].
  destruct (_ <=? _) eqn:?; zb; [lia|done].
Qed.

Lemma ceilDiv_Million sum :
  nonneg64 sum ->
  (if sum =? 0 then Ok 0 else ceilDiv sum Million) = roundedCharge sum.
Proof.
  intros. unfold roundedCharge. destruct (sum =? 0); [done|].
  apply ceilDiv_eq; [done|]. unfold Million. unfold_i64. lia.
Qed.

(** Step lemma shared by the checked cost computations: a checked operation
    either continues with the exact value or the total overflows too. *)
Lemma checked_then (x total : Z) (k : Z -> res Z) :
  0 <= x <= total -> (x <= maxI64 -> k x = roundedCharge total) ->
  res_bind (if x <=? maxI64 then Ok x else Err ErrOverflow) k = roundedCharge total.
Proof.
  intros Hx Hk. destruct (x <=? maxI64) eqn:?; zb; simpl; [by apply Hk|].
  symmetry. apply roundedCharge_overflow. lia.
Qed.

Lemma Cost_eq reg cached out inR cR outR :
  nonneg64 reg -> nonneg64 cached -> nonneg64 out ->
  nonneg64 inR -> nonneg64 cR -> nonneg64 outR ->
  Cost reg cached out inR cR outR = roundedCharge (rawCost reg cached out inR cR outR).
Proof.
  intros Hr Hc Ho Hir Hcr Hor. unfold Cost, rawCost.
  destruct (reg <? 0) eqn:?, (cached <? 0) eqn:?, (out <? 0) eqn:?; zb; unfold nonneg64 in *; try lia.
  destruct (inR <? 0) eqn:?, (cR <? 0) eqn:?, (outR <? 0) eqn:?; zb; try lia. simpl.
  rewrite (checkedMul_eq inR), (checkedMul_eq cR), (checkedMul_eq outR) by done.
  apply checked_then; [nia|]. intros.
  apply checked_then; [nia|]. intros.
  apply checked_then; [nia|]. intros.
  rewrite checkedAdd_eq by (unfold nonneg64; nia).
  apply checked_then; [nia|]. intros.
  rewrite checkedAdd_eq by (unfold nonneg64; nia).
  apply checked_then; [nia|]. intros.
  apply ceilDiv_Million. unfold nonneg64; nia.
Qed.

(** C22: the charge is the exact rounded-up combined price, or [ErrOverflow] when
    the price does not fit the signed 64-bit computation; no wrapped value is
    ever returned. *)
Theorem Cost_exact reg cached out inR cR outR :
  nonneg64 reg -> nonneg64 cached -> nonneg64 out ->
  nonneg64 inR -> nonneg64 cR -> nonneg64 outR ->
  Cost reg cached out inR cR outR = roundedCharge (rawCost reg cached out inR cR outR).
Proof. exact (Cost_eq reg cached out inR cR outR). Qed.

Lemma Cost_exact_witness :
  Cost 1000 500 2000 150 15 600 = Ok 2 /\
  Cost 9223372036854775807 0 0 2 0 0 = roundedCharge (rawCost 9223372036854775807 0 0 2 0 0).
Proof.
  split; [reflexivity|].
  apply (Cost_exact 9223372036854775807 0 0 2 0 0); unfold nonneg64; unfold_i64; lia.
Defined.

Lemma worstCaseCost_eq q ic oc :
  nonneg64 ic -> nonneg64 oc -> nonneg64 (q_InputPerMillion q) ->
  nonneg64 (q_CachedInputPerMillion q) -> nonneg64 (q_OutputPerMillion q) ->
  worstCaseCost q ic oc =
  roundedCharge (Z.max (q_InputPerMillion q) (q_CachedInputPerMillion q) * ic + q_OutputPerMillion q * oc).
Proof.
  intros Hi Ho Hir Hcr Hor. unfold worstCaseCost.
  destruct (ic <? 0) eqn:?, (oc <? 0) eqn:?; zb; unfold nonneg64 in *; try lia. simpl.
  replace (if q_CachedInputPerMillion q >? q_InputPerMillion q then _ else _)
    with (Z.max (q_InputPerMillion q) (q_CachedInputPerMillion q))
    by (destruct (_ >? _) eqn:?; zb; lia).
  rewrite (checkedMul_eq (Z.max _ _)), (checkedMul_eq (q_OutputPerMillion q)) by (unfold nonneg64; lia).
  apply checked_then; [nia|]. intros.
  apply checked_then; [nia|]. intros.
  rewrite checkedAdd_eq by (unfold nonneg64; nia).
  apply checked_then; [nia|]. intros.
  apply ceilDiv_Million. unfold nonneg64; nia.
Qed.

(** ** The conservative reservation *)
Definition quote_ok (q : EligiblePeerQuote) : Prop :=
  nonneg64 (q_InputPerMillion q) /\ nonneg64 (q_CachedInputPerMillion q) /\
  nonneg64 (q_OutputPerMillion q).

#[export] Instance nonneg64_dec z : Decision (nonneg64 z).
Proof. unfold nonneg64. apply _. Defined.
#[export] Instance quote_ok_dec q : Decision (quote_ok q).
Proof. unfold quote_ok. apply _. Defined.

Lemma roundedCharge_mono s t r :
  0 <= s <= t -> roundedCharge t = Ok r -> exists c, roundedCharge s = Ok c /\ 0 <= c <= r.
Proof.
  unfold roundedCharge, Million. intros Hst Ht.
  destruct (t =? 0) eqn:Et; zb.
  { assert (s = 0) by lia. subst. simplify_eq. eexists; split; [done|lia]. }
  destruct (_ <=? maxI64) eqn:Hf; zb; [|done]. simplify_eq.
  destruct (s =? 0) eqn:Es; zb.
  - eexists; split; [done|]. rewrite ceil_div_alt by lia.
    split; [lia|apply Z.div_pos; lia].
  - destruct (s + _ <=? _) eqn:?; zb; [|lia]. eexists; split; [done|].
    split; [|apply ceil_div_mono; lia].
    rewrite ceil_div_alt by lia. apply Z.div_pos; lia.
Qed.

Lemma reserveMax_ge quotes ic oc m r :
  reserveMax quotes ic oc m = Ok r ->
  m <= r /\ forall q, q ∈ quotes -> exists c, worstCaseCost q ic oc = Ok c /\ c <= r.
Proof.
  revert m. induction quotes as [|q rest IH]; simpl; intros m Hr.
  - simplify_eq. split; [done|]. by intros q ?%elem_of_nil.
  - apply res_bind_Ok in Hr as (c & Hc & Hrest).
    apply IH in Hrest as [Hm Hq].
    assert (m <= r /\ c <= r) as [??] by (destruct (c >? m) eqn:?; zb; lia).
    split; [done|]. intros q' [->|Hin]%elem_of_cons; [eauto|]. auto.
Qed.

(** One quote's charge within the ceilings is within its worst case. *)
Lemma charge_covered q ic oc w reg cached out :
  quote_ok q -> nonneg64 ic -> nonneg64 oc -> worstCaseCost q ic oc = Ok w ->
  0 <= reg -> 0 <= cached -> 0 <= out -> reg + cached <= ic -> out <= oc ->
  exists c,
    Cost reg cached out (q_InputPerMillion q) (q_CachedInputPerMillion q)
         (q_OutputPerMillion q) = Ok c /\ 0 <= c <= w.
Proof.
  intros (Hi & Hc & Ho) Hic Hoc Hwq Hreg Hcached Hout Hsum Hceil.
  rewrite worstCaseCost_eq in Hwq by done.
  rewrite Cost_eq by (unfold nonneg64 in *; lia). unfold rawCost.
  eapply roundedCharge_mono in Hwq as (c & Hc' & Hcr).
  - exists c. split; [exact Hc'|lia].
  - unfold nonneg64 in *. nia.
Qed.

(** C21: a reservation covers the charge: whatever snapshot quote serves the
    request, and however its input splits into regular and cached tokens, a
    usage within the reserved ceilings has a charge, and that charge is at most
    the reserved amount. *)
Theorem reservation_covers_charge quotes q ic oc r reg cached out :
  q ∈ quotes -> Forall quote_ok quotes -> nonneg64 ic -> nonneg64 oc ->
  ReserveAmount quotes ic oc = Ok r ->
  0 <= reg -> 0 <= cached -> 0 <= out -> reg + cached <= ic -> out <= oc ->
  exists c,
    Cost reg cached out (q_InputPerMillion q) (q_CachedInputPerMillion q)
         (q_OutputPerMillion q) = Ok c /\ 0 <= c <= r.
Proof.
  intros Hin Hok Hic Hoc Hres Hreg Hcached Hout Hsum Hceil.
  apply reserveMax_ge in Hres as [_ Hw]. destruct (Hw q Hin) as (w & Hwq & Hwr).
  rewrite Forall_forall in Hok.
  destruct (charge_covered q ic oc w reg cached out) as (c & Hc & Hcw); auto.
  exists c. split; [exact Hc|lia].
Qed.

Definition demo_quotes : list EligiblePeerQuote :=
  [mkQuote "p1" "s1" "w1" 1 100 40 300; mkQuote "p2" "s2" "w2" 2 250 300 100].

Lemma reservation_covers_charge_witness :
  exists c, Cost 3000 7000 4000 250 300 100 = Ok c /\ 0 <= c <= 4.
Proof.
  refine (reservation_covers_charge demo_quotes (mkQuote "p2" "s2" "w2" 2 250 300 100)
            10000 5000 4 3000 7000 4000 _ _ _ _ _ _ _ _ _ _); try lia.
  - right; left.
  - repeat constructor; unfold nonneg64; simpl; unfold_i64; lia.
  - unfold nonneg64; unfold_i64; lia.
  - unfold nonneg64; unfold_i64; lia.
  - vm_compute. reflexivity.
Defined.

Lemma Fee_eq cost bps :
  nonneg64 cost ->
  let b := Z.max 0 (Z.min 10000 bps) in
  Fee cost bps =
    if (0 <? b) && (maxI64 <? cost * b) then Err ErrOverflow
    else Ok (cost * b / 10000, cost - cost * b / 10000).
Proof.
  intros Hc b. unfold Fee.
  destruct (cost <? 0) eqn:?; zb; [unfold nonneg64 in *; lia|].
  replace (if (if bps <? 0 then 0 else bps) >? 10000 then 10000 else _) with b
    by (unfold b; destruct (bps <? 0) eqn:?, (_ >? 10000) eqn:?; zb; lia).
  assert (0 <= b <= 10000) as Hb by lia. clearbody b.
  destruct (b =? 0) eqn:?; zb; [subst; simpl; by rewrite Z.mul_0_r, Zdiv_0_l, Z.sub_0_r|].
  destruct (cost =? 0) eqn:?; zb; simpl.
  { subst. destruct (0 <? b); simpl; [|done]. by destruct (maxI64 <? 0) eqn:?. }
  destruct (0 <? b) eqn:?; zb; [simpl|lia].
  rewrite checkedMul_eq by (unfold nonneg64 in *; unfold_i64; lia).
  destruct (maxI64 <? cost * b) eqn:?, (cost * b <=? maxI64) eqn:?; zb; simpl; try lia; [done|].
  unfold nonneg64 in *.
  rewrite Z.quot_div_nonneg by nia.
  assert (cost * b / 10000 <= cost) by (apply Z.div_le_upper_bound; nia).
  assert (0 <= cost * b / 10000) by (apply Z.div_pos; nia).
  rewrite checkedSub_eq by (unfold nonneg64; lia).
  destruct (_ <=? cost) eqn:?; zb; [done|lia].
Qed.

(** the routing fee splits the charge exactly: fee and seller share add up
    to the cost, the fee is the floored share in basis points (clamped to
    [0,10000]), and the only failure is the overflow of cost * feeBps. *)
Theorem Fee_split cost bps :
  nonneg64 cost ->
  let b := Z.max 0 (Z.min 10000 bps) in
  Fee cost bps =
    if (0 <? b) && (maxI64 <? cost * b) then Err ErrOverflow
    else Ok (cost * b / 10000, cost - cost * b / 10000).
Proof. exact (Fee_eq cost bps). Qed.

Lemma Fee_split_witness : Fee 12345 250 = Ok (308, 12037).
Proof. rewrite (Fee_split 12345 250); [reflexivity|]. unfold nonneg64; unfold_i64; lia. Defined.

Lemma Fee_sum cost bps fee seller :
  nonneg64 cost -> Fee cost bps = Ok (fee, seller) ->
  fee + seller = cost /\ 0 <= fee /\ 0 <= seller.
Proof.
  intros Hc. rewrite Fee_eq by done.
  assert (0 <= Z.max 0 (Z.min 10000 bps) <= 10000) as Hb by lia.
  generalize dependent (Z.max 0 (Z.min 10000 bps)). intros b Hb HF.
  destruct (_ && _); simplify_eq. unfold nonneg64 in *.
  assert (0 <= cost * b / 10000) by (apply Z.div_pos; nia).
  assert (cost * b / 10000 <= cost) by (apply Z.div_le_upper_bound; nia). lia.
Qed.

(** ** Caps form a meet *)

Definition over (x : Z) (cap : option Z) : bool :=
  match cap with Some c => x >? c | None => false end.

Lemma over_tighter x a r : over x (tighterCap a r) = over x a || over x r.
Proof.
  destruct a as [a|], r as [r|]; simpl; rewrite ?orb_false_r; try done.
  destruct (r <? a) eqn:?; simpl; destruct (x >? r) eqn:?, (x >? a) eqn:?; zb; done || lia.
Qed.

Lemma Affordable_over q c :
  Affordable q c = negb (over (q_InputPerMillion q) (InputPerMillion c) ||
                         over (q_CachedInputPerMillion q) (CachedInputPerMillion c) ||
                         over (q_OutputPerMillion q) (OutputPerMillion c)).
Proof.
  unfold Affordable. fold (over (q_InputPerMillion q) (InputPerMillion c)).
  fold (over (q_CachedInputPerMillion q) (CachedInputPerMillion c)).
  fold (over (q_OutputPerMillion q) (OutputPerMillion c)).
  by destruct (over _ _), (over _ _), (over _ _).
Qed.

(** Merging caps is the intersection of what they accept: a quote is within
    the merged caps exactly when it is within both the account's and the
    request's; in particular a request header can only tighten. *)
Theorem MergeCaps_meet q a r :
  Affordable q (MergeCaps a r) = Affordable q a && Affordable q r.
Proof.
  rewrite !Affordable_over. unfold MergeCaps. simpl. rewrite !over_tighter.
  by destruct (over _ _), (over _ _), (over _ _), (over _ _), (over _ _), (over _ _).
Qed.

(** A model row overrides the flat caps tier by tier: the effective caps of a
    (service, model) without a row are the flat ones; with one, each tier is the
    row's when it sets it and the flat one otherwise, and later rows for the
    same (service, model) are ignored. *)
Theorem Effective_tiers flat rows service model :
  Effective flat rows service model =
    match list_find (fun r => mc_Service r = service /\ mc_Model r = model) rows with
    | None => flat
    | Some (_, r) =>
      mkCaps (if decide (mc_InputPerMillion r = None) then InputPerMillion flat else mc_InputPerMillion r)
             (if decide (mc_CachedInputPerMillion r = None) then CachedInputPerMillion flat
              else mc_CachedInputPerMillion r)
             (if decide (mc_OutputPerMillion r = None) then OutputPerMillion flat
              else mc_OutputPerMillion r)
    end.
Proof.
  induction rows as [|r rows IH]; [done|]. simpl.
  destruct (String.eqb (mc_Service r) service) eqn:Es, (String.eqb (mc_Model r) model) eqn:Em;
    zb; simpl; case_decide; try (by destruct_and?).
  - destruct r as [? ? [] [] []]; simpl; repeat case_decide; done.
  - naive_solver.
  - rewrite IH. by destruct (list_find _ rows) as [[]|].
  - rewrite IH. by destruct (list_find _ rows) as [[]|].
  - rewrite IH. by destruct (list_find _ rows) as [[]|].
Qed.

(** ** The delegation bound *)
Definition sumAllowances (l : list Allowance) : Z :=
  list_sum_by (fun a => if Active a then AllowanceRaw a else 0) l.

Lemma sumAllowances_nonneg l : 0 <= sumAllowances l.
Proof.
  apply list_sum_by_nonneg. intros a _. unfold Active.
  destruct (RevokedAt a); [done|]. destruct (AllowanceRaw a >? 0) eqn:?; zb; lia.
Qed.

(** The loop's 64-bit accumulator is the exact sum modulo 2^64. *)
Lemma sumActive_wrap l acc :
  fold_left (fun sum a => if Active a then i64 (sum + AllowanceRaw a) else sum) l (i64 acc)
  = i64 (acc + sumAllowances l).
Proof.
  revert acc. induction l as [|a l IH]; intros acc; simpl; [by rewrite Z.add_0_r|].
  unfold sumAllowances, list_sum_by in *. simpl. destruct (Active a).
  - rewrite i64_add_l, IH. f_equal. lia.
  - rewrite IH. f_equal; lia.
Qed.

Lemma sumActive_eq l : sumActive l = i64 (sumAllowances l).
Proof. apply (sumActive_wrap l 0). Qed.

Lemma Available_eq c :
  nonneg64 (CreditRaw c) -> nonneg64 (ReservedRaw c) -> Available c = CreditRaw c - ReservedRaw c.
Proof. intros. apply i64_id. unfold nonneg64 in *. unfold_i64. lia. Qed.

(** The gate bound of a delegated account: the spendable amount is the
    available credit, additionally bounded by the active allowances as soon as
    there is one, as long as the allowances' sum fits 64 bits. *)
Theorem DelegationAvailable_bound c l :
  nonneg64 (CreditRaw c) -> nonneg64 (ReservedRaw c) -> nonneg64 (sumAllowances l) ->
  DelegationAvailable c l =
    if existsb Active l
    then Z.min (Z.max 0 (CreditRaw c - ReservedRaw c)) (sumAllowances l)
    else Z.max 0 (CreditRaw c - ReservedRaw c).
Proof.
  intros Hc Hr Hs. unfold DelegationAvailable.
  rewrite Available_eq, sumActive_eq, nonneg64_i64 by done.
  assert (Hex : if existsb Active l then 0 < sumAllowances l else sumAllowances l = 0).
  { clear Hs. induction l as [|a l IH]; [done|]. simpl.
    change (sumAllowances (a :: l)) with ((if Active a then AllowanceRaw a else 0) + sumAllowances l).
    pose proof (sumAllowances_nonneg l). destruct (Active a) eqn:Ha; simpl.
    - unfold Active in Ha. destruct (RevokedAt a); [done|]. zb. lia.
    - exact IH. }
  destruct (_ <? 0) eqn:?; zb.
  { destruct (existsb _ _); lia. }
  destruct (existsb Active l).
  - destruct (_ >? 0) eqn:?, (_ <? _) eqn:?; zb; simpl; lia.
  - rewrite Hex. simpl. lia.
Qed.

Definition demo_allowances : list Allowance :=
  [mkAllowance "buyer" "auth" 700 1 None; mkAllowance "buyer" "auth2" 100 1 (Some 5);
   mkAllowance "buyer" "auth3" 50 1 None].

Lemma DelegationAvailable_bound_witness :
  DelegationAvailable (mkAccountCredit "buyer" 2000 500 (mkCaps None None None) 0) demo_allowances
  = 750.
Proof.
  rewrite (DelegationAvailable_bound _ demo_allowances); [reflexivity| | |];
    unfold nonneg64; simpl; unfold_i64; lia.
Defined.

(** the 64-bit sum of the allowances is not checked: two active allowances of
    2^62 wrap to a negative sum, and the bound is lifted to the whole available
    credit, above what a single one of the two delegations would still allow. *)
Theorem DelegationAvailable_sum_wraps :
  let c := mkAccountCredit "buyer" maxI64 0 (mkCaps None None None) 0 in
  let a := mkAllowance "buyer" "auth" 4611686018427387904 1 None in
  let b := mkAllowance "buyer" "auth2" 4611686018427387904 1 None in
  sumActive [a; b] = - two63 /\
  DelegationAvailable c [a; b] = maxI64 /\ DelegationAvailable c [a] = 4611686018427387904.
Proof. vm_compute. done. Qed.
