(* ===== verification/Sha256.v ===== *)
(** * crypto/sha256 and encoding/binary, as the sources use them

    An executable SHA-256 over byte lists (FIPS 180-4, 32-bit words as [Z])
    and Go's little/big endian [PutUint]s.  They are the standard-library
    calls of [src/internal/billing/merkle.go] and of the credential hashing. *)
From Stdlib Require Import ZArith Lia Strings.String Strings.Ascii Strings.Byte.
From stdpp Require Import base list strings.
From S2P Require Import Prelude.

Open Scope Z_scope.

Notation bytes := (list Byte.byte).

#[export] Instance byte_eq_dec : EqDecision Byte.byte := Byte.byte_eq_dec.

(** [byte(z)]: the low eight bits. *)
Definition byteZ (z : Z) : Byte.byte :=
  match Byte.of_N (Z.to_N (z mod 256)) with Some b => b | None => Byte.x00 end.
Definition Zbyte (b : Byte.byte) : Z := Z.of_N (Byte.to_N b).

Definition bytes_of_string (s : string) : bytes := String.list_byte_of_string s.

(** [binary.LittleEndian.PutUint64/32]: [n] bytes, least significant first. *)
Fixpoint putLE (n : nat) (z : Z) : bytes :=
  match n with
  | O => []
  | S n' => byteZ z :: putLE n' (Z.shiftr z 8)
  end.

Fixpoint getLE (l : bytes) : Z :=
  match l with
  | [] => 0
  | b :: r => Zbyte b + 256 * getLE r
  end.

Definition putBE (n : nat) (z : Z) : bytes := rev (putLE n z).
Definition getBE (l : bytes) : Z := getLE (rev l).

(** ** SHA-256 *)
Module Sha.
Definition w32 (z : Z) : Z := Z.land z 4294967295.
Definition rotr (n x : Z) : Z := w32 (Z.lor (Z.shiftr x n) (Z.shiftl x (32 - n))).

(** The constants are the first 32 bits of the fractional parts of the cube roots
    of the first 64 primes and of the square roots of the first 8, found bit by bit:
    [root e n b] is the largest z < 2^b with z^e <= n. *)
Fixpoint root_bits (e n acc : Z) (b : nat) : Z :=
  match b with
  | O => acc
  | S b' =>
    let z := acc + Z.shiftl 1 (Z.of_nat b') in
    root_bits e n (if z ^ e <=? n then z else acc) b'
  end.

Definition prime (n : nat) : bool :=
  forallb (fun d => negb (Nat.eqb (Nat.modulo n d) 0)) (seq 2 (n - 2)).

Definition primes (k : nat) : list Z := map Z.of_nat (firstn k (filter prime (seq 2 310))).

Definition K : list Z :=
  Eval vm_compute in map (fun p => w32 (root_bits 3 (Z.shiftl p 96) 0 36)) (primes 64).
Definition H0 : list Z :=
  Eval vm_compute in map (fun p => w32 (root_bits 2 (Z.shiftl p 64) 0 36)) (primes 8).

Definition s0 x := Z.lxor (Z.lxor (rotr 7 x) (rotr 18 x)) (Z.shiftr x 3).
Definition s1 x := Z.lxor (Z.lxor (rotr 17 x) (rotr 19 x)) (Z.shiftr x 10).
Definition S0 x := Z.lxor (Z.lxor (rotr 2 x) (rotr 13 x)) (rotr 22 x).
Definition S1 x := Z.lxor (Z.lxor (rotr 6 x) (rotr 11 x)) (rotr 25 x).
Definition Ch x y z := Z.lxor (Z.land x y) (Z.land (Z.lxor x 4294967295) z).
Definition Maj x y z := Z.lxor (Z.lxor (Z.land x y) (Z.land x z)) (Z.land y z).

(** The message schedule, newest word first. *)
Fixpoint schedule (n : nat) (ws : list Z) : list Z :=
  match n with
  | O => rev ws
  | S n' =>
    let w := w32 (s1 (nth 1 ws 0) + nth 6 ws 0 + s0 (nth 14 ws 0) + nth 15 ws 0) in
    schedule n' (w :: ws)
  end.

Definition round (st : list Z) (kw : Z * Z) : list Z :=
  match st with
  | [a; b; c; d; e; f; g; h] =>
    let t1 := w32 (h + S1 e + Ch e f g + fst kw + snd kw) in
    let t2 := w32 (S0 a + Maj a b c) in
    [w32 (t1 + t2); a; b; c; w32 (d + t1); e; f; g]
  | _ => st
  end.

Definition compress (st : list Z) (block : list Z) : list Z :=
  let ws := schedule 48 (rev block) in
  let st' := fold_left round (combine K ws) st in
  map (fun p => w32 (fst p + snd p)) (combine st st').

Fixpoint words (n : nat) (l : bytes) : list Z :=
  match n with
  | O => []
  | S n' => getBE (take 4 l) :: words n' (drop 4 l)
  end.

Fixpoint blocks (n : nat) (l : bytes) (st : list Z) : list Z :=
  match n with
  | O => st
  | S n' => blocks n' (drop 64 l) (compress st (words 16 (take 64 l)))
  end.

Definition pad (l : bytes) : bytes :=
  let len := Z.of_nat (List.length l) in
  l ++ [Byte.x80] ++ repeat Byte.x00 (Z.to_nat ((55 - len) mod 64)) ++ putBE 8 (8 * len).
End Sha.

(** [sha256.Sum256] *)
Definition sha256 (l : bytes) : bytes :=
  let p := Sha.pad l in
  let st := Sha.blocks (Nat.div (List.length p) 64) p Sha.H0 in
  putBE 4 (nth 0 st 0) ++ putBE 4 (nth 1 st 0) ++ putBE 4 (nth 2 st 0) ++ putBE 4 (nth 3 st 0) ++
  putBE 4 (nth 4 st 0) ++ putBE 4 (nth 5 st 0) ++ putBE 4 (nth 6 st 0) ++ putBE 4 (nth 7 st 0).

(** The FIPS test vector for "abc". *)
Example sha256_abc :
  map Zbyte (sha256 (bytes_of_string "abc")) =
  [0xba; 0x78; 0x16; 0xbf; 0x8f; 0x01; 0xcf; 0xea; 0x41; 0x41; 0x40; 0xde; 0x5d; 0xae; 0x22; 0x23;
   0xb0; 0x03; 0x61; 0xa3; 0x96; 0x17; 0x7a; 0x9c; 0xb4; 0x10; 0xff; 0x61; 0xf2; 0x00; 0x15; 0xad].
Proof. vm_compute. reflexivity. Qed.

(** ** Lemmas *)
Lemma Zbyte_range b : 0 <= Zbyte b < 256.
Proof. unfold Zbyte. pose proof (Byte.to_N_bounded b). lia. Qed.

Lemma byteZ_Zbyte b : byteZ (Zbyte b) = b.
Proof.
  unfold byteZ. rewrite Z.mod_small by apply Zbyte_range.
  unfold Zbyte. rewrite N2Z.id, Byte.of_to_N. done.
Qed.

Lemma Zbyte_byteZ z : Zbyte (byteZ z) = z mod 256.
Proof.
  unfold byteZ, Zbyte. pose proof (Z.mod_pos_bound z 256 ltac:(lia)).
  destruct (Byte.of_N (Z.to_N (z mod 256))) eqn:E.
  - apply Byte.to_of_N in E. rewrite E. lia.
  - apply Byte.of_N_None_iff in E. lia.
Qed.

Lemma Zbyte_inj a b : Zbyte a = Zbyte b -> a = b.
Proof. intros H. rewrite <- (byteZ_Zbyte a), H. apply byteZ_Zbyte. Qed.

Lemma length_putLE n z : length (putLE n z) = n.
Proof. revert z. induction n; simpl; auto. Qed.

Lemma length_putBE n z : length (putBE n z) = n.
Proof. unfold putBE. by rewrite length_rev, length_putLE. Qed.

Lemma getLE_putLE n z : getLE (putLE n z) = z mod 2 ^ (8 * Z.of_nat n).
Proof.
  revert z. induction n as [|n IH]; intros z; [simpl; by rewrite Z.mod_1_r|].
  cbn [putLE getLE]. rewrite IH, Zbyte_byteZ, Z.shiftr_div_pow2 by lia.
  replace (8 * Z.of_nat (S n)) with (8 + 8 * Z.of_nat n) by lia.
  rewrite Z.pow_add_r by lia. change (2 ^ 8) with 256.
  pose proof (Z.pow_pos_nonneg 2 (8 * Z.of_nat n) ltac:(lia) ltac:(lia)).
  rewrite Z.rem_mul_r by lia. lia.
Qed.

Lemma length_sha256 l : length (sha256 l) = 32%nat.
Proof. unfold sha256. rewrite !length_app, !length_putBE. done. Qed.

Lemma bytes_of_string_inj s t : bytes_of_string s = bytes_of_string t -> s = t.
Proof.
  unfold bytes_of_string. intros H.
  rewrite <- (String.string_of_list_byte_of_string s), H.
  apply String.string_of_list_byte_of_string.
Qed.

