(* ===== verification/Merkle.v ===== *)
(** * internal/billing/merkle.go: the ledger's Merkle commitment

    Leaves, the root, audit paths and their verification, over the executable
    SHA-256 of [Sha256].  [MerkleRoot]'s and [MerklePath]'s loops halve the
    level, so the leaf count is enough fuel ([merkleLoop_head]). *)
From Stdlib Require Import ZArith Lia Strings.String Strings.Ascii Strings.Byte.
From stdpp Require Import base list strings.
From S2P Require Import Prelude Sha256.

Open Scope Z_scope.

(** ** time.Time.MarshalText (RFC 3339 with nanoseconds, UTC) *)
Module GoTime.
(** (year, month, day) of a day count since 1970-01-01 in the proleptic
    Gregorian calendar. *)
Definition civil (days : Z) : Z * Z * Z :=
  let z := days + 719468 in
  let era := z / 146097 in
  let doe := z mod 146097 in
  let yoe := (doe - doe / 1460 + doe / 36524 - doe / 146096) / 365 in
  let doy := doe - (365 * yoe + yoe / 4 - yoe / 100) in
  let mp := (5 * doy + 2) / 153 in
  let d := doy - (153 * mp + 2) / 5 + 1 in
  let m := if mp <? 10 then mp + 3 else mp - 9 in
  ((yoe + era * 400 + if m <=? 2 then 1 else 0), m, d).

Definition digit (z : Z) : ascii := ascii_of_nat (Z.to_nat (48 + z mod 10)).

(** [n] decimal digits of [z], zero padded. *)
Fixpoint digits (n : nat) (z : Z) : string :=
  match n with
  | O => EmptyString
  | S n' => append (digits n' (z / 10)) (String (digit z) EmptyString)
  end.

(** The fraction with its trailing zeros dropped. *)
Fixpoint frac (n : nat) (z : Z) : string :=
  match n with
  | O => EmptyString
  | S n' => if z mod 10 =? 0 then frac n' (z / 10) else digits n z
  end.

Definition marshalText (t : time) : string :=
  let secs := t / 1000000000 in
  let ns := t mod 1000000000 in
  let '(y, m, d) := civil (secs / 86400) in
  let s := secs mod 86400 in
  if (y <? 0) || (9999 <? y) then EmptyString (* the error is dropped by the caller *)
  else
    digits 4 y +:+ "-" +:+ digits 2 m +:+ "-" +:+ digits 2 d +:+ "T" +:+
    digits 2 (s / 3600) +:+ ":" +:+ digits 2 (s / 60 mod 60) +:+ ":" +:+ digits 2 (s mod 60) +:+
    (if ns =? 0 then "" else "." +:+ frac 9 ns) +:+ "Z".
End GoTime.

Example marshalText_zero : GoTime.marshalText zeroTime = "0001-01-01T00:00:00Z".
Proof. reflexivity. Qed.
Example marshalText_2024 : GoTime.marshalText 1709210096120000000 = "2024-02-29T12:34:56.12Z".
Proof. reflexivity. Qed.

(** ** Leaves and nodes *)
Definition domainLedgerLeaf : string := "otela-ledger-leaf:v1".
Definition domainMerkleNode : string := "otela-merkle-node:v1".
Definition domainMerklePad : string := "otela-merkle-pad:v1".

Record LedgerLeafInput := mkLeafInput {
  li_ID : Z; li_DeltaRaw : Z; li_Source : string; li_Leg : string;
  li_Counterparty : string; li_Ref : string; li_CreatedAt : time }.

Definition putI64 (v : Z) : bytes := putLE 8 v.
Definition putStr (s : string) : bytes :=
  putLE 4 (Z.of_nat (String.length s)) ++ bytes_of_string s.

Definition encodeRow (row : LedgerLeafInput) : bytes :=
  putI64 (li_ID row) ++ putI64 (li_DeltaRaw row) ++ putStr (li_Source row) ++
  putStr (li_Leg row) ++ putStr (li_Counterparty row) ++ putStr (li_Ref row) ++
  putStr (GoTime.marshalText (li_CreatedAt row)).

Definition LedgerLeaf (row : LedgerLeafInput) : bytes :=
  sha256 (bytes_of_string domainLedgerLeaf ++ encodeRow row).

Definition merkleNode (left right : bytes) : bytes :=
  sha256 (bytes_of_string domainMerkleNode ++ left ++ right).

Definition merklePadHash : bytes := sha256 (bytes_of_string domainMerklePad).

(** ** Root and path *)
Definition padLevel (level : list bytes) : list bytes :=
  if Nat.odd (length level) then level ++ [merklePadHash] else level.

Fixpoint nextLevel (level : list bytes) : list bytes :=
  match level with
  | l :: r :: rest => merkleNode l r :: nextLevel rest
  | _ => []
  end.

Fixpoint merkleLoop (fuel : nat) (level : list bytes) : list bytes :=
  match fuel with
  | O => level
  | S fuel' =>
    if (1 <? length level)%nat then merkleLoop fuel' (nextLevel (padLevel level)) else level
  end.

Definition MerkleRoot (leaves : list bytes) : bytes :=
  match leaves with
  | [] => merklePadHash
  | _ => nth 0 (merkleLoop (length leaves) leaves) []
  end.

(** An index outside the slice is Go's run-time panic. *)
Definition panicIndex := Errorf "panic: index out of range".

Fixpoint pathLoop (fuel : nat) (padded : list bytes) (index : Z) : res (list bytes) :=
  match fuel with
  | O => Ok []
  | S fuel' =>
    if (1 <? length padded)%nat then
      let padded := padLevel padded in
      match padded !! Z.to_nat (Z.lxor index 1) with
      | None => Err panicIndex
      | Some sib =>
        match pathLoop fuel' (nextLevel padded) (index / 2) with
        | Ok rest => Ok (sib :: rest)
        | Err e => Err e
        end
      end
    else Ok []
  end.

Definition MerklePath (leaves : list bytes) (index : Z) : res (list bytes) :=
  if (index <? 0) || (Z.of_nat (length leaves) <=? index)
  then Err (Errorf "merkle: index %d out of range (%d leaves)")
  else pathLoop (length leaves) leaves index.

(** ** Verification *)
Fixpoint sizeAtLevel (leaves : Z) (level : nat) : Z :=
  match level with
  | O => leaves
  | S l => sizeAtLevel ((leaves + 1) / 2) l
  end.

(** The loop runs [level] from [length path - k] to [length path]. *)
Fixpoint verifyLoop (k : nat) (path : list bytes) (leafCount : Z) (level : nat) (idx : Z)
    (cur : bytes) : option bytes :=
  match k with
  | O => Some cur
  | S k' =>
    let siblingIdx := Z.lxor idx 1 in
    let sib := if siblingIdx >=? sizeAtLevel leafCount level
               then Some merklePadHash else path !! level in
    match sib with
    | None => None
    | Some sib =>
      let cur := if idx mod 2 =? 0 then merkleNode cur sib else merkleNode sib cur in
      verifyLoop k' path leafCount (S level) (idx / 2) cur
    end
  end.

Definition VerifyMerklePath (leaf : bytes) (path : list bytes) (index leafCount : Z)
    (root : bytes) : bool :=
  if (leafCount <=? 0) || (index <? 0) || (index >=? leafCount) then false
  else match verifyLoop (length path) path leafCount 0 index leaf with
       | None => false
       | Some cur => bool_decide (cur = root)
       end.

(** ** Levels *)
Lemma sizeAtLevel_S n level : sizeAtLevel n (S level) = (sizeAtLevel n level + 1) / 2.
Proof. revert n. induction level as [|l IH]; intros n; [done|]. apply (IH ((n + 1) / 2)). Qed.

Lemma lxor1_even k : 0 <= k -> Z.lxor (2 * k) 1 = 2 * k + 1.
Proof. destruct k as [|p|p]; [done| |lia]. by destruct p. Qed.
Lemma lxor1_odd k : 0 <= k -> Z.lxor (2 * k + 1) 1 = 2 * k.
Proof. destruct k as [|p|p]; [done| |lia]. by destruct p. Qed.

Lemma nextLevel_length k l : length l = (2 * k)%nat -> length (nextLevel l) = k.
Proof.
  revert l. induction k as [|k IH]; intros [|a [|b l]] Hl; simpl in *; try lia.
  f_equal. apply IH. lia.
Qed.

Lemma nextLevel_lookup k l j a b :
  length l = (2 * k)%nat -> l !! (2 * j)%nat = Some a -> l !! (2 * j + 1)%nat = Some b ->
  nextLevel l !! j = Some (merkleNode a b).
Proof.
  revert l j. induction k as [|k IH]; intros [|x [|y l]] j Hl Ha Hb; simpl in *; try lia; try done.
  destruct j as [|j]; simpl in *; [by simplify_eq|].
  replace (j + S (j + 0))%nat with (S (2 * j)) in Ha by lia.
  replace (j + S (j + 0) + 1)%nat with (S (2 * j + 1)) in Hb by lia.
  eapply IH; [lia|exact Ha|exact Hb].
Qed.

Lemma padLevel_length l : exists k, length (padLevel l) = (2 * k)%nat /\
  Z.of_nat k = (Z.of_nat (length l) + 1) / 2.
Proof.
  unfold padLevel. destruct (Nat.odd (length l)) eqn:Ho.
  - apply Nat.odd_spec in Ho as [k Hk]. exists (k + 1)%nat. rewrite length_app. simpl.
    split; [lia|]. rewrite Hk. replace (Z.of_nat (2 * k + 1) + 1) with (Z.of_nat (k+1) * 2) by lia.
    by rewrite Z.div_mul.
  - rewrite <- Nat.negb_even, negb_false_iff in Ho. apply Nat.even_spec in Ho as [k Hk].
    exists k. split; [done|]. rewrite Hk.
    replace (Z.of_nat (2 * k) + 1) with (1 + Z.of_nat k * 2) by lia.
    by rewrite Z.div_add.
Qed.

(** The slot behind the last real node of a level holds the pad hash. *)
Lemma padLevel_lookup l i :
  (i < length (padLevel l))%nat ->
  padLevel l !! i = if (i <? length l)%nat then l !! i else Some merklePadHash.
Proof.
  unfold padLevel. intros Hi. destruct (Nat.ltb_spec i (length l)).
  - destruct (Nat.odd _); [|done]. by rewrite lookup_app_l.
  - destruct (Nat.odd _); [|lia]. rewrite length_app in Hi. simpl in Hi.
    rewrite lookup_app_r by lia. by replace (i - length l)%nat with 0%nat by lia.
Qed.

Lemma merkleLoop_head fuel l : l <> [] -> (length l <= fuel)%nat ->
  exists r, merkleLoop fuel l = [r].
Proof.
  revert l. induction fuel as [|fuel IH]; intros l Hne Hf; simpl.
  { destruct l; simpl in *; [done|lia]. }
  destruct (Nat.ltb_spec 1 (length l)) as [H1|H1].
  - destruct (padLevel_length l) as (k & Hk & Hkz).
    assert (length (nextLevel (padLevel l)) = k) by (by apply nextLevel_length).
    assert (0 < Z.of_nat k < Z.of_nat (length l))
      by (rewrite Hkz; split; [apply Z.div_str_pos|apply Z.div_lt_upper_bound]; lia).
    apply IH; [|lia]. intros E. rewrite E in *. simpl in *. lia.
  - destruct l as [|x [|]]; simpl in *; [done|eauto|lia].
Qed.

(** One level of the tree seen from a proof: the sibling found in the padded
    level is the one the verifier uses, and the parent is in the next level. *)
Lemma level_step l i cur :
  0 <= i -> (1 < length l)%nat -> l !! Z.to_nat i = Some cur ->
  exists sib k,
    padLevel l !! Z.to_nat (Z.lxor i 1) = Some sib /\
    length (padLevel l) = (2 * k)%nat /\ Z.of_nat k = (Z.of_nat (length l) + 1) / 2 /\
    ((Z.lxor i 1 >=? Z.of_nat (length l)) = true -> sib = merklePadHash) /\
    nextLevel (padLevel l) !! Z.to_nat (i / 2) =
      Some (if i mod 2 =? 0 then merkleNode cur sib else merkleNode sib cur).
Proof.
  intros Hi Hl Hcur.
  pose proof (lookup_lt_Some _ _ _ Hcur) as Hlt.
  destruct (padLevel_length l) as (k & Hk & Hkz).
  pose proof (Z.div_mod i 2 ltac:(lia)) as Hdm. pose proof (Z.mod_pos_bound i 2 ltac:(lia)).
  assert (0 <= i / 2) by (apply Z.div_pos; lia).
  assert (i / 2 < Z.of_nat k) as Hik by (rewrite Hkz; apply Z.div_lt_upper_bound; [lia|];
    pose proof (Z.div_mod (Z.of_nat (length l) + 1) 2 ltac:(lia));
    pose proof (Z.mod_pos_bound (Z.of_nat (length l) + 1) 2 ltac:(lia)); lia).
  assert (Hpc : padLevel l !! Z.to_nat i = Some cur).
  { rewrite padLevel_lookup by lia. by destruct (Nat.ltb_spec (Z.to_nat i) (length l)); [|lia]. }
  destruct (i mod 2 =? 0) eqn:Hpar; zb;
    [ assert (Hx : Z.lxor i 1 = i + 1) by (rewrite Hdm, Hpar, Z.add_0_r; by apply lxor1_even)
    | assert (Hx : Z.lxor i 1 = i - 1) by
        (rewrite Hdm; replace (i mod 2) with 1 by lia; rewrite lxor1_odd by done; lia) ];
    rewrite Hx;
    match goal with |- context [padLevel l !! ?j] =>
      destruct (padLevel l !! j) as [sib|] eqn:Hs; [|apply lookup_ge_None in Hs; lia] end;
    exists sib, k; (do 3 (split; [done|])); split.
  - intros ?; zb. rewrite padLevel_lookup in Hs by lia.
    destruct (Nat.ltb_spec (Z.to_nat (i + 1)) (length l)); [lia|congruence].
  - eapply nextLevel_lookup; [exact Hk| |].
    + rewrite <- Hpc. f_equal. lia.
    + rewrite <- Hs. f_equal. lia.
  - intros ?; zb. lia.
  - eapply nextLevel_lookup; [exact Hk| |].
    + rewrite <- Hs. f_equal. lia.
    + rewrite <- Hpc. f_equal. lia.
Qed.

(** ** Completeness of audit paths *)
Lemma path_verifies fuel n l i cur pre level :
  (length l <= fuel)%nat -> 0 <= i -> l !! Z.to_nat i = Some cur ->
  Z.of_nat (length l) = sizeAtLevel n level -> length pre = level ->
  exists suf, pathLoop fuel l i = Ok suf /\
    verifyLoop (length suf) (pre ++ suf) n level i cur = head (merkleLoop fuel l).
Proof.
  revert l i cur pre level. induction fuel as [|fuel IH];
    intros l i cur pre level Hf Hi Hcur Hn Hpre.
  { destruct l; simpl in *; [done|lia]. }
  cbn [pathLoop merkleLoop].
  destruct (Nat.ltb_spec 1 (length l)) as [H1|H1].
  - destruct (level_step l i cur) as (sib & k & Hs & Hk & Hkz & Hpad & Hnext); [done..|].
    rewrite Hs.
    assert (length (nextLevel (padLevel l)) = k) as Hlen by (by apply nextLevel_length).
    assert (Z.of_nat k < Z.of_nat (length l)) by (rewrite Hkz; apply Z.div_lt_upper_bound; lia).
    destruct (IH (nextLevel (padLevel l)) (i / 2)
                (if i mod 2 =? 0 then merkleNode cur sib else merkleNode sib cur)
                (pre ++ [sib]) (S level))
      as (suf & Hsuf & Hver); [lia|apply Z.div_pos; lia|exact Hnext| | |].
    { rewrite sizeAtLevel_S, <- Hn, Hlen. done. }
    { rewrite length_app. simpl. lia. }
    rewrite Hsuf. exists (sib :: suf). split; [done|].
    cbn [length verifyLoop]. rewrite <- Hn.
    rewrite <- app_assoc in Hver. simpl in Hver. rewrite <- Hver.
    destruct (_ >=? _) eqn:Hge; [by rewrite (Hpad eq_refl)|].
    rewrite lookup_app_r, Hpre, Nat.sub_diag by lia. done.
  - exists []. split; [done|]. simpl.
    destruct l as [|x [|]]; simpl in *; [done| |lia].
    assert (Z.to_nat i = 0%nat) as Hz.
    { apply lookup_lt_Some in Hcur. simpl in Hcur. lia. }
    rewrite Hz in Hcur. done.
Qed.

(** audit paths are complete: for every leaf position in range, [MerklePath]
    returns a path (it never indexes out of range) and [VerifyMerklePath] accepts
    that path, the leaf and its position against [MerkleRoot]. *)
Theorem MerklePath_complete leaves i leaf :
  0 <= i -> leaves !! Z.to_nat i = Some leaf ->
  exists path, MerklePath leaves i = Ok path /\
    VerifyMerklePath leaf path i (Z.of_nat (length leaves)) (MerkleRoot leaves) = true.
Proof.
  intros Hi Hleaf. pose proof (lookup_lt_Some _ _ _ Hleaf).
  destruct (path_verifies (length leaves) (Z.of_nat (length leaves)) leaves i leaf [] 0)
    as (path & Hp & Hv); [done..|].
  exists path. unfold MerklePath, VerifyMerklePath.
  destruct (i <? 0) eqn:?, (_ <=? i) eqn:?; zb; try lia. simpl. split; [done|].
  destruct (_ <=? 0) eqn:?, (i >=? _) eqn:?; zb; try lia. simpl.
  simpl in Hv. rewrite Hv.
  destruct (merkleLoop_head (length leaves) leaves) as [r Hr]; [by intros ->|done|].
  unfold MerkleRoot. rewrite Hr. destruct leaves; [done|].
  cbn [head nth]. by rewrite bool_decide_true.
Qed.

Definition demo_leaf (id : Z) : bytes :=
  LedgerLeaf (mkLeafInput id (100 * id) "settle" "consume" "seller" "req-1" 0).
Definition demo_leaves : list bytes := [demo_leaf 1; demo_leaf 2; demo_leaf 3].

Lemma MerklePath_complete_witness :
  exists path, MerklePath demo_leaves 2 = Ok path /\
    VerifyMerklePath (demo_leaf 3) path 2 (Z.of_nat (length demo_leaves))
      (MerkleRoot demo_leaves) = true.
Proof. exact (MerklePath_complete demo_leaves 2 (demo_leaf 3) ltac:(lia) eq_refl). Defined.

(** ** Soundness: a root commits to its leaves *)

(** Two different inputs with one hash. *)
Definition collision : Prop := exists x y : bytes, x <> y /\ sha256 x = sha256 y.

Lemma sha256_inj x y : sha256 x = sha256 y -> x = y \/ collision.
Proof. intros. destruct (decide (x = y)); [by left|right; by exists x, y]. Qed.

Lemma app_inj_len {A} (a b c d : list A) :
  a ++ b = c ++ d -> length a = length c \/ length b = length d -> a = c /\ b = d.
Proof.
  intros Heq Hl. apply app_inj_1; [|done].
  assert (length (a ++ b) = length (c ++ d)) as H by congruence.
  rewrite !length_app in H. lia.
Qed.

Lemma merkleNode_inj l r l' r' :
  length l = length l' \/ length r = length r' ->
  merkleNode l r = merkleNode l' r' -> (l = l' /\ r = r') \/ collision.
Proof.
  intros Hl H. unfold merkleNode in H. apply sha256_inj in H as [H|H]; [left|by right].
  apply app_inv_head in H. by apply app_inj_len.
Qed.

Lemma verifyLoop_inj k path path' n level i cur cur' r :
  length cur = length cur' ->
  verifyLoop k path n level i cur = Some r -> verifyLoop k path' n level i cur' = Some r ->
  cur = cur' \/ collision.
Proof.
  revert level i cur cur'. induction k as [|k IH]; intros level i cur cur' Hlen H1 H2;
    cbn [verifyLoop] in *.
  { left. congruence. }
  destruct (if _ >=? _ then _ else path !! level) as [s|]; [|done].
  destruct (if _ >=? _ then _ else path' !! level) as [s'|]; [|done].
  assert (Hn : forall a b, length (merkleNode a b) = 32%nat)
    by (intros; apply length_sha256).
  edestruct (IH (S level) (i / 2)) as [Heq|]; [|exact H1|exact H2| |by right];
    [by destruct (i mod 2 =? 0); rewrite !Hn|].
  destruct (i mod 2 =? 0);
    apply merkleNode_inj in Heq as [[? ?]|?]; auto.
Qed.

(** A Merkle root is binding: two leaves that verify at the same position of
    the same tree, with proofs of the same length, are equal, unless the two
    proofs exhibit a SHA-256 collision. *)
Theorem VerifyMerklePath_binding leaf leaf' path path' i n root :
  length leaf = length leaf' -> length path = length path' ->
  VerifyMerklePath leaf path i n root = true ->
  VerifyMerklePath leaf' path' i n root = true ->
  leaf = leaf' \/ collision.
Proof.
  unfold VerifyMerklePath. intros Hl Hp H1 H2.
  destruct (_ || _); [done|]. rewrite <- Hp in H2.
  destruct (verifyLoop _ path _ _ _ _) eqn:E1; [|done].
  destruct (verifyLoop _ path' _ _ _ _) eqn:E2; [|done].
  zb. subst. eapply verifyLoop_inj; [exact Hl|exact E1|exact E2].
Qed.

Definition demo_path : list bytes :=
  match MerklePath demo_leaves 2 with Ok p => p | Err _ => [] end.

Lemma VerifyMerklePath_binding_witness : demo_leaf 3 = demo_leaf 3 \/ collision.
Proof.
  apply (VerifyMerklePath_binding (demo_leaf 3) (demo_leaf 3) demo_path demo_path 2 3
           (MerkleRoot demo_leaves)); try reflexivity; vm_compute; reflexivity.
Defined.

(** ** The leaf encoding is unambiguous *)
Definition leaf_ok (r : LedgerLeafInput) : Prop :=
  in_i64 (li_ID r) /\ in_i64 (li_DeltaRaw r) /\
  Forall (fun s => Z.of_nat (String.length s) < 4294967296)
    [li_Source r; li_Leg r; li_Counterparty r; li_Ref r; GoTime.marshalText (li_CreatedAt r)].

Lemma putI64_inj a b : in_i64 a -> in_i64 b -> putI64 a = putI64 b -> a = b.
Proof.
  unfold putI64. intros Ha Hb H. apply (f_equal getLE) in H. rewrite !getLE_putLE in H.
  change (2 ^ (8 * Z.of_nat 8)) with 18446744073709551616 in H. unfold_i64.
  pose proof (Z.div_mod a 18446744073709551616). pose proof (Z.div_mod b 18446744073709551616).
  pose proof (Z.mod_pos_bound a 18446744073709551616).
  pose proof (Z.mod_pos_bound b 18446744073709551616). lia.
Qed.

Lemma bytes_of_string_length s : length (bytes_of_string s) = String.length s.
Proof.
  induction s as [|c s IH]; [done|]. change (S (length (bytes_of_string s)) = S (String.length s)).
  by rewrite IH.
Qed.

Lemma putStr_app_inj s t rs rt :
  Z.of_nat (String.length s) < 4294967296 -> Z.of_nat (String.length t) < 4294967296 ->
  putStr s ++ rs = putStr t ++ rt -> s = t /\ rs = rt.
Proof.
  unfold putStr. rewrite <- !app_assoc. intros Hs Ht H.
  apply app_inj_len in H as [H1 H2]; [|left; by rewrite !length_putLE].
  apply (f_equal getLE) in H1. rewrite !getLE_putLE in H1.
  change (2 ^ (8 * Z.of_nat 4)) with 4294967296 in H1. rewrite !Z.mod_small in H1 by lia.
  apply app_inj_len in H2 as [H2 H3]; [|left; rewrite !bytes_of_string_length; lia].
  apply bytes_of_string_inj in H2. done.
Qed.

(** A leaf commits to the row: two rows with the same leaf agree on id,
    amount, source, leg, counterparty, reference and rendered time, unless they
    exhibit a SHA-256 collision. *)
Theorem LedgerLeaf_binding r s :
  leaf_ok r -> leaf_ok s -> LedgerLeaf r = LedgerLeaf s ->
  (li_ID r = li_ID s /\ li_DeltaRaw r = li_DeltaRaw s /\ li_Source r = li_Source s /\
   li_Leg r = li_Leg s /\ li_Counterparty r = li_Counterparty s /\ li_Ref r = li_Ref s /\
   GoTime.marshalText (li_CreatedAt r) = GoTime.marshalText (li_CreatedAt s)) \/ collision.
Proof.
  intros (Hr1 & Hr2 & Hr) (Hs1 & Hs2 & Hs) H. unfold LedgerLeaf in H.
  apply sha256_inj in H as [H|H]; [left|by right]. apply app_inv_head in H. unfold encodeRow in H.
  inversion_clear Hr as [|? ? Ha Hr']. inversion_clear Hr' as [|? ? Hb Hr].
  inversion_clear Hr as [|? ? Hc Hr']. inversion_clear Hr' as [|? ? Hd Hr].
  inversion_clear Hr as [|? ? He _].
  inversion_clear Hs as [|? ? Ka Hs']. inversion_clear Hs' as [|? ? Kb Hs].
  inversion_clear Hs as [|? ? Kc Hs']. inversion_clear Hs' as [|? ? Kd Hs].
  inversion_clear Hs as [|? ? Ke _].
  apply app_inj_len in H as [H1 H]; [|left; unfold putI64; by rewrite !length_putLE].
  apply app_inj_len in H as [H2 H]; [|left; unfold putI64; by rewrite !length_putLE].
  apply putI64_inj in H1; [|done..]. apply putI64_inj in H2; [|done..].
  apply putStr_app_inj in H as [H3 H]; [|done..]. apply putStr_app_inj in H as [H4 H]; [|done..].
  apply putStr_app_inj in H as [H5 H]; [|done..]. apply putStr_app_inj in H as [H6 H]; [|done..].
  rewrite <- (app_nil_r (putStr (GoTime.marshalText (li_CreatedAt r)))) in H.
  rewrite <- (app_nil_r (putStr (GoTime.marshalText (li_CreatedAt s)))) in H.
  apply putStr_app_inj in H as [H7 _]; [|done..]. done.
Qed.

Lemma LedgerLeaf_binding_witness :
  let r := mkLeafInput (-1) 25 "deposit" "credit" "" "sig" 0 in
  LedgerLeaf r = LedgerLeaf r /\ ((li_ID r = -1 /\ True) \/ collision).
Proof.
  intros r. split; [reflexivity|].
  destruct (LedgerLeaf_binding r r) as [H|H];
    [..|left; split; [exact (proj1 H)|exact I]|right; exact H];
    [| |reflexivity];
    (split; [unfold in_i64; simpl; unfold_i64; lia|]);
    (split; [unfold in_i64; simpl; unfold_i64; lia|]);
    apply (bool_decide_unpack _); vm_compute; exact I.
Defined.
