(* ===== verification/Base58.v ===== *)
(** * internal/solana/base58.go: the base58 codec

    Public keys, signatures and blockhashes are base58 strings.  The encoder and
    the decoder are both schoolbook radix conversions, in place on a little-endian
    digit buffer; the theorems say that they are inverse to each other and that
    the decoder accepts canonical encodings only. *)
From Stdlib Require Import ZArith Lia Strings.Ascii Strings.Byte.
From stdpp Require Import base list strings.
From S2P Require Import Prelude Sha256.

Open Scope Z_scope.
Open Scope go_scope.

Definition alphabet : string := "123456789ABCDEFGHJKLMNPQRSTUVWXYZabcdefghijkmnopqrstuvwxyz".

Fixpoint index_of (c : ascii) (s : string) (i : Z) : Z :=
  match s with
  | EmptyString => -1
  | String a s' => if Ascii.eqb a c then i else index_of c s' (i + 1)
  end.

(** The table: a digit's value, -1 for the other bytes. *)
Definition decodeMap (c : ascii) : Z := index_of c alphabet 0.

Definition alphabet_at (d : Z) : ascii :=
  match String.get (Z.to_nat d) alphabet with Some c => c | None => Ascii.zero end.

(** ** Encoding *)

(** [carry += int(digits[j]) << 8; digits[j] = byte(carry % 58); carry /= 58] *)
Fixpoint mulAdd256 (digits : list Z) (carry : Z) : list Z * Z :=
  match digits with
  | [] => ([], carry)
  | d :: rest =>
    let carry := carry + Z.shiftl d 8 in
    let '(rest', c) := mulAdd256 rest (Z.quot carry 58) in
    (Z.rem carry 58 :: rest', c)
  end.

(** [for carry > 0 { digits = append(digits, byte(carry%58)); carry /= 58 }] *)
Fixpoint push58 (fuel : nat) (carry : Z) : list Z :=
  match fuel with
  | O => []
  | S fuel' => if carry >? 0 then Z.rem carry 58 :: push58 fuel' (Z.quot carry 58) else []
  end.

Definition encodeByte (digits : list Z) (b : Byte.byte) : list Z :=
  let '(digits', c) := mulAdd256 digits (Zbyte b) in
  digits' ++ push58 (Z.to_nat c) c.

(** The number of leading elements that satisfy [f]. *)
Fixpoint leading {A} (f : A -> bool) (l : list A) : nat :=
  match l with
  | [] => O
  | x :: r => if f x then S (leading f r) else O
  end.

Definition is_zero (b : Byte.byte) : bool := Zbyte b =? 0.

Definition EncodeBase58 (b : bytes) : string :=
  let zeros := leading is_zero b in
  let digits := fold_left encodeByte (drop zeros b) [] in
  String.string_of_list_ascii (repeat "1"%char zeros ++ map alphabet_at (rev digits)).

(** ** Decoding *)

(** [strings.TrimSpace(s) != s]: a Unicode White_Space code point at either end,
    in UTF-8. *)
Definition white_space : list (list Z) :=
  map (fun z => [z]) [9; 10; 11; 12; 13; 32] ++
  [[194; 133]; [194; 160]; [225; 154; 128]; [226; 128; 168]; [226; 128; 169]; [226; 128; 175];
   [226; 129; 159]; [227; 128; 128]] ++
  map (fun z => [226; 128; z]) [128; 129; 130; 131; 132; 133; 134; 135; 136; 137; 138].

Definition surrounded (s : list Z) : bool :=
  existsb (fun w => bool_decide (take (length w) s = w) ||
                    bool_decide (drop (length s - length w) s = w)) white_space.

Definition ascii_Z (c : ascii) : Z := Z.of_N (N_of_ascii c).

(** [carry += int(out[j]) * 58; out[j] = byte(carry & 0xff); carry >>= 8] *)
Fixpoint mulAdd58 (out : list Z) (carry : Z) : list Z * Z :=
  match out with
  | [] => ([], carry)
  | d :: rest =>
    let carry := carry + d * 58 in
    let '(rest', c) := mulAdd58 rest (Z.shiftr carry 8) in
    (Z.land carry 255 :: rest', c)
  end.

Definition too_long : err := Errorf "decoded value too long".

(** The append loop, with its length check after every append. *)
Fixpoint push256 (fuel : nat) (zeros maxLen : Z) (out : list Z) (carry : Z) : res (list Z) :=
  match fuel with
  | O => Ok out
  | S fuel' =>
    if carry >? 0 then
      let out := out ++ [Z.land carry 255] in
      if (maxLen >? 0) && (Z.of_nat (length out) + zeros >? maxLen) then Err too_long
      else push256 fuel' zeros maxLen out (Z.shiftr carry 8)
    else Ok out
  end.

Definition decodeChar (zeros maxLen : Z) (out : list Z) (c : ascii) : res (list Z) :=
  let v := decodeMap c in
  if v <? 0 then Err (Errorf "invalid base58 character %q")
  else
    let '(out', carry) := mulAdd58 out v in
    push256 (Z.to_nat carry) zeros maxLen out' carry.

Fixpoint decodeChars (zeros maxLen : Z) (out : list Z) (s : list ascii) : res (list Z) :=
  match s with
  | [] => Ok out
  | c :: rest => let? out' := decodeChar zeros maxLen out c in decodeChars zeros maxLen out' rest
  end.

Definition DecodeBase58 (s : string) (maxDecodedLen : Z) : res bytes :=
  let cs := String.list_ascii_of_string s in
  if String.eqb s EmptyString then Err (Errorf "base58 value is required")
  else if surrounded (map ascii_Z cs)
  then Err (Errorf "base58 value contains surrounding whitespace")
  else
    let zeros := leading (Ascii.eqb "1"%char) cs in
    let? out := decodeChars (Z.of_nat zeros) maxDecodedLen [] cs in
    let decoded := repeat Byte.x00 zeros ++ map byteZ (rev out) in
    if (maxDecodedLen >? 0) && (Z.of_nat (length decoded) >? maxDecodedLen) then Err too_long
    else if negb (String.eqb (EncodeBase58 decoded) s)
    then Err (Errorf "non-canonical base58 encoding")
    else Ok decoded.

Close Scope go_scope.

Example encode_hello : EncodeBase58 (bytes_of_string "Hello World!") = "2NEpo7TZRRrLZSi2U"%string.
Proof. vm_compute. reflexivity. Qed.
Example decode_system : DecodeBase58 "11111111111111111111111111111111" 32 = Ok (repeat Byte.x00 32).
Proof. vm_compute. reflexivity. Qed.

(** ** Digit strings in base [b], least significant first *)
Section Radix.
Context (b : Z) (Hb : 1 < b).

Definition value (ds : list Z) : Z := foldr (fun d acc => d + b * acc) 0 ds.
Definition digits_ok (ds : list Z) : Prop := Forall (fun d => 0 <= d < b) ds.

(** No leading zero: the top digit counts. *)
Definition canonical (ds : list Z) : Prop :=
  ds = [] \/ b ^ Z.of_nat (length ds - 1) <= value ds.

Lemma value_nil : value [] = 0.
Proof using. done. Qed.
Lemma value_cons d ds : value (d :: ds) = d + b * value ds.
Proof using. done. Qed.
Lemma pow_len_nil : b ^ Z.of_nat (@length Z []) = 1.
Proof using. done. Qed.
Lemma pow_len_cons (d : Z) ds : b ^ Z.of_nat (length (d :: ds)) = b * b ^ Z.of_nat (length ds).
Proof using Hb. cbn [length]. by rewrite Nat2Z.inj_succ, Z.pow_succ_r by lia. Qed.

Lemma value_app xs ys : value (xs ++ ys) = value xs + b ^ Z.of_nat (length xs) * value ys.
Proof using Hb.
  induction xs as [|x xs IH]; simpl app; [rewrite value_nil, pow_len_nil; lia|].
  rewrite !value_cons, pow_len_cons, IH. ring.
Qed.

Lemma value_bounds ds : digits_ok ds -> 0 <= value ds < b ^ Z.of_nat (length ds).
Proof using Hb.
  induction 1 as [|d ds Hd _ IH]; [rewrite value_nil, pow_len_nil; lia|].
  rewrite value_cons, pow_len_cons. nia.
Qed.

Lemma value_inj xs ys :
  digits_ok xs -> digits_ok ys -> length xs = length ys -> value xs = value ys -> xs = ys.
Proof using Hb.
  intros Hx. revert ys. induction Hx as [|x xs Hx _ IH]; intros [|y ys] Hy Hl Hv; try done.
  apply Forall_cons in Hy as [Hy Hys]. injection Hl as Hl. rewrite !value_cons in Hv.
  assert (x = y /\ value xs = value ys) as [-> Hv'].
  { pose proof (Z.mod_unique (x + b * value xs) b (value xs) x ltac:(lia) ltac:(ring)).
    pose proof (Z.mod_unique (x + b * value xs) b (value ys) y ltac:(lia) ltac:(lia)).
    assert (x = y) by congruence. split; [done|nia]. }
  f_equal. by apply IH.
Qed.

Lemma canonical_length ds n :
  digits_ok ds -> canonical ds -> value ds < b ^ Z.of_nat n -> (length ds <= n)%nat.
Proof using Hb.
  intros Hd [->|Hc] Hv; simpl; [lia|].
  destruct (decide (length ds <= n)%nat); [done|]. exfalso.
  pose proof (Z.pow_le_mono_r b (Z.of_nat n) (Z.of_nat (length ds - 1)) ltac:(lia) ltac:(lia)). lia.
Qed.

Lemma canonical_inj xs ys :
  digits_ok xs -> digits_ok ys -> canonical xs -> canonical ys -> value xs = value ys -> xs = ys.
Proof using Hb.
  intros Hx Hy Cx Cy Hv. apply value_inj; try done.
  pose proof (value_bounds xs Hx). pose proof (value_bounds ys Hy).
  pose proof (canonical_length xs (length ys) Hx Cx ltac:(lia)).
  pose proof (canonical_length ys (length xs) Hy Cy ltac:(lia)). lia.
Qed.

Lemma digits_ok_nil : digits_ok [].
Proof using. apply Forall_nil_2. Qed.
Lemma canonical_nil : canonical [].
Proof using. by left. Qed.

(** The in-place multiply-and-add, and the carry it pushes. *)
Fixpoint mulAdd (m : Z) (ds : list Z) (c : Z) : list Z * Z :=
  match ds with
  | [] => ([], c)
  | d :: rest =>
    let c := c + d * m in
    let '(rest', c') := mulAdd m rest (c / b) in (c mod b :: rest', c')
  end.

Fixpoint push (fuel : nat) (c : Z) : list Z :=
  match fuel with
  | O => []
  | S f => if c >? 0 then c mod b :: push f (c / b) else []
  end.

Lemma mulAdd_spec m ds c :
  0 < m -> 0 <= c -> digits_ok ds ->
  let '(ds', c') := mulAdd m ds c in
  length ds' = length ds /\ digits_ok ds' /\ 0 <= c' /\
  value ds' + b ^ Z.of_nat (length ds) * c' = m * value ds + c.
Proof using Hb.
  intros Hm Hc Hd. revert c Hc. induction Hd as [|d ds Hd _ IH]; intros c Hc; cbn [mulAdd].
  - rewrite value_nil, pow_len_nil. repeat split; [by constructor|lia..].
  - assert (0 <= c + d * m) by nia.
    specialize (IH ((c + d * m) / b) ltac:(apply Z.div_pos; lia)).
    destruct (mulAdd m ds ((c + d * m) / b)) as [ds' c']. destruct IH as (Hl & Hok & Hc' & Hv).
    rewrite !value_cons, pow_len_cons. cbn [length].
    pose proof (Z.mod_pos_bound (c + d * m) b ltac:(lia)).
    pose proof (Z.div_mod (c + d * m) b ltac:(lia)).
    repeat split; [lia|by constructor|lia|nia].
Qed.

Lemma push_spec fuel c :
  0 <= c <= Z.of_nat fuel ->
  value (push fuel c) = c /\ digits_ok (push fuel c) /\ canonical (push fuel c).
Proof using Hb.
  revert c. induction fuel as [|f IH]; intros c Hc; cbn [push].
  - assert (c = 0) as -> by lia. repeat split; [constructor|by left].
  - destruct (c >? 0) eqn:E; zb.
    2:{ assert (c = 0) as -> by lia. repeat split; [constructor|by left]. }
    assert (c / b < c) by (apply Z.div_lt; lia). pose proof (Z.div_pos c b ltac:(lia) ltac:(lia)).
    destruct (IH (c / b) ltac:(lia)) as (Hv & Hd & Hcan).
    pose proof (Z.mod_pos_bound c b ltac:(lia)). pose proof (Z.div_mod c b ltac:(lia)).
    unfold canonical. rewrite value_cons, Hv. repeat split; [lia|by constructor|]. right.
    cbn [length]. rewrite Nat.sub_succ, Nat.sub_0_r.
    destruct (push f (c / b)) as [|x l] eqn:Ep; [rewrite pow_len_nil; lia|].
    destruct Hcan as [?|Hcan]; [done|]. rewrite Hv in Hcan. cbn [length] in Hcan.
    rewrite Nat.sub_succ, Nat.sub_0_r in Hcan. rewrite pow_len_cons. nia.
Qed.

Definition stepDigits (m : Z) (ds : list Z) (c : Z) : list Z :=
  let '(ds', c') := mulAdd m ds c in ds' ++ push (Z.to_nat c') c'.

Lemma step_spec m ds c :
  0 < m -> 0 <= c -> digits_ok ds -> canonical ds ->
  value (stepDigits m ds c) = m * value ds + c /\
  digits_ok (stepDigits m ds c) /\ canonical (stepDigits m ds c).
Proof using Hb.
  intros Hm Hc Hd Hcan. unfold stepDigits. pose proof (mulAdd_spec m ds c Hm Hc Hd) as H.
  destruct (mulAdd m ds c) as [ds' c']. destruct H as (Hl & Hok & Hc' & Hv).
  destruct (push_spec (Z.to_nat c') c' ltac:(lia)) as (Hpv & Hpd & Hpc).
  assert (Hval : value (ds' ++ push (Z.to_nat c') c') = m * value ds + c).
  { rewrite value_app, Hpv, Hl. exact Hv. }
  split; [done|]. split; [by apply Forall_app|]. unfold canonical. rewrite Hval, length_app, Hl.
  pose proof (value_bounds ds Hd) as Hds.
  destruct (push (Z.to_nat c') c') as [|p ps] eqn:Ep.
  - rewrite app_nil_r, Nat.add_0_r. destruct Hcan as [->|Hcan]; [left; by destruct ds'|].
    right. nia.
  - right. cbn [length]. destruct Hpc as [?|Hpc]; [done|].
    rewrite Hpv in Hpc. replace (length (p :: ps) - 1)%nat with (length ps) in Hpc by (simpl; lia).
    replace (length ds + S (length ps) - 1)%nat with (length ds + length ps)%nat by lia.
    rewrite Nat2Z.inj_add, Z.pow_add_r by lia. pose proof (value_bounds ds' Hok) as Hds'.
    pose proof (Z.pow_pos_nonneg b (Z.of_nat (length ds)) ltac:(lia) ltac:(lia)).
    pose proof (Z.mul_le_mono_nonneg_l _ _ (b ^ Z.of_nat (length ds)) ltac:(lia) Hpc). lia.
Qed.
End Radix.

(** ** The source's loops are these *)
Lemma mulAdd256_eq ds c :
  0 <= c -> digits_ok 58 ds -> mulAdd256 ds c = mulAdd 58 256 ds c.
Proof.
  intros Hc Hd. revert c Hc. induction Hd as [|d ds Hd _ IH]; intros c Hc; [done|].
  cbn [mulAdd256 mulAdd]. rewrite Z.shiftl_mul_pow2 by lia. change (2 ^ 8) with 256.
  rewrite Z.quot_div_nonneg, Z.rem_mod_nonneg by lia.
  by rewrite IH by (apply Z.div_pos; lia).
Qed.

Lemma push58_eq fuel c : 0 <= c -> push58 fuel c = push 58 fuel c.
Proof.
  revert c. induction fuel as [|f IH]; intros c Hc; [done|]. cbn [push58 push].
  destruct (c >? 0); [|done]. rewrite Z.quot_div_nonneg, Z.rem_mod_nonneg by lia.
  f_equal. apply IH, Z.div_pos; lia.
Qed.

Lemma encodeByte_eq ds b : digits_ok 58 ds -> encodeByte ds b = stepDigits 58 256 ds (Zbyte b).
Proof.
  intros Hd. pose proof (Zbyte_range b). unfold encodeByte, stepDigits.
  rewrite mulAdd256_eq by (done || lia).
  pose proof (mulAdd_spec 58 ltac:(lia) 256 ds (Zbyte b) ltac:(lia) ltac:(lia) Hd) as H0.
  destruct (mulAdd 58 256 ds (Zbyte b)) as [ds' c']. destruct H0 as (_ & _ & Hc' & _).
  by rewrite push58_eq.
Qed.

Lemma land255 c : Z.land c 255 = c mod 256.
Proof. change 255 with (Z.ones 8). by rewrite Z.land_ones by lia. Qed.

Lemma mulAdd58_eq out c : mulAdd58 out c = mulAdd 256 58 out c.
Proof.
  revert c. induction out as [|d out IH]; intros c; [done|]. cbn [mulAdd58 mulAdd].
  by rewrite land255, Z.shiftr_div_pow2, IH by lia.
Qed.

Lemma push256_eq fuel zeros maxLen out c :
  let r := out ++ push 256 fuel c in
  maxLen <= 0 \/ Z.of_nat (length r) + zeros <= maxLen ->
  push256 fuel zeros maxLen out c = Ok r.
Proof.
  revert out c. induction fuel as [|f IH]; intros out c r Hlen; subst r; cbn [push256 push] in *.
  - by rewrite app_nil_r.
  - destruct (c >? 0); [|by rewrite app_nil_r]. rewrite land255, Z.shiftr_div_pow2 by lia.
    change (2 ^ 8) with 256. rewrite !length_app in *. cbn [length] in *.
    destruct ((maxLen >? 0) && _) eqn:E; zb; [lia|..].
    + rewrite IH; [by rewrite <- app_assoc|]. rewrite !length_app. cbn [length]. lia.
    + rewrite IH; [by rewrite <- app_assoc|]. rewrite !length_app. cbn [length]. lia.
Qed.

(** ** Alphabet *)
Definition alphabet_ok : bool :=
  forallb (fun n => let d := Z.of_nat n in
    (decodeMap (alphabet_at d) =? d) &&
    ((49 <=? ascii_Z (alphabet_at d)) && (ascii_Z (alphabet_at d) <=? 122))) (seq 0 58).

Lemma alphabet_at_spec d : 0 <= d < 58 ->
  decodeMap (alphabet_at d) = d /\ 49 <= ascii_Z (alphabet_at d) <= 122.
Proof.
  intros Hd. assert (H : alphabet_ok = true) by (vm_compute; reflexivity).
  unfold alphabet_ok in H. rewrite forallb_forall in H. specialize (H (Z.to_nat d)).
  rewrite Z2Nat.id in H by lia. rewrite in_seq in H.
  assert (Hb : (0 <= Z.to_nat d < 0 + 58)%nat) by lia. specialize (H Hb). zb. lia.
Qed.

Definition spaces_ok : bool :=
  forallb (fun w => bool_decide (w <> []) && forallb (fun z => (z <? 49) || (122 <? z)) w) white_space.

Lemma alphabet_not_surrounded s : Forall (fun z => 49 <= z <= 122) s -> surrounded s = false.
Proof.
  intros Hs. apply not_true_iff_false. unfold surrounded. intros (w & Hw & Heq)%existsb_exists.
  assert (H : spaces_ok = true) by (vm_compute; reflexivity).
  unfold spaces_ok in H. rewrite forallb_forall in H. specialize (H w Hw).
  apply andb_prop in H as [Hne Hout]. apply bool_decide_eq_true_1 in Hne.
  assert (Hin : Forall (fun z => 49 <= z <= 122) w).
  { apply orb_prop in Heq as [E|E]; apply bool_decide_eq_true_1 in E; rewrite <- E;
      [by apply Forall_take|by apply Forall_drop]. }
  destruct w as [|z w]; [done|]. apply Forall_cons in Hin as [Hz _].
  rewrite forallb_forall in Hout. specialize (Hout z (or_introl eq_refl)). zb; lia.
Qed.

(** ** Folds *)
Lemma fold_step b m l ds :
  1 < b -> 1 < m -> digits_ok m l -> digits_ok b ds -> canonical b ds ->
  let r := fold_left (stepDigits b m) l ds in
  value b r = value m (rev l) + m ^ Z.of_nat (length l) * value b ds /\
  digits_ok b r /\ canonical b r /\ (length ds <= length r)%nat.
Proof.
  intros Hb Hm Hl. revert ds. induction Hl as [|c l Hc _ IH]; intros ds Hd Hcan; cbn [fold_left rev].
  - cbn. split; [lia|done].
  - destruct (step_spec b Hb m ds c ltac:(lia) ltac:(lia) Hd Hcan) as (Hv & Hd' & Hcan').
    destruct (IH _ Hd' Hcan') as (Hv' & Hd'' & Hcan'' & Hlen). split; [|split; [done|split; [done|]]].
    + rewrite Hv', Hv, value_app, length_rev, value_cons, value_nil by lia.
      rewrite pow_len_cons by lia. ring.
    + etrans; [|exact Hlen]. unfold stepDigits.
      pose proof (mulAdd_spec b Hb m ds c ltac:(lia) ltac:(lia) Hd) as Hma.
      destruct (mulAdd b m ds c). destruct Hma as [Hl' _]. rewrite length_app. lia.
Qed.

Lemma fold_encode l : forall ds, digits_ok 58 ds -> canonical 58 ds ->
  fold_left encodeByte l ds = fold_left (stepDigits 58 256) (map Zbyte l) ds.
Proof.
  induction l as [|c l IH]; intros ds Hd Hcan; [done|]. cbn [fold_left map].
  pose proof (Zbyte_range c).
  destruct (step_spec 58 ltac:(lia) 256 ds (Zbyte c) ltac:(lia) ltac:(lia) Hd Hcan) as (_ & ? & ?).
  rewrite encodeByte_eq by done. by apply IH.
Qed.

Lemma bytes_digits l : digits_ok 256 (map Zbyte l).
Proof. apply Forall_map. apply Forall_forall. intros c _. apply Zbyte_range. Qed.

(** The digits the encoder prints. *)
Lemma encode_digits l :
  let ds := fold_left encodeByte l [] in
  value 58 ds = value 256 (rev (map Zbyte l)) /\ digits_ok 58 ds /\ canonical 58 ds.
Proof.
  rewrite fold_encode by (apply digits_ok_nil || apply canonical_nil).
  destruct (fold_step 58 256 (map Zbyte l) [] ltac:(lia) ltac:(lia) (bytes_digits l)
    (digits_ok_nil 58) (canonical_nil 58)) as (Hv & Hd & Hc & _).
  rewrite value_nil, Z.mul_0_r, Z.add_0_r in Hv. done.
Qed.

Lemma decodeChars_app z m out s t :
  decodeChars z m out (s ++ t) = res_bind (decodeChars z m out s) (fun out' => decodeChars z m out' t).
Proof.
  revert out. induction s as [|c s IH]; intros out; [done|]. cbn [decodeChars app].
  destruct (decodeChar z m out c); simpl; [apply IH|done].
Qed.

Lemma decodeChars_ones z m n : decodeChars z m [] (repeat "1"%char n) = Ok [].
Proof. induction n as [|n IH]; [done|]. exact IH. Qed.

Lemma decodeChars_digits z m l : forall out,
  digits_ok 58 l -> digits_ok 256 out -> canonical 256 out ->
  (m <= 0 \/ Z.of_nat (length (fold_left (stepDigits 256 58) l out)) + z <= m) ->
  decodeChars z m out (map alphabet_at l) = Ok (fold_left (stepDigits 256 58) l out).
Proof.
  induction l as [|d l IH]; intros out Hl Hd Hcan Hm; [done|].
  apply Forall_cons in Hl as [Hd0 Hl]. cbn [map decodeChars fold_left] in *.
  destruct (alphabet_at_spec d Hd0) as [Hdec _]. unfold decodeChar. rewrite Hdec.
  destruct (d <? 0) eqn:E; zb; [lia|].
  destruct (step_spec 256 ltac:(lia) 58 out d ltac:(lia) ltac:(lia) Hd Hcan) as (_ & Hd' & Hcan').
  destruct (fold_step 256 58 l (stepDigits 256 58 out d) ltac:(lia) ltac:(lia) Hl Hd' Hcan')
    as (_ & _ & _ & Hmono).
  assert (Hstep : (let '(out', carry) := mulAdd58 out d in
    push256 (Z.to_nat carry) z m out' carry) = Ok (stepDigits 256 58 out d)).
  { rewrite mulAdd58_eq. unfold stepDigits in *. destruct (mulAdd 256 58 out d) as [ds' c'].
    apply push256_eq. lia. }
  rewrite Hstep. simpl. by apply IH.
Qed.

Lemma leading_repeat {A} (f : A -> bool) x n l :
  f x = true -> (match l with [] => true | y :: _ => negb (f y) end) = true ->
  leading f (repeat x n ++ l) = n.
Proof.
  intros Hx Hl. induction n as [|n IH]; simpl; [|by rewrite Hx, IH].
  destruct l as [|y l]; [done|]. simpl. by destruct (f y).
Qed.

Lemma leading_split l :
  l = repeat Byte.x00 (leading is_zero l) ++ drop (leading is_zero l) l /\
  match drop (leading is_zero l) l with [] => True | y :: _ => 0 < Zbyte y end.
Proof.
  induction l as [|y l [IH1 IH2]]; [done|]. simpl. unfold is_zero at 1 3 5. destruct (Zbyte y =? 0) eqn:E; zb.
  - simpl. split; [|exact IH2]. f_equal; [|exact IH1]. apply Zbyte_inj. by rewrite E.
  - simpl. split; [done|]. pose proof (Zbyte_range y). lia.
Qed.

(** A digit string read most significant first is canonical if its first digit
    is not zero. *)
Lemma canonical_rev b l : 1 < b -> digits_ok b l ->
  match l with [] => True | y :: _ => 0 < y end -> canonical b (rev l).
Proof.
  intros Hb Hd Hy. destruct l as [|y l]; [by left|]. right. cbn [rev].
  apply Forall_cons in Hd as [_ Hd].
  rewrite value_app, length_app, length_rev, value_cons, value_nil by lia. cbn [length].
  replace (length l + 1 - 1)%nat with (length l) by lia.
  assert (Hrev : digits_ok b (rev l)) by (by apply Forall_rev).
  pose proof (value_bounds b Hb _ Hrev).
  pose proof (Z.pow_pos_nonneg b (Z.of_nat (length l)) ltac:(lia) ltac:(lia)). nia.
Qed.

Lemma canonical_top b ds d l : 1 < b -> digits_ok b ds -> canonical b ds -> rev ds = d :: l -> 0 < d.
Proof.
  intros Hb Hd Hcan Hrev. assert (Hds : ds = rev l ++ [d]) by (by rewrite <- (rev_involutive ds), Hrev).
  subst ds. apply Forall_app in Hd as [Hl Hd]. apply Forall_cons in Hd as [Hd _].
  destruct Hcan as [?|Hcan]; [by destruct (rev l)|].
  rewrite value_app, length_app, value_cons, value_nil in Hcan by lia. cbn [length] in Hcan.
  replace (length (rev l) + 1 - 1)%nat with (length (rev l)) in Hcan by lia.
  pose proof (value_bounds b Hb _ Hl). nia.
Qed.

Lemma string_of_bytes_eq l m : String.string_of_list_ascii l = String.string_of_list_ascii m -> l = m.
Proof.
  intros H. apply (f_equal String.list_ascii_of_string) in H.
  by rewrite !String.list_ascii_of_string_of_list_ascii in H.
Qed.

Lemma decode_encode b max :
  b <> [] -> max <= 0 \/ Z.of_nat (length b) <= max -> DecodeBase58 (EncodeBase58 b) max = Ok b.
Proof.
  intros Hb Hmax. pose proof (leading_split b) as [Hsplit Hlead]. set (z := leading is_zero b) in *.
  set (rest := drop z b) in *. set (ds := fold_left encodeByte rest []).
  destruct (encode_digits rest) as (Hv & Hd & Hcan). fold ds in Hv, Hd, Hcan.
  assert (Henc : EncodeBase58 b = String.string_of_list_ascii (repeat "1"%char z ++ map alphabet_at (rev ds)))
    by done.
  assert (Hrd : digits_ok 58 (rev ds)) by (by apply Forall_rev).
  (* the decoder's digits are the bytes *)
  assert (Hcr : canonical 256 (rev (map Zbyte rest))).
  { apply canonical_rev; [lia|apply bytes_digits|]. by destruct rest. }
  assert (Hout : fold_left (stepDigits 256 58) (rev ds) [] = rev (map Zbyte rest)).
  { destruct (fold_step 256 58 (rev ds) [] ltac:(lia) ltac:(lia) Hrd (digits_ok_nil 256)
      (canonical_nil 256)) as (Hv' & Hd' & Hc' & _).
    apply (canonical_inj 256); [lia|done|apply Forall_rev, bytes_digits|done|done|].
    rewrite Hv', rev_involutive, value_nil. lia. }
  assert (Hlen : Z.of_nat (length (rev (map Zbyte rest))) + Z.of_nat z = Z.of_nat (length b)).
  { pose proof (f_equal (@length _) Hsplit) as HL. rewrite length_app, repeat_length in HL.
    rewrite length_rev, length_map. lia. }
  set (cs := repeat "1"%char z ++ map alphabet_at (rev ds)) in *.
  assert (Hcs : String.list_ascii_of_string (EncodeBase58 b) = cs)
    by (rewrite Henc; apply String.list_ascii_of_string_of_list_ascii).
  assert (Hne : cs <> []).
  { unfold cs. destruct z eqn:Ez; [|done]. simpl. intros Hn. apply map_eq_nil in Hn.
    rewrite Hn in Hout. simpl in Hout. apply (f_equal (@length Z)) in Hout.
    rewrite length_rev, length_map in Hout. simpl in Hout, Hsplit.
    apply Hb. rewrite Hsplit. by destruct rest. }
  unfold DecodeBase58. rewrite Hcs.
  destruct (String.eqb (EncodeBase58 b) EmptyString) eqn:Ee; zb.
  { exfalso. apply Hne. rewrite Henc in Ee. by apply (string_of_bytes_eq _ []) in Ee. }
  rewrite alphabet_not_surrounded.
  2:{ apply Forall_map, Forall_app. split.
      - apply Forall_forall. intros c Hc%list_elem_of_In%repeat_spec. subst c. vm_compute. by split.
      - apply Forall_map. eapply Forall_impl; [exact Hrd|]. intros d Hdd. by apply alphabet_at_spec. }
  assert (Hz : leading (Ascii.eqb "1"%char) cs = z).
  { apply leading_repeat; [done|]. destruct (rev ds) as [|d l] eqn:Er; [done|]. cbn [map].
    pose proof (canonical_top 58 ds d l ltac:(lia) Hd Hcan Er) as Hpos.
    apply Forall_cons in Hrd as [Hdd _]. destruct (alphabet_at_spec d Hdd) as [Hdec _].
    destruct (Ascii.eqb "1" (alphabet_at d)) eqn:E1; [|done]. apply Ascii.eqb_eq in E1.
    rewrite <- E1 in Hdec. change (decodeMap "1"%char) with 0 in Hdec. lia. }
  rewrite Hz. unfold cs. rewrite decodeChars_app, decodeChars_ones. cbn [res_bind].
  rewrite decodeChars_digits;
    [|exact Hrd|apply digits_ok_nil|apply canonical_nil|rewrite Hout; lia].
  rewrite Hout. cbn [res_bind]. rewrite rev_involutive.
  assert (Hmap : map byteZ (map Zbyte rest) = rest).
  { rewrite map_map. rewrite <- (map_id rest) at 2. apply map_ext, byteZ_Zbyte. }
  rewrite Hmap, <- Hsplit. rewrite String.eqb_refl. simpl.
  destruct ((max >? 0) && (Z.of_nat (length b) >? max)) eqn:E; zb; [lia|done..].
Qed.

(** Base58 is a bijection: [DecodeBase58] accepts exactly the canonical
    encodings of the non-empty byte strings within its length limit (no limit
    when it is not positive) and returns the bytes; so a decoded key re-encodes
    to the same text, and every encoded key decodes to itself. *)
Theorem DecodeBase58_exact s max b :
  DecodeBase58 s max = Ok b <->
  EncodeBase58 b = s /\ b <> [] /\ (max <= 0 \/ Z.of_nat (length b) <= max).
Proof.
  split.
  - unfold DecodeBase58. intros H. destruct (String.eqb s EmptyString) eqn:Es; [done|].
    destruct (surrounded _); [done|]. apply res_bind_Ok in H as (out & _ & H).
    destruct (_ && _) eqn:El; [done|]. destruct (negb _) eqn:Ee; [done|].
    injection H as <-. zb; (split; [done|]); (split; [|lia]); intros Hn; rewrite Hn in Ee;
      change (EncodeBase58 []) with EmptyString in Ee; congruence.
  - intros (<- & Hb & Hm). by apply decode_encode.
Qed.
