(* ===== verification/GoText.v ===== *)
(** * Package strings, as the sources use it

    [strings.TrimSpace], [ToLower], [TrimPrefix], [HasPrefix] and [Contains] on
    byte strings.  [ToLower] maps the ASCII capitals and the two other runes whose
    lower case is an ASCII letter (U+0130 and the Kelvin sign); every other rune
    is left as it is, which no comparison with an ASCII text can tell. *)
From Stdlib Require Import ZArith Lia Strings.Ascii Strings.String.
From stdpp Require Import base list strings.
From S2P Require Import Prelude Sha256 Base58.

Open Scope Z_scope.

Notation chars := (list ascii).
Definition chars_of (s : string) : chars := String.list_ascii_of_string s.
Definition text_of (l : chars) : string := String.string_of_list_ascii l.

Lemma text_chars s : text_of (chars_of s) = s.
Proof. apply String.string_of_list_ascii_of_string. Qed.
Lemma chars_text l : chars_of (text_of l) = l.
Proof. apply String.list_ascii_of_string_of_list_ascii. Qed.

(** ** Prefixes *)
Fixpoint has_prefix (p l : chars) : bool :=
  match p, l with
  | [], _ => true
  | a :: p', b :: l' => Ascii.eqb a b && has_prefix p' l'
  | _ :: _, [] => false
  end.

Lemma has_prefix_app p l : has_prefix p l = true <-> exists r, l = p ++ r.
Proof.
  revert l. induction p as [|a p IH]; intros l; simpl; [split; [by exists l|done]|].
  destruct l as [|b l]; [split; [done|by intros [r ?]]|].
  rewrite andb_true_iff, Ascii.eqb_eq, IH. split.
  - intros [-> [r ->]]. by exists r.
  - intros [r [= -> ->]]. split; [done|by exists r].
Qed.

Definition TrimPrefix (p s : string) : string :=
  if has_prefix (chars_of p) (chars_of s) then text_of (drop (String.length p) (chars_of s)) else s.
Definition HasPrefix (s p : string) : bool := has_prefix (chars_of p) (chars_of s).

Fixpoint contains (sub l : chars) : bool :=
  has_prefix sub l || match l with [] => false | _ :: l' => contains sub l' end.
Definition Contains (s sub : string) : bool := contains (chars_of sub) (chars_of s).

Lemma contains_spec sub l : contains sub l = true <-> exists a b, l = a ++ sub ++ b.
Proof.
  induction l as [|c l IH]; simpl; rewrite orb_true_iff, has_prefix_app.
  - split; [|intros (a & b & H); left; exists b; by destruct a]. intros [[r Hr]|?]; [|done]. by exists [], r.
  - rewrite IH. split.
    + intros [[r Hr]|(a & b & ->)]; [by exists [], r|by exists (c :: a), b].
    + intros (a & b & H). destruct a as [|x a]; [left; by exists b|right].
      exists a, b. simpl in H. congruence.
Qed.

(** ** Space *)
Definition bytes_Z (l : chars) : list Z := map ascii_Z l.

(** The length of the white space rune at the head of [l], 0 without one. *)
Definition space_at (l : list Z) : nat :=
  match find (fun w => bool_decide (take (length w) l = w)) white_space with
  | Some w => length w
  | None => 0%nat
  end.

Fixpoint trim_left (fuel : nat) (l : chars) : chars :=
  match fuel with
  | O => l
  | S k => match space_at (bytes_Z l) with O => l | n => trim_left k (drop n l) end
  end.

Definition space_end (l : list Z) : nat :=
  match find (fun w => bool_decide (drop (length l - length w) l = w)) white_space with
  | Some w => length w
  | None => 0%nat
  end.

Fixpoint trim_right (fuel : nat) (l : chars) : chars :=
  match fuel with
  | O => l
  | S k => match space_end (bytes_Z l) with O => l | n => trim_right k (take (length l - n) l) end
  end.

Definition TrimSpace (s : string) : string :=
  let l := chars_of s in
  let l := trim_left (length l) l in
  text_of (trim_right (length l) l).

(** ** Case *)
Definition lower_char (c : ascii) : ascii :=
  let z := ascii_Z c in
  if (65 <=? z) && (z <=? 90) then ascii_of_N (Z.to_N (z + 32)) else c.

Fixpoint lower_chars (l : chars) : chars :=
  match l with
  | "196"%char :: "176"%char :: r => "i"%char :: lower_chars r
  | "226"%char :: "132"%char :: "170"%char :: r => "k"%char :: lower_chars r
  | c :: r => lower_char c :: lower_chars r
  | [] => []
  end.
Definition ToLower (s : string) : string := text_of (lower_chars (chars_of s)).

Example trim_ex : TrimSpace "  a b	 " = "a b"%string.
Proof. vm_compute. reflexivity. Qed.
Example lower_ex : ToLower "Trusted_Region" = "trusted_region"%string.
Proof. vm_compute. reflexivity. Qed.
Example contains_ex : Contains "rpc: Blockhash not found" "hash not" = true.
Proof. vm_compute. reflexivity. Qed.
