(* ===== verification/AclTypes.v ===== *)
(** * The records of the access layer

    The structs of src/internal/store/acl.go that the access decision reads, the
    observations of src/internal/mesh/client.go and the claims of
    src/internal/nodecred/jwt.go.  A pointer is an [option]; a struct's zero value
    has the name of its type with the prefix [zero]. *)
From Stdlib Require Import ZArith.
From stdpp Require Import base gmap strings list.
From S2P Require Import Prelude.

Open Scope Z_scope.

Record ACLRule := mkRule { Kind : string; Value : string }.

Record RegionMembership := mkMembership {
  rm_InstanceID : Z; rm_PeerID : string; rm_Label : string;
  rm_RegionID : Z; rm_RegionSlug : string; rm_RegionStatus : string;
  rm_RegionRevision : Z; rm_NodeRole : string; rm_Status : string;
  rm_AdmittedByAccountID : option string; rm_AdmissionReason : option string;
  rm_ExpiresAt : option time; rm_OwnershipVerifiedAt : option time; rm_MembershipRevision : Z;
  rm_TrustedServiceCount : Z; rm_CreatedAt : time; rm_UpdatedAt : time }.

Record InstanceService := mkService {
  is_ID : Z; is_InstanceID : Z; is_ServiceName : string; is_Exposure : string;
  is_RegionID : option Z; is_RegionSlug : option string; is_AccessMode : string;
  is_ServicePolicyRevision : Z; is_ObservedPresent : bool; is_ObservedLastSeenAt : option time;
  is_CreatedAt : time; is_UpdatedAt : time; is_Rules : list ACLRule }.

Record InstanceInfo := mkInstance {
  in_ID : Z; in_AccountID : string; in_PeerID : string; in_Label : string;
  in_OwnerWallet : string; in_AccessMode : string; in_PolicyScope : string;
  in_PolicyRevision : Z; in_OwnershipStatus : string; in_ObservedWallet : option string;
  in_OwnershipObservedAt : option time; in_CreatedAt : time; in_UpdatedAt : time;
  in_Rules : list ACLRule; in_Membership : option RegionMembership;
  in_Services : list InstanceService }.
Definition zeroInstance : InstanceInfo :=
  mkInstance 0 "" "" "" "" "" "" 0 "" None None zeroTime zeroTime [] None [].

Record IdentityInfo := mkIdentity {
  id_AccountID : string; id_Email : string; id_EmailDomain : string; id_EmailVerified : bool;
  id_LastVerifiedAt : time }.
Definition zeroIdentity : IdentityInfo := mkIdentity "" "" "" false zeroTime.

(** Regions, invitations and challenges. *)
Record RegionInfo := mkRegion {
  ri_ID : Z; ri_Slug : string; ri_Name : string; ri_OwnerAccountID : string; ri_Status : string;
  ri_RegionRevision : Z; ri_CreatedAt : time; ri_UpdatedAt : time }.

Record RegionInvitation := mkInvitation {
  vi_ID : Z; vi_RegionID : Z; vi_RegionSlug : string; vi_InstanceID : Z; vi_PeerID : string;
  vi_Label : string; vi_CreatedByAccountID : string; vi_AcceptanceTokenHash : string;
  vi_Status : string; vi_NodeRole : string; vi_ExpiresAt : time; vi_AcceptedAt : option time;
  vi_CancelledAt : option time; vi_CreatedAt : time; vi_UpdatedAt : time }.

Record WalletChallenge := mkWalletChallenge {
  wh_ID : string; wh_AccountID : string; wh_Wallet : string; wh_Nonce : string;
  wh_Message : string; wh_IssuedAt : time; wh_ExpiresAt : time }.

Record NodeCredentialChallenge := mkNodeChallenge {
  nd_ID : string; nd_PeerID : string; nd_RegionSlug : string; nd_NodeRole : string;
  nd_Audience : string; nd_NonceHash : string; nd_ChallengeMessage : string;
  nd_IssuedAt : time; nd_ExpiresAt : time; nd_ConsumedAt : option time }.

(** What the node advertises, and what its owner wants. *)
Record ObservedService := mkObserved { os_Name : string; os_Count : Z }.
Record ServiceInventory := mkInventory {
  iy_ObservedAt : time; iy_SupportsPolicyV2 : bool; iy_Services : list ObservedService }.
Record ReplaceServicePolicyInput := mkReplaceInput {
  rp_PolicyScope : string; rp_AcknowledgeScopeReset : bool; rp_Inventory : ServiceInventory;
  rp_Services : list InstanceService }.

Record WalletInfo := mkWallet {
  wi_ID : Z; wi_AccountID : string; wi_Wallet : string; wi_Primary : bool; wi_CreatedAt : time }.

Record ActiveKey := mkActiveKey {
  KeyID : Z; UserID : option string; KeyHash : string; KeyPrefix : string }.

(** The observation of a peer in the mesh. *)
Record ServiceObservation := mkServiceObservation { so_Name : string; so_IdentityGroups : list string }.
Record PeerObservation := mkObservation {
  ob_PeerID : string; ob_Wallet : string; ob_ObservedAt : time; ob_Online : bool;
  ob_Services : list ServiceObservation; ob_Capabilities : gset string }.
Definition zeroObservation : PeerObservation := mkObservation "" "" zeroTime false [] ∅.

Record Claims := mkClaims {
  cl_Subject : string; cl_Audience : string; cl_Role : string; cl_Region : string;
  cl_MembershipRevision : Z; cl_JTI : string; cl_IssuedAt : time; cl_ExpiresAt : time }.

Definition PolicyScopePeer : string := "peer".
Definition PolicyScopeService : string := "service".
Definition ExposurePermissionless : string := "permissionless".
Definition ExposureTrustedRegion : string := "trusted_region".
Definition ExposureDisabled : string := "disabled".
Definition AccessModeInherit : string := "inherit".
Definition AccessModePublic : string := "public".
Definition AccessModeRestricted : string := "restricted".

(** The errors of the directory. *)
Definition ErrStoreNotFound : err := Sentinel "store: not found".
Definition ErrStoreConflict : err := Sentinel "store: conflict".
Definition ErrChallengeExpired : err := Sentinel "store: challenge expired".
Definition ErrChallengeConsumed : err := Sentinel "store: challenge consumed".
Definition ErrWalletInUse : err := Sentinel "store: wallet in use".
Definition ErrWalletOtherAccount : err := Sentinel "store: wallet linked to another account".
Definition ErrWalletAlreadyLinked : err := Sentinel "store: account already has a linked wallet".
Definition ErrRegionMigrationConflict : err :=
  Sentinel "store: region migration blocked by existing bindings".

(** [t.Sub(u)]: a duration saturates at the ends of int64. *)
Definition Sub (t u : time) : Z := Z.max (- two63) (Z.min maxI64 (t - u)).
Definition After (t u : time) : bool := u <? t.
Definition Before (t u : time) : bool := t <? u.
