(* ===== verification/Acl.v ===== *)
(** * internal/aclapi/api.go: the access decision

    Both evaluators, from the validated request to the answer, against a store, a
    mesh and a node-credential verifier given by their interfaces.  Within one
    request the clock does not advance.  The token-bucket rate limiter (floating
    point) is an argument of the handler. *)
From Stdlib Require Import ZArith Lia Strings.Ascii Strings.String.
From stdpp Require Import base gmap strings list sorting pretty.
From S2P Require Import Prelude Sha256 Base58 GoText AclTypes.

Open Scope Z_scope.

Definition maxPeerBatch : Z := 100.

(** ** What the service asks of others *)
Class aclStore := {
  LookupActiveKey : string -> res ActiveKey;
  ListManagedInstancesByPeerIDs : list string -> res (list InstanceInfo);
  GetIdentity : string -> res IdentityInfo;
  GetUserWalletSet : string -> res (list string);
  ListWalletsByUser : string -> res (list WalletInfo) }.

Record Service `{aclStore} := mkACLService {
  s_mesh : list string -> res (gmap string PeerObservation);   (* LookupPeers *)
  s_internalDigest : bytes;
  s_nodeVerifier : option (string -> res Claims);
  s_identityMaxAge : Z;
  s_ownershipMaxAge : Z;
  s_cacheTTL : Z;
  s_now : time }.

(** ** Requests and answers *)
Record evaluateRequest := mkReq1 { r1_KeyHash : string; r1_PeerIDs : list string }.
Record evaluateV2Request := mkReq2 {
  rq_KeyHash : string; rq_Partition : string; rq_Region : string; rq_RouteKind : string;
  rq_Service : string; rq_PeerIDs : list string; rq_UpstreamPeerID : string }.

Record deniedPeer := mkDenied { dn_PeerID : string; dn_Reason : string }.
Record evaluateResponse := mkResp1 {
  e1_KeyID : string; e1_AllowedPeerIDs : list string; e1_Denied : list deniedPeer;
  e1_PrimaryWallet : string; e1_CacheTTLSeconds : Z }.

Record decisionScope := mkScope {
  sc_Partition : string; sc_Region : string; sc_RouteKind : string; sc_Service : string;
  sc_RegionRevision : Z }.
Record peerDecision := mkDecision {
  pd_PeerID : string; pd_Allowed : bool; pd_Reason : string; pd_PolicyScope : string;
  pd_ServiceExposure : string; pd_PolicyRevision : Z; pd_ServicePolicyRevision : Z;
  pd_MembershipRevision : Z; pd_EvaluatedAt : time }.
Record evaluateV2Response := mkResp2 {
  e2_KeyID : string; e2_PrimaryWallet : string; e2_DecisionScope : decisionScope;
  e2_Decisions : list peerDecision }.

(** An answer, or a status with its text. *)
Inductive answer (A : Type) := Done (a : A) | Refuse (status : Z) (text : string).
Arguments Done {A} a.
Arguments Refuse {A} status text.

(** ** The principal, loaded on demand and at most once *)
Record principalContext := mkPrincipal {
  pc_key : ActiveKey;
  pc_identity : option (IdentityInfo * option err);   (* identityLoaded *)
  pc_walletSet : option (gset string * option err);   (* walletSetLoaded *)
  pc_primary : option string }.                       (* walletsLoaded *)
Definition newPrincipal (key : ActiveKey) : principalContext := mkPrincipal key None None None.

Section Aclapi.
Context `{ST : aclStore}.

Definition loadIdentity (key : ActiveKey) : IdentityInfo * option err :=
  match UserID key with
  | None => (zeroIdentity, None)
  | Some u =>
    match GetIdentity u with
    | Ok i => (i, None)
    | Err e => (zeroIdentity, if errors_is e ErrStoreNotFound then None else Some e)
    end
  end.

Definition identityValue (p : principalContext) : (IdentityInfo * option err) * principalContext :=
  match pc_identity p with
  | Some v => (v, p)
  | None => let v := loadIdentity (pc_key p) in
            (v, mkPrincipal (pc_key p) (Some v) (pc_walletSet p) (pc_primary p))
  end.

Definition loadWalletSet (key : ActiveKey) : gset string * option err :=
  match UserID key with
  | None => (∅, None)
  | Some u =>
    match GetUserWalletSet u with
    | Ok ws => (list_to_set ws, None)
    | Err e => (∅, Some e)
    end
  end.

Definition walletSetValue (p : principalContext) : (gset string * option err) * principalContext :=
  match pc_walletSet p with
  | Some v => (v, p)
  | None => let v := loadWalletSet (pc_key p) in
            (v, mkPrincipal (pc_key p) (pc_identity p) (Some v) (pc_primary p))
  end.

Definition loadPrimary (key : ActiveKey) : string :=
  match UserID key with
  | None => ""
  | Some u =>
    match ListWalletsByUser u with
    | Ok ws => match find wi_Primary ws with Some w => wi_Wallet w | None => "" end
    | Err _ => ""
    end
  end.

Definition primaryWalletValue (p : principalContext) : string :=
  match pc_primary p with Some w => w | None => loadPrimary (pc_key p) end.

(** ** Pure pieces *)
Definition findServicePolicy (services : list InstanceService) (name : string) : option InstanceService :=
  find (fun s => String.eqb (is_ServiceName s) name) services.

Definition countService (obs : PeerObservation) (name : string) : Z :=
  Z.of_nat (length (filter (fun s => so_Name s = name) (ob_Services obs))).

Definition hex_digit (c : ascii) : bool :=
  let z := ascii_Z c in
  ((48 <=? z) && (z <=? 57)) || ((97 <=? z) && (z <=? 102)) || ((65 <=? z) && (z <=? 70)).

(** [hex.DecodeString] of 64 bytes fails exactly at a byte that is not a digit. *)
Definition validKeyHash (v : string) : bool :=
  Nat.eqb (String.length v) 64 && String.eqb (ToLower v) v && forallb hex_digit (chars_of v).

Definition name_char (i : nat) (c : ascii) : bool :=
  let z := ascii_Z c in
  ((65 <=? z) && (z <=? 90)) || ((97 <=? z) && (z <=? 122)) || ((48 <=? z) && (z <=? 57)) ||
  ((0 <? Z.of_nat i) && ((z =? 46) || (z =? 95) || (z =? 45))).

(** A multi-byte rune is in none of the ranges, nor is any of its bytes. *)
Definition validServiceName (v : string) : bool :=
  negb (Nat.eqb (String.length v) 0) && (String.length v <=? 80)%nat &&
  forallb (fun p => name_char (fst p) (snd p)) (imap pair (chars_of v)).

(** Byte order, as [slices.Sort] on strings. *)
Definition string_le (a b : string) : Prop := String.leb a b = true.
#[export] Instance string_le_dec : RelDecision string_le.
Proof. intros a b. unfold string_le. apply _. Defined.

Definition dedupeStep (out : list string) (p : string) : list string :=
  let p := TrimSpace p in
  if String.eqb p "" || bool_decide (p ∈ out) then out else out ++ [p].
Definition dedupePeers (peerIDs : list string) : list string :=
  merge_sort string_le (fold_left dedupeStep peerIDs []).

Definition membershipActive (m : option RegionMembership) (now : time) : bool :=
  match m with
  | None => false
  | Some m => String.eqb (rm_Status m) "active" && String.eqb (rm_RegionStatus m) "active" &&
              match rm_ExpiresAt m with None => true | Some t => Before now t end
  end.

Definition membershipReason (m : option RegionMembership) (now : time) : string :=
  match m with
  | None => "not_region_member"
  | Some m =>
    let st := rm_Status m in
    if String.eqb st "suspended" then "membership_suspended"
    else if String.eqb st "expired" then "membership_expired"
    else if String.eqb st "revoked" then "membership_revoked"
    else if String.eqb st "ownership_mismatch" then "ownership_mismatch"
    else if String.eqb st "ownership_unavailable" then "ownership_unavailable"
    else if match rm_ExpiresAt m with None => false | Some t => negb (Before now t) end
         then "membership_expired"
    else if negb (String.eqb (rm_RegionStatus m) "active") then "membership_revoked"
    else "not_region_member"
  end.

Definition trustedTargetRoleAllowed (role : string) : bool :=
  String.eqb role "worker" || String.eqb role "combined".
Definition headRole (role : string) : bool := String.eqb role "head" || String.eqb role "combined".

Context (s : Service).

Definition observationFresh (obs : PeerObservation) : bool :=
  if s_ownershipMaxAge s <=? 0 then true
  else Sub (s_now s) (ob_ObservedAt obs) <=? s_ownershipMaxAge s.

Definition authorized (authz : string) : bool :=
  if negb (HasPrefix authz "Bearer ") then false
  else bool_decide (sha256 (bytes_of_string (text_of (drop 7 (chars_of authz)))) = s_internalDigest s).

(** [""] and [true] when the peer may serve the partition. *)
Definition evaluatePeerScoped (inst : InstanceInfo) (obs : PeerObservation)
    (partition region routeKind : string) : string * bool :=
  let m := in_Membership inst in
  if negb (observationFresh obs) then ("ownership_unavailable"%string, false)
  else if negb (String.eqb (ob_Wallet obs) (in_OwnerWallet inst)) then ("ownership_mismatch"%string, false)
  else if String.eqb partition "permissionless" then
    match m with
    | None => (""%string, true)
    | Some mm =>
      if membershipActive m (s_now s) && String.eqb region (rm_RegionSlug mm) &&
         (String.eqb routeKind "worker" || String.eqb routeKind "service_ingress" ||
          String.eqb routeKind "p2p_ingress")
      then ("trusted_route_required"%string, false)
      else (membershipReason m (s_now s), false)
    end
  else
    match m with
    | None => ("not_region_member"%string, false)
    | Some mm =>
      if negb (String.eqb (rm_RegionSlug mm) region) then ("not_region_member"%string, false)
      else if negb (membershipActive m (s_now s)) then (membershipReason m (s_now s), false)
      else (""%string, true)
    end.

Definition evaluateTrustedBinding (inst : InstanceInfo) (obs : PeerObservation) (region : string)
    : string * bool :=
  match in_Membership inst with
  | None => ("not_region_member"%string, false)
  | Some mm =>
    if negb (String.eqb (rm_RegionSlug mm) region) then ("not_region_member"%string, false)
    else if negb (observationFresh obs) then ("ownership_unavailable"%string, false)
    else if negb (String.eqb (ob_Wallet obs) (in_OwnerWallet inst)) then ("ownership_mismatch"%string, false)
    else if negb (membershipActive (in_Membership inst) (s_now s))
    then (membershipReason (in_Membership inst) (s_now s), false)
    else (""%string, true)
  end.

Definition trustedUpstreamAllowed (inst : InstanceInfo) (obs : PeerObservation) (region : string) : bool :=
  match in_Membership inst with
  | None => false
  | Some mm =>
    if negb (String.eqb (rm_RegionSlug mm) region) || negb (membershipActive (in_Membership inst) (s_now s))
    then false
    else if negb (headRole (rm_NodeRole mm)) then false
    else if IsZero (ob_ObservedAt obs) || negb (String.eqb (ob_Wallet obs) (in_OwnerWallet inst)) then false
    else true
  end.
(** ** Rules *)
Definition keyRule (key : ActiveKey) (r : ACLRule) : bool :=
  String.eqb (Kind r) "api_key" && negb (String.eqb (KeyPrefix key) "") &&
  String.eqb (KeyPrefix key) (Value r).

(** What a pass over the rules leaves: a match, or the error it stopped at. *)
Record passed := mkPassed { ps_matched : bool; ps_err : option err; ps_ctx : principalContext }.

Fixpoint walletPass (rules : list ACLRule) (p : principalContext) : passed :=
  match rules with
  | [] => mkPassed false None p
  | r :: rest =>
    if negb (String.eqb (Kind r) "wallet") then walletPass rest p
    else
      match walletSetValue p with
      | ((_, Some e), p) => mkPassed false (Some e) p
      | ((wallets, None), p) =>
        if bool_decide (Value r ∈ wallets) then mkPassed true None p else walletPass rest p
      end
  end.

Definition emailMatches (i : IdentityInfo) (r : ACLRule) : bool :=
  id_EmailVerified i && String.eqb (id_EmailDomain i) (Value r) && negb (IsZero (id_LastVerifiedAt i)) &&
  (Sub (s_now s) (id_LastVerifiedAt i) <=? s_identityMaxAge s).

Fixpoint emailPass (rules : list ACLRule) (p : principalContext) : passed :=
  match rules with
  | [] => mkPassed false None p
  | r :: rest =>
    if negb (String.eqb (Kind r) "email_domain") then emailPass rest p
    else
      match identityValue p with
      | ((_, Some e), p) => mkPassed false (Some e) p
      | ((i, None), p) => if emailMatches i r then mkPassed true None p else emailPass rest p
      end
  end.

(** The verdict of an ACL: a decision with its reason, or a failure with its status. *)
Definition verdict : Type := answer (bool * string).
Definition allow : verdict := Done (true, "instance_acl_allow"%string).
Definition no_match : verdict := Done (false, "no_match"%string).

Definition applyRules (p : principalContext) (rules : list ACLRule) : verdict * principalContext :=
  if existsb (keyRule (pc_key p)) rules then (allow, p)
  else
    let w := walletPass rules p in
    let e := if ps_matched w then mkPassed true None (ps_ctx w) else emailPass rules (ps_ctx w) in
    match (if ps_err e is Some x then Some x else ps_err w) with
    | Some _ => (Refuse 503 "service unavailable", ps_ctx e)
    | None => (if ps_matched e then allow else no_match, ps_ctx e)
    end.

Definition isOwner (p : principalContext) (owner : string) : bool :=
  match UserID (pc_key p) with Some u => String.eqb u owner | None => false end.

Definition restrictedACL (p : principalContext) (owner : string) (rules : list ACLRule)
    : verdict * principalContext :=
  if isOwner p owner then (allow, p) else applyRules p rules.

Definition applyInstanceACL (p : principalContext) (accessMode owner : string) (rules : list ACLRule)
    : verdict * principalContext :=
  if String.eqb accessMode "public" then (allow, p)
  else if String.eqb accessMode "restricted" then restrictedACL p owner rules
  else (no_match, p).

Definition applyServiceACL (p : principalContext) (inst : InstanceInfo) (svc : InstanceService)
    : verdict * principalContext :=
  let mode := is_AccessMode svc in
  if String.eqb mode AccessModeInherit
  then applyInstanceACL p (in_AccessMode inst) (in_AccountID inst) (in_Rules inst)
  else if String.eqb mode AccessModePublic then (allow, p)
  else if String.eqb mode AccessModeRestricted then restrictedACL p (in_AccountID inst) (is_Rules svc)
  else (no_match, p).

(** ** Decisions *)
Definition set_verdict (d : peerDecision) (allowed : bool) (reason : string) : peerDecision :=
  mkDecision (pd_PeerID d) allowed reason (pd_PolicyScope d) (pd_ServiceExposure d) (pd_PolicyRevision d)
    (pd_ServicePolicyRevision d) (pd_MembershipRevision d) (pd_EvaluatedAt d).
Definition set_membership (m : option RegionMembership) (d : peerDecision) : peerDecision :=
  match m with
  | None => d
  | Some mm => mkDecision (pd_PeerID d) (pd_Allowed d) (pd_Reason d) (pd_PolicyScope d)
      (pd_ServiceExposure d) (pd_PolicyRevision d) (pd_ServicePolicyRevision d)
      (rm_MembershipRevision mm) (pd_EvaluatedAt d)
  end.
Definition set_service (svc : InstanceService) (d : peerDecision) : peerDecision :=
  mkDecision (pd_PeerID d) (pd_Allowed d) (pd_Reason d) (pd_PolicyScope d) (is_Exposure svc)
    (pd_PolicyRevision d) (is_ServicePolicyRevision svc) (pd_MembershipRevision d) (pd_EvaluatedAt d).

Definition deny (d : peerDecision) (reason : string) : peerDecision := set_verdict d false reason.

(** The end of both evaluations: the ACL's verdict on the decision. *)
Definition conclude (m : option RegionMembership) (d : peerDecision) (v : verdict * principalContext)
    : peerDecision * principalContext :=
  match v with
  | (Refuse status _, p) =>
    (deny d (if status =? 401 then "unauthorized" else "service_unavailable"), p)
  | (Done (allowed, reason), p) => (set_membership m (set_verdict d allowed reason), p)
  end.

Definition target_role_ok (m : option RegionMembership) : bool :=
  match m with Some mm => trustedTargetRoleAllowed (rm_NodeRole mm) | None => false end.

Definition evaluatePeerScopedDecision (p : principalContext) (req : evaluateV2Request)
    (inst : InstanceInfo) (obs : PeerObservation) (d : peerDecision) (workerUpstreamAllowed : bool)
    : peerDecision * principalContext :=
  let m := in_Membership inst in
  let '(reason, ok) := evaluatePeerScoped inst obs (rq_Partition req) (rq_Region req) (rq_RouteKind req) in
  if negb ok then (set_membership m (deny d reason), p)
  else
    let trusted := String.eqb (rq_Partition req) "trusted_region" in
    if trusted && String.eqb (rq_RouteKind req) "worker" && negb workerUpstreamAllowed
    then (deny d "untrusted_upstream", p)
    else if trusted && negb (target_role_ok m) then (deny d "wrong_role", p)
    else conclude m d (applyInstanceACL p (in_AccessMode inst) (in_AccountID inst) (in_Rules inst)).

Definition evaluateServiceScopedDecision (p : principalContext) (req : evaluateV2Request)
    (inst : InstanceInfo) (obs : PeerObservation) (d : peerDecision) (workerUpstreamAllowed : bool)
    : peerDecision * principalContext :=
  let m := in_Membership inst in
  let found := findServicePolicy (in_Services inst) (rq_Service req) in
  if String.eqb (rq_Service req) "" then (deny d "service_context_required", p)
  else if countService obs (rq_Service req) >? 1 then (deny d "duplicate_service_name", p)
  else
    match found with
    | None => (deny d "service_undeclared", p)
    | Some svc =>
      let d := set_service svc d in
      let exposure := is_Exposure svc in
      let trusted := String.eqb exposure ExposureTrustedRegion in
      if String.eqb exposure ExposureDisabled then (deny d "service_disabled", p)
      else if String.eqb (rq_Partition req) "permissionless" && trusted
      then (deny d "trusted_route_required", p)
      else if String.eqb (rq_Partition req) "trusted_region" && String.eqb exposure ExposurePermissionless
      then (deny d "partition_mismatch", p)
      else
        let '(reason, ok) :=
          if trusted then evaluateTrustedBinding inst obs (rq_Region req) else (""%string, true) in
        if negb ok then (set_membership m (deny d reason), p)
        else if trusted && String.eqb (rq_RouteKind req) "worker" && negb workerUpstreamAllowed
        then (deny d "untrusted_upstream", p)
        else if trusted && negb (target_role_ok m) then (deny d "wrong_role", p)
        else conclude m d (applyServiceACL p inst svc)
    end.

(** ** Evaluation *)
Record evaluationState := mkState {
  es_key : ActiveKey; es_peers : gmap string InstanceInfo; es_obs : gmap string PeerObservation }.

Definition loadEvaluationState (keyHash : string) (peerIDs : list string) (claims : option Claims)
    : answer evaluationState :=
  match LookupActiveKey keyHash with
  | Err e => if errors_is e ErrStoreNotFound then Refuse 401 "unauthorized"
             else Refuse 503 "service unavailable"
  | Ok key =>
    let query := match claims with
      | Some c => if String.eqb (cl_Subject c) "" then peerIDs else peerIDs ++ [cl_Subject c]
      | None => peerIDs
      end in
    match ListManagedInstancesByPeerIDs (dedupePeers query) with
    | Err _ => Refuse 503 "service unavailable"
    | Ok managed =>
      let peers := fold_left (fun m i => <[in_PeerID i := i]> m) managed ∅ in
      if bool_decide (managed = []) then Done (mkState key peers ∅)
      else
        match s_mesh s (map in_PeerID managed) with
        | Err _ => Refuse 503 "service unavailable"
        | Ok obs => Done (mkState key peers obs)
        end
    end
  end.

Definition observed (st : evaluationState) (peer : string) : PeerObservation :=
  default zeroObservation (es_obs st !! peer).

Definition unavailable {A} : answer A := Refuse 503 "service unavailable".

(** The caller of a trusted evaluation. *)
Definition authorizeTrustedRequester (st : evaluationState) (req : evaluateV2Request)
    (claims : option Claims) : answer unit :=
  match claims with
  | None => Refuse 401 "unauthorized"
  | Some c =>
    match es_peers st !! cl_Subject c with
    | None => unavailable
    | Some subject =>
      match in_Membership subject with
      | None => unavailable
      | Some m =>
        let obs := observed st (cl_Subject c) in
        if negb (String.eqb (cl_Region c) (rq_Region req)) ||
           negb (String.eqb (rm_RegionSlug m) (rq_Region req)) ||
           negb (membershipActive (in_Membership subject) (s_now s)) then unavailable
        else if negb (rm_MembershipRevision m =? cl_MembershipRevision c) then unavailable
        else if negb (String.eqb (cl_Role c) (rm_NodeRole m)) then Refuse 403 "role mismatch"
        else if negb (observationFresh obs) ||
                negb (String.eqb (ob_Wallet obs) (in_OwnerWallet subject)) then unavailable
        else if String.eqb (rq_RouteKind req) "worker" then
          if negb (bool_decide (rq_PeerIDs req = [cl_Subject c])) then unavailable
          else if negb (trustedTargetRoleAllowed (cl_Role c)) then unavailable
          else Done tt
        else if negb (headRole (cl_Role c)) then unavailable
        else Done tt
      end
    end
  end.

Definition unmanaged (req : evaluateV2Request) (peer : string) : peerDecision :=
  mkDecision peer (String.eqb (rq_Partition req) "permissionless") "unmanaged" "" "" 0 0 0 (s_now s).

Definition decide_peer (st : evaluationState) (req : evaluateV2Request) (upstream : bool)
    (peer : string) (p : principalContext) : peerDecision * principalContext :=
  match es_peers st !! peer with
  | None => (unmanaged req peer, p)
  | Some inst =>
    let d := mkDecision peer false "" (in_PolicyScope inst) "" (in_PolicyRevision inst) 0 0 (s_now s) in
    let eval := if String.eqb (in_PolicyScope inst) PolicyScopeService
                then evaluateServiceScopedDecision else evaluatePeerScopedDecision in
    eval p req inst (observed st peer) d upstream
  end.

Fixpoint decide_peers (st : evaluationState) (req : evaluateV2Request) (upstream : bool)
    (peers : list string) (p : principalContext) : list peerDecision * principalContext :=
  match peers with
  | [] => ([], p)
  | peer :: rest =>
    let '(d, p) := decide_peer st req upstream peer p in
    let '(ds, p) := decide_peers st req upstream rest p in
    (d :: ds, p)
  end.

(** The revision of the first peer whose membership has one. *)
Definition regionRevision (st : evaluationState) (peers : list string) : Z :=
  fold_left (fun rev peer =>
    match es_peers st !! peer with
    | Some inst => match in_Membership inst with
                   | Some m => if rev =? 0 then rm_RegionRevision m else rev
                   | None => rev
                   end
    | None => rev
    end) peers 0.

Definition workerUpstream (st : evaluationState) (req : evaluateV2Request) : bool :=
  if String.eqb (rq_Partition req) "trusted_region" && String.eqb (rq_RouteKind req) "worker"
  then trustedUpstreamAllowed (default zeroInstance (es_peers st !! rq_UpstreamPeerID req))
         (observed st (rq_UpstreamPeerID req)) (rq_Region req)
  else true.

Definition evaluateV2 (req : evaluateV2Request) (claims : option Claims) : answer evaluateV2Response :=
  match loadEvaluationState (rq_KeyHash req) (rq_PeerIDs req) claims with
  | Refuse st t => Refuse st t
  | Done st =>
    match (if String.eqb (rq_Partition req) "trusted_region"
           then authorizeTrustedRequester st req claims else Done tt) with
    | Refuse status t => Refuse status t
    | Done _ =>
      let '(ds, p) := decide_peers st req (workerUpstream st req) (rq_PeerIDs req)
                        (newPrincipal (es_key st)) in
      Done (mkResp2 (pretty (KeyID (es_key st))) (primaryWalletValue p)
        (mkScope (rq_Partition req) (rq_Region req) (rq_RouteKind req) (rq_Service req)
           (regionRevision st (rq_PeerIDs req))) ds)
    end
  end.

(** The first version: one partition, one route, only peer-scoped instances. *)
Fixpoint evaluatePeers (st : evaluationState) (peers : list string) (p : principalContext)
    : answer (list string * list deniedPeer * principalContext) :=
  match peers with
  | [] => Done ([], [], p)
  | peer :: rest =>
    let allowed p := match evaluatePeers st rest p with
      | Done (al, dn, p) => Done (peer :: al, dn, p) | Refuse a b => Refuse a b end in
    let denied reason p := match evaluatePeers st rest p with
      | Done (al, dn, p) => Done (al, mkDenied peer reason :: dn, p) | Refuse a b => Refuse a b end in
    match es_peers st !! peer with
    | None => allowed p
    | Some inst =>
      if String.eqb (in_PolicyScope inst) PolicyScopeService then denied "service_context_required"%string p
      else
        let '(reason, ok) := evaluatePeerScoped inst (observed st peer) "permissionless" "" "service_ingress" in
        if negb ok then denied reason p
        else
          match applyInstanceACL p (in_AccessMode inst) (in_AccountID inst) (in_Rules inst) with
          | (Refuse a b, _) => Refuse a b
          | (Done (true, _), p) => allowed p
          | (Done (false, reason), p) => denied reason p
          end
    end
  end.

Definition evaluateV1 (keyHash : string) (peerIDs : list string) : answer evaluateResponse :=
  match loadEvaluationState keyHash peerIDs None with
  | Refuse st t => Refuse st t
  | Done st =>
    match evaluatePeers st peerIDs (newPrincipal (es_key st)) with
    | Refuse a b => Refuse a b
    | Done (al, dn, p) =>
      Done (mkResp1 (pretty (KeyID (es_key st))) al dn (primaryWalletValue p)
              (Z.quot (s_cacheTTL s) 1000000000))
    end
  end.

(** ** The handlers: [body] is what DecodeStrict read, [auth] the Authorization header *)
Definition validPeers (peerIDs : list string) : bool :=
  negb (bool_decide (peerIDs = [])) && (Z.of_nat (length peerIDs) <=? maxPeerBatch).

Definition HandlerV1 (method auth : string) (body : option evaluateRequest) : answer evaluateResponse :=
  if negb (String.eqb method "POST") then Refuse 405 "method not allowed"
  else if negb (authorized auth) then Refuse 401 "unauthorized"
  else
    match body with
    | None => Refuse 400 "invalid JSON body"
    | Some req =>
      if negb (validKeyHash (r1_KeyHash req)) then Refuse 400 "invalid key hash"
      else
        let peers := dedupePeers (r1_PeerIDs req) in
        if negb (validPeers peers) then Refuse 400 "invalid peer_ids"
        else evaluateV1 (r1_KeyHash req) peers
    end.

(** [allow] is the rate limiter, [None] when it is off. *)
Definition HandlerV2 (allow : option (string -> bool)) (method auth : string)
    (body : option evaluateV2Request) : answer evaluateV2Response :=
  if negb (String.eqb method "POST") then Refuse 405 "method not allowed"
  else
    match body with
    | None => Refuse 400 "invalid JSON body"
    | Some req =>
      let partition := ToLower (TrimSpace (rq_Partition req)) in
      let permissionless := String.eqb partition "permissionless" in
      let trusted := String.eqb partition "trusted_region" in
      let routeKind := ToLower (TrimSpace (rq_RouteKind req)) in
      if negb (validKeyHash (rq_KeyHash req)) then Refuse 400 "invalid key hash"
      else if negb (permissionless || trusted) then Refuse 400 "invalid partition"
      else if negb (String.eqb routeKind "service_ingress" || String.eqb routeKind "p2p_ingress" ||
                    String.eqb routeKind "worker") then Refuse 400 "invalid route_kind"
      else if negb (validServiceName (rq_Service req)) then Refuse 400 "invalid service"
      else if trusted && String.eqb (TrimSpace (rq_Region req)) "" then Refuse 400 "invalid region"
      else if String.eqb routeKind "worker" && String.eqb (TrimSpace (rq_UpstreamPeerID req)) ""
      then Refuse 400 "invalid upstream_peer_id"
      else if negb (validPeers (dedupePeers (rq_PeerIDs req))) then Refuse 400 "invalid peer_ids"
      else
        let req := mkReq2 (rq_KeyHash req) (rq_Partition req)
          (if permissionless then ""%string else rq_Region req) (rq_RouteKind req) (rq_Service req)
          (rq_PeerIDs req) (rq_UpstreamPeerID req) in
        let checked : answer (option Claims) :=
          if permissionless then
            if authorized auth then Done None else Refuse 401 "unauthorized"
          else
            match s_nodeVerifier s with
            | None => unavailable
            | Some verify =>
              match verify (TrimSpace (TrimPrefix "Bearer " auth)) with
              | Err _ => Refuse 401 "unauthorized"
              | Ok c => Done (Some c)
              end
            end in
        match checked with
        | Refuse a b => Refuse a b
        | Done claims =>
          let key := match claims with
            | Some c => if trusted then "peer:" +:+ cl_Subject c else rq_KeyHash req
            | None => rq_KeyHash req
            end in
          if match allow with Some f => negb (f key) | None => false end
          then Refuse 429 "rate limit exceeded"
          else evaluateV2 req claims
        end
    end.
End Aclapi.
