(* ===== verification/AclSpec.v ===== *)
(** * What the access decision guarantees

    The decision procedure of Acl.v against a declarative policy: who may be
    routed to whom, in which partition. *)
From Stdlib Require Import ZArith Lia Strings.Ascii Strings.String.
From stdpp Require Import base gmap strings list sorting pretty.
From S2P Require Import Prelude Sha256 Base58 GoText AclTypes Acl.

Open Scope Z_scope.

Section Spec.
Context `{ST : aclStore}.

(** ** The principal's cache is invisible *)
Record coherent (p : principalContext) : Prop := {
  co_identity : forall v, pc_identity p = Some v -> v = loadIdentity (pc_key p);
  co_wallets : forall v, pc_walletSet p = Some v -> v = loadWalletSet (pc_key p);
  co_primary : pc_primary p = None }.

Lemma coherent_new key : coherent (newPrincipal key).
Proof. by split. Qed.

(** [p'] is [p] with more loaded. *)
Definition loads (p p' : principalContext) : Prop := coherent p' /\ pc_key p' = pc_key p.

Lemma identityValue_eq p : coherent p ->
  exists p', identityValue p = (loadIdentity (pc_key p), p') /\ loads p p'.
Proof.
  intros Hc. destruct (Hc) as [Hi Hw Hp]. unfold identityValue. destruct (pc_identity p) as [v|] eqn:E.
  - exists p. rewrite (Hi v eq_refl). split; [done|by split].
  - eexists. split; [done|]. split; [|done]. split; simpl; [by intros ? [= <-]|done|done].
Qed.

Lemma walletSetValue_eq p : coherent p ->
  exists p', walletSetValue p = (loadWalletSet (pc_key p), p') /\ loads p p'.
Proof.
  intros Hc. destruct (Hc) as [Hi Hw Hp]. unfold walletSetValue. destruct (pc_walletSet p) as [v|] eqn:E.
  - exists p. rewrite (Hw v eq_refl). split; [done|by split].
  - eexists. split; [done|]. split; [|done]. split; simpl; [done|by intros ? [= <-]|done].
Qed.

Lemma primaryWalletValue_eq p : coherent p -> primaryWalletValue p = loadPrimary (pc_key p).
Proof. intros [_ _ Hp]. unfold primaryWalletValue. by rewrite Hp. Qed.

Lemma loads_trans p1 p2 p3 : loads p1 p2 -> loads p2 p3 -> loads p1 p3.
Proof. intros [_ H1] [? H2]. split; [done|congruence]. Qed.

Definition ofKind (k : string) (rules : list ACLRule) : list ACLRule :=
  filter (fun r => Kind r = k) rules.

Context (s : Service).

Definition matchesWallet (key : ActiveKey) (r : ACLRule) : bool :=
  bool_decide (Value r ∈ fst (loadWalletSet key)).
Definition matchesEmail (key : ActiveKey) (r : ACLRule) : bool :=
  emailMatches s (fst (loadIdentity key)) r.

(** What a pass over the rules of one kind finds: the error of the load it needs,
    or whether one of them matches. *)
Definition kind_result (load_err : option err) (f : ACLRule -> bool) (rules : list ACLRule)
    : bool * option err :=
  match rules, load_err with
  | [], _ => (false, None)
  | _, Some e => (false, Some e)
  | _, None => (existsb f rules, None)
  end.

Lemma walletPass_eq rules : forall p, coherent p -> exists p',
  walletPass rules p =
    (let r := kind_result (snd (loadWalletSet (pc_key p))) (matchesWallet (pc_key p)) (ofKind "wallet" rules)
     in mkPassed (fst r) (snd r) p') /\ loads p p'.
Proof.
  induction rules as [|r rules IH]; intros p Hp; cbn [walletPass].
  { exists p. by split. }
  unfold ofKind. rewrite filter_cons. destruct (String.eqb (Kind r) "wallet") eqn:E; zb; simpl.
  2:{ rewrite decide_False by done. by apply IH. }
  rewrite decide_True by done. destruct (walletSetValue_eq p Hp) as (p' & -> & Hl).
  unfold kind_result, matchesWallet. destruct (loadWalletSet (pc_key p)) as [ws [e|]] eqn:El; simpl.
  - by exists p'.
  - destruct (bool_decide (Value r ∈ ws)) eqn:Hin; simpl; [by exists p'|].
    destruct (IH p' (proj1 Hl)) as (p2 & -> & Hl2). exists p2.
    rewrite (proj2 Hl), El. split; [|by eapply loads_trans]. unfold ofKind, kind_result, matchesWallet.
    rewrite El. simpl. by destruct (filter _ rules).
Qed.

Lemma emailPass_eq rules : forall p, coherent p -> exists p',
  emailPass s rules p =
    (let r := kind_result (snd (loadIdentity (pc_key p))) (matchesEmail (pc_key p))
                (ofKind "email_domain" rules)
     in mkPassed (fst r) (snd r) p') /\ loads p p'.
Proof.
  induction rules as [|r rules IH]; intros p Hp; cbn [emailPass].
  { exists p. by split. }
  unfold ofKind. rewrite filter_cons. destruct (String.eqb (Kind r) "email_domain") eqn:E; zb; simpl.
  2:{ rewrite decide_False by done. by apply IH. }
  rewrite decide_True by done. destruct (identityValue_eq p Hp) as (p' & -> & Hl).
  unfold kind_result, matchesEmail. destruct (loadIdentity (pc_key p)) as [i [e|]] eqn:El; simpl.
  - by exists p'.
  - destruct (emailMatches s i r) eqn:Hin; simpl; [by exists p'|].
    destruct (IH p' (proj1 Hl)) as (p2 & -> & Hl2). exists p2.
    rewrite (proj2 Hl), El. split; [|by eapply loads_trans]. unfold ofKind, kind_result, matchesEmail.
    rewrite El. simpl. by destruct (filter _ rules).
Qed.

(** ** The verdict of a rule list, without the cache *)
Definition rules_verdict (key : ActiveKey) (rules : list ACLRule) : verdict :=
  let wallets := ofKind "wallet" rules in
  let emails := ofKind "email_domain" rules in
  if existsb (keyRule key) rules then allow
  else if negb (bool_decide (wallets = [])) && bool_decide (is_Some (snd (loadWalletSet key)))
  then Refuse 503 "service unavailable"
  else if existsb (matchesWallet key) wallets then allow
  else if negb (bool_decide (emails = [])) && bool_decide (is_Some (snd (loadIdentity key)))
  then Refuse 503 "service unavailable"
  else if existsb (matchesEmail key) emails then allow
  else no_match.

Lemma applyRules_eq p rules : coherent p ->
  fst (applyRules s p rules) = rules_verdict (pc_key p) rules /\ loads p (snd (applyRules s p rules)).
Proof.
  intros Hp. unfold applyRules, rules_verdict. destruct (existsb (keyRule (pc_key p)) rules); [by split|].
  destruct (walletPass_eq rules p Hp) as (p1 & -> & Hl1). simpl.
  destruct (emailPass_eq rules p1 (proj1 Hl1)) as (p2 & He & Hl2). rewrite (proj2 Hl1) in He.
  unfold kind_result in *. destruct (ofKind "wallet" rules) as [|w ws];
    destruct (loadWalletSet (pc_key p)) as [wset [ew|]] eqn:Ew; simpl.
  all: try rewrite He; destruct (ofKind "email_domain" rules) as [|m ms];
    destruct (loadIdentity (pc_key p)) as [i [ei|]] eqn:Ei; simpl;
    repeat match goal with |- context [if ?b then _ else _] => destruct b eqn:?; simpl end;
    try (split; [done|]); try done; try (by eapply loads_trans); try (by rewrite ?He; eapply loads_trans).
Qed.
(** ** ACL verdicts *)
Definition owner_or_rules (key : ActiveKey) (owner : string) (rules : list ACLRule) : verdict :=
  if match UserID key with Some u => String.eqb u owner | None => false end
  then allow else rules_verdict key rules.
Definition instance_verdict (key : ActiveKey) (inst : InstanceInfo) : verdict :=
  if String.eqb (in_AccessMode inst) "public" then allow
  else if String.eqb (in_AccessMode inst) "restricted"
  then owner_or_rules key (in_AccountID inst) (in_Rules inst) else no_match.
Definition service_verdict (key : ActiveKey) (inst : InstanceInfo) (svc : InstanceService) : verdict :=
  if String.eqb (is_AccessMode svc) AccessModeInherit then instance_verdict key inst
  else if String.eqb (is_AccessMode svc) AccessModePublic then allow
  else if String.eqb (is_AccessMode svc) AccessModeRestricted
  then owner_or_rules key (in_AccountID inst) (is_Rules svc) else no_match.

Definition granted (v : verdict) : bool := match v with Done (true, _) => true | _ => false end.

(** A cached evaluation that computes the verdict [v]. *)
Definition computes (p : principalContext) (r : verdict * principalContext) (v : verdict) : Prop :=
  fst r = v /\ loads p (snd r).

Lemma computes_here p v : coherent p -> computes p (v, p) v.
Proof. by split. Qed.
Hint Resolve computes_here : otela.

Lemma restrictedACL_eq p owner rules :
  coherent p -> computes p (restrictedACL s p owner rules) (owner_or_rules (pc_key p) owner rules).
Proof.
  intros Hp. unfold restrictedACL, owner_or_rules, isOwner.
  destruct (UserID (pc_key p)) as [u|]; [destruct (String.eqb u owner)|]; auto with otela;
    by apply applyRules_eq.
Qed.
Lemma applyInstanceACL_eq p inst :
  coherent p ->
  computes p (applyInstanceACL s p (in_AccessMode inst) (in_AccountID inst) (in_Rules inst))
    (instance_verdict (pc_key p) inst).
Proof.
  intros Hp. unfold applyInstanceACL, instance_verdict.
  destruct (String.eqb _ "public"); auto with otela.
  destruct (String.eqb _ "restricted"); auto using restrictedACL_eq with otela.
Qed.
Lemma applyServiceACL_eq p inst svc :
  coherent p -> computes p (applyServiceACL s p inst svc) (service_verdict (pc_key p) inst svc).
Proof.
  intros Hp. unfold applyServiceACL, service_verdict.
  destruct (String.eqb _ AccessModeInherit); [by apply applyInstanceACL_eq|].
  destruct (String.eqb _ AccessModePublic); auto with otela.
  destruct (String.eqb _ AccessModeRestricted); auto using restrictedACL_eq with otela.
Qed.

(** ** The policy *)

(** The peer was seen recently under its owner's wallet. *)
Definition owned (inst : InstanceInfo) (obs : PeerObservation) : Prop :=
  observationFresh s obs = true /\ ob_Wallet obs = in_OwnerWallet inst.

(** An active member of the region, at this instant. *)
Definition active_member (inst : InstanceInfo) (region : string) (m : RegionMembership) : Prop :=
  in_Membership inst = Some m /\ rm_RegionSlug m = region /\ rm_Status m = "active"%string /\
  rm_RegionStatus m = "active"%string /\
  (forall t, rm_ExpiresAt m = Some t -> s_now s < t).

(** A member that takes work in the region. *)
Definition target_member (inst : InstanceInfo) (region : string) : Prop :=
  exists m, active_member inst region m /\
    (rm_NodeRole m = "worker"%string \/ rm_NodeRole m = "combined"%string).

Inductive permits (key : ActiveKey) (req : evaluateV2Request) (inst : InstanceInfo)
    (obs : PeerObservation) (up : bool) : Prop :=
  | permits_peer :
      in_PolicyScope inst <> PolicyScopeService -> rq_Partition req = "permissionless"%string ->
      owned inst obs -> in_Membership inst = None ->
      granted (instance_verdict key inst) = true -> permits key req inst obs up
  | permits_region_peer :
      in_PolicyScope inst <> PolicyScopeService -> rq_Partition req = "trusted_region"%string ->
      owned inst obs -> target_member inst (rq_Region req) ->
      (rq_RouteKind req = "worker"%string -> up = true) ->
      granted (instance_verdict key inst) = true -> permits key req inst obs up
  | permits_service svc :
      in_PolicyScope inst = PolicyScopeService -> rq_Partition req = "permissionless"%string ->
      rq_Service req <> ""%string -> countService obs (rq_Service req) <= 1 ->
      findServicePolicy (in_Services inst) (rq_Service req) = Some svc ->
      is_Exposure svc = ExposurePermissionless ->
      granted (service_verdict key inst svc) = true -> permits key req inst obs up
  | permits_region_service svc :
      in_PolicyScope inst = PolicyScopeService -> rq_Partition req = "trusted_region"%string ->
      rq_Service req <> ""%string -> countService obs (rq_Service req) <= 1 ->
      findServicePolicy (in_Services inst) (rq_Service req) = Some svc ->
      is_Exposure svc = ExposureTrustedRegion ->
      owned inst obs -> target_member inst (rq_Region req) ->
      (rq_RouteKind req = "worker"%string -> up = true) ->
      granted (service_verdict key inst svc) = true -> permits key req inst obs up.

Lemma membershipActive_spec m :
  membershipActive (Some m) (s_now s) = true <->
  rm_Status m = "active"%string /\ rm_RegionStatus m = "active"%string /\
  (forall t, rm_ExpiresAt m = Some t -> s_now s < t).
Proof.
  unfold membershipActive, Before. rewrite !andb_true_iff, !String.eqb_eq.
  destruct (rm_ExpiresAt m) as [t|]; [rewrite Z.ltb_lt|]; naive_solver.
Qed.

Lemma active_member_spec inst region m :
  in_Membership inst = Some m ->
  (active_member inst region m <->
   String.eqb (rm_RegionSlug m) region = true /\ membershipActive (Some m) (s_now s) = true).
Proof.
  intros Hm. unfold active_member. rewrite membershipActive_spec, String.eqb_eq. naive_solver.
Qed.

Lemma target_role_spec m : trustedTargetRoleAllowed (rm_NodeRole m) = true <->
  rm_NodeRole m = "worker"%string \/ rm_NodeRole m = "combined"%string.
Proof. unfold trustedTargetRoleAllowed. by rewrite orb_true_iff, !String.eqb_eq. Qed.

Lemma owned_spec inst obs :
  owned inst obs <-> observationFresh s obs = true /\ String.eqb (ob_Wallet obs) (in_OwnerWallet inst) = true.
Proof. unfold owned. by rewrite String.eqb_eq. Qed.

Lemma target_member_spec inst region :
  target_member inst region <->
  match in_Membership inst with
  | Some m => String.eqb (rm_RegionSlug m) region = true /\
              membershipActive (Some m) (s_now s) = true /\ target_role_ok (Some m) = true
  | None => False
  end.
Proof.
  unfold target_member. destruct (in_Membership inst) as [m|] eqn:E.
  - pose proof (active_member_spec inst region m E) as Ha. pose proof (target_role_spec m) as Hr.
    simpl. split.
    + intros (m' & Hm' & ?). assert (m' = m) as -> by (destruct Hm' as [? _]; congruence). tauto.
    + intros (? & ? & ?). exists m. tauto.
  - split; [|done]. intros (m & (Hm & _) & _). congruence.
Qed.

Lemma conclude_allowed m d r v p :
  computes p r v -> pd_Allowed (fst (conclude m d r)) = granted v /\ loads p (snd (conclude m d r)).
Proof.
  destruct r as [rv p']. intros [<- Hl]. unfold conclude. simpl in *.
  destruct rv as [[[|] reason]|status t]; simpl; (split; [|done]); by destruct m.
Qed.
(** ** The decisions follow the policy *)
#[local] Arguments membershipActive : simpl never.
Lemma evaluatePeerScoped_open inst obs region kind :
  snd (evaluatePeerScoped s inst obs "permissionless" region kind) = true <->
  owned inst obs /\ in_Membership inst = None.
Proof.
  rewrite owned_spec. unfold evaluatePeerScoped. simpl.
  destruct (observationFresh s obs), (String.eqb (ob_Wallet obs) (in_OwnerWallet inst)),
    (in_Membership inst) as [m|]; simpl; try (split; [done|by intros [[? ?] ?]]); try (by split).
  destruct (_ && _); simpl; (split; [done|by intros [[? ?] ?]]).
Qed.

Lemma evaluatePeerScoped_region inst obs region kind :
  snd (evaluatePeerScoped s inst obs "trusted_region" region kind) = true <->
  owned inst obs /\
  match in_Membership inst with
  | Some m => String.eqb (rm_RegionSlug m) region = true /\ membershipActive (Some m) (s_now s) = true
  | None => False
  end.
Proof.
  rewrite owned_spec. unfold evaluatePeerScoped. simpl.
  destruct (observationFresh s obs), (String.eqb (ob_Wallet obs) (in_OwnerWallet inst)); simpl;
    try (split; [done|by intros [[? ?] ?]]).
  destruct (in_Membership inst) as [m|]; [|simpl; split; [done|by intros [_ ?]]].
  destruct (String.eqb (rm_RegionSlug m) region); simpl; [|split; [done|by intros [_ [? _]]]].
  destruct (membershipActive (Some m) (s_now s)); simpl; split; try done; by intros [_ [_ ?]].
Qed.

Lemma evaluateTrustedBinding_spec inst obs region :
  snd (evaluateTrustedBinding s inst obs region) = true <->
  owned inst obs /\
  match in_Membership inst with
  | Some m => String.eqb (rm_RegionSlug m) region = true /\ membershipActive (Some m) (s_now s) = true
  | None => False
  end.
Proof.
  rewrite owned_spec. unfold evaluateTrustedBinding.
  destruct (in_Membership inst) as [m|] eqn:E; [|simpl; split; [done|by intros [_ ?]]].
  destruct (String.eqb (rm_RegionSlug m) region); simpl; [|split; [done|by intros [_ [? _]]]].
  destruct (observationFresh s obs); simpl; [|split; [done|by intros [[? _] _]]].
  destruct (String.eqb (ob_Wallet obs) (in_OwnerWallet inst)); simpl; [|split; [done|by intros [[_ ?] _]]].
  destruct (membershipActive (Some m) (s_now s)); simpl; split; try done; by intros [_ [_ ?]].
Qed.

(** Splitting a pair-valued test. *)
Lemma let_snd {A B C} (x : A * B) (f : A -> B -> C) : (let '(a, b) := x in f a b) = f (fst x) (snd x).
Proof. by destruct x. Qed.

Lemma worker_gate req up :
  (String.eqb (rq_RouteKind req) "worker" && negb up)%bool = false <->
  (rq_RouteKind req = "worker"%string -> up = true).
Proof.
  rewrite andb_false_iff, negb_false_iff, String.eqb_neq.
  destruct (decide (rq_RouteKind req = "worker"%string)); tauto.
Qed.

Definition allowed_with (p : principalContext) (r : peerDecision * principalContext) (P : Prop) : Prop :=
  (pd_Allowed (fst r) = true <-> P) /\ loads p (snd r).

Lemma allowed_deny p d reason (P : Prop) : coherent p -> ~ P -> allowed_with p (deny d reason, p) P.
Proof. intros Hp HP. split; [simpl; split; [done|by intros ?%HP]|by split]. Qed.
Lemma allowed_deny_m p m d reason (P : Prop) :
  coherent p -> ~ P -> allowed_with p (set_membership m (deny d reason), p) P.
Proof. intros Hp HP. destruct m; (split; [simpl; split; [done|by intros ?%HP]|by split]). Qed.
Lemma allowed_conclude p m d r v (P : Prop) :
  computes p r v -> (granted v = true <-> P) -> allowed_with p (conclude m d r) P.
Proof.
  intros Hr HP. destruct (conclude_allowed m d r v p Hr) as [He Hl]. split; [by rewrite He|done].
Qed.

Lemma peerScopedDecision_permits p req inst obs d up :
  coherent p -> in_PolicyScope inst <> PolicyScopeService ->
  rq_Partition req = "permissionless"%string \/ rq_Partition req = "trusted_region"%string ->
  allowed_with p (evaluatePeerScopedDecision s p req inst obs d up) (permits (pc_key p) req inst obs up).
Proof.
  intros Hp Hscope Hpart. unfold evaluatePeerScopedDecision. rewrite let_snd.
  destruct Hpart as [Hpart|Hpart]; rewrite Hpart.
  - pose proof (evaluatePeerScoped_open inst obs (rq_Region req) (rq_RouteKind req)) as He.
    destruct (snd _); simpl.
    + destruct He as [[Ho Hm] _]; [done|]. eapply allowed_conclude; [by apply applyInstanceACL_eq|].
      split; [intros; by apply permits_peer|]. by intros [| | |]; congruence || done.
    + apply allowed_deny_m; [done|]. intros [? ? ? ?| | |]; try congruence. by destruct He as [_ He]; discriminate He.
  - pose proof (evaluatePeerScoped_region inst obs (rq_Region req) (rq_RouteKind req)) as He.
    pose proof (target_member_spec inst (rq_Region req)) as Ht.
    pose proof (worker_gate req up) as Hg.
    destruct (snd _); simpl.
    + destruct He as [[Ho Hm] _]; [done|]. destruct (_ && negb up); simpl.
      { apply allowed_deny; [done|]. intros [| | |]; try congruence. by destruct Hg as [_ Hg]; discriminate Hg. }
      destruct Hg as [Hg _]. specialize (Hg eq_refl).
      destruct (in_Membership inst) as [m|] eqn:Em; [|done]. simpl in *.
      destruct (trustedTargetRoleAllowed _); simpl.
      * eapply allowed_conclude; [by apply applyInstanceACL_eq|].
        split; [intros; apply permits_region_peer; auto; tauto|]. by intros [| | |]; congruence || done.
      * apply allowed_deny; [done|]. intros [|? ? ? Hm'| |]; try congruence. by apply Ht in Hm' as (_ & _ & ?).
    + apply allowed_deny_m; [done|]. intros [|? ? Ho Hm| |]; try congruence.
      destruct He as [_ He]. discriminate He. split; [done|]. apply Ht in Hm. destruct (in_Membership inst); tauto.
Qed.
(** The CHECK on instance_services.exposure. *)
Definition exposures_ok (inst : InstanceInfo) : Prop :=
  Forall (fun svc => is_Exposure svc = ExposurePermissionless \/ is_Exposure svc = ExposureTrustedRegion \/
                     is_Exposure svc = ExposureDisabled) (in_Services inst).

Lemma findServicePolicy_In services name svc :
  findServicePolicy services name = Some svc -> svc ∈ services.
Proof. unfold findServicePolicy. intros [H _]%find_some. by apply list_elem_of_In. Qed.

Ltac no_permit := let H := fresh in intros H; destruct H; simplify_eq;
  first [ congruence | lia
        | match goal with H1 : is_Exposure ?x = _, H2 : is_Exposure ?x = _ |- _ =>
            rewrite H1 in H2; discriminate end ].

Lemma serviceScopedDecision_permits p req inst obs d up :
  coherent p -> in_PolicyScope inst = PolicyScopeService -> exposures_ok inst ->
  rq_Partition req = "permissionless"%string \/ rq_Partition req = "trusted_region"%string ->
  allowed_with p (evaluateServiceScopedDecision s p req inst obs d up) (permits (pc_key p) req inst obs up).
Proof.
  intros Hp Hscope Hexp Hpart. unfold evaluateServiceScopedDecision.
  destruct (String.eqb (rq_Service req) "") eqn:Hsvc; zb; [apply allowed_deny; [done|no_permit]|].
  destruct (countService obs (rq_Service req) >? 1) eqn:Hc; zb; [apply allowed_deny; [done|no_permit]|].
  destruct (findServicePolicy _ _) as [svc|] eqn:Hf; [|apply allowed_deny; [done|no_permit]].
  pose proof (proj1 (Forall_forall _ _) Hexp svc (findServicePolicy_In _ _ _ Hf)) as He.
  destruct He as [He|[He|He]]; rewrite He; cbn [String.eqb Ascii.eqb Bool.eqb ExposureTrustedRegion
    ExposureDisabled ExposurePermissionless].
  3:{ apply allowed_deny; [done|no_permit]. }
  - destruct Hpart as [Hpart|Hpart]; rewrite Hpart; simpl.
    + eapply allowed_conclude; [by apply applyServiceACL_eq|].
      split; [intros; by eapply permits_service|]. intros Hq. destruct Hq; simplify_eq; congruence.
    + apply allowed_deny; [done|no_permit].
  - destruct Hpart as [Hpart|Hpart]; rewrite Hpart; simpl.
    { apply allowed_deny; [done|no_permit]. }
    rewrite let_snd.
    pose proof (evaluateTrustedBinding_spec inst obs (rq_Region req)) as Hb.
    pose proof (target_member_spec inst (rq_Region req)) as Ht. pose proof (worker_gate req up) as Hg.
    destruct (snd _); simpl.
    + destruct Hb as [[Ho Hm] _]; [done|]. destruct (_ && negb up); simpl.
      { apply allowed_deny; [done|]. intros Hq. destruct Hq; try congruence.
        by destruct Hg as [_ Hg]; discriminate Hg. }
      destruct Hg as [Hg _]. specialize (Hg eq_refl).
      destruct (in_Membership inst) as [m|] eqn:Em; [|done]. simpl in *.
      destruct (trustedTargetRoleAllowed _); simpl.
      * eapply allowed_conclude; [by apply applyServiceACL_eq|].
        split; [intros; eapply permits_region_service; eauto; tauto|].
        intros Hq. destruct Hq; simplify_eq; congruence.
      * apply allowed_deny; [done|]. intros Hq. destruct Hq as [| | |? ? ? ? ? ? ? ? Hm']; try congruence.
        by apply Ht in Hm' as (_ & _ & ?).
    + apply allowed_deny_m; [done|]. intros Hq. destruct Hq as [| | |? ? ? ? ? ? ? Ho Hm]; try congruence.
      destruct Hb as [_ Hb]. discriminate Hb. split; [done|]. apply Ht in Hm. destruct (in_Membership inst); tauto.
Qed.

(** What the policy says of one peer of a request. *)
Definition may_route (st : evaluationState) (req : evaluateV2Request) (up : bool) (peer : string) : Prop :=
  match es_peers st !! peer with
  | None => rq_Partition req = "permissionless"%string
  | Some inst => permits (es_key st) req inst (observed st peer) up
  end.

Definition partition_ok (req : evaluateV2Request) : Prop :=
  rq_Partition req = "permissionless"%string \/ rq_Partition req = "trusted_region"%string.
Definition peers_ok (st : evaluationState) : Prop := map_Forall (fun _ => exposures_ok) (es_peers st).

Lemma decide_peer_permits st req up peer p :
  coherent p -> pc_key p = es_key st -> partition_ok req -> peers_ok st ->
  allowed_with p (decide_peer s st req up peer p) (may_route st req up peer).
Proof.
  intros Hp Hk Hpart Hok. unfold decide_peer, may_route.
  destruct (es_peers st !! peer) as [inst|] eqn:Hi.
  - rewrite <- Hk. destruct (String.eqb (in_PolicyScope inst) PolicyScopeService) eqn:E; zb.
    + apply serviceScopedDecision_permits; [done|done|by eapply Hok|done].
    + by apply peerScopedDecision_permits.
  - split; [|by split]. simpl. by rewrite String.eqb_eq.
Qed.

Lemma conclude_peer m d r : pd_PeerID (fst (conclude m d r)) = pd_PeerID d.
Proof. destruct r as [[[]|] ?]; simpl; by destruct m. Qed.
Lemma set_membership_peer m d : pd_PeerID (set_membership m d) = pd_PeerID d.
Proof. by destruct m. Qed.

Lemma decide_peer_ID st req up peer p : pd_PeerID (fst (decide_peer s st req up peer p)) = peer.
Proof.
  unfold decide_peer. destruct (es_peers st !! peer) as [inst|]; [|done].
  destruct (String.eqb _ _).
  - unfold evaluateServiceScopedDecision.
    repeat (rewrite ?let_snd; match goal with
    | |- context [match ?x with _ => _ end] => destruct x
    end; simpl; rewrite ?conclude_peer, ?set_membership_peer; simpl; try done).
  - unfold evaluatePeerScopedDecision. rewrite let_snd.
    destruct (negb (snd _)); simpl; [by rewrite set_membership_peer|].
    destruct (_ && _ && _); [done|]. destruct (_ && _); [done|]. by rewrite conclude_peer.
Qed.

Lemma decide_peers_permits st req up peers : forall p,
  coherent p -> pc_key p = es_key st -> partition_ok req -> peers_ok st ->
  Forall2 (fun peer d => pd_PeerID d = peer /\ (pd_Allowed d = true <-> may_route st req up peer))
    peers (fst (decide_peers s st req up peers p)) /\
  loads p (snd (decide_peers s st req up peers p)).
Proof.
  induction peers as [|peer peers IH]; intros p Hp Hk Hpart Hok; simpl.
  { split; [constructor|by split]. }
  destruct (decide_peer_permits st req up peer p Hp Hk Hpart Hok) as [Ha Hl].
  pose proof (decide_peer_ID st req up peer p) as Hid.
  destruct (decide_peer s st req up peer p) as [d p']. simpl in *.
  destruct (IH p' (proj1 Hl)) as [HF Hl2]; [destruct Hl; congruence|done|done|].
  destruct (decide_peers s st req up peers p') as [ds p2]. simpl in *.
  split; [by constructor|by eapply loads_trans].
Qed.
(** ** The caller *)
Record requester_ok (st : evaluationState) (req : evaluateV2Request) (c : Claims) : Prop := {
  ro_member : exists subject m, es_peers st !! cl_Subject c = Some subject /\
    active_member subject (rq_Region req) m /\ rm_MembershipRevision m = cl_MembershipRevision c /\
    rm_NodeRole m = cl_Role c /\ owned subject (observed st (cl_Subject c));
  ro_region : cl_Region c = rq_Region req;
  ro_role : if String.eqb (rq_RouteKind req) "worker"
            then rq_PeerIDs req = [cl_Subject c] /\ trustedTargetRoleAllowed (cl_Role c) = true
            else headRole (cl_Role c) = true }.

Lemma authorizeTrustedRequester_ok st req claims u :
  authorizeTrustedRequester s st req claims = Done u ->
  exists c, claims = Some c /\ requester_ok st req c.
Proof.
  unfold authorizeTrustedRequester. destruct claims as [c|]; [|done].
  destruct (es_peers st !! cl_Subject c) as [subject|] eqn:Hs; [|done].
  destruct (in_Membership subject) as [m|] eqn:Hm; [|done]. cbv zeta.
  destruct (_ || _) eqn:E1; [done|]. zb. destruct (negb (_ =? _)) eqn:E2; [done|]. zb.
  destruct (negb (String.eqb (cl_Role c) _)) eqn:E3; [done|]. zb.
  destruct (_ || _) eqn:E4; [done|]. zb. intros Hrole.
  exists c. split; [done|]. split; [|done|].
  - exists subject, m. split; [done|]. split; [|done].
    apply active_member_spec; [done|]. rewrite String.eqb_eq. by split.
  - destruct (String.eqb (rq_RouteKind req) "worker").
    + destruct (negb (bool_decide _)) eqn:E5; [done|]. zb.
      destruct (negb (trustedTargetRoleAllowed _)) eqn:E6; [done|]. by zb.
    + destruct (negb (headRole _)) eqn:E5; [done|]. by zb.
Qed.

(** ** The two versions agree *)
Definition v1_request (req : evaluateRequest) : evaluateV2Request :=
  mkReq2 (r1_KeyHash req) "permissionless" "" "service_ingress" "" (r1_PeerIDs req) "".

(** The allowed peers of a list of decisions, and the denials. *)
Definition allowedIDs (ds : list peerDecision) : list string :=
  map pd_PeerID (filter (fun d => pd_Allowed d = true) ds).
Definition deniedIDs (ds : list peerDecision) : list deniedPeer :=
  map (fun d => mkDenied (pd_PeerID d) (pd_Reason d)) (filter (fun d => pd_Allowed d = false) ds).

Lemma split_allowed d ds :
  pd_Allowed d = true -> allowedIDs (d :: ds) = pd_PeerID d :: allowedIDs ds /\ deniedIDs (d :: ds) = deniedIDs ds.
Proof. intros Hd. unfold allowedIDs, deniedIDs. rewrite !filter_cons, Hd. by split. Qed.
Lemma split_denied d ds :
  pd_Allowed d = false ->
  allowedIDs (d :: ds) = allowedIDs ds /\
  deniedIDs (d :: ds) = mkDenied (pd_PeerID d) (pd_Reason d) :: deniedIDs ds.
Proof. intros Hd. unfold allowedIDs, deniedIDs. rewrite !filter_cons, Hd. by split. Qed.

Lemma set_membership_verdict m d :
  pd_Allowed (set_membership m d) = pd_Allowed d /\ pd_Reason (set_membership m d) = pd_Reason d.
Proof. by destruct m. Qed.

(** One peer: what version 1 does with it is what version 2 decides. *)
Lemma decide_peer_v1 st req peer rest p al dn p2 :
  evaluatePeers s st (peer :: rest) p = Done (al, dn, p2) ->
  exists d p1, decide_peer s st (v1_request req) true peer p = (d, p1) /\ pd_PeerID d = peer /\
    exists al' dn', evaluatePeers s st rest p1 = Done (al', dn', p2) /\
      if pd_Allowed d then al = peer :: al' /\ dn = dn'
      else al = al' /\ dn = mkDenied peer (pd_Reason d) :: dn'.
Proof.
  intros H. pose proof (decide_peer_ID st (v1_request req) true peer p) as Hid.
  destruct (decide_peer s st (v1_request req) true peer p) as [d p1] eqn:Ed.
  exists d, p1. split; [done|]. split; [done|]. simpl in Hid. revert H Ed.
  cbn [evaluatePeers]. unfold decide_peer. destruct (es_peers st !! peer) as [inst|].
  2:{ destruct (evaluatePeers s st rest p) as [[[al' dn'] p']|] eqn:E; [|done].
      intros [= <- <- <-] [= <- <-]. simpl. eauto. }
  destruct (String.eqb (in_PolicyScope inst) PolicyScopeService).
  { destruct (evaluatePeers s st rest p) as [[[al' dn'] p']|] eqn:E; [|done].
    intros [= <- <- <-] [= <- <-]. simpl. eauto. }
  unfold evaluatePeerScopedDecision. simpl. destruct (evaluatePeerScoped _ _ _ _ _ _) as [reason [|]]; simpl.
  2:{ destruct (evaluatePeers s st rest p) as [[[al' dn'] p']|] eqn:E; [|done].
      intros [= <- <- <-] [= <- <-]. destruct (set_membership_verdict (in_Membership inst)
        (deny (mkDecision peer false "" (in_PolicyScope inst) "" (in_PolicyRevision inst) 0 0 (s_now s)) reason))
        as [-> ->]. simpl. eauto. }
  destruct (applyInstanceACL _ _ _ _ _) as [[[[|] r]|] p']; [| |done];
    (destruct (evaluatePeers s st rest p') as [[[al' dn'] p'']|] eqn:E; [|done]);
    intros [= <- <- <-]; simpl; intros [= <- <-];
    match goal with |- context [set_membership ?m ?x] =>
      destruct (set_membership_verdict m x) as [-> ->] end; simpl; eauto.
Qed.

Lemma decide_peers_v1 st req peers : forall p al dn p2,
  evaluatePeers s st peers p = Done (al, dn, p2) ->
  exists ds, decide_peers s st (v1_request req) true peers p = (ds, p2) /\
    al = allowedIDs ds /\ dn = deniedIDs ds.
Proof.
  induction peers as [|peer peers IH]; intros p al dn p2 H.
  { injection H as <- <- <-. by exists []. }
  apply (decide_peer_v1 st req) in H as (d & p1 & Hd & Hid & al' & dn' & Hrest & Hsplit).
  destruct (IH _ _ _ _ Hrest) as (ds & Hds & -> & ->). exists (d :: ds). simpl. rewrite Hd, Hds.
  split; [done|]. destruct (pd_Allowed d) eqn:E.
  - destruct (split_allowed d ds E) as [-> ->]. rewrite Hid. destruct Hsplit as [-> ->]. done.
  - destruct (split_denied d ds E) as [-> ->]. rewrite Hid. destruct Hsplit as [-> ->]. done.
Qed.

(** version 1 is version 2 on the permissionless service-ingress route: whenever
    it answers, version 2 answers the same request with the same key and primary
    wallet, its allowed peers are the ones version 1 allows and its denials, with
    their reasons, are the ones version 1 reports, in the same order. *)
Theorem evaluateV1_is_V2 req resp :
  evaluateV1 s (r1_KeyHash req) (r1_PeerIDs req) = Done resp ->
  exists resp2, evaluateV2 s (v1_request req) None = Done resp2 /\
    e1_KeyID resp = e2_KeyID resp2 /\ e1_PrimaryWallet resp = e2_PrimaryWallet resp2 /\
    e1_AllowedPeerIDs resp = allowedIDs (e2_Decisions resp2) /\
    e1_Denied resp = deniedIDs (e2_Decisions resp2).
Proof.
  unfold evaluateV1, evaluateV2. simpl. destruct (loadEvaluationState _ _ _ _) as [st|]; [|done].
  destruct (evaluatePeers _ _ _ _) as [[[al dn] p]|] eqn:E; [|done]. intros [= <-].
  destruct (decide_peers_v1 st req _ _ _ _ _ E) as (ds & Hds & -> & ->).
  unfold workerUpstream. simpl. rewrite Hds. eexists. split; [done|]. done.
Qed.

(** The CHECK constraint, of every row the store returns. *)
Context (store_exposures : forall ids l, ListManagedInstancesByPeerIDs ids = Ok l -> Forall exposures_ok l).

Lemma loaded_peers_ok keyHash ids claims st :
  loadEvaluationState s keyHash ids claims = Done st -> peers_ok st.
Proof using store_exposures.
  unfold loadEvaluationState. destruct (LookupActiveKey keyHash) as [key|e]; [|by destruct (errors_is _ _)].
  destruct (ListManagedInstancesByPeerIDs _) as [l|] eqn:El; [|done]. apply store_exposures in El.
  assert (Hgen : forall m0 : gmap string InstanceInfo, map_Forall (fun _ => exposures_ok) m0 ->
    map_Forall (fun _ => exposures_ok) (fold_left (fun m i => <[in_PeerID i := i]> m) l m0)).
  { clear st. induction El as [|i l Hi El IH]; intros m0 Hm; simpl; [done|].
    apply IH. by apply map_Forall_insert_2. }
  specialize (Hgen ∅ (map_Forall_empty _)).
  destruct (bool_decide _); [by intros [= <-]|]. destruct (s_mesh s _); [|done]. by intros [= <-].
Qed.

Lemma decide_peers_IDs st req up peers : forall p, map pd_PeerID (fst (decide_peers s st req up peers p)) = peers.
Proof.
  induction peers as [|peer peers IH]; intros p; simpl; [done|].
  pose proof (decide_peer_ID st req up peer p) as Hid. destruct (decide_peer s st req up peer p) as [d p1].
  specialize (IH p1). destruct (decide_peers s st req up peers p1) as [ds p2]. simpl in *. congruence.
Qed.

Lemma evaluateV2_policy req claims resp :
  evaluateV2 s req claims = Done resp ->
  exists st, loadEvaluationState s (rq_KeyHash req) (rq_PeerIDs req) claims = Done st /\
    map pd_PeerID (e2_Decisions resp) = rq_PeerIDs req /\
    (partition_ok req ->
     Forall2 (fun peer d => pd_PeerID d = peer /\
               (pd_Allowed d = true <-> may_route st req (workerUpstream s st req) peer))
      (rq_PeerIDs req) (e2_Decisions resp)) /\
    (rq_Partition req = "trusted_region"%string -> exists c, claims = Some c /\ requester_ok st req c).
Proof using store_exposures.
  unfold evaluateV2. destruct (loadEvaluationState _ _ _ _) as [st|] eqn:El; [|done]. intros Hr.
  exists st. split; [done|]. destruct (if String.eqb _ _ then _ else _) as [u|] eqn:Ea; [|done].
  pose proof (fun Hpart => proj1 (decide_peers_permits st req (workerUpstream s st req) (rq_PeerIDs req)
    (newPrincipal (es_key st)) (coherent_new _) eq_refl Hpart (loaded_peers_ok _ _ _ _ El))) as HF.
  pose proof (decide_peers_IDs st req (workerUpstream s st req) (rq_PeerIDs req) (newPrincipal (es_key st))) as Hids.
  destruct (decide_peers _ _ _ _ _ _) as [ds p]. injection Hr as <-. split; [done|]. split; [done|].
  intros Ht. rewrite Ht in Ea. simpl in Ea. by eapply authorizeTrustedRequester_ok.
Qed.

(** The request as the evaluator sees it. *)
Definition normalized (req : evaluateV2Request) : evaluateV2Request :=
  mkReq2 (rq_KeyHash req) (rq_Partition req)
    (if String.eqb (ToLower (TrimSpace (rq_Partition req))) "permissionless" then ""%string else rq_Region req)
    (rq_RouteKind req) (rq_Service req) (rq_PeerIDs req) (rq_UpstreamPeerID req).

(** C27: who the v2 endpoint answers, and what.  Whenever the handler answers, whatever
    the request: every peer asked about gets one decision, in order, and the caller
    presented the control token, for a partition that is [permissionless] up to case and
    blanks, or a node credential that the verifier accepts, for one that is so
    [trusted_region].  When the request spells its partition exactly so, the decisions
    are the access policy: a peer is allowed if and only if it is unmanaged and the
    partition permissionless, or owned, exposed to the partition, an active worker of
    the region where one is needed, and granted by the access rules to the key; and the
    credential's subject is, in the database and in the mesh, an active member of the
    region with that role and revision and may ask for this kind of route.  For another
    spelling neither holds ([partition_case_bypass]). *)
Theorem HandlerV2_policy limiter method auth req resp :
  HandlerV2 s limiter method auth (Some req) = Done resp ->
  let req' := normalized req in
  exists claims st,
    loadEvaluationState s (rq_KeyHash req) (rq_PeerIDs req) claims = Done st /\
    map pd_PeerID (e2_Decisions resp) = rq_PeerIDs req /\
    match claims with
    | None => ToLower (TrimSpace (rq_Partition req)) = "permissionless"%string /\ authorized s auth = true
    | Some c => ToLower (TrimSpace (rq_Partition req)) = "trusted_region"%string /\
        exists verify, s_nodeVerifier s = Some verify /\
          verify (TrimSpace (TrimPrefix "Bearer " auth)) = Ok c
    end /\
    (partition_ok req ->
     Forall2 (fun peer d => pd_PeerID d = peer /\
               (pd_Allowed d = true <-> may_route st req' (workerUpstream s st req') peer))
       (rq_PeerIDs req) (e2_Decisions resp) /\
     forall c, claims = Some c -> requester_ok st req' c).
Proof using store_exposures.
  intros HH. cbv zeta. unfold HandlerV2 in HH. destruct (negb (String.eqb method "POST")); [done|].
  destruct (negb (validKeyHash _)); [done|]. destruct (negb (_ || _)) eqn:Hparts; [done|].
  destruct (negb (_ || _ || _)); [done|].
  destruct (negb (validServiceName _)); [done|]. destruct (_ && _); [done|]. destruct (_ && _); [done|].
  destruct (negb (validPeers _)); [done|]. fold (normalized req) in HH.
  destruct (String.eqb (ToLower (TrimSpace (rq_Partition req))) "permissionless") eqn:Hn.
  - destruct (authorized s auth) eqn:Ha; [|done]. destruct (match limiter with Some f => negb (f _) | None => false end); [done|].
    destruct (evaluateV2_policy _ _ _ HH) as (st & Hl & Hids & HF & _). apply String.eqb_eq in Hn.
    exists None, st. split; [done|]. split; [done|]. split; [done|]. intros Hpart. split; [by apply HF|done].
  - simpl in Hparts. apply negb_false_iff, String.eqb_eq in Hparts.
    destruct (s_nodeVerifier s) as [verify|]; [|done]. destruct (verify _) as [c|] eqn:Hv; [|done].
    destruct (match limiter with Some f => negb (f _) | None => false end); [done|].
    destruct (evaluateV2_policy _ _ _ HH) as (st & Hl & Hids & HF & Hc).
    exists (Some c), st. split; [done|]. split; [done|]. split; [eauto|]. intros Hpart. split; [by apply HF|].
    intros c' [= <-]. destruct Hpart as [Hp|Hp]; [exfalso; rewrite Hp in Hn; vm_compute in Hn; done|].
    by destruct (Hc Hp) as (c' & [= <-] & Hro).
Qed.
(** ** The worker route *)

(** The store returns instances of the peers it was asked for. *)
Context (store_asked : forall ids l,
  ListManagedInstancesByPeerIDs ids = Ok l -> Forall (fun i => in_PeerID i ∈ ids) l).

Lemma dedupePeers_In ids x : x ∈ dedupePeers ids -> exists p, p ∈ ids /\ x = TrimSpace p.
Proof.
  unfold dedupePeers. rewrite (merge_sort_Permutation string_le).
  assert (Hgen : forall out, x ∈ fold_left dedupeStep ids out -> x ∈ out \/ exists p, p ∈ ids /\ x = TrimSpace p).
  { induction ids as [|p ids IH]; intros out Hx; simpl in *; [by left|].
    apply IH in Hx as [Hx|(q & Hq & ->)]; [|right; exists q; split; [by right|done]].
    unfold dedupeStep in Hx. destruct (_ || _); [by left|].
    apply elem_of_app in Hx as [?|Hx]; [by left|]. apply list_elem_of_singleton in Hx.
    right. exists p. split; [left|done]. }
  intros Hx. apply Hgen in Hx as [Hx|?]; [by apply elem_of_nil in Hx|done].
Qed.

Lemma loaded_asked keyHash ids claims st peer :
  loadEvaluationState s keyHash ids claims = Done st -> is_Some (es_peers st !! peer) ->
  exists p, (p ∈ ids \/ exists c, claims = Some c /\ p = cl_Subject c) /\ peer = TrimSpace p.
Proof using store_asked.
  unfold loadEvaluationState. destruct (LookupActiveKey keyHash) as [key|e]; [|by destruct (errors_is _ _)].
  cbv zeta. set (query := match claims with Some c => _ | None => _ end).
  destruct (ListManagedInstancesByPeerIDs _) as [l|] eqn:El; [|done]. apply store_asked in El.
  assert (Hgen : forall m0 : gmap string InstanceInfo,
    is_Some (fold_left (fun m i => <[in_PeerID i := i]> m) l m0 !! peer) ->
    is_Some (m0 !! peer) \/ peer ∈ dedupePeers query).
  { clear st. induction El as [|i l Hi El IH]; intros m0 Hm; simpl in *; [by left|].
    apply IH in Hm as [Hm|?]; [|by right]. destruct (decide (in_PeerID i = peer)) as [<-|Hne].
    - by right.
    - rewrite lookup_insert_ne in Hm by done. by left. }
  intros Hst Hsome. assert (Hpeers : es_peers st = fold_left (fun m i => <[in_PeerID i := i]> m) l ∅).
  { destruct (bool_decide _); [by injection Hst as <-|]. destruct (s_mesh s _); [|done]. by injection Hst as <-. }
  rewrite Hpeers in Hsome. apply Hgen in Hsome as [Hn|Hin]; [by destruct Hn|].
  apply dedupePeers_In in Hin as (p & Hp & ->). exists p. split; [|done].
  unfold query in Hp. destruct claims as [c|]; [|by left].
  destruct (String.eqb (cl_Subject c) ""); [by left|].
  apply elem_of_app in Hp as [?|Hp]; [by left|]. apply list_elem_of_singleton in Hp as ->.
  right. eauto.
Qed.

(** the worker route of a trusted region is closed: for every request of that
    kind the v2 evaluator answers, with any upstream other than the worker itself,
    every decision is a denial, even when the upstream is an active head of the
    region, because the upstream's record is never loaded (only the peers asked
    about and the caller are). *)
Theorem worker_route_denied req claims resp :
  evaluateV2 s req claims = Done resp ->
  rq_Partition req = "trusted_region"%string -> rq_RouteKind req = "worker"%string ->
  (forall c, claims = Some c -> rq_UpstreamPeerID req <> cl_Subject c) ->
  Forall (fun d => pd_Allowed d = false) (e2_Decisions resp).
Proof using store_exposures store_asked.
  intros He Hpart Hkind Hup.
  destruct (evaluateV2_policy req claims resp He) as (st & Hl & _ & HF & Hc). specialize (HF (or_intror Hpart)).
  destruct (Hc Hpart) as (c & -> & [(subject & m & Hsub & _) _ Hrole]).
  rewrite Hkind in Hrole. simpl in Hrole. destruct Hrole as [Hids _].
  assert (Honly : forall peer, is_Some (es_peers st !! peer) -> peer = TrimSpace (cl_Subject c)).
  { intros peer Hp. destruct (loaded_asked _ _ _ _ _ Hl Hp) as (p & Hin & ->).
    destruct Hin as [Hin|(c' & [= <-] & ->)]; [|done].
    rewrite Hids in Hin. by apply list_elem_of_singleton in Hin as ->. }
  assert (Htrim : cl_Subject c = TrimSpace (cl_Subject c)) by (apply Honly; by rewrite Hsub).
  assert (Hnone : es_peers st !! rq_UpstreamPeerID req = None).
  { destruct (es_peers st !! rq_UpstreamPeerID req) eqn:E; [|done]. exfalso.
    apply (Hup c eq_refl). rewrite (Honly (rq_UpstreamPeerID req)); [done|by rewrite E]. }
  assert (Hw : workerUpstream s st req = false).
  { unfold workerUpstream. rewrite Hpart, Hkind, Hnone. done. }
  rewrite Hw in HF. clear -HF Hpart Hkind. induction HF as [|peer d peers ds [_ Ha] HF IH]; [done|].
  constructor; [|done]. destruct (pd_Allowed d) eqn:E; [|done]. exfalso.
  destruct Ha as [Ha _]. specialize (Ha eq_refl). unfold may_route in Ha.
  destruct (es_peers st !! peer); [|congruence].
  destruct Ha as [| ? ? ? ? Hgate | | ? ? ? ? ? ? ? ? ? Hgate]; try congruence; by discriminate (Hgate Hkind).
Qed.
End Spec.

(** ** A concrete deployment: a head and a worker of region [r], and a head whose
    membership was revoked after it got its credential. *)
Definition demo_member (role status : string) : RegionMembership :=
  mkMembership 1 "" "" 1 "r" "active" 5 role status None None None None 3 0 zeroTime zeroTime.
Definition demo_instance (peer role status : string) : InstanceInfo :=
  mkInstance 1 "owner" peer "" "wallet" "public" "peer" 4 "verified" None None zeroTime zeroTime []
    (Some (demo_member role status)) [].
Definition demo_managed : list InstanceInfo :=
  [demo_instance "head" "head" "active"; demo_instance "worker" "worker" "active";
   demo_instance "gone" "head" "revoked"].
Definition demo_store : aclStore := {|
  LookupActiveKey _ := Ok (mkActiveKey 7 None "" "sk");
  ListManagedInstancesByPeerIDs ids := Ok (filter (fun i => in_PeerID i ∈ ids) demo_managed);
  GetIdentity _ := Err ErrStoreNotFound;
  GetUserWalletSet _ := Ok [];
  ListWalletsByUser _ := Ok [] |}.
Definition demo_mesh (ids : list string) : res (gmap string PeerObservation) :=
  Ok (list_to_map (map (fun p => (p, mkObservation p "wallet" 1000 true [] ∅)) ids)).
(** The credential of each head is its peer id. *)
Definition demo_verify (token : string) : res Claims :=
  Ok (mkClaims token "" "head" "r" 3 "" 0 0).
Definition demo_service : @Service demo_store :=
  @mkACLService demo_store demo_mesh [] (Some demo_verify) 0 0 0 2000.
Definition demo_hash : string := "00000000000000000000000000000000000000000000000000000000000000ff".
Definition demo_request (partition kind : string) (peers : list string) : evaluateV2Request :=
  mkReq2 demo_hash partition "r" kind "llm" peers "head".
Definition verdicts (r : answer evaluateV2Response) : answer (list bool) :=
  match r with Done resp => Done (map pd_Allowed (e2_Decisions resp)) | Refuse st t => Refuse st t end.

Lemma demo_exposures ids l :
  @ListManagedInstancesByPeerIDs demo_store ids = Ok l -> Forall exposures_ok l.
Proof.
  intros [= <-]. apply Forall_forall. intros i Hi. apply list_elem_of_filter in Hi as [_ Hi].
  assert (Hs : in_Services i = []) by (repeat (apply elem_of_cons in Hi as [->|Hi]; [done|]); by apply elem_of_nil in Hi).
  unfold exposures_ok. rewrite Hs. constructor.
Qed.
Lemma demo_asked ids l :
  @ListManagedInstancesByPeerIDs demo_store ids = Ok l -> Forall (fun i => in_PeerID i ∈ ids) l.
Proof. intros [= <-]. apply Forall_forall. intros i Hi. by apply list_elem_of_filter in Hi as [? _]. Qed.

Definition demo_answer (partition kind auth : string) (peers : list string) : answer evaluateV2Response :=
  @HandlerV2 demo_store demo_service None "POST" auth (Some (demo_request partition kind peers)).
Definition demo_decision (peer : string) (ok : bool) (reason : string) (m : Z) : peerDecision :=
  mkDecision peer ok reason "peer" "" 4 0 m 2000.

Lemma HandlerV2_policy_witness :
  exists resp claims st,
    demo_answer "trusted_region" "service_ingress" "Bearer head" ["worker"; "gone"] = Done resp /\
    @loadEvaluationState demo_store demo_service demo_hash ["worker"; "gone"] claims = Done st /\
    is_Some claims.
Proof.
  set (resp := mkResp2 "7" "" (mkScope "trusted_region" "r" "service_ingress" "llm" 5)
    [demo_decision "worker" true "instance_acl_allow" 3; demo_decision "gone" false "membership_revoked" 3]).
  exists resp.
  assert (H : demo_answer "trusted_region" "service_ingress" "Bearer head" ["worker"; "gone"] = Done resp)
    by (vm_compute; reflexivity).
  destruct (@HandlerV2_policy demo_store demo_service demo_exposures _ _ _ _ _ H)
    as (claims & st & Hl & _ & Hc & _).
  exists claims, st. split; [exact H|]. split; [exact Hl|].
  destruct claims as [c|]; [by exists c|]. destruct Hc as [Hc _]. discriminate Hc.
Defined.

(** A worker asking for the way to itself through the active head is refused. *)
Definition demo_worker_service : @Service demo_store :=
  @mkACLService demo_store demo_mesh [] (Some (fun token => Ok (mkClaims token "" "worker" "r" 3 "" 0 0)))
    0 0 0 2000.

Lemma worker_route_denied_witness :
  exists resp,
    evaluateV2 demo_worker_service (demo_request "trusted_region" "worker" ["worker"])
      (Some (mkClaims "worker" "" "worker" "r" 3 "" 0 0)) = Done resp /\
    @trustedUpstreamAllowed demo_store demo_worker_service (demo_instance "head" "head" "active")
      (mkObservation "head" "wallet" 1000 true [] ∅) "r" = true /\
    Forall (fun d => pd_Allowed d = false) (e2_Decisions resp).
Proof.
  set (resp := mkResp2 "7" "" (mkScope "trusted_region" "r" "worker" "llm" 5)
    [demo_decision "worker" false "untrusted_upstream" 0]).
  exists resp.
  assert (H : evaluateV2 demo_worker_service (demo_request "trusted_region" "worker" ["worker"])
    (Some (mkClaims "worker" "" "worker" "r" 3 "" 0 0)) = Done resp) by (vm_compute; reflexivity).
  split; [exact H|]. split; [vm_compute; reflexivity|].
  apply (@worker_route_denied demo_store demo_worker_service demo_exposures demo_asked _ _ _ H eq_refl eq_refl).
  intros c [= <-]. discriminate.
Defined.

(** the spelling of the partition decides whether the caller is checked: the
    handler accepts any case of [trusted_region], the evaluator compares the text it
    was given. The head whose membership was revoked, holding its old credential,
    is refused for [trusted_region] and gets the worker for [Trusted_Region]. *)
Theorem partition_case_bypass :
  verdicts (demo_answer "trusted_region" "service_ingress" "Bearer gone" ["worker"]) =
    Refuse 503 "service unavailable" /\
  verdicts (demo_answer "Trusted_Region" "service_ingress" "Bearer gone" ["worker"]) = Done [true].
Proof. split; vm_compute; reflexivity. Qed.

Lemma evaluateV1_is_V2_witness :
  exists resp, @evaluateV1 demo_store demo_service demo_hash ["else"; "worker"] = Done resp /\
    exists resp2,
      @evaluateV2 demo_store demo_service (v1_request (mkReq1 demo_hash ["else"; "worker"])) None = Done resp2 /\
      e1_AllowedPeerIDs resp = allowedIDs (e2_Decisions resp2) /\ e1_AllowedPeerIDs resp = ["else"].
Proof.
  set (resp := mkResp1 "7" ["else"] [mkDenied "worker" "not_region_member"] "" 0). exists resp.
  assert (H : @evaluateV1 demo_store demo_service demo_hash ["else"; "worker"] = Done resp)
    by (vm_compute; reflexivity).
  split; [exact H|].
  destruct (@evaluateV1_is_V2 demo_store demo_service (mkReq1 demo_hash ["else"; "worker"]) resp H)
    as (resp2 & ? & _ & _ & ? & _).
  exists resp2. split; [assumption|]. split; [assumption|reflexivity].
Defined.
