(* ===== verification/Solana.v ===== *)
(** * internal/solana: program-derived addresses and the wire format

    [pda.go] (the bump search over SHA-256 digests off the ed25519 curve),
    [tx.go] (messages and transactions) and the address helpers of [solana.go],
    executable; [math/big]'s integers are [Z]. *)
From Stdlib Require Import ZArith Lia Strings.Ascii Strings.Byte.
From stdpp Require Import base list strings.
From S2P Require Import Prelude Sha256 Base58.

Open Scope Z_scope.
Open Scope go_scope.

Definition PublicKeyBytes : Z := 32.
Definition SignatureBytes : Z := 64.

(** ** math/big *)

(** [z.Exp(x, e, m)]. *)
Fixpoint powmod_pos (x : Z) (e : positive) (m : Z) : Z :=
  match e with
  | xH => x mod m
  | xO e' => let y := powmod_pos x e' m in (y * y) mod m
  | xI e' => let y := powmod_pos x e' m in (((y * y) mod m) * x) mod m
  end.
Definition powmod (x e m : Z) : Z :=
  match e with Zpos p => powmod_pos x p m | _ => 1 mod m end.

(** [z.ModInverse(g, n)], which leaves [z] unchanged when there is no inverse;
    [egcd] keeps (r, s) with r = s * g modulo n. *)
Fixpoint egcd (fuel : nat) (r0 s0 r1 s1 : Z) : Z * Z :=
  match fuel with
  | O => (r0, s0)
  | S f => if r1 =? 0 then (r0, s0)
           else egcd f r1 s1 (r0 mod r1) (s0 - (r0 / r1) * s1)
  end.
Definition modInverse (z g n : Z) : Z :=
  let '(d, s) := egcd 800 n 0 (g mod n) 1 in if d =? 1 then s mod n else z.

(** ** The ed25519 curve *)
Definition fieldP : Z := Z.shiftl 1 255 - 19.
Definition curveD : Z :=
  Eval vm_compute in (((-121665) mod fieldP) * modInverse 0 121666 fieldP) mod fieldP.
Definition sqrtM1 : Z := Eval vm_compute in powmod 2 (Z.shiftr (fieldP - 1) 2) fieldP.

Definition squareEq (x target : Z) : bool := (x * x) mod fieldP =? target.

Definition isOnCurve (b : bytes) : bool :=
  let y := Z.land (getLE b) (Z.shiftl 1 255 - 1) in
  let y2 := (y * y) mod fieldP in
  let num := (y2 - 1) mod fieldP in
  let den := (curveD * y2 + 1) mod fieldP in
  let den := modInverse den den fieldP in
  let x2 := (num * den) mod fieldP in
  let x := powmod x2 (Z.shiftr (fieldP + 3) 3) fieldP in
  squareEq x x2 || squareEq ((x * sqrtM1) mod fieldP) x2.

(** ** Program-derived addresses *)
Definition pda_digest (seeds : list bytes) (programID : bytes) (bump : Z) : bytes :=
  sha256 (concat seeds ++ [byteZ bump] ++ programID ++ bytes_of_string "ProgramDerivedAddress").

Definition CreateProgramAddress (seeds : list bytes) (programID : bytes) (bump : Z) : res bytes :=
  let sum := pda_digest seeds programID bump in
  if isOnCurve sum then Err (Errorf "solana: address lands on the ed25519 curve") else Ok sum.

(** [for bump := byte(255); ; bump--]: [n] is the current bump. *)
Fixpoint findBump (seeds : list bytes) (programID : bytes) (n : nat) : res bytes :=
  match CreateProgramAddress seeds programID (Z.of_nat n) with
  | Ok addr => Ok addr
  | Err _ =>
    match n with
    | O => Err (Errorf "solana: unable to find a program address for the given seeds")
    | S n' => findBump seeds programID n'
    end
  end.

Definition FindProgramAddress (seeds : list bytes) (programID : bytes) : res bytes :=
  findBump seeds programID 255.

(** [mustDecodeConst] panics on a bad literal; the literals are good. *)
Definition decoded (s : string) : bytes :=
  match DecodeBase58 s PublicKeyBytes with Ok b => b | Err _ => [] end.

Definition SystemProgramID : bytes := Eval vm_compute in decoded "11111111111111111111111111111111".
Definition TokenProgramID : bytes :=
  Eval vm_compute in decoded "TokenkegQfeZyiNwAJbNbGKPFXCWuBvf9Ss623VQ5DA".
Definition Token2022ProgramID : bytes :=
  Eval vm_compute in decoded "TokenzQdBNbLqP5VEhdkAS6EPFLC1PHnBqCXEpPxuEb".
Definition ATAProgramID : bytes :=
  Eval vm_compute in decoded "ATokenGPvbdGVxr1b2hvZbsiqW5xWH25efTNsLJA8knL".
Definition RentSysvarID : bytes :=
  Eval vm_compute in decoded "SysvarRent111111111111111111111111111111111".

Definition AssociatedTokenAddress (owner mint tokenProgram : bytes) : res bytes :=
  FindProgramAddress [owner; tokenProgram; mint] ATAProgramID.

(** The built-in program ids are 32-byte keys. *)
Example builtin_ids :
  map (fun b => length b) [SystemProgramID; TokenProgramID; Token2022ProgramID; ATAProgramID; RentSysvarID]
  = [32; 32; 32; 32; 32]%nat.
Proof. reflexivity. Qed.

Definition NormalizeWallet (v : string) : res string :=
  let? d := DecodeBase58 v PublicKeyBytes in
  if negb (Z.of_nat (length d) =? PublicKeyBytes)
  then Err (Errorf "wallet public key must decode to %d bytes") else Ok (EncodeBase58 d).

Definition DecodeSignature (v : string) : res bytes :=
  let? d := DecodeBase58 v SignatureBytes in
  if negb (Z.of_nat (length d) =? SignatureBytes)
  then Err (Errorf "signature must decode to %d bytes") else Ok d.

(** Golden vector of the repository's tests. *)
Example ata_vector :
  (let? a := AssociatedTokenAddress (decoded "wyXQMgDFSzHvCwz1aK79r6Qr5BxqxKFK4Ra8u7xPBhz")
    (decoded "EsmcTrdLkFqV3mv4CjLF3AmCx132ixfFSYYRWD78cDzR") TokenProgramID in Ok (EncodeBase58 a))
  = Ok "4ZdrF3WBc9aGKdhGCS9UXSGmKV4kcoaRVTRvZrirBSQQ"%string.
Proof. vm_compute. reflexivity. Qed.

(** ** The wire format *)
Record AccountMeta := mkMeta { Key : bytes; Signer : bool; Writable : bool }.
Record Instruction := mkInstruction { ProgramIndex : Byte.byte; Accounts : bytes; Data : bytes }.

(** The loop of [AppendCompactU16]; ten rounds of seven bits cover an [int]. *)
Fixpoint compactU16 (fuel : nat) (v : Z) : bytes :=
  match fuel with
  | O => []
  | S f =>
    let b := Z.land v 127 in
    let v := Z.shiftr v 7 in
    if v >? 0 then byteZ (Z.lor b 128) :: compactU16 f v else [byteZ b]
  end.
Definition AppendCompactU16 (v : Z) : bytes := compactU16 10 v.

Definition count {A} (f : A -> bool) (l : list A) : Z := Z.of_nat (length (List.filter f l)).

Definition appendInstruction (ix : Instruction) : bytes :=
  [ProgramIndex ix] ++ AppendCompactU16 (Z.of_nat (length (Accounts ix))) ++ Accounts ix ++
  AppendCompactU16 (Z.of_nat (length (Data ix))) ++ Data ix.

Definition BuildMessage (accounts : list AccountMeta) (blockhash : bytes) (ixs : list Instruction) : bytes :=
  [byteZ (count Signer accounts);
   byteZ (count (fun a => Signer a && negb (Writable a)) accounts);
   byteZ (count (fun a => negb (Signer a) && negb (Writable a)) accounts)] ++
  AppendCompactU16 (Z.of_nat (length accounts)) ++ concat (map Key accounts) ++
  blockhash ++
  AppendCompactU16 (Z.of_nat (length ixs)) ++ concat (map appendInstruction ixs).

Definition SerializeTransaction (signature message : bytes) : bytes :=
  AppendCompactU16 1 ++ signature ++ message.

Definition TransferInstructionData (amount : Z) : bytes := byteZ 3 :: putLE 8 amount.
Definition TransferCheckedInstructionData (amount decimals : Z) : bytes :=
  byteZ 12 :: putLE 8 amount ++ [byteZ decimals].
Definition CreateATAInstructionData : bytes := [byteZ 0].

Close Scope go_scope.

(** ** A reader of the format, as the runtime reads it *)
Fixpoint readCompact (fuel : nat) (l : bytes) : option (Z * bytes) :=
  match fuel, l with
  | S f, c :: rest =>
    if Zbyte c <? 128 then Some (Zbyte c, rest)
    else match readCompact f rest with
         | Some (v, rest') => Some (Zbyte c - 128 + 128 * v, rest')
         | None => None
         end
  | _, _ => None
  end.

Definition readBytes (n : nat) (l : bytes) : option (bytes * bytes) :=
  if decide (n <= length l)%nat then Some (take n l, drop n l) else None.

Fixpoint readMany {A} (read : bytes -> option (A * bytes)) (n : nat) (l : bytes) : option (list A * bytes) :=
  match n with
  | O => Some ([], l)
  | S n' => '(a, l1) ← read l; '(r, l2) ← readMany read n' l1; Some (a :: r, l2)
  end.

Definition readVec (l : bytes) : option (bytes * bytes) :=
  '(n, l1) ← readCompact 10 l; readBytes (Z.to_nat n) l1.

Definition readInstruction (l : bytes) : option (Instruction * bytes) :=
  match l with
  | [] => None
  | p :: l0 =>
    '(acc, l1) ← readVec l0; '(data, l2) ← readVec l1; Some (mkInstruction p acc data, l2)
  end.

Record Message := mkMessage {
  ms_header : Z * Z * Z; ms_keys : list bytes; ms_blockhash : bytes; ms_instructions : list Instruction }.

Definition readMessage (l : bytes) : option Message :=
  match l with
  | h1 :: h2 :: h3 :: l0 =>
    '(n, l1) ← readCompact 10 l0;
    '(keys, l2) ← readMany (readBytes 32) (Z.to_nat n) l1;
    '(hash, l3) ← readBytes 32 l2;
    '(k, l4) ← readCompact 10 l3;
    '(ixs, l5) ← readMany readInstruction (Z.to_nat k) l4;
    match l5 with [] => Some (mkMessage (Zbyte h1, Zbyte h2, Zbyte h3) keys hash ixs) | _ => None end
  | _ => None
  end.

Lemma land127 v : Z.land v 127 = v mod 128.
Proof. change 127 with (Z.ones 7). by rewrite Z.land_ones by lia. Qed.

Lemma lor128 b : 0 <= b < 128 -> Z.lor b 128 = b + 128.
Proof.
  intros Hb.
  assert (H : forallb (fun n => Z.lor (Z.of_nat n) 128 =? Z.of_nat n + 128) (seq 0 128) = true)
    by (vm_compute; reflexivity).
  rewrite forallb_forall in H. specialize (H (Z.to_nat b)). rewrite in_seq, Z2Nat.id in H by lia.
  apply Z.eqb_eq, H. lia.
Qed.

Lemma compactU16_step f v :
  compactU16 (S f) v =
    if v / 128 >? 0 then byteZ (v mod 128 + 128) :: compactU16 f (v / 128) else [byteZ (v mod 128)].
Proof.
  cbn [compactU16]. rewrite land127, Z.shiftr_div_pow2 by lia. change (2 ^ 7) with 128.
  destruct (v / 128 >? 0); [|done]. rewrite lor128 by (apply Z.mod_pos_bound; lia). done.
Qed.

Lemma readCompact_step f c l :
  readCompact (S f) (c :: l) =
    if Zbyte c <? 128 then Some (Zbyte c, l)
    else match readCompact f l with
         | Some (v, rest') => Some (Zbyte c - 128 + 128 * v, rest')
         | None => None
         end.
Proof. done. Qed.

Lemma readCompact_compact f v l :
  0 <= v < 128 ^ Z.of_nat (S f) -> readCompact (S f) (compactU16 (S f) v ++ l) = Some (v, l).
Proof.
  revert v. induction f as [|f IH]; intros v Hv; rewrite Nat2Z.inj_succ, Z.pow_succ_r in Hv by lia;
    rewrite compactU16_step;
    pose proof (Z.mod_pos_bound v 128 ltac:(lia)); pose proof (Z.div_mod v 128 ltac:(lia)).
  all: destruct (v / 128 >? 0) eqn:E; zb; cbn [app]; rewrite readCompact_step, Zbyte_byteZ.
  - change (128 ^ Z.of_nat 0) with 1 in Hv. rewrite Z.div_small in E by lia. lia.
  - rewrite (Z.mod_small (v mod 128)) by lia. destruct (v mod 128 <? 128) eqn:?; zb; [|lia].
    do 2 f_equal. pose proof (Z.div_pos v 128 ltac:(lia) ltac:(lia)). lia.
  - rewrite (Z.mod_small (v mod 128 + 128)) by lia. destruct (_ <? 128) eqn:?; zb; [lia|].
    rewrite IH; [do 2 f_equal; lia|]. split; [lia|]. apply Z.div_lt_upper_bound; lia.
  - rewrite (Z.mod_small (v mod 128)) by lia. destruct (v mod 128 <? 128) eqn:?; zb; [|lia].
    do 2 f_equal. pose proof (Z.div_pos v 128 ltac:(lia) ltac:(lia)). lia.
Qed.

Lemma readCompact_Append v l : 0 <= v <= maxI64 -> readCompact 10 (AppendCompactU16 v ++ l) = Some (v, l).
Proof.
  intros Hv. apply (readCompact_compact 9). change (128 ^ Z.of_nat 10) with 1180591620717411303424.
  unfold_i64. lia.
Qed.

Lemma readBytes_app n (x l : bytes) : length x = n -> readBytes n (x ++ l) = Some (x, l).
Proof.
  intros <-. unfold readBytes. rewrite decide_True by (rewrite length_app; lia).
  by rewrite take_app_length, drop_app_length.
Qed.

Lemma readMany_concat {A} (read : bytes -> option (A * bytes)) (write : A -> bytes) (xs : list A) l :
  Forall (fun x => forall l, read (write x ++ l) = Some (x, l)) xs ->
  readMany read (length xs) (concat (map write xs) ++ l) = Some (xs, l).
Proof.
  induction 1 as [|x xs Hx _ IH]; [done|]. cbn [map concat length readMany].
  rewrite <- app_assoc, Hx. simpl. by rewrite IH.
Qed.

#[local] Arguments readCompact : simpl never.
#[local] Arguments readBytes : simpl never.
#[local] Arguments readMany : simpl never.
#[local] Arguments AppendCompactU16 : simpl never.

Definition small (l : bytes) : Prop := Z.of_nat (length l) <= maxI64.

Lemma readVec_app x l :
  small x -> readVec (AppendCompactU16 (Z.of_nat (length x)) ++ x ++ l) = Some (x, l).
Proof.
  intros Hx. unfold small in Hx. unfold readVec. rewrite readCompact_Append by lia. simpl.
  rewrite Nat2Z.id. by apply readBytes_app.
Qed.

Lemma readInstruction_append ix l :
  small (Accounts ix) -> small (Data ix) -> readInstruction (appendInstruction ix ++ l) = Some (ix, l).
Proof.
  intros Ha Hd. unfold appendInstruction, readInstruction. cbn [app].
  rewrite <- !app_assoc, readVec_app by done. simpl. rewrite readVec_app by done. by destruct ix.
Qed.

Lemma message_read accounts blockhash ixs :
  Forall (fun a => length (Key a) = 32%nat) accounts -> length blockhash = 32%nat ->
  Forall (fun ix => small (Accounts ix) /\ small (Data ix)) ixs ->
  Z.of_nat (length accounts) <= maxI64 -> Z.of_nat (length ixs) <= maxI64 ->
  readMessage (BuildMessage accounts blockhash ixs) = Some (mkMessage
    (count Signer accounts mod 256,
     count (fun a => Signer a && negb (Writable a)) accounts mod 256,
     count (fun a => negb (Signer a) && negb (Writable a)) accounts mod 256)
    (map Key accounts) blockhash ixs).
Proof.
  intros Hk Hb Hix Hn Hm. unfold BuildMessage, readMessage. cbn [app].
  rewrite readCompact_Append by lia. simpl. rewrite Nat2Z.id.
  rewrite <- (map_id (map Key accounts)) at 1.
  rewrite <- (length_map Key accounts), readMany_concat by (apply Forall_map; eapply Forall_impl;
    [exact Hk|]; intros a Ha l; by apply readBytes_app).
  simpl. rewrite readBytes_app by done. simpl. rewrite readCompact_Append by lia. simpl.
  rewrite Nat2Z.id. rewrite <- (app_nil_r (concat (map appendInstruction ixs))).
  rewrite readMany_concat by (eapply Forall_impl; [exact Hix|]; intros ix [? ?] l;
    by apply readInstruction_append).
  simpl. by rewrite !Zbyte_byteZ.
Qed.

(** the message encoding is unambiguous: for 32-byte keys and blockhash, the
    runtime's reading of the bytes [BuildMessage] builds gives back the account
    keys in order, the blockhash, every instruction with its program index,
    account indices and data, and a header that counts the signers, the read-only
    signers and the read-only others (modulo 256). *)
Theorem BuildMessage_read accounts blockhash ixs :
  Forall (fun a => length (Key a) = 32%nat) accounts -> length blockhash = 32%nat ->
  Forall (fun ix => small (Accounts ix) /\ small (Data ix)) ixs ->
  Z.of_nat (length accounts) <= maxI64 -> Z.of_nat (length ixs) <= maxI64 ->
  readMessage (BuildMessage accounts blockhash ixs) = Some (mkMessage
    (count Signer accounts mod 256,
     count (fun a => Signer a && negb (Writable a)) accounts mod 256,
     count (fun a => negb (Signer a) && negb (Writable a)) accounts mod 256)
    (map Key accounts) blockhash ixs).
Proof. apply message_read. Qed.

Lemma BuildMessage_read_witness :
  readMessage (BuildMessage [mkMeta SystemProgramID true true] RentSysvarID
    [mkInstruction (byteZ 0) [byteZ 0] (TransferInstructionData 500)]) =
  Some (mkMessage (1, 0, 0) [SystemProgramID] RentSysvarID
    [mkInstruction (byteZ 0) [byteZ 0] (TransferInstructionData 500)]).
Proof.
  apply (BuildMessage_read [mkMeta SystemProgramID true true]).
  - by repeat constructor.
  - reflexivity.
  - by repeat constructor.
  - vm_compute. discriminate.
  - vm_compute. discriminate.
Defined.

(** ** Addresses *)

(** the bump search is total and canonical: [FindProgramAddress] either
    returns the 32-byte digest of the largest bump whose digest is off the curve,
    or reports failure exactly when all 256 digests lie on the curve. *)
Theorem FindProgramAddress_canonical seeds programID :
  match FindProgramAddress seeds programID with
  | Ok addr => exists n, 0 <= n <= 255 /\ addr = pda_digest seeds programID n /\
      length addr = 32%nat /\ isOnCurve addr = false /\
      forall m, n < m <= 255 -> isOnCurve (pda_digest seeds programID m) = true
  | Err _ => forall m, 0 <= m <= 255 -> isOnCurve (pda_digest seeds programID m) = true
  end.
Proof.
  unfold FindProgramAddress. change 255 with (Z.of_nat 255) at 1 2 3. generalize 255%nat as n.
  induction n as [|n IH]; cbn [findBump]; unfold CreateProgramAddress;
    (destruct (isOnCurve _) eqn:E; [|eexists; split; [|split; [reflexivity|]];
       [lia|split; [apply length_sha256|split; [exact E|lia]]]]).
  - intros m Hm. assert (m = Z.of_nat 0) as -> by lia. exact E.
  - destruct (findBump seeds programID n) as [addr|x].
    + destruct IH as (k & Hk & Ha & Hl & Hoff & Hon). exists k. do 4 (split; [done || lia|]).
      intros m Hm. destruct (decide (m = Z.of_nat (S n))) as [->|]; [exact E|]. apply Hon. lia.
    + intros m Hm. destruct (decide (m = Z.of_nat (S n))) as [->|]; [exact E|]. apply IH. lia.
Qed.

(** * The token transfers the workers sign

    [buildTransferMessage] of internal/withdraw/worker.go (and, argument for
    argument, of internal/faucet/tx.go) and [buildTransferCheckedMessage] of
    internal/delegations/worker.go, read back as the runtime reads them: the calls
    a message makes, with every index resolved against its account keys. *)
Definition readonly (k : bytes) : AccountMeta := mkMeta k false false.

Definition transferAccounts (treasury sourceATA destATA owner mint tokenProgram : bytes)
    (createATA token2022 : bool) : list AccountMeta :=
  [mkMeta treasury true true; mkMeta sourceATA false true; mkMeta destATA false true] ++
  (if createATA
   then map readonly [owner; mint; SystemProgramID; ATAProgramID; tokenProgram] ++
        (if token2022 then [] else [readonly RentSysvarID])
   else [readonly tokenProgram]).

Definition transferInstructions (createATA token2022 : bool) (amountRaw : Z) : list Instruction :=
  (if createATA
   then [mkInstruction (byteZ 6)
           (map byteZ ([0; 2; 3; 4; 5; 7] ++ (if token2022 then [] else [8]))) CreateATAInstructionData]
   else []) ++
  [mkInstruction (byteZ (if createATA then 7 else 3)) (map byteZ [1; 2; 0])
     (TransferInstructionData amountRaw)].

Definition buildTransferMessage (treasury sourceATA destATA owner mint tokenProgram : bytes)
    (createATA token2022 : bool) (blockhash : bytes) (amountRaw : Z) : bytes :=
  BuildMessage (transferAccounts treasury sourceATA destATA owner mint tokenProgram createATA token2022)
    blockhash (transferInstructions createATA token2022 amountRaw).

Definition checkedAccounts (source mint destATA authority tokenProgram : bytes) (createDestATA : bool)
    : list AccountMeta :=
  [mkMeta source false true; mkMeta mint false false; mkMeta destATA false true;
   mkMeta authority true false] ++
  (if createDestATA
   then map readonly [authority; mint; SystemProgramID; ATAProgramID; tokenProgram] else []).

Definition checkedInstructions (createDestATA : bool) (amountRaw decimals : Z) : list Instruction :=
  (if createDestATA
   then [mkInstruction (byteZ 6) (map byteZ [0; 2; 3; 5; 7]) CreateATAInstructionData] else []) ++
  [mkInstruction (byteZ (if createDestATA then 8 else 4)) (map byteZ [0; 1; 2; 3])
     (TransferCheckedInstructionData amountRaw decimals)].

Definition buildTransferCheckedMessage (source mint destATA authority tokenProgram : bytes)
    (createDestATA : bool) (blockhash : bytes) (amountRaw decimals : Z) : bytes :=
  BuildMessage (checkedAccounts source mint destATA authority tokenProgram createDestATA)
    blockhash (checkedInstructions createDestATA amountRaw decimals).

(** ** What a message does *)

(** A call: the program's key, the account keys, the data; [None] is an index
    past the account list, which the runtime rejects. *)
Definition key_at (m : Message) (i : Byte.byte) : option bytes := ms_keys m !! Z.to_nat (Zbyte i).
Definition calls (m : Message) : list (option bytes * list (option bytes) * bytes) :=
  map (fun ix => (key_at m (ProgramIndex ix), map (key_at m) (Accounts ix), Data ix))
    (ms_instructions m).

(** The runtime verifies the signatures against the first keys of the list. *)
Definition signers (m : Message) : list bytes := take (Z.to_nat (ms_header m).1.1) (ms_keys m).

Definition keys32 (l : list bytes) : Prop := Forall (fun k => length k = 32%nat) l.

Lemma program_ids_32 : keys32 [SystemProgramID; ATAProgramID; RentSysvarID].
Proof. by repeat constructor. Qed.

Lemma read_built accounts blockhash ixs :
  keys32 (map Key accounts) -> length blockhash = 32%nat ->
  forallb (fun ix => (length (Accounts ix) <? 256)%nat && (length (Data ix) <? 256)%nat) ixs = true ->
  (length accounts <= 255)%nat -> (length ixs <= 255)%nat ->
  readMessage (BuildMessage accounts blockhash ixs) = Some (mkMessage
    (count Signer accounts mod 256,
     count (fun a => Signer a && negb (Writable a)) accounts mod 256,
     count (fun a => negb (Signer a) && negb (Writable a)) accounts mod 256)
    (map Key accounts) blockhash ixs).
Proof.
  intros Hk Hb Hix Hn Hm. apply message_read; [by apply Forall_map in Hk|done| |unfold_i64; lia..].
  apply Forall_forall. intros ix Hin%list_elem_of_In. rewrite forallb_forall in Hix.
  specialize (Hix ix Hin). apply andb_prop in Hix as [H1%Nat.ltb_lt H2%Nat.ltb_lt].
  unfold small. unfold_i64. lia.
Qed.

(** The withdrawal (and faucet) transfer does what it should: for 32-byte keys,
    the message is readable, its only signer is the treasury, it first creates the
    destination's token account exactly when asked to (through the associated-token
    program, for the owner and the mint, with the rent sysvar only for the classic
    token program), and then transfers exactly the amount from the treasury's
    account to the destination's under the treasury's authority. *)
Theorem withdrawal_message_calls treasury sourceATA destATA owner mint tokenProgram
    createATA token2022 blockhash amount :
  keys32 [treasury; sourceATA; destATA; owner; mint; tokenProgram; blockhash] ->
  exists m,
    readMessage (buildTransferMessage treasury sourceATA destATA owner mint tokenProgram
      createATA token2022 blockhash amount) = Some m /\
    ms_blockhash m = blockhash /\ signers m = [treasury] /\
    calls m =
      (if createATA
       then [(Some ATAProgramID,
              map Some ([treasury; destATA; owner; mint; SystemProgramID; tokenProgram] ++
                        (if token2022 then [] else [RentSysvarID])), CreateATAInstructionData)]
       else []) ++
      [(Some tokenProgram, map Some [sourceATA; destATA; treasury], byteZ 3 :: putLE 8 amount)].
Proof.
  intros Hk. repeat (apply Forall_cons in Hk as [? Hk]). unfold buildTransferMessage.
  rewrite read_built.
  - eexists. split; [reflexivity|]. split; [done|].
    destruct createATA, token2022; (split; [reflexivity|]); reflexivity.
  - destruct createATA, token2022; by repeat constructor.
  - done.
  - destruct createATA, token2022; reflexivity.
  - destruct createATA, token2022; simpl; lia.
  - destruct createATA, token2022; simpl; lia.
Qed.

Lemma withdrawal_message_calls_witness :
  exists m, readMessage (buildTransferMessage TokenProgramID RentSysvarID ATAProgramID SystemProgramID
      Token2022ProgramID TokenProgramID false false RentSysvarID 500) = Some m /\
    signers m = [TokenProgramID].
Proof.
  destruct (withdrawal_message_calls TokenProgramID RentSysvarID ATAProgramID SystemProgramID
    Token2022ProgramID TokenProgramID false false RentSysvarID 500) as (m & Hm & _ & Hs & _).
  - by repeat constructor.
  - by exists m.
Defined.

(** the delegation settlement's transfer_checked cannot execute: in the message
    of internal/delegations/worker.go the token program's index points past the
    account list when the destination exists, and the program that should create a
    missing destination account resolves to the system program; in both cases the
    signature is checked against the buyer's token account, not the authority. *)
Theorem delegation_message_misaddressed source mint destATA authority tokenProgram
    createDestATA blockhash amount decimals :
  keys32 [source; mint; destATA; authority; tokenProgram; blockhash] ->
  exists m,
    readMessage (buildTransferCheckedMessage source mint destATA authority tokenProgram
      createDestATA blockhash amount decimals) = Some m /\
    signers m = [source] /\
    map (fun c => c.1.1) (calls m) =
      (if createDestATA then [Some SystemProgramID; Some tokenProgram] else [None]).
Proof.
  intros Hk. repeat (apply Forall_cons in Hk as [? Hk]). unfold buildTransferCheckedMessage.
  rewrite read_built.
  - eexists. split; [reflexivity|]. destruct createDestATA; split; reflexivity.
  - destruct createDestATA; by repeat constructor.
  - done.
  - destruct createDestATA; reflexivity.
  - destruct createDestATA; simpl; lia.
  - destruct createDestATA; simpl; lia.
Qed.

Lemma delegation_message_misaddressed_witness :
  exists m, readMessage (buildTransferCheckedMessage RentSysvarID Token2022ProgramID ATAProgramID
      SystemProgramID TokenProgramID false RentSysvarID 500 6) = Some m /\
    map (fun c => c.1.1) (calls m) = [None].
Proof.
  destruct (delegation_message_misaddressed RentSysvarID Token2022ProgramID ATAProgramID
    SystemProgramID TokenProgramID false RentSysvarID 500 6) as (m & Hm & _ & Hc).
  - by repeat constructor.
  - by exists m.
Defined.
