(* ===== verification/Json.v ===== *)
(** * encoding/json, as the clients use it

    A parsed JSON value and [json.Unmarshal] into a struct.  A decoder takes the
    current value of its target: null leaves a scalar, a struct and a slice element
    as they are and sets a pointer or a slice to nil; a member whose key matches no
    field is skipped, keys match up to case, a later member is decoded over an
    earlier one; any mismatch makes the whole call fail, and every caller discards
    the target then. *)
From Stdlib Require Import ZArith Lia Strings.Ascii Strings.String.
From stdpp Require Import base list strings gmap fin_maps sorting.
From S2P Require Import Prelude Sha256 Base58 GoText.

Open Scope Z_scope.
Local Open Scope go_scope.

(** [JFrac] is a number literal with a fraction or an exponent, by its text. *)
Inductive json :=
  | JNull
  | JBool (b : bool)
  | JInt (z : Z)
  | JFrac (literal : string)
  | JStr (s : string)
  | JArr (l : list json)
  | JObj (members : list (string * json)).

Definition mismatch : err := Errorf "json: cannot unmarshal".

(** A field and its decoder over a target of type [A]. *)
Notation decoder A := (A -> json -> res A).
Definition fields (A : Type) : Type := list (string * decoder A).

(** Simple case folding of the keys. *)
Fixpoint fold_key (l : chars) : chars :=
  match l with
  | "226"%char :: "132"%char :: "170"%char :: r => "k"%char :: fold_key r
  | "197"%char :: "191"%char :: r => "s"%char :: fold_key r
  | c :: r => lower_char c :: fold_key r
  | [] => []
  end.
Definition same_key (a b : string) : bool :=
  bool_decide (fold_key (chars_of a) = fold_key (chars_of b)).

Definition dec_string : decoder string := fun cur j =>
  match j with JStr s => Ok s | JNull => Ok cur | _ => Err mismatch end.
Definition dec_int64 : decoder Z := fun cur j =>
  match j with
  | JInt z => if bool_decide (in_i64 z) then Ok z else Err mismatch
  | JNull => Ok cur
  | _ => Err mismatch
  end.
Definition dec_uint64 : decoder Z := fun cur j =>
  match j with
  | JInt z => if (0 <=? z) && (z <? two64) then Ok z else Err mismatch
  | JNull => Ok cur
  | _ => Err mismatch
  end.

(** A json.RawMessage: empty, or the text of a value. *)
Definition dec_raw : decoder (option json) := fun _ j => Ok (Some j).

Definition dec_ptr {A} (zero : A) (d : decoder A) : decoder (option A) := fun cur j =>
  match j with
  | JNull => Ok None
  | _ => let? a := d (default zero cur) j in Ok (Some a)
  end.
(** A pointer to a RawMessage. *)
Definition dec_raw_ptr : decoder (option json) := fun _ j =>
  match j with JNull => Ok None | _ => Ok (Some j) end.

Fixpoint dec_elems {A} (zero : A) (d : decoder A) (l : list json) : res (list A) :=
  match l with
  | [] => Ok []
  | j :: r => let? a := d zero j in let? rest := dec_elems zero d r in Ok (a :: rest)
  end.
Definition dec_slice {A} (zero : A) (d : decoder A) : decoder (list A) := fun _ j =>
  match j with
  | JNull => Ok []
  | JArr l => dec_elems zero d l
  | _ => Err mismatch
  end.

Fixpoint find_field {A} (fs : fields A) (key : string) : option (decoder A) :=
  match fs with
  | [] => None
  | (name, d) :: r => if same_key name key then Some d else find_field r key
  end.
Fixpoint dec_members {A} (fs : fields A) (cur : A) (l : list (string * json)) : res A :=
  match l with
  | [] => Ok cur
  | (key, j) :: r =>
    match find_field fs key with
    | None => dec_members fs cur r
    | Some d => let? cur := d cur j in dec_members fs cur r
    end
  end.
Definition dec_struct {A} (fs : fields A) : decoder A := fun cur j =>
  match j with
  | JObj l => dec_members fs cur l
  | JNull => Ok cur
  | _ => Err mismatch
  end.

(** A field [name] of type [B] inside a struct [A]. *)
Definition fld {A B} (name : string) (get : A -> B) (set : B -> A -> A) (d : decoder B)
    : string * decoder A :=
  (name, fun a j => let? b := d (get a) j in Ok (set b a)).

(** [json.Unmarshal(raw, dest)]: an empty text is a syntax error. *)
Definition Unmarshal {A} (d : decoder A) (zero : A) (raw : option json) : res A :=
  match raw with None => Err (Errorf "unexpected end of JSON input") | Some j => d zero j end.

(** ** strconv.ParseInt(s, 10, 64) and ParseUint *)
Definition digit_value (c : ascii) : option Z :=
  let z := ascii_Z c in if (48 <=? z) && (z <=? 57) then Some (z - 48) else None.
Fixpoint parse_digits (acc : Z) (l : chars) : option Z :=
  match l with
  | [] => Some acc
  | c :: r => match digit_value c with Some d => parse_digits (10 * acc + d) r | None => None end
  end.
Definition parse_nat (l : chars) : option Z := if bool_decide (l = []) then None else parse_digits 0 l.

Definition ParseInt (s : string) : res Z :=
  let bad := Err (Errorf "strconv.ParseInt") in
  let '(neg, l) := match chars_of s with
    | "-"%char :: r => (true, r)
    | "+"%char :: r => (false, r)
    | l => (false, l)
    end in
  match parse_nat l with
  | None => bad
  | Some v => let v := if neg : bool then - v else v in
              if bool_decide (in_i64 v) then Ok v else bad
  end.
Definition ParseUint (s : string) : res Z :=
  match parse_nat (chars_of s) with
  | Some v => if v <? two64 then Ok v else Err (Errorf "strconv.ParseUint")
  | None => Err (Errorf "strconv.ParseUint")
  end.

Example parse_ex : ParseInt "-120" = Ok (-120) /\ ParseInt "1_0" = Err (Errorf "strconv.ParseInt") /\
  ParseUint "18446744073709551616" = Err (Errorf "strconv.ParseUint").
Proof. repeat split. Qed.

(** * encoding/json on bytes

    What the gate and the response parser use of the standard library below parsed
    values: the grammar ([checkValid]), whole values, the members of an object as raw
    texts ([map[string]json.RawMessage]) with their re-encoding, and the token stream of
    a [json.Decoder].  Strings are Go strings: bytes, where an escape or an invalid
    UTF-8 sequence has become the bytes the decoder stores.  Recursion over a text has
    fuel; every caller gives the text's length plus one, and each level and each element
    consumes a byte. *)
(** ** Characters *)
Definition byte_ascii (z : Z) : ascii := ascii_of_N (Z.to_N z).
Definition is_space (c : ascii) : bool :=
  let z := ascii_Z c in (z =? 32) || (z =? 9) || (z =? 13) || (z =? 10).
Fixpoint skip_space (l : chars) : chars :=
  match l with c :: r => if is_space c then skip_space r else l | [] => [] end.

Definition hex_value (c : ascii) : option Z :=
  let z := ascii_Z c in
  if (48 <=? z) && (z <=? 57) then Some (z - 48)
  else if (97 <=? z) && (z <=? 102) then Some (z - 87)
  else if (65 <=? z) && (z <=? 70) then Some (z - 55)
  else None.
Definition hex4 (l : chars) : option (Z * chars) :=
  match l with
  | a :: b :: c :: d :: r =>
    match hex_value a, hex_value b, hex_value c, hex_value d with
    | Some x, Some y, Some z, Some w => Some (((x * 16 + y) * 16 + z) * 16 + w, r)
    | _, _, _, _ => None
    end
  | _ => None
  end.

(** [utf8.AppendRune]; no surrogate reaches it. *)
Definition encode_rune (r : Z) : chars :=
  if r <? 128 then [byte_ascii r]
  else if r <? 2048 then [byte_ascii (192 + r / 64); byte_ascii (128 + r mod 64)]
  else if r <? 65536 then
    [byte_ascii (224 + r / 4096); byte_ascii (128 + r / 64 mod 64); byte_ascii (128 + r mod 64)]
  else [byte_ascii (240 + r / 262144); byte_ascii (128 + r / 4096 mod 64);
        byte_ascii (128 + r / 64 mod 64); byte_ascii (128 + r mod 64)].
Definition rune_error : chars := encode_rune 65533.

Definition cont (z : Z) : bool := (128 <=? z) && (z <=? 191).
(** The length of the valid UTF-8 sequence at the head, 0 for an invalid byte. *)
Definition rune_len (l : chars) : nat :=
  match map ascii_Z (take 4 l) with
  | a :: r =>
    if a <? 128 then 1%nat
    else if (194 <=? a) && (a <=? 223) then
      match r with b :: _ => if cont b then 2%nat else 0%nat | _ => 0%nat end
    else if (224 <=? a) && (a <=? 239) then
      match r with
      | b :: c :: _ =>
        let lo := if a =? 224 then 160 else 128 in
        let hi := if a =? 237 then 159 else 191 in
        if (lo <=? b) && (b <=? hi) && cont c then 3%nat else 0%nat
      | _ => 0%nat
      end
    else if (240 <=? a) && (a <=? 244) then
      match r with
      | b :: c :: d :: _ =>
        let lo := if a =? 240 then 144 else 128 in
        let hi := if a =? 244 then 143 else 191 in
        if (lo <=? b) && (b <=? hi) && cont c && cont d then 4%nat else 0%nat
      | _ => 0%nat
      end
    else 0%nat
  | [] => 0%nat
  end.

(** ** Scalars *)
Definition escape_char (c : ascii) : option Z :=
  match c with
  | "b"%char => Some 8 | "f"%char => Some 12 | "n"%char => Some 10
  | "r"%char => Some 13 | "t"%char => Some 9
  | "034"%char => Some 34 | "\"%char => Some 92 | "/"%char => Some 47
  | _ => None
  end.

(** The raw text of a string up to its closing quote, and the rest. *)
Fixpoint string_body (l : chars) : option (chars * chars) :=
  match l with
  | [] => None
  | "034"%char :: r => Some ([], r)
  | "\"%char :: "u"%char :: r =>
    match r with
    | a :: b :: c :: d :: r' =>
      match hex4 [a; b; c; d], string_body r' with
      | Some _, Some (s, t) => Some ("\"%char :: "u"%char :: a :: b :: c :: d :: s, t)
      | _, _ => None
      end
    | _ => None
    end
  | "\"%char :: e :: r =>
    match escape_char e, string_body r with
    | Some _, Some (s, t) => Some ("\"%char :: e :: s, t)
    | _, _ => None
    end
  | c :: r =>
    if ascii_Z c <? 32 then None
    else match string_body r with Some (s, t) => Some (c :: s, t) | None => None end
  end.

Definition surrogate (r : Z) : bool := (55296 <=? r) && (r <=? 57343).
(** [utf16.DecodeRune], when it is a rune. *)
Definition surrogates (r1 r2 : Z) : option Z :=
  if (55296 <=? r1) && (r1 <? 56320) && (56320 <=? r2) && (r2 <? 57344)
  then Some ((r1 - 55296) * 1024 + (r2 - 56320) + 65536) else None.

(** The string the decoder stores for a raw text. *)
Fixpoint unquote (fuel : nat) (l : chars) : chars :=
  match fuel with
  | O => []
  | S k =>
    match l with
    | [] => []
    | "\"%char :: "u"%char :: r =>
      match hex4 r with
      | None => []
      | Some (u, r') =>
        if surrogate u then
          match r' with
          | "\"%char :: "u"%char :: r2 =>
            match hex4 r2 with
            | Some (v, r3) =>
              match surrogates u v with
              | Some w => encode_rune w ++ unquote k r3
              | None => rune_error ++ unquote k r'
              end
            | None => rune_error ++ unquote k r'
            end
          | _ => rune_error ++ unquote k r'
          end
        else encode_rune u ++ unquote k r'
      end
    | "\"%char :: e :: r => byte_ascii (default 0 (escape_char e)) :: unquote k r
    | c :: r =>
      match rune_len l with
      | O => rune_error ++ unquote k r
      | n => take n l ++ unquote k (drop n l)
      end
    end
  end.

Definition is_digit (c : ascii) : bool := (48 <=? ascii_Z c) && (ascii_Z c <=? 57).
Fixpoint digits (l : chars) : chars * chars :=
  match l with
  | c :: r => if is_digit c then let '(d, t) := digits r in (c :: d, t) else ([], l)
  | [] => ([], [])
  end.
(** A number literal: its sign and integer part, its fraction and exponent, the rest. *)
Definition number_text (l : chars) : option (chars * chars * chars) :=
  let '(sign, l1) := match l with "-"%char :: r => (["-"%char], r) | _ => ([], l) end in
  let '(int, l2) := match l1 with "0"%char :: r => (["0"%char], r) | _ => digits l1 end in
  if bool_decide (int = []) then None
  else
    let frac := match l2 with
      | "."%char :: r => let '(d, t) := digits r in
                         if bool_decide (d = []) then None else Some ("."%char :: d, t)
      | _ => Some ([], l2)
      end in
    match frac with
    | None => None
    | Some (f, l3) =>
      match l3 with
      | e :: r =>
        if (Ascii.eqb e "e" || Ascii.eqb e "E")%char then
          let '(s, r1) := match r with
            | "+"%char :: t => (["+"%char], t) | "-"%char :: t => (["-"%char], t) | _ => ([], r) end in
          let '(d, t) := digits r1 in
          if bool_decide (d = []) then None else Some (sign ++ int, f ++ e :: s ++ d, t)
        else Some (sign ++ int, f, l3)
      | [] => Some (sign ++ int, f, [])
      end
    end.
Definition number_value (int rest : chars) : json :=
  if bool_decide (rest = []) then
    let '(neg, d) := match int with "-"%char :: d => (true, d) | _ => (false, int) end in
    let v := default 0 (parse_nat d) in JInt (if neg : bool then - v else v)
  else JFrac (text_of (int ++ rest)).

(** A value that is neither an object nor an array: its text, its value, the rest. *)
Definition scalar (l : chars) : option (json * chars) :=
  match l with
  | "034"%char :: r =>
    match string_body r with
    | Some (s, t) => Some (JStr (text_of (unquote (length s) s)), t)
    | None => None
    end
  | "t"%char :: "r"%char :: "u"%char :: "e"%char :: r => Some (JBool true, r)
  | "f"%char :: "a"%char :: "l"%char :: "s"%char :: "e"%char :: r => Some (JBool false, r)
  | "n"%char :: "u"%char :: "l"%char :: "l"%char :: r => Some (JNull, r)
  | _ =>
    match number_text l with
    | Some (int, frac, t) => Some (number_value int frac, t)
    | None => None
    end
  end.

(** ** Values *)
Definition maxNestingDepth : Z := 10000.

(** [value] after white space; [members] and [json_elements] at the first member or element,
    up to and with the closing bracket. *)
Fixpoint value (fuel : nat) (depth : Z) (l : chars) : option (json * chars) :=
  match fuel with
  | O => None
  | S k =>
    match skip_space l with
    | "{"%char :: r =>
      if depth >=? maxNestingDepth then None
      else match skip_space r with
           | "}"%char :: t => Some (JObj [], t)
           | _ => match members k (depth + 1) r with Some (ms, t) => Some (JObj ms, t) | None => None end
           end
    | "["%char :: r =>
      if depth >=? maxNestingDepth then None
      else match skip_space r with
           | "]"%char :: t => Some (JArr [], t)
           | _ => match json_elements k (depth + 1) r with Some (vs, t) => Some (JArr vs, t) | None => None end
           end
    | l' => scalar l'
    end
  end
with members (fuel : nat) (depth : Z) (l : chars) : option (list (string * json) * chars) :=
  match fuel with
  | O => None
  | S k =>
    match skip_space l with
    | "034"%char :: r =>
      match string_body r with
      | None => None
      | Some (s, t) =>
        match skip_space t with
        | ":"%char :: t =>
          match value k depth t with
          | None => None
          | Some (v, t) =>
            let m := (text_of (unquote (length s) s), v) in
            match skip_space t with
            | "}"%char :: t => Some ([m], t)
            | ","%char :: t => match members k depth t with Some (ms, t) => Some (m :: ms, t) | None => None end
            | _ => None
            end
          end
        | _ => None
        end
      end
    | _ => None
    end
  end
with json_elements (fuel : nat) (depth : Z) (l : chars) : option (list json * chars) :=
  match fuel with
  | O => None
  | S k =>
    match value k depth l with
    | None => None
    | Some (v, t) =>
      match skip_space t with
      | "]"%char :: t => Some ([v], t)
      | ","%char :: t => match json_elements k depth t with Some (vs, t) => Some (v :: vs, t) | None => None end
      | _ => None
      end
    end
  end.

Definition fuel_for (l : chars) : nat := S (length l).

(** A whole text; [None] is a syntax error. *)
Definition parse (l : chars) : option json :=
  match value (fuel_for l) 0 l with
  | Some (v, t) => if bool_decide (skip_space t = []) then Some v else None
  | None => None
  end.

(** ** The members of an object as raw texts *)
Definition raw_value (l : chars) : option (chars * chars) :=
  let l := skip_space l in
  match value (fuel_for l) 1 l with
  | Some (_, t) => Some (take (length l - length t) l, t)
  | None => None
  end.
Fixpoint raw_members (fuel : nat) (l : chars) : option (list (string * chars)) :=
  match fuel with
  | O => None
  | S k =>
    match skip_space l with
    | "034"%char :: r =>
      match string_body r with
      | None => None
      | Some (s, t) =>
        match skip_space t with
        | ":"%char :: t =>
          match raw_value t with
          | None => None
          | Some (v, t) =>
            let m := (text_of (unquote (length s) s), v) in
            match skip_space t with
            | "}"%char :: _ => Some [m]
            | ","%char :: t => match raw_members k t with Some ms => Some (m :: ms) | None => None end
            | _ => None
            end
          end
        | _ => None
        end
      end
    | _ => None
    end
  end.

(** [json.Unmarshal] into a nil [map[string]json.RawMessage]; null leaves it nil. *)
Definition unmarshal_map (l : chars) : res (option (gmap string chars)) :=
  match parse l with
  | None => Err (Errorf "json: syntax error")
  | Some JNull => Ok None
  | Some (JObj []) => Ok (Some ∅)
  | Some (JObj _) =>
    match skip_space l with
    | _ :: r =>
      match raw_members (fuel_for r) r with
      | Some ms => Ok (Some (fold_left (fun m kv => <[fst kv := snd kv]> m) ms ∅))
      | None => Err (Errorf "json: syntax error")
      end
    | [] => Err (Errorf "json: syntax error")
    end
  | Some _ => Err mismatch
  end.

(** [json.Unmarshal(raw, &cur)] of an int that was 0. *)
Definition unmarshal_int (l : chars) : res Z :=
  match parse l with
  | None => Err (Errorf "json: syntax error")
  | Some j => dec_int64 0 j
  end.

(** ** Re-encoding *)
Definition hex_digit (z : Z) : ascii := nth (Z.to_nat z) (chars_of "0123456789abcdef") "0"%char.
Definition u00 (z : Z) : chars := chars_of "\u00" ++ [hex_digit (z / 16); hex_digit (z mod 16)].
Definition html_char (z : Z) : bool := (z =? 60) || (z =? 62) || (z =? 38).
(** U+2028 and U+2029. *)
Definition line_separator (l : chars) : option (Z * chars) :=
  match l with
  | "226"%char :: "128"%char :: c :: r =>
    if (ascii_Z c =? 168) || (ascii_Z c =? 169) then Some (ascii_Z c - 168 + 8, r) else None
  | _ => None
  end.
Definition u202 (z : Z) : chars := chars_of "\u202" ++ [hex_digit z].

(** [appendString] with HTML escaping, without the quotes. *)
Fixpoint quote_body (fuel : nat) (l : chars) : chars :=
  match fuel with
  | O => []
  | S k =>
    match l with
    | [] => []
    | c :: r =>
      let z := ascii_Z c in
      if z <? 128 then
        (if z =? 34 then ["\"%char; c] else if z =? 92 then ["\"%char; c]
         else if z =? 8 then chars_of "\b" else if z =? 12 then chars_of "\f"
         else if z =? 10 then chars_of "\n" else if z =? 13 then chars_of "\r"
         else if z =? 9 then chars_of "\t"
         else if (z <? 32) || html_char z then u00 z else [c]) ++ quote_body k r
      else
        match line_separator l with
        | Some (d, r) => u202 d ++ quote_body k r
        | None =>
          match rune_len l with
          | O => chars_of "\ufffd" ++ quote_body k r
          | n => take n l ++ quote_body k (drop n l)
          end
        end
    end
  end.
Definition quoted (s : string) : chars :=
  "034"%char :: quote_body (String.length s) (chars_of s) ++ ["034"%char].

(** [appendCompact] with HTML escaping: no white space outside strings. *)
Fixpoint compact (inside : bool) (l : chars) : chars :=
  match l with
  | [] => []
  | c :: r =>
    if html_char (ascii_Z c) then u00 (ascii_Z c) ++ compact inside r
    else
      match l with
      | "226"%char :: "128"%char :: c3 :: r3 =>
        if (ascii_Z c3 =? 168) || (ascii_Z c3 =? 169) then u202 (ascii_Z c3 - 168 + 8) ++ compact inside r3
        else c :: compact inside r
      | "\"%char :: e :: r' => if inside then "\"%char :: e :: compact true r' else c :: compact inside r
      | "034"%char :: r' => c :: compact (negb inside) r'
      | _ => if negb inside && is_space c then compact inside r else c :: compact inside r
      end
  end.

Definition key_before (a b : string * chars) : Prop := String.leb (fst a) (fst b) = true.
#[export] Instance key_before_dec a b : Decision (key_before a b).
Proof. unfold key_before. apply _. Defined.

Fixpoint join_members (l : list (string * chars)) : chars :=
  match l with
  | [] => []
  | [(k, v)] => quoted k ++ ":"%char :: compact false v
  | (k, v) :: r => quoted k ++ ":"%char :: compact false v ++ ","%char :: join_members r
  end.
(** [json.Marshal] of the map. *)
Definition marshal_map (m : gmap string chars) : chars :=
  "{"%char :: join_members (merge_sort key_before (map_to_list m)) ++ ["}"%char].

(** ** Tokens *)
Inductive token :=
  | TDelim (c : ascii)
  | TString (s : string)
  | TBool (b : bool)
  | TNumber (literal : json)
  | TNull.

Inductive token_state :=
  | TopValue | ArrayStart | ArrayValue | ArrayComma
  | ObjectStart | ObjectKey | ObjectColon | ObjectValue | ObjectComma.
Record Decoder := mkDecoder { d_rest : chars; d_state : token_state; d_stack : list token_state }.
Definition NewDecoder (l : chars) : Decoder := mkDecoder l TopValue [].

Definition tokenValueAllowed (s : token_state) : bool :=
  match s with TopValue | ArrayStart | ArrayValue | ObjectValue => true | _ => false end.
Definition tokenValueEnd (s : token_state) : token_state :=
  match s with ArrayStart | ArrayValue => ArrayComma | ObjectValue => ObjectComma | s => s end.

Definition open_bracket (c : ascii) (inner : token_state) (d : Decoder) (r : chars) : option (token * Decoder) :=
  if tokenValueAllowed (d_state d) then Some (TDelim c, mkDecoder r inner (d_state d :: d_stack d)) else None.
Definition close_bracket (c : ascii) (ok : bool) (d : Decoder) (r : chars) : option (token * Decoder) :=
  match ok, d_stack d with
  | true, s :: rest => Some (TDelim c, mkDecoder r (tokenValueEnd s) rest)
  | _, _ => None
  end.
Definition scalar_token (j : json) : token :=
  match j with JStr s => TString s | JBool b => TBool b | JNull => TNull | j => TNumber j end.

(** The next token; a failed decoder fails again, at the same character. *)
Definition value_token (d : Decoder) : option (token * Decoder) :=
  match skip_space (d_rest d) with
  | [] => None
  | (c :: r) as l =>
    match c with
    | "["%char => open_bracket c ArrayStart d r
    | "{"%char => open_bracket c ObjectStart d r
    | "]"%char => close_bracket c (match d_state d with ArrayStart | ArrayComma => true | _ => false end) d r
    | "}"%char => close_bracket c (match d_state d with ObjectStart | ObjectComma => true | _ => false end) d r
    | _ =>
      match d_state d, scalar l with
      | ObjectStart, Some (JStr s, t) | ObjectKey, Some (JStr s, t) =>
        Some (TString s, mkDecoder t ObjectColon (d_stack d))
      | s, Some (j, t) =>
        if tokenValueAllowed s then Some (scalar_token j, mkDecoder t (tokenValueEnd s) (d_stack d)) else None
      | _, None => None
      end
    end
  end.
(** One separator may stand before it; after a separator the state allows no other. *)
Definition Token (d : Decoder) : option (token * Decoder) :=
  match skip_space (d_rest d), d_state d with
  | ":"%char :: r, ObjectColon => value_token (mkDecoder r ObjectValue (d_stack d))
  | ","%char :: r, ArrayComma => value_token (mkDecoder r ArrayValue (d_stack d))
  | ","%char :: r, ObjectComma => value_token (mkDecoder r ObjectKey (d_stack d))
  | _, _ => value_token d
  end.
