(* ===== verification/Base64.v ===== *)
(** * encoding/base64: the standard encoding

    [StdEncoding.EncodeToString] and [DecodeString]: newlines are skipped, padding
    is required, the unused bits of the last character are not looked at. *)
From Stdlib Require Import ZArith Lia Strings.Ascii Strings.String.
From stdpp Require Import base list strings.
From S2P Require Import Prelude Sha256 Base58 GoText.

Open Scope Z_scope.

Definition std_alphabet : string := "ABCDEFGHIJKLMNOPQRSTUVWXYZabcdefghijklmnopqrstuvwxyz0123456789+/".
Definition std_char (d : Z) : ascii := nth (Z.to_nat d) (chars_of std_alphabet) "A"%char.
Definition std_value (c : ascii) : option Z :=
  let z := ascii_Z c in
  if (65 <=? z) && (z <=? 90) then Some (z - 65)
  else if (97 <=? z) && (z <=? 122) then Some (z - 71)
  else if (48 <=? z) && (z <=? 57) then Some (z + 4)
  else if z =? 43 then Some 62
  else if z =? 47 then Some 63
  else None.

(** Three bytes as four digits. *)
Definition digits4 (n : Z) : chars :=
  [std_char (n / 262144); std_char (n / 4096 mod 64); std_char (n / 64 mod 64); std_char (n mod 64)].

Fixpoint std_encode (l : bytes) : chars :=
  match l with
  | a :: b :: c :: r => digits4 (Zbyte a * 65536 + Zbyte b * 256 + Zbyte c) ++ std_encode r
  | [a; b] => take 3 (digits4 (Zbyte a * 65536 + Zbyte b * 256)) ++ ["="%char]
  | [a] => take 2 (digits4 (Zbyte a * 65536)) ++ ["="%char; "="%char]
  | [] => []
  end.
Definition EncodeToString (l : bytes) : string := text_of (std_encode l).

Definition corrupt : err := Errorf "illegal base64 data at input byte".

Definition value4 (a b c d : Z) : Z := a * 262144 + b * 4096 + c * 64 + d.
Definition byte_at (n k : Z) : Byte.byte := byteZ (n / k mod 256).

Fixpoint std_decode (l : chars) : res bytes :=
  match l with
  | [] => Ok []
  | a :: b :: c :: d :: r =>
    match std_value a, std_value b with
    | Some va, Some vb =>
      if Ascii.eqb c "=" then
        if Ascii.eqb d "=" && bool_decide (r = [])
        then Ok [byte_at (value4 va vb 0 0) 65536] else Err corrupt
      else
        match std_value c with
        | None => Err corrupt
        | Some vc =>
          if Ascii.eqb d "=" then
            if bool_decide (r = [])
            then Ok [byte_at (value4 va vb vc 0) 65536; byte_at (value4 va vb vc 0) 256] else Err corrupt
          else
            match std_value d, std_decode r with
            | Some vd, Ok rest =>
              let n := value4 va vb vc vd in
              Ok (byte_at n 65536 :: byte_at n 256 :: byte_at n 1 :: rest)
            | _, _ => Err corrupt
            end
        end
    | _, _ => Err corrupt
    end
  | _ => Err corrupt
  end.
Definition is_newline (c : ascii) : bool := Ascii.eqb c "010" || Ascii.eqb c "013".
Definition DecodeString (s : string) : res bytes :=
  std_decode (filter (fun c => is_newline c = false) (chars_of s)).

Example encode_ex : EncodeToString (bytes_of_string "Man!") = "TWFuIQ=="%string.
Proof. reflexivity. Qed.
Example decode_ex : DecodeString "TWFuIQ==" = Ok (bytes_of_string "Man!").
Proof. reflexivity. Qed.

(** ** Round trip *)
Definition alphabet_table : bool :=
  forallb (fun d => let c := std_char (Z.of_nat d) in
    bool_decide (std_value c = Some (Z.of_nat d)) && negb (Ascii.eqb c "=") && negb (is_newline c))
    (seq 0 64).

Lemma std_char_value d : 0 <= d < 64 ->
  std_value (std_char d) = Some d /\ Ascii.eqb (std_char d) "=" = false /\ is_newline (std_char d) = false.
Proof.
  intros Hd. assert (H : alphabet_table = true) by reflexivity.
  unfold alphabet_table in H. rewrite forallb_forall in H.
  specialize (H (Z.to_nat d)). rewrite Z2Nat.id in H by lia.
  assert (Hin : In (Z.to_nat d) (seq 0 64)) by (apply in_seq; lia).
  specialize (H Hin). cbv zeta in H. rewrite !andb_true_iff, !negb_true_iff in H.
  destruct H as [[H1 H2] H3]. by apply bool_decide_eq_true in H1.
Qed.

Lemma digits4_bounds n : 0 <= n < 16777216 ->
  0 <= n / 262144 < 64 /\ 0 <= n / 4096 mod 64 < 64 /\ 0 <= n / 64 mod 64 < 64 /\ 0 <= n mod 64 < 64.
Proof.
  intros. repeat split; try (apply Z.mod_pos_bound; lia); try (apply Z.div_pos; lia).
  apply Z.div_lt_upper_bound; lia.
Qed.
Lemma value4_digits n : 0 <= n < 16777216 ->
  value4 (n / 262144) (n / 4096 mod 64) (n / 64 mod 64) (n mod 64) = n.
Proof. intros. unfold value4. Z.to_euclidean_division_equations. lia. Qed.

Lemma value4_pad a b : 0 <= a -> 0 <= b ->
  let n := a * 65536 + b * 256 in value4 (n / 262144) (n / 4096 mod 64) (n / 64 mod 64) 0 = n.
Proof. intros. unfold value4, n. Z.to_euclidean_division_equations. lia. Qed.
Lemma value4_short a : let n := a * 65536 in value4 (n / 262144) (n / 4096 mod 64) 0 0 = n.
Proof. unfold value4. Z.to_euclidean_division_equations. lia. Qed.

Section Bytes.
Context (a b c : Byte.byte).
Let n := Zbyte a * 65536 + Zbyte b * 256 + Zbyte c.

Lemma group_range : 0 <= n < 16777216.
Proof. pose proof (Zbyte_range a); pose proof (Zbyte_range b); pose proof (Zbyte_range c). unfold n. lia. Qed.
Lemma group_bytes : byte_at n 65536 = a /\ byte_at n 256 = b /\ byte_at n 1 = c.
Proof.
  pose proof (Zbyte_range a); pose proof (Zbyte_range b); pose proof (Zbyte_range c).
  unfold byte_at, n. repeat split; rewrite <- byteZ_Zbyte; f_equal; Z.to_euclidean_division_equations; lia.
Qed.
End Bytes.

Definition nul : Byte.byte := Byte.x00.
Lemma zero_byte : Zbyte nul = 0.
Proof. reflexivity. Qed.

(** Induction three bytes at a time. *)
Lemma bytes_ind3 (P : bytes -> Prop) :
  P [] -> (forall a, P [a]) -> (forall a b, P [a; b]) ->
  (forall a b c r, P r -> P (a :: b :: c :: r)) -> forall l, P l.
Proof.
  intros H0 H1 H2 H3. fix IH 1. intros [|a [|b [|c r]]]; [done|apply H1|apply H2|]. apply H3, IH.
Qed.

Ltac decode_group H :=
  let q := fresh in pose proof (digits4_bounds _ H) as q; destruct q as (? & ? & ? & ?);
  cbn [std_decode digits4 take app];
  repeat match goal with
  | Hd : 0 <= ?d < 64 |- context [std_value (std_char ?d)] =>
      rewrite (proj1 (std_char_value d Hd))
  | Hd : 0 <= ?d < 64 |- context [Ascii.eqb (std_char ?d) "="] =>
      rewrite (proj1 (proj2 (std_char_value d Hd)))
  end.

Lemma std_decode_encode l : std_decode (std_encode l) = Ok l.
Proof.
  induction l as [|a|a b|a b c r IH] using bytes_ind3; [done| | |]; cbn [std_encode].
  - pose proof (group_range a nul nul) as H. rewrite zero_byte, !Z.add_0_r in H.
    decode_group H. cbn [Ascii.eqb Bool.eqb andb]. rewrite bool_decide_true by done. rewrite value4_short by lia.
    destruct (group_bytes a nul nul) as (Ha & _). rewrite zero_byte, !Z.add_0_r in Ha. by rewrite Ha.
  - pose proof (group_range a b nul) as H. rewrite zero_byte, !Z.add_0_r in H.
    decode_group H. cbn [Ascii.eqb Bool.eqb andb]. rewrite bool_decide_true by done.
    rewrite value4_pad by (pose proof (Zbyte_range a); pose proof (Zbyte_range b); lia).
    destruct (group_bytes a b nul) as (Ha & Hb & _). rewrite zero_byte, !Z.add_0_r in Ha, Hb. by rewrite Ha, Hb.
  - pose proof (group_range a b c) as H. decode_group H. rewrite IH. cbv zeta.
    rewrite value4_digits by done. by destruct (group_bytes a b c) as (-> & -> & ->).
Qed.

Lemma std_encode_plain l : filter (fun c => is_newline c = false) (std_encode l) = std_encode l.
Proof.
  assert (Hd : forall n, 0 <= n < 16777216 -> Forall (fun c => is_newline c = false) (digits4 n)).
  { intros n H. destruct (digits4_bounds n H) as (? & ? & ? & ?).
    repeat constructor; apply std_char_value; done. }
  assert (Hall : Forall (fun c => is_newline c = false) (std_encode l)).
  { induction l as [|a|a b|a b c r IH] using bytes_ind3; cbn [std_encode].
    - constructor.
    - apply Forall_app; split; [apply Forall_take, Hd|by repeat constructor].
      pose proof (Zbyte_range a). lia.
    - apply Forall_app; split; [apply Forall_take, Hd|by repeat constructor].
      pose proof (Zbyte_range a); pose proof (Zbyte_range b). lia.
    - apply Forall_app; split; [apply Hd, group_range|done]. }
  induction Hall as [|c l' Hc _ IH]; [done|]. rewrite filter_cons, decide_True by done. by rewrite IH.
Qed.

Lemma decode_encode64 l : DecodeString (EncodeToString l) = Ok l.
Proof. unfold DecodeString, EncodeToString. rewrite chars_text, std_encode_plain. apply std_decode_encode. Qed.

Lemma encode64_nonempty l : l <> [] -> EncodeToString l <> ""%string.
Proof.
  intros Hl H. apply (f_equal chars_of) in H. unfold EncodeToString in H. rewrite chars_text in H.
  destruct l as [|a [|b [|c r]]]; done.
Qed.

(** * encoding/base64: [RawURLEncoding]

    The alphabet with - and _ in place of + and /, without padding. *)
Definition url_char (c : ascii) : ascii :=
  if Ascii.eqb c "+" then "-"%char else if Ascii.eqb c "/" then "_"%char else c.
Definition RawURL_EncodeToString (l : bytes) : string :=
  text_of (map url_char (List.filter (fun c => negb (Ascii.eqb c "=")) (std_encode l))).

Definition std_of_url (c : ascii) : ascii :=
  if Ascii.eqb c "-" then "+"%char else if Ascii.eqb c "_" then "/"%char else c.
Definition foreign (c : ascii) : bool := (Ascii.eqb c "+" || Ascii.eqb c "/" || Ascii.eqb c "=")%char.
Definition padding (n : nat) : option chars :=
  match (n mod 4)%nat with 0%nat => Some [] | 2%nat => Some ["="; "="]%char | 3%nat => Some ["="]%char | _ => None end.
Definition RawURL_DecodeString (s : string) : res bytes :=
  let l := filter (fun c => is_newline c = false) (chars_of s) in
  if existsb foreign l then Err corrupt
  else match padding (length l) with
       | Some p => std_decode (map std_of_url l ++ p)
       | None => Err corrupt
       end.

Example raw_url_ex : RawURL_DecodeString (RawURL_EncodeToString [Byte.xfb; Byte.xff; Byte.xfe; Byte.x00]) =
  Ok [Byte.xfb; Byte.xff; Byte.xfe; Byte.x00] /\ RawURL_DecodeString "TWFuIQ==" = Err corrupt /\
  RawURL_DecodeString "TWFuIQ" = Ok (bytes_of_string "Man!").
Proof. repeat split. Qed.

(** ** Round trip *)
Definition alphabetic (c : ascii) : Prop := is_Some (std_value c) /\ c <> "="%char /\ is_newline c = false.

Lemma std_char_alphabetic d : 0 <= d < 64 -> alphabetic (std_char d).
Proof.
  intros Hd. destruct (std_char_value d Hd) as (H1 & H2 & H3). split; [by eexists|].
  split; [by apply Ascii.eqb_neq|done].
Qed.
Lemma digits4_alphabetic n : 0 <= n < 16777216 -> Forall alphabetic (digits4 n).
Proof.
  intros H. destruct (digits4_bounds n H) as (? & ? & ? & ?).
  apply Forall_forall. intros c. unfold digits4. rewrite !elem_of_cons.
  intros [->|[->|[->|[->|Hc]]]]; [by apply std_char_alphabetic..|by apply not_elem_of_nil in Hc].
Qed.

(** Whole groups, and a last one of two or three digits with its padding. *)
Lemma std_encode_shape l : exists p k, std_encode l = p ++ k /\ Forall alphabetic p /\
  Forall (fun c => c = "="%char) k /\ padding (length p) = Some k.
Proof.
  induction l as [|a|a b|a b c r IH] using bytes_ind3; cbn [std_encode].
  - exists [], []. repeat split; constructor.
  - exists (take 2 (digits4 (Zbyte a * 65536))), ["="; "="]%char.
    split; [done|]. split; [apply Forall_take, digits4_alphabetic; pose proof (Zbyte_range a); lia|].
    by repeat constructor.
  - exists (take 3 (digits4 (Zbyte a * 65536 + Zbyte b * 256))), ["="]%char.
    split; [done|]. split; [apply Forall_take, digits4_alphabetic; pose proof (Zbyte_range a); pose proof (Zbyte_range b); lia|].
    by repeat constructor.
  - destruct IH as (p & k & -> & Hp & Hk & Hpad). exists (digits4 (Zbyte a * 65536 + Zbyte b * 256 + Zbyte c) ++ p), k.
    rewrite app_assoc. split; [done|]. split; [apply Forall_app; split; [apply digits4_alphabetic, group_range|done]|].
    split; [done|]. rewrite <- Hpad. unfold padding. rewrite length_app. cbn [length digits4].
    replace (4 + length p)%nat with (length p + 1 * 4)%nat by lia. by rewrite Nat.Div0.mod_add.
Qed.

Lemma url_alphabetic c : alphabetic c ->
  std_of_url (url_char c) = c /\ foreign (url_char c) = false /\ is_newline (url_char c) = false.
Proof.
  intros ([v Hv] & Hne & Hnl). unfold url_char.
  destruct (Ascii.eqb_spec c "+"); [by subst|]. destruct (Ascii.eqb_spec c "/"); [by subst|].
  unfold std_of_url, foreign. destruct (Ascii.eqb_spec c "-"); [by subst|]. destruct (Ascii.eqb_spec c "_"); [by subst|].
  rewrite (proj2 (Ascii.eqb_neq c "+")), (proj2 (Ascii.eqb_neq c "/")), (proj2 (Ascii.eqb_neq c "=")) by done. done.
Qed.

Lemma raw_url_round_trip l : RawURL_DecodeString (RawURL_EncodeToString l) = Ok l.
Proof.
  pose proof (std_decode_encode l) as Hd.
  destruct (std_encode_shape l) as (p & k & He & Hp & Hk & Hpad).
  unfold RawURL_DecodeString, RawURL_EncodeToString. rewrite chars_text, He in *.
  assert (Hf : List.filter (fun c => negb (Ascii.eqb c "=")) (p ++ k) = p).
  { clear -Hp Hk. induction Hp as [|c p (_ & Hc & _) _ IH]; simpl.
    - by induction Hk as [|c k -> _ IH].
    - apply Ascii.eqb_neq in Hc. by rewrite Hc, IH. }
  rewrite Hf.
  assert (Hm : filter (fun c => is_newline c = false) (map url_char p) = map url_char p /\
    existsb foreign (map url_char p) = false /\ map std_of_url (map url_char p) = p).
  { clear -Hp. induction Hp as [|c p Hc _ (IH1 & IH2 & IH3)]; [done|].
    destruct (url_alphabetic c Hc) as (H1 & H2 & H3). cbn [map existsb].
    rewrite filter_cons_True by done. by rewrite IH1, IH2, IH3, H1, H2. }
  destruct Hm as (-> & -> & H3). rewrite length_map, Hpad, H3. exact Hd.
Qed.
