(* ===== verification/Rpc.v ===== *)
(** * internal/solana/rpc.go: the JSON-RPC client

    [post] is the HTTP exchange with the node: what it answers to a method and its
    parameters, as a transport error, a status other than 200, or a body (the JSON
    value in its first MiB, if there is one).  Everything after the exchange is
    modelled, with the response structs and the transfer extraction. *)
From Stdlib Require Import ZArith Lia Strings.Ascii Strings.String.
From stdpp Require Import base list strings.
From S2P Require Import Prelude Sha256 Base58 GoText Solana Json Base64.

Open Scope Z_scope.
Local Open Scope go_scope.

Inductive response :=
  | TransportError (e : err)
  | Status (code : Z)
  | Body (j : option json).

(** ** The envelope *)
Record rpcError := mkRpcError { re_Code : Z; re_Message : string }.
Record envelope := mkEnvelope { ev_Result : option json; ev_Error : option rpcError }.
Definition zeroRpcError := mkRpcError 0 "".
Definition dec_rpcError : decoder rpcError := dec_struct [
  fld "code" re_Code (fun v x => mkRpcError v (re_Message x)) dec_int64;
  fld "message" re_Message (fun v x => mkRpcError (re_Code x) v) dec_string].
Definition dec_envelope : decoder envelope := dec_struct [
  fld "result" ev_Result (fun v x => mkEnvelope v (ev_Error x)) dec_raw;
  fld "error" ev_Error (fun v x => mkEnvelope (ev_Result x) v) (dec_ptr zeroRpcError dec_rpcError)].

(** [call]: the outcome for a target whose value before is [zero]. *)
Definition call {A} (d : decoder A) (zero : A) (r : response) : res A :=
  match r with
  | TransportError e => Err (Wrapf "solana rpc: %s: %w" e)
  | Status _ => Err (Errorf "solana rpc: %s status %d")
  | Body None => Err (Wrapf "solana rpc: decode %s: %w" (Errorf "invalid JSON"))
  | Body (Some j) =>
    match dec_envelope (mkEnvelope None None) j with
    | Err e => Err (Wrapf "solana rpc: decode %s: %w" e)
    | Ok env =>
      match ev_Error env, ev_Result env with
      | Some _, _ => Err (Errorf "solana rpc: %s error (%d): %s")
      | None, None | None, Some JNull => Ok zero
      | None, Some raw =>
        match d zero raw with
        | Err e => Err (Wrapf "solana rpc: unmarshal %s: %w" e)
        | Ok a => Ok a
        end
      end
    end
  end.

(** ** Signatures *)
Record SignatureInfo := mkSigInfo {
  si_Signature : string; si_Slot : Z; si_Err : option json; si_ConfirmationStatus : string }.
Definition zeroSigInfo := mkSigInfo "" 0 None "".
Definition dec_SignatureInfo : decoder SignatureInfo := dec_struct [
  fld "signature" si_Signature
    (fun v x => mkSigInfo v (si_Slot x) (si_Err x) (si_ConfirmationStatus x)) dec_string;
  fld "slot" si_Slot
    (fun v x => mkSigInfo (si_Signature x) v (si_Err x) (si_ConfirmationStatus x)) dec_int64;
  fld "err" si_Err
    (fun v x => mkSigInfo (si_Signature x) (si_Slot x) v (si_ConfirmationStatus x)) dec_raw_ptr;
  fld "confirmationStatus" si_ConfirmationStatus
    (fun v x => mkSigInfo (si_Signature x) (si_Slot x) (si_Err x) v) dec_string].

Record txErr := mkTxErr { te_Ok : option json; te_Err : option json }.
Record SignatureStatusValue := mkSigStatus {
  sv_Slot : Z; sv_Confirmations : option Z; sv_Status : txErr; sv_ConfirmationStatus : string }.
Definition zeroSigStatus := mkSigStatus 0 None (mkTxErr None None) "".
Definition dec_txErr : decoder txErr := dec_struct [
  fld "Ok" te_Ok (fun v x => mkTxErr v (te_Err x)) dec_raw;
  fld "Err" te_Err (fun v x => mkTxErr (te_Ok x) v) dec_raw].
Definition dec_SignatureStatusValue : decoder SignatureStatusValue := dec_struct [
  fld "slot" sv_Slot
    (fun v x => mkSigStatus v (sv_Confirmations x) (sv_Status x) (sv_ConfirmationStatus x)) dec_int64;
  fld "confirmations" sv_Confirmations
    (fun v x => mkSigStatus (sv_Slot x) v (sv_Status x) (sv_ConfirmationStatus x)) (dec_ptr 0 dec_int64);
  fld "status" sv_Status
    (fun v x => mkSigStatus (sv_Slot x) (sv_Confirmations x) v (sv_ConfirmationStatus x)) dec_txErr;
  fld "confirmationStatus" sv_ConfirmationStatus
    (fun v x => mkSigStatus (sv_Slot x) (sv_Confirmations x) (sv_Status x) v) dec_string].

Definition has_err (s : SignatureStatusValue) : bool :=
  match te_Err (sv_Status s) with Some _ => true | None => false end.
Definition Finalized (s : SignatureStatusValue) : bool :=
  String.eqb (sv_ConfirmationStatus s) "finalized" && negb (has_err s).

(** ** Transactions *)
Record ParsedInfo := mkParsedInfo { pi_Type : string; pi_Info : option json }.
Record ParsedIx := mkParsedIx {
  px_ProgramID : string; px_Parsed : option ParsedInfo; px_Data : string; px_Accounts : list string }.
Record ParsedMessage := mkParsedMessage { pm_AccountKeys : list string; pm_Instructions : list ParsedIx }.
Record InnerInstructionGroup := mkInner { ig_Index : Z; ig_Instructions : list ParsedIx }.
Record TokenBalance := mkTokenBalance { tb_AccountIndex : Z; tb_Mint : string; tb_Owner : string }.
Record LoadedAddresses := mkLoaded { la_Writable : list string; la_Readonly : list string }.
Record ParsedMeta := mkParsedMeta {
  mt_Err : option json; mt_PreTokenBalances : list TokenBalance; mt_LoadedAddresses : LoadedAddresses;
  mt_InnerInstructions : list InnerInstructionGroup }.
Record ConfirmedTransaction := mkTransaction {
  ct_Slot : Z; ct_Transaction : ParsedMessage; ct_Meta : option ParsedMeta }.

Definition zeroParsedInfo := mkParsedInfo "" None.
Definition zeroParsedIx := mkParsedIx "" None "" [].
Definition zeroInner := mkInner 0 [].
Definition zeroTokenBalance := mkTokenBalance 0 "" "".
Definition zeroParsedMeta := mkParsedMeta None [] (mkLoaded [] []) [].
Definition zeroTransaction := mkTransaction 0 (mkParsedMessage [] []) None.

Definition dec_strings : decoder (list string) := dec_slice ""%string dec_string.
Definition dec_ParsedInfo : decoder ParsedInfo := dec_struct [
  fld "type" pi_Type (fun v x => mkParsedInfo v (pi_Info x)) dec_string;
  fld "info" pi_Info (fun v x => mkParsedInfo (pi_Type x) v) dec_raw].
Definition dec_ParsedIx : decoder ParsedIx := dec_struct [
  fld "programId" px_ProgramID (fun v x => mkParsedIx v (px_Parsed x) (px_Data x) (px_Accounts x)) dec_string;
  fld "parsed" px_Parsed (fun v x => mkParsedIx (px_ProgramID x) v (px_Data x) (px_Accounts x))
    (dec_ptr zeroParsedInfo dec_ParsedInfo);
  fld "data" px_Data (fun v x => mkParsedIx (px_ProgramID x) (px_Parsed x) v (px_Accounts x)) dec_string;
  fld "accounts" px_Accounts (fun v x => mkParsedIx (px_ProgramID x) (px_Parsed x) (px_Data x) v) dec_strings].
Definition dec_ParsedMessage : decoder ParsedMessage := dec_struct [
  fld "accountKeys" pm_AccountKeys (fun v x => mkParsedMessage v (pm_Instructions x)) dec_strings;
  fld "instructions" pm_Instructions (fun v x => mkParsedMessage (pm_AccountKeys x) v)
    (dec_slice zeroParsedIx dec_ParsedIx)].
Definition dec_Inner : decoder InnerInstructionGroup := dec_struct [
  fld "index" ig_Index (fun v x => mkInner v (ig_Instructions x)) dec_int64;
  fld "instructions" ig_Instructions (fun v x => mkInner (ig_Index x) v) (dec_slice zeroParsedIx dec_ParsedIx)].
Definition dec_TokenBalance : decoder TokenBalance := dec_struct [
  fld "accountIndex" tb_AccountIndex (fun v x => mkTokenBalance v (tb_Mint x) (tb_Owner x)) dec_int64;
  fld "mint" tb_Mint (fun v x => mkTokenBalance (tb_AccountIndex x) v (tb_Owner x)) dec_string;
  fld "owner" tb_Owner (fun v x => mkTokenBalance (tb_AccountIndex x) (tb_Mint x) v) dec_string].
Definition dec_Loaded : decoder LoadedAddresses := dec_struct [
  fld "writable" la_Writable (fun v x => mkLoaded v (la_Readonly x)) dec_strings;
  fld "readonly" la_Readonly (fun v x => mkLoaded (la_Writable x) v) dec_strings].
Definition dec_ParsedMeta : decoder ParsedMeta := dec_struct [
  fld "err" mt_Err
    (fun v x => mkParsedMeta v (mt_PreTokenBalances x) (mt_LoadedAddresses x) (mt_InnerInstructions x)) dec_raw_ptr;
  fld "preTokenBalances" mt_PreTokenBalances
    (fun v x => mkParsedMeta (mt_Err x) v (mt_LoadedAddresses x) (mt_InnerInstructions x))
    (dec_slice zeroTokenBalance dec_TokenBalance);
  fld "loadedAddresses" mt_LoadedAddresses
    (fun v x => mkParsedMeta (mt_Err x) (mt_PreTokenBalances x) v (mt_InnerInstructions x)) dec_Loaded;
  fld "innerInstructions" mt_InnerInstructions
    (fun v x => mkParsedMeta (mt_Err x) (mt_PreTokenBalances x) (mt_LoadedAddresses x) v)
    (dec_slice zeroInner dec_Inner)].
Definition dec_ConfirmedTransaction : decoder ConfirmedTransaction := dec_struct [
  fld "slot" ct_Slot (fun v x => mkTransaction v (ct_Transaction x) (ct_Meta x)) dec_int64;
  fld "transaction" ct_Transaction (fun v x => mkTransaction (ct_Slot x) v (ct_Meta x)) dec_ParsedMessage;
  fld "meta" ct_Meta (fun v x => mkTransaction (ct_Slot x) (ct_Transaction x) v)
    (dec_ptr zeroParsedMeta dec_ParsedMeta)].

(** A function that may panic: [None]. *)
Definition fullAccountKeys (t : ConfirmedTransaction) : option (list string) :=
  match ct_Meta t with
  | None => None   (* len(t.Meta.LoadedAddresses.Writable) dereferences nil *)
  | Some m => Some (pm_AccountKeys (ct_Transaction t) ++ la_Writable (mt_LoadedAddresses m) ++
                    la_Readonly (mt_LoadedAddresses m))
  end.

Record TokenTransfer := mkTransfer {
  tt_InstructionIndex : Z; tt_Source : string; tt_Destination : string; tt_Authority : string;
  tt_AmountRaw : Z }.

Record tokenTransferInfo := mkTransferInfo {
  tf_Source : string; tf_Destination : string; tf_Authority : string; tf_Amount : string }.
Record tokenTransferCheckedInfo := mkCheckedInfo {
  tc_Source : string; tc_Destination : string; tc_Authority : string; tc_Mint : string; tc_Amount : string }.
Definition dec_tokenTransferInfo : decoder tokenTransferInfo := dec_struct [
  fld "source" tf_Source
    (fun v x => mkTransferInfo v (tf_Destination x) (tf_Authority x) (tf_Amount x)) dec_string;
  fld "destination" tf_Destination
    (fun v x => mkTransferInfo (tf_Source x) v (tf_Authority x) (tf_Amount x)) dec_string;
  fld "authority" tf_Authority
    (fun v x => mkTransferInfo (tf_Source x) (tf_Destination x) v (tf_Amount x)) dec_string;
  fld "amount" tf_Amount
    (fun v x => mkTransferInfo (tf_Source x) (tf_Destination x) (tf_Authority x) v) dec_string].
Definition dec_tokenAmount : decoder string :=
  dec_struct [fld "amount" (fun x => x) (fun v _ => v) dec_string].
Definition dec_tokenTransferCheckedInfo : decoder tokenTransferCheckedInfo := dec_struct [
  fld "source" tc_Source
    (fun v x => mkCheckedInfo v (tc_Destination x) (tc_Authority x) (tc_Mint x) (tc_Amount x)) dec_string;
  fld "destination" tc_Destination
    (fun v x => mkCheckedInfo (tc_Source x) v (tc_Authority x) (tc_Mint x) (tc_Amount x)) dec_string;
  fld "authority" tc_Authority
    (fun v x => mkCheckedInfo (tc_Source x) (tc_Destination x) v (tc_Mint x) (tc_Amount x)) dec_string;
  fld "mint" tc_Mint
    (fun v x => mkCheckedInfo (tc_Source x) (tc_Destination x) (tc_Authority x) v (tc_Amount x)) dec_string;
  fld "tokenAmount" tc_Amount
    (fun v x => mkCheckedInfo (tc_Source x) (tc_Destination x) (tc_Authority x) (tc_Mint x) v) dec_tokenAmount].

(** What an instruction says it transfers, if it is a transfer of the mint. *)
Definition transferInfo (p : ParsedInfo) (mint : string) : option tokenTransferInfo :=
  if String.eqb (pi_Type p) "transfer" then
    match Unmarshal dec_tokenTransferInfo (mkTransferInfo "" "" "" "") (pi_Info p) with
    | Ok info => Some info
    | Err _ => None
    end
  else if String.eqb (pi_Type p) "transferChecked" then
    match Unmarshal dec_tokenTransferCheckedInfo (mkCheckedInfo "" "" "" "" "") (pi_Info p) with
    | Ok c => if negb (String.eqb mint "") && negb (String.eqb (tc_Mint c) mint) then None
              else Some (mkTransferInfo (tc_Source c) (tc_Destination c) (tc_Authority c) (tc_Amount c))
    | Err _ => None
    end
  else None.

Definition appendTransfers (out : list TokenTransfer) (outerIdx innerIdx : Z) (ix : ParsedIx)
    (mint tokenProgram : string) : list TokenTransfer :=
  match px_Parsed ix with
  | None => out
  | Some p =>
    if negb (String.eqb tokenProgram "") && negb (String.eqb (px_ProgramID ix) tokenProgram) then out
    else
      match transferInfo p mint with
      | None => out
      | Some info =>
        if String.eqb (tf_Source info) "" || String.eqb (tf_Destination info) "" then out
        else
          match ParseInt (tf_Amount info) with
          | Err _ => out
          | Ok amount =>
            if amount <=? 0 then out
            else out ++ [mkTransfer (Z.lor (i64 (Z.shiftl outerIdx 32)) innerIdx) (tf_Source info)
                           (tf_Destination info) (tf_Authority info) amount]
          end
      end
  end.

(** The transfers of an inner group, from its position [j]. *)
Fixpoint innerTransfers (out : list TokenTransfer) (i j : Z) (l : list ParsedIx)
    (mint tokenProgram : string) : list TokenTransfer :=
  match l with
  | [] => out
  | ix :: r => innerTransfers (appendTransfers out i (j + 1) ix mint tokenProgram) i (j + 1) r mint tokenProgram
  end.
Definition groupTransfers (out : list TokenTransfer) (i : Z) (groups : list InnerInstructionGroup)
    (mint tokenProgram : string) : list TokenTransfer :=
  fold_left (fun out g => if negb (ig_Index g =? i) then out
                          else innerTransfers out i 0 (ig_Instructions g) mint tokenProgram) groups out.
Fixpoint outerTransfers (out : list TokenTransfer) (i : Z) (l : list ParsedIx) (meta : option ParsedMeta)
    (mint tokenProgram : string) : list TokenTransfer :=
  match l with
  | [] => out
  | ix :: r =>
    let out := appendTransfers out i 0 ix mint tokenProgram in
    let out := match meta with
      | None => out
      | Some m => groupTransfers out i (mt_InnerInstructions m) mint tokenProgram
      end in
    outerTransfers out (i + 1) r meta mint tokenProgram
  end.
Definition TokenTransfers (t : ConfirmedTransaction) (mint tokenProgram : string) : list TokenTransfer :=
  outerTransfers [] 0 (pm_Instructions (ct_Transaction t)) (ct_Meta t) mint tokenProgram.

(** The index of the first key equal to [k], -1 without one. *)
Fixpoint key_index (k : string) (l : list string) (i : Z) : Z :=
  match l with [] => -1 | x :: r => if String.eqb x k then i else key_index k r (i + 1) end.

(** [None] when it panics. *)
Definition SenderWallet (t : ConfirmedTransaction) (sourceATA fallbackAuthority : string) : option string :=
  match fullAccountKeys t, ct_Meta t with
  | Some keys, Some m =>
    let idx := key_index sourceATA keys 0 in
    match find (fun b => (idx >=? 0) && (tb_AccountIndex b =? idx) && negb (String.eqb (tb_Owner b) ""))
            (mt_PreTokenBalances m) with
    | Some b => Some (tb_Owner b)
    | None => Some fallbackAuthority
    end
  | _, _ => None
  end.

(** ** The methods *)
Section Client.
Context {N : Type} (post : string -> list json -> N -> response * N).

(** The response of a method that names its own error member. *)
Record nested (A : Type) := mkNested { ns_Result : A; ns_Error : option rpcError }.
Arguments mkNested {A} ns_Result ns_Error.
Arguments ns_Result {A} n.
Arguments ns_Error {A} n.
Definition dec_nested {A} (d : decoder A) : decoder (nested A) := dec_struct [
  fld "result" ns_Result (fun v x => mkNested v (ns_Error x)) d;
  fld "error" ns_Error (fun v x => mkNested (ns_Result x) v) (dec_ptr zeroRpcError dec_rpcError)].

Definition exchange {A} (method : string) (params : list json) (k : response -> res A) (n : N) : res A * N :=
  let '(r, n) := post method params n in (k r, n).

Definition opt (name : string) (j : json) : string * json := (name, j).

Definition GetSignaturesForAddress (address : string) (limit : Z) (before commitment : string)
    : N -> res (list SignatureInfo) * N :=
  let commitment := if String.eqb commitment "" then "confirmed"%string else commitment in
  let opts := (if String.eqb before "" then [] else [opt "before" (JStr before)]) ++
    [opt "commitment" (JStr commitment)] ++ (if limit >? 0 then [opt "limit" (JInt limit)] else []) in
  exchange "getSignaturesForAddress" [JStr address; JObj opts]
    (call (dec_slice zeroSigInfo dec_SignatureInfo) []).

(** An entry is nil when the node knows nothing of the signature. *)
Definition GetSignatureStatuses (signatures : list string) (n : N)
    : res (list (option SignatureStatusValue)) * N :=
  match signatures with
  | [] => (Ok [], n)
  | _ => exchange "getSignatureStatuses" [JArr (map JStr signatures)]
           (call (dec_slice None (dec_ptr zeroSigStatus dec_SignatureStatusValue)) []) n
  end.

Definition GetTransaction (signature : string) : N -> res ConfirmedTransaction * N :=
  exchange "getTransaction"
    [JStr signature; JObj [opt "commitment" (JStr "confirmed"); opt "encoding" (JStr "jsonParsed");
                           opt "maxSupportedTransactionVersion" (JInt 0)]]
    (call dec_ConfirmedTransaction zeroTransaction).

Definition inner_error {A B} (r : res (nested A)) (k : A -> res B) : res B :=
  let? out := r in
  match ns_Error out with
  | Some _ => Err (Errorf "solana rpc: %s error (%d): %s")
  | None => k (ns_Result out)
  end.

Record blockhashValue := mkBlockhash { bh_Blockhash : string; bh_LastValidBlockHeight : Z }.
Definition dec_blockhashValue : decoder blockhashValue := dec_struct [
  fld "blockhash" bh_Blockhash (fun v x => mkBlockhash v (bh_LastValidBlockHeight x)) dec_string;
  fld "lastValidBlockHeight" bh_LastValidBlockHeight (fun v x => mkBlockhash (bh_Blockhash x) v) dec_uint64].
(** The struct with the one member [value]. *)
Definition dec_value {A} (d : decoder A) : decoder A :=
  dec_struct [fld "value" (fun x => x) (fun v _ => v) d].

Definition LatestBlockhash : N -> res (bytes * Z) * N :=
  exchange "getLatestBlockhash" [JObj [opt "commitment" (JStr "confirmed")]] (fun r =>
    inner_error (call (dec_nested (dec_value dec_blockhashValue)) (mkNested (mkBlockhash "" 0) None) r)
      (fun v => match DecodeBase58 (bh_Blockhash v) PublicKeyBytes with
                | Ok bh => if Z.of_nat (length bh) =? PublicKeyBytes
                           then Ok (bh, bh_LastValidBlockHeight v)
                           else Err (Errorf "solana rpc: invalid blockhash from rpc")
                | Err _ => Err (Errorf "solana rpc: invalid blockhash from rpc")
                end)).

Definition GetBlockHeight : N -> res Z * N :=
  exchange "getBlockHeight" [JObj [opt "commitment" (JStr "confirmed")]] (fun r =>
    inner_error (call (dec_nested dec_uint64) (mkNested 0 None) r) Ok).

Definition AccountExists (pubkey : string) (n : N) : res bool * N :=
  match DecodeBase58 pubkey PublicKeyBytes with
  | Err e => (Err (Wrapf "solana rpc: account exists: %w" e), n)
  | Ok _ =>
    exchange "getAccountInfo"
      [JStr pubkey; JObj [opt "commitment" (JStr "confirmed");
         opt "dataSlice" (JObj [opt "length" (JInt 0); opt "offset" (JInt 0)]); opt "encoding" (JStr "base58")]]
      (fun r => inner_error (call (dec_nested (dec_value dec_raw_ptr)) (mkNested None None) r)
                  (fun v => Ok (bool_decide (is_Some v)))) n
  end.

(** The delegation of a token account, [None] when the account does not exist. *)
Record TokenDelegate := mkDelegate { td_Delegate : string; td_DelegatedAmountRaw : Z; td_Slot : Z }.
Record delegationInfo := mkDelegation { di_Delegate : option string; di_Amount : option string }.
Definition dec_delegationInfo : decoder delegationInfo := dec_struct [
  fld "delegate" di_Delegate (fun v x => mkDelegation v (di_Amount x)) (dec_ptr ""%string dec_string);
  fld "delegatedAmount" di_Amount (fun v x => mkDelegation (di_Delegate x) v)
    (dec_ptr ""%string dec_tokenAmount)].
Definition dec_member {A} (name : string) (d : decoder A) : decoder A :=
  dec_struct [fld name (fun x => x) (fun v _ => v) d].
Definition dec_parsedTokenAccount : decoder delegationInfo :=
  dec_member "data" (dec_member "parsed" (dec_member "info" dec_delegationInfo)).
Record accountAnswer := mkAccountAnswer { aa_Slot : Z; aa_Value : option delegationInfo }.
Definition dec_accountAnswer : decoder accountAnswer := dec_struct [
  fld "context" aa_Slot (fun v x => mkAccountAnswer v (aa_Value x)) (dec_member "slot" dec_uint64);
  fld "value" aa_Value (fun v x => mkAccountAnswer (aa_Slot x) v)
    (dec_ptr (mkDelegation None None) dec_parsedTokenAccount)].

Definition readDelegation (out : accountAnswer) : res (option TokenDelegate) :=
  match aa_Value out with
  | None => Ok None
  | Some info =>
    let delegate := default ""%string (di_Delegate info) in
    match di_Amount info with
    | None => Ok (Some (mkDelegate delegate 0 (aa_Slot out)))
    | Some amount =>
      match ParseUint amount with
      | Ok n => Ok (Some (mkDelegate delegate n (aa_Slot out)))
      | Err _ => Err (Errorf "solana rpc: token delegation: bad delegatedAmount %q")
      end
    end
  end.

Definition TokenDelegation (ata : string) (n : N) : res (option TokenDelegate) * N :=
  match DecodeBase58 ata PublicKeyBytes with
  | Err e => (Err (Wrapf "solana rpc: token delegation: %w" e), n)
  | Ok _ =>
    exchange "getAccountInfo"
      [JStr ata; JObj [opt "commitment" (JStr "confirmed"); opt "encoding" (JStr "jsonParsed")]]
      (fun r => let? out := call dec_accountAnswer (mkAccountAnswer 0 None) r in readDelegation out) n
  end.

Definition SendTransaction (wire : bytes) : N -> res string * N :=
  exchange "sendTransaction"
    [JStr (EncodeToString wire); JObj [opt "encoding" (JStr "base64"); opt "preflightCommitment" (JStr "confirmed")]]
    (fun r => inner_error (call (dec_nested dec_string) (mkNested ""%string None) r)
      (fun s => if String.eqb s "" then Err (Errorf "solana rpc: sendTransaction returned an empty signature")
                else Ok s)).
End Client.

(** ** What the client makes of the documented answers

    The answers of the Solana JSON-RPC documentation: the result member of each
    method, inside the JSON-RPC 2.0 envelope. *)
Definition answers (result : json) : response :=
  Body (Some (JObj [("jsonrpc"%string, JStr "2.0"); ("result"%string, result); ("id"%string, JInt 1)])).
Definition with_context (slot : Z) (value : json) : json :=
  JObj [("context"%string, JObj [("slot"%string, JInt slot)]); ("value"%string, value)].
Definition documented_transaction (slot : Z) (message signatures meta blockTime version : json) : json :=
  JObj [("slot"%string, JInt slot);
        ("transaction"%string, JObj [("message"%string, message); ("signatures"%string, signatures)]);
        ("meta"%string, meta); ("blockTime"%string, blockTime); ("version"%string, version)].

Record documented {N} (post : string -> list json -> N -> response * N) : Prop := {
  doc_blockhash : forall ps n, exists slot hash height n',
    post "getLatestBlockhash"%string ps n =
      (answers (with_context slot (JObj [("blockhash"%string, JStr hash);
                                         ("lastValidBlockHeight"%string, JInt height)])), n');
  doc_height : forall ps n, exists height n', post "getBlockHeight"%string ps n = (answers (JInt height), n');
  doc_send : forall ps n, exists signature n', post "sendTransaction"%string ps n = (answers (JStr signature), n');
  doc_account : forall ps n, exists slot account n',
    post "getAccountInfo"%string ps n = (answers (with_context slot account), n');
  doc_statuses : forall ps n, exists slot entries n',
    post "getSignatureStatuses"%string ps n = (answers (with_context slot (JArr entries)), n');
  doc_transaction : forall ps n, exists slot message signatures meta blockTime version n',
    post "getTransaction"%string ps n =
      (answers (documented_transaction slot message signatures meta blockTime version), n') }.

Lemma call_answers {A} (d : decoder A) zero result : result <> JNull ->
  call d zero (answers result) =
    match d zero result with
    | Err e => Err (Wrapf "solana rpc: unmarshal %s: %w" e)
    | Ok a => Ok a
    end.
Proof. intros H. unfold call, answers. cbn -[dec_ptr]. by destruct result. Qed.

(** A struct with none of the object's members is left as it was. *)
Lemma dec_none {A} (fs : fields A) (cur : A) l :
  Forall (fun m => find_field fs (fst m) = None) l -> dec_struct fs cur (JObj l) = Ok cur.
Proof. simpl. induction 1 as [|[k j] l Hk _ IH]; [done|]. simpl in *. by rewrite Hk. Qed.

Lemma nested_unread {A} (d : decoder A) (zero : A) slot value :
  dec_nested d (mkNested A zero None) (with_context slot value) = Ok (mkNested A zero None).
Proof. apply dec_none. repeat constructor. Qed.

Lemma transaction_unread slot message signatures meta blockTime version t :
  dec_ConfirmedTransaction zeroTransaction
    (documented_transaction slot message signatures meta blockTime version) = Ok t ->
  pm_Instructions (ct_Transaction t) = [].
Proof.
  unfold dec_ConfirmedTransaction, documented_transaction, dec_struct.
  set (fs := [_; _; _]). cbn [dec_members].
  change (find_field fs "slot") with (Some (snd (nth 0 fs (""%string, fun a _ => Ok a)))).
  change (find_field fs "transaction") with (Some (snd (nth 1 fs (""%string, fun a _ => Ok a)))).
  change (find_field fs "meta") with (Some (snd (nth 2 fs (""%string, fun a _ => Ok a)))).
  change (find_field fs "blockTime") with (@None (decoder ConfirmedTransaction)).
  change (find_field fs "version") with (@None (decoder ConfirmedTransaction)).
  unfold fs. cbn [nth snd fld]. destruct (dec_int64 _ (JInt slot)) as [sl|] eqn:Hs; [|done].
  cbn [res_bind ct_Transaction].
  assert (Hm : dec_ParsedMessage (mkParsedMessage [] [])
    (JObj [("message"%string, message); ("signatures"%string, signatures)]) = Ok (mkParsedMessage [] []))
    by (apply dec_none; repeat constructor).
  unfold zeroTransaction. cbn [ct_Transaction]. rewrite Hm. cbn [res_bind ct_Meta ct_Slot ct_Transaction].
  destruct (dec_ptr zeroParsedMeta dec_ParsedMeta None meta) as [m|] eqn:Em; rewrite ?Em; [|done].
  cbn [res_bind]. by intros [= <-].
Qed.

Ltac on_answer post H :=
  match goal with |- context [post _ ?ps ?n] =>
    let E := fresh in pose proof (H ps n) as E; decompose [ex] E; clear E; match goal with E : post _ ps n = _ |- _ => rewrite E end
  end.

(** the client cannot read the documented answers. It takes the result member
    off the envelope and then decodes it as an envelope again: the blockhash, the
    block height and the send always end in an error, every account is reported
    missing; the statuses, which come inside a context, do not decode; and a
    transaction, whose keys and instructions are inside its message, decodes to one
    without instructions, so no transfer is ever found in it. *)
Theorem documented_answers_unread {N} (post : string -> list json -> N -> response * N) n :
  documented post ->
  is_ok (fst (LatestBlockhash post n)) = false /\
  is_ok (fst (GetBlockHeight post n)) = false /\
  (forall wire, is_ok (fst (SendTransaction post wire n)) = false) /\
  (forall sigs, sigs <> [] -> is_ok (fst (GetSignatureStatuses post sigs n)) = false) /\
  (forall key, is_ok (DecodeBase58 key PublicKeyBytes) = true -> fst (AccountExists post key n) = Ok false) /\
  (forall sig mint program t, fst (GetTransaction post sig n) = Ok t -> TokenTransfers t mint program = []).
Proof.
  intros D. repeat split.
  - unfold LatestBlockhash, exchange. on_answer post (doc_blockhash _ D).
    cbn [fst]. rewrite call_answers by done. by rewrite nested_unread.
  - unfold GetBlockHeight, exchange. on_answer post (doc_height _ D).
    cbn [fst]. by rewrite call_answers.
  - intros wire. unfold SendTransaction, exchange. on_answer post (doc_send _ D). cbn [fst]. by rewrite call_answers.
  - intros [|s l] Hs; [done|]. unfold GetSignatureStatuses, exchange.
    on_answer post (doc_statuses _ D).
    cbn [fst]. by rewrite call_answers.
  - intros key Hk. unfold AccountExists. destruct (DecodeBase58 key PublicKeyBytes); [|done]. unfold exchange.
    on_answer post (doc_account _ D).
    cbn [fst]. rewrite call_answers by done. by rewrite nested_unread.
  - intros sig mint program t. unfold GetTransaction, exchange.
    on_answer post (doc_transaction _ D).
    cbn [fst]. rewrite call_answers by done. destruct (dec_ConfirmedTransaction _ _) as [t'|] eqn:E; [|done].
    intros [= <-]. apply transaction_unread in E. unfold TokenTransfers. by rewrite E.
Qed.

(** A node of the documentation, and a transfer in its last transaction. *)
Definition demo_message : json := JObj [("instructions"%string, JArr [JObj [
  ("programId"%string, JStr "token"); ("parsed"%string, JObj [("type"%string, JStr "transfer");
    ("info"%string, JObj [("source"%string, JStr "a"); ("destination"%string, JStr "b");
                          ("authority"%string, JStr "w"); ("amount"%string, JStr "5")])])]])].
Definition demo_node (method : string) (_ : list json) (n : unit) : response * unit :=
  (answers (
    if String.eqb method "getLatestBlockhash" then
      with_context 9 (JObj [("blockhash"%string, JStr "EkSnNWid2cvwEVnVx9aBqawnmiCNiDgp3gUdkDPTKN1N");
                            ("lastValidBlockHeight"%string, JInt 3090)])
    else if String.eqb method "getBlockHeight" then JInt 1233
    else if String.eqb method "sendTransaction" then JStr "2id3"
    else if String.eqb method "getAccountInfo" then with_context 9 (JObj [("lamports"%string, JInt 1)])
    else if String.eqb method "getSignatureStatuses" then
      with_context 9 (JArr [JObj [("slot"%string, JInt 72); ("confirmationStatus"%string, JStr "finalized")]])
    else documented_transaction 430 demo_message (JArr [JStr "2nBh"]) JNull JNull (JStr "legacy")), n).

Lemma demo_documented : documented demo_node.
Proof. split; intros ps n; repeat eexists. Qed.

Lemma documented_answers_unread_witness :
  is_ok (fst (LatestBlockhash demo_node tt)) = false /\
  TokenTransfers (mkTransaction 0 (match dec_ParsedMessage (mkParsedMessage [] []) demo_message with
    Ok m => m | Err _ => mkParsedMessage [] [] end) None) "" "" = [mkTransfer 0 "a" "b" "w" 5] /\
  (forall t, fst (GetTransaction demo_node "2nBh" tt) = Ok t -> TokenTransfers t "" "" = []).
Proof.
  destruct (documented_answers_unread demo_node tt demo_documented) as (H1 & _ & _ & _ & _ & H2).
  split; [exact H1|]. split; [reflexivity|]. intros t. apply H2.
Defined.

(** A null result, the node's answer for a transaction it does not have, decodes to
    an empty transaction and no error. *)
Lemma missing_transaction_is_empty {N} (post : string -> list json -> N -> response * N) sig n n' :
  (forall ps, post "getTransaction"%string ps n = (answers JNull, n')) ->
  GetTransaction post sig n = (Ok zeroTransaction, n') /\ TokenTransfers zeroTransaction "" "" = [].
Proof. intros Hp. unfold GetTransaction, exchange. by rewrite Hp. Qed.
