(* ===== verification/Tx.v ===== *)
(** * Database sessions: pgx transactions over an abstract database

    The store methods are sequences of SQL statements, run either on the pool
    (each statement commits by itself) or inside a transaction that the method
    opens, commits and, by [defer tx.Rollback], abandons on every other return.
    A statement is a function on the database state that succeeds with a value
    and a new state or fails with a server error.  The session keeps the durable
    state, the transaction's working copy, and whether the server has put the
    transaction in the aborted state (SQLSTATE 25P02), in which every further
    statement fails and a commit is a rollback.

    The environment says which round trips to the server are lost.  A lost
    statement fails in the client and kills the transaction; a lost commit (or
    pool statement) may or may not have taken effect ([Lost] / [Ambiguous]).
    Methods of concurrent clients are serial here: each method's transaction
    runs on the state the previous ones left. *)
From Stdlib Require Import ZArith Lia.
From stdpp Require Import base strings list.
From S2P Require Import Prelude.

Open Scope Z_scope.

Definition ErrTxClosed := Sentinel "tx is closed".
Definition ErrTxCommitRollback := Sentinel "commit unexpectedly resulted in rollback".
Definition ErrNoRows := Sentinel "no rows in result set".
Definition ErrConn := Sentinel "conn closed".
Definition InFailedTx := PgError "25P02".

Inductive fault := Fine | Lost | Ambiguous.

Record env := mkEnv {
  e_fault : nat -> fault;   (* fate of the n-th round trip *)
  e_now : time }.           (* time.Now() / now() *)

Section Session.
Context {D : Type}.

Record conn := mkConn {
  c_db : D;               (* committed state *)
  c_tx : option D;        (* working copy of the open transaction *)
  c_bad : bool;           (* the transaction is aborted *)
  c_step : nat }.         (* round trips so far *)

(** A statement. *)
Definition stmt (A : Type) : Type := D -> res (A * D).

(** A store computation. *)
Definition M (A : Type) : Type := env -> conn -> res A * conn.

Definition ret {A} (a : A) : M A := fun _ c => (Ok a, c).
Definition fail {A} (e : err) : M A := fun _ c => (Err e, c).
Definition bind {A B} (m : M A) (k : A -> M B) : M B := fun e c =>
  match m e c with
  | (Ok a, c') => k a e c'
  | (Err x, c') => (Err x, c')
  end.
(** [x, err := m]: hands both results to the continuation. *)
Definition attempt {A B} (m : M A) (k : res A -> M B) : M B := fun e c =>
  match m e c with (r, c') => k r e c' end.
Definition now : M time := fun e c => (Ok (e_now e), c).
Definition lift {A} (r : res A) : M A := fun _ c => (r, c).

Definition begin_tx : M unit := fun e c =>
  match e_fault e (c_step c) with
  | Fine => (Ok tt, mkConn (c_db c) (Some (c_db c)) false (S (c_step c)))
  | _ => (Err ErrConn, mkConn (c_db c) (c_tx c) (c_bad c) (S (c_step c)))
  end.

Definition tx_stmt {A} (s : stmt A) : M A := fun e c =>
  match c_tx c with
  | None => (Err ErrTxClosed, c)
  | Some w =>
    let n := S (c_step c) in
    if c_bad c then (Err InFailedTx, mkConn (c_db c) (Some w) true n)
    else match e_fault e (c_step c) with
         | Fine => match s w with
                   | Ok (a, w') => (Ok a, mkConn (c_db c) (Some w') false n)
                   | Err x => (Err x, mkConn (c_db c) (Some w) true n)
                   end
         | _ => (Err ErrConn, mkConn (c_db c) (Some w) true n)
         end
  end.

Definition commit : M unit := fun e c =>
  match c_tx c with
  | None => (Err ErrTxClosed, c)
  | Some w =>
    let n := S (c_step c) in
    if c_bad c then (Err ErrTxCommitRollback, mkConn (c_db c) None false n)
    else match e_fault e (c_step c) with
         | Fine => (Ok tt, mkConn w None false n)
         | Lost => (Err ErrConn, mkConn (c_db c) None false n)
         | Ambiguous => (Err ErrConn, mkConn w None false n)
         end
  end.

Definition rollback : M unit := fun _ c =>
  (Ok tt, mkConn (c_db c) None false (c_step c)).

(** [BeginTx ... defer tx.Rollback ...]; [fmt] wraps a failed begin. *)
Definition with_tx {A} (fmt : string) (body : M A) : M A := fun e c =>
  match begin_tx e c with
  | (Err x, c') => (Err (Wrapf fmt x), c')
  | (Ok _, c') =>
    match body e c' with (r, c'') => (r, snd (rollback e c'')) end
  end.

(** A statement on the pool: its own transaction. *)
Definition pool_stmt {A} (s : stmt A) : M A := fun e c =>
  let n := S (c_step c) in
  match e_fault e (c_step c) with
  | Lost => (Err ErrConn, mkConn (c_db c) (c_tx c) (c_bad c) n)
  | f =>
    match s (c_db c) with
    | Ok (a, d') =>
      ((if f is Fine then Ok a else Err ErrConn), mkConn d' (c_tx c) (c_bad c) n)
    | Err x => (Err x, mkConn (c_db c) (c_tx c) (c_bad c) n)
    end
  end.

(** [if err != nil { return fmt.Errorf(fmt, err) }] *)
Definition wrap {A} (fmt : string) (m : M A) : M A := fun e c =>
  match m e c with
  | (Ok a, c') => (Ok a, c')
  | (Err x, c') => (Err (Wrapf fmt x), c')
  end.

Definition run {A} (m : M A) (e : env) (d : D) : res A * D :=
  match m e (mkConn d None false 0) with (r, c) => (r, c_db c) end.
End Session.
Arguments conn : clear implicits.
Arguments stmt : clear implicits.
Arguments M : clear implicits.

(** A [QueryRow(...).Scan] that finds nothing is [ErrNoRows]; this is a client
    error that leaves the transaction usable. *)
Definition scan_row {D A} (m : M D (option A)) : M D A :=
  bind m (fun o => match o with Some a => ret a | None => fail ErrNoRows end).

Declare Scope tx_scope.
Delimit Scope tx_scope with tx.
Notation "'let!' x ':=' m 'in' k" := (bind m (fun x => k))
  (at level 10, x name, m at level 100, k at level 200) : tx_scope.
Notation "'do!' m 'in' k" := (bind m (fun _ => k))
  (at level 10, m at level 100, k at level 200) : tx_scope.
Notation "'let!?' x ':=' m 'in' k" := (attempt m (fun x => k))
  (at level 10, x name, m at level 100, k at level 200) : tx_scope.

(** The environment without failures. *)
Definition fine_env (t : time) : env := mkEnv (fun _ => Fine) t.

(** ** Reasoning about the durable state under every fault

    [triple I P m Q]: if the durable state satisfies [I] and the working copy
    of a live (open and not aborted) transaction satisfies [P], then after [m]
    the durable state satisfies [I], and the working copy of a transaction that
    is still live satisfies [Q result]. *)
Section Triple.
Context {D : Type} (I : D -> Prop).

Definition live (c : conn D) (w : D) : Prop := c_tx c = Some w /\ c_bad c = false.

Definition triple {A} (P : D -> Prop) (m : M D A) (Q : res A -> D -> Prop) : Prop :=
  forall e c, I (c_db c) -> (forall w, live c w -> P w) ->
  I (c_db (snd (m e c))) /\ forall w, live (snd (m e c)) w -> Q (fst (m e c)) w.

Lemma triple_conseq {A} (P P' : D -> Prop) m (Q Q' : res A -> D -> Prop) :
  (forall w, P' w -> P w) -> triple P m Q -> (forall r w, Q r w -> Q' r w) -> triple P' m Q'.
Proof. intros HP Hm HQ e c HI HPc. destruct (Hm e c) as [? ?]; [done|auto|]. auto. Qed.

Lemma triple_ret {A} (P : D -> Prop) (a : A) (Q : res A -> D -> Prop) :
  (forall w, P w -> Q (Ok a) w) -> triple P (ret a) Q.
Proof. intros H e c HI HP. simpl. auto. Qed.

Lemma triple_fail {A} (P : D -> Prop) x (Q : res A -> D -> Prop) :
  (forall w, P w -> Q (Err x) w) -> triple P (fail x) Q.
Proof. intros H e c HI HP. simpl. auto. Qed.

Lemma triple_lift {A} (P : D -> Prop) (r : res A) (Q : res A -> D -> Prop) :
  (forall w, P w -> Q r w) -> triple P (lift r) Q.
Proof. intros H e c HI HP. simpl. auto. Qed.

Lemma triple_now (P : D -> Prop) (Q : res time -> D -> Prop) :
  (forall t w, P w -> Q (Ok t) w) -> triple P now Q.
Proof. intros H e c HI HP. simpl. auto. Qed.

Lemma triple_bind {A B} (P : D -> Prop) (m : M D A) (k : A -> M D B)
    (R : A -> D -> Prop) (Q : res B -> D -> Prop) :
  triple P m (fun r w => match r with Ok a => R a w | Err x => Q (Err x) w end) ->
  (forall a, triple (R a) (k a) Q) ->
  triple P (bind m k) Q.
Proof.
  intros Hm Hk e c HI HP. unfold bind. destruct (Hm e c HI HP) as [HI' HQ].
  destruct (m e c) as [[a|x] c']; simpl in *; [|auto]. by apply Hk.
Qed.

Lemma triple_attempt {A B} (P : D -> Prop) (m : M D A) (k : res A -> M D B)
    (R : res A -> D -> Prop) (Q : res B -> D -> Prop) :
  triple P m R -> (forall r, triple (R r) (k r) Q) -> triple P (attempt m k) Q.
Proof.
  intros Hm Hk e c HI HP. unfold attempt. destruct (Hm e c HI HP) as [HI' HQ].
  destruct (m e c) as [r c']; simpl in *. by apply Hk.
Qed.

Lemma triple_wrap {A} (P : D -> Prop) fmt (m : M D A) (Q : res A -> D -> Prop) :
  triple P m (fun r w => match r with Ok _ => Q r w | Err x => Q (Err (Wrapf fmt x)) w end) ->
  triple P (wrap fmt m) Q.
Proof.
  intros Hm e c HI HP. unfold wrap. destruct (Hm e c HI HP) as [HI' HQ].
  destruct (m e c) as [[a|x] c']; simpl in *; auto.
Qed.

(** A failed statement leaves no live transaction. *)
Lemma triple_stmt {A} (P : D -> Prop) (s : stmt D A) (Q : res A -> D -> Prop) :
  (forall w a w', P w -> s w = Ok (a, w') -> Q (Ok a) w') ->
  triple P (tx_stmt s) Q.
Proof.
  intros Hs e c HI HP. unfold tx_stmt.
  destruct (c_tx c) as [w|] eqn:Hw; simpl; [|split; [done|intros ? [? ?]; congruence]].
  destruct (c_bad c) eqn:Hbad; simpl; [split; [done|by intros ? [? ?]]|].
  destruct (e_fault e (c_step c)); simpl; try (split; [done|by intros ? [? ?]]).
  destruct (s w) as [[a w']|x] eqn:Hsw; simpl; (split; [done|]); intros w'' [Hl ?]; simpl in *;
    [|done]. simplify_eq. eapply Hs; [|done]. by apply HP.
Qed.

Lemma triple_commit (P : D -> Prop) (Q : res unit -> D -> Prop) :
  (forall w, P w -> I w) -> triple P commit Q.
Proof.
  intros H e c HI HP. unfold commit.
  destruct (c_tx c) as [w|] eqn:Hw; simpl; [|split; [done|intros ? [? ?]; congruence]].
  destruct (c_bad c) eqn:Hbad; simpl; [split; [done|by intros ? [? ?]]|].
  assert (P w) by (by apply HP).
  destruct (e_fault e (c_step c)); simpl; (split; [auto|by intros ? [? ?]]).
Qed.

(** Anything may be claimed of a transaction that is over. *)
Lemma triple_pool {A} (s : stmt D A) (P : D -> Prop) :
  (forall d a d', I d -> s d = Ok (a, d') -> I d') ->
  triple P (pool_stmt s) (fun _ => P).
Proof.
  intros Hs e c HI HP. unfold pool_stmt.
  destruct (e_fault e (c_step c)); simpl; try (split; [done|intros w [? ?]; by apply HP]);
    destruct (s (c_db c)) as [[a d']|x] eqn:Hd; simpl;
    (split; [eauto|intros w [? ?]; by apply HP]).
Qed.

Lemma triple_if {A} (P : D -> Prop) (b : bool) (m1 m2 : M D A) Q :
  (b = true -> triple P m1 Q) -> (b = false -> triple P m2 Q) ->
  triple P (if b then m1 else m2) Q.
Proof. destruct b; auto. Qed.

(** [Preserves m]: whatever is lost, [m] keeps the invariant of the durable
    state and leaves no transaction open. *)
Definition Preserves {A} (m : M D A) : Prop :=
  forall e c, c_tx c = None -> I (c_db c) ->
  c_tx (snd (m e c)) = None /\ I (c_db (snd (m e c))).

Lemma with_tx_preserves {A} fmt (body : M D A) :
  triple I body (fun _ _ => True) -> Preserves (with_tx fmt body).
Proof.
  intros Hb e c Hc HI. unfold with_tx, begin_tx.
  destruct (e_fault e (c_step c)); simpl; try done.
  destruct (Hb e (mkConn (c_db c) (Some (c_db c)) false (S (c_step c)))) as [HI' _]; simpl.
  - done.
  - by intros w [[= <-] _].
  - destruct (body e _) as [r c']. simpl in *. done.
Qed.

Lemma preserves_ret {A} (a : A) : Preserves (ret a).
Proof. intros e c; simpl; auto. Qed.
Lemma preserves_fail {A} x : Preserves (@fail D A x).
Proof. intros e c; simpl; auto. Qed.
Lemma preserves_lift {A} (r : res A) : Preserves (lift r).
Proof. intros e c; simpl; auto. Qed.
Lemma preserves_now : Preserves now.
Proof. intros e c; simpl; auto. Qed.

Lemma preserves_bind {A B} (m : M D A) (k : A -> M D B) :
  Preserves m -> (forall a, Preserves (k a)) -> Preserves (bind m k).
Proof.
  intros Hm Hk e c Hc HI. unfold bind. destruct (Hm e c Hc HI).
  destruct (m e c) as [[a|x] c']; simpl in *; [by apply Hk|done].
Qed.

Lemma preserves_attempt {A B} (m : M D A) (k : res A -> M D B) :
  Preserves m -> (forall r, Preserves (k r)) -> Preserves (attempt m k).
Proof.
  intros Hm Hk e c Hc HI. unfold attempt. destruct (Hm e c Hc HI).
  destruct (m e c) as [r c']; simpl in *. by apply Hk.
Qed.

Lemma preserves_wrap {A} fmt (m : M D A) : Preserves m -> Preserves (wrap fmt m).
Proof.
  intros Hm e c Hc HI. unfold wrap. destruct (Hm e c Hc HI).
  by destruct (m e c) as [[a|x] c'].
Qed.

Lemma preserves_pool {A} (s : stmt D A) :
  (forall d a d', I d -> s d = Ok (a, d') -> I d') -> Preserves (pool_stmt s).
Proof.
  intros Hs e c Hc HI. unfold pool_stmt.
  destruct (e_fault e (c_step c)); simpl; try done;
    destruct (s (c_db c)) as [[a d']|x] eqn:Hd; simpl; eauto.
Qed.

Lemma preserves_run {A} (m : M D A) e d : Preserves m -> I d -> I (snd (run m e d)).
Proof.
  intros Hm HI. unfold run. destruct (Hm e (mkConn d None false 0)) as [_ H]; [done..|].
  by destruct (m e _).
Qed.
End Triple.

(** ** Statements on a dead session

    [Tame m]: run without a live transaction, [m] changes nothing. Method bodies
    are tame: only [begin_tx] and pool statements are not. *)
Section Tame.
Context {D : Type}.

Definition Tame {A} (m : M D A) : Prop :=
  forall e c, (forall w, ~ live c w) ->
  c_db (snd (m e c)) = c_db c /\ forall w, ~ live (snd (m e c)) w.

Lemma tame_ret {A} (a : A) : Tame (ret a).
Proof. intros e c H. done. Qed.
Lemma tame_fail {A} x : Tame (@fail D A x).
Proof. intros e c H. done. Qed.
Lemma tame_lift {A} (r : res A) : Tame (lift r).
Proof. intros e c H. done. Qed.
Lemma tame_now : Tame now.
Proof. intros e c H. done. Qed.
Lemma tame_bind {A B} (m : M D A) (k : A -> M D B) :
  Tame m -> (forall a, Tame (k a)) -> Tame (bind m k).
Proof.
  intros Hm Hk e c H. unfold bind. destruct (Hm e c H) as [H1 H2].
  destruct (m e c) as [[a|x] c']; simpl in *; [|done].
  destruct (Hk a e c' H2). split; [congruence|done].
Qed.
Lemma tame_attempt {A B} (m : M D A) (k : res A -> M D B) :
  Tame m -> (forall a, Tame (k a)) -> Tame (attempt m k).
Proof.
  intros Hm Hk e c H. unfold attempt. destruct (Hm e c H) as [H1 H2].
  destruct (m e c) as [r c']; simpl in *. destruct (Hk r e c' H2). split; [congruence|done].
Qed.
Lemma tame_wrap {A} fmt (m : M D A) : Tame m -> Tame (wrap fmt m).
Proof.
  intros Hm e c H. unfold wrap. destruct (Hm e c H) as [H1 H2].
  by destruct (m e c) as [[a|x] c'].
Qed.
Lemma tame_stmt {A} (s : stmt D A) : Tame (tx_stmt s).
Proof.
  intros e c H. unfold tx_stmt. destruct (c_tx c) as [w|] eqn:Hw; [|done].
  destruct (c_bad c) eqn:Hb; [split; [done|by intros ? [? ?]]|].
  exfalso. by apply (H w).
Qed.
Lemma tame_commit : Tame commit.
Proof.
  intros e c H. unfold commit. destruct (c_tx c) as [w|] eqn:Hw; [|done].
  destruct (c_bad c) eqn:Hb; [split; [done|by intros ? [? ?]]|].
  exfalso. by apply (H w).
Qed.
Lemma tame_scan {A} (m : M D (option A)) : Tame m -> Tame (scan_row m).
Proof. intros. apply tame_bind; [done|]. intros [a|]; [apply tame_ret|apply tame_fail]. Qed.
End Tame.

#[export] Hint Resolve tame_ret tame_fail tame_lift tame_now tame_stmt tame_commit : tame.

(** Proves a body tame by its syntax; lemmas about its calls come from [tame]. *)
Ltac tame :=
  repeat match goal with
  | |- Tame (bind _ _) => apply tame_bind; [|intros ?]
  | |- Tame (attempt _ _) => apply tame_attempt; [|intros ?]
  | |- Tame (wrap _ _) => apply tame_wrap
  | |- Tame (scan_row _) => apply tame_scan
  | |- Tame (match ?x with _ => _ end) => destruct x
  | |- Tame _ => solve [eauto with tame]
  end.

(** ** Runs without failures

    Judgments for a body inside an open transaction whose working copy is [w], at
    clock [t] and with no round trip lost: [fine_run m w r w'] leaves the
    transaction open with working copy [w'], [fine_end m d w r d'] ends with
    durable state [d'] when it was [d] before (committed or not). *)
Section FineRun.
Context {D : Type} (t : time).
Let e : env := fine_env t.

Definition fine_run {A} (m : M D A) (w : D) (r : res A) (w' : D) : Prop :=
  forall d n, exists n', m e (mkConn d (Some w) false n) = (r, mkConn d (Some w') false n').

Definition fine_end {A} (m : M D A) (d w : D) (r : res A) (d' : D) : Prop :=
  forall n, exists c, m e (mkConn d (Some w) false n) = (r, c) /\ c_db c = d'.

Lemma fr_ret {A} (a : A) w : fine_run (ret a) w (Ok a) w.
Proof. intros d n. by eexists. Qed.
Lemma fr_lift {A} (r : res A) w : fine_run (lift r) w r w.
Proof. intros d n. by eexists. Qed.
Lemma fr_now w : fine_run now w (Ok t) w.
Proof. intros d n. by eexists. Qed.
Lemma fr_stmt {A} (s : stmt D A) w a w' : s w = Ok (a, w') -> fine_run (tx_stmt s) w (Ok a) w'.
Proof. intros Hs d n. unfold tx_stmt. simpl. rewrite Hs. by eexists. Qed.
Lemma fr_query {A} (f : D -> A) w : fine_run (tx_stmt (fun d => Ok (f d, d))) w (Ok (f w)) w.
Proof. by apply fr_stmt. Qed.
Lemma fr_wrap {A} fmt (m : M D A) w a w' :
  fine_run m w (Ok a) w' -> fine_run (wrap fmt m) w (Ok a) w'.
Proof. intros Hm d n. destruct (Hm d n) as [n' H]. unfold wrap. rewrite H. by eexists. Qed.
Lemma fr_bind {A B} (m : M D A) (k : A -> M D B) w a w1 r w2 :
  fine_run m w (Ok a) w1 -> fine_run (k a) w1 r w2 -> fine_run (bind m k) w r w2.
Proof.
  intros Hm Hk d n. destruct (Hm d n) as [n' H]. unfold bind. rewrite H. apply Hk.
Qed.
Lemma fr_attempt {A B} (m : M D A) (k : res A -> M D B) w a w1 r w2 :
  fine_run m w a w1 -> fine_run (k a) w1 r w2 -> fine_run (attempt m k) w r w2.
Proof.
  intros Hm Hk d n. destruct (Hm d n) as [n' H]. unfold attempt. rewrite H. apply Hk.
Qed.
Lemma fr_scan {A} (m : M D (option A)) w a w' :
  fine_run m w (Ok (Some a)) w' -> fine_run (scan_row m) w (Ok a) w'.
Proof. intros Hm. eapply fr_bind; [exact Hm|apply fr_ret]. Qed.
Lemma fr_scan_none {A} (m : M D (option A)) w w' :
  fine_run m w (Ok None) w' -> fine_run (scan_row m) w (Err ErrNoRows) w'.
Proof. intros Hm. eapply fr_bind; [exact Hm|]. intros d n. by eexists. Qed.

Lemma fe_bind {A B} (m : M D A) (k : A -> M D B) d w a w1 r d' :
  fine_run m w (Ok a) w1 -> fine_end (k a) d w1 r d' -> fine_end (bind m k) d w r d'.
Proof.
  intros Hm Hk n. destruct (Hm d n) as [n' H]. unfold bind. rewrite H. apply Hk.
Qed.
Lemma fe_attempt {A B} (m : M D A) (k : res A -> M D B) d w a w1 r d' :
  fine_run m w a w1 -> fine_end (k a) d w1 r d' -> fine_end (attempt m k) d w r d'.
Proof.
  intros Hm Hk n. destruct (Hm d n) as [n' H]. unfold attempt. rewrite H. apply Hk.
Qed.
(** A statement the server refuses, handled by returning an error. *)
Lemma fe_attempt_fail {A B} (s : stmt D A) (k : res A -> M D B) d w x y :
  s w = Err x -> k (Err x) = fail y -> fine_end (attempt (tx_stmt s) k) d w (Err y) d.
Proof.
  intros Hs Hk n. unfold attempt, tx_stmt. simpl. rewrite Hs, Hk. by eexists.
Qed.
Lemma fe_fail {A} x d w : fine_end (@fail D A x) d w (Err x) d.
Proof. intros n. by eexists. Qed.
Lemma fe_ret {A} (a : A) d w : fine_end (@ret D A a) d w (Ok a) d.
Proof. intros n. by eexists. Qed.
Lemma fe_commit {A} fmt (a : A) d w :
  fine_end (bind (wrap fmt commit) (fun _ => ret a)) d w (Ok a) w.
Proof. intros n. by eexists. Qed.

(** Errors end the body and leave the durable state as it was. *)
Lemma fe_bind_err {A B} (m : M D A) (k : A -> M D B) d w x d' :
  fine_end m d w (Err x) d' -> fine_end (bind m k) d w (Err x) d'.
Proof.
  intros Hm n. destruct (Hm n) as (c & H & Hc). exists c. unfold bind. by rewrite H.
Qed.
Lemma fe_wrap_err {A} fmt (m : M D A) d w x d' :
  fine_end m d w (Err x) d' -> fine_end (wrap fmt m) d w (Err (Wrapf fmt x)) d'.
Proof.
  intros Hm n. destruct (Hm n) as (c & H & Hc). exists c. unfold wrap. by rewrite H.
Qed.
Lemma fe_lift_err {A} x d w : fine_end (@lift D A (Err x)) d w (Err x) d.
Proof. intros n. by eexists. Qed.
Lemma fe_stmt_err {A} (s : stmt D A) d w x : s w = Err x -> fine_end (tx_stmt s) d w (Err x) d.
Proof. intros Hs n. unfold tx_stmt. simpl. rewrite Hs. by eexists. Qed.

(** A fine run whose transaction is then abandoned. *)
Lemma fe_of_fr {A} (m : M D A) d w r w' : fine_run m w r w' -> fine_end m d w r d.
Proof. intros Hm n. destruct (Hm d n) as [n' H]. rewrite H. by eexists. Qed.

Lemma run_with_tx {A} fmt (m : M D A) d r d' :
  fine_end m d d r d' -> run (with_tx fmt m) e d = (r, d').
Proof.
  intros Hm. unfold run, with_tx. simpl. destruct (Hm 1%nat) as (c & -> & Hc). simpl. by subst.
Qed.
End FineRun.

(** ** Relations every statement respects

    [Moves Rel m]: if every statement moves the state along the preorder [Rel],
    so does the method, for the durable state as for the working copy. *)
Section Moves.
Context {D : Type} (Rel : relation D) `{!PreOrder Rel}.

Definition Moves {A} (m : M D A) : Prop :=
  forall e c d0, Rel d0 (c_db c) -> (forall w, c_tx c = Some w -> Rel d0 w) ->
  Rel d0 (c_db (snd (m e c))) /\ forall w, c_tx (snd (m e c)) = Some w -> Rel d0 w.

Lemma moves_ret {A} (a : A) : Moves (ret a).
Proof using. intros e c d0 H1 H2. done. Qed.
Lemma moves_fail {A} x : Moves (@fail D A x).
Proof using. intros e c d0 H1 H2. done. Qed.
Lemma moves_lift {A} (r : res A) : Moves (lift r).
Proof using. intros e c d0 H1 H2. done. Qed.
Lemma moves_now : Moves now.
Proof using. intros e c d0 H1 H2. done. Qed.
Lemma moves_bind {A B} (m : M D A) (k : A -> M D B) :
  Moves m -> (forall a, Moves (k a)) -> Moves (bind m k).
Proof using.
  intros Hm Hk e c d0 H1 H2. unfold bind. destruct (Hm e c d0 H1 H2).
  destruct (m e c) as [[a|x] c']; simpl in *; [by apply Hk|done].
Qed.
Lemma moves_attempt {A B} (m : M D A) (k : res A -> M D B) :
  Moves m -> (forall a, Moves (k a)) -> Moves (attempt m k).
Proof using.
  intros Hm Hk e c d0 H1 H2. unfold attempt. destruct (Hm e c d0 H1 H2).
  destruct (m e c) as [r c']; simpl in *. by apply Hk.
Qed.
Lemma moves_wrap {A} fmt (m : M D A) : Moves m -> Moves (wrap fmt m).
Proof using.
  intros Hm e c d0 H1 H2. unfold wrap. destruct (Hm e c d0 H1 H2).
  by destruct (m e c) as [[a|x] c'].
Qed.
Lemma moves_scan {A} (m : M D (option A)) : Moves m -> Moves (scan_row m).
Proof using. intros. apply moves_bind; [done|]. intros [a|]; [apply moves_ret|apply moves_fail]. Qed.
Lemma moves_stmt {A} (s : stmt D A) :
  (forall w a w', s w = Ok (a, w') -> Rel w w') -> Moves (tx_stmt s).
Proof using All.
  intros Hs e c d0 H1 H2. unfold tx_stmt. destruct (c_tx c) as [w|] eqn:Hw; simpl; [|split; [done|intros; congruence]].
  destruct (c_bad c); [simpl; split; [done|intros ? [= <-]; by apply H2]|].
  destruct (e_fault e (c_step c)); simpl; try (split; [done|intros ? [= <-]; by apply H2]).
  destruct (s w) as [[a w']|x] eqn:Hsw; simpl; (split; [done|]); intros w'' [= <-]; [|auto].
  etrans; [by apply H2|by eapply Hs].
Qed.
Lemma moves_pool {A} (s : stmt D A) :
  (forall w a w', s w = Ok (a, w') -> Rel w w') -> Moves (pool_stmt s).
Proof using All.
  intros Hs e c d0 H1 H2. unfold pool_stmt.
  destruct (e_fault e (c_step c)); simpl; try done;
    destruct (s (c_db c)) as [[a d']|x] eqn:Hd; simpl; try done;
    (split; [etrans; [exact H1|by eapply Hs]|done]).
Qed.
Lemma moves_commit : Moves commit.
Proof using.
  intros e c d0 H1 H2. unfold commit. destruct (c_tx c) as [w|] eqn:Hw; simpl; [|split; [done|intros; congruence]].
  destruct (c_bad c); [done|].
  destruct (e_fault e (c_step c)); simpl; (split; [auto|done]).
Qed.
Lemma moves_with_tx {A} fmt (m : M D A) : Moves m -> Moves (with_tx fmt m).
Proof using.
  intros Hm e c d0 H1 H2. unfold with_tx, begin_tx.
  destruct (e_fault e (c_step c)); simpl; try done.
  destruct (Hm e (mkConn (c_db c) (Some (c_db c)) false (S (c_step c))) d0) as [H3 _]; simpl.
  - done.
  - by intros w [= <-].
  - destruct (m e _) as [r c']. done.
Qed.
Lemma moves_run {A} (m : M D A) e d : Moves m -> Rel d (snd (run m e d)).
Proof using All.
  intros Hm. unfold run. destruct (Hm e (mkConn d None false 0) d) as [H _]; simpl; [done|done|].
  by destruct (m e _).
Qed.
End Moves.

#[export] Hint Resolve moves_ret moves_fail moves_lift moves_now moves_commit : moves.

(** Proves [Moves] by a method's syntax; the statements' lemmas and those of the
    methods it calls come from [moves]. *)
Ltac moves :=
  repeat match goal with
  | |- Moves _ (bind _ _) => apply moves_bind; [|intros ?]
  | |- Moves _ (attempt _ _) => apply moves_attempt; [|intros ?]
  | |- Moves _ (wrap _ _) => apply moves_wrap
  | |- Moves _ (scan_row _) => apply moves_scan
  | |- Moves _ (with_tx _ _) => apply moves_with_tx
  | |- Moves _ (match ?x with _ => _ end) => destruct x
  | |- Moves _ (tx_stmt _) => apply moves_stmt; [typeclasses eauto|eauto with moves]
  | |- Moves _ (pool_stmt _) => apply moves_pool; [typeclasses eauto|eauto with moves]
  | |- Moves _ _ => solve [eauto with moves]
  end.

(** Bodies whose errors need no claim: [post R] speaks of successes only. *)
Definition post {D A} (R : A -> D -> Prop) (r : res A) (w : D) : Prop :=
  match r with Ok a => R a w | Err _ => True end.

Section Post.
Context {D : Type} (I : D -> Prop).
Implicit Types P : D -> Prop.

Lemma tpre {A} P P' (m : M D A) Q :
  (forall w, P' w -> P w) -> triple I P m Q -> triple I P' m Q.
Proof. intros HP Hm. eapply triple_conseq; [exact HP|exact Hm|auto]. Qed.

Lemma tpost {A} P (m : M D A) (R R' : A -> D -> Prop) :
  triple I P m (post R) -> (forall a w, R a w -> R' a w) -> triple I P m (post R').
Proof.
  intros Hm HR. eapply triple_conseq; [intros ? Hw; exact Hw|exact Hm|].
  intros [a|e] w; simpl; auto.
Qed.

Lemma tret {A} P (a : A) (R : A -> D -> Prop) :
  (forall w, P w -> R a w) -> triple I P (ret a) (post R).
Proof. intros. by apply triple_ret. Qed.

Lemma tfail {A} P e (R : A -> D -> Prop) : triple I P (fail e) (post R).
Proof. by apply triple_fail. Qed.

Lemma tlift {A} P (r : res A) (R : A -> D -> Prop) :
  (forall a w, r = Ok a -> P w -> R a w) -> triple I P (lift r) (post R).
Proof. intros H. apply triple_lift. destruct r; simpl; auto. Qed.

Lemma tnow P (R : time -> D -> Prop) :
  (forall t w, P w -> R t w) -> triple I P now (post R).
Proof. intros H. apply triple_now. auto. Qed.

Lemma tbind {A B} P (m : M D A) (k : A -> M D B) R (Q : B -> D -> Prop) :
  triple I P m (post R) -> (forall a, triple I (R a) (k a) (post Q)) ->
  triple I P (bind m k) (post Q).
Proof.
  intros Hm Hk. eapply triple_bind; [|exact Hk].
  eapply triple_conseq; [intros ? Hw; exact Hw|exact Hm|]. by intros [a|e].
Qed.

Lemma twrap {A} P fmt (m : M D A) (R : A -> D -> Prop) :
  triple I P m (post R) -> triple I P (wrap fmt m) (post R).
Proof.
  intros Hm. apply triple_wrap. eapply triple_conseq; [intros ? Hw; exact Hw|exact Hm|]. by intros [a|e].
Qed.

Lemma tstmt {A} P (s : stmt D A) (R : A -> D -> Prop) :
  (forall w a w', P w -> s w = Ok (a, w') -> R a w') -> triple I P (tx_stmt s) (post R).
Proof. intros H. apply triple_stmt. simpl. eauto. Qed.

Lemma tquery {A} P (f : D -> A) (R : A -> D -> Prop) :
  (forall w, P w -> R (f w) w) -> triple I P (tx_stmt (fun d => Ok (f d, d))) (post R).
Proof. intros H. apply tstmt. intros w a w' HP [= <- <-]. auto. Qed.

Lemma tscan {A} P (m : M D (option A)) (R : A -> D -> Prop) :
  triple I P m (post (fun o w => forall a, o = Some a -> R a w)) ->
  triple I P (scan_row m) (post R).
Proof.
  intros Hm. unfold scan_row. eapply tbind; [exact Hm|].
  intros [a|]; [apply tret; eauto|apply tfail].
Qed.

(** [attempt] of a single statement: after a failure the transaction is dead. *)
Lemma tattempt {A B} P (s : stmt D A) (k : res A -> M D B) R (Q : B -> D -> Prop) :
  (forall w a w', P w -> s w = Ok (a, w') -> R a w') ->
  (forall a, triple I (R a) (k (Ok a)) (post Q)) ->
  (forall e, triple I (fun _ => False) (k (Err e)) (post Q)) ->
  triple I P (attempt (tx_stmt s) k) (post Q).
Proof.
  intros Hs HOk HErr.
  apply triple_attempt with (R := fun r w => match r with Ok a => R a w | Err _ => False end).
  - apply triple_stmt. simpl. eauto.
  - intros [a|e]; auto.
Qed.

(** [attempt] whose error continuation is the same failure or a live one. *)
Lemma tattempt_live {A B} P (m : M D A) (k : res A -> M D B) R (Q : B -> D -> Prop) :
  triple I P m (post R) ->
  (forall a, triple I (R a) (k (Ok a)) (post Q)) ->
  (forall e, triple I (fun _ => True) (k (Err e)) (post Q)) ->
  triple I P (attempt m k) (post Q).
Proof.
  intros Hm HOk HErr. apply triple_attempt with (R := post R); [done|]. intros [a|e]; simpl; [apply HOk|apply HErr].
Qed.

(** A scan that finds nothing leaves the working copy as it was. *)
Lemma tattempt_scan {A B} P (f : D -> option A) (k : res A -> M D B) R (Q : B -> D -> Prop) :
  (forall w a, P w -> f w = Some a -> R a w) ->
  (forall a, triple I (R a) (k (Ok a)) (post Q)) ->
  (forall e, triple I P (k (Err e)) (post Q)) ->
  triple I P (attempt (scan_row (tx_stmt (fun d => Ok (f d, d)))) k) (post Q).
Proof.
  intros Hf HOk HErr.
  apply triple_attempt with (R := fun r w => match r with Ok a => R a w | Err _ => P w end).
  - unfold scan_row. eapply triple_bind with
      (R := fun o w => P w /\ forall a, o = Some a -> R a w).
    + apply triple_stmt. intros w o w' HP [= <- <-]. eauto.
    + intros [a|].
      * apply triple_ret. intros w [_ H]. auto.
      * apply triple_fail. by intros w [HP _].
  - intros [a|e]; simpl; [apply HOk|apply HErr].
Qed.

Lemma tcommit P fmt :
  (forall w, P w -> I w) -> triple I P (wrap fmt commit) (post (fun _ _ => False)).
Proof. intros H. apply twrap. by apply triple_commit. Qed.

Lemma tif {A} P (b : bool) (m1 m2 : M D A) (R : A -> D -> Prop) :
  (b = true -> triple I P m1 (post R)) -> (b = false -> triple I P m2 (post R)) ->
  triple I P (if b then m1 else m2) (post R).
Proof. destruct b; auto. Qed.

(** What the working copy is known to satisfy may fix a value. *)
Lemma texists {A X} (P : X -> D -> Prop) (m : M D A) Q :
  Tame m -> (forall x, triple I (P x) m Q) -> triple I (fun w => exists x, P x w) m Q.
Proof.
  intros Ht H e c HI HP.
  assert (Hcase : (exists w, live c w) \/ forall w, ~ live c w).
  { destruct (c_tx c) as [w|] eqn:Hw; [destruct (c_bad c) eqn:Hb|].
    - right. intros w' [? ?]. congruence.
    - left. by exists w.
    - right. intros w' [? ?]. congruence. }
  destruct Hcase as [[w Hw]|Hdead].
  - destruct (HP w Hw) as [x Hx]. apply (H x); [done|].
    intros w' [Hw' _]. destruct Hw. by simplify_eq.
  - destruct (Ht e c Hdead) as [-> Hd]. split; [done|]. intros w Hw. by destruct (Hd w).
Qed.

Lemma tpure {A} (phi : Prop) P (m : M D A) Q :
  Tame m -> (phi -> triple I P m Q) -> triple I (fun w => phi /\ P w) m Q.
Proof.
  intros Ht H. eapply triple_conseq with (P := fun w => exists _ : phi, P w).
  - intros w [Hphi HP]. by exists Hphi.
  - apply texists; auto.
  - auto.
Qed.

Lemma tbody {A} fmt (m : M D A) :
  triple I I m (post (fun _ _ => True)) -> Preserves I (with_tx fmt m).
Proof.
  intros H. apply with_tx_preserves. eapply triple_conseq; [intros ? Hw; exact Hw|exact H|auto].
Qed.
End Post.

#[export] Hint Resolve preserves_ret preserves_fail preserves_lift preserves_now
  preserves_wrap : otela.
