(* ===== verification/Schema.v ===== *)
(** * The billing tables and the SQL statements over them

    The rows of [src/migrations/0006_billing.sql] ... [0013_model_pricing.sql]
    and one definition per statement shape that the store files use, with the
    constraints the schema declares: a violated CHECK is SQLSTATE 23514, a
    duplicate key 23505, a missing referenced row 23503 and a value outside its
    column's width 22003.  Nullable columns are [option]s. *)
From Stdlib Require Import ZArith Lia.
From stdpp Require Import base gmap strings list fin_maps.
From S2P Require Import Prelude Billing Tx.

Open Scope Z_scope.

(** ** Rows *)
Record CreditRow := mkCredit {
  cr_credit_raw : Z; cr_reserved_raw : Z; cr_caps : Caps; cr_updated_at : time }.

Inductive RequestState := StateReserved | StateSettled | StateReleased.

Record RequestRow := mkRequestRow {
  rr_buyer_account_id : string; rr_service : string; rr_model : string;
  rr_eligible_peers : list EligiblePeerQuote; rr_caps : Caps;
  rr_reserved_raw : Z; rr_state : RequestState;
  rr_served_peer_id : option string; rr_served_seller_account_id : option string;
  rr_served_revision : option Z; rr_served_input_per_million : option Z;
  rr_served_cached_input_per_million : option Z; rr_served_output_per_million : option Z;
  rr_input_tokens : option Z; rr_cached_input_tokens : option Z; rr_output_tokens : option Z;
  rr_cost_raw : option Z; rr_fee_raw : option Z; rr_seller_raw : option Z;
  rr_reserved_at : time; rr_settled_at : option time; rr_released_at : option time;
  rr_release_reason : option string }.

Record LedgerRow := mkLedger {
  lg_id : Z; lg_account_id : string; lg_delta_raw : Z; lg_source : string; lg_leg : string;
  lg_counterparty : option string; lg_ref : option string; lg_model : option string;
  lg_input_per_million : option Z; lg_cached_input_per_million : option Z;
  lg_output_per_million : option Z;
  lg_input_tokens : option Z; lg_cached_input_tokens : option Z; lg_output_tokens : option Z;
  lg_created_at : time }.

Inductive AssignmentState := Unassigned | Assigned | Skipped.

Record DepositEvent := mkDeposit {
  de_TransactionSignature : string; de_InstructionIndex : Z; de_Slot : Z;
  de_FromWallet : string; de_AmountRaw : Z;
  de_AssignedAccountID : option string; de_AssignmentState : AssignmentState;
  de_CreditedAt : option time; de_SeenAt : time }.

Inductive WithdrawalState :=
  | WithdrawalReserved | WithdrawalSigned | WithdrawalBroadcast
  | WithdrawalFinalized | WithdrawalFailed | WithdrawalRestored.

Record WithdrawalRow := mkWithdrawalRow {
  wr_account_id : string; wr_idempotency_key : string; wr_destination_wallet : string;
  wr_amount_raw : Z; wr_state : WithdrawalState;
  wr_signed_wire : option string; wr_signature : option string; wr_blockhash : option string;
  wr_last_valid_block_height : option Z; wr_blockhash_expires_at : option time;
  wr_error : option string; wr_reserved_at : time;
  wr_signed_at : option time; wr_broadcast_at : option time; wr_finalized_at : option time }.

Inductive DelegationSettlementState :=
  | SettlementPending | SettlementSigned | SettlementBroadcast
  | SettlementFinalized | SettlementRestored | SettlementFailed.

Record SettlementRow := mkSettlementRow {
  sr_batch_ref : string; sr_buyer_account : string; sr_delegate : string;
  sr_source_ata : string; sr_destination_wallet : string; sr_destination_ata : string;
  sr_amount_raw : Z; sr_state : DelegationSettlementState;
  sr_signed_wire : option string; sr_tx_signature : option string; sr_blockhash : option string;
  sr_last_valid_block_height : option Z; sr_blockhash_expires_at : option time;
  sr_fail_reason : option string; sr_created_at : time; sr_updated_at : time }.

#[export] Instance CreditRow_eq_dec : EqDecision CreditRow.
Proof. solve_decision. Defined.
#[export] Instance RequestState_eq_dec : EqDecision RequestState.
Proof. solve_decision. Defined.
#[export] Instance AssignmentState_eq_dec : EqDecision AssignmentState.
Proof. solve_decision. Defined.
#[export] Instance WithdrawalState_eq_dec : EqDecision WithdrawalState.
Proof. solve_decision. Defined.
#[export] Instance DelegationSettlementState_eq_dec : EqDecision DelegationSettlementState.
Proof. solve_decision. Defined.

(** ** The database *)
(** Tables keyed by their primary key; [credit_ledger] is the list of its rows in
    ascending id, with the sequence of the next id.  [dep_cursors] is
    deposit_cursors, [settle_legs] maps delegation_settlement_legs' ledger_leg_id
    to its settlement, [wallets] maps an account to its one linked wallet, [asks],
    [model_caps] and [ask_config] are peer_asks, account_model_caps and
    peer_ask_config. *)
Record db := mkDb {
  credits : gmap string CreditRow;
  requests : gmap string RequestRow;
  ledger : list LedgerRow;
  ledger_seq : Z;
  deposits : gmap (string * Z) DepositEvent;
  dep_cursors : gmap string string;
  withdrawals : gmap Z WithdrawalRow;
  withdrawals_seq : Z;
  allowances : gmap (string * string) Allowance;
  settlements : gmap Z SettlementRow;
  settlements_seq : Z;
  settle_legs : gmap Z Z;
  settle_cursors : gmap string Z;
  wallets : gmap string string;
  asks : gmap (string * string * string) Ask;
  model_caps : gmap (string * string * string) ModelCaps;
  ask_config : gmap (string * string * string) Ask }.

Definition set_credits (v : gmap string CreditRow) (d : db) : db :=
  mkDb v (requests d) (ledger d) (ledger_seq d) (deposits d) (dep_cursors d) (withdrawals d) (withdrawals_seq d) (allowances d) (settlements d) (settlements_seq d) (settle_legs d) (settle_cursors d) (wallets d) (asks d) (model_caps d) (ask_config d).
Definition set_requests (v : gmap string RequestRow) (d : db) : db :=
  mkDb (credits d) v (ledger d) (ledger_seq d) (deposits d) (dep_cursors d) (withdrawals d) (withdrawals_seq d) (allowances d) (settlements d) (settlements_seq d) (settle_legs d) (settle_cursors d) (wallets d) (asks d) (model_caps d) (ask_config d).
Definition set_ledger (v : list LedgerRow) (d : db) : db :=
  mkDb (credits d) (requests d) v (ledger_seq d) (deposits d) (dep_cursors d) (withdrawals d) (withdrawals_seq d) (allowances d) (settlements d) (settlements_seq d) (settle_legs d) (settle_cursors d) (wallets d) (asks d) (model_caps d) (ask_config d).
Definition set_ledger_seq (v : Z) (d : db) : db :=
  mkDb (credits d) (requests d) (ledger d) v (deposits d) (dep_cursors d) (withdrawals d) (withdrawals_seq d) (allowances d) (settlements d) (settlements_seq d) (settle_legs d) (settle_cursors d) (wallets d) (asks d) (model_caps d) (ask_config d).
Definition set_deposits (v : gmap (string * Z) DepositEvent) (d : db) : db :=
  mkDb (credits d) (requests d) (ledger d) (ledger_seq d) v (dep_cursors d) (withdrawals d) (withdrawals_seq d) (allowances d) (settlements d) (settlements_seq d) (settle_legs d) (settle_cursors d) (wallets d) (asks d) (model_caps d) (ask_config d).
Definition set_dep_cursors (v : gmap string string) (d : db) : db :=
  mkDb (credits d) (requests d) (ledger d) (ledger_seq d) (deposits d) v (withdrawals d) (withdrawals_seq d) (allowances d) (settlements d) (settlements_seq d) (settle_legs d) (settle_cursors d) (wallets d) (asks d) (model_caps d) (ask_config d).
Definition set_withdrawals (v : gmap Z WithdrawalRow) (d : db) : db :=
  mkDb (credits d) (requests d) (ledger d) (ledger_seq d) (deposits d) (dep_cursors d) v (withdrawals_seq d) (allowances d) (settlements d) (settlements_seq d) (settle_legs d) (settle_cursors d) (wallets d) (asks d) (model_caps d) (ask_config d).
Definition set_withdrawals_seq (v : Z) (d : db) : db :=
  mkDb (credits d) (requests d) (ledger d) (ledger_seq d) (deposits d) (dep_cursors d) (withdrawals d) v (allowances d) (settlements d) (settlements_seq d) (settle_legs d) (settle_cursors d) (wallets d) (asks d) (model_caps d) (ask_config d).
Definition set_allowances (v : gmap (string * string) Allowance) (d : db) : db :=
  mkDb (credits d) (requests d) (ledger d) (ledger_seq d) (deposits d) (dep_cursors d) (withdrawals d) (withdrawals_seq d) v (settlements d) (settlements_seq d) (settle_legs d) (settle_cursors d) (wallets d) (asks d) (model_caps d) (ask_config d).
Definition set_settlements (v : gmap Z SettlementRow) (d : db) : db :=
  mkDb (credits d) (requests d) (ledger d) (ledger_seq d) (deposits d) (dep_cursors d) (withdrawals d) (withdrawals_seq d) (allowances d) v (settlements_seq d) (settle_legs d) (settle_cursors d) (wallets d) (asks d) (model_caps d) (ask_config d).
Definition set_settlements_seq (v : Z) (d : db) : db :=
  mkDb (credits d) (requests d) (ledger d) (ledger_seq d) (deposits d) (dep_cursors d) (withdrawals d) (withdrawals_seq d) (allowances d) (settlements d) v (settle_legs d) (settle_cursors d) (wallets d) (asks d) (model_caps d) (ask_config d).
Definition set_settle_legs (v : gmap Z Z) (d : db) : db :=
  mkDb (credits d) (requests d) (ledger d) (ledger_seq d) (deposits d) (dep_cursors d) (withdrawals d) (withdrawals_seq d) (allowances d) (settlements d) (settlements_seq d) v (settle_cursors d) (wallets d) (asks d) (model_caps d) (ask_config d).
Definition set_settle_cursors (v : gmap string Z) (d : db) : db :=
  mkDb (credits d) (requests d) (ledger d) (ledger_seq d) (deposits d) (dep_cursors d) (withdrawals d) (withdrawals_seq d) (allowances d) (settlements d) (settlements_seq d) (settle_legs d) v (wallets d) (asks d) (model_caps d) (ask_config d).
Definition set_wallets (v : gmap string string) (d : db) : db :=
  mkDb (credits d) (requests d) (ledger d) (ledger_seq d) (deposits d) (dep_cursors d) (withdrawals d) (withdrawals_seq d) (allowances d) (settlements d) (settlements_seq d) (settle_legs d) (settle_cursors d) v (asks d) (model_caps d) (ask_config d).
Definition set_asks (v : gmap (string * string * string) Ask) (d : db) : db :=
  mkDb (credits d) (requests d) (ledger d) (ledger_seq d) (deposits d) (dep_cursors d) (withdrawals d) (withdrawals_seq d) (allowances d) (settlements d) (settlements_seq d) (settle_legs d) (settle_cursors d) (wallets d) v (model_caps d) (ask_config d).
Definition set_model_caps (v : gmap (string * string * string) ModelCaps) (d : db) : db :=
  mkDb (credits d) (requests d) (ledger d) (ledger_seq d) (deposits d) (dep_cursors d) (withdrawals d) (withdrawals_seq d) (allowances d) (settlements d) (settlements_seq d) (settle_legs d) (settle_cursors d) (wallets d) (asks d) v (ask_config d).
Definition set_ask_config (v : gmap (string * string * string) Ask) (d : db) : db :=
  mkDb (credits d) (requests d) (ledger d) (ledger_seq d) (deposits d) (dep_cursors d) (withdrawals d) (withdrawals_seq d) (allowances d) (settlements d) (settlements_seq d) (settle_legs d) (settle_cursors d) (wallets d) (asks d) (model_caps d) v.

Definition empty_db : db :=
  mkDb ∅ ∅ [] 1 ∅ ∅ ∅ 1 ∅ ∅ 1 ∅ ∅ ∅ ∅ ∅ ∅.

(** ** Server errors *)
Definition UniqueViolation := PgError "23505".
Definition CheckViolation := PgError "23514".
Definition ForeignKeyViolation := PgError "23503".
Definition OutOfRange := PgError "22003".
(** pgx refuses to encode a value that does not fit the parameter's type. *)
Definition EncodeError := Errorf "unable to encode into binary format for int4".

Definition isUniqueViolation (e : err) : bool :=
  match pg_code e with Some c => String.eqb c "23505" | None => false end.

(** A statement that only reads. *)
Definition query {A} (f : db -> A) : stmt db A := fun d => Ok (f d, d).

(** ** account_credits *)
Definition caps_nonneg (c : Caps) : bool :=
  forallb (fun o => match o with Some z => 0 <=? z | None => true end)
    [InputPerMillion c; CachedInputPerMillion c; OutputPerMillion c].

Definition credit_values_ok (r : CreditRow) : bool :=
  (0 <=? cr_credit_raw r) && (0 <=? cr_reserved_raw r) &&
  (cr_reserved_raw r <=? cr_credit_raw r) && caps_nonneg (cr_caps r).

(** The row an INSERT or UPDATE writes, after the width and CHECK tests. *)
Definition write_credit (a : string) (r : CreditRow) (d : db) : res db :=
  if negb (bool_decide (in_i64 (cr_credit_raw r)) && bool_decide (in_i64 (cr_reserved_raw r)))
  then Err OutOfRange
  else if credit_values_ok r then Ok (set_credits (<[a := r]> (credits d)) d)
  else Err CheckViolation.

Definition no_caps : Caps := mkCaps None None None.

(** INSERT INTO account_credits (account_id, updated_at) ... ON CONFLICT DO NOTHING *)
Definition sql_ensure_credit (a : string) (t : time) : stmt db unit := fun d =>
  match credits d !! a with
  | Some _ => Ok (tt, d)
  | None => res_bind (write_credit a (mkCredit 0 0 no_caps t) d) (fun d' => Ok (tt, d'))
  end.

(** SELECT credit_raw, reserved_raw ... FOR UPDATE *)
Definition sql_lock_credit (a : string) : stmt db (option (Z * Z)) :=
  query (fun d => (fun r => (cr_credit_raw r, cr_reserved_raw r)) <$> credits d !! a).

(** UPDATE account_credits SET ... WHERE account_id = $1 *)
Definition sql_update_credit (a : string) (f : CreditRow -> CreditRow) : stmt db unit := fun d =>
  match credits d !! a with
  | None => Ok (tt, d)
  | Some r => res_bind (write_credit a (f r) d) (fun d' => Ok (tt, d'))
  end.

(** ** credit_ledger *)
Definition ledger_sources : list string :=
  ["usage"; "earn"; "fee"; "deposit"; "withdraw"; "adjust"; "delegation"]%string.

Definition in_i32_opt (o : option Z) : bool :=
  match o with Some z => bool_decide (in_i32 z) | None => true end.

(** A (ref, leg) is taken; NULL refs never collide. *)
Definition ledger_taken (ref : option string) (leg : string) (l : list LedgerRow) : bool :=
  match ref with
  | None => false
  | Some x => existsb (fun r => bool_decide (lg_ref r = Some x) && String.eqb (lg_leg r) leg) l
  end.

Definition set_ledger_id (id : Z) (r : LedgerRow) : LedgerRow :=
  mkLedger id (lg_account_id r) (lg_delta_raw r) (lg_source r) (lg_leg r) (lg_counterparty r)
    (lg_ref r) (lg_model r) (lg_input_per_million r) (lg_cached_input_per_million r)
    (lg_output_per_million r) (lg_input_tokens r) (lg_cached_input_tokens r)
    (lg_output_tokens r) (lg_created_at r).

Definition append_ledger (r : LedgerRow) (d : db) : db :=
  set_ledger_seq (ledger_seq d + 1)
    (set_ledger (ledger d ++ [set_ledger_id (ledger_seq d) r]) d).

(** The constraints of a new row, except UNIQUE (ref, leg). *)
Definition ledger_row_check (r : LedgerRow) : option err :=
  if negb (in_i32_opt (lg_input_tokens r) && in_i32_opt (lg_cached_input_tokens r) &&
           in_i32_opt (lg_output_tokens r)) then Some EncodeError
  else if negb (bool_decide (lg_source r ∈ ledger_sources)) then Some CheckViolation
  else None.

(** INSERT INTO credit_ledger *)
Definition sql_insert_ledger (r : LedgerRow) : stmt db unit := fun d =>
  match ledger_row_check r with
  | Some e => Err e
  | None =>
    if ledger_taken (lg_ref r) (lg_leg r) (ledger d) then Err UniqueViolation
    else Ok (tt, append_ledger r d)
  end.

(** ... ON CONFLICT (ref, leg) DO NOTHING, with the number of rows affected *)
Definition sql_insert_ledger_nothing (r : LedgerRow) : stmt db Z := fun d =>
  match ledger_row_check r with
  | Some e => Err e
  | None =>
    if ledger_taken (lg_ref r) (lg_leg r) (ledger d)
    then Ok (0, set_ledger_seq (ledger_seq d + 1) d)
    else Ok (1, append_ledger r d)
  end.

(** A plain movement: no model, rates or tokens. *)
Definition movement (acct : string) (delta : Z) (source leg : string) (cp : string)
    (ref : string) (t : time) : LedgerRow :=
  mkLedger 0 acct delta source leg (Some cp) (Some ref) None None None None None None None t.

(** ** billing_requests *)
Definition write_request (id : string) (r : RequestRow) (d : db) : res db :=
  if negb (in_i32_opt (rr_input_tokens r) && in_i32_opt (rr_cached_input_tokens r) &&
           in_i32_opt (rr_output_tokens r)) then Err EncodeError
  else if rr_reserved_raw r <? 0 then Err CheckViolation
  else Ok (set_requests (<[id := r]> (requests d)) d).

Definition sql_insert_request (id : string) (r : RequestRow) : stmt db unit := fun d =>
  match requests d !! id with
  | Some _ => Err UniqueViolation
  | None => res_bind (write_request id r d) (fun d' => Ok (tt, d'))
  end.

Definition sql_update_request (id : string) (f : RequestRow -> RequestRow) : stmt db unit := fun d =>
  match requests d !! id with
  | None => Ok (tt, d)
  | Some r => res_bind (write_request id (f r) d) (fun d' => Ok (tt, d'))
  end.

Definition sql_select_request (id : string) : stmt db (option RequestRow) :=
  query (fun d => requests d !! id).

(** ** Sums the reconciliation reads *)
Definition ledger_sum (a : string) (d : db) : Z :=
  list_sum_by (fun r => if String.eqb (lg_account_id r) a then lg_delta_raw r else 0) (ledger d).

Definition open_share (a : string) (r : RequestRow) : Z :=
  if String.eqb (rr_buyer_account_id r) a && bool_decide (rr_state r = StateReserved)
  then rr_reserved_raw r else 0.

Definition open_sum (a : string) (d : db) : Z := map_sum (open_share a) (requests d).

Definition credit_of (a : string) (d : db) : Z :=
  match credits d !! a with Some r => cr_credit_raw r | None => 0 end.
Definition reserved_of (a : string) (d : db) : Z :=
  match credits d !! a with Some r => cr_reserved_raw r | None => 0 end.
