(* ===== verification/BillingStore.v ===== *)
(** * internal/store/billing.go: reservations, settlement, reconciliation

    The request half of the billing store over the session model of [Tx]: one
    definition per method, with its statements in the source's order. *)
From Stdlib Require Import ZArith Lia Strings.Ascii.
From stdpp Require Import base gmap strings list fin_maps sorting.
From S2P Require Import Prelude Billing Tx Schema.

Open Scope Z_scope.
Open Scope tx_scope.

Notation store A := (M db A).

(** [pgxQuerier]: a transaction or the pool. *)
Definition querier : Type := forall A, stmt db A -> store A.
Definition in_tx : querier := fun A s => tx_stmt s.
Definition on_pool : querier := fun A s => pool_stmt s.

(** [if now.IsZero() { now = time.Now().UTC() }] *)
Definition now_or (t : time) : store time := if IsZero t then now else ret t.

(** ** Data *)
Record Reservation := mkReservation {
  rs_RequestID : string; rs_BuyerAccountID : string; rs_Service : string; rs_Model : string;
  rs_Caps : Caps; rs_Quotes : list EligiblePeerQuote;
  rs_InputCeil : Z; rs_OutputCeil : Z; rs_ReservedAt : time }.

Record Request := mkRequest {
  rq_RequestID : string; rq_BuyerAccountID : string; rq_Service : string; rq_Model : string;
  rq_Quotes : list EligiblePeerQuote; rq_Caps : Caps; rq_ReservedRaw : Z;
  rq_State : RequestState;
  rq_ServedPeerID : string; rq_ServedSellerAccountID : string; rq_ServedRevision : Z;
  rq_ServedInputPerMillion : Z; rq_ServedCachedInputPerMillion : Z; rq_ServedOutputPerMillion : Z;
  rq_InputTokens : Z; rq_CachedInputTokens : Z; rq_OutputTokens : Z;
  rq_CostRaw : Z; rq_FeeRaw : Z; rq_SellerRaw : Z;
  rq_ReservedAt : time; rq_SettledAt : option time; rq_ReleasedAt : option time;
  rq_ReleaseReason : string }.

Record Reconciliation := mkReconciliation {
  rc_AccountID : string; rc_CreditRaw : Z; rc_ReservedRaw : Z;
  rc_ExpectedCredit : Z; rc_ExpectedReserved : Z; rc_LedgerRows : Z; rc_OpenReservations : Z;
  rc_DriftCredit : Z; rc_DriftReserved : Z; rc_InvariantHeld : bool }.

Definition opt_str (o : option string) : string := default ""%string o.
Definition opt_int (o : option Z) : Z := default 0 o.

(** ** Requests *)
Definition request_of_row (id : string) (r : RequestRow) : Request :=
  mkRequest id (rr_buyer_account_id r) (rr_service r) (rr_model r) (rr_eligible_peers r)
    (rr_caps r) (rr_reserved_raw r) (rr_state r)
    (opt_str (rr_served_peer_id r)) (opt_str (rr_served_seller_account_id r))
    (opt_int (rr_served_revision r)) (opt_int (rr_served_input_per_million r))
    (opt_int (rr_served_cached_input_per_million r)) (opt_int (rr_served_output_per_million r))
    (opt_int (rr_input_tokens r)) (opt_int (rr_cached_input_tokens r))
    (opt_int (rr_output_tokens r)) (opt_int (rr_cost_raw r)) (opt_int (rr_fee_raw r))
    (opt_int (rr_seller_raw r)) (rr_reserved_at r) (rr_settled_at r) (rr_released_at r)
    (opt_str (rr_release_reason r)).

Definition scanBillingRequest (q : querier) (id : string) : store Request :=
  let!? r := scan_row (q _ (sql_select_request id)) in
  match r with
  | Err e => if errors_is e ErrNoRows then fail ErrNotFound
             else fail (Wrapf "store: billing request: %w" e)
  | Ok row => ret (request_of_row id row)
  end.

Definition BillingRequest (id : string) : store Request := scanBillingRequest on_pool id.

Fixpoint findQuote (quotes : list EligiblePeerQuote) (peerID : string) : option EligiblePeerQuote :=
  match quotes with
  | [] => None
  | q :: rest => if String.eqb (q_PeerID q) peerID then Some q else findQuote rest peerID
  end.

(** UPDATE billing_requests SET state = 'released', ... *)
Definition row_released (t : time) (reason : string) (r : RequestRow) : RequestRow :=
  mkRequestRow (rr_buyer_account_id r) (rr_service r) (rr_model r) (rr_eligible_peers r)
    (rr_caps r) (rr_reserved_raw r) StateReleased
    (rr_served_peer_id r) (rr_served_seller_account_id r) (rr_served_revision r)
    (rr_served_input_per_million r) (rr_served_cached_input_per_million r)
    (rr_served_output_per_million r) (rr_input_tokens r) (rr_cached_input_tokens r)
    (rr_output_tokens r) (rr_cost_raw r) (rr_fee_raw r) (rr_seller_raw r)
    (rr_reserved_at r) (rr_settled_at r) (Some t) (Some reason).

(** UPDATE billing_requests SET state = 'settled', ... *)
Definition row_settled (q : EligiblePeerQuote) (u : Usage) (cost fee seller : Z) (t : time)
    (r : RequestRow) : RequestRow :=
  mkRequestRow (rr_buyer_account_id r) (rr_service r) (rr_model r) (rr_eligible_peers r)
    (rr_caps r) (rr_reserved_raw r) StateSettled
    (Some (q_PeerID q)) (Some (q_SellerAccountID q)) (Some (q_Revision q))
    (Some (q_InputPerMillion q)) (Some (q_CachedInputPerMillion q)) (Some (q_OutputPerMillion q))
    (Some (InputTokens u)) (Some (CachedInputTokens u)) (Some (OutputTokens u))
    (Some cost) (Some fee) (Some seller)
    (rr_reserved_at r) (Some t) (rr_released_at r) (rr_release_reason r).

Definition released (t : time) (reason : string) (r : Request) : Request :=
  mkRequest (rq_RequestID r) (rq_BuyerAccountID r) (rq_Service r) (rq_Model r) (rq_Quotes r)
    (rq_Caps r) (rq_ReservedRaw r) StateReleased (rq_ServedPeerID r)
    (rq_ServedSellerAccountID r) (rq_ServedRevision r) (rq_ServedInputPerMillion r)
    (rq_ServedCachedInputPerMillion r) (rq_ServedOutputPerMillion r) (rq_InputTokens r)
    (rq_CachedInputTokens r) (rq_OutputTokens r) (rq_CostRaw r) (rq_FeeRaw r) (rq_SellerRaw r)
    (rq_ReservedAt r) (rq_SettledAt r) (Some t) reason.

Definition settled (q : EligiblePeerQuote) (u : Usage) (cost fee seller : Z) (t : time)
    (r : Request) : Request :=
  mkRequest (rq_RequestID r) (rq_BuyerAccountID r) (rq_Service r) (rq_Model r) (rq_Quotes r)
    (rq_Caps r) (rq_ReservedRaw r) StateSettled (q_PeerID q)
    (q_SellerAccountID q) (q_Revision q) (q_InputPerMillion q)
    (q_CachedInputPerMillion q) (q_OutputPerMillion q) (InputTokens u)
    (CachedInputTokens u) (OutputTokens u) cost fee seller
    (rq_ReservedAt r) (Some t) (rq_ReleasedAt r) (rq_ReleaseReason r).

(** ** account_credits *)
Definition add_credit (creditDelta reservedDelta : Z) (t : time) (r : CreditRow) : CreditRow :=
  mkCredit (cr_credit_raw r + creditDelta) (cr_reserved_raw r + reservedDelta) (cr_caps r) t.

(** Returns the new (credit_raw, reserved_raw). *)
Definition applyDelta (a : string) (creditDelta reservedDelta : Z) (t : time) : store (Z * Z) :=
  do! wrap "ensure: %w" (tx_stmt (sql_ensure_credit a t)) in
  let! cr := wrap "lock: %w" (scan_row (tx_stmt (sql_lock_credit a))) in
  do! wrap "apply: %w" (tx_stmt (sql_update_credit a (add_credit creditDelta reservedDelta t))) in
  ret (i64 (fst cr + creditDelta), i64 (snd cr + reservedDelta)).

Definition releaseLocked (r : Request) (reason : string) (t : time) : store Request :=
  do! (if rq_ReservedRaw r >? 0
       then wrap "store: release billing: unreserve: %w"
              (tx_stmt (sql_update_credit (rq_BuyerAccountID r) (add_credit 0 (- rq_ReservedRaw r) t)))
       else ret tt) in
  do! wrap "store: release billing: finalize: %w"
        (tx_stmt (sql_update_request (rq_RequestID r) (row_released t reason))) in
  ret (released t reason r).

Definition EnsureAccountCredit (a : string) : store unit :=
  if String.eqb a "" then fail (Wrapf "store: ensure account credit: %w: empty account" ErrConflict)
  else let! t := now in
       wrap "store: ensure account credit: %w" (pool_stmt (sql_ensure_credit a t)).

Definition credit_of_row (a : string) (r : CreditRow) : Billing.AccountCredit :=
  mkAccountCredit a (cr_credit_raw r) (cr_reserved_raw r) (cr_caps r) (cr_updated_at r).

Definition sql_select_credit (a : string) : stmt db (option Billing.AccountCredit) :=
  query (fun d => credit_of_row a <$> credits d !! a).

Definition AccountCreditOf (a : string) : store Billing.AccountCredit :=
  let!? r := scan_row (pool_stmt (sql_select_credit a)) in
  match r with
  | Err e => if errors_is e ErrNoRows then fail ErrNotFound
             else fail (Wrapf "store: account credit: %w" e)
  | Ok c => ret c
  end.

Definition with_caps (caps : Caps) (t : time) (r : CreditRow) : CreditRow :=
  mkCredit (cr_credit_raw r) (cr_reserved_raw r) caps t.

Definition SetAccountCaps (a : string) (caps : Caps) : store Billing.AccountCredit :=
  if String.eqb a "" then fail (Wrapf "store: set caps: %w: empty account" ErrConflict)
  else with_tx "store: set caps: %w" (
    let! t := now in
    do! wrap "store: set caps: ensure: %w" (tx_stmt (sql_ensure_credit a t)) in
    do! wrap "store: set caps: update: %w" (tx_stmt (sql_update_credit a (with_caps caps t))) in
    let! c := wrap "store: set caps: scan: %w" (scan_row (tx_stmt (sql_select_credit a))) in
    do! wrap "store: set caps: %w" commit in
    ret c).

(** ** Reservation *)
Fixpoint checkReservationQuotes (quotes : list EligiblePeerQuote) : option err :=
  match quotes with
  | [] => None
  | q :: rest =>
    if String.eqb (q_PeerID q) "" || String.eqb (q_SellerAccountID q) ""
    then Some (Wrapf "store: reserve billing: %w: quote missing peer or seller" ErrConflict)
    else if (q_InputPerMillion q <? 0) || (q_CachedInputPerMillion q <? 0)
            || (q_OutputPerMillion q <? 0)
    then Some (Wrapf "store: reserve billing: %w: negative rate" ErrConflict)
    else checkReservationQuotes rest
  end.

Definition active_share (a : string) (k : string * string) (x : Allowance) : Z :=
  if String.eqb (fst k) a && Active x then AllowanceRaw x else 0.

Definition allowance_sum (a : string) (d : db) : Z :=
  map_fold (fun k x s => active_share a k x + s) 0 (allowances d).

(** COALESCE(SUM(allowance_raw), 0) is a numeric; scanning it into an int64 fails
    when it does not fit. *)
Definition scan_int64 (m : store Z) : store Z :=
  let! z := m in
  if bool_decide (in_i64 z) then ret z else fail (Errorf "can't scan into dest: out of range").

Definition sumActiveAllowances (q : querier) (a : string) : store Z :=
  wrap "store: sum allowances: %w" (scan_int64 (q _ (query (allowance_sum a)))).

Definition new_request_row (req : Reservation) (reserve : Z) (t : time) : RequestRow :=
  mkRequestRow (rs_BuyerAccountID req) (rs_Service req) (rs_Model req) (rs_Quotes req)
    (rs_Caps req) reserve StateReserved None None None None None None None None None
    None None None t None None None.

Definition ReserveBilling (req : Reservation) : store Billing.AccountCredit :=
  if String.eqb (rs_RequestID req) "" || String.eqb (rs_BuyerAccountID req) ""
  then fail (Wrapf "store: reserve billing: %w: missing id" ErrConflict)
  else if bool_decide (rs_Quotes req = [])
  then fail (Wrapf "store: reserve billing: %w: no quotes" ErrConflict)
  else match checkReservationQuotes (rs_Quotes req) with
  | Some e => fail e
  | None =>
    let! reserve := wrap "store: reserve billing: %w"
      (lift (ReserveAmount (rs_Quotes req) (rs_InputCeil req) (rs_OutputCeil req))) in
    let! t := now_or (rs_ReservedAt req) in
    with_tx "store: reserve billing: %w" (
      do! wrap "store: reserve billing: ensure: %w"
            (tx_stmt (sql_ensure_credit (rs_BuyerAccountID req) t)) in
      let! cr := wrap "store: reserve billing: lock: %w"
            (scan_row (tx_stmt (sql_lock_credit (rs_BuyerAccountID req)))) in
      let available := i64 (fst cr - snd cr) in
      let! allowSum := wrap "store: reserve billing: %w"
            (sumActiveAllowances in_tx (rs_BuyerAccountID req)) in
      let available := if (allowSum >? 0) && (allowSum <? available) then allowSum else available in
      if available <? reserve then fail ErrInsufficientCredit
      else
        let!? ins := tx_stmt (sql_insert_request (rs_RequestID req) (new_request_row req reserve t)) in
        match ins with
        | Err e => if isUniqueViolation e then fail ErrConflict
                   else fail (Wrapf "store: reserve billing: insert: %w" e)
        | Ok _ =>
          do! (if reserve >? 0
               then wrap "store: reserve billing: bump: %w"
                      (tx_stmt (sql_update_credit (rs_BuyerAccountID req) (add_credit 0 reserve t)))
               else ret tt) in
          do! wrap "store: reserve billing: %w" commit in
          ret (mkAccountCredit (rs_BuyerAccountID req) (fst cr) (i64 (snd cr + reserve))
                 no_caps t)
        end)
  end.

(** ** Settlement *)
Definition usage_leg (acct : string) (delta : Z) (source leg cp : string) (r : Request)
    (q : EligiblePeerQuote) (u : Usage) (t : time) : LedgerRow :=
  mkLedger 0 acct delta source leg (Some cp) (Some (rq_RequestID r)) (Some (rq_Model r))
    (Some (q_InputPerMillion q)) (Some (q_CachedInputPerMillion q)) (Some (q_OutputPerMillion q))
    (Some (InputTokens u)) (Some (CachedInputTokens u)) (Some (OutputTokens u)) t.

(** An INSERT of one ledger leg whose duplicate is reported as a conflict. *)
Definition insert_leg (dup other : string) (row : LedgerRow) : store unit :=
  let!? r := tx_stmt (sql_insert_ledger row) in
  match r with
  | Err e => if isUniqueViolation e then fail (Wrapf dup ErrConflict) else fail (Wrapf other e)
  | Ok _ => ret tt
  end.

(** Everything [SettleBilling] does after its read of the request. *)
Definition settleScanned (r : Request) (servedPeerID : string) (u : Usage) (feeBps : Z) (t : time)
    : store Request :=
  if negb (bool_decide (rq_State r = StateReserved)) then ret r
  else match findQuote (rq_Quotes r) servedPeerID with
  | None =>
    let! r' := releaseLocked r "unknown_peer" t in
    do! wrap "store: settle billing: %w" commit in
    ret r'
  | Some quote =>
    let! costRaw := wrap "store: settle billing: cost: %w"
      (lift (Cost (InputTokens u) (CachedInputTokens u) (OutputTokens u)
              (q_InputPerMillion quote) (q_CachedInputPerMillion quote) (q_OutputPerMillion quote))) in
    if costRaw =? 0 then
      let! r' := releaseLocked r "zero_price" t in
      do! wrap "store: settle billing: %w" commit in
      ret r'
    else
      let! fs := wrap "store: settle billing: fee: %w" (lift (Fee costRaw feeBps)) in
      let feeRaw := fst fs in
      let sellerRaw := snd fs in
      do! wrap "store: settle billing: buyer: %w"
            (applyDelta (rq_BuyerAccountID r) (- costRaw) (- rq_ReservedRaw r) t) in
      do! wrap "store: settle billing: seller: %w"
            (applyDelta (q_SellerAccountID quote) sellerRaw 0 t) in
      do! (if feeRaw >? 0
           then do! wrap "store: settle billing: treasury: %w"
                      (applyDelta TreasuryAccountID feeRaw 0 t) in ret tt
           else ret tt) in
      do! insert_leg "store: settle billing: %w: buyer leg exists"
            "store: settle billing: buyer ledger: %w"
            (usage_leg (rq_BuyerAccountID r) (- costRaw) "usage" "buyer" (q_PeerID quote) r quote u t) in
      do! insert_leg "store: settle billing: %w: seller leg exists"
            "store: settle billing: seller ledger: %w"
            (usage_leg (q_SellerAccountID quote) sellerRaw "earn" "seller" (rq_BuyerAccountID r)
               r quote u t) in
      do! (if feeRaw >? 0
           then insert_leg "store: settle billing: %w: fee leg exists"
                  "store: settle billing: fee ledger: %w"
                  (movement TreasuryAccountID feeRaw "fee" "fee" (rq_BuyerAccountID r)
                     (rq_RequestID r) t)
           else ret tt) in
      do! wrap "store: settle billing: finalize: %w"
            (tx_stmt (sql_update_request (rq_RequestID r)
                        (row_settled quote u costRaw feeRaw sellerRaw t))) in
      do! wrap "store: settle billing: %w" commit in
      ret (settled quote u costRaw feeRaw sellerRaw t r)
  end.

Definition SettleBilling (requestID servedPeerID : string) (u : Usage) (feeBps : Z) (now : time)
    : store Request :=
  let! t := now_or now in
  with_tx "store: settle billing: %w" (
    let! r := scanBillingRequest in_tx requestID in
    settleScanned r servedPeerID u feeBps t).

Definition ReleaseBilling (requestID reason : string) (now : time) : store Request :=
  let! t := now_or now in
  with_tx "store: release billing: %w" (
    let! r := scanBillingRequest in_tx requestID in
    if negb (bool_decide (rq_State r = StateReserved)) then ret r
    else
      let! r' := releaseLocked r reason t in
      do! wrap "store: release billing: %w" commit in
      ret r').

(** ** The recovery sweep *)
Definition stale (before : time) (r : RequestRow) : bool :=
  bool_decide (rr_state r = StateReserved) && (rr_reserved_at r <? before).

Definition reserved_at_le (x y : string * RequestRow) : Prop :=
  rr_reserved_at (snd x) <= rr_reserved_at (snd y).
#[export] Instance reserved_at_le_dec : RelDecision reserved_at_le.
Proof. intros x y. unfold reserved_at_le. apply _. Defined.

(** SELECT ... WHERE state = 'reserved' AND reserved_at < $1 ORDER BY reserved_at LIMIT $2 *)
Definition sql_stale_requests (before : time) (limit : Z) : stmt db (list (string * RequestRow)) :=
  query (fun d =>
    select reserved_at_le (fun p => stale before (snd p) = true) (Z.to_nat limit) (requests d)).

(** The partial [billing.Request] the loop builds from the selected columns. *)
Definition pendingRequest (id : string) (r : RequestRow) : Request :=
  mkRequest id (rr_buyer_account_id r) "" "" [] no_caps (rr_reserved_raw r) StateReserved
    "" "" 0 0 0 0 0 0 0 0 0 0 zeroTime None None "".

Fixpoint sweepBatch (batch : list (string * RequestRow)) (t : time) : store (list string) :=
  match batch with
  | [] => ret []
  | (id, row) :: rest =>
    do! wrap "store: sweep: release %s: %w"
          (releaseLocked (pendingRequest id row) "swept_stale" t) in
    let! ids := sweepBatch rest t in
    ret (id :: ids)
  end.

Definition clampLimit (max dflt limit : Z) : Z :=
  if (limit <=? 0) || (limit >? max) then dflt else limit.

Definition SweepStaleReservations (before : time) (limit : Z) : store (list string) :=
  if IsZero before then fail (Wrapf "store: sweep: %w: zero before" ErrConflict)
  else
    let limit := clampLimit 1000 100 limit in
    with_tx "store: sweep: %w" (
      let! batch := wrap "store: sweep: select: %w" (tx_stmt (sql_stale_requests before limit)) in
      let! t := now in
      let! ids := sweepBatch batch t in
      do! wrap "store: sweep: %w" commit in
      ret ids).

(** ** Reconciliation *)
Definition ledger_count (a : string) (d : db) : Z :=
  list_sum_by (fun r => if String.eqb (lg_account_id r) a then 1 else 0) (ledger d).

Definition open_count (a : string) (d : db) : Z :=
  map_sum (fun r => if String.eqb (rr_buyer_account_id r) a && bool_decide (rr_state r = StateReserved)
                    then 1 else 0) (requests d).

Definition ReconcileAccount (a : string) : store Reconciliation :=
  with_tx "store: reconcile: %w" (
    let!? lk := scan_row (tx_stmt (sql_lock_credit a)) in
    match lk with
    | Err e =>
      if errors_is e ErrNoRows then
        do! wrap "store: reconcile: %w" commit in
        ret (mkReconciliation a 0 0 0 0 0 0 0 0 true)
      else fail (Wrapf "store: reconcile: lock: %w" e)
    | Ok (creditRaw, reservedRaw) =>
      let! led := wrap "store: reconcile: ledger: %w" (
        let! s := scan_int64 (tx_stmt (query (ledger_sum a))) in
        let! n := tx_stmt (query (ledger_count a)) in ret (s, n)) in
      let! opn := wrap "store: reconcile: reservations: %w" (
        let! s := scan_int64 (tx_stmt (query (open_sum a))) in
        let! n := tx_stmt (query (open_count a)) in ret (s, n)) in
      do! wrap "store: reconcile: %w" commit in
      ret (mkReconciliation a creditRaw reservedRaw (fst led) (fst opn) (snd led) (snd opn)
             (i64 (creditRaw - fst led)) (i64 (reservedRaw - fst opn))
             ((creditRaw >=? 0) && (reservedRaw >=? 0) && (reservedRaw <=? creditRaw)))
    end).

(** ** Ledger pages, newest first *)
Record LedgerCursor := mkLedgerCursor { lc_CreatedAt : time; lc_ID : Z }.

Definition ledger_key_le (x y : LedgerRow) : Prop :=
  lg_created_at y < lg_created_at x \/ (lg_created_at x = lg_created_at y /\ lg_id y <= lg_id x).
#[export] Instance ledger_key_le_dec : RelDecision ledger_key_le.
Proof. intros x y. unfold ledger_key_le. apply _. Defined.

Definition before_cursor (c : option LedgerCursor) (r : LedgerRow) : bool :=
  match c with
  | None => true
  | Some c => (lg_created_at r <? lc_CreatedAt c) ||
              ((lg_created_at r =? lc_CreatedAt c) && (lg_id r <? lc_ID c))
  end.

Definition sql_ledger_page (a : string) (c : option LedgerCursor) (limit : Z)
    : stmt db (list LedgerRow) :=
  query (fun d =>
    take (Z.to_nat limit)
      (merge_sort ledger_key_le
         (filter (fun r => String.eqb (lg_account_id r) a && before_cursor c r = true) (ledger d)))).

Definition ListLedger (a : string) (c : option LedgerCursor) (limit : Z)
    : store (list LedgerRow * option LedgerCursor) :=
  let limit := clampLimit 500 100 limit in
  let! out := wrap "store: list ledger: %w" (pool_stmt (sql_ledger_page a c limit)) in
  ret (out, if Z.of_nat (length out) =? limit
            then match last out with
                 | Some r => Some (mkLedgerCursor (lg_created_at r) (lg_id r))
                 | None => None end
            else None).

(** ** Asks *)
Definition maxAsksPerReplacement : Z := 256.

(** The map key: service, a NUL byte, model. *)
Definition askKey (a : Ask) : string :=
  String.append (ak_Service a) (String Ascii.zero (ak_Model a)).

Fixpoint validateAskList (seen : list string) (asks : list Ask) : option err :=
  match asks with
  | [] => None
  | a :: rest =>
    if String.eqb (ak_Service a) "" || String.eqb (ak_Model a) ""
    then Some (Wrapf "store: asks: %w: empty service or model" ErrConflict)
    else if bool_decide (askKey a ∈ seen)
    then Some (Wrapf "store: asks: %w: duplicate (%s, %s)" ErrConflict)
    else if (ak_InputPerMillion a <? 0) || (ak_CachedInputPerMillion a <? 0)
            || (ak_OutputPerMillion a <? 0)
    then Some (Wrapf "store: asks: %w: negative rate" ErrConflict)
    else if (ak_InputPerMillion a >=? MaxBaseRate) || (ak_CachedInputPerMillion a >=? MaxBaseRate)
            || (ak_OutputPerMillion a >=? MaxBaseRate)
    then Some (Wrapf "store: asks: %w: rate exceeds bound" ErrConflict)
    else validateAskList (askKey a :: seen) rest
  end.

Definition validateAsks (asks : list Ask) : option err :=
  if Z.of_nat (length asks) >? maxAsksPerReplacement
  then Some (Wrapf "store: asks: %w: %d entries (max %d)" ErrConflict)
  else validateAskList [] asks.

Definition ask_row_ok (a : Ask) : bool :=
  forallb (fun r => (0 <=? r) && (r <? MaxBaseRate))
    [ak_InputPerMillion a; ak_CachedInputPerMillion a; ak_OutputPerMillion a].

Definition sql_delete_asks (peer : string) : stmt db unit := fun d =>
  Ok (tt, set_asks (filter (fun p => fst (fst (fst p)) <> peer) (asks d)) d).

Definition sql_max_revision (peer : string) (d : db) : Z :=
  map_fold (fun k (a : Ask) m => if String.eqb (fst (fst k)) peer then Z.max (ak_Revision a) m else m)
    0 (asks d).

Definition sql_insert_ask (a : Ask) : stmt db unit := fun d =>
  let k := (ak_PeerID a, ak_Service a, ak_Model a) in
  if negb (ask_row_ok a) then Err CheckViolation
  else match asks d !! k with
       | Some _ => Err UniqueViolation
       | None => Ok (tt, set_asks (<[k := a]> (asks d)) d)
       end.

Fixpoint insertAsks (peer : string) (rev expires t : Z) (l : list Ask) : store unit :=
  match l with
  | [] => ret tt
  | a :: rest =>
    do! wrap "store: replace asks: insert: %w"
          (tx_stmt (sql_insert_ask (mkAsk peer (ak_Service a) (ak_Model a) (ak_InputPerMillion a)
             (ak_CachedInputPerMillion a) (ak_OutputPerMillion a) rev expires t))) in
    insertAsks peer rev expires t rest
  end.

Definition ReplaceAsks (peer : string) (l : list Ask) (ttl : Z) : store Z :=
  if String.eqb peer "" then fail (Wrapf "store: replace asks: %w: empty peer id" ErrConflict)
  else if ttl <=? 0 then fail (Wrapf "store: replace asks: %w: non-positive ttl" ErrConflict)
  else match validateAsks l with
  | Some e => fail e
  | None =>
    with_tx "store: replace asks: %w" (
      do! wrap "store: replace asks: lock: %w" (tx_stmt (query (fun _ => tt))) in
      let! t := now in
      let expires := t + ttl in
      if bool_decide (l = []) then
        do! wrap "store: replace asks: clear: %w" (tx_stmt (sql_delete_asks peer)) in
        do! wrap "store: replace asks: %w" commit in
        ret 0
      else
        let! newRev := wrap "store: replace asks: revision: %w"
          (scan_int64 (tx_stmt (query (fun d => sql_max_revision peer d + 1)))) in
        do! wrap "store: replace asks: delete: %w" (tx_stmt (sql_delete_asks peer)) in
        do! insertAsks peer newRev expires t l in
        do! wrap "store: replace asks: %w" commit in
        ret newRev)
  end.

Definition ask_price_le (x y : Ask) : Prop :=
  ak_InputPerMillion x < ak_InputPerMillion y \/
  (ak_InputPerMillion x = ak_InputPerMillion y /\ String.leb (ak_PeerID x) (ak_PeerID y) = true).
#[export] Instance ask_price_le_dec : RelDecision ask_price_le.
Proof. intros x y. unfold ask_price_le. apply _. Defined.

Definition LiveAsks (service model : string) (t : time) : store (list Ask) :=
  wrap "store: live asks: %w" (pool_stmt (query (fun d =>
    merge_sort ask_price_le
      (filter (fun a => ak_Service a = service /\ ak_Model a = model /\ t < ak_ExpiresAt a)
         (map snd (map_to_list (asks d))))))).

(** * internal/store/acl.go: reading the wallet links

    The billing side reads the links: an account's primary wallet and a wallet's
    owner.  The methods that change them are those of Directory.v; here the table
    is the map from accounts to their one linked wallet. *)
Definition owner_of (wallet : string) (d : db) : option string :=
  head (map fst (filter (fun p => snd p = wallet) (map_to_list (wallets d)))).

Definition sql_primary_wallet (a : string) : stmt db (option string) := query (fun d => wallets d !! a).

(** The wallet and whether there is one. *)
Definition PrimaryWalletForAccount (a : string) : store (string * bool) :=
  if String.eqb a "" then ret (""%string, false)
  else
    let!? r := scan_row (pool_stmt (sql_primary_wallet a)) in
    match r with
    | Err e => if errors_is e ErrNoRows then ret (""%string, false)
               else fail (Wrapf "store: primary wallet for account: %w" e)
    | Ok w => ret (w, true)
    end.

Definition AccountForWallet (wallet : string) : store (string * bool) :=
  if String.eqb wallet "" then ret (""%string, false)
  else
    let!? r := scan_row (pool_stmt (query (owner_of wallet))) in
    match r with
    | Err e => if errors_is e ErrNoRows then ret (""%string, false)
               else fail (Wrapf "store: account for wallet: %w" e)
    | Ok a => ret (a, true)
    end.
