(* ===== verification/Projection.v ===== *)
(** * account_credits is a projection of the ledger

    The invariant behind [ReconcileAccount]: every account's credit is the sum
    of its ledger rows (up to an explicit drift), its reserved amount is the sum
    of its open reservations, and 0 <= reserved <= credit.  This file states it,
    generalised so that it also describes the middle of a transaction, and proves
    that every method of [BillingStore] keeps it, whatever is lost. *)
From Stdlib Require Import ZArith Lia.
From stdpp Require Import base gmap strings list fin_maps sorting.
From S2P Require Import Prelude Billing Tx Schema BillingStore.

Open Scope Z_scope.
Open Scope tx_scope.

(** A contribution to one account. *)
Definition at_ (a : string) (c : Z) (b : string) : Z := if String.eqb a b then c else 0.
Definition plus (x y : string -> Z) (b : string) : Z := x b + y b.
Definition zero (_ : string) : Z := 0.

Definition settle_legs_names : list string := ["buyer"; "seller"; "fee"]%string.

(** The legs of an inference charge refer to a request that is no longer open;
    [exc] is the request a running settlement is writing legs for. *)
Definition leg_fresh (exc : option string) (d : db) (row : LedgerRow) : Prop :=
  lg_leg row ∈ settle_legs_names ->
  exists id, lg_ref row = Some id /\
    (exc = Some id \/ exists r, requests d !! id = Some r /\ rr_state r <> StateReserved).

(** Other legs need not refer to a request. *)
Lemma leg_fresh_other exc d row :
  existsb (String.eqb (lg_leg row)) settle_legs_names = false -> leg_fresh exc d row.
Proof.
  intros He Hin. exfalso. apply not_true_iff_false in He. apply He, existsb_exists.
  exists (lg_leg row). split; [by apply list_elem_of_In|apply String.eqb_refl].
Qed.

(** The usage columns are written by settlement only. *)
Definition no_tokens (row : RequestRow) : Prop :=
  rr_input_tokens row = None /\ rr_cached_input_tokens row = None /\ rr_output_tokens row = None.

(** [Core exc x y d]: the invariant where account [a]'s credit exceeds its ledger
    sum by [x a] and its reserved amount exceeds its open reservations by [y a]. *)
Record Core (exc : option string) (x y : string -> Z) (d : db) : Prop := {
  core_rows : forall a r, credits d !! a = Some r ->
    0 <= cr_reserved_raw r <= cr_credit_raw r /\ cr_credit_raw r <= maxI64 /\
    caps_nonneg (cr_caps r) = true;
  core_credit : forall a, credit_of a d = ledger_sum a d + x a;
  core_reserved : forall a, reserved_of a d = open_sum a d + y a;
  core_open : forall id r, requests d !! id = Some r ->
    0 <= rr_reserved_raw r /\ (rr_state r = StateReserved -> no_tokens r);
  core_ids : Forall (fun r => 0 < lg_id r < ledger_seq d) (ledger d) /\ 0 < ledger_seq d;
  core_sorted : StronglySorted (fun r s => lg_id r < lg_id s) (ledger d);
  core_fresh : Forall (leg_fresh exc d) (ledger d) }.

(** The invariant of the committed state, with drift [x]. *)
Definition Inv (x : string -> Z) (d : db) : Prop := Core None x zero d.

Lemma Core_ext exc x x' y y' d :
  (forall a, x a = x' a) -> (forall a, y a = y' a) -> Core exc x y d -> Core exc x' y' d.
Proof. intros Hx Hy []. split; auto; intros a; rewrite <- ?Hx, <- ?Hy; auto. Qed.

(** The invariant does not depend on the representation of the drift. *)
#[export] Instance Core_Proper exc :
  Proper (pointwise_relation _ eq ==> pointwise_relation _ eq ==> eq ==> iff) (Core exc).
Proof.
  intros x x' Hx y y' Hy d ? <-. split; apply Core_ext; auto.
Qed.

Lemma empty_db_Inv : Inv zero empty_db.
Proof.
  split; simpl; try done; try by repeat constructor.
Qed.

Ltac at_cases :=
  unfold plus, at_, zero in *;
  repeat match goal with
  | |- context [String.eqb ?a ?b] => destruct (String.eqb a b) eqn:?
  end; zb; subst; try congruence; try lia.

(** ** Effect of the statements *)
Lemma write_credit_Ok a r d d' :
  write_credit a r d = Ok d' ->
  d' = set_credits (<[a := r]> (credits d)) d /\
  0 <= cr_reserved_raw r <= cr_credit_raw r /\ cr_credit_raw r <= maxI64 /\
  caps_nonneg (cr_caps r) = true.
Proof.
  unfold write_credit. destruct (negb _) eqn:E1; [done|].
  destruct (credit_values_ok r) eqn:E2; [|done]. intros [= <-].
  unfold credit_values_ok in E2. zb. unfold in_i64, maxI64 in *. repeat split; done || lia.
Qed.

Lemma write_credit_fits a r d :
  0 <= cr_reserved_raw r <= cr_credit_raw r -> cr_credit_raw r <= maxI64 ->
  caps_nonneg (cr_caps r) = true ->
  write_credit a r d = Ok (set_credits (<[a := r]> (credits d)) d).
Proof.
  intros Hr Hm Hc. unfold write_credit, credit_values_ok. rewrite Hc.
  rewrite !bool_decide_true by (unfold in_i64, maxI64, two63 in *; lia). simpl.
  destruct (0 <=? cr_credit_raw r) eqn:?, (0 <=? cr_reserved_raw r) eqn:?,
    (cr_reserved_raw r <=? cr_credit_raw r) eqn:?; zb; done || lia.
Qed.

Lemma credit_of_insert a r d b :
  credit_of b (set_credits (<[a := r]> (credits d)) d) =
  credit_of b d + at_ a (cr_credit_raw r - credit_of a d) b.
Proof.
  unfold credit_of, at_; simpl. destruct (String.eqb a b) eqn:E; zb; subst.
  - rewrite lookup_insert_eq. lia.
  - rewrite lookup_insert_ne by done. lia.
Qed.

Lemma reserved_of_insert a r d b :
  reserved_of b (set_credits (<[a := r]> (credits d)) d) =
  reserved_of b d + at_ a (cr_reserved_raw r - reserved_of a d) b.
Proof.
  unfold reserved_of, at_; simpl. destruct (String.eqb a b) eqn:E; zb; subst.
  - rewrite lookup_insert_eq. lia.
  - rewrite lookup_insert_ne by done. lia.
Qed.

(** Writing a credit row moves its account's imbalances by the differences. *)
Lemma Core_write_credit exc x y d d' a r :
  Core exc x y d -> write_credit a r d = Ok d' ->
  Core exc (plus x (at_ a (cr_credit_raw r - credit_of a d)))
           (plus y (at_ a (cr_reserved_raw r - reserved_of a d))) d'.
Proof.
  intros [Hrows Hc Hr Ho Hids Hs Hf] (-> & Hb & Hm)%write_credit_Ok. split; try done.
  - intros b r' Hl. simpl in Hl. destruct (decide (a = b)) as [->|Hne].
    + rewrite lookup_insert_eq in Hl. by simplify_eq.
    + rewrite lookup_insert_ne in Hl by done. eauto.
  - intros b. rewrite credit_of_insert, Hc. unfold plus. unfold ledger_sum. simpl. lia.
  - intros b. rewrite reserved_of_insert, Hr. unfold plus. unfold open_sum. simpl. lia.
Qed.

Lemma Core_ensure exc x y a t d d' u :
  Core exc x y d -> sql_ensure_credit a t d = Ok (u, d') -> Core exc x y d' /\ is_Some (credits d' !! a).
Proof.
  unfold sql_ensure_credit. intros HC. destruct (credits d !! a) as [r|] eqn:Ha.
  { intros [= _ <-]. split; [done|]. by rewrite Ha. }
  intros (d'' & Hw & [= _ <-])%res_bind_Ok. split.
  - eapply Core_ext; [| |by eapply Core_write_credit].
    + intros b. at_cases. unfold credit_of. rewrite Ha. simpl. lia.
    + intros b. at_cases. unfold reserved_of. rewrite Ha. simpl. lia.
  - apply write_credit_Ok in Hw as [-> _]. simpl. rewrite lookup_insert_eq. by eexists.
Qed.

Lemma Core_update exc x y a c r t d d' u :
  Core exc x y d -> is_Some (credits d !! a) ->
  sql_update_credit a (add_credit c r t) d = Ok (u, d') ->
  Core exc (plus x (at_ a c)) (plus y (at_ a r)) d' /\
  credits d' !! a = add_credit c r t <$> credits d !! a.
Proof.
  unfold sql_update_credit. intros HC [row Ha]. rewrite Ha.
  intros (d'' & Hw & [= _ <-])%res_bind_Ok. split.
  - eapply Core_ext; [| |by eapply Core_write_credit];
      intros b; at_cases; unfold credit_of, reserved_of; rewrite Ha; simpl; lia.
  - apply write_credit_Ok in Hw as [-> _]. simpl. by rewrite lookup_insert_eq.
Qed.

Lemma ledger_sum_append a row d :
  ledger_sum a (append_ledger row d) = ledger_sum a d + at_ (lg_account_id row) (lg_delta_raw row) a.
Proof.
  unfold ledger_sum, append_ledger, at_. simpl. rewrite list_sum_by_app. simpl. lia.
Qed.

(** A new ledger row lowers its account's imbalance by its amount. *)
Lemma Core_append exc x y row d :
  Core exc x y d -> leg_fresh exc d row ->
  Core exc (plus x (at_ (lg_account_id row) (- lg_delta_raw row))) y (append_ledger row d).
Proof.
  intros [Hrows Hc Hr Ho [Hids Hseq] Hs Hf] Hrow. split; try done.
  - intros b. rewrite ledger_sum_append. change (credit_of b (append_ledger row d)) with (credit_of b d).
    rewrite Hc. at_cases.
  - simpl. split; [|lia]. apply Forall_app. split.
    + eapply Forall_impl; [exact Hids|]. simpl. lia.
    + apply Forall_singleton. simpl. lia.
  - simpl. clear - Hs Hids. induction (ledger d) as [|r l IH]; simpl.
    + repeat constructor.
    + inversion_clear Hs as [|? ? Hs' Hr]. inversion_clear Hids as [|? ? Hr' Hids'].
      constructor; [by apply IH|]. apply Forall_app. split; [done|].
      apply Forall_singleton. simpl. lia.
  - simpl. apply Forall_app. split; [done|]. by apply Forall_singleton.
Qed.

Lemma Core_insert_ledger exc x y row d d' u :
  Core exc x y d -> leg_fresh exc d row -> sql_insert_ledger row d = Ok (u, d') ->
  Core exc (plus x (at_ (lg_account_id row) (- lg_delta_raw row))) y d' /\
  requests d' = requests d /\ credits d' = credits d.
Proof.
  unfold sql_insert_ledger. intros HC Hf. destruct (ledger_row_check row); [done|].
  destruct (ledger_taken _ _ _); [done|]. intros [= _ <-].
  split; [by apply Core_append|done].
Qed.

Lemma open_share_closed a r : rr_state r <> StateReserved -> open_share a r = 0.
Proof. unfold open_share. intros. rewrite bool_decide_false by done. by rewrite andb_false_r. Qed.

Lemma open_share_open a r :
  rr_state r = StateReserved -> open_share a r = at_ (rr_buyer_account_id r) (rr_reserved_raw r) a.
Proof. unfold open_share, at_. intros ->. simpl. by rewrite andb_true_r. Qed.

Lemma write_request_Ok id r d d' :
  write_request id r d = Ok d' ->
  d' = set_requests (<[id := r]> (requests d)) d /\ 0 <= rr_reserved_raw r.
Proof.
  unfold write_request. destruct (negb _); [done|]. destruct (_ <? 0) eqn:?; [done|].
  intros [= <-]. zb. done.
Qed.

(** Closing a request releases its share of the reserved amount. *)
Lemma Core_close_request exc x y id r r' d d' :
  Core exc x y d -> (exc = None \/ exc = Some id) -> requests d !! id = Some r ->
  rr_state r' <> StateReserved -> write_request id r' d = Ok d' ->
  Core None x (plus y (fun a => open_share a r)) d'.
Proof.
  intros [Hrows Hc Hr Ho Hids Hs Hf] Hexc Hid Hst (-> & Hnn)%write_request_Ok. split; try done.
  - intros a. change (reserved_of a (set_requests _ d)) with (reserved_of a d). rewrite Hr.
    unfold open_sum, plus. simpl. rewrite (map_sum_insert _ _ _ r) by done.
    rewrite (open_share_closed a r') by done. lia.
  - simpl. intros id' r0 Hl. destruct (decide (id = id')) as [->|Hne].
    + rewrite lookup_insert_eq in Hl. simplify_eq. by split.
    + rewrite lookup_insert_ne in Hl by done. eauto.
  - simpl. eapply Forall_impl; [exact Hf|]. intros row Hrow Hleg.
    destruct (Hrow Hleg) as (i & Href & Hi). exists i. split; [done|]. right. simpl.
    destruct (decide (id = i)) as [->|Hne].
    + exists r'. by rewrite lookup_insert_eq.
    + rewrite lookup_insert_ne by done. destruct Hi as [->|?]; [|done].
      destruct Hexc; congruence.
Qed.

Lemma Core_open_request exc x y id r d d' u :
  Core exc x y d -> no_tokens r -> sql_insert_request id r d = Ok (u, d') ->
  Core exc x (plus y (fun a => - open_share a r)) d' /\ credits d' = credits d.
Proof.
  unfold sql_insert_request. intros [Hrows Hc Hr Ho Hids Hs Hf] Hnt.
  destruct (requests d !! id) eqn:Hid; [done|].
  intros (d'' & (-> & Hnn)%write_request_Ok & [= _ <-])%res_bind_Ok.
  split; [|done]. split; try done.
  - intros a. change (reserved_of a (set_requests _ d)) with (reserved_of a d). rewrite Hr.
    unfold open_sum, plus. simpl. rewrite map_sum_insert_new by done. lia.
  - simpl. intros id' r0 Hl. destruct (decide (id = id')) as [->|Hne].
    + rewrite lookup_insert_eq in Hl. simplify_eq. by split.
    + rewrite lookup_insert_ne in Hl by done. eauto.
  - simpl. eapply Forall_impl; [exact Hf|]. intros row Hrow Hleg.
    destruct (Hrow Hleg) as (i & Href & Hi). exists i. split; [done|].
    destruct Hi as [?|(r0 & Hr0 & ?)]; [by left|right]. exists r0. split; [|done].
    simpl. rewrite lookup_insert_ne; [done|congruence].
Qed.

(** An account with an open reservation has a credit row. *)
Lemma Core_reserved_row exc x d a id r :
  Core exc x zero d -> requests d !! id = Some r -> rr_state r = StateReserved ->
  rr_buyer_account_id r = a -> 0 < rr_reserved_raw r -> is_Some (credits d !! a).
Proof.
  intros HC Hid Hst Ha Hpos. pose proof (core_reserved _ _ _ _ HC a) as Hr.
  unfold reserved_of, zero in Hr. destruct (credits d !! a); [by eexists|].
  assert (Hle : open_share a r <= open_sum a d).
  { apply (map_sum_lookup_le (open_share a) (requests d) id); [|done].
    intros k r' Hk. unfold open_share. destruct (_ && _); [|done].
    by eapply (core_open _ _ _ _ HC k). }
  rewrite open_share_open in Hle by done. unfold at_ in Hle.
  rewrite Ha, String.eqb_refl in Hle. lia.
Qed.

(** ** The bodies are tame *)
Lemma applyDelta_tame a c r t : Tame (applyDelta a c r t).
Proof. unfold applyDelta. tame. Qed.
Lemma insert_leg_tame dup other row : Tame (insert_leg dup other row).
Proof. unfold insert_leg. tame. Qed.
Lemma releaseLocked_tame r reason t : Tame (releaseLocked r reason t).
Proof. unfold releaseLocked. tame. Qed.
Lemma scan_tame id : Tame (scanBillingRequest in_tx id).
Proof. unfold scanBillingRequest, in_tx. tame. Qed.
#[export] Hint Resolve applyDelta_tame insert_leg_tame releaseLocked_tame scan_tame : tame.
Lemma settleScanned_tame r peer u fee t : Tame (settleScanned r peer u fee t).
Proof. unfold settleScanned. tame. Qed.
#[export] Hint Resolve settleScanned_tame : tame.

(** ** The methods keep the invariant *)
Section Methods.
Context (x : string -> Z).
Let I : db -> Prop := Inv x.

(** [P exc u v R]: imbalances [u], [v], and the requests table is [R]. *)
Definition Mid exc (u v : string -> Z) (R : gmap string RequestRow) (w : db) : Prop :=
  Core exc u v w /\ requests w = R.

Lemma sql_ensure_requests a t d d' u :
  sql_ensure_credit a t d = Ok (u, d') -> requests d' = requests d.
Proof.
  unfold sql_ensure_credit. destruct (credits d !! a); [by intros [= _ <-]|].
  intros (d'' & (-> & _)%write_credit_Ok & [= _ <-])%res_bind_Ok. done.
Qed.

Lemma sql_update_credit_requests a f d d' u :
  sql_update_credit a f d = Ok (u, d') -> requests d' = requests d.
Proof.
  unfold sql_update_credit. destruct (credits d !! a); [|by intros [= _ <-]].
  intros (d'' & (-> & _)%write_credit_Ok & [= _ <-])%res_bind_Ok. done.
Qed.

Lemma applyDelta_triple exc u v R a c r t :
  triple I (Mid exc u v R) (applyDelta a c r t)
    (post (fun _ => Mid exc (plus u (at_ a c)) (plus v (at_ a r)) R)).
Proof.
  unfold applyDelta.
  eapply tbind with (R := fun _ w => Mid exc u v R w /\ is_Some (credits w !! a)).
  { apply twrap, tstmt. intros w [] w' [HC HR] Hs.
    destruct (Core_ensure _ _ _ _ _ _ _ _ HC Hs).
    apply sql_ensure_requests in Hs. by rewrite <- HR. }
  intros _. eapply tbind with (R := fun _ w => Mid exc u v R w /\ is_Some (credits w !! a)).
  { apply twrap, tscan, tquery. auto. }
  intros cr. eapply tbind; [|intros; apply tret; intros ? Hw; exact Hw].
  apply twrap, tstmt. intros w [] w' [[HC HR] Ha] Hs.
  split; [by eapply Core_update|]. apply sql_update_credit_requests in Hs. congruence.
Qed.

Lemma insert_leg_triple exc u v R dup other row :
  (forall w, requests w = R -> leg_fresh exc w row) ->
  triple I (Mid exc u v R) (insert_leg dup other row)
    (post (fun _ => Mid exc (plus u (at_ (lg_account_id row) (- lg_delta_raw row))) v R)).
Proof.
  intros Hf. unfold insert_leg.
  eapply tattempt with (R := fun _ => Mid exc _ v R).
  - intros w [] w' [HC HR] Hs.
    destruct (Core_insert_ledger _ _ _ _ _ _ _ HC (Hf w HR) Hs) as (? & ? & ?). split; [done|congruence].
  - intros a. by apply tret.
  - intros e. destruct (isUniqueViolation e); apply tfail.
Qed.

Lemma ensure_triple exc u v R a t :
  triple I (Mid exc u v R) (tx_stmt (sql_ensure_credit a t)) (post (fun _ => Mid exc u v R)).
Proof.
  apply tstmt. intros w [] w' [HC HR] Hs. destruct (Core_ensure _ _ _ _ _ _ _ _ HC Hs).
  apply sql_ensure_requests in Hs. split; [done|congruence].
Qed.

(** The request a scan returns is the row of its id. *)
Lemma scan_triple id P :
  triple I P (scanBillingRequest in_tx id)
    (post (fun r w => P w /\ exists row, requests w !! id = Some row /\ r = request_of_row id row)).
Proof.
  unfold scanBillingRequest. eapply tattempt_live with (R := fun row w => P w /\ requests w !! id = Some row).
  - apply tscan. unfold in_tx, sql_select_request, query. apply tquery. intros w HP row Hrow.
    exact (conj HP Hrow).
  - intros row. simpl. apply tret. intros w [HP Hrow]. eauto.
  - intros e. destruct (errors_is _ _); apply tfail.
Qed.

(** [releaseLocked] on an open request closes it and returns its share. *)
Lemma releaseLocked_frame r reason t row R :
  rr_buyer_account_id row = rq_BuyerAccountID r -> rr_reserved_raw row = rq_ReservedRaw r ->
  rr_state row = StateReserved -> R !! rq_RequestID r = Some row ->
  triple I (Mid None x zero R) (releaseLocked r reason t)
    (post (fun _ => Mid None x zero (<[rq_RequestID r := row_released t reason row]> R))).
Proof.
  intros Hb Hrr Hst Hrow. unfold releaseLocked.
  eapply tbind with (R := fun _ => Mid None x (at_ (rq_BuyerAccountID r) (- rr_reserved_raw row)) R).
  { apply tif; intros Hpos; rewrite <- Hrr in *; zb.
    - apply twrap, tstmt. intros w [] w' [HI HR] Hs.
      assert (is_Some (credits w !! rq_BuyerAccountID r)) as Ha
        by (eapply Core_reserved_row; eauto; by rewrite HR).
      pose proof (sql_update_credit_requests _ _ _ _ _ Hs) as HR'.
      destruct (Core_update _ _ _ _ _ _ _ _ _ _ HI Ha Hs) as [HC _].
      split; [|congruence]. eapply Core_ext; [| |exact HC]; intros b; at_cases.
    - apply tret. intros w [HI HR]. split; [|done].
      assert (rr_reserved_raw row = 0) as ->.
      { rewrite <- HR in Hrow. pose proof (core_open _ _ _ _ HI _ _ Hrow). lia. }
      eapply Core_ext; [| |exact HI]; intros b; at_cases. }
  intros []. eapply tbind with (R := fun _ =>
    Mid None x zero (<[rq_RequestID r := row_released t reason row]> R)); [|intros; by apply tret].
  apply twrap, tstmt. intros w [] w' [HC HR] Hs. unfold sql_update_request in Hs.
  rewrite HR, Hrow in Hs. apply res_bind_Ok in Hs as (d' & Hw & [= <-]).
  pose proof (write_request_Ok _ _ _ _ Hw) as [Hd' _]. split; [|by rewrite Hd', <- HR].
  eapply Core_close_request in Hw; [|exact HC|by left|by rewrite HR|done].
  eapply Core_ext; [| |exact Hw]; intros b; [done|].
  rewrite <- Hb. unfold plus. rewrite open_share_open by done. at_cases.
Qed.

Lemma releaseLocked_triple r reason t row :
  rr_buyer_account_id row = rq_BuyerAccountID r -> rr_reserved_raw row = rq_ReservedRaw r ->
  rr_state row = StateReserved ->
  triple I (fun w => Inv x w /\ requests w !! rq_RequestID r = Some row)
    (releaseLocked r reason t) (post (fun _ => Inv x)).
Proof.
  intros Hb Hrr Hst.
  apply tpre with (P := fun w => exists R, R !! rq_RequestID r = Some row /\ Mid None x zero R w).
  { intros w [HI Hrow]. exists (requests w). exact (conj Hrow (conj HI eq_refl)). }
  apply texists; [tame|]. intros R. apply tpure; [tame|]. intros Hrow.
  eapply tpost; [by eapply releaseLocked_frame|]. by intros r' w [? _].
Qed.

Lemma commit_triple fmt : triple I (Inv x) (wrap fmt commit) (post (fun _ _ => False)).
Proof. by apply tcommit. Qed.

(** The charge of an open request whose row is the scanned one. *)
Lemma settleScanned_triple id row peer u fee t :
  triple I (fun w => Inv x w /\ requests w !! id = Some row)
    (settleScanned (request_of_row id row) peer u fee t) (post (fun _ _ => True)).
Proof.
  apply tpre with (P := fun w => exists R, R !! id = Some row /\ Mid None x zero R w).
  { intros w [HI Hrow]. exists (requests w). exact (conj Hrow (conj HI eq_refl)). }
  apply texists; [apply settleScanned_tame|]. intros R.
  apply tpure; [apply settleScanned_tame|]. intros Hrow.
  assert (Hopen : forall r reason, rq_RequestID r = id ->
    rr_buyer_account_id row = rq_BuyerAccountID r -> rr_reserved_raw row = rq_ReservedRaw r ->
    rr_state row = StateReserved ->
    triple I (Mid None x zero R) (releaseLocked r reason t) (post (fun _ => Inv x))).
  { intros r reason <- Hb Hr Hst. eapply tpre; [|by eapply releaseLocked_triple].
    intros w [HC HR]. by rewrite HR. }
  unfold settleScanned. simpl.
  destruct (bool_decide (rr_state row = StateReserved)) eqn:Hst; zb; simpl; [|by apply tret].
  destruct (findQuote _ _) as [q|].
  2: { eapply tbind; [by apply Hopen|]. intros r'.
       eapply tbind; [apply commit_triple|]. intros; by apply tret. }
  eapply tbind; [apply twrap, tlift; intros c w Hc Hw; exact Hw|]. intros c. simpl.
  destruct (c =? 0).
  { eapply tbind; [by apply Hopen|]. intros r'.
    eapply tbind; [apply commit_triple|]. intros; by apply tret. }
  eapply tbind; [apply twrap, tlift; intros fs w Hfs Hw; exact Hw|].
  intros [feeRaw sellerRaw]. simpl.
  assert (Hfresh : forall w l, requests w = R -> lg_ref l = Some id -> leg_fresh (Some id) w l)
    by (intros w l _ Hl _; exists id; auto).
  apply tpre with (P := Mid (Some id) x zero R).
  { intros w [HC HR]. split; [|done]. destruct HC. split; try done.
    eapply Forall_impl; [eassumption|]. intros l Hl Hleg.
    destruct (Hl Hleg) as (i & ? & [?|?]); [done|]. exists i. auto. }
  set (b := rr_buyer_account_id row).
  eapply tbind; [apply twrap, applyDelta_triple|]. intros ?; cbn beta.
  eapply tbind; [apply twrap, applyDelta_triple|]. intros ?; cbn beta.
  set (f := if feeRaw >? 0 then feeRaw else 0).
  eapply tbind with (R := fun _ => Mid (Some id)
    (plus (plus (plus x (at_ b (- c))) (at_ (q_SellerAccountID q) sellerRaw)) (at_ TreasuryAccountID f))
    (plus zero (at_ b (- rr_reserved_raw row))) R).
  { apply tif; intros Hf; unfold f; rewrite Hf.
    - eapply tbind; [apply twrap, applyDelta_triple|]. intros ?; cbn beta. apply tret.
      intros w [HC HR]. split; [|done]. eapply Core_ext; [| |exact HC]; intros acc; at_cases.
    - apply tret. intros w [HC HR]. split; [|done].
      eapply Core_ext; [| |exact HC]; intros acc; at_cases. }
  intros ?; cbn beta.
  eapply tbind; [apply insert_leg_triple; intros; by apply Hfresh|]. intros ?; cbn beta.
  eapply tbind; [apply insert_leg_triple; intros; by apply Hfresh|]. intros ?; cbn beta; simpl.
  eapply tbind with (R := fun _ =>
    Mid (Some id) x (plus zero (at_ b (- rr_reserved_raw row))) R).
  { apply tif; intros Hf; unfold f; rewrite Hf.
    - eapply tpost; [apply insert_leg_triple; intros; by apply Hfresh|].
      intros _ w [HC HR]. split; [|done]. eapply Core_ext; [| |exact HC]; intros acc; [|done].
      simpl. at_cases.
    - apply tret. intros w [HC HR]. split; [|done].
      eapply Core_ext; [| |exact HC]; intros acc; at_cases. }
  intros ?; cbn beta. eapply tbind with (R := fun _ => Inv x).
  { apply twrap, tstmt. intros w [] w' [HC HR] Hs. unfold sql_update_request in Hs.
    rewrite HR, Hrow in Hs. apply res_bind_Ok in Hs as (d' & Hw & [= <-]).
    eapply Core_close_request in Hw; [|exact HC|by right|by rewrite HR|done].
    eapply Core_ext; [| |exact Hw]; intros acc; [done|].
    unfold plus at 1. rewrite open_share_open by done. unfold b. at_cases. }
  intros ?; cbn beta. eapply tbind; [apply commit_triple|]. intros ?. by apply tret.
Qed.

Lemma now_or_preserves t : Preserves I (now_or t).
Proof. unfold now_or. destruct (IsZero t); auto with otela. Qed.

Lemma settle_preserves id peer u fee t : Preserves I (SettleBilling id peer u fee t).
Proof.
  apply preserves_bind; [apply now_or_preserves|]. intros t'. apply tbody.
  eapply tbind; [apply scan_triple|]. intros r; cbn beta.
  apply tpre with (P := fun w => exists row, r = request_of_row id row /\
    (Inv x w /\ requests w !! id = Some row)).
  { intros w [HI (row & Hrow & ->)]. eauto. }
  apply texists; [tame|]. intros row. apply tpure; [tame|]. intros ->.
  apply settleScanned_triple.
Qed.

Lemma release_preserves id reason t : Preserves I (ReleaseBilling id reason t).
Proof.
  apply preserves_bind; [apply now_or_preserves|]. intros t'. apply tbody.
  eapply tbind; [apply scan_triple|]. intros r; cbn beta.
  apply tpre with (P := fun w => exists row, r = request_of_row id row /\
    (Inv x w /\ requests w !! id = Some row)).
  { intros w [HI (row & Hrow & ->)]. eauto. }
  apply texists; [tame|]. intros row. apply tpure; [tame|]. intros ->. simpl.
  destruct (bool_decide _) eqn:Hst; zb; simpl; [|by apply tret].
  eapply tbind; [exact (releaseLocked_triple (request_of_row id row) reason t' row eq_refl eq_refl Hst)|]. intros r'.
  eapply tbind; [apply commit_triple|]. intros ?. by apply tret.
Qed.

Lemma ensure_preserves a : Preserves I (EnsureAccountCredit a).
Proof.
  unfold EnsureAccountCredit. destruct (String.eqb a ""); [auto with otela|].
  apply preserves_bind; [auto with otela|]. intros t. apply preserves_wrap, preserves_pool.
  intros d [] d' HI Hs. by eapply Core_ensure.
Qed.

Lemma caps_preserves a caps : Preserves I (SetAccountCaps a caps).
Proof.
  unfold SetAccountCaps. destruct (String.eqb a ""); [auto with otela|]. apply tbody.
  eapply tbind; [apply tnow; intros t w Hw; exact Hw|]. intros t; cbn beta.
  eapply tbind with (R := fun _ => Inv x).
  { apply twrap, tstmt. intros w [] w' HI Hs. by eapply Core_ensure. }
  intros ?. eapply tbind with (R := fun _ => Inv x).
  { apply twrap, tstmt. intros w [] w' HI Hs. unfold sql_update_credit in Hs.
    destruct (credits w !! a) as [row|] eqn:Ha; [|by simplify_eq].
    apply res_bind_Ok in Hs as (d' & Hw & [= <-]).
    eapply Core_ext; [| |by eapply Core_write_credit]; intros b; at_cases;
      unfold credit_of, reserved_of; rewrite Ha; simpl; lia. }
  intros ?. eapply tbind with (R := fun _ => Inv x).
  { apply twrap, tscan, tquery. auto. }
  intros c. eapply tbind; [apply commit_triple|]. intros ?. by apply tret.
Qed.

Lemma sumAllowances_triple a P :
  triple I P (sumActiveAllowances in_tx a) (post (fun _ => P)).
Proof.
  unfold sumActiveAllowances, scan_int64, in_tx, query. apply twrap.
  eapply tbind with (R := fun _ => P); [by apply tquery|].
  intros z. destruct (bool_decide _); [by apply tret|apply tfail].
Qed.

Lemma reserve_preserves req : Preserves I (ReserveBilling req).
Proof.
  unfold ReserveBilling. destruct (_ || _); [auto with otela|].
  destruct (bool_decide _); [auto with otela|].
  destruct (checkReservationQuotes _); [auto with otela|].
  apply preserves_bind; [auto with otela|]. intros reserve.
  apply preserves_bind; [apply now_or_preserves|]. intros t. apply tbody.
  eapply tbind with (R := fun _ w => Inv x w /\ is_Some (credits w !! rs_BuyerAccountID req)).
  { apply twrap, tstmt. intros w [] w' HI Hs. by eapply Core_ensure. }
  intros ?. eapply tbind; [apply twrap, tscan; unfold sql_lock_credit, query; apply tquery;
    intros w Hw cr _; exact Hw|]. intros cr; cbn beta.
  eapply tbind; [apply twrap, sumAllowances_triple|]. intros allowSum; cbn beta.
  apply tif; [intros _; apply tfail|]. intros _.
  eapply tattempt with (R := fun _ w =>
    Core None x (plus zero (fun a => at_ (rs_BuyerAccountID req) (- reserve) a)) w /\
    is_Some (credits w !! rs_BuyerAccountID req) /\ 0 <= reserve).
  { intros w [] w' [HI Ha] Hs. pose proof Hs as Hs'.
    assert (Hnt : no_tokens (new_request_row req reserve t)) by done.
    destruct (Core_open_request _ _ _ _ _ _ _ _ HI Hnt Hs) as [HC Hcr]. split; [|split].
    - eapply Core_ext; [| |exact HC]; intros b; [done|]. unfold plus.
      rewrite open_share_open by done. simpl. unfold at_. destruct (String.eqb _ _); lia.
    - by rewrite Hcr.
    - unfold sql_insert_request in Hs'. destruct (requests w !! _); [done|].
      apply res_bind_Ok in Hs' as (d' & Hw%write_request_Ok & _). apply Hw. }
  2: { intros e. destruct (isUniqueViolation e); apply tfail. }
  intros ?. eapply tbind with (R := fun _ => Inv x).
  { apply tif; intros Hpos; zb.
    - apply twrap, tstmt. intros w [] w' (HC & Ha & _) Hs.
      destruct (Core_update _ _ _ _ _ _ _ _ _ _ HC Ha Hs) as [HC' _].
      eapply Core_ext; [| |exact HC']; intros b; at_cases.
    - apply tret. intros w (HC & _ & Hnn). assert (reserve = 0) as -> by lia.
      eapply Core_ext; [| |exact HC]; intros b; at_cases. }
  intros ?. eapply tbind; [apply commit_triple|]. intros ?. by apply tret.
Qed.

Lemma sweepBatch_triple batch t R :
  NoDup (map fst batch) ->
  (forall id row, (id, row) ∈ batch -> R !! id = Some row /\ rr_state row = StateReserved) ->
  triple I (Mid None x zero R) (sweepBatch batch t) (post (fun _ => Inv x)).
Proof.
  revert R. induction batch as [|[id row] batch IH]; intros R Hnd HR; simpl.
  { apply tret. by intros w [? _]. }
  inversion_clear Hnd as [|? ? Hnotin Hnd'].
  destruct (HR id row) as [Hrow Hst]; [by left|].
  eapply tbind; [apply twrap, (releaseLocked_frame (pendingRequest id row) "swept_stale" t row R);
    done|]. intros ?; cbn beta.
  eapply tbind with (R := fun _ => Inv x); [|intros; by apply tret].
  apply IH; [done|]. intros id' row' Hin. simpl. rewrite lookup_insert_ne.
  - apply HR. by right.
  - intros ->. apply Hnotin. apply list_elem_of_In, in_map_iff.
    exists (id', row'). by rewrite <- list_elem_of_In.
Qed.

Lemma sweepBatch_tame batch t : Tame (sweepBatch batch t).
Proof. induction batch as [|[id row] batch IH]; simpl; tame. Qed.


Lemma sweep_preserves before limit : Preserves I (SweepStaleReservations before limit).
Proof.
  unfold SweepStaleReservations. destruct (IsZero before); [auto with otela|]. apply tbody.
  eapply tbind with (R := fun batch w => exists R, (NoDup batch.*1 /\
    forall id row, (id, row) ∈ batch -> R !! id = Some row /\ rr_state row = StateReserved) /\
    Mid None x zero R w).
  { apply twrap. unfold sql_stale_requests, query. apply tquery. intros w HI.
    exists (requests w). split; [|exact (conj HI eq_refl)]. split; [apply select_NoDup|].
    intros id row [Hrow Hst]%select_In. split; [done|]. unfold stale in Hst. simpl in Hst. by zb. }
  intros batch. apply texists; [tame; apply sweepBatch_tame|]. intros R.
  apply tpure; [tame; apply sweepBatch_tame|]. intros [Hnd HR].
  eapply tbind; [apply tnow; intros t w Hw; exact Hw|]. intros t; cbn beta.
  eapply tbind; [by apply sweepBatch_triple|]. intros ids; cbn beta.
  eapply tbind; [apply commit_triple|]. intros ?. by apply tret.
Qed.

Lemma reconcile_preserves a : Preserves I (ReconcileAccount a).
Proof.
  unfold ReconcileAccount. apply tbody.
  assert (Hread : forall (f g : db -> Z) fmt,
    triple I (Inv x) (wrap fmt (bind (scan_int64 (tx_stmt (query f))) (fun s =>
      bind (tx_stmt (query g)) (fun n => ret (s, n))))) (post (fun _ => Inv x))).
  { intros f g fmt. apply twrap. eapply tbind with (R := fun _ => Inv x).
    - unfold scan_int64. eapply tbind with (R := fun _ => Inv x); [by apply tquery|].
      intros z. destruct (bool_decide _); [by apply tret|apply tfail].
    - intros s. eapply tbind with (R := fun _ => Inv x); [by apply tquery|].
      intros n. by apply tret. }
  unfold sql_lock_credit, query at 1. eapply tattempt_scan with (R := fun _ => Inv x).
  - auto.
  - intros [cr rr]. eapply tbind; [apply Hread|]. intros led; cbn beta.
    eapply tbind; [apply Hread|]. intros opn; cbn beta.
    eapply tbind; [apply commit_triple|]. intros ?. by apply tret.
  - intros e. destruct (errors_is e ErrNoRows); [|apply tfail].
    eapply tbind; [apply commit_triple|]. intros ?. by apply tret.
Qed.
End Methods.
