(* ===== verification/WithdrawalStore.v ===== *)
(** * internal/store/withdrawal.go: the durable withdrawal state machine

    reserved -> signed -> broadcast -> finalized, with [restored] (the credit is
    returned) and [failed] as recovery states.  Each method locks the row, checks
    its state and applies one guarded transition in one transaction. *)
From Stdlib Require Import ZArith Lia.
From stdpp Require Import base gmap strings list fin_maps sorting pretty.
From S2P Require Import Prelude Billing Tx Schema BillingStore.

Open Scope Z_scope.
Open Scope tx_scope.

Record WithdrawalRequest := mkWithdrawalRequest {
  wq_AccountID : string; wq_IdempotencyKey : string; wq_DestinationWallet : string;
  wq_AmountRaw : Z }.

Record Withdrawal := mkWithdrawal {
  wd_ID : Z; wd_AccountID : string; wd_IdempotencyKey : string; wd_DestinationWallet : string;
  wd_AmountRaw : Z; wd_State : WithdrawalState;
  wd_SignedWire : string; wd_Signature : string; wd_Blockhash : string;
  wd_LastValidBlockHeight : option Z; wd_BlockhashExpiresAt : option time;
  wd_Error : string; wd_ReservedAt : time;
  wd_SignedAt : option time; wd_BroadcastAt : option time; wd_FinalizedAt : option time }.

Definition WithdrawalRef (id : Z) : string := "withdrawal:" +:+ pretty id.

(** [scanWithdrawal]: a negative height is dropped. *)
Definition scanWithdrawal (id : Z) (r : WithdrawalRow) : Withdrawal :=
  mkWithdrawal id (wr_account_id r) (wr_idempotency_key r) (wr_destination_wallet r)
    (wr_amount_raw r) (wr_state r) (opt_str (wr_signed_wire r)) (opt_str (wr_signature r))
    (opt_str (wr_blockhash r))
    (match wr_last_valid_block_height r with
     | Some h => if h >=? 0 then Some h else None
     | None => None end)
    (wr_blockhash_expires_at r) (opt_str (wr_error r)) (wr_reserved_at r)
    (wr_signed_at r) (wr_broadcast_at r) (wr_finalized_at r).

(** ** Statements *)
Definition sql_select_withdrawal (id : Z) : stmt db (option WithdrawalRow) :=
  query (fun d => withdrawals d !! id).

Definition find_key (key : string) (d : db) : option (Z * WithdrawalRow) :=
  head (filter (fun p => wr_idempotency_key (snd p) = key) (map_to_list (withdrawals d))).

Definition set_withdrawal (id : Z) (r : WithdrawalRow) (d : db) : db :=
  set_withdrawals (<[id := r]> (withdrawals d)) d.

(** INSERT INTO withdrawals ... ON CONFLICT (idempotency_key) DO NOTHING RETURNING id *)
Definition sql_insert_withdrawal (r : WithdrawalRow) : stmt db (option Z) := fun d =>
  if wr_amount_raw r <=? 0 then Err CheckViolation
  else
    let id := withdrawals_seq d in
    let d := set_withdrawals_seq (id + 1) d in
    match find_key (wr_idempotency_key r) d with
    | Some _ => Ok (None, d)
    | None => Ok (Some id, set_withdrawal id r d)
    end.

(** UPDATE withdrawals SET ... WHERE id = $1 *)
Definition sql_update_withdrawal (id : Z) (f : WithdrawalRow -> WithdrawalRow) : stmt db unit := fun d =>
  match withdrawals d !! id with
  | None => Ok (tt, d)
  | Some r => Ok (tt, set_withdrawal id (f r) d)
  end.

Definition row_reserved (q : WithdrawalRequest) (t : time) : WithdrawalRow :=
  mkWithdrawalRow (wq_AccountID q) (wq_IdempotencyKey q) (wq_DestinationWallet q)
    (wq_AmountRaw q) WithdrawalReserved None None None None None None t None None None.

Definition row_signed (wire sig hash : string) (height : Z) (expiry : option time) (t : time)
    (r : WithdrawalRow) : WithdrawalRow :=
  mkWithdrawalRow (wr_account_id r) (wr_idempotency_key r) (wr_destination_wallet r)
    (wr_amount_raw r) WithdrawalSigned (Some wire) (Some sig) (Some hash) (Some height) expiry
    (wr_error r) (wr_reserved_at r) (Some t) (wr_broadcast_at r) (wr_finalized_at r).

Definition row_broadcast (t : time) (r : WithdrawalRow) : WithdrawalRow :=
  mkWithdrawalRow (wr_account_id r) (wr_idempotency_key r) (wr_destination_wallet r)
    (wr_amount_raw r) WithdrawalBroadcast (wr_signed_wire r) (wr_signature r) (wr_blockhash r)
    (wr_last_valid_block_height r) (wr_blockhash_expires_at r)
    (wr_error r) (wr_reserved_at r) (wr_signed_at r) (Some t) (wr_finalized_at r).

Definition row_finalized (t : time) (r : WithdrawalRow) : WithdrawalRow :=
  mkWithdrawalRow (wr_account_id r) (wr_idempotency_key r) (wr_destination_wallet r)
    (wr_amount_raw r) WithdrawalFinalized (wr_signed_wire r) (wr_signature r) (wr_blockhash r)
    (wr_last_valid_block_height r) (wr_blockhash_expires_at r)
    (wr_error r) (wr_reserved_at r) (wr_signed_at r) (wr_broadcast_at r) (Some t).

Definition row_stopped (s : WithdrawalState) (reason : string) (r : WithdrawalRow) : WithdrawalRow :=
  mkWithdrawalRow (wr_account_id r) (wr_idempotency_key r) (wr_destination_wallet r)
    (wr_amount_raw r) s (wr_signed_wire r) (wr_signature r) (wr_blockhash r)
    (wr_last_valid_block_height r) (wr_blockhash_expires_at r)
    (Some reason) (wr_reserved_at r) (wr_signed_at r) (wr_broadcast_at r) (wr_finalized_at r).

(** ** Reads *)
Definition read_withdrawal (q : querier) (fmt : string) (id : Z) : store Withdrawal :=
  let!? r := scan_row (q _ (sql_select_withdrawal id)) in
  match r with
  | Err e => if errors_is e ErrNoRows then fail ErrNotFound else fail (Wrapf fmt e)
  | Ok row => ret (scanWithdrawal id row)
  end.

Definition lockWithdrawal (id : Z) : store Withdrawal :=
  read_withdrawal in_tx "store: lock withdrawal: %w" id.
Definition requeryWithdrawal (id : Z) : store Withdrawal :=
  read_withdrawal on_pool "store: requery withdrawal: %w" id.

Definition WithdrawalOf (accountID : string) (id : Z) : store Withdrawal :=
  if String.eqb accountID "" || (id <=? 0) then fail ErrNotFound
  else
    let! w := read_withdrawal on_pool "store: withdrawal: %w" id in
    if negb (String.eqb (wd_AccountID w) accountID) then fail ErrNotFound else ret w.

(** ** Reserve *)
Definition checkWithdrawalRequest (q : WithdrawalRequest) : option err :=
  if String.eqb (wq_AccountID q) ""
  then Some (Wrapf "store: reserve withdrawal: %w: account id required" ErrInvalid)
  else if String.eqb (wq_IdempotencyKey q) ""
  then Some (Wrapf "store: reserve withdrawal: %w: idempotency key required" ErrInvalid)
  else if String.eqb (wq_DestinationWallet q) ""
  then Some (Wrapf "store: reserve withdrawal: %w: destination wallet required" ErrInvalid)
  else if wq_AmountRaw q <=? 0
  then Some (Wrapf "store: reserve withdrawal: %w: amount must be positive" ErrInvalid)
  else None.

(** The row the key already names, if it is the caller's. *)
Definition existingWithdrawal (q : WithdrawalRequest) : store Withdrawal :=
  let! p := wrap "store: reserve withdrawal: existing: %w"
              (scan_row (tx_stmt (query (find_key (wq_IdempotencyKey q))))) in
  let w := scanWithdrawal (fst p) (snd p) in
  if negb (String.eqb (wd_AccountID w) (wq_AccountID q))
  then fail (Wrapf "store: reserve withdrawal: %w: idempotency key in use by another account"
               ErrConflict)
  else do! wrap "store: reserve withdrawal: %w" commit in ret w.

Definition debitWithdrawal (id : Z) (q : WithdrawalRequest) (t : time) : store Withdrawal :=
  let!? cr := applyDelta (wq_AccountID q) (- wq_AmountRaw q) 0 t in
  match cr with
  | Err _ => fail (Wrapf "store: reserve withdrawal: %w" ErrInsufficientCredit)
  | Ok (creditRaw, reservedRaw) =>
    if (creditRaw <? 0) || (reservedRaw >? creditRaw) then fail ErrInsufficientCredit
    else
      do! insert_leg "store: reserve withdrawal: %w: withdraw leg exists"
            "store: reserve withdrawal: ledger: %w"
            (movement (wq_AccountID q) (- wq_AmountRaw q) "withdraw" "withdraw"
               (wq_DestinationWallet q) (WithdrawalRef id) t) in
      do! wrap "store: reserve withdrawal: %w" commit in
      ret (mkWithdrawal id (wq_AccountID q) (wq_IdempotencyKey q) (wq_DestinationWallet q)
             (wq_AmountRaw q) WithdrawalReserved "" "" "" None None "" t None None None)
  end.

Definition ReserveWithdrawal (q : WithdrawalRequest) (now : time) : store Withdrawal :=
  match checkWithdrawalRequest q with
  | Some e => fail e
  | None =>
    let! t := now_or now in
    with_tx "store: reserve withdrawal: %w" (
      let!? ins := scan_row (tx_stmt (sql_insert_withdrawal (row_reserved q t))) in
      match ins with
      | Err e =>
        if negb (errors_is e ErrNoRows) && negb (isUniqueViolation e)
        then fail (Wrapf "store: reserve withdrawal: insert: %w" e)
        else existingWithdrawal q
      | Ok id => if id =? 0 then existingWithdrawal q else debitWithdrawal id q t
      end)
  end.

(** ** Transitions *)
Definition open_state (s : WithdrawalState) : bool :=
  match s with
  | WithdrawalReserved | WithdrawalSigned | WithdrawalBroadcast => true
  | _ => false
  end.

(** The shape of the guarded transitions: a row outside [from] is committed
    unchanged and returned. *)
Definition transition (pre applyfmt : string) (from : WithdrawalState -> bool) (id : Z)
    (now : time) (effect : Withdrawal -> time -> store unit)
    (f : time -> WithdrawalRow -> WithdrawalRow) : store Withdrawal :=
  let! t := now_or now in
  let! r := with_tx pre (
    let! w := lockWithdrawal id in
    if negb (from (wd_State w)) then
      do! wrap pre commit in ret (Some w)
    else
      do! effect w t in
      do! wrap applyfmt (tx_stmt (sql_update_withdrawal id (f t))) in
      do! wrap pre commit in
      ret None) in
  match r with
  | Some w => ret w
  | None => requeryWithdrawal id
  end.

Definition no_effect (_ : Withdrawal) (_ : time) : store unit := ret tt.

Definition MarkWithdrawalSigned (id : Z) (signedWire signature blockhash : string)
    (lastValidBlockHeight : Z) (blockhashExpiresAt now : time) : store Withdrawal :=
  if String.eqb signedWire "" || String.eqb signature "" || String.eqb blockhash ""
  then fail (Wrapf "store: mark signed: %w: signed wire, signature, and blockhash required" ErrInvalid)
  else
    let expiry := if IsZero blockhashExpiresAt then None else Some blockhashExpiresAt in
    transition "store: mark signed: %w" "store: mark signed: apply: %w"
      (fun s => bool_decide (s = WithdrawalReserved)) id now no_effect
      (row_signed signedWire signature blockhash (i64 lastValidBlockHeight) expiry).

Definition MarkWithdrawalBroadcast (id : Z) (now : time) : store Withdrawal :=
  transition "store: mark broadcast: %w"
    "store: mark broadcast: apply: %w"
    (fun s => bool_decide (s = WithdrawalSigned)) id now no_effect row_broadcast.

Definition FinalizeWithdrawal (id : Z) (now : time) : store Withdrawal :=
  transition "store: finalize withdrawal: %w"
    "store: finalize withdrawal: apply: %w"
    (fun s => bool_decide (s = WithdrawalSigned) || bool_decide (s = WithdrawalBroadcast))
    id now no_effect row_finalized.

(** The credit is returned with a unique [restore] leg; a duplicate leg falls
    through to the UPDATE. *)
Definition creditBack (id : Z) (w : Withdrawal) (t : time) : store unit :=
  do! wrap "store: restore withdrawal: credit: %w" (applyDelta (wd_AccountID w) (wd_AmountRaw w) 0 t) in
  let!? r := tx_stmt (sql_insert_ledger
    (movement (wd_AccountID w) (wd_AmountRaw w) "withdraw" "restore" (wd_DestinationWallet w)
       (WithdrawalRef id) t)) in
  match r with
  | Err e => if isUniqueViolation e then ret tt
             else fail (Wrapf "store: restore withdrawal: ledger: %w" e)
  | Ok _ => ret tt
  end.

Definition RestoreWithdrawal (id : Z) (reason : string) (now : time) : store Withdrawal :=
  transition "store: restore withdrawal: %w"
    "store: restore withdrawal: mark: %w"
    open_state id now (creditBack id) (fun _ => row_stopped WithdrawalRestored reason).

Definition FailWithdrawal (id : Z) (reason : string) (now : time) : store Withdrawal :=
  transition "store: fail withdrawal: %w"
    "store: fail withdrawal: apply: %w"
    open_state id now no_effect (fun _ => row_stopped WithdrawalFailed reason).

(** ** The recovery sweep's work list *)
Definition wr_reserved_le (x y : Z * WithdrawalRow) : Prop :=
  wr_reserved_at (snd x) <= wr_reserved_at (snd y).
#[export] Instance wr_reserved_le_dec : RelDecision wr_reserved_le.
Proof. intros x y. unfold wr_reserved_le. apply _. Defined.

Definition sql_due_withdrawals (limit : Z) : stmt db (list (Z * WithdrawalRow)) :=
  query (fun d => select wr_reserved_le (fun p => open_state (wr_state (snd p)) = true)
                    (Z.to_nat limit) (withdrawals d)).

Definition SweepWithdrawalsDue (limit : Z) : store (list Withdrawal) :=
  let limit := clampLimit 100 20 limit in
  with_tx "store: sweep withdrawals: %w" (
    let! rows := wrap "store: sweep withdrawals: %w" (tx_stmt (sql_due_withdrawals limit)) in
    do! wrap "store: sweep withdrawals: %w" commit in
    ret (map (fun p => scanWithdrawal (fst p) (snd p)) rows)).

(** ** Pages of an account's withdrawals, newest first *)
Record WithdrawalCursor := mkWithdrawalCursor { wc_ReservedAt : time; wc_ID : Z }.
Definition withdrawal_key_le (x y : Z * WithdrawalRow) : Prop :=
  wr_reserved_at (snd y) < wr_reserved_at (snd x) \/
  (wr_reserved_at (snd x) = wr_reserved_at (snd y) /\ fst y <= fst x).
#[export] Instance withdrawal_key_le_dec : RelDecision withdrawal_key_le.
Proof. intros x y. unfold withdrawal_key_le. apply _. Defined.
Definition before_withdrawal (c : option WithdrawalCursor) (r : Z * WithdrawalRow) : bool :=
  match c with
  | None => true
  | Some c => (wr_reserved_at (snd r) <? wc_ReservedAt c) ||
              ((wr_reserved_at (snd r) =? wc_ReservedAt c) && (fst r <? wc_ID c))
  end.
Definition sql_withdrawal_page (a : string) (c : option WithdrawalCursor) (limit : Z) : stmt db (list (Z * WithdrawalRow)) :=
  query (fun d => take (Z.to_nat limit) (merge_sort withdrawal_key_le
    (filter (fun r => String.eqb (wr_account_id (snd r)) a && before_withdrawal c r = true) (map_to_list (withdrawals d))))).
Definition ListWithdrawals (a : string) (c : option WithdrawalCursor) (limit : Z)
    : store (list Withdrawal * option WithdrawalCursor) :=
  let limit := clampLimit 500 50 limit in
  let! rows := wrap "store: list withdrawals: %w" (pool_stmt (sql_withdrawal_page a c limit)) in
  let out := map (fun p => scanWithdrawal (fst p) (snd p)) rows in
  ret (out, if Z.of_nat (length out) =? limit
            then match last out with
                 | Some w => Some (mkWithdrawalCursor (wd_ReservedAt w) (wd_ID w))
                 | None => None end
            else None).
