(* ===== verification/WithdrawalInv.v ===== *)
(** * The withdrawal lifecycle: invariants

    Every withdrawal is debited exactly once, by one [withdraw] leg, and credited
    back exactly once when (and only when) it is restored; states only move along
    [wstep]; the identity, owner, destination and amount of a row never change. *)
From Stdlib Require Import ZArith Lia Relations.
From stdpp Require Import base gmap strings list fin_maps sorting pretty.
From S2P Require Import Prelude Billing Tx Schema BillingStore Projection WithdrawalStore.

Open Scope Z_scope.
Open Scope tx_scope.

(** ** The specification state machine *)
Inductive wstep : WithdrawalState -> WithdrawalState -> Prop :=
  | wstep_sign : wstep WithdrawalReserved WithdrawalSigned
  | wstep_broadcast : wstep WithdrawalSigned WithdrawalBroadcast
  | wstep_finalize_signed : wstep WithdrawalSigned WithdrawalFinalized
  | wstep_finalize : wstep WithdrawalBroadcast WithdrawalFinalized
  | wstep_restore s : open_state s = true -> wstep s WithdrawalRestored
  | wstep_fail s : open_state s = true -> wstep s WithdrawalFailed.

Record evolves (r r' : WithdrawalRow) : Prop := {
  ev_account : wr_account_id r' = wr_account_id r;
  ev_key : wr_idempotency_key r' = wr_idempotency_key r;
  ev_dest : wr_destination_wallet r' = wr_destination_wallet r;
  ev_amount : wr_amount_raw r' = wr_amount_raw r;
  ev_state : rtc wstep (wr_state r) (wr_state r') }.

#[export] Instance evolves_preorder : PreOrder evolves.
Proof.
  split.
  - intros r. split; reflexivity.
  - intros r1 r2 r3 [] []. split; congruence || (etrans; eassumption).
Qed.

(** Every withdrawal of [d0] is still there in [d], further along. *)
Definition Life (d0 d : db) : Prop :=
  forall id r, withdrawals d0 !! id = Some r ->
  exists r', withdrawals d !! id = Some r' /\ evolves r r'.

#[export] Instance Life_preorder : PreOrder Life.
Proof.
  split.
  - intros d id r H. exists r. by split.
  - intros d1 d2 d3 H12 H23 id r H. destruct (H12 id r H) as (r2 & H2 & ?).
    destruct (H23 id r2 H2) as (r3 & H3 & ?). exists r3. split; [done|by etrans].
Qed.

Lemma wstep_terminal s s' : wstep s s' -> open_state s = true.
Proof. by destruct 1. Qed.

Lemma rtc_wstep_terminal s s' : open_state s = false -> rtc wstep s s' -> s' = s.
Proof.
  intros Hs Hr. destruct Hr as [|s s1 s2 H1 _]; [done|]. apply wstep_terminal in H1. congruence.
Qed.

(** ** The ledger legs of a withdrawal *)
Definition leg_sum (ref leg : string) (d : db) : Z :=
  list_sum_by (fun r => if bool_decide (lg_ref r = Some ref) && String.eqb (lg_leg r) leg
                        then lg_delta_raw r else 0) (ledger d).

Definition exp_withdraw (d : db) (id : Z) : Z :=
  match withdrawals d !! id with Some r => - wr_amount_raw r | None => 0 end.
Definition exp_restore (d : db) (id : Z) : Z :=
  match withdrawals d !! id with
  | Some r => if bool_decide (wr_state r = WithdrawalRestored) then wr_amount_raw r else 0
  | None => 0
  end.

Definition atz (id c k : Z) : Z := if id =? k then c else 0.
Definition zeroz (_ : Z) : Z := 0.

Record WInv (p q : Z -> Z) (d : db) : Prop := {
  wi_seq : 0 < withdrawals_seq d;
  wi_rows : forall id r, withdrawals d !! id = Some r ->
    0 < id < withdrawals_seq d /\ 0 < wr_amount_raw r;
  wi_withdraw : forall id, leg_sum (WithdrawalRef id) "withdraw" d = exp_withdraw d id + p id;
  wi_restore : forall id, leg_sum (WithdrawalRef id) "restore" d = exp_restore d id + q id }.

Lemma WInv_ext p p' q q' d :
  (forall i, p i = p' i) -> (forall i, q i = q' i) -> WInv p q d -> WInv p' q' d.
Proof. intros Hp Hq []. split; auto; intros i; rewrite <- ?Hp, <- ?Hq; auto. Qed.

Lemma empty_db_WInv : WInv zeroz zeroz empty_db.
Proof. by split. Qed.

Lemma WithdrawalRef_inj i j : WithdrawalRef i = WithdrawalRef j -> i = j.
Proof.
  unfold WithdrawalRef. intros H. apply (inj (String.append "withdrawal:")) in H.
  by apply (inj pretty) in H.
Qed.

Lemma leg_sum_append ref leg row d :
  leg_sum ref leg (append_ledger row d) =
  leg_sum ref leg d +
  if bool_decide (lg_ref row = Some ref) && String.eqb (lg_leg row) leg then lg_delta_raw row else 0.
Proof. unfold leg_sum, append_ledger. simpl. rewrite list_sum_by_app. simpl. lia. Qed.

(** A movement of one withdrawal. *)
Lemma WInv_append p q d acct delta source leg cp id t :
  WInv p q d ->
  WInv (fun k => p k + if String.eqb leg "withdraw" then atz id delta k else 0)
       (fun k => q k + if String.eqb leg "restore" then atz id delta k else 0)
       (append_ledger (movement acct delta source leg cp (WithdrawalRef id) t) d).
Proof.
  intros [Hs Hr Hw Hre].
  split; [exact Hs|exact Hr|intros k; rewrite leg_sum_append;
    cbn [lg_ref lg_leg lg_delta_raw movement]..].
  - rewrite Hw. change (exp_withdraw (append_ledger _ d) k) with (exp_withdraw d k).
    unfold atz. destruct (id =? k) eqn:E; zb.
    + subst. rewrite bool_decide_true by done. simpl. destruct (String.eqb leg "withdraw"); lia.
    + rewrite bool_decide_false by (intros Heq; apply E, WithdrawalRef_inj; congruence).
      simpl. destruct (String.eqb leg "withdraw"); lia.
  - rewrite Hre. change (exp_restore (append_ledger _ d) k) with (exp_restore d k).
    unfold atz. destruct (id =? k) eqn:E; zb.
    + subst. rewrite bool_decide_true by done. simpl. destruct (String.eqb leg "restore"); lia.
    + rewrite bool_decide_false by (intros Heq; apply E, WithdrawalRef_inj; congruence).
      simpl. destruct (String.eqb leg "restore"); lia.
Qed.

Lemma WInv_update p q d id r r' :
  WInv p q d -> withdrawals d !! id = Some r -> wr_amount_raw r' = wr_amount_raw r ->
  let res s := if bool_decide (wr_state s = WithdrawalRestored) then wr_amount_raw s else 0 in
  WInv p (fun k => q k + atz id (res r - res r') k) (set_withdrawal id r' d).
Proof.
  intros [Hs Hr Hw Hre] Hid Ha res. split; simpl; try done.
  - intros k rk Hk. destruct (decide (id = k)) as [->|Hne].
    + rewrite lookup_insert_eq in Hk. simplify_eq. destruct (Hr k r Hid). split; [done|lia].
    + rewrite lookup_insert_ne in Hk by done. eauto.
  - intros k. change (leg_sum _ _ (set_withdrawal id r' d)) with (leg_sum (WithdrawalRef k) "withdraw" d).
    rewrite Hw. unfold exp_withdraw. simpl. destruct (decide (id = k)) as [->|Hne].
    + rewrite lookup_insert_eq, Hid. lia.
    + by rewrite lookup_insert_ne.
  - intros k. change (leg_sum _ _ (set_withdrawal id r' d)) with (leg_sum (WithdrawalRef k) "restore" d).
    rewrite Hre. unfold exp_restore, atz. simpl. destruct (id =? k) eqn:E; zb.
    + subst. rewrite lookup_insert_eq, Hid. unfold res. lia.
    + rewrite lookup_insert_ne by done. lia.
Qed.

Lemma WInv_insert d r :
  WInv zeroz zeroz d -> 0 < wr_amount_raw r -> wr_state r <> WithdrawalRestored ->
  let id := withdrawals_seq d in
  withdrawals d !! id = None /\
  WInv (atz id (wr_amount_raw r)) zeroz (set_withdrawal id r (set_withdrawals_seq (id + 1) d)).
Proof.
  intros [Hs Hr Hw Hre] Ha Hst id.
  assert (Hnone : withdrawals d !! id = None).
  { destruct (withdrawals d !! id) as [r0|] eqn:E; [|done].
    destruct (Hr id r0 E). unfold id in *. lia. }
  split; [done|]. split; simpl.
  - unfold id; lia.
  - intros k rk Hk. destruct (decide (id = k)) as [<-|Hne].
    + rewrite lookup_insert_eq in Hk. simplify_eq. unfold id in *. lia.
    + rewrite lookup_insert_ne in Hk by done. destruct (Hr k rk Hk). unfold id in *. lia.
  - intros k. change (leg_sum _ _ _) with (leg_sum (WithdrawalRef k) "withdraw" d).
    rewrite Hw. unfold exp_withdraw, atz, zeroz. simpl. destruct (id =? k) eqn:E; zb.
    + subst k. rewrite lookup_insert_eq, Hnone. lia.
    + by rewrite lookup_insert_ne.
  - intros k. change (leg_sum _ _ _) with (leg_sum (WithdrawalRef k) "restore" d).
    rewrite Hre. unfold exp_restore, zeroz. simpl. destruct (decide (id = k)) as [<-|Hne].
    + rewrite lookup_insert_eq, Hnone. by rewrite bool_decide_false.
    + by rewrite lookup_insert_ne.
Qed.

(** ** Statements outside the withdrawals *)

(** The billing tables are untouched. *)
Definition same_billing (d d' : db) : Prop :=
  credits d' = credits d /\ requests d' = requests d /\ ledger d' = ledger d /\
  ledger_seq d' = ledger_seq d.

Lemma Core_frame exc x y d d' : same_billing d d' -> Core exc x y d -> Core exc x y d'.
Proof.
  intros (Hc & Hr & Hl & Hs) [H1 H2 H3 H4 H5 H6 H7].
  assert (He : forall a, credit_of a d' = credit_of a d /\ reserved_of a d' = reserved_of a d /\
                ledger_sum a d' = ledger_sum a d /\ open_sum a d' = open_sum a d).
  { intros a. unfold credit_of, reserved_of, ledger_sum, open_sum. by rewrite Hc, Hr, Hl. }
  split.
  - by rewrite Hc.
  - intros a. destruct (He a) as (-> & _ & -> & _). auto.
  - intros a. destruct (He a) as (_ & -> & _ & ->). auto.
  - by rewrite Hr.
  - by rewrite Hl, Hs.
  - by rewrite Hl.
  - rewrite Hl. eapply Forall_impl; [exact H7|]. intros row Hrow. unfold leg_fresh. by rewrite Hr.
Qed.

(** The withdrawals and their legs are untouched. *)
Record wframe (d d' : db) : Prop := {
  wf_rows : withdrawals d' = withdrawals d;
  wf_seq : withdrawals_seq d' = withdrawals_seq d;
  wf_legs : forall ref leg, leg ∈ (["withdraw"; "restore"]%string : list string) ->
    leg_sum ref leg d' = leg_sum ref leg d }.

#[export] Instance wframe_preorder : PreOrder wframe.
Proof.
  split.
  - intros d. by split.
  - intros d1 d2 d3 [] []. split; try congruence. intros ref leg Hl. rewrite <- wf_legs0 by done. auto.
Qed.

Lemma WInv_frame p q d d' : wframe d d' -> WInv p q d -> WInv p q d'.
Proof.
  intros [Hr Hs Hl] [H1 H2 H3 H4]. split.
  - by rewrite Hs.
  - by rewrite Hr, Hs.
  - intros id. rewrite Hl by (left; done). rewrite H3. unfold exp_withdraw. by rewrite Hr.
  - intros id. rewrite Hl by (right; left; done). rewrite H4. unfold exp_restore. by rewrite Hr.
Qed.

Lemma Life_frame d0 d d' : wframe d d' -> Life d0 d -> Life d0 d'.
Proof. intros [Hr _ _] HL id r H. rewrite Hr. by apply HL. Qed.

Lemma wframe_credits d v : wframe d (set_credits v d).
Proof. by split. Qed.
Lemma wframe_requests d v : wframe d (set_requests v d).
Proof. by split. Qed.

Lemma wframe_append row d :
  lg_leg row <> "withdraw"%string -> lg_leg row <> "restore"%string -> wframe d (append_ledger row d).
Proof.
  intros H1 H2. split; try done. intros ref leg Hl. rewrite leg_sum_append.
  assert (String.eqb (lg_leg row) leg = false) as ->.
  { apply String.eqb_neq. intros <-. apply elem_of_cons in Hl as [?|Hl]; [done|].
    by apply list_elem_of_singleton in Hl. }
  rewrite andb_false_r. lia.
Qed.

Lemma wframe_ensure a t d u d' : sql_ensure_credit a t d = Ok (u, d') -> wframe d d'.
Proof.
  unfold sql_ensure_credit. destruct (credits d !! a); [by intros [= _ <-]|].
  intros (d'' & (-> & _)%write_credit_Ok & [= _ <-])%res_bind_Ok. apply wframe_credits.
Qed.

Lemma wframe_update a f d u d' : sql_update_credit a f d = Ok (u, d') -> wframe d d'.
Proof.
  unfold sql_update_credit. destruct (credits d !! a); [|by intros [= _ <-]].
  intros (d'' & (-> & _)%write_credit_Ok & [= _ <-])%res_bind_Ok. apply wframe_credits.
Qed.

Lemma wframe_query {A} (f : db -> A) d a d' : query f d = Ok (a, d') -> wframe d d'.
Proof. unfold query. by intros [= _ <-]. Qed.
#[export] Hint Resolve wframe_ensure wframe_update wframe_query : moves.

Lemma applyDelta_wframe a c r t : Moves wframe (applyDelta a c r t).
Proof. unfold applyDelta, sql_lock_credit. moves. Qed.
#[export] Hint Resolve applyDelta_wframe : moves.

(** ** The methods *)
Section Methods.
Context (x : string -> Z) (d0 : db).

(** The committed state: projection, legs and lifecycle (since [d0]). *)
Definition WState (d : db) : Prop := Inv x d /\ WInv zeroz zeroz d /\ Life d0 d.

Let I : db -> Prop := WState.

(** In a transaction: outstanding legs [p] and [q], imbalance [u] of the credit. *)
Definition WMid (u : string -> Z) (p q : Z -> Z) (W : gmap Z WithdrawalRow) (w : db) : Prop :=
  Core None u zero w /\ WInv p q w /\ Life d0 w /\ withdrawals w = W.

Lemma WMid_frame u u' p q W w w' :
  WMid u p q W w -> wframe w w' -> Core None u' zero w' -> WMid u' p q W w'.
Proof.
  intros (_ & HW & HL & <-) Hf HC. split; [done|]. split; [by eapply WInv_frame|].
  split; [by eapply Life_frame|]. by destruct Hf.
Qed.

Lemma applyDelta_w u p q W a c t :
  triple I (WMid u p q W) (applyDelta a c 0 t) (post (fun _ => WMid (plus u (at_ a c)) p q W)).
Proof.
  unfold applyDelta.
  eapply tbind with (R := fun _ w => WMid u p q W w /\ is_Some (credits w !! a)).
  { apply twrap, tstmt. intros w [] w' HM Hs.
    destruct (Core_ensure _ _ _ _ _ _ _ _ (proj1 HM) Hs).
    split; [|done]. eapply WMid_frame; [done|by eapply wframe_ensure|done]. }
  intros _. eapply tbind with (R := fun _ w => WMid u p q W w /\ is_Some (credits w !! a)).
  { apply twrap, tscan, tquery. auto. }
  intros cr. eapply tbind; [|intros; apply tret; intros ? Hw; exact Hw].
  apply twrap, tstmt. intros w [] w' [HM Ha] Hs.
  destruct (Core_update _ _ _ _ _ _ _ _ _ _ (proj1 HM) Ha Hs) as [HC _].
  eapply WMid_frame; [done|by eapply wframe_update|].
  eapply Core_ext; [| |exact HC]; intros b; at_cases.
Qed.

(** Inserting the withdraw or restore leg of one withdrawal. *)
Lemma movement_w u p q W acct delta leg cp id t w w' n :
  leg = "withdraw"%string \/ leg = "restore"%string ->
  WMid u p q W w ->
  sql_insert_ledger (movement acct delta "withdraw" leg cp (WithdrawalRef id) t) w = Ok (n, w') ->
  WMid (plus u (at_ acct (- delta)))
    (fun k => p k + if String.eqb leg "withdraw" then atz id delta k else 0)
    (fun k => q k + if String.eqb leg "restore" then atz id delta k else 0) W w'.
Proof.
  intros Hleg (HC & HW & HL & HWd) Hs.
  assert (Hw' : w' = append_ledger (movement acct delta "withdraw" leg cp (WithdrawalRef id) t) w).
  { unfold sql_insert_ledger in Hs. destruct (ledger_row_check _); [done|].
    destruct (ledger_taken _ _ _); [done|]. by simplify_eq. }
  split; [|split; [|split]].
  - eapply Core_insert_ledger in Hs; [exact (proj1 Hs)|done|].
    apply leg_fresh_other. simpl. by destruct Hleg as [-> | ->].
  - rewrite Hw'. by apply WInv_append.
  - rewrite Hw'. exact HL.
  - rewrite Hw'. exact HWd.
Qed.

Lemma w_commit fmt : triple I WState (wrap fmt commit) (post (fun _ _ => False)).
Proof. by apply tcommit. Qed.

Lemma existing_w qr : triple I WState (existingWithdrawal qr) (post (fun _ _ => True)).
Proof.
  unfold existingWithdrawal. eapply tbind with (R := fun _ => WState).
  { apply twrap, tscan, tquery. auto. }
  intros pr; cbn beta. apply tif; [intros; apply tfail|]. intros _.
  eapply tbind; [apply w_commit|]. intros ?. by apply tret.
Qed.

Lemma debit_w id qr t W :
  triple I (WMid x (atz id (wq_AmountRaw qr)) zeroz W) (debitWithdrawal id qr t)
    (post (fun _ _ => True)).
Proof.
  unfold debitWithdrawal.
  eapply triple_attempt with (R := post (fun _ => WMid (plus x (at_ (wq_AccountID qr) (- wq_AmountRaw qr)))
    (atz id (wq_AmountRaw qr)) zeroz W)); [apply applyDelta_w|].
  intros [[cr rr]|e]; simpl; [|apply tfail].
  apply tif; [intros; apply tfail|]. intros _.
  eapply tbind with (R := fun _ => WState); [|intros ?; eapply tbind; [apply w_commit|intros ?; by apply tret]].
  unfold insert_leg. eapply tattempt with (R := fun _ => WState).
  - intros w [] w' HM Hs. apply (movement_w _ _ _ _ _ _ _ _ _ _ _ _ _ (or_introl eq_refl) HM) in Hs.
    destruct Hs as (HC & HW & HL & _). split; [|split; [|done]].
    + eapply Core_ext; [| |exact HC]; intros b; at_cases.
    + eapply WInv_ext; [| |exact HW]; intros k; unfold atz, zeroz; simpl; destruct (id =? k); lia.
  - intros ?. by apply tret.
  - intros e. destruct (isUniqueViolation e); apply tfail.
Qed.

Lemma Life_insert d r id n :
  withdrawals d !! id = None -> Life d0 d -> Life d0 (set_withdrawal id r (set_withdrawals_seq n d)).
Proof.
  intros Hnone HL k rk Hk. destruct (HL k rk Hk) as (r' & Hr' & He). exists r'.
  split; [|done]. simpl. rewrite lookup_insert_ne; [done|congruence].
Qed.

Lemma insert_w qr t :
  wq_AmountRaw qr > 0 ->
  triple I WState (scan_row (tx_stmt (sql_insert_withdrawal (row_reserved qr t))))
    (fun r w => match r with
      | Ok id => exists W, id <> 0 /\ WMid x (atz id (wq_AmountRaw qr)) zeroz W w
      | Err _ => WState w end).
Proof.
  intros Ha. unfold scan_row.
  eapply triple_bind with (R := fun o w => match o with
    | Some id => exists W, id <> 0 /\ WMid x (atz id (wq_AmountRaw qr)) zeroz W w
    | None => WState w end).
  - apply triple_stmt. intros w o w' (HI & HW & HL) Hs. unfold sql_insert_withdrawal in Hs.
    destruct (_ <=? 0) eqn:?; [done|]. simpl in Hs. pose proof (wi_seq _ _ _ HW).
    destruct (find_key _ _) as [[]|]; simplify_eq.
    + split; [eapply Core_frame; [|exact HI]; done|]. split; [|exact HL].
      destruct HW as [? Hrows ? ?]. split; simpl; try done; [lia|].
      intros id r Hid. destruct (Hrows id r Hid). split; lia.
    + destruct (WInv_insert w (row_reserved qr t)) as [Hnone HW']; [done|simpl; lia|done|].
      eexists. split; [lia|]. split; [eapply Core_frame; [|exact HI]; done|]. split; [exact HW'|].
      split; [by apply Life_insert|done].
  - intros [id|]; [by apply triple_ret|by apply triple_fail].
Qed.

Lemma debit_tame id qr t : Tame (debitWithdrawal id qr t).
Proof. unfold debitWithdrawal. tame. Qed.

Lemma reserve_w qr now : Preserves I (ReserveWithdrawal qr now).
Proof.
  unfold ReserveWithdrawal. destruct (checkWithdrawalRequest qr) eqn:Hchk; [auto with otela|].
  assert (Ha : wq_AmountRaw qr > 0).
  { unfold checkWithdrawalRequest in Hchk.
    repeat match type of Hchk with context [if ?b then _ else _] => destruct b eqn:? end; zb; done || lia. }
  apply preserves_bind; [unfold now_or; destruct (IsZero now); auto with otela|]. intros t.
  apply tbody. eapply triple_attempt; [by apply insert_w|]. intros [id|e]; simpl.
  - apply texists; [destruct (id =? 0); [unfold existingWithdrawal; tame|apply debit_tame]|].
    intros W. destruct (id =? 0) eqn:E; zb.
    + eapply tpre; [|apply existing_w]. by intros w [? ?].
    + eapply tpre; [|apply debit_w]. by intros w [_ ?].
  - destruct (_ && _); [apply tfail|apply existing_w].
Qed.

(** ** Guarded transitions *)
Lemma lock_w id P :
  triple I P (lockWithdrawal id)
    (post (fun v w => P w /\ exists row, withdrawals w !! id = Some row /\ v = scanWithdrawal id row)).
Proof.
  unfold lockWithdrawal, read_withdrawal, in_tx, sql_select_withdrawal, query.
  eapply tattempt_live with (R := fun row w => P w /\ withdrawals w !! id = Some row).
  - apply tscan, tquery. auto.
  - intros row. simpl. apply tret. intros w [HP Hrow]. eauto.
  - intros e. destruct (errors_is _ _); apply tfail.
Qed.

Lemma requery_w fmt id : Preserves I (read_withdrawal on_pool fmt id).
Proof.
  unfold read_withdrawal, on_pool, sql_select_withdrawal, query.
  apply preserves_attempt.
  - unfold scan_row. apply preserves_bind; [|intros [?|]; auto with otela].
    apply preserves_pool. by intros d a d' HI [= _ <-].
  - intros [row|e]; [auto with otela|]. destruct (errors_is _ _); auto with otela.
Qed.

(** What an update of one row in state [s] needs: [f] moves it along [wstep] and
    the effect before it owes exactly what the new state records. *)
Definition step_ok (from : WithdrawalState -> bool) (f : WithdrawalRow -> WithdrawalRow) : Prop :=
  forall r, from (wr_state r) = true ->
    wr_account_id (f r) = wr_account_id r /\ wr_idempotency_key (f r) = wr_idempotency_key r /\
    wr_destination_wallet (f r) = wr_destination_wallet r /\
    wr_amount_raw (f r) = wr_amount_raw r /\ wstep (wr_state r) (wr_state (f r)).

Lemma update_w id from f row w w' n c :
  step_ok from f -> from (wr_state row) = true -> withdrawals w !! id = Some row ->
  c = (if bool_decide (wr_state (f row) = WithdrawalRestored) then wr_amount_raw row else 0) ->
  WMid x zeroz (atz id c) (withdrawals w) w ->
  sql_update_withdrawal id f w = Ok (n, w') -> WState w'.
Proof.
  intros Hf Hfrom Hrow Hc (HC & HW & HL & _) Hs.
  destruct (Hf row Hfrom) as (Ha & Hk & Hd & Hm & Hst).
  unfold sql_update_withdrawal in Hs. rewrite Hrow in Hs. simplify_eq.
  split; [eapply Core_frame; [|exact HC]; done|]. split.
  - eapply WInv_ext; [| |eapply WInv_update; [exact HW|exact Hrow|exact Hm]]; [done|].
    intros k. simpl. unfold atz, zeroz. destruct (id =? k); [|done].
    rewrite (bool_decide_false (wr_state row = WithdrawalRestored)).
    + rewrite Hm. lia.
    + intros E. rewrite E in Hst. by apply wstep_terminal in Hst.
  - intros k rk Hk'. destruct (HL k rk Hk') as (r' & Hr' & He). simpl.
    destruct (decide (id = k)) as [<-|Hne].
    + rewrite lookup_insert_eq. rewrite Hrow in Hr'. simplify_eq. eexists. split; [done|].
      destruct He. split; try congruence. eapply rtc_r; eassumption.
    + rewrite lookup_insert_ne by done. eauto.
Qed.

Lemma transition_w pre applyfmt from id now effect f :
  (forall t, step_ok from (f t)) ->
  (forall v t, Tame (effect v t)) ->
  (forall row t W, W !! id = Some row -> from (wr_state row) = true ->
    triple I (WMid x zeroz zeroz W) (effect (scanWithdrawal id row) t)
      (post (fun _ => WMid x zeroz (atz id (if bool_decide (wr_state (f t row) = WithdrawalRestored)
                                           then wr_amount_raw row else 0)) W))) ->
  Preserves I (transition pre applyfmt from id now effect f).
Proof.
  intros Hf Ht He. unfold transition.
  apply preserves_bind; [unfold now_or; destruct (IsZero now); auto with otela|]. intros t.
  apply preserves_bind; [|intros [w|]; [auto with otela|apply requery_w]].
  apply tbody. eapply tbind; [apply lock_w|]. intros v; cbn beta.
  assert (Htame : Tame (if negb (from (wd_State v))
    then bind (wrap pre commit) (fun _ => ret (Some v))
    else bind (effect v t) (fun _ => bind (wrap applyfmt (tx_stmt (sql_update_withdrawal id (f t))))
           (fun _ => bind (wrap pre commit) (fun _ => ret (@None Withdrawal))))))
    by (tame; apply Ht).
  apply tpre with (P := fun w => exists row, v = scanWithdrawal id row /\
    (WState w /\ withdrawals w !! id = Some row)).
  { intros w [HI (row & Hrow & ->)]. eauto. }
  apply texists; [exact Htame|]. intros row. apply tpure; [exact Htame|].
  intros ->. simpl. clear Htame. apply tif; intros Hfrom; zb.
  { eapply tbind with (R := fun _ _ => False); [|intros ?; by apply tret].
    eapply tpre; [|apply w_commit]. by intros w [? _]. }
  set (c := if bool_decide (wr_state (f t row) = WithdrawalRestored) then wr_amount_raw row else 0).
  eapply tbind with (R := fun _ w => withdrawals w !! id = Some row /\
    WMid x zeroz (atz id c) (withdrawals w) w).
  { apply tpre with (P := fun w => exists W, W !! id = Some row /\ WMid x zeroz zeroz W w).
    { intros w [(HI & HW & HL) Hrow]. exists (withdrawals w). by split. }
    apply texists; [apply Ht|]. intros W. apply tpure; [apply Ht|]. intros Hrow.
    eapply tpost; [by apply He|]. intros ? w HM. pose proof HM as (_ & _ & _ & HW). by rewrite HW. }
  intros ?. eapply tbind with (R := fun _ => WState).
  { apply twrap, tstmt. intros w [] w' [Hrow HM] Hs. by eapply update_w. }
  intros ?. eapply tbind; [apply w_commit|]. intros ?. by apply tret.
Qed.

Lemma no_effect_w from f id row t W :
  step_ok from f -> from (wr_state row) = true -> wr_state (f row) <> WithdrawalRestored ->
  triple I (WMid x zeroz zeroz W) (no_effect (scanWithdrawal id row) t)
    (post (fun _ => WMid x zeroz (atz id (if bool_decide (wr_state (f row) = WithdrawalRestored)
                                         then wr_amount_raw row else 0)) W)).
Proof.
  intros _ _ Hne. apply tret. intros w (HC & HW & HL & HWd). split; [done|].
  split; [|by split]. rewrite bool_decide_false by done.
  eapply WInv_ext; [| |exact HW]; intros k; [done|]. unfold atz, zeroz. by destruct (id =? k).
Qed.

Lemma creditBack_tame id v t : Tame (creditBack id v t).
Proof. unfold creditBack. tame. Qed.
Lemma no_effect_tame v t : Tame (no_effect v t).
Proof. unfold no_effect. tame. Qed.

Lemma creditBack_w id row t W :
  triple I (WMid x zeroz zeroz W) (creditBack id (scanWithdrawal id row) t)
    (post (fun _ => WMid x zeroz (atz id (wr_amount_raw row)) W)).
Proof.
  unfold creditBack. eapply tbind; [apply twrap, applyDelta_w|]. intros ?; cbn beta.
  eapply tattempt with (R := fun _ => WMid x zeroz (atz id (wr_amount_raw row)) W).
  - intros w [] w' HM Hs. simpl in *.
    apply (movement_w _ _ _ _ _ _ _ _ _ _ _ _ _ (or_intror eq_refl) HM) in Hs.
    destruct Hs as (HC & HW & HL & HWd). split; [|split; [|by split]].
    + eapply Core_ext; [| |exact HC]; intros b; at_cases.
    + eapply WInv_ext; [| |exact HW]; intros k; unfold atz, zeroz; simpl; [lia|].
      destruct (id =? k); lia.
  - intros ?. by apply tret.
  - intros e. destruct (isUniqueViolation e); [by apply tret|apply tfail].
Qed.

Ltac step_ok_by :=
  intros r Hr; unfold open_state in *;
  destruct r as [? ? ? ? []]; simpl in *; try done; repeat split; try constructor; done.

Lemma signed_w id wire sig hash h expires now :
  Preserves I (MarkWithdrawalSigned id wire sig hash h expires now).
Proof.
  unfold MarkWithdrawalSigned. destruct (_ || _); [auto with otela|].
  assert (Hok : forall t, step_ok (fun s => bool_decide (s = WithdrawalReserved))
    (row_signed wire sig hash (i64 h) (if IsZero expires then None else Some expires) t))
    by (intros t; step_ok_by).
  apply transition_w; [done|intros; apply no_effect_tame|].
  intros row t W _ Hfrom. apply no_effect_w with (from := fun s => bool_decide (s = WithdrawalReserved)); done.
Qed.

Lemma broadcast_w id now : Preserves I (MarkWithdrawalBroadcast id now).
Proof.
  assert (Hok : forall t, step_ok (fun s => bool_decide (s = WithdrawalSigned)) (row_broadcast t))
    by (intros t; step_ok_by).
  apply transition_w; [done|intros; apply no_effect_tame|].
  intros row t W _ Hfrom. apply no_effect_w with (from := fun s => bool_decide (s = WithdrawalSigned)); done.
Qed.

Lemma finalize_w id now : Preserves I (FinalizeWithdrawal id now).
Proof.
  assert (Hok : forall t, step_ok (fun s => bool_decide (s = WithdrawalSigned) ||
    bool_decide (s = WithdrawalBroadcast)) (row_finalized t)) by (intros t; step_ok_by).
  apply transition_w; [done|intros; apply no_effect_tame|].
  intros row t W _ Hfrom. eapply no_effect_w; [apply (Hok t)|exact Hfrom|done].
Qed.

Lemma fail_w id reason now : Preserves I (FailWithdrawal id reason now).
Proof.
  assert (Hok : step_ok open_state (row_stopped WithdrawalFailed reason)) by step_ok_by.
  apply transition_w; [done|intros; apply no_effect_tame|].
  intros row t W _ Hfrom. apply no_effect_w with (from := open_state); done.
Qed.

Lemma restore_w id reason now : Preserves I (RestoreWithdrawal id reason now).
Proof.
  assert (Hok : step_ok open_state (row_stopped WithdrawalRestored reason)) by step_ok_by.
  apply transition_w; [done|intros; apply creditBack_tame|].
  intros row t W _ Hfrom. simpl. apply creditBack_w.
Qed.

Lemma due_w limit : Preserves I (SweepWithdrawalsDue limit).
Proof.
  unfold SweepWithdrawalsDue, sql_due_withdrawals, query. apply tbody.
  eapply tbind with (R := fun _ => WState); [apply twrap, tquery; auto|]. intros ?.
  eapply tbind; [apply w_commit|]. intros ?. by apply tret.
Qed.

(** A method that keeps the projection and does not touch the withdrawals. *)
Lemma frame_w {A} (m : store A) : Preserves (Inv x) m -> Moves wframe m -> Preserves I m.
Proof.
  intros Hp Hm e c Hc (HI & HW & HL). destruct (Hp e c Hc HI) as [Hc' HI']. split; [done|].
  destruct (Hm e c (c_db c)) as [Hf _]; [done|intros w Hw; congruence|].
  split; [done|]. split; [by eapply WInv_frame|by eapply Life_frame].
Qed.
End Methods.
