(* ===== verification/DepositStore.v ===== *)
(** * internal/store/deposit.go: deposit events, attribution and the scan cursor *)
From Stdlib Require Import ZArith Lia Strings.Ascii.
From stdpp Require Import base gmap strings list fin_maps sorting pretty.
From S2P Require Import Prelude Billing Tx Schema BillingStore.

Open Scope Z_scope.
Open Scope tx_scope.

Definition depositRef (signature : string) (instructionIndex : Z) : string :=
  "sol:" +:+ (signature +:+ (":" +:+ pretty instructionIndex)).

(** INSERT INTO deposit_events ... ON CONFLICT DO NOTHING, rows affected.  The
    instruction_index column is an INT: pgx encodes a Go int as an int4. *)
Definition sql_insert_deposit (ev : DepositEvent) : stmt db Z := fun d =>
  let k := (de_TransactionSignature ev, de_InstructionIndex ev) in
  if negb (bool_decide (in_i32 (de_InstructionIndex ev))) then Err EncodeError
  else if de_AmountRaw ev <=? 0 then Err CheckViolation
  else match deposits d !! k with
       | Some _ => Ok (0, d)
       | None => Ok (1, set_deposits (<[k := ev]> (deposits d)) d)
       end.

Definition InsertDepositEvent (ev : DepositEvent) : store bool :=
  if String.eqb (de_TransactionSignature ev) ""
  then fail (Wrapf "store: insert deposit: %w" ErrInvalid)
  else if de_AmountRaw ev <=? 0
  then fail (Wrapf "store: insert deposit: %w: amount must be positive" ErrInvalid)
  else if String.eqb (de_FromWallet ev) ""
  then fail (Wrapf "store: insert deposit: %w: from_wallet required" ErrInvalid)
  else
    let! seen := now_or (de_SeenAt ev) in
    let! n := wrap "store: insert deposit: %w" (pool_stmt (sql_insert_deposit
      (mkDeposit (de_TransactionSignature ev) (de_InstructionIndex ev) (de_Slot ev)
         (de_FromWallet ev) (de_AmountRaw ev) None Unassigned None seen))) in
    ret (n >? 0).

(** ** The cursor *)
Definition DepositCursor (treasuryATA : string) : store string :=
  if String.eqb treasuryATA ""
  then fail (Wrapf "store: deposit cursor: %w: treasury ATA required" ErrInvalid)
  else
    let!? r := scan_row (pool_stmt (query (fun d => dep_cursors d !! treasuryATA))) in
    match r with
    | Err e => if errors_is e ErrNoRows then ret ""%string
               else fail (Wrapf "store: deposit cursor: %w" e)
    | Ok s => ret s
    end.

Definition sql_insert_cursor (ata sig : string) : stmt db Z := fun d =>
  match dep_cursors d !! ata with
  | Some _ => Ok (0, d)
  | None => Ok (1, set_dep_cursors (<[ata := sig]> (dep_cursors d)) d)
  end.

Definition sql_cas_cursor (ata from to : string) : stmt db Z := fun d =>
  match dep_cursors d !! ata with
  | Some s => if String.eqb s from
              then Ok (1, set_dep_cursors (<[ata := to]> (dep_cursors d)) d) else Ok (0, d)
  | None => Ok (0, d)
  end.

Definition AdvanceDepositCursor (treasuryATA fromSignature toSignature : string) : store bool :=
  if String.eqb treasuryATA "" || String.eqb toSignature ""
  then fail (Wrapf "store: advance deposit cursor: %w: treasury ATA and to-signature required"
               ErrInvalid)
  else if String.eqb fromSignature toSignature then ret true
  else if String.eqb fromSignature "" then
    let! n := wrap "store: advance deposit cursor: %w"
                (pool_stmt (sql_insert_cursor treasuryATA toSignature)) in
    ret (n >? 0)
  else
    let! n := wrap "store: advance deposit cursor: %w"
                (pool_stmt (sql_cas_cursor treasuryATA fromSignature toSignature)) in
    ret (n >? 0).

(** ** Crediting *)
Definition sql_select_deposit (k : string * Z) : stmt db (option DepositEvent) :=
  query (fun d => deposits d !! k).

Definition lockDepositEvent (signature : string) (instructionIndex : Z) : store DepositEvent :=
  let!? r := scan_row (tx_stmt (sql_select_deposit (signature, instructionIndex))) in
  match r with
  | Err e => if errors_is e ErrNoRows then fail (Wrapf "store: apply deposit: %w" ErrNotFound)
             else fail (Wrapf "store: apply deposit: %w" e)
  | Ok ev => ret ev
  end.

Definition event_assigned (a : string) (t : time) (ev : DepositEvent) : DepositEvent :=
  mkDeposit (de_TransactionSignature ev) (de_InstructionIndex ev) (de_Slot ev)
    (de_FromWallet ev) (de_AmountRaw ev) (Some a) Assigned (Some t) (de_SeenAt ev).

Definition sql_assign_deposit (k : string * Z) (a : string) (t : time) : stmt db unit := fun d =>
  match deposits d !! k with
  | None => Ok (tt, d)
  | Some ev => Ok (tt, set_deposits (<[k := event_assigned a t ev]> (deposits d)) d)
  end.

(** A duplicate leg falls through to the UPDATE. *)
Definition creditDepositLocked (ev : DepositEvent) (a : string) (t : time) : store DepositEvent :=
  do! wrap "store: credit deposit: %w" (applyDelta a (de_AmountRaw ev) 0 t) in
  let!? r := tx_stmt (sql_insert_ledger
    (movement a (de_AmountRaw ev) "deposit" "deposit" (de_FromWallet ev)
       (depositRef (de_TransactionSignature ev) (de_InstructionIndex ev)) t)) in
  do! (match r with
       | Err e => if isUniqueViolation e then ret tt
                  else fail (Wrapf "store: credit deposit: ledger: %w" e)
       | Ok _ => ret tt
       end) in
  do! wrap "store: credit deposit: mark: %w"
        (tx_stmt (sql_assign_deposit (de_TransactionSignature ev, de_InstructionIndex ev) a t)) in
  ret (event_assigned a t ev).

Definition ApplyDeposit (signature : string) (instructionIndex : Z) (a : string) (now : time)
    : store DepositEvent :=
  if String.eqb a "" then fail (Wrapf "store: apply deposit: %w: account id required" ErrInvalid)
  else
    let! t := now_or now in
    with_tx "store: apply deposit: %w" (
      let! ev := lockDepositEvent signature instructionIndex in
      match de_AssignmentState ev with
      | Assigned =>
        if negb (bool_decide (de_AssignedAccountID ev = Some a))
        then fail (Wrapf "store: apply deposit: %w: deposit already credited to another account"
                     ErrConflict)
        else do! wrap "store: apply deposit: %w" commit in ret ev
      | Skipped => do! wrap "store: apply deposit: %w" commit in ret ev
      | Unassigned =>
        let! ev' := creditDepositLocked ev a t in
        do! wrap "store: apply deposit: %w" commit in
        ret ev'
      end).

Definition unassigned_from (wallet : string) (ev : DepositEvent) : bool :=
  String.eqb (de_FromWallet ev) wallet && bool_decide (de_AssignmentState ev = Unassigned) &&
  bool_decide (de_CreditedAt ev = None).

Definition deposit_key_le (x y : (string * Z) * DepositEvent) : Prop :=
  de_SeenAt (snd x) < de_SeenAt (snd y) \/ (de_SeenAt (snd x) = de_SeenAt (snd y) /\
  (String.ltb (fst (fst x)) (fst (fst y)) = true \/
   (fst (fst x) = fst (fst y) /\ snd (fst x) <= snd (fst y)))).
#[export] Instance deposit_key_le_dec : RelDecision deposit_key_le.
Proof. intros x y. unfold deposit_key_le. apply _. Defined.

(** SELECT ... WHERE from_wallet = $1 AND ... ORDER BY ... FOR UPDATE (no LIMIT) *)
Definition sql_unassigned (wallet : string) : stmt db (list ((string * Z) * DepositEvent)) :=
  query (fun d => select deposit_key_le (fun p => unassigned_from wallet (snd p) = true)
                    (size (deposits d)) (deposits d)).

Fixpoint creditBatch (events : list ((string * Z) * DepositEvent)) (a : string) (t : time)
    : store unit :=
  match events with
  | [] => ret tt
  | (_, ev) :: rest =>
    do! creditDepositLocked ev a t in
    creditBatch rest a t
  end.

Definition ReconcileDepositsForWallet (wallet a : string) (now : time) : store Z :=
  if String.eqb wallet "" || String.eqb a ""
  then fail (Wrapf "store: reconcile deposits: %w: wallet and account required" ErrInvalid)
  else
    let! t := now_or now in
    with_tx "store: reconcile deposits: %w" (
      let! events := wrap "store: reconcile deposits: %w" (tx_stmt (sql_unassigned wallet)) in
      do! (if (0 <? length events)%nat
           then do! wrap "store: reconcile deposits: lock account: %w" (applyDelta a 0 0 t) in ret tt
           else ret tt) in
      do! creditBatch events a t in
      do! wrap "store: reconcile deposits: %w" commit in
      ret (Z.of_nat (length events))).

(** ** Pages of an account's credited deposits, newest first *)
Record DepositListCursor := mkDepositListCursor {
  dc_SeenAt : time; dc_TransactionSignature : string; dc_InstructionIndex : Z }.
Definition deposit_cursor (ev : DepositEvent) : DepositListCursor :=
  mkDepositListCursor (de_SeenAt ev) (de_TransactionSignature ev) (de_InstructionIndex ev).
(** The row comparison [(seen_at, transaction_signature, instruction_index) < ($2, $3, $4)]. *)
Definition cursor_lt (x y : DepositListCursor) : bool :=
  (dc_SeenAt x <? dc_SeenAt y) || ((dc_SeenAt x =? dc_SeenAt y) &&
    (String.ltb (dc_TransactionSignature x) (dc_TransactionSignature y) ||
     (String.eqb (dc_TransactionSignature x) (dc_TransactionSignature y) &&
      (dc_InstructionIndex x <? dc_InstructionIndex y)))).
Definition deposit_newer (x y : DepositEvent) : Prop := cursor_lt (deposit_cursor x) (deposit_cursor y) = false.
#[export] Instance deposit_newer_dec : RelDecision deposit_newer.
Proof. intros x y. unfold deposit_newer. apply _. Defined.
Definition credited_to (a : string) (ev : DepositEvent) : bool :=
  bool_decide (de_AssignedAccountID ev = Some a) && bool_decide (de_AssignmentState ev = Assigned).
Definition before_deposit (c : option DepositListCursor) (ev : DepositEvent) : bool :=
  match c with None => true | Some c => cursor_lt (deposit_cursor ev) c end.
Definition sql_deposit_page (a : string) (c : option DepositListCursor) (limit : Z) : stmt db (list DepositEvent) :=
  query (fun d => take (Z.to_nat limit) (merge_sort deposit_newer
    (filter (fun ev => credited_to a ev && before_deposit c ev = true) (map snd (map_to_list (deposits d)))))).
Definition ListDepositEvents (a : string) (c : option DepositListCursor) (limit : Z)
    : store (list DepositEvent * option DepositListCursor) :=
  let limit := clampLimit 500 100 limit in
  let! out := wrap "store: list deposits: %w" (pool_stmt (sql_deposit_page a c limit)) in
  ret (out, if Z.of_nat (length out) =? limit
            then match last out with Some ev => Some (deposit_cursor ev) | None => None end
            else None).
