(* ===== verification/DepositInv.v ===== *)
(** * Deposits are credited exactly once: invariants

    The [deposit] legs of an event sum to its amount, on the account it is assigned
    to, once it is assigned, and to nothing before; an assigned event never changes
    again. *)
From Stdlib Require Import ZArith Lia Strings.Ascii.
From stdpp Require Import base gmap strings list fin_maps sorting pretty.
From S2P Require Import Prelude Billing Tx Schema BillingStore Projection DepositStore WithdrawalInv.

Open Scope Z_scope.
Open Scope tx_scope.

(** ** References name one event *)
Fixpoint no_char (c : ascii) (s : string) : Prop :=
  match s with EmptyString => True | String a s' => a <> c /\ no_char c s' end.

Lemma no_char_pretty_N c n acc :
  (forall k, (k < 10)%N -> pretty_N_char k <> c) -> no_char c acc -> no_char c (pretty_N_go n acc).
Proof.
  intros Hc. revert acc. induction (N.lt_wf_0 n) as [n _ IH]; intros acc Hacc.
  destruct (decide (0 < n)%N) as [Hn|Hn].
  - rewrite pretty_N_go_step by done. apply IH.
    + apply N.div_lt; lia.
    + split; [|done]. apply Hc. apply N.mod_lt. lia.
  - assert (n = 0%N) as -> by lia. by rewrite pretty_N_go_0.
Qed.

Lemma pretty_no_colon (z : Z) : no_char ":"%char (pretty z).
Proof.
  assert (Hd : forall k, (k < 10)%N -> pretty_N_char k <> ":"%char).
  { intros k Hk. assert (k = 0 \/ k = 1 \/ k = 2 \/ k = 3 \/ k = 4 \/ k = 5 \/ k = 6 \/ k = 7 \/
      k = 8 \/ k = 9)%N as Hcases by lia.
    by repeat (destruct Hcases as [->|Hcases]; [done|]); subst. }
  assert (HN : forall n : N, no_char ":"%char (pretty n)).
  { intros n. unfold pretty, pretty_N. case_decide; [by split|]. by apply no_char_pretty_N. }
  destruct z as [|p|p]; [by split|apply HN|]. split; [done|apply HN].
Qed.

#[local] Arguments String.append !_ _ /.

Lemma split_last_colon s t u v :
  no_char ":"%char u -> no_char ":"%char v ->
  s +:+ (":" +:+ u) = t +:+ (":" +:+ v) -> s = t /\ u = v.
Proof.
  intros Hu Hv. revert t. induction s as [|a s IH]; intros [|b t] H; cbn in H.
  - by injection H.
  - exfalso. injection H as <- H. rewrite H in Hu. clear - Hu.
    induction t as [|c t IHt]; cbn in Hu; [by destruct Hu|]. destruct Hu. auto.
  - exfalso. injection H as -> H. rewrite <- H in Hv. clear - Hv.
    induction s as [|c s IHs]; cbn in Hv; [by destruct Hv|]. destruct Hv. auto.
  - injection H as <- H. destruct (IH t H) as [-> ->]. done.
Qed.

Lemma depositRef_inj s i t j : depositRef s i = depositRef t j -> s = t /\ i = j.
Proof.
  unfold depositRef. intros H. apply (inj (String.append "sol:")) in H.
  apply split_last_colon in H as [-> H]; [|apply pretty_no_colon..].
  split; [done|]. by apply (inj pretty) in H.
Qed.

(** ** The invariant *)
Definition leg_sum_at (a ref leg : string) (d : db) : Z :=
  list_sum_by (fun r => if String.eqb (lg_account_id r) a && bool_decide (lg_ref r = Some ref) &&
                           String.eqb (lg_leg r) leg
                        then lg_delta_raw r else 0) (ledger d).

Definition credited_to (a : string) (ev : DepositEvent) : Z :=
  if bool_decide (de_AssignmentState ev = Assigned) && bool_decide (de_AssignedAccountID ev = Some a)
  then de_AmountRaw ev else 0.

Definition exp_deposit (d : db) (a : string) (k : string * Z) : Z :=
  match deposits d !! k with Some ev => credited_to a ev | None => 0 end.

Definition atk (a0 : string) (k0 : string * Z) (c : Z) (a : string) (k : string * Z) : Z :=
  if bool_decide (a0 = a /\ k0 = k) then c else 0.

Record DInv (p : string -> string * Z -> Z) (d : db) : Prop := {
  di_key : forall k ev, deposits d !! k = Some ev ->
    k = (de_TransactionSignature ev, de_InstructionIndex ev) /\ 0 < de_AmountRaw ev;
  di_sum : forall a k, leg_sum_at a (depositRef (fst k) (snd k)) "deposit" d =
    exp_deposit d a k + p a k }.

Definition zerok (_ : string) (_ : string * Z) : Z := 0.

(** Events persist, keep their payload, and are final once assigned. *)
Definition DLife (d0 d : db) : Prop :=
  forall k ev, deposits d0 !! k = Some ev -> exists ev', deposits d !! k = Some ev' /\
    de_FromWallet ev' = de_FromWallet ev /\ de_AmountRaw ev' = de_AmountRaw ev /\
    (de_AssignmentState ev <> Unassigned -> ev' = ev).

#[export] Instance DLife_preorder : PreOrder DLife.
Proof.
  split.
  - intros d k ev H. eauto.
  - intros d1 d2 d3 H12 H23 k ev H. destruct (H12 k ev H) as (e2 & H2 & Hw & Ha & Hs).
    destruct (H23 k e2 H2) as (e3 & H3 & Hw' & Ha' & Hs'). exists e3.
    split; [done|]. split; [congruence|]. split; [congruence|].
    intros Hst. specialize (Hs Hst). subst e2. auto.
Qed.

Record dframe (d d' : db) : Prop := {
  df_rows : deposits d' = deposits d;
  df_legs : forall a ref, leg_sum_at a ref "deposit" d' = leg_sum_at a ref "deposit" d }.

#[export] Instance dframe_preorder : PreOrder dframe.
Proof.
  split; [by split|]. intros d1 d2 d3 [] []. split; [congruence|].
  intros a ref. by rewrite df_legs1, df_legs0.
Qed.

Lemma DInv_ext p p' d : (forall a k, p a k = p' a k) -> DInv p d -> DInv p' d.
Proof. intros Hp []. split; auto. intros a k. rewrite <- Hp. auto. Qed.

Lemma DInv_frame p d d' : dframe d d' -> DInv p d -> DInv p d'.
Proof.
  intros [Hr Hl] [H1 H2]. split; [by rewrite Hr|]. intros a k. rewrite Hl, H2.
  unfold exp_deposit. by rewrite Hr.
Qed.

Lemma DLife_frame d0 d d' : dframe d d' -> DLife d0 d -> DLife d0 d'.
Proof. intros [Hr _] HL k ev H. rewrite Hr. by apply HL. Qed.

Lemma empty_db_DInv : DInv zerok empty_db.
Proof. by split. Qed.

Lemma leg_sum_at_append a ref leg row d :
  leg_sum_at a ref leg (append_ledger row d) =
  leg_sum_at a ref leg d +
  if String.eqb (lg_account_id row) a && bool_decide (lg_ref row = Some ref) &&
     String.eqb (lg_leg row) leg then lg_delta_raw row else 0.
Proof. unfold leg_sum_at, append_ledger. simpl. rewrite list_sum_by_app. simpl. lia. Qed.

Lemma dframe_append row d : lg_leg row <> "deposit"%string -> dframe d (append_ledger row d).
Proof.
  intros Hl. split; [done|]. intros a ref. rewrite leg_sum_at_append.
  apply String.eqb_neq in Hl. rewrite Hl, andb_false_r. lia.
Qed.

Lemma DInv_append p d a s i delta cp t :
  DInv p d ->
  DInv (fun b k => p b k + atk a (s, i) delta b k)
    (append_ledger (movement a delta "deposit" "deposit" cp (depositRef s i) t) d).
Proof.
  intros [H1 H2]. split; [done|]. intros b k. rewrite leg_sum_at_append. simpl. rewrite H2.
  change (exp_deposit (append_ledger _ d) b k) with (exp_deposit d b k).
  rewrite andb_true_r. unfold atk. destruct (String.eqb a b) eqn:E; zb; simpl.
  - subst. destruct (decide ((s, i) = k)) as [<-|Hne].
    + rewrite !bool_decide_true by done. simpl. lia.
    + rewrite !bool_decide_false; [lia|tauto|]. intros Heq. apply Hne. destruct k as [s' i'].
      assert (depositRef s i = depositRef s' i') as [-> ->]%depositRef_inj; [|done].
      exact (inj Some _ _ Heq).
  - rewrite bool_decide_false by tauto. lia.
Qed.

Lemma DInv_assign p d k ev a t :
  DInv p d -> deposits d !! k = Some ev -> de_AssignmentState ev = Unassigned ->
  DInv (fun b k' => p b k' - atk a k (de_AmountRaw ev) b k')
    (set_deposits (<[k := event_assigned a t ev]> (deposits d)) d).
Proof.
  intros [H1 H2] Hk Hst. split; simpl.
  - intros k' ev' Hl. destruct (decide (k = k')) as [<-|Hne].
    + rewrite lookup_insert_eq in Hl. simplify_eq. simpl. auto.
    + rewrite lookup_insert_ne in Hl by done. auto.
  - intros b k'. change (leg_sum_at b ?r "deposit" (set_deposits _ d)) with (leg_sum_at b r "deposit" d).
    rewrite H2. unfold exp_deposit, atk. simpl. destruct (decide (k = k')) as [<-|Hne].
    + rewrite lookup_insert_eq, Hk. unfold credited_to. rewrite Hst. simpl.
      destruct (decide (a = b)) as [<-|Hab].
      * rewrite !bool_decide_true by done. simpl. lia.
      * rewrite !bool_decide_false; [simpl; lia|tauto|congruence].
    + rewrite lookup_insert_ne by done. rewrite bool_decide_false by tauto. lia.
Qed.

(** Statements that do not touch deposits. *)
Lemma dframe_ensure a t d u d' : sql_ensure_credit a t d = Ok (u, d') -> dframe d d'.
Proof.
  unfold sql_ensure_credit. destruct (credits d !! a); [by intros [= _ <-]|].
  intros (d'' & (-> & _)%write_credit_Ok & [= _ <-])%res_bind_Ok. by split.
Qed.
Lemma dframe_update a f d u d' : sql_update_credit a f d = Ok (u, d') -> dframe d d'.
Proof.
  unfold sql_update_credit. destruct (credits d !! a); [|by intros [= _ <-]].
  intros (d'' & (-> & _)%write_credit_Ok & [= _ <-])%res_bind_Ok. by split.
Qed.
Lemma dframe_query {A} (f : db -> A) d a d' : query f d = Ok (a, d') -> dframe d d'.
Proof. unfold query. by intros [= _ <-]. Qed.
#[export] Hint Resolve dframe_ensure dframe_update dframe_query : moves.

Lemma applyDelta_dframe a c r t : Moves dframe (applyDelta a c r t).
Proof. unfold applyDelta, sql_lock_credit. moves. Qed.
#[export] Hint Resolve applyDelta_dframe : moves.

(** ** The methods *)
Section Methods.
Context (x : string -> Z) (d0 : db).

Definition DState (d : db) : Prop := Inv x d /\ DInv zerok d /\ DLife d0 d.
Let I : db -> Prop := DState.

Definition DMid (u : string -> Z) (p : string -> string * Z -> Z)
    (E : gmap (string * Z) DepositEvent) (w : db) : Prop :=
  Core None u zero w /\ DInv p w /\ DLife d0 w /\ deposits w = E.

Lemma DMid_frame u u' p E w w' :
  DMid u p E w -> dframe w w' -> Core None u' zero w' -> DMid u' p E w'.
Proof.
  intros (_ & HW & HL & <-) Hf HC. split; [done|]. split; [by eapply DInv_frame|].
  split; [by eapply DLife_frame|]. by destruct Hf.
Qed.

Lemma applyDelta_d u p E a c t :
  triple I (DMid u p E) (applyDelta a c 0 t) (post (fun _ => DMid (plus u (at_ a c)) p E)).
Proof.
  unfold applyDelta.
  eapply tbind with (R := fun _ w => DMid u p E w /\ is_Some (credits w !! a)).
  { apply twrap, tstmt. intros w [] w' HM Hs.
    destruct (Core_ensure _ _ _ _ _ _ _ _ (proj1 HM) Hs).
    split; [|done]. eapply DMid_frame; [done|by eapply dframe_ensure|done]. }
  intros _. eapply tbind with (R := fun _ w => DMid u p E w /\ is_Some (credits w !! a)).
  { apply twrap, tscan, tquery. auto. }
  intros cr. eapply tbind; [|intros; apply tret; intros ? Hw; exact Hw].
  apply twrap, tstmt. intros w [] w' [HM Ha] Hs.
  destruct (Core_update _ _ _ _ _ _ _ _ _ _ (proj1 HM) Ha Hs) as [HC _].
  eapply DMid_frame; [done|by eapply dframe_update|].
  eapply Core_ext; [| |exact HC]; intros b; at_cases.
Qed.

Lemma assign_frame k ev w : same_billing w (set_deposits (<[k := ev]> (deposits w)) w).
Proof. by repeat split. Qed.

(** Crediting one locked, unassigned event: the whole effect is one event. *)
Lemma creditDeposit_d s i ev a t E :
  E !! (s, i) = Some ev -> de_AssignmentState ev = Unassigned ->
  de_TransactionSignature ev = s -> de_InstructionIndex ev = i ->
  triple I (DMid x zerok E) (creditDepositLocked ev a t)
    (post (fun _ => DMid x zerok (<[(s, i) := event_assigned a t ev]> E))).
Proof.
  intros HE Hst Hs Hi. unfold creditDepositLocked. rewrite Hs, Hi.
  eapply tbind; [apply twrap, applyDelta_d|]. intros ?; cbn beta.
  set (p := atk a (s, i) (de_AmountRaw ev)).
  eapply tattempt with (R := fun _ => DMid x p E).
  - intros w [] w' (HC & HD & HL & HE') Hins.
    assert (Hw' : w' = append_ledger (movement a (de_AmountRaw ev) "deposit" "deposit"
              (de_FromWallet ev) (depositRef s i) t) w).
    { unfold sql_insert_ledger in Hins. destruct (ledger_row_check _); [done|].
      destruct (ledger_taken _ _ _); [done|]. by simplify_eq. }
    split; [|split; [|split]].
    + eapply Core_insert_ledger in Hins; [|exact HC|].
      * eapply Core_ext; [| |exact (proj1 Hins)]; intros b; simpl; at_cases.
      * by apply leg_fresh_other.
    + rewrite Hw'. eapply DInv_ext; [|by apply DInv_append].
      intros b k. unfold zerok, p. simpl. lia.
    + rewrite Hw'. exact HL.
    + rewrite Hw'. exact HE'.
  - intros ?. eapply tbind with (R := fun _ => DMid x p E); [by apply tret|]. intros ?.
    eapply tbind with (R := fun _ => DMid x zerok (<[(s, i) := event_assigned a t ev]> E));
      [|intros ?; by apply tret].
    apply twrap, tstmt. intros w [] w' (HC & HD & HL & HE') Has.
    unfold sql_assign_deposit in Has. rewrite HE', HE in Has.
    assert (w' = set_deposits (<[(s, i) := event_assigned a t ev]> (deposits w)) w) as ->
      by (rewrite HE'; congruence).
    split; [eapply Core_frame; [apply assign_frame|done]|]. split; [|split].
    + eapply DInv_ext; [|apply DInv_assign; [exact HD|by rewrite HE'|done]].
      intros b k. unfold zerok, p. simpl. lia.
    + intros k ek Hk. destruct (HL k ek Hk) as (e' & He' & Hw & Ham & Hf). simpl.
      destruct (decide ((s, i) = k)) as [<-|Hne].
      * rewrite lookup_insert_eq. rewrite HE', HE in He'. simplify_eq. eexists. split; [done|].
        simpl. split; [done|]. split; [done|]. intros Hn. rewrite <- (Hf Hn) in Hn. done.
      * rewrite lookup_insert_ne by done. eauto.
    + simpl. by rewrite HE'.
  - intros e. eapply tbind with (R := fun _ _ => False).
    + destruct (isUniqueViolation e); [by apply tret|apply tfail].
    + intros ?. eapply tbind with (R := fun _ _ => False); [|intros ?; by apply tret].
      by apply twrap, tstmt.
Qed.

Lemma d_commit fmt : triple I DState (wrap fmt commit) (post (fun _ _ => False)).
Proof. by apply tcommit. Qed.

Lemma creditDeposit_tame ev a t : Tame (creditDepositLocked ev a t).
Proof. unfold creditDepositLocked. tame. Qed.
Local Hint Resolve creditDeposit_tame : tame.

Lemma creditBatch_tame l a t : Tame (creditBatch l a t).
Proof. induction l as [|[k ev] l IH]; simpl; tame. Qed.

Lemma now_or_d t : Preserves I (now_or t).
Proof. unfold now_or. destruct (IsZero t); auto with otela. Qed.

Lemma apply_d s i a now : Preserves I (ApplyDeposit s i a now).
Proof.
  unfold ApplyDeposit. destruct (String.eqb a ""); [auto with otela|].
  apply preserves_bind; [apply now_or_d|]. intros t. apply tbody.
  eapply tbind with (R := fun ev w => exists E, (E !! (s, i) = Some ev /\
    de_TransactionSignature ev = s /\ de_InstructionIndex ev = i) /\ DMid x zerok E w).
  { unfold lockDepositEvent, sql_select_deposit, query.
    eapply tattempt_live with (R := fun ev w => DState w /\ deposits w !! (s, i) = Some ev).
    - apply tscan, tquery. auto.
    - intros ev. simpl. apply tret. intros w [(HI & HD & HL) Hev]. exists (deposits w).
      destruct (di_key _ _ HD _ _ Hev) as [[= Hs Hi] _].
      exact (conj (conj Hev (conj (eq_sym Hs) (eq_sym Hi))) (conj HI (conj HD (conj HL eq_refl)))).
    - intros e. destruct (errors_is _ _); apply tfail. }
  intros ev; cbn beta.
  assert (Ht : Tame match de_AssignmentState ev with
    | Unassigned => bind (creditDepositLocked ev a t) (fun ev' =>
        bind (wrap "store: apply deposit: %w" commit) (fun _ => ret ev'))
    | Assigned => if negb (bool_decide (de_AssignedAccountID ev = Some a))
        then fail (Wrapf "store: apply deposit: %w: deposit already credited to another account"
                     ErrConflict)
        else bind (wrap "store: apply deposit: %w" commit) (fun _ => ret ev)
    | Skipped => bind (wrap "store: apply deposit: %w" commit) (fun _ => ret ev)
    end) by tame.
  apply texists; [exact Ht|]. intros E. apply tpure; [exact Ht|]. intros (HE & Hs & Hi). clear Ht.
  assert (Hread : triple I (DMid x zerok E) (bind (wrap "store: apply deposit: %w" commit)
                   (fun _ => ret ev)) (post (fun _ _ => True))).
  { eapply tbind with (R := fun _ _ => False); [|intros ?; by apply tret].
    eapply tpre; [|apply d_commit]. by intros w (? & ? & ? & _). }
  destruct (de_AssignmentState ev) eqn:Hst.
  - eapply tbind; [by eapply creditDeposit_d|]. intros ev'; cbn beta.
    eapply tbind with (R := fun _ _ => False); [|intros ?; by apply tret].
    eapply tpre; [|apply d_commit]. by intros w (? & ? & ? & _).
  - apply tif; [intros; apply tfail|intros _; exact Hread].
  - exact Hread.
Qed.

Lemma creditBatch_d l a t E :
  NoDup l.*1 ->
  (forall k ev, (k, ev) ∈ l -> E !! k = Some ev /\ de_AssignmentState ev = Unassigned /\
     k = (de_TransactionSignature ev, de_InstructionIndex ev)) ->
  triple I (DMid x zerok E) (creditBatch l a t) (post (fun _ => DState)).
Proof.
  revert E. induction l as [|[k ev] l IH]; intros E Hnd HE; simpl.
  { apply tret. by intros w (? & ? & ? & _). }
  inversion_clear Hnd as [|? ? Hnotin Hnd'].
  destruct (HE k ev) as (Hk & Hst & ->); [by left|].
  eapply tbind; [by eapply creditDeposit_d|]. intros ?; cbn beta.
  apply IH; [done|]. intros k' ev' Hin. rewrite lookup_insert_ne.
  - apply HE. by right.
  - intros <-. apply Hnotin. apply (list_elem_of_fmap_2 fst l _ Hin).
Qed.

Lemma reconcile_d wallet a now : Preserves I (ReconcileDepositsForWallet wallet a now).
Proof.
  unfold ReconcileDepositsForWallet. destruct (_ || _); [auto with otela|].
  apply preserves_bind; [apply now_or_d|]. intros t. apply tbody.
  eapply tbind with (R := fun l w => exists E, (NoDup l.*1 /\
    forall k ev, (k, ev) ∈ l -> E !! k = Some ev /\ de_AssignmentState ev = Unassigned /\
     k = (de_TransactionSignature ev, de_InstructionIndex ev)) /\ DMid x zerok E w).
  { apply twrap. unfold sql_unassigned, query. apply tquery. intros w (HI & HD & HL).
    exists (deposits w). split; [|exact (conj HI (conj HD (conj HL eq_refl)))].
    split; [apply select_NoDup|].
    intros k ev [Hk Hu]%select_In. split; [done|]. unfold unassigned_from in Hu. simpl in Hu.
    zb. split; [done|]. by apply (di_key _ _ HD). }
  intros l; cbn beta.
  assert (Ht : forall (n : Z), Tame (bind (if (0 <? length l)%nat
     then bind (wrap "store: reconcile deposits: lock account: %w" (applyDelta a 0 0 t))
            (fun _ => ret tt) else ret tt) (fun _ => bind (creditBatch l a t) (fun _ =>
     bind (wrap "store: reconcile deposits: %w" commit) (fun _ => ret n)))))
    by (intros n; tame; apply creditBatch_tame).
  apply texists; [apply Ht|]. intros E. apply tpure; [apply Ht|]. intros [Hnd HE].
  eapply tbind with (R := fun _ => DMid x zerok E).
  { apply tif; [intros _|intros _; by apply tret].
    eapply tbind; [apply twrap, applyDelta_d|]. intros ?. apply tret.
    intros w (HC & ?). split; [|done]. eapply Core_ext; [| |exact HC]; intros b; at_cases. }
  intros ?. eapply tbind; [by apply creditBatch_d|]. intros ?; cbn beta.
  eapply tbind; [apply d_commit|]. intros ?. by apply tret.
Qed.

Lemma insert_d ev : Preserves I (InsertDepositEvent ev).
Proof.
  unfold InsertDepositEvent. repeat (match goal with |- Preserves _ (if ?b then _ else _) =>
    destruct b; [auto with otela|] end).
  apply preserves_bind; [apply now_or_d|]. intros seen.
  apply preserves_bind; [|intros n; auto with otela]. apply preserves_wrap, preserves_pool.
  intros d n d' (HI & HD & HL) Hs. unfold sql_insert_deposit in Hs. simpl in Hs.
  destruct (negb _); [done|]. destruct (_ <=? 0) eqn:Ha; [done|]. zb.
  destruct (deposits d !! _) eqn:Hk; simplify_eq; [done|].
  split; [eapply Core_frame; [apply assign_frame|done]|]. destruct HD as [H1 H2]. split.
  - split; simpl.
    + intros k e Hl. apply lookup_insert_Some in Hl as [[<- <-]|[_ Hl]]; [done|auto].
    + intros b k. change (leg_sum_at b ?r "deposit" (set_deposits _ d)) with (leg_sum_at b r "deposit" d).
      rewrite H2. unfold exp_deposit. simpl.
      destruct (decide ((de_TransactionSignature ev, de_InstructionIndex ev) = k)) as [<-|Hne].
      * by rewrite lookup_insert_eq, Hk.
      * by rewrite lookup_insert_ne.
  - intros k e Hl. destruct (HL k e Hl) as (e' & He' & Hrest). exists e'. split; [|done]. simpl.
    rewrite lookup_insert_ne; [done|congruence].
Qed.

Lemma frame_d {A} (m : store A) : Preserves (Inv x) m -> Moves dframe m -> Preserves I m.
Proof.
  intros Hp Hm e c Hc (HI & HW & HL). destruct (Hp e c Hc HI) as [Hc' HI']. split; [done|].
  destruct (Hm e c (c_db c)) as [Hf _]; [done|intros w Hw; congruence|].
  split; [done|]. split; [by eapply DInv_frame|by eapply DLife_frame].
Qed.
End Methods.
