(* ===== verification/AllowanceStore.v ===== *)
(** * internal/store/allowance.go: the mirrored SPL delegation registry *)
From Stdlib Require Import ZArith Lia.
From stdpp Require Import base gmap strings list fin_maps sorting.
From S2P Require Import Prelude Billing Tx Schema BillingStore Projection.

Open Scope Z_scope.
Open Scope tx_scope.

Record AllowanceChange := mkChange {
  ch_AccountID : string; ch_Delegate : string; ch_AllowanceRaw : Z; ch_ObservedAt : time;
  ch_Ref : string }.

Record AllowanceChangeResult := mkChangeResult {
  PrevAllowanceRaw : Z; AppliedRaw : Z; ShortfallRaw : Z }.

(** INSERT INTO account_allowances ... ON CONFLICT (account_id, delegate) DO UPDATE *)
Definition sql_upsert_allowance (a del : string) (raw : Z) (t : time) (revokedAt : option time)
    : stmt db unit := fun d =>
  if raw <? 0 then Err CheckViolation
  else match credits d !! a with
  | None => Err ForeignKeyViolation
  | Some _ =>
    let revoked := match allowances d !! (a, del) with
                   | None => revokedAt
                   | Some _ => if raw >? 0 then None else Some t
                   end in
    Ok (tt, set_allowances (<[(a, del) := mkAllowance a del raw t revoked]> (allowances d)) d)
  end.

Definition set_credit_to (newCredit : Z) (t : time) (r : CreditRow) : CreditRow :=
  mkCredit newCredit (cr_reserved_raw r) (cr_caps r) t.

(** The credit after a delta, clamped at the reserved amount, and the shortfall. *)
Definition clampCredit (creditRaw reservedRaw delta : Z) : Z * Z :=
  let newCredit := i64 (creditRaw + delta) in
  if newCredit <? reservedRaw then (reservedRaw, i64 (reservedRaw - newCredit)) else (newCredit, 0).

Definition mirrorDelta (ch : AllowanceChange) (prev delta : Z) (t : time)
    : store AllowanceChangeResult :=
  let leg := if delta <? 0 then "revoke"%string else "grant"%string in
  let! n := wrap "store: upsert allowance: ledger: %w" (tx_stmt (sql_insert_ledger_nothing
    (movement (ch_AccountID ch) delta "delegation" leg (ch_Delegate ch) (ch_Ref ch) t))) in
  if n >? 0 then
    let! cr := wrap "store: upsert allowance: lock credit: %w"
      (scan_row (tx_stmt (sql_lock_credit (ch_AccountID ch)))) in
    let cs := clampCredit (fst cr) (snd cr) delta in
    do! wrap "store: upsert allowance: mirror: %w"
      (tx_stmt (sql_update_credit (ch_AccountID ch) (set_credit_to (fst cs) t))) in
    ret (mkChangeResult prev delta (snd cs))
  else ret (mkChangeResult prev 0 0).

Definition checkChange (ch : AllowanceChange) : option err :=
  if String.eqb (ch_AccountID ch) "" || String.eqb (ch_Delegate ch) ""
  then Some (Wrapf "store: upsert allowance: %w: missing account or delegate" ErrConflict)
  else if ch_AllowanceRaw ch <? 0
  then Some (Wrapf "store: upsert allowance: %w: negative allowance" ErrInvalid)
  else if String.eqb (ch_Ref ch) ""
  then Some (Wrapf "store: upsert allowance: %w: missing observation ref" ErrInvalid)
  else None.

Definition UpsertAllowance (ch : AllowanceChange) : store AllowanceChangeResult :=
  match checkChange ch with
  | Some e => fail e
  | None =>
    let! t := now_or (ch_ObservedAt ch) in
    with_tx "store: upsert allowance: %w" (
      do! wrap "store: upsert allowance: ensure credit: %w"
            (tx_stmt (sql_ensure_credit (ch_AccountID ch) t)) in
      let!? pr := scan_row (tx_stmt (query (fun d =>
        AllowanceRaw <$> allowances d !! (ch_AccountID ch, ch_Delegate ch)))) in
      let! prev := (match pr with
        | Ok p => ret p
        | Err e => if errors_is e ErrNoRows then ret 0
                   else fail (Wrapf "store: upsert allowance: lock: %w" e)
        end) in
      let delta := i64 (ch_AllowanceRaw ch - prev) in
      let revokedAt := if ch_AllowanceRaw ch =? 0 then Some t else None in
      do! wrap "store: upsert allowance: registry: %w"
            (tx_stmt (sql_upsert_allowance (ch_AccountID ch) (ch_Delegate ch) (ch_AllowanceRaw ch)
                        t revokedAt)) in
      let! result := (if negb (delta =? 0) then mirrorDelta ch prev delta t
                      else ret (mkChangeResult prev delta 0)) in
      do! wrap "store: upsert allowance: commit: %w" commit in
      ret result)
  end.

(** ** Reads *)
Definition approved_desc (x y : (string * string) * Allowance) : Prop :=
  ApprovedAt (snd y) < ApprovedAt (snd x) \/
  (ApprovedAt (snd x) = ApprovedAt (snd y) /\
   String.leb (al_Delegate (snd x)) (al_Delegate (snd y)) = true).
#[export] Instance approved_desc_dec : RelDecision approved_desc.
Proof. intros x y. unfold approved_desc. apply _. Defined.

Definition AccountAllowances (a : string) : store (list Allowance) :=
  wrap "store: account allowances: %w" (pool_stmt (query (fun d =>
    (select approved_desc (fun p => fst (fst p) = a) (size (allowances d)) (allowances d)).*2))).

Definition largest_first (x y : (string * string) * Allowance) : Prop :=
  AllowanceRaw (snd y) < AllowanceRaw (snd x) \/
  (AllowanceRaw (snd x) = AllowanceRaw (snd y) /\
   String.leb (al_AccountID (snd x)) (al_AccountID (snd y)) = true).
#[export] Instance largest_first_dec : RelDecision largest_first.
Proof. intros x y. unfold largest_first. apply _. Defined.

Definition DelegateAllowances (del : string) : store (list Allowance) :=
  wrap "store: delegate allowances: %w" (pool_stmt (query (fun d =>
    (select largest_first (fun p => snd (fst p) = del /\ Active (snd p) = true)
       (size (allowances d)) (allowances d)).*2))).

(** ** The mirror keeps the account a projection, up to the drift *)
Definition AnyInv (d : db) : Prop := exists x, Inv x d.

Lemma same_credits_Core exc x y d d' :
  credits d' = credits d -> requests d' = requests d -> ledger d' = ledger d ->
  ledger_seq d <= ledger_seq d' -> Core exc x y d -> Core exc x y d'.
Proof.
  intros Hc Hr Hl Hs [H1 H2 H3 H4 [H5 H5'] H6 H7].
  assert (He : forall a, credit_of a d' = credit_of a d /\ reserved_of a d' = reserved_of a d /\
                ledger_sum a d' = ledger_sum a d /\ open_sum a d' = open_sum a d).
  { intros a. unfold credit_of, reserved_of, ledger_sum, open_sum. by rewrite Hc, Hr, Hl. }
  split.
  - by rewrite Hc.
  - intros a. destruct (He a) as (-> & _ & -> & _). auto.
  - intros a. destruct (He a) as (_ & -> & _ & ->). auto.
  - by rewrite Hr.
  - rewrite Hl. split; [|lia]. eapply Forall_impl; [exact H5|]. simpl. lia.
  - by rewrite Hl.
  - rewrite Hl. eapply Forall_impl; [exact H7|]. intros row Hrow. unfold leg_fresh. by rewrite Hr.
Qed.

Lemma any_commit fmt : triple AnyInv AnyInv (wrap fmt commit) (post (fun _ _ => False)).
Proof. by apply tcommit. Qed.

Lemma mirrorDelta_any ch prev delta t :
  triple AnyInv AnyInv (mirrorDelta ch prev delta t) (post (fun _ => AnyInv)).
Proof.
  unfold mirrorDelta. eapply tbind with (R := fun _ => AnyInv).
  - apply twrap, tstmt. intros w n w' [x HI] Hs. unfold sql_insert_ledger_nothing in Hs.
    destruct (ledger_row_check _); [done|]. destruct (ledger_taken _ _ _); simplify_eq.
    + exists x. eapply same_credits_Core; [..|exact HI]; simpl; [done..|lia].
    + eexists. apply Core_append; [exact HI|].
      apply leg_fresh_other. simpl. by destruct (delta <? 0).
  - intros n. apply tif; [intros _|intros _; by apply tret].
    eapply tbind with (R := fun _ => AnyInv).
    { apply twrap, tscan. unfold sql_lock_credit, query. apply tquery. auto. }
    intros cr. eapply tbind with (R := fun _ => AnyInv); [|intros ?; by apply tret].
    apply twrap, tstmt. intros w [] w' [x HI] Hs. unfold sql_update_credit in Hs.
    destruct (credits w !! ch_AccountID ch) as [row|] eqn:Hrow; simplify_eq; [|by exists x].
    apply res_bind_Ok in Hs as (d' & Hw & [= <-]).
    eexists. eapply Core_ext; [| |by eapply Core_write_credit]; [reflexivity|].
    intros b. unfold reserved_of. rewrite Hrow. simpl. at_cases.
Qed.

Lemma mirrorDelta_tame ch prev delta t : Tame (mirrorDelta ch prev delta t).
Proof. unfold mirrorDelta. tame. Qed.

Lemma upsert_preserves ch : Preserves AnyInv (UpsertAllowance ch).
Proof.
  unfold UpsertAllowance. destruct (checkChange ch); [auto with otela|].
  apply preserves_bind; [unfold now_or; destruct (IsZero _); auto with otela|]. intros t. apply tbody.
  eapply tbind with (R := fun _ => AnyInv).
  { apply twrap, tstmt. intros w [] w' [x HI] Hs. exists x. by eapply Core_ensure. }
  intros ?. unfold query at 1. eapply tattempt_scan with (R := fun _ => AnyInv); [auto| |].
  all: intros pr; eapply tbind with (R := fun _ => AnyInv);
    [first [by apply tret | destruct (errors_is _ _); [by apply tret|apply tfail]]|].
  all: intros prev; eapply tbind with (R := fun _ => AnyInv);
    [apply twrap, tstmt; intros w [] w' [x HI] Hs; unfold sql_upsert_allowance in Hs;
     destruct (_ <? 0); [done|]; destruct (credits w !! _); simplify_eq; exists x;
     by eapply same_credits_Core; [..|exact HI]|].
  all: intros ?; eapply tbind with (R := fun _ => AnyInv);
    [apply tif; intros _; [apply mirrorDelta_any|by apply tret]|].
  all: intros ?; eapply tbind; [apply any_commit|]; intros ?; by apply tret.
Qed.
