(* ===== verification/SettlementStore.v ===== *)
(** * internal/store/delegation_settlement.go: batches of on-chain transfers

    Claiming a wave of settlement batches from the earn and fee legs of the ledger,
    and the batches' durable states.  The claim is one transaction; the wallets it
    resolves are read on the pool, outside of it. *)
From Stdlib Require Import ZArith Lia.
From stdpp Require Import base gmap strings list fin_maps sorting pretty.
From S2P Require Import Prelude Sha256 Base58 Solana Billing Tx Schema BillingStore.

Open Scope Z_scope.
Open Scope tx_scope.

Record SettlementClaimParams := mkClaimParams {
  cp_Delegate : string; cp_Mint : string; cp_TokenProgram : string; cp_TreasuryWallet : string;
  cp_LegLimit : Z }.

Record unsettledLeg := mkLeg {
  ul_ID : Z; ul_AccountID : string; ul_Counter : string; ul_DeltaRaw : Z; ul_Ref : string }.

Record settlementBatch := mkBatch {
  sb_Buyer : string; sb_Source : string; sb_Dest : string; sb_Amount : Z; sb_LegIDs : list Z;
  sb_IsFee : bool }.

Record DelegationSettlement := mkSettlement {
  ds_ID : Z; ds_BatchRef : string; ds_BuyerAccount : string; ds_Delegate : string;
  ds_SourceATA : string; ds_DestinationWallet : string; ds_DestinationATA : string;
  ds_AmountRaw : Z; ds_State : DelegationSettlementState;
  ds_SignedWire : string; ds_Signature : string; ds_Blockhash : string;
  ds_LastValidBlockHeight : option Z; ds_BlockhashExpiresAt : option time;
  ds_Error : string; ds_CreatedAt : time }.

(** ** Token accounts *)
Definition wrap_res {A} (fmt : string) (r : res A) : res A :=
  match r with Ok a => Ok a | Err e => Err (Wrapf fmt e) end.

Open Scope go_scope.
Definition destinationATA (wallet mint tokenProgram : string) : res string :=
  let? w := wrap_res "destination wallet: %w" (DecodeBase58 wallet PublicKeyBytes) in
  let? m := wrap_res "mint: %w" (DecodeBase58 mint PublicKeyBytes) in
  let? tp := wrap_res "token program: %w" (DecodeBase58 tokenProgram PublicKeyBytes) in
  let? ata := AssociatedTokenAddress w m tp in
  Ok (EncodeBase58 ata).
Close Scope go_scope.

(** ** The statements of the claim *)
Definition lg_id_le (x y : LedgerRow) : Prop := lg_id x <= lg_id y.
#[export] Instance lg_id_le_dec : RelDecision lg_id_le.
Proof. intros x y. unfold lg_id_le. apply _. Defined.

(** A counterparty with an active allowance for the delegate. *)
Definition backed (delegate : string) (d : db) (r : LedgerRow) : bool :=
  match lg_counterparty r with
  | Some b => match allowances d !! (b, delegate) with Some a => Active a | None => false end
  | None => false
  end.

Definition sql_earn_legs (delegate : string) (lastLeg limit : Z) : stmt db (list LedgerRow) :=
  query (fun d => take (Z.to_nat limit) (merge_sort lg_id_le
    (filter (fun r => (String.eqb (lg_source r) "earn" && String.eqb (lg_leg r) "seller" &&
                       (lastLeg <? lg_id r) && backed delegate d r)%bool = true) (ledger d)))).

(** No ORDER BY: the rows in table order. *)
Definition sql_fee_legs (refs : list string) : stmt db (list LedgerRow) :=
  query (fun d =>
    filter (fun r => (String.eqb (lg_source r) "fee" && String.eqb (lg_leg r) "fee" &&
                      existsb (fun x => bool_decide (lg_ref r = Some x)) refs)%bool = true) (ledger d)).

(** Scanning into strings fails on NULL. *)
Fixpoint scanLegs (rows : list LedgerRow) : res (list unsettledLeg) :=
  match rows with
  | [] => Ok []
  | r :: rest =>
    match lg_counterparty r, lg_ref r with
    | Some c, Some ref =>
      res_bind (scanLegs rest) (fun ls =>
        Ok (mkLeg (lg_id r) (lg_account_id r) c (lg_delta_raw r) ref :: ls))
    | _, _ => Err (Errorf "cannot scan NULL into *string")
    end
  end.

Definition sql_consume_allowance (a delegate : string) (amount : Z) : stmt db Z := fun d =>
  match allowances d !! (a, delegate) with
  | Some x =>
    if bool_decide (RevokedAt x = None) && (amount <=? AllowanceRaw x)
    then Ok (1, set_allowances (<[(a, delegate) :=
           mkAllowance (al_AccountID x) (al_Delegate x) (AllowanceRaw x - amount) (ApprovedAt x) None]>
           (allowances d)) d)
    else Ok (0, d)
  | None => Ok (0, d)
  end.

Definition lockAndConsumeAllowanceTx (a delegate : string) (amount : Z) : store bool :=
  if amount <=? 0 then fail (Wrapf "store: consume allowance: %w: non-positive amount" ErrInvalid)
  else let! n := tx_stmt (sql_consume_allowance a delegate amount) in ret (n >? 0).

Definition find_batch (ref : string) (d : db) : option (Z * SettlementRow) :=
  head (filter (fun p => sr_batch_ref (snd p) = ref) (map_to_list (settlements d))).

(** INSERT ... ON CONFLICT (batch_ref) DO NOTHING RETURNING id *)
Definition sql_insert_settlement (r : SettlementRow) : stmt db (option Z) := fun d =>
  if sr_amount_raw r <=? 0 then Err CheckViolation
  else
    let id := settlements_seq d in
    let d := set_settlements_seq (id + 1) d in
    match find_batch (sr_batch_ref r) d with
    | Some _ => Ok (None, d)
    | None => Ok (Some id, set_settlements (<[id := r]> (settlements d)) d)
    end.

(** INSERT INTO delegation_settlement_legs ... ON CONFLICT (ledger_leg_id) DO NOTHING *)
Definition sql_anchor_leg (id leg : Z) : stmt db unit := fun d =>
  match settle_legs d !! leg with
  | Some _ => Ok (tt, d)
  | None =>
    match settlements d !! id with
    | None => Err ForeignKeyViolation
    | Some _ => Ok (tt, set_settle_legs (<[leg := id]> (settle_legs d)) d)
    end
  end.

Definition sql_set_settle_cursor (delegate : string) (leg : Z) : stmt db unit := fun d =>
  Ok (tt, set_settle_cursors (<[delegate := leg]> (settle_cursors d)) d).

(** ** Planning: one batch per (buyer, destination) *)
Record buyerPlan := mkPlan { bp_total : Z; bp_batches : list settlementBatch; bp_skippable : bool }.
Definition emptyPlan : buyerPlan := mkPlan 0 [] false.

(** The plans in the order their buyers first appeared. *)
Notation planMap := (list (string * buyerPlan)).

(** [add(buyer)], updated by [f]. *)
Fixpoint addPlan (buyer : string) (f : buyerPlan -> buyerPlan) (plans : planMap) : planMap :=
  match plans with
  | [] => [(buyer, f emptyPlan)]
  | (b, pl) :: rest => if String.eqb b buyer then (b, f pl) :: rest else (b, pl) :: addPlan buyer f rest
  end.

Definition hasPlan (buyer : string) (plans : planMap) : bool :=
  existsb (fun p => String.eqb (fst p) buyer) plans.

Definition markSkippable (pl : buyerPlan) : buyerPlan := mkPlan (bp_total pl) (bp_batches pl) true.

(** Nets into the batch of the same destination and kind, or opens one. *)
Fixpoint netBatches (new : settlementBatch) (batches : list settlementBatch) : list settlementBatch :=
  match batches with
  | [] => [new]
  | b :: rest =>
    if String.eqb (sb_Dest b) (sb_Dest new) && Bool.eqb (sb_IsFee b) (sb_IsFee new)
    then mkBatch (sb_Buyer b) (sb_Source b) (sb_Dest b) (i64 (sb_Amount b + sb_Amount new))
           (sb_LegIDs b ++ sb_LegIDs new) (sb_IsFee b) :: rest
    else b :: netBatches new rest
  end.

Definition netInto (buyer dest : string) (amount leg : Z) (isFee : bool) (source : string)
    (plans : planMap) : planMap :=
  addPlan buyer (fun pl =>
    mkPlan (i64 (bp_total pl + amount))
      (netBatches (mkBatch buyer source dest amount [leg] isFee) (bp_batches pl)) (bp_skippable pl)) plans.

(** The seller-wallet cache of one claim. *)
Notation walletCache := (gmap string string).

Definition resolve (cache : walletCache) (a : string) : store (string * walletCache) :=
  match cache !! a with
  | Some w => ret (w, cache)
  | None => let! wo := PrimaryWalletForAccount a in ret (fst wo, <[a := fst wo]> cache)
  end.

Record planState := mkPlanState { ps_plans : planMap; ps_source : string; ps_cache : walletCache }.

Definition planLeg (p : SettlementClaimParams) (st : planState) (l : unsettledLeg) : store planState :=
  let buyer := ul_Counter l in
  let! bw := wrap "store: claim settlements: buyer wallet: %w" (PrimaryWalletForAccount buyer) in
  if String.eqb (fst bw) ""
  then ret (mkPlanState (addPlan buyer markSkippable (ps_plans st)) (ps_source st) (ps_cache st))
  else
    let! src := wrap "store: claim settlements: buyer ata: %w"
      (lift (destinationATA (fst bw) (cp_Mint p) (cp_TokenProgram p))) in
    let! wc := wrap "store: claim settlements: seller wallet: %w" (resolve (ps_cache st) (ul_AccountID l)) in
    if String.eqb (fst wc) ""
    then ret (mkPlanState (addPlan buyer markSkippable (ps_plans st)) src (snd wc))
    else ret (mkPlanState (netInto buyer (fst wc) (ul_DeltaRaw l) (ul_ID l) false src (ps_plans st))
                src (snd wc)).

Fixpoint planLegs (p : SettlementClaimParams) (st : planState) (legs : list unsettledLeg)
    : store planState :=
  match legs with
  | [] => ret st
  | l :: rest => let! st' := planLeg p st l in planLegs p st' rest
  end.

(** Fee legs of planned buyers, all with the source of the last planned leg. *)
Definition planFee (p : SettlementClaimParams) (source : string) (plans : planMap) (l : unsettledLeg)
    : planMap :=
  if hasPlan (ul_Counter l) plans
  then netInto (ul_Counter l) (cp_TreasuryWallet p) (ul_DeltaRaw l) (ul_ID l) true source plans
  else plans.

Definition planFees (p : SettlementClaimParams) (st : planState) (feeLegs : list unsettledLeg) : planMap :=
  if String.eqb (cp_TreasuryWallet p) "" then ps_plans st
  else fold_left (planFee p (ps_source st)) feeLegs (ps_plans st).

(** ** Inserting the plans *)
Definition short58 (s : string) : string := String.substring 0 8 s.

Definition settlementRef (delegate : string) (b : settlementBatch) : string :=
  let first := hd 0 (sb_LegIDs b) in
  let mn := fold_left Z.min (sb_LegIDs b) first in
  let mx := fold_left Z.max (sb_LegIDs b) first in
  let kind := if sb_IsFee b then "fee"%string else "xfer"%string in
  "dset:" +:+ short58 delegate +:+ ":" +:+ short58 (sb_Buyer b) +:+ ":" +:+ short58 (sb_Dest b) +:+
  ":" +:+ kind +:+ ":" +:+ pretty mn +:+ "-" +:+ pretty mx.

Definition pending_row (ref delegate ata : string) (b : settlementBatch) (t : time) : SettlementRow :=
  mkSettlementRow ref (sb_Buyer b) delegate (sb_Source b) (sb_Dest b) ata (sb_Amount b)
    SettlementPending None None None None None None t t.

Fixpoint anchorLegs (id : Z) (legs : list Z) : store unit :=
  match legs with
  | [] => ret tt
  | leg :: rest =>
    do! wrap "store: claim settlements: leg anchor: %w" (tx_stmt (sql_anchor_leg id leg)) in
    anchorLegs id rest
  end.

Fixpoint insertBatches (p : SettlementClaimParams) (t : time) (batches : list settlementBatch)
    : store (list DelegationSettlement) :=
  match batches with
  | [] => ret []
  | b :: rest =>
    let! ata := wrap "store: claim settlements: dest ata: %w"
      (lift (destinationATA (sb_Dest b) (cp_Mint p) (cp_TokenProgram p))) in
    let ref := settlementRef (cp_Delegate p) b in
    let!? r := scan_row (tx_stmt (sql_insert_settlement (pending_row ref (cp_Delegate p) ata b t))) in
    match r with
    | Err e =>
      if errors_is e ErrNoRows then insertBatches p t rest
      else fail (Wrapf "store: claim settlements: insert: %w" e)
    | Ok id =>
      do! anchorLegs id (sb_LegIDs b) in
      let! created := insertBatches p t rest in
      ret (mkSettlement id ref (sb_Buyer b) (cp_Delegate p) (sb_Source b) (sb_Dest b) ata
             (sb_Amount b) SettlementPending "" "" "" None None "" zeroTime :: created)
    end
  end.

Fixpoint insertPlans (p : SettlementClaimParams) (t : time) (plans : planMap)
    : store (list DelegationSettlement) :=
  match plans with
  | [] => ret []
  | (buyer, pl) :: rest =>
    if bp_skippable pl then insertPlans p t rest
    else
      let! ok := wrap "store: claim settlements: consume: %w"
        (lockAndConsumeAllowanceTx buyer (cp_Delegate p) (bp_total pl)) in
      if negb ok then insertPlans p t rest
      else
        let! created := insertBatches p t (bp_batches pl) in
        let! more := insertPlans p t rest in
        ret (created ++ more)
  end.

Definition scanned (fmt : string) (rows : list LedgerRow) : store (list unsettledLeg) :=
  wrap fmt (lift (scanLegs rows)).

(** One wave: the legs above the cursor. *)
Definition claimWave (p : SettlementClaimParams) (t : time) (limit lastLeg : Z)
    : store (list DelegationSettlement) :=
  let! rows := wrap "store: claim settlements: legs: %w"
    (tx_stmt (sql_earn_legs (cp_Delegate p) lastLeg limit)) in
  let! legs := scanned "store: claim settlements: leg scan: %w" rows in
  match last legs with
  | None => do! wrap "store: claim settlements: %w" commit in ret []
  | Some lastOne =>
    let! frows := wrap "store: claim settlements: fee legs: %w"
      (tx_stmt (sql_fee_legs (map ul_Ref legs))) in
    let! feeLegs := scanned "store: claim settlements: fee scan: %w" frows in
    let! st := planLegs p (mkPlanState [] "" ∅) legs in
    let! created := insertPlans p t (planFees p st feeLegs) in
    do! wrap "store: claim settlements: cursor: %w"
          (tx_stmt (sql_set_settle_cursor (cp_Delegate p) (ul_ID lastOne))) in
    do! wrap "store: claim settlements: %w" commit in
    ret created
  end.

Definition ClaimDelegationSettlements (p : SettlementClaimParams) (now : time)
    : store (list DelegationSettlement) :=
  let! t := now_or now in
  if String.eqb (cp_Delegate p) "" || String.eqb (cp_Mint p) "" || String.eqb (cp_TokenProgram p) ""
  then fail (Wrapf "store: claim settlements: %w: delegate, mint, token program required" ErrInvalid)
  else
    let limit := clampLimit 1000 500 (cp_LegLimit p) in
    with_tx "store: claim settlements: %w" (
      let!? cur := scan_row (tx_stmt (query (fun d => settle_cursors d !! cp_Delegate p))) in
      match cur with
      | Ok z => claimWave p t limit z
      | Err e => if errors_is e ErrNoRows then claimWave p t limit 0
                 else fail (Wrapf "store: claim settlements: cursor: %w" e)
      end).

(** ** The batches' states *)
Definition open_settlement (s : DelegationSettlementState) : bool :=
  match s with SettlementPending | SettlementSigned | SettlementBroadcast => true | _ => false end.

Definition scanSettlement (id : Z) (r : SettlementRow) : DelegationSettlement :=
  mkSettlement id (sr_batch_ref r) (sr_buyer_account r) (sr_delegate r) (sr_source_ata r)
    (sr_destination_wallet r) (sr_destination_ata r) (sr_amount_raw r) (sr_state r)
    (opt_str (sr_signed_wire r)) (opt_str (sr_tx_signature r)) (opt_str (sr_blockhash r))
    (sr_last_valid_block_height r) (sr_blockhash_expires_at r) (opt_str (sr_fail_reason r))
    (sr_created_at r).

Definition settlement_id_le (x y : Z * SettlementRow) : Prop := fst x <= fst y.
#[export] Instance settlement_id_le_dec : RelDecision settlement_id_le.
Proof. intros x y. unfold settlement_id_le. apply _. Defined.

Definition SweepDelegationSettlements (limit : Z) : store (list DelegationSettlement) :=
  let limit := clampLimit 100 20 limit in
  let! rows := wrap "store: sweep settlements: %w" (pool_stmt (query (fun d =>
    select settlement_id_le (fun p => open_settlement (sr_state (snd p)) = true)
      (Z.to_nat limit) (settlements d)))) in
  ret (map (fun p => scanSettlement (fst p) (snd p)) rows).

(** UPDATE delegation_settlements SET ... WHERE id = $1 AND state = from, rows affected *)
Definition sql_advance_settlement (id : Z) (from : DelegationSettlementState)
    (f : SettlementRow -> SettlementRow) : stmt db Z := fun d =>
  match settlements d !! id with
  | Some r => if bool_decide (sr_state r = from)
              then Ok (1, set_settlements (<[id := f r]> (settlements d)) d) else Ok (0, d)
  | None => Ok (0, d)
  end.

Definition settlement_in (s : DelegationSettlementState) (t : time) (r : SettlementRow) : SettlementRow :=
  mkSettlementRow (sr_batch_ref r) (sr_buyer_account r) (sr_delegate r) (sr_source_ata r)
    (sr_destination_wallet r) (sr_destination_ata r) (sr_amount_raw r) s
    (sr_signed_wire r) (sr_tx_signature r) (sr_blockhash r) (sr_last_valid_block_height r)
    (sr_blockhash_expires_at r) (sr_fail_reason r) (sr_created_at r) t.

Definition settlement_signed (wire sig hash : string) (height : Z) (expires t : time)
    (r : SettlementRow) : SettlementRow :=
  mkSettlementRow (sr_batch_ref r) (sr_buyer_account r) (sr_delegate r) (sr_source_ata r)
    (sr_destination_wallet r) (sr_destination_ata r) (sr_amount_raw r) SettlementSigned
    (Some wire) (Some sig) (Some hash) (Some height) (Some expires) (sr_fail_reason r)
    (sr_created_at r) t.

Definition settlement_restored (reason : string) (t : time) (r : SettlementRow) : SettlementRow :=
  mkSettlementRow (sr_batch_ref r) (sr_buyer_account r) (sr_delegate r) (sr_source_ata r)
    (sr_destination_wallet r) (sr_destination_ata r) (sr_amount_raw r) SettlementRestored
    (sr_signed_wire r) (sr_tx_signature r) (sr_blockhash r) (sr_last_valid_block_height r)
    (sr_blockhash_expires_at r) (Some reason) (sr_created_at r) t.

(** pgx refuses a uint64 that does not fit a BIGINT. *)
Definition MarkSettlementSigned (id : Z) (wire sig hash : string) (height : Z) (expires now : time)
    : store bool :=
  let! t := now_or now in
  let! n := wrap "store: mark settlement signed: %w" (pool_stmt (fun d =>
    if bool_decide (in_i64 height)
    then sql_advance_settlement id SettlementPending (settlement_signed wire sig hash height expires t) d
    else Err EncodeError)) in
  ret (n >? 0).

Definition MarkSettlementBroadcast (id : Z) (now : time) : store bool :=
  let! t := now_or now in
  let! n := wrap "store: mark settlement broadcast: %w" (pool_stmt
    (sql_advance_settlement id SettlementSigned (settlement_in SettlementBroadcast t))) in
  ret (n >? 0).

Definition FinalizeSettlement (id : Z) (now : time) : store bool :=
  let! t := now_or now in
  let! n := wrap "store: finalize settlement: %w" (pool_stmt
    (sql_advance_settlement id SettlementBroadcast (settlement_in SettlementFinalized t))) in
  ret (n >? 0).

(** UPDATE account_allowances SET allowance_raw = allowance_raw + $3
    WHERE account_id = $1 AND delegate = $2 AND revoked_at IS NULL *)
Definition sql_refund_allowance (a delegate : string) (amount : Z) : stmt db unit := fun d =>
  match allowances d !! (a, delegate) with
  | Some x =>
    if bool_decide (RevokedAt x = None) then
      if bool_decide (in_i64 (AllowanceRaw x + amount))
      then Ok (tt, set_allowances (<[(a, delegate) :=
             mkAllowance (al_AccountID x) (al_Delegate x) (AllowanceRaw x + amount) (ApprovedAt x) None]>
             (allowances d)) d)
      else Err OutOfRange
    else Ok (tt, d)
  | None => Ok (tt, d)
  end.

Definition sql_restore_settlement (id : Z) (reason : string) (t : time) : stmt db unit := fun d =>
  match settlements d !! id with
  | Some r => Ok (tt, set_settlements (<[id := settlement_restored reason t r]> (settlements d)) d)
  | None => Ok (tt, d)
  end.

Definition RestoreSettlement (id : Z) (reason : string) (now : time) : store bool :=
  let! t := now_or now in
  with_tx "store: restore settlement: %w" (
    let!? r := scan_row (tx_stmt (query (fun d => settlements d !! id))) in
    match r with
    | Err e => if errors_is e ErrNoRows then ret false
               else fail (Wrapf "store: restore settlement: %w" e)
    | Ok row =>
      if negb (open_settlement (sr_state row)) then ret false
      else
        do! wrap "store: restore settlement: refund: %w"
              (tx_stmt (sql_refund_allowance (sr_buyer_account row) (sr_delegate row) (sr_amount_raw row))) in
        do! wrap "store: restore settlement: mark: %w" (tx_stmt (sql_restore_settlement id reason t)) in
        do! wrap "store: restore settlement: %w" commit in
        ret true
    end).
