(* ===== verification/SettlementInv.v ===== *)
(** * The settlement lifecycle, and what settlements leave alone *)
From Stdlib Require Import ZArith Lia Relations.
From stdpp Require Import base gmap strings list fin_maps sorting pretty.
From S2P Require Import Prelude Sha256 Base58 Solana Billing Tx Schema BillingStore Projection WithdrawalStore WithdrawalInv SettlementStore.

Open Scope Z_scope.
Open Scope tx_scope.

(** ** The specification state machine *)
Inductive sstep : DelegationSettlementState -> DelegationSettlementState -> Prop :=
  | sstep_sign : sstep SettlementPending SettlementSigned
  | sstep_broadcast : sstep SettlementSigned SettlementBroadcast
  | sstep_finalize : sstep SettlementBroadcast SettlementFinalized
  | sstep_restore s : open_settlement s = true -> sstep s SettlementRestored.

Record sevolves (r r' : SettlementRow) : Prop := {
  sv_ref : sr_batch_ref r' = sr_batch_ref r;
  sv_buyer : sr_buyer_account r' = sr_buyer_account r;
  sv_delegate : sr_delegate r' = sr_delegate r;
  sv_source : sr_source_ata r' = sr_source_ata r;
  sv_dest : sr_destination_ata r' = sr_destination_ata r;
  sv_amount : sr_amount_raw r' = sr_amount_raw r;
  sv_state : rtc sstep (sr_state r) (sr_state r') }.

#[export] Instance sevolves_preorder : PreOrder sevolves.
Proof.
  split.
  - intros r. split; reflexivity.
  - intros r1 r2 r3 [] []. split; congruence || (etrans; eassumption).
Qed.

Lemma rtc_sstep_terminal s s' : open_settlement s = false -> rtc sstep s s' -> s' = s.
Proof.
  intros Hs Hr. destruct Hr as [|s s1 s2 H1 _]; [done|]. destruct H1; simpl in *; congruence.
Qed.

(** Ids below the sequence, and the CHECK of the amounts. *)
Definition fresh_ids (d : db) : Prop :=
  map_Forall (fun id r => id < settlements_seq d /\ 0 < sr_amount_raw r) (settlements d).

(** Batches persist along the machine and anchors are never moved. *)
Record SKeep (d0 d : db) : Prop := {
  sl_rows : forall id r, settlements d0 !! id = Some r ->
    exists r', settlements d !! id = Some r' /\ sevolves r r';
  sl_anchors : settle_legs d0 ⊆ settle_legs d }.

#[export] Instance SKeep_preorder : PreOrder SKeep.
Proof.
  split.
  - intros d. split; [|done]. intros id r H. exists r. by split.
  - intros d1 d2 d3 [H12 A12] [H23 A23]. split; [|by etrans].
    intros id r H. destruct (H12 id r H) as (r2 & H2 & ?). destruct (H23 id r2 H2) as (r3 & H3 & ?).
    exists r3. split; [done|by etrans].
Qed.

Definition SLife (d0 d : db) : Prop := fresh_ids d0 -> fresh_ids d /\ SKeep d0 d.

#[export] Instance SLife_preorder : PreOrder SLife.
Proof.
  split; [by split|]. intros d1 d2 d3 H12 H23 H1. destruct (H12 H1) as [H2 K12].
  destruct (H23 H2) as [H3 K23]. split; [done|by etrans].
Qed.

Lemma SLife_same d d' :
  settlements d' = settlements d -> settlements_seq d' = settlements_seq d ->
  settle_legs d' = settle_legs d -> SLife d d'.
Proof.
  intros H1 H2 H3 HF. unfold fresh_ids in *. rewrite H1, H2. split; [done|].
  split; [|by rewrite H3]. intros id r Hr. exists r. by rewrite H1.
Qed.

(** ** What the statements write *)
Lemma eff_consume a del amount d n d' :
  sql_consume_allowance a del amount d = Ok (n, d') -> d' = d \/ exists v, d' = set_allowances v d.
Proof.
  unfold sql_consume_allowance. destruct (allowances d !! _); [destruct (_ && _)|];
    intros [= _ <-]; eauto.
Qed.
Lemma eff_refund a del amount d u d' :
  sql_refund_allowance a del amount d = Ok (u, d') -> d' = d \/ exists v, d' = set_allowances v d.
Proof.
  unfold sql_refund_allowance.
  destruct (allowances d !! _); [destruct (bool_decide _); [destruct (bool_decide _)|]|];
    intros Hs; simplify_eq; eauto.
Qed.
Lemma eff_settle_cursor del leg d u d' :
  sql_set_settle_cursor del leg d = Ok (u, d') -> exists v, d' = set_settle_cursors v d.
Proof. intros [= _ <-]. eauto. Qed.
Lemma eff_anchor id leg d u d' :
  sql_anchor_leg id leg d = Ok (u, d') ->
  d' = d \/ (settle_legs d !! leg = None /\ d' = set_settle_legs (<[leg := id]> (settle_legs d)) d).
Proof.
  unfold sql_anchor_leg. destruct (settle_legs d !! leg) eqn:E; [intros [= _ <-]; by left|].
  destruct (settlements d !! id); [|done]. intros [= _ <-]. by right.
Qed.
Lemma eff_insert_settlement r d o d' :
  sql_insert_settlement r d = Ok (o, d') ->
  d' = set_settlements_seq (settlements_seq d + 1) d \/
  0 < sr_amount_raw r /\ d' = set_settlements (<[settlements_seq d := r]> (settlements d))
         (set_settlements_seq (settlements_seq d + 1) d).
Proof.
  unfold sql_insert_settlement. destruct (_ <=? 0) eqn:E; [done|]. zb.
  destruct (find_batch _ _); intros [= _ <-]; auto.
Qed.
Lemma eff_advance id from f d n d' :
  sql_advance_settlement id from f d = Ok (n, d') ->
  d' = d \/ exists r, settlements d !! id = Some r /\ sr_state r = from /\
    d' = set_settlements (<[id := f r]> (settlements d)) d.
Proof.
  unfold sql_advance_settlement. destruct (settlements d !! id) as [r|]; [|intros [= _ <-]; by left].
  destruct (bool_decide _) eqn:E; zb; intros [= _ <-]; [right; eauto|by left].
Qed.
Lemma eff_restore_settlement id reason t d u d' :
  sql_restore_settlement id reason t d = Ok (u, d') ->
  d' = d \/ exists r, settlements d !! id = Some r /\
    d' = set_settlements (<[id := settlement_restored reason t r]> (settlements d)) d.
Proof.
  unfold sql_restore_settlement. destruct (settlements d !! id); intros [= _ <-]; [right; eauto|by left].
Qed.

(** ** Relations that ignore settlements *)
Class SettlementFrame (Rel : relation db) : Prop := {
  sf_preorder :: PreOrder Rel;
  sf_allowances v d : Rel d (set_allowances v d);
  sf_settlements v d : Rel d (set_settlements v d);
  sf_settlements_seq v d : Rel d (set_settlements_seq v d);
  sf_settle_legs v d : Rel d (set_settle_legs v d);
  sf_settle_cursors v d : Rel d (set_settle_cursors v d) }.

Lemma mv_consume (Rel : relation db) `{!PreOrder Rel} (Hallow : forall v d, Rel d (set_allowances v d)) a del n d k d' :
  sql_consume_allowance a del n d = Ok (k, d') -> Rel d d'.
Proof. intros [->|[v ->]]%eff_consume; [reflexivity|apply Hallow]. Qed.
Lemma mv_refund (Rel : relation db) `{!PreOrder Rel} (Hallow : forall v d, Rel d (set_allowances v d)) a del n d u d' :
  sql_refund_allowance a del n d = Ok (u, d') -> Rel d d'.
Proof. intros [->|[v ->]]%eff_refund; [reflexivity|apply Hallow]. Qed.

Section Frames.
Context (Rel : relation db) `{HF : !PreOrder Rel}.
Context (Hconsume : forall a del n d k d', sql_consume_allowance a del n d = Ok (k, d') -> Rel d d').
Context (Hcursor : forall v d, Rel d (set_settle_cursors v d)).
Context (Hinsert : forall r d o d', sql_insert_settlement r d = Ok (o, d') -> Rel d d').
Context (Hanchor : forall id leg d u d', sql_anchor_leg id leg d = Ok (u, d') -> Rel d d').

Lemma mv_read {A} (f : db -> A) : forall d a d', query f d = Ok (a, d') -> Rel d d'.
Proof using HF. intros d a d' [= _ <-]. reflexivity. Qed.
Lemma mv_settle_cursor del leg d u d' : sql_set_settle_cursor del leg d = Ok (u, d') -> Rel d d'.
Proof using Hcursor. intros [v ->]%eff_settle_cursor. apply Hcursor. Qed.
Hint Resolve mv_read mv_settle_cursor : moves.

Lemma mv_primary a : Moves Rel (PrimaryWalletForAccount a).
Proof using HF. unfold PrimaryWalletForAccount, sql_primary_wallet. moves. Qed.
Lemma mv_resolve c a : Moves Rel (resolve c a).
Proof using HF. unfold resolve. pose proof (mv_primary a). moves. Qed.
Lemma mv_planLeg p st l : Moves Rel (planLeg p st l).
Proof using HF.
  unfold planLeg. pose proof (mv_primary (ul_Counter l)).
  pose proof (mv_resolve (ps_cache st) (ul_AccountID l)). moves.
Qed.
Lemma mv_planLegs p legs : forall st, Moves Rel (planLegs p st legs).
Proof using HF. induction legs as [|l legs IH]; intros st; simpl; pose proof (mv_planLeg p st); moves. Qed.
Lemma mv_anchorLegs id legs : Moves Rel (anchorLegs id legs).
Proof using HF Hanchor. induction legs as [|l legs IH]; simpl; moves. Qed.
Lemma mv_insertBatches p t bs : Moves Rel (insertBatches p t bs).
Proof using HF Hanchor Hinsert.
  induction bs as [|b bs IH]; simpl; [moves|]. pose proof mv_anchorLegs. moves.
Qed.
Lemma mv_insertPlans p t plans : Moves Rel (insertPlans p t plans).
Proof using HF Hanchor Hinsert Hconsume.
  induction plans as [|[b pl] plans IH]; simpl; [moves|]. pose proof mv_insertBatches.
  unfold lockAndConsumeAllowanceTx. moves.
Qed.
Lemma mv_claim p now : Moves Rel (ClaimDelegationSettlements p now).
Proof using HF Hanchor Hinsert Hconsume Hcursor.
  pose proof mv_insertPlans. pose proof mv_planLegs.
  unfold ClaimDelegationSettlements, claimWave, now_or, sql_earn_legs, sql_fee_legs, scanned. moves.
Qed.

Lemma mv_restore id reason now :
  (forall a del n d u d', sql_refund_allowance a del n d = Ok (u, d') -> Rel d d') ->
  (forall t d u d', sql_restore_settlement id reason t d = Ok (u, d') -> Rel d d') ->
  Moves Rel (RestoreSettlement id reason now).
Proof using HF. intros. unfold RestoreSettlement, now_or. moves. Qed.
End Frames.

Section Others.
Context (Rel : relation db) `{HF : !SettlementFrame Rel}.

Lemma mv_claim_frame p now : Moves Rel (ClaimDelegationSettlements p now).
Proof using HF.
  apply mv_claim; try typeclasses eauto; [apply (mv_consume Rel), sf_allowances|apply sf_settle_cursors|..].
  - intros r d o d' [->|[_ ->]]%eff_insert_settlement; [apply sf_settlements_seq|].
    etrans; [apply sf_settlements_seq|apply sf_settlements].
  - intros id leg d u d' [->|[_ ->]]%eff_anchor; [reflexivity|apply sf_settle_legs].
Qed.

Lemma mv_advance id from f d n d' : sql_advance_settlement id from f d = Ok (n, d') -> Rel d d'.
Proof using HF. intros [->|(r & _ & _ & ->)]%eff_advance; [reflexivity|apply sf_settlements]. Qed.
Lemma mv_restore_row id reason t d u d' : sql_restore_settlement id reason t d = Ok (u, d') -> Rel d d'.
Proof using HF. intros [->|(r & _ & ->)]%eff_restore_settlement; [reflexivity|apply sf_settlements]. Qed.

Lemma mv_signed_frame id w s h ht ex now : Moves Rel (MarkSettlementSigned id w s h ht ex now).
Proof using HF.
  unfold MarkSettlementSigned, now_or. moves. intros d n d'. destruct (bool_decide _); [|done]. apply mv_advance.
Qed.
Lemma mv_broadcast_frame id now : Moves Rel (MarkSettlementBroadcast id now).
Proof using HF. unfold MarkSettlementBroadcast, now_or. pose proof mv_advance. moves. Qed.
Lemma mv_finalize_frame id now : Moves Rel (FinalizeSettlement id now).
Proof using HF. unfold FinalizeSettlement, now_or. pose proof mv_advance. moves. Qed.
Lemma mv_restore_frame id reason now : Moves Rel (RestoreSettlement id reason now).
Proof using HF.
  apply mv_restore; [typeclasses eauto|apply (mv_refund Rel), sf_allowances|apply mv_restore_row].
Qed.
End Others.

(** ** Every settlement method respects the machine *)
Lemma SLife_update id r r' d :
  settlements d !! id = Some r -> sevolves r r' ->
  SLife d (set_settlements (<[id := r']> (settlements d)) d).
Proof.
  intros Hr Hev HF. split.
  - intros k x Hk. simpl in *. apply lookup_insert_Some in Hk as [[<- <-]|[_ Hk]]; [|by eapply HF].
    rewrite (sv_amount _ _ Hev). by apply HF.
  - split; [|done]. intros k x Hk. simpl. destruct (decide (id = k)) as [<-|Hne].
    + exists r'. rewrite lookup_insert_eq. by simplify_eq.
    + exists x. by rewrite lookup_insert_ne.
Qed.

Lemma SLife_insert r d o d' : sql_insert_settlement r d = Ok (o, d') -> SLife d d'.
Proof.
  intros [->|[Hpos ->]]%eff_insert_settlement HF.
  - split; [|split; [|done]].
    + intros k x Hk. simpl in *. specialize (HF k x Hk). simpl in HF. lia.
    + intros k x Hk. by exists x.
  - split; [|split; [|done]].
    + intros k x Hk. simpl in *. apply lookup_insert_Some in Hk as [[<- <-]|[_ Hk]]; [lia|].
      specialize (HF k x Hk). simpl in HF. lia.
    + intros k x Hk. simpl. exists x. rewrite lookup_insert_ne; [done|].
      specialize (HF k x Hk). simpl in HF. lia.
Qed.

Lemma SLife_anchor id leg d u d' : sql_anchor_leg id leg d = Ok (u, d') -> SLife d d'.
Proof.
  intros [->|[Hn ->]]%eff_anchor; [reflexivity|]. intros HF. split; [done|].
  split; [intros k x Hk; by exists x|]. simpl. by apply insert_subseteq.
Qed.

Lemma SLife_advance id from f d n d' :
  (forall r, sr_state r = from -> sevolves r (f r)) ->
  sql_advance_settlement id from f d = Ok (n, d') -> SLife d d'.
Proof. intros Hf [->|(r & Hr & Hs & ->)]%eff_advance; [reflexivity|]. apply (SLife_update id r); auto. Qed.

Lemma claim_life p now : Moves SLife (ClaimDelegationSettlements p now).
Proof.
  apply mv_claim; [typeclasses eauto|apply (mv_consume SLife); intros; by apply SLife_same|intros; by apply SLife_same|apply SLife_insert|apply SLife_anchor].
Qed.

Lemma sstep_once r r' :
  sr_batch_ref r' = sr_batch_ref r -> sr_buyer_account r' = sr_buyer_account r ->
  sr_delegate r' = sr_delegate r -> sr_source_ata r' = sr_source_ata r ->
  sr_destination_ata r' = sr_destination_ata r -> sr_amount_raw r' = sr_amount_raw r ->
  sstep (sr_state r) (sr_state r') -> sevolves r r'.
Proof. intros. split; try done. by apply rtc_once. Qed.

Lemma signed_life id w s h ht ex now : Moves SLife (MarkSettlementSigned id w s h ht ex now).
Proof.
  unfold MarkSettlementSigned, now_or. moves. intros d n d'. destruct (bool_decide _); [|done].
  apply SLife_advance. intros r Hr. apply sstep_once; try done. rewrite Hr. constructor.
Qed.
Lemma broadcast_life id now : Moves SLife (MarkSettlementBroadcast id now).
Proof.
  unfold MarkSettlementBroadcast, now_or. moves; intros d n d'; apply SLife_advance;
    intros r Hr; apply sstep_once; try done; rewrite Hr; constructor.
Qed.
Lemma finalize_life id now : Moves SLife (FinalizeSettlement id now).
Proof.
  unfold FinalizeSettlement, now_or. moves; intros d n d'; apply SLife_advance;
    intros r Hr; apply sstep_once; try done; rewrite Hr; constructor.
Qed.

(** A restoration refunds and closes the row that was read, under its lock. *)
Lemma restore_preserves d0 id reason now : Preserves (SLife d0) (RestoreSettlement id reason now).
Proof.
  unfold RestoreSettlement. apply preserves_bind; [unfold now_or; destruct (IsZero now); auto with otela|].
  intros t. apply tbody. eapply tattempt_scan with
    (R := fun row w => SLife d0 w /\ settlements w !! id = Some row); [auto| |].
  2:{ intros e. destruct (errors_is _ _); [by apply tret|apply tfail]. }
  intros row. apply tif; intros Hopen; zb; [by apply tret|].
  eapply tbind with (R := fun _ w => SLife d0 w /\ settlements w !! id = Some row).
  { apply twrap, tstmt. intros w u w' [HL Hrow] [->|[v ->]]%eff_refund; [done|].
    split; [etrans; [exact HL|by apply SLife_same]|done]. }
  intros ?. eapply tbind with (R := fun _ => SLife d0).
  { apply twrap, tstmt. intros w u w' [HL Hrow] [->|(r & Hr & ->)]%eff_restore_settlement; [done|].
    simplify_eq. etrans; [exact HL|]. eapply SLife_update; [done|]. apply sstep_once; try done.
    by constructor. }
  intros ?. eapply tbind; [by apply tcommit|]. intros ?. by apply tret.
Qed.

Lemma restore_life id reason now e d : SLife d (snd (run (RestoreSettlement id reason now) e d)).
Proof. apply (preserves_run (SLife d)); [apply restore_preserves|reflexivity]. Qed.

Lemma sweep_life limit : Moves SLife (SweepDelegationSettlements limit).
Proof. pose proof (@mv_read SLife _). unfold SweepDelegationSettlements. moves. Qed.
