(* ===== verification/Market.v ===== *)
(** * internal/store/model_pricing.go and the market reads of billing.go

    A buyer's caps per service and model, a seller's durable asks per peer, and the
    live asks of given peers.  A sheet is replaced as a whole. *)
From Stdlib Require Import ZArith Lia Strings.String.
From stdpp Require Import base gmap strings list fin_maps sorting.
From S2P Require Import Prelude Billing Tx Schema BillingStore.

Open Scope Z_scope.
Open Scope tx_scope.

Definition str_le (a b : string) : bool := String.leb a b.
(** ORDER BY over the parts of a primary key. *)
Definition key3_le (a b : string * string * string) : bool :=
  let '(a1, a2, a3) := a in let '(b1, b2, b3) := b in
  if String.eqb a1 b1 then (if String.eqb a2 b2 then str_le a3 b3 else str_le a2 b2) else str_le a1 b1.
Definition row_before {R} (x y : (string * string * string) * R) : Prop := key3_le (fst x) (fst y) = true.
#[export] Instance row_before_dec {R} : RelDecision (@row_before R).
Proof. intros x y. unfold row_before. apply _. Defined.

(** ** Caps per model *)
Definition ModelCapsForAccount (a : string) : store (list ModelCaps) :=
  wrap "store: model caps: %w" (pool_stmt (query (fun d =>
    map snd (merge_sort row_before
      (List.filter (fun kr => String.eqb (fst (fst (fst kr))) a) (map_to_list (model_caps d))))))).

Definition sql_delete_model_caps (a : string) : stmt db unit := fun d =>
  Ok (tt, set_model_caps (filter (fun p => fst (fst (fst p)) <> a) (model_caps d)) d).

(** The columns' checks: NULL, or from 0 to the bound. *)
Definition model_cap_ok (o : option Z) : bool :=
  match o with Some z => (0 <=? z) && (z <? MaxBaseRate) | None => true end.
Definition sql_insert_model_caps (a : string) (r : ModelCaps) : stmt db unit := fun d =>
  let k := (a, mc_Service r, mc_Model r) in
  if negb (model_cap_ok (mc_InputPerMillion r) && model_cap_ok (mc_CachedInputPerMillion r) &&
           model_cap_ok (mc_OutputPerMillion r)) then Err CheckViolation
  else match model_caps d !! k with
       | Some _ => Err UniqueViolation
       | None => Ok (tt, set_model_caps (<[k := r]> (model_caps d)) d)
       end.
Fixpoint insertModelCaps (a : string) (rows : list ModelCaps) : store unit :=
  match rows with
  | [] => ret tt
  | r :: rest =>
    do! wrap "store: replace model caps: %w" (tx_stmt (sql_insert_model_caps a r)) in
    insertModelCaps a rest
  end.
Definition ReplaceModelCaps (a : string) (rows : list ModelCaps) : store unit :=
  with_tx "store: replace model caps: %w" (
    do! wrap "store: replace model caps: %w" (tx_stmt (sql_delete_model_caps a)) in
    do! insertModelCaps a rows in
    wrap "store: replace model caps: %w" commit).

(** ** Durable asks *)
(** What a read scans: the peer is the key of the answer. *)
Definition config_ask (kr : (string * string * string) * Ask) : string * Ask :=
  let '((peer, service, model), a) := kr in
  (peer, mkAsk "" service model (ak_InputPerMillion a) (ak_CachedInputPerMillion a) (ak_OutputPerMillion a)
           0 zeroTime (ak_UpdatedAt a)).
Definition group_asks (l : list (string * Ask)) : gmap string (list Ask) :=
  fold_left (fun m pa => <[fst pa := default [] (m !! fst pa) ++ [snd pa]]> m) l ∅.

Definition AllAskConfigs : store (gmap string (list Ask)) :=
  wrap "store: all ask configs: %w" (pool_stmt (query (fun d =>
    group_asks (map config_ask (merge_sort row_before (map_to_list (ask_config d))))))).
Definition AskConfigForPeers (peers : list string) : store (gmap string (list Ask)) :=
  if bool_decide (peers = []) then ret ∅
  else wrap "store: ask config: %w" (pool_stmt (query (fun d =>
    group_asks (map config_ask (merge_sort row_before
      (List.filter (fun kr => bool_decide (fst (fst (fst kr)) ∈ peers)) (map_to_list (ask_config d)))))))).

Definition sql_delete_ask_config (peer : string) : stmt db unit := fun d =>
  Ok (tt, set_ask_config (filter (fun p => fst (fst (fst p)) <> peer) (ask_config d)) d).
Definition sql_insert_ask_config (peer : string) (t : time) (a : Ask) : stmt db unit := fun d =>
  let k := (peer, ak_Service a, ak_Model a) in
  if negb (ask_row_ok a) then Err CheckViolation
  else match ask_config d !! k with
       | Some _ => Err UniqueViolation
       | None => Ok (tt, set_ask_config (<[k := mkAsk peer (ak_Service a) (ak_Model a) (ak_InputPerMillion a)
                          (ak_CachedInputPerMillion a) (ak_OutputPerMillion a) 0 zeroTime t]> (ask_config d)) d)
       end.
Fixpoint insertAskConfig (peer : string) (t : time) (l : list Ask) : store unit :=
  match l with
  | [] => ret tt
  | a :: rest =>
    do! wrap "store: replace ask config: %w" (tx_stmt (sql_insert_ask_config peer t a)) in
    insertAskConfig peer t rest
  end.
Definition ReplaceAskConfig (peer : string) (l : list Ask) : store unit :=
  with_tx "store: replace ask config: %w" (
    do! wrap "store: replace ask config: %w" (tx_stmt (sql_delete_ask_config peer)) in
    let! t := now in
    do! insertAskConfig peer t l in
    wrap "store: replace ask config: %w" commit).

(** ** The asks of given peers *)
Definition LiveAsksByPeers (peers : list string) (t : time) : store (list Ask) :=
  if bool_decide (peers = []) then ret []
  else wrap "store: live asks by peers: %w" (pool_stmt (query (fun d =>
    map snd (merge_sort row_before
      (List.filter (fun kr => bool_decide (fst (fst (fst kr)) ∈ peers) && (t <? ak_ExpiresAt (snd kr)))
         (map_to_list (asks d))))))).
