(* ===== verification/Reachable.v ===== *)
(** * Every state the store can reach

    An operation is any store method with any arguments, run in any environment
    (any clock, any pattern of lost round trips).  A reachable state is one that a
    sequence of operations leaves, from the empty database. *)
From Stdlib Require Import ZArith Lia Relations.
From stdpp Require Import base gmap strings list fin_maps sorting.
From S2P Require Import Prelude Billing Tx Schema BillingStore Projection WithdrawalStore WithdrawalInv DepositStore DepositInv AllowanceStore SettlementStore SettlementInv Market.

Open Scope Z_scope.
Open Scope tx_scope.

Inductive op :=
  | OpEnsure (a : string)
  | OpCaps (a : string) (caps : Caps)
  | OpReserve (req : Reservation)
  | OpSettle (id peer : string) (u : Usage) (feeBps : Z) (now : time)
  | OpRelease (id reason : string) (now : time)
  | OpSweep (before : time) (limit : Z)
  | OpReconcile (a : string)
  | OpReplaceAsks (peer : string) (l : list Ask) (ttl : Z)
  | OpModelCaps (a : string) (rows : list ModelCaps)
  | OpAskConfig (peer : string) (l : list Ask)
  | OpWithdraw (q : WithdrawalRequest) (now : time)
  | OpSigned (id : Z) (wire sig hash : string) (height : Z) (expires now : time)
  | OpBroadcast (id : Z) (now : time)
  | OpFinalize (id : Z) (now : time)
  | OpRestore (id : Z) (reason : string) (now : time)
  | OpFail (id : Z) (reason : string) (now : time)
  | OpDue (limit : Z)
  | OpDeposit (ev : DepositEvent)
  | OpCursor (ata from to : string)
  | OpApply (sig : string) (i : Z) (a : string) (now : time)
  | OpReconcileDeposits (wallet a : string) (now : time)
  | OpAllowance (ch : AllowanceChange)
  | OpWallets (links : gmap string string)
  | OpClaim (p : SettlementClaimParams) (now : time)
  | OpSettleSigned (id : Z) (wire sig hash : string) (height : Z) (expires now : time)
  | OpSettleBroadcast (id : Z) (now : time)
  | OpSettleFinalize (id : Z) (now : time)
  | OpSettleRestore (id : Z) (reason : string) (now : time)
  | OpSettleSweep (limit : Z).

Definition is_allowance (o : op) : bool := match o with OpAllowance _ => true | _ => false end.

(** The account directory changes the links: to any others. *)
Definition sql_set_wallets (links : gmap string string) : stmt db unit := fun d =>
  Ok (tt, set_wallets links d).

Definition discard {A} (m : store A) : store unit := bind m (fun _ => ret tt).

Definition exec_op (o : op) : store unit :=
  match o with
  | OpEnsure a => EnsureAccountCredit a
  | OpCaps a caps => discard (SetAccountCaps a caps)
  | OpReserve req => discard (ReserveBilling req)
  | OpSettle id peer u fee now => discard (SettleBilling id peer u fee now)
  | OpRelease id reason now => discard (ReleaseBilling id reason now)
  | OpSweep before limit => discard (SweepStaleReservations before limit)
  | OpReconcile a => discard (ReconcileAccount a)
  | OpReplaceAsks peer l ttl => discard (ReplaceAsks peer l ttl)
  | OpModelCaps a rows => ReplaceModelCaps a rows
  | OpAskConfig peer l => ReplaceAskConfig peer l
  | OpWithdraw q now => discard (ReserveWithdrawal q now)
  | OpSigned id wire sig hash h ex now => discard (MarkWithdrawalSigned id wire sig hash h ex now)
  | OpBroadcast id now => discard (MarkWithdrawalBroadcast id now)
  | OpFinalize id now => discard (FinalizeWithdrawal id now)
  | OpRestore id reason now => discard (RestoreWithdrawal id reason now)
  | OpFail id reason now => discard (FailWithdrawal id reason now)
  | OpDue limit => discard (SweepWithdrawalsDue limit)
  | OpDeposit ev => discard (InsertDepositEvent ev)
  | OpCursor ata from to => discard (AdvanceDepositCursor ata from to)
  | OpApply sig i a now => discard (ApplyDeposit sig i a now)
  | OpReconcileDeposits w a now => discard (ReconcileDepositsForWallet w a now)
  | OpAllowance ch => discard (UpsertAllowance ch)
  | OpWallets links => pool_stmt (sql_set_wallets links)
  | OpClaim p now => discard (ClaimDelegationSettlements p now)
  | OpSettleSigned id wire sig hash h ex now => discard (MarkSettlementSigned id wire sig hash h ex now)
  | OpSettleBroadcast id now => discard (MarkSettlementBroadcast id now)
  | OpSettleFinalize id now => discard (FinalizeSettlement id now)
  | OpSettleRestore id reason now => discard (RestoreSettlement id reason now)
  | OpSettleSweep limit => discard (SweepDelegationSettlements limit)
  end.

Definition step (d d' : db) : Prop := exists o e, d' = snd (run (exec_op o) e d).
Definition Reachable (d : db) : Prop := rtc step empty_db d.

(** ** What the statements write *)
Lemma eff_ensure a t d u d' :
  sql_ensure_credit a t d = Ok (u, d') -> d' = d \/ exists v, d' = set_credits v d.
Proof.
  unfold sql_ensure_credit. destruct (credits d !! a); [intros [= _ <-]; by left|].
  intros (d'' & (-> & _)%write_credit_Ok & [= _ <-])%res_bind_Ok. right; eauto.
Qed.
Lemma eff_update_credit a f d u d' :
  sql_update_credit a f d = Ok (u, d') -> d' = d \/ exists v, d' = set_credits v d.
Proof.
  unfold sql_update_credit. destruct (credits d !! a); [|intros [= _ <-]; by left].
  intros (d'' & (-> & _)%write_credit_Ok & [= _ <-])%res_bind_Ok. right; eauto.
Qed.
Lemma eff_insert_request id r d u d' :
  sql_insert_request id r d = Ok (u, d') -> d' = d \/ exists v, d' = set_requests v d.
Proof.
  unfold sql_insert_request. destruct (requests d !! id); [done|].
  intros (d'' & (-> & _)%write_request_Ok & [= _ <-])%res_bind_Ok. right; eauto.
Qed.
Lemma eff_update_request id f d u d' :
  sql_update_request id f d = Ok (u, d') -> d' = d \/ exists v, d' = set_requests v d.
Proof.
  unfold sql_update_request. destruct (requests d !! id); [|intros [= _ <-]; by left].
  intros (d'' & (-> & _)%write_request_Ok & [= _ <-])%res_bind_Ok. right; eauto.
Qed.
Lemma eff_insert_ledger row d u d' :
  sql_insert_ledger row d = Ok (u, d') ->
  d' = append_ledger row d /\ ledger_taken (lg_ref row) (lg_leg row) (ledger d) = false.
Proof.
  unfold sql_insert_ledger. destruct (ledger_row_check row); [done|].
  destruct (ledger_taken _ _ _); [done|]. by intros [= _ <-].
Qed.
Lemma eff_insert_ledger_nothing row d n d' :
  sql_insert_ledger_nothing row d = Ok (n, d') ->
  (d' = set_ledger_seq (ledger_seq d + 1) d /\ n = 0) \/
  (d' = append_ledger row d /\ n = 1 /\ ledger_taken (lg_ref row) (lg_leg row) (ledger d) = false).
Proof.
  unfold sql_insert_ledger_nothing. destruct (ledger_row_check row); [done|].
  destruct (ledger_taken _ _ _); intros [= <- <-]; auto.
Qed.
Lemma eff_upsert a del raw t rv d u d' :
  sql_upsert_allowance a del raw t rv d = Ok (u, d') -> exists v, d' = set_allowances v d.
Proof.
  unfold sql_upsert_allowance. destruct (_ <? 0); [done|]. destruct (credits d !! a); [|done].
  intros [= _ <-]. eauto.
Qed.
Lemma eff_delete_asks peer d u d' :
  sql_delete_asks peer d = Ok (u, d') -> exists v, d' = set_asks v d.
Proof. unfold sql_delete_asks. intros [= _ <-]. eauto. Qed.
Lemma eff_insert_ask a d u d' : sql_insert_ask a d = Ok (u, d') -> exists v, d' = set_asks v d.
Proof.
  unfold sql_insert_ask. destruct (negb _); [done|]. destruct (asks d !! _); [done|].
  intros [= _ <-]. eauto.
Qed.
Lemma eff_insert_cursor ata sig d n d' :
  sql_insert_cursor ata sig d = Ok (n, d') -> d' = d \/ exists v, d' = set_dep_cursors v d.
Proof. unfold sql_insert_cursor. destruct (dep_cursors d !! ata); intros [= _ <-]; eauto. Qed.
Lemma eff_cas_cursor ata from to d n d' :
  sql_cas_cursor ata from to d = Ok (n, d') -> d' = d \/ exists v, d' = set_dep_cursors v d.
Proof.
  unfold sql_cas_cursor. destruct (dep_cursors d !! ata) as [s|]; [destruct (String.eqb s from)|];
    intros [= _ <-]; eauto.
Qed.
Lemma eff_insert_deposit ev d n d' :
  sql_insert_deposit ev d = Ok (n, d') -> d' = d \/ exists v, d' = set_deposits v d.
Proof.
  unfold sql_insert_deposit. destruct (negb _); [done|]. destruct (_ <=? 0); [done|].
  destruct (deposits d !! _); intros [= _ <-]; eauto.
Qed.
Lemma eff_assign_deposit k a t d u d' :
  sql_assign_deposit k a t d = Ok (u, d') -> d' = d \/ exists v, d' = set_deposits v d.
Proof. unfold sql_assign_deposit. destruct (deposits d !! k); intros [= _ <-]; eauto. Qed.
Lemma eff_insert_withdrawal r d o d' :
  sql_insert_withdrawal r d = Ok (o, d') -> exists v n, d' = set_withdrawals v (set_withdrawals_seq n d).
Proof.
  unfold sql_insert_withdrawal. destruct (_ <=? 0); [done|]. destruct (find_key _ _) as [[]|];
    intros [= _ <-]; [|unfold set_withdrawal; eauto].
  exists (withdrawals d), (withdrawals_seq d + 1). by destruct d.
Qed.
Lemma eff_update_withdrawal id f d u d' :
  sql_update_withdrawal id f d = Ok (u, d') -> d' = d \/ exists v, d' = set_withdrawals v d.
Proof.
  unfold sql_update_withdrawal. destruct (withdrawals d !! id); intros [= _ <-]; [|by left].
  unfold set_withdrawal. eauto.
Qed.
Lemma eff_query {A} (f : db -> A) d a d' : query f d = Ok (a, d') -> d' = d.
Proof. unfold query. by intros [= _ <-]. Qed.

(** ** Relations the methods respect

    What a preorder on states must tolerate for the methods to respect it: writes
    to the tables it does not speak of, and ledger rows with the legs [ok]. *)
Class BillingFrame (Rel : relation db) (ok : string -> Prop) : Prop := {
  bf_preorder :: PreOrder Rel;
  bf_credits v d : Rel d (set_credits v d);
  bf_requests v d : Rel d (set_requests v d);
  bf_asks v d : Rel d (set_asks v d);
  bf_dep_cursors v d : Rel d (set_dep_cursors v d);
  bf_seq d : Rel d (set_ledger_seq (ledger_seq d + 1) d);
  bf_append row d : ok (lg_leg row) -> ledger_taken (lg_ref row) (lg_leg row) (ledger d) = false ->
    Rel d (append_ledger row d) }.

Class AllowanceFrame (Rel : relation db) : Prop :=
  frame_allowances v d : Rel d (set_allowances v d).
Class DepositFrame (Rel : relation db) : Prop :=
  frame_deposits v d : Rel d (set_deposits v d).
Class WithdrawalFrame (Rel : relation db) : Prop := {
  frame_withdrawals v d : Rel d (set_withdrawals v d);
  frame_withdrawals_seq v d : Rel d (set_withdrawals_seq v d) }.

(** The price sheets, which no invariant speaks of. *)
Class SheetFrame (Rel : relation db) : Prop := {
  sf_preorder :: PreOrder Rel;
  frame_model_caps v d : Rel d (set_model_caps v d);
  frame_ask_config v d : Rel d (set_ask_config v d) }.

Lemma mv_sheets Rel `{HF : !SheetFrame Rel} o :
  match o with OpModelCaps _ _ | OpAskConfig _ _ => Moves Rel (exec_op o) | _ => True end.
Proof.
  assert (Hc : forall a d u d', sql_delete_model_caps a d = Ok (u, d') -> Rel d d').
  { intros a d u d' [= _ <-]. apply frame_model_caps. }
  assert (Hi : forall a r d u d', sql_insert_model_caps a r d = Ok (u, d') -> Rel d d').
  { intros a r d u d'. unfold sql_insert_model_caps. destruct (negb _); [done|].
    destruct (model_caps d !! _); [done|]. intros [= _ <-]. apply frame_model_caps. }
  assert (Hd : forall p d u d', sql_delete_ask_config p d = Ok (u, d') -> Rel d d').
  { intros a d u d' [= _ <-]. apply frame_ask_config. }
  assert (Ha : forall p t a d u d', sql_insert_ask_config p t a d = Ok (u, d') -> Rel d d').
  { intros q t a d u d'. unfold sql_insert_ask_config. destruct (negb _); [done|].
    destruct (ask_config d !! _); [done|]. intros [= _ <-]. apply frame_ask_config. }
  destruct o; try done; simpl; [unfold ReplaceModelCaps|unfold ReplaceAskConfig]; moves; eauto.
  - induction rows as [|r rows IH]; simpl; moves; eauto.
  - match goal with |- Moves _ (insertAskConfig _ ?t _) => revert t end.
    induction l as [|r l IH]; intros t; simpl; moves; eauto.
Qed.

Section Frames.
Context (Rel : relation db) (ok : string -> Prop) `{HF : !BillingFrame Rel ok}.

Ltac by_effect H :=
  intros;
  match goal with Hs : _ = Ok _ |- _ => apply H in Hs end;
  repeat match goal with
  | Hs : _ \/ _ |- _ => destruct Hs
  | Hs : exists _, _ |- _ => destruct Hs
  | Hs : _ /\ _ |- _ => destruct Hs
  end; subst;
  try first [ reflexivity | apply (@bf_credits Rel ok HF) | apply (@bf_requests Rel ok HF)
            | apply (@bf_asks Rel ok HF) | apply (@bf_dep_cursors Rel ok HF) ].

Lemma mv_refl d : Rel d d.
Proof. reflexivity. Qed.
Hint Resolve mv_refl : moves.

Lemma mv_ensure a t d u d' : sql_ensure_credit a t d = Ok (u, d') -> Rel d d'.
Proof. by_effect eff_ensure. Qed.
Lemma mv_update_credit a f d u d' : sql_update_credit a f d = Ok (u, d') -> Rel d d'.
Proof. by_effect eff_update_credit. Qed.
Lemma mv_insert_request id r d u d' : sql_insert_request id r d = Ok (u, d') -> Rel d d'.
Proof. by_effect eff_insert_request. Qed.
Lemma mv_update_request id f d u d' : sql_update_request id f d = Ok (u, d') -> Rel d d'.
Proof. by_effect eff_update_request. Qed.
Lemma mv_query {A} (f : db -> A) d a d' : query f d = Ok (a, d') -> Rel d d'.
Proof. intros ->%eff_query. apply mv_refl. Qed.
Lemma mv_delete_asks peer d u d' : sql_delete_asks peer d = Ok (u, d') -> Rel d d'.
Proof. by_effect eff_delete_asks. Qed.
Lemma mv_insert_ask a d u d' : sql_insert_ask a d = Ok (u, d') -> Rel d d'.
Proof. by_effect eff_insert_ask. Qed.
Lemma mv_insert_cursor ata s d n d' : sql_insert_cursor ata s d = Ok (n, d') -> Rel d d'.
Proof. by_effect eff_insert_cursor. Qed.
Lemma mv_cas_cursor ata f t d n d' : sql_cas_cursor ata f t d = Ok (n, d') -> Rel d d'.
Proof. by_effect eff_cas_cursor. Qed.
Lemma mv_insert_ledger row d u d' :
  sql_insert_ledger row d = Ok (u, d') -> ok (lg_leg row) -> Rel d d'.
Proof using HF. intros [-> Ht]%eff_insert_ledger Hok. by apply bf_append. Qed.
Lemma mv_insert_ledger_nothing row d n d' :
  sql_insert_ledger_nothing row d = Ok (n, d') -> ok (lg_leg row) -> Rel d d'.
Proof using HF.
  intros [[-> _]|(-> & _ & Ht)]%eff_insert_ledger_nothing Hok; [apply bf_seq|by apply bf_append].
Qed.
Hint Resolve mv_ensure mv_update_credit mv_insert_request mv_update_request mv_query
  mv_delete_asks mv_insert_ask mv_insert_cursor mv_cas_cursor
  mv_insert_ledger mv_insert_ledger_nothing : moves.
Hint Extern 1 (ok _) => cbn; assumption : moves.

Lemma mv_applyDelta a c r t : Moves Rel (applyDelta a c r t).
Proof. unfold applyDelta, sql_lock_credit. moves. Qed.
Lemma mv_insert_leg x y row : ok (lg_leg row) -> Moves Rel (insert_leg x y row).
Proof. intros. unfold insert_leg. moves. Qed.
Lemma mv_releaseLocked r reason t : Moves Rel (releaseLocked r reason t).
Proof. unfold releaseLocked. moves. Qed.
Lemma mv_now_or t : Moves Rel (now_or t).
Proof. unfold now_or. moves. Qed.
Lemma mv_scan id : Moves Rel (scanBillingRequest in_tx id).
Proof. unfold scanBillingRequest, in_tx, sql_select_request. moves. Qed.
Hint Resolve mv_applyDelta mv_releaseLocked mv_now_or mv_scan : moves.

Lemma mv_sweepBatch l t : Moves Rel (sweepBatch l t).
Proof. induction l as [|[id row] l IH]; simpl; moves. Qed.
Lemma mv_insertAsks peer rev ex t l : Moves Rel (insertAsks peer rev ex t l).
Proof. induction l as [|a l IH]; simpl; moves. Qed.
Lemma mv_scan_int64 m : Moves Rel m -> Moves Rel (scan_int64 m).
Proof. intros. unfold scan_int64. moves. Qed.
Hint Resolve mv_sweepBatch mv_insertAsks : moves.

Lemma mv_settle id peer u fee now :
  ok "buyer" -> ok "seller" -> ok "fee" -> Moves Rel (SettleBilling id peer u fee now).
Proof.
  intros. unfold SettleBilling, settleScanned. moves; try by apply mv_insert_leg.
Qed.

(** The billing methods that write no withdrawal or deposit. *)
Lemma mv_billing o :
  ok "buyer" -> ok "seller" -> ok "fee" ->
  match o with
  | OpWithdraw _ _ | OpSigned _ _ _ _ _ _ _ | OpBroadcast _ _ | OpFinalize _ _ | OpRestore _ _ _
  | OpFail _ _ _ | OpDue _ | OpDeposit _ | OpApply _ _ _ _ | OpReconcileDeposits _ _ _
  | OpWallets _ | OpClaim _ _ | OpSettleSigned _ _ _ _ _ _ _ | OpSettleBroadcast _ _
  | OpSettleFinalize _ _ | OpSettleRestore _ _ _ | OpSettleSweep _ | OpAllowance _
  | OpModelCaps _ _ | OpAskConfig _ _ => True
  | _ => Moves Rel (exec_op o)
  end.
Proof.
  intros Hb Hs Hf. destruct o; simpl; try done; unfold discard.
  - unfold EnsureAccountCredit. moves.
  - unfold SetAccountCaps, sql_select_credit. moves.
  - unfold ReserveBilling, sumActiveAllowances, in_tx, sql_lock_credit. moves.
    apply mv_scan_int64. moves.
  - apply moves_bind; [by apply mv_settle|]. intros; moves.
  - unfold ReleaseBilling. moves.
  - unfold SweepStaleReservations, sql_stale_requests. moves.
  - unfold ReconcileAccount, sql_lock_credit. moves; apply mv_scan_int64; moves.
  - unfold ReplaceAsks. moves. apply mv_scan_int64; moves.
  - unfold AdvanceDepositCursor. moves.
Qed.

Lemma mv_allowance ch `{!AllowanceFrame Rel} :
  ok "grant" -> ok "revoke" -> Moves Rel (exec_op (OpAllowance ch)).
Proof.
  intros Hg Hr.
  assert (H1 : forall a del raw t rv d u d', sql_upsert_allowance a del raw t rv d = Ok (u, d') -> Rel d d').
  { intros a del raw t rv d u d' [v ->]%eff_upsert. apply frame_allowances. }
  simpl. unfold discard, UpsertAllowance, mirrorDelta, sql_lock_credit. moves; auto.
  all: intros; eapply mv_insert_ledger_nothing; [eassumption|]; simpl; by destruct (_ <? 0).
Qed.

Lemma mv_deposits o `{!DepositFrame Rel} :
  ok "deposit" ->
  match o with
  | OpDeposit _ | OpApply _ _ _ _ | OpReconcileDeposits _ _ _ => Moves Rel (exec_op o)
  | _ => True
  end.
Proof.
  intros Hd.
  assert (H1 : forall ev d n d', sql_insert_deposit ev d = Ok (n, d') -> Rel d d').
  { by_effect eff_insert_deposit. apply frame_deposits. }
  assert (H2 : forall k a t d n d', sql_assign_deposit k a t d = Ok (n, d') -> Rel d d').
  { by_effect eff_assign_deposit. apply frame_deposits. }
  assert (H3 : forall ev a t, Moves Rel (creditDepositLocked ev a t)).
  { intros. unfold creditDepositLocked. moves. }
  assert (H4 : forall l a t, Moves Rel (creditBatch l a t)).
  { intros l a t. induction l as [|[k ev] l IH]; simpl; moves. }
  destruct o; simpl; try done; unfold discard.
  - unfold InsertDepositEvent. moves.
  - unfold ApplyDeposit, lockDepositEvent, sql_select_deposit. moves.
  - unfold ReconcileDepositsForWallet, sql_unassigned. moves.
Qed.

Lemma mv_withdrawals o `{!WithdrawalFrame Rel} :
  ok "withdraw" -> ok "restore" ->
  match o with
  | OpWithdraw _ _ | OpSigned _ _ _ _ _ _ _ | OpBroadcast _ _ | OpFinalize _ _ | OpRestore _ _ _
  | OpFail _ _ _ | OpDue _ => Moves Rel (exec_op o)
  | _ => True
  end.
Proof.
  intros Hw Hr.
  assert (H1 : forall r d n d', sql_insert_withdrawal r d = Ok (n, d') -> Rel d d').
  { intros r d n d' (v & m & ->)%eff_insert_withdrawal.
    etrans; [apply (frame_withdrawals_seq m)|apply frame_withdrawals]. }
  assert (H2 : forall id f d n d', sql_update_withdrawal id f d = Ok (n, d') -> Rel d d').
  { by_effect eff_update_withdrawal. apply frame_withdrawals. }
  assert (H3 : forall q fmt id, (forall A s, (forall d a d', s d = Ok (a, d') -> Rel d d') ->
      Moves Rel (q A s)) -> Moves Rel (read_withdrawal q fmt id)).
  { intros q fmt id Hq. unfold read_withdrawal, sql_select_withdrawal. moves. }
  assert (H4 : forall fmt id, Moves Rel (read_withdrawal in_tx fmt id)).
  { intros. apply H3. intros A s Hs. by apply moves_stmt; [typeclasses eauto|]. }
  assert (H5 : forall fmt id, Moves Rel (read_withdrawal on_pool fmt id)).
  { intros. apply H3. intros A s Hs. by apply moves_pool; [typeclasses eauto|]. }
  assert (H6 : forall pre ap from id now eff f, (forall w t, Moves Rel (eff w t)) ->
    Moves Rel (transition pre ap from id now eff f)).
  { intros. unfold transition, lockWithdrawal, requeryWithdrawal. moves. }
  assert (H7 : forall w t, Moves Rel (no_effect w t)) by (intros; unfold no_effect; moves).
  destruct o; simpl; try done; unfold discard.
  - unfold ReserveWithdrawal, existingWithdrawal, debitWithdrawal. moves; try by apply mv_insert_leg.
  - unfold MarkWithdrawalSigned. moves.
  - unfold MarkWithdrawalBroadcast. moves.
  - unfold FinalizeWithdrawal. moves.
  - unfold RestoreWithdrawal. apply moves_bind; [|intros; moves]. apply H6.
    intros. unfold creditBack. moves.
  - unfold FailWithdrawal. moves.
  - unfold SweepWithdrawalsDue, sql_due_withdrawals. moves.
Qed.
End Frames.

(** Wallet links and settlement batches. *)
Class WalletFrame (Rel : relation db) : Prop :=
  frame_wallets v d : Rel d (set_wallets v d).

Lemma mv_settlements Rel `{!SettlementFrame Rel, !WalletFrame Rel} o :
  match o with
  | OpWallets _ | OpClaim _ _ | OpSettleSigned _ _ _ _ _ _ _ | OpSettleBroadcast _ _
  | OpSettleFinalize _ _ | OpSettleRestore _ _ _ | OpSettleSweep _ => Moves Rel (exec_op o)
  | _ => True
  end.
Proof.
  destruct o; simpl; try done; unfold discard; try (apply moves_bind; [|intros; moves]).
  - apply moves_pool; [typeclasses eauto|]. intros d u d' [= _ <-]. apply frame_wallets.
  - by apply mv_claim_frame.
  - by apply mv_signed_frame.
  - by apply mv_broadcast_frame.
  - by apply mv_finalize_frame.
  - by apply mv_restore_frame.
  - pose proof (@mv_read Rel _). unfold SweepDelegationSettlements. moves.
Qed.

(** ** Instances: withdrawals, deposits, the ledger *)
#[export] Instance same_billing_preorder : PreOrder same_billing.
Proof.
  split; [by repeat split|]. intros d1 d2 d3 (? & ? & ? & ?) (? & ? & ? & ?).
  repeat split; congruence.
Qed.
#[export] Instance same_billing_SettlementFrame : SettlementFrame same_billing.
Proof. split; [typeclasses eauto|by repeat split..]. Qed.
#[export] Instance same_billing_WalletFrame : WalletFrame same_billing.
Proof. by repeat split. Qed.
#[export] Instance wframe_SettlementFrame : SettlementFrame wframe.
Proof. split; [typeclasses eauto|by split..]. Qed.
#[export] Instance wframe_WalletFrame : WalletFrame wframe.
Proof. by split. Qed.
#[export] Instance dframe_SettlementFrame : SettlementFrame dframe.
Proof. split; [typeclasses eauto|by split..]. Qed.
#[export] Instance dframe_WalletFrame : WalletFrame dframe.
Proof. by split. Qed.

Definition not_withdrawal (leg : string) : Prop := leg <> "withdraw"%string /\ leg <> "restore"%string.
Definition not_deposit (leg : string) : Prop := leg <> "deposit"%string.

#[export] Instance wframe_BillingFrame : BillingFrame wframe not_withdrawal.
Proof.
  split; try (by split); [typeclasses eauto|]. intros row d [? ?] _. by apply wframe_append.
Qed.
#[export] Instance wframe_AllowanceFrame : AllowanceFrame wframe.
Proof. by split. Qed.
#[export] Instance wframe_DepositFrame : DepositFrame wframe.
Proof. by split. Qed.
#[export] Instance dframe_BillingFrame : BillingFrame dframe not_deposit.
Proof.
  split; try (by split); [typeclasses eauto|]. intros row d ? _. by apply dframe_append.
Qed.
#[export] Instance dframe_AllowanceFrame : AllowanceFrame dframe.
Proof. by split. Qed.
#[export] Instance dframe_WithdrawalFrame : WithdrawalFrame dframe.
Proof. by split. Qed.

(** One row per (ref, leg). *)
Definition ledger_unique (d : db) : Prop :=
  forall i j r s, ledger d !! i = Some r -> ledger d !! j = Some s ->
  is_Some (lg_ref r) -> lg_ref r = lg_ref s -> lg_leg r = lg_leg s -> i = j.

(** The ledger only grows, and stays free of duplicates. *)
Record grows (d d' : db) : Prop := {
  gr_prefix : ledger d `prefix_of` ledger d';
  gr_unique : ledger_unique d -> ledger_unique d' }.

#[export] Instance grows_preorder : PreOrder grows.
Proof. split; [by split|]. intros d1 d2 d3 [] []. split; [by etrans|auto]. Qed.

Lemma ledger_taken_false ref leg l r :
  ledger_taken ref leg l = false -> r ∈ l -> is_Some ref -> lg_ref r = ref -> lg_leg r = leg -> False.
Proof.
  intros Ht Hin [x ->] Hr Hl. unfold ledger_taken in Ht.
  apply not_true_iff_false in Ht. apply Ht, existsb_exists. exists r.
  split; [by apply list_elem_of_In|]. rewrite bool_decide_true by done. subst. apply String.eqb_refl.
Qed.

Lemma grows_append row d :
  ledger_taken (lg_ref row) (lg_leg row) (ledger d) = false -> grows d (append_ledger row d).
Proof.
  intros Ht. split; simpl; [by eexists|]. intros Hu i j r s Hi Hj Hsome Href Hleg. simpl in Hi, Hj.
  apply lookup_app_Some in Hi as [Hi|[Hi Hi']], Hj as [Hj|[Hj Hj']].
  - eauto.
  - exfalso. apply list_lookup_singleton_Some in Hj' as [_ <-]. simpl in *.
    eapply ledger_taken_false; [exact Ht|by eapply list_elem_of_lookup_2|congruence|done|done].
  - exfalso. apply list_lookup_singleton_Some in Hi' as [_ <-]. simpl in *.
    eapply ledger_taken_false; [exact Ht|by eapply list_elem_of_lookup_2|congruence|congruence|congruence].
  - apply list_lookup_singleton_Some in Hi' as [? _], Hj' as [? _]. lia.
Qed.

#[export] Instance grows_BillingFrame : BillingFrame grows (fun _ => True).
Proof.
  split; try (by split); [typeclasses eauto|]. intros row d _ Ht. by apply grows_append.
Qed.
#[export] Instance grows_AllowanceFrame : AllowanceFrame grows.
Proof. by split. Qed.
#[export] Instance grows_DepositFrame : DepositFrame grows.
Proof. by split. Qed.
#[export] Instance grows_WithdrawalFrame : WithdrawalFrame grows.
Proof. by split. Qed.

#[export] Instance grows_SettlementFrame : SettlementFrame grows.
Proof. split; [typeclasses eauto|by split..]. Qed.
#[export] Instance grows_WalletFrame : WalletFrame grows.
Proof. by split. Qed.

#[export] Instance grows_SheetFrame : SheetFrame grows.
Proof. split; [typeclasses eauto|by split..]. Qed.

Lemma grows_op o : Moves grows (exec_op o).
Proof.
  pose proof (mv_sheets grows o) as H6.
  pose proof (mv_billing grows (fun _ => True) o I I I) as H1.
  pose proof (fun ch => mv_allowance grows (fun _ => True) ch I I) as H5.
  pose proof (mv_deposits grows (fun _ => True) o I) as H2.
  pose proof (mv_withdrawals grows (fun _ => True) o I I) as H3.
  pose proof (mv_settlements grows o) as H4.
  by destruct o.
Qed.

(** Batches and anchors are frames of everything else. *)
#[export] Instance SLife_BillingFrame : BillingFrame SLife (fun _ => True).
Proof. split; [typeclasses eauto|intros; by apply SLife_same..]. Qed.
#[export] Instance SLife_AllowanceFrame : AllowanceFrame SLife.
Proof. intros v d. by apply SLife_same. Qed.
#[export] Instance SLife_DepositFrame : DepositFrame SLife.
Proof. intros v d. by apply SLife_same. Qed.
#[export] Instance SLife_WithdrawalFrame : WithdrawalFrame SLife.
Proof. split; intros; by apply SLife_same. Qed.

#[export] Instance SLife_SheetFrame : SheetFrame SLife.
Proof. split; [typeclasses eauto|intros; by apply SLife_same..]. Qed.

Lemma SLife_op o e d : SLife d (snd (run (exec_op o) e d)).
Proof.
  pose proof (mv_sheets SLife o) as H6.
  pose proof (mv_billing SLife (fun _ => True) o I I I) as H1.
  pose proof (fun ch => mv_allowance SLife (fun _ => True) ch I I) as H5.
  pose proof (mv_deposits SLife (fun _ => True) o I) as H2.
  pose proof (mv_withdrawals SLife (fun _ => True) o I I) as H3.
  destruct o; simpl in *;
    try (eapply (moves_run SLife); solve [auto]);
    try (apply (moves_run SLife); unfold discard; (apply moves_bind; [|intros; moves]);
         first [apply claim_life | apply signed_life | apply broadcast_life | apply finalize_life
               | apply sweep_life]).
  - apply (moves_run SLife), moves_pool; [typeclasses eauto|]. intros d1 u d' [= _ <-]. by apply SLife_same.
  - apply (preserves_run (SLife d)); [|reflexivity].
    apply preserves_bind; [apply restore_preserves|intros; apply preserves_ret].
Qed.

#[export] Instance same_billing_SheetFrame : SheetFrame same_billing.
Proof. split; [typeclasses eauto|done..]. Qed.
#[export] Instance wframe_SheetFrame : SheetFrame wframe.
Proof. split; [typeclasses eauto|done..]. Qed.
#[export] Instance dframe_SheetFrame : SheetFrame dframe.
Proof. split; [typeclasses eauto|done..]. Qed.

(** ** The invariant of the store *)
Record Good (d0 d : db) : Prop := {
  good_projection : AnyInv d;
  good_withdrawals : WInv zeroz zeroz d;
  good_wlife : Life d0 d;
  good_deposits : DInv zerok d;
  good_dlife : DLife d0 d;
  good_unique : ledger_unique d }.

Lemma Good_empty : Good empty_db empty_db.
Proof.
  split.
  - exists zero. apply empty_db_Inv.
  - apply empty_db_WInv.
  - reflexivity.
  - apply empty_db_DInv.
  - reflexivity.
  - by intros [|i] j r s H.
Qed.

Lemma Good_here d0 d : Good d0 d -> Good d d.
Proof. intros []. split; try done; reflexivity. Qed.

Lemma discard_preserves {A} (I : db -> Prop) (m : store A) : Preserves I m -> Preserves I (discard m).
Proof. intros. apply preserves_bind; [done|]. intros; apply preserves_ret. Qed.

(** Inside one family the other two are frames. *)
Lemma good_billing o d0 d e :
  Good d0 d -> (forall x, Preserves (Inv x) (exec_op o)) ->
  Moves wframe (exec_op o) -> Moves dframe (exec_op o) -> Good d0 (snd (run (exec_op o) e d)).
Proof.
  intros [[x HI] HW HWL HD HDL HU] Hp Hw Hd.
  pose proof (moves_run _ _ e d Hw). pose proof (moves_run _ _ e d Hd).
  pose proof (moves_run _ _ e d (grows_op o)) as [_ Hu]. split; auto.
  - exists x. by apply preserves_run.
  - by eapply WInv_frame.
  - by eapply Life_frame.
  - by eapply DInv_frame.
  - by eapply DLife_frame.
Qed.

Lemma good_frame o d0 d e :
  Good d0 d -> Moves same_billing (exec_op o) -> Moves wframe (exec_op o) ->
  Moves dframe (exec_op o) -> Good d0 (snd (run (exec_op o) e d)).
Proof.
  intros [[x HI] HW HWL HD HDL HU] Hs Hw Hd.
  pose proof (moves_run _ _ e d Hs). pose proof (moves_run _ _ e d Hw).
  pose proof (moves_run _ _ e d Hd). pose proof (moves_run _ _ e d (grows_op o)) as [_ Hu].
  split; auto.
  - exists x. by eapply Core_frame.
  - by eapply WInv_frame.
  - by eapply Life_frame.
  - by eapply DInv_frame.
  - by eapply DLife_frame.
Qed.

Lemma good_withdrawal o d0 d e :
  Good d0 d -> (forall x, Preserves (WState x d0) (exec_op o)) ->
  Moves dframe (exec_op o) -> Good d0 (snd (run (exec_op o) e d)).
Proof.
  intros [[x HI] HW HWL HD HDL HU] Hp Hd.
  pose proof (moves_run _ _ e d Hd). pose proof (moves_run _ _ e d (grows_op o)) as [_ Hu].
  destruct (preserves_run _ _ e d (Hp x) (conj HI (conj HW HWL))) as (? & ? & ?).
  split; auto; [by exists x|by eapply DInv_frame|by eapply DLife_frame].
Qed.

Lemma good_deposit o d0 d e :
  Good d0 d -> (forall x, Preserves (DState x d0) (exec_op o)) ->
  Moves wframe (exec_op o) -> Good d0 (snd (run (exec_op o) e d)).
Proof.
  intros [[x HI] HW HWL HD HDL HU] Hp Hw.
  pose proof (moves_run _ _ e d Hw). pose proof (moves_run _ _ e d (grows_op o)) as [_ Hu].
  destruct (preserves_run _ _ e d (Hp x) (conj HI (conj HD HDL))) as (? & ? & ?).
  split; auto; [by exists x|by eapply WInv_frame|by eapply Life_frame].
Qed.

Lemma Inv_frame_pool x {A} (s : stmt db A) :
  (forall d a d', s d = Ok (a, d') -> same_billing d d') -> Preserves (Inv x) (pool_stmt s).
Proof. intros Hs. apply preserves_pool. intros d a d' HI H. eapply Core_frame; eauto. Qed.

Lemma asks_preserves x peer l ttl : Preserves (Inv x) (ReplaceAsks peer l ttl).
Proof.
  unfold ReplaceAsks. repeat (match goal with |- Preserves _ (if ?b then _ else _) =>
    destruct b; [solve [auto with otela]|] end). destruct (validateAsks l); [auto with otela|]. apply tbody.
  assert (Hdel : forall fmt, triple (Inv x) (Inv x) (wrap fmt (tx_stmt (sql_delete_asks peer)))
    (post (fun _ => Inv x))).
  { intros fmt. apply twrap, tstmt. intros w [] w' HI (v & ->)%eff_delete_asks.
    eapply Core_frame; [|exact HI]; done. }
  assert (Hins : forall rev ex t, triple (Inv x) (Inv x) (insertAsks peer rev ex t l)
    (post (fun _ => Inv x))).
  { intros rev ex t. induction l as [|a l' IH]; simpl; [by apply tret|].
    eapply tbind with (R := fun _ => Inv x); [|intros ?; apply IH].
    apply twrap, tstmt. intros w [] w' HI (v & ->)%eff_insert_ask.
    eapply Core_frame; [|exact HI]; done. }
  eapply tbind with (R := fun _ => Inv x); [by apply twrap, tquery|]. intros ?.
  eapply tbind; [apply tnow; intros t w Hw; exact Hw|]. intros t; cbn beta. apply tif; intros _.
  - eapply tbind; [apply Hdel|]. intros ?. eapply tbind; [apply commit_triple|]. intros ?. by apply tret.
  - eapply tbind with (R := fun _ => Inv x).
    { apply twrap. unfold scan_int64. eapply tbind with (R := fun _ => Inv x); [by apply tquery|].
      intros z. destruct (bool_decide _); [by apply tret|apply tfail]. }
    intros rev. eapply tbind; [apply Hdel|]. intros ?. eapply tbind; [apply Hins|]. intros ?.
    eapply tbind; [apply commit_triple|]. intros ?. by apply tret.
Qed.

Lemma cursor_preserves x ata from to : Preserves (Inv x) (AdvanceDepositCursor ata from to).
Proof.
  unfold AdvanceDepositCursor. repeat (match goal with |- Preserves _ (if ?b then _ else _) =>
    destruct b; [solve [auto with otela]|] end).
  destruct (String.eqb from ""); (apply preserves_bind; [|intros; apply preserves_ret]);
    apply preserves_wrap, Inv_frame_pool; intros d n d' Hs.
  - apply eff_insert_cursor in Hs as [->|[v ->]]; done.
  - apply eff_cas_cursor in Hs as [->|[v ->]]; done.
Qed.

Lemma Good_op o d0 d e : Good d0 d -> Good d0 (snd (run (exec_op o) e d)).
Proof.
  intros HG.
  assert (Hn : not_withdrawal "buyer" /\ not_withdrawal "seller" /\ not_withdrawal "fee" /\
    not_withdrawal "grant" /\ not_withdrawal "revoke" /\ not_withdrawal "deposit") by done.
  destruct Hn as (n1 & n2 & n3 & n4 & n5 & n6).
  pose proof (mv_billing wframe not_withdrawal o n1 n2 n3) as Hw.
  pose proof (fun ch => mv_allowance wframe not_withdrawal ch n4 n5) as Hwa.
  pose proof (mv_deposits wframe not_withdrawal o n6) as Hwd.
  assert (Hm : not_deposit "buyer" /\ not_deposit "seller" /\ not_deposit "fee" /\
    not_deposit "grant" /\ not_deposit "revoke" /\ not_deposit "withdraw" /\ not_deposit "restore")
    by done.
  destruct Hm as (m1 & m2 & m3 & m4 & m5 & m6 & m7).
  pose proof (mv_billing dframe not_deposit o m1 m2 m3) as Hd.
  pose proof (fun ch => mv_allowance dframe not_deposit ch m4 m5) as Hda.
  pose proof (mv_withdrawals dframe not_deposit o m6 m7) as Hdw.
  pose proof (mv_settlements same_billing o) as Hss. pose proof (mv_settlements wframe o) as Hsw.
  pose proof (mv_settlements dframe o) as Hsd.
  pose proof (mv_sheets same_billing o). pose proof (mv_sheets wframe o). pose proof (mv_sheets dframe o).
  destruct o; try (by apply good_frame);
    lazymatch goal with
    | |- Good _ (snd (run (exec_op (OpAllowance _)) _ _)) => idtac
    | _ => first
      [ apply good_billing; [done| |done|done]; intros x; simpl
      | apply good_withdrawal; [done| |done]; intros x; simpl
      | apply good_deposit; [done| |done]; intros x; simpl ];
      try apply discard_preserves
    end; eauto using ensure_preserves, caps_preserves, reserve_preserves, settle_preserves,
      release_preserves, sweep_preserves, reconcile_preserves, asks_preserves, cursor_preserves,
      reserve_w, signed_w, broadcast_w, finalize_w, restore_w, fail_w, due_w,
      insert_d, apply_d, reconcile_d.
  destruct HG as [HA HW HWL HD HDL HU].
  pose proof (moves_run _ _ e d (Hwa ch)). pose proof (moves_run _ _ e d (Hda ch)).
  pose proof (moves_run _ _ e d (grows_op (OpAllowance ch))) as [_ Hu]. split; auto.
  - apply preserves_run; [|done]. apply discard_preserves, upsert_preserves.
  - by eapply WInv_frame.
  - by eapply Life_frame.
  - by eapply DInv_frame.
  - by eapply DLife_frame.
Qed.

Lemma Good_steps d0 d d' : Good d0 d -> rtc step d d' -> Good d0 d'.
Proof.
  intros HG Hs. induction Hs as [|d d1 d' (o & e & ->) _ IH]; [done|]. apply IH. by apply Good_op.
Qed.

Lemma Reachable_Good d : Reachable d -> Good empty_db d.
Proof. apply Good_steps, Good_empty. Qed.

Lemma steps_grow d d' : rtc step d d' -> grows d d'.
Proof.
  intros Hs. induction Hs as [|d d1 d' (o & e & ->) _ IH]; [done|].
  etrans; [|exact IH]. apply moves_run; [typeclasses eauto|]. apply grows_op.
Qed.

Lemma steps_SLife d d' : rtc step d d' -> SLife d d'.
Proof.
  intros Hs. induction Hs as [|d d1 d' (o & e & ->) _ IH]; [reflexivity|].
  etrans; [|exact IH]. apply SLife_op.
Qed.

Lemma Reachable_fresh d : Reachable d -> fresh_ids d.
Proof. intros HR. by apply (steps_SLife _ _ HR). Qed.
