(* ===== verification/Worker.v ===== *)
(** * The background workers' computations

    A worker alternates calls to the node and to the store.  Each store call is one
    method run in an environment of its own, on the state the other clients of the
    database have left by then; the node answers from a state of its own.  A panic
    ends the process: it is the result [None]. *)
From Stdlib Require Import ZArith Lia.
From stdpp Require Import base gmap strings list.
From S2P Require Import Prelude Tx Schema BillingStore.

Open Scope Z_scope.

Section Worker.
Context {N : Type}.

Record world := mkWorld { w_db : db; w_node : N; w_calls : nat }.

(** By number of the store call: its environment, what the others do before it, and
    whether the worker's context is over by then. *)
Record outside := mkOutside {
  o_env : nat -> env; o_others : nat -> db -> db; o_cancelled : nat -> bool }.

Definition W (A : Type) : Type := outside -> world -> option (res A) * world.

Definition wret {A} (a : A) : W A := fun _ w => (Some (Ok a), w).
Definition wfail {A} (e : err) : W A := fun _ w => (Some (Err e), w).
Definition panic {A} : W A := fun _ w => (None, w).
Definition wbind {A B} (m : W A) (k : A -> W B) : W B := fun o w =>
  match m o w with
  | (Some (Ok a), w') => k a o w'
  | (Some (Err e), w') => (Some (Err e), w')
  | (None, w') => (None, w')
  end.
Definition wlift {A} (r : res A) : W A := fun _ w => (Some r, w).
Definition wattempt {A B} (m : W A) (k : res A -> W B) : W B := fun o w =>
  match m o w with
  | (Some r, w') => k r o w'
  | (None, w') => (None, w')
  end.
Definition wwrap {A} (fmt : string) (m : W A) : W A :=
  wattempt m (fun r => match r with Ok a => wret a | Err e => wfail (Wrapf fmt e) end).

Definition callStore {A} (m : store A) : W A := fun o w =>
  let '(r, d) := run m (o_env o (w_calls w)) (o_others o (w_calls w) (w_db w)) in
  (Some r, mkWorld d (w_node w) (S (w_calls w))).
Definition callNode {A} (f : N -> res A * N) : W A := fun _ w =>
  let '(r, n) := f (w_node w) in (Some r, mkWorld (w_db w) n (w_calls w)).
(** [s.now()] *)
Definition clock : W time := fun o w => (Some (Ok (e_now (o_env o (w_calls w)))), w).
Definition cancelled : W bool := fun o w => (Some (Ok (o_cancelled o (w_calls w))), w).

(** ** What a worker maintains

    [I] holds whenever another client may look, and [Q] of every result that is not
    a panic. *)
Section Triple.
Context (R : outside -> Prop) (I : world -> Prop).

Definition wtriple {A} (P : world -> Prop) (m : W A) (Q : res A -> world -> Prop) : Prop :=
  forall o w, R o -> I w -> P w ->
  I (snd (m o w)) /\ forall r, fst (m o w) = Some r -> Q r (snd (m o w)).

Lemma wt_ret {A} (a : A) (P : world -> Prop) (Q : res A -> world -> Prop) :
  (forall w, P w -> Q (Ok a) w) -> wtriple P (wret a) Q.
Proof. intros H o w Ho HI HP. split; [done|]. intros r [= <-]. by apply H. Qed.
Lemma wt_fail {A} e (P : world -> Prop) (Q : res A -> world -> Prop) :
  (forall w, P w -> Q (Err e) w) -> wtriple P (wfail e) Q.
Proof. intros H o w Ho HI HP. split; [done|]. intros r [= <-]. by apply H. Qed.
Lemma wt_panic {A} (P : world -> Prop) (Q : res A -> world -> Prop) : wtriple P panic Q.
Proof. by intros o w Ho HI HP. Qed.
Lemma wt_bind {A B} (P : world -> Prop) (m : W A) (k : A -> W B) (M : A -> world -> Prop)
    (Q : res B -> world -> Prop) :
  wtriple P m (fun r w => match r with Ok a => M a w | Err e => Q (Err e) w end) ->
  (forall a, wtriple (M a) (k a) Q) -> wtriple P (wbind m k) Q.
Proof.
  intros Hm Hk o w Ho HI HP. unfold wbind. destruct (Hm o w Ho HI HP) as [HI' HM].
  destruct (m o w) as [[[a|e]|] w']; simpl in *; [by apply Hk; [..|apply (HM (Ok a))]| |done].
  split; [done|]. intros r [= <-]. by apply (HM (Err e)).
Qed.
Lemma wt_attempt {A B} (P : world -> Prop) (m : W A) (k : res A -> W B) M (Q : res B -> world -> Prop) :
  wtriple P m M -> (forall r, wtriple (M r) (k r) Q) -> wtriple P (wattempt m k) Q.
Proof.
  intros Hm Hk o w Ho HI HP. unfold wattempt. destruct (Hm o w Ho HI HP) as [HI' HM].
  destruct (m o w) as [[r|] w']; simpl in *; [|done]. by apply Hk; [..|apply HM].
Qed.
Lemma wt_wrap {A} fmt P (m : W A) (Q : res A -> world -> Prop) :
  wtriple P m (fun r w => match r with Ok _ => Q r w | Err e => Q (Err (Wrapf fmt e)) w end) ->
  wtriple P (wwrap fmt m) Q.
Proof.
  intros Hm. apply (wt_attempt _ _ _ _ _ Hm). intros [a|e]; [by apply wt_ret|by apply wt_fail].
Qed.
Lemma wt_pre {A} (P P' : world -> Prop) (m : W A) Q :
  (forall w, P w -> P' w) -> wtriple P' m Q -> wtriple P m Q.
Proof. intros HP Hm o w Ho HI Hw. apply Hm; auto. Qed.
Lemma wt_post {A} P (m : W A) (Q Q' : res A -> world -> Prop) :
  wtriple P m Q' -> (forall r w, Q' r w -> Q r w) -> wtriple P m Q.
Proof. intros Hm HQ o w Ho HI Hw. destruct (Hm o w Ho HI Hw). eauto. Qed.
Lemma wt_clock P (Q : res time -> world -> Prop) : (forall t w, P w -> Q (Ok t) w) -> wtriple P clock Q.
Proof. intros H o w Ho HI HP. split; [done|]. intros r [= <-]. by apply H. Qed.
End Triple.

(** ** Where a computation can move the database

    Whatever the others do along the preorder [Rel], a computation that calls methods
    which move along it moves along it. *)
Section Moves.
Context (Rel : relation db) `{!PreOrder Rel}.

Definition wmoves {A} (m : W A) : Prop :=
  forall o w, (forall k d, Rel d (o_others o k d)) -> Rel (w_db w) (w_db (snd (m o w))).

Lemma wm_ret {A} (a : A) : wmoves (wret a).
Proof. by intros o w _. Qed.
Lemma wm_fail {A} e : wmoves (@wfail A e).
Proof. by intros o w _. Qed.
Lemma wm_panic {A} : wmoves (@panic A).
Proof. by intros o w _. Qed.
Lemma wm_clock : wmoves clock.
Proof. by intros o w _. Qed.
Lemma wm_cancelled : wmoves cancelled.
Proof. by intros o w _. Qed.
Lemma wm_node {A} (f : N -> res A * N) : wmoves (callNode f).
Proof. intros o w _. unfold callNode. by destruct (f (w_node w)). Qed.
Lemma wm_lift {A} (r : res A) : wmoves (wlift r).
Proof. by intros o w _. Qed.
Lemma wm_bind {A B} (m : W A) (k : A -> W B) : wmoves m -> (forall a, wmoves (k a)) -> wmoves (wbind m k).
Proof.
  intros Hm Hk o w Ho. specialize (Hm o w Ho). unfold wbind.
  destruct (m o w) as [[[a|e]|] w']; simpl in *; [|done..]. etrans; [exact Hm|by apply Hk].
Qed.
Lemma wm_attempt {A B} (m : W A) (k : res A -> W B) : wmoves m -> (forall r, wmoves (k r)) -> wmoves (wattempt m k).
Proof.
  intros Hm Hk o w Ho. specialize (Hm o w Ho). unfold wattempt.
  destruct (m o w) as [[r|] w']; simpl in *; [|done]. etrans; [exact Hm|by apply Hk].
Qed.
Lemma wm_wrap {A} fmt (m : W A) : wmoves m -> wmoves (wwrap fmt m).
Proof. intros Hm. apply wm_attempt; [done|]. intros [a|e]; [apply wm_ret|apply wm_fail]. Qed.
Lemma wm_store {A} (m : store A) : (forall e d, Rel d (snd (run m e d))) -> wmoves (callStore m).
Proof.
  intros Hm o w Ho. unfold callStore. specialize (Hm (o_env o (w_calls w)) (o_others o (w_calls w) (w_db w))).
  specialize (Ho (w_calls w) (w_db w)). destruct (run m _ _) as [r d]. simpl in *. by etrans.
Qed.
End Moves.
End Worker.
Arguments world N : clear implicits.
Arguments W N A : clear implicits.

Declare Scope worker_scope.
Delimit Scope worker_scope with worker.
Notation "'let*' x ':=' m 'in' k" := (wbind m (fun x => k))
  (at level 10, x name, m at level 100, k at level 200) : worker_scope.
Notation "'do*' m 'in' k" := (wbind m (fun _ => k))
  (at level 10, m at level 100, k at level 200) : worker_scope.
Notation "'let*?' x ':=' m 'in' k" := (wattempt m (fun x => k))
  (at level 10, x name, m at level 100, k at level 200) : worker_scope.

(** ** The clock of a store method *)
Lemma now_or_run {A} t (k : time -> store A) e d :
  run (bind (now_or t) k) e d = run (k (if IsZero t then e_now e else t)) e d.
Proof. unfold run, bind, now_or, now, ret. by destruct (IsZero t). Qed.

Create HintDb wmoves discriminated.
#[export] Hint Resolve wm_lift wm_ret wm_fail wm_panic wm_clock wm_cancelled wm_node : wmoves.

(** Proves [wmoves] by a computation's syntax; what is left are the store calls. *)
Ltac wmoves :=
  repeat match goal with
  | |- wmoves _ (wbind _ _) => apply wm_bind; [typeclasses eauto| |intros ?]
  | |- wmoves _ (wattempt _ _) => apply wm_attempt; [typeclasses eauto| |intros ?]
  | |- wmoves _ (wwrap _ _) => apply wm_wrap; [typeclasses eauto|]
  | |- wmoves _ (callStore _) => apply wm_store; [typeclasses eauto|]
  | |- wmoves _ (match ?x with _ => _ end) => destruct x
  | |- wmoves _ (let _ := _ in _) => cbv zeta
  | |- wmoves _ _ => solve [eauto with wmoves typeclass_instances]
  end.
