(* ===== verification/Watcher.v ===== *)
(** * internal/deposits/deposits.go: the deposit watcher

    One pass of the watcher over the finalized history of the treasury's token
    account.  [s.lastSig] is written and never read, and is left out; logging is
    left out. *)
From Stdlib Require Import ZArith Lia.
From stdpp Require Import base gmap strings list.
From S2P Require Import Prelude Sha256 Base58 Solana Billing Tx Schema BillingStore DepositStore Json Rpc Worker.

Open Scope Z_scope.
Open Scope worker_scope.

Class signaturesReader (N : Type) := {
  read_signatures : string -> Z -> string -> string -> N -> res (list SignatureInfo) * N;
  (* nil when the node does not have the transaction *)
  read_transaction : string -> N -> res (option ConfirmedTransaction) * N }.

(** The RPC client as a reader: its transaction is never nil. *)
#[export] Instance rpcReader {N} (post : string -> list json -> N -> response * N) : signaturesReader N := {|
  read_signatures := GetSignaturesForAddress post;
  read_transaction sig n := match GetTransaction post sig n with
    | (Ok t, n') => (Ok (Some t), n') | (Err e, n') => (Err e, n') end |}.

Record depositService := mkDepositService {
  ds_treasuryATA : string; ds_mint : string; ds_tokenProgram : string; ds_pollLimit : Z }.

(** The constructor: three addresses of 32 bytes, and the token account they give. *)
Definition validateBase58 (v required invalid : string) : res bytes :=
  if String.eqb v "" then Err (Errorf required) else
  match DecodeBase58 v PublicKeyBytes with
  | Err e => Err (Wrapf invalid e)
  | Ok b => if Z.of_nat (length b) =? PublicKeyBytes then Ok b else Err (Errorf invalid)
  end.
Definition NewWatcher (treasuryWallet mint tokenProgram : string) : res depositService :=
  match validateBase58 treasuryWallet "deposits: treasury wallet is required" "deposits: invalid treasury wallet: %w" with
  | Err e => Err e
  | Ok treasuryBytes =>
    match validateBase58 mint "deposits: mint is required" "deposits: invalid mint: %w" with
    | Err e => Err e
    | Ok mintBytes =>
      match validateBase58 tokenProgram "deposits: token program is required" "deposits: invalid token program: %w" with
      | Err e => Err e
      | Ok tpBytes =>
        match AssociatedTokenAddress treasuryBytes mintBytes tpBytes with
        | Err e => Err (Wrapf "deposits: derive treasury ATA: %w" e)
        | Ok ata => Ok (mkDepositService (EncodeBase58 ata) mint tokenProgram 100)
        end
      end
    end
  end.
Lemma NewWatcher_service wallet mint program s : NewWatcher wallet mint program = Ok s ->
  ds_pollLimit s = 100 /\ ds_mint s = mint /\ ds_tokenProgram s = program /\
  exists w m p ata, DecodeBase58 wallet PublicKeyBytes = Ok w /\ DecodeBase58 mint PublicKeyBytes = Ok m /\
    DecodeBase58 program PublicKeyBytes = Ok p /\ AssociatedTokenAddress w m p = Ok ata /\ ds_treasuryATA s = EncodeBase58 ata.
Proof.
  assert (Hv : forall v a b x, validateBase58 v a b = Ok x -> DecodeBase58 v PublicKeyBytes = Ok x).
  { intros v a b x. unfold validateBase58. destruct (String.eqb v ""); [done|]. destruct (DecodeBase58 v _) as [y|]; [|done].
    destruct (_ =? _); [|done]. by intros [= <-]. }
  unfold NewWatcher. destruct (validateBase58 wallet _ _) as [w|] eqn:E1; [|done]. destruct (validateBase58 mint _ _) as [m|] eqn:E2; [|done].
  destruct (validateBase58 program _ _) as [p|] eqn:E3; [|done]. destruct (AssociatedTokenAddress w m p) as [ata|] eqn:E4; [|done].
  intros [= <-]. repeat split. exists w, m, p, ata. eauto 10.
Qed.

Section Watcher.
Context {N : Type} `{RD : signaturesReader N} (s : depositService).

(** One transfer of a transaction: nothing unless it goes to the treasury. *)
Definition processTransfer (sig : SignatureInfo) (tx : ConfirmedTransaction) (tr : TokenTransfer) : W N unit :=
  if negb (String.eqb (tt_Destination tr) (ds_treasuryATA s)) then wret tt
  else
    match SenderWallet tx (tt_Source tr) (tt_Authority tr) with
    | None => panic
    | Some fromWallet =>
      do* wwrap "insert deposit %d: %w" (callStore (InsertDepositEvent
            (mkDeposit (si_Signature sig) (tt_InstructionIndex tr) (si_Slot sig) fromWallet
               (tt_AmountRaw tr) None Unassigned None zeroTime))) in
      let* account := wwrap "lookup wallet %s: %w" (callStore (AccountForWallet fromWallet)) in
      if negb (snd account) then wret tt
      else
        let* t := clock in
        do* wwrap "apply to %s: %w" (callStore (ApplyDeposit (si_Signature sig) (tt_InstructionIndex tr)
              (fst account) t)) in
        wret tt
    end.

Fixpoint processTransfers (sig : SignatureInfo) (tx : ConfirmedTransaction) (l : list TokenTransfer)
    : W N unit :=
  match l with
  | [] => wret tt
  | tr :: r => do* processTransfer sig tx tr in processTransfers sig tx r
  end.

Definition processSignature (sig : SignatureInfo) : W N unit :=
  match si_Err sig with
  | Some _ => wret tt
  | None =>
    let* tx := wwrap "get transaction: %w" (callNode (read_transaction (si_Signature sig))) in
    match tx with
    | None => wfail (Errorf "get transaction: missing finalized transaction")
    | Some t => processTransfers sig t (TokenTransfers t (ds_mint s) (ds_tokenProgram s))
    end
  end.

(** The signatures of a page before the high-water mark, and whether it is there. *)
Fixpoint newer_than (lastSig : string) (sigs : list SignatureInfo) : list SignatureInfo * bool :=
  match sigs with
  | [] => ([], false)
  | sig :: r => if String.eqb (si_Signature sig) lastSig then ([], true)
                else let '(l, stop) := newer_than lastSig r in (sig :: l, stop)
  end.

Definition out_of_fuel : err := Errorf "out of fuel".

(** The pages, newest first: the pending signatures, or [None] at an empty page;
    [fuel] bounds the pages. *)
Fixpoint fetchPages (fuel : nat) (lastSig before : string) (pending : list SignatureInfo)
    : W N (option (list SignatureInfo) * Z) :=
  match fuel with
  | O => wfail out_of_fuel
  | S k =>
    let* sigs := wwrap "signatures: %w"
      (callNode (read_signatures (ds_treasuryATA s) (ds_pollLimit s) before "finalized")) in
    if bool_decide (sigs = []) then wret (None, Z.of_nat (length pending))
    else
      let '(new, stop) := newer_than lastSig sigs in
      let pending := pending ++ new in
      if stop || (Z.of_nat (length sigs) <? ds_pollLimit s) || String.eqb lastSig ""
      then wret (Some pending, Z.of_nat (length pending))
      else fetchPages k lastSig (default ""%string (si_Signature <$> last sigs)) pending
  end.

(** The pending signatures, oldest first; after a failure the cursor stays. *)
Fixpoint processPending (todo : list SignatureInfo) (blocked : bool) (cursor : string) (examined : Z)
    : W N Z :=
  match todo with
  | [] => wret examined
  | sig :: r =>
    let*? res := processSignature sig in
    match res with
    | Err _ => processPending r true cursor examined
    | Ok _ =>
      if blocked then processPending r blocked cursor examined
      else
        let* advanced := wwrap "advance cursor %q -> %q: %w"
          (callStore (AdvanceDepositCursor (ds_treasuryATA s) cursor (si_Signature sig))) in
        if negb advanced then
          do* wwrap "reload cursor: %w" (callStore (DepositCursor (ds_treasuryATA s))) in wret examined
        else processPending r blocked (si_Signature sig) examined
    end
  end.

Definition RunOnce (fuel : nat) : W N Z :=
  let* lastSig := wwrap "load cursor: %w" (callStore (DepositCursor (ds_treasuryATA s))) in
  let* page := fetchPages fuel lastSig "" [] in
  match fst page with
  | None => wret (snd page)
  | Some pending => processPending (rev pending) false lastSig (snd page)
  end.
End Watcher.
