(* ===== verification/WatcherSpec.v ===== *)
(** * What the deposit watcher guarantees

    Against a reader that pages through a history of distinct signatures growing at
    its newest end, and other clients that keep the rows and the same invariant. *)
From Stdlib Require Import ZArith Lia.
From stdpp Require Import base gmap strings list.
From S2P Require Import Prelude Billing Tx Schema BillingStore DepositStore Json Rpc Worker Watcher Reachable.

Open Scope Z_scope.
Open Scope tx_scope.
Open Scope worker_scope.

(** ** What the methods do to the deposits and the cursors *)
Record keeps (d d' : db) : Prop := {
  kp_rows : forall k, is_Some (deposits d !! k) -> is_Some (deposits d' !! k);
  kp_cursors : dep_cursors d' = dep_cursors d }.

#[export] Instance keeps_preorder : PreOrder keeps.
Proof.
  split; [by intros d; split|]. intros a b c [H1 H2] [H3 H4]. split; [auto|congruence].
Qed.

Lemma keeps_refl d : keeps d d.
Proof. reflexivity. Qed.

Lemma keeps_query {A} (f : db -> A) d a d' : query f d = Ok (a, d') -> keeps d d'.
Proof. intros ->%eff_query. reflexivity. Qed.
Lemma keeps_ensure a t d u d' : sql_ensure_credit a t d = Ok (u, d') -> keeps d d'.
Proof. intros H. apply eff_ensure in H as [->|[v ->]]; by split. Qed.
Lemma keeps_update a f d u d' : sql_update_credit a f d = Ok (u, d') -> keeps d d'.
Proof. intros H. apply eff_update_credit in H as [->|[v ->]]; by split. Qed.
Lemma keeps_insert_ledger row d u d' : sql_insert_ledger row d = Ok (u, d') -> keeps d d'.
Proof. intros [-> _]%eff_insert_ledger. by split. Qed.
Lemma rows_insert (m : gmap (string * Z) DepositEvent) k ev k' :
  is_Some (m !! k') -> is_Some (<[k := ev]> m !! k').
Proof. intros H. destruct (decide (k = k')) as [<-|?]; [by rewrite lookup_insert_eq|by rewrite lookup_insert_ne]. Qed.
Lemma keeps_insert_deposit ev d n d' : sql_insert_deposit ev d = Ok (n, d') -> keeps d d'.
Proof.
  unfold sql_insert_deposit. destruct (negb _); [done|]. destruct (_ <=? 0); [done|].
  destruct (deposits d !! _); intros [= _ <-]; split; try done. intros k. apply rows_insert.
Qed.
Lemma keeps_assign k a t d u d' : sql_assign_deposit k a t d = Ok (u, d') -> keeps d d'.
Proof.
  unfold sql_assign_deposit. destruct (deposits d !! k); intros [= _ <-]; split; try done.
  intros k'. apply rows_insert.
Qed.
Hint Resolve keeps_refl keeps_query keeps_ensure keeps_update keeps_insert_ledger keeps_insert_deposit
  keeps_assign : moves.

Lemma insert_keeps ev : Moves keeps (InsertDepositEvent ev).
Proof. unfold InsertDepositEvent, now_or. moves. Qed.
Lemma account_keeps wallet : Moves keeps (AccountForWallet wallet).
Proof. unfold AccountForWallet. moves. Qed.
Lemma cursor_keeps ata : Moves keeps (DepositCursor ata).
Proof. unfold DepositCursor. moves. Qed.
Lemma apply_keeps sig i a now : Moves keeps (ApplyDeposit sig i a now).
Proof.
  assert (H1 : forall a c r t, Moves keeps (applyDelta a c r t)).
  { intros. unfold applyDelta, sql_lock_credit. moves. }
  assert (H2 : forall ev a t, Moves keeps (creditDepositLocked ev a t)).
  { intros. unfold creditDepositLocked. moves. }
  unfold ApplyDeposit, lockDepositEvent, sql_select_deposit, now_or. moves.
Qed.

(** An insert that answers has its row. *)
Lemma insert_has_row ev e d b :
  fst (run (InsertDepositEvent ev) e d) = Ok b ->
  is_Some (deposits (snd (run (InsertDepositEvent ev) e d)) !! (de_TransactionSignature ev, de_InstructionIndex ev)).
Proof.
  unfold InsertDepositEvent. destruct (String.eqb _ ""); [done|]. destruct (_ <=? 0) eqn:Ha; [done|].
  destruct (String.eqb (de_FromWallet ev) ""); [done|].
  assert (Hstmt : forall ev' d n d', sql_insert_deposit ev' d = Ok (n, d') ->
    is_Some (deposits d' !! (de_TransactionSignature ev', de_InstructionIndex ev'))).
  { clear. intros ev d n d'. unfold sql_insert_deposit. destruct (negb _); [done|].
    destruct (_ <=? 0); [done|]. destruct (deposits d !! _) eqn:E; intros [= _ <-]; [by rewrite E|].
    simpl. by rewrite lookup_insert_eq. }
  rewrite (now_or_run (de_SeenAt ev)).
  set (seen := if IsZero (de_SeenAt ev) then e_now e else de_SeenAt ev). clearbody seen.
  unfold run, bind, wrap, pool_stmt, ret. simpl.
  destruct (e_fault e 0); [| done |];
    destruct (sql_insert_deposit _ d) as [[n d']|] eqn:Hs; try done.
  intros _. simpl. by apply Hstmt in Hs.
Qed.

(** A compare-and-swap moves the cursor from the value it was given, or not. *)
Lemma advance_cursor ata from to e d :
  from <> ""%string ->
  let d' := snd (run (AdvanceDepositCursor ata from to) e d) in
  d' = d \/ dep_cursors d !! ata = Some from /\ d' = set_dep_cursors (<[ata := to]> (dep_cursors d)) d.
Proof.
  intros Hf. cbv zeta. unfold run, AdvanceDepositCursor. destruct (_ || _); [by left|].
  destruct (String.eqb from to); [by left|]. destruct (String.eqb from "") eqn:E; [zb; done|].
  unfold bind, wrap, pool_stmt, ret. simpl. destruct (e_fault e 0); simpl; [|by left|];
    unfold sql_cas_cursor; destruct (dep_cursors d !! ata) as [s|] eqn:Es; simpl; try (by left);
    destruct (String.eqb s from) eqn:Ef; simpl; try (by left); zb; subst; by right.
Qed.

(** ** The history and the invariant *)
Fixpoint after (x : string) (h : list SignatureInfo) : list SignatureInfo :=
  match h with
  | [] => []
  | y :: r => if String.eqb (si_Signature y) x then r else after x r
  end.
Definition page (limit : Z) (before : string) (h : list SignatureInfo) : list SignatureInfo :=
  take (Z.to_nat limit) (if String.eqb before "" then h else after before h).

Section Spec.
Context {N} {RD : signaturesReader N} (s : depositService).
Context (hist : N -> list SignatureInfo).
Let ata := ds_treasuryATA s.

(** The answers of the reader: pages of a history of distinct signatures that grows
    at its newest end.  Of the transactions it returns nothing is assumed. *)
Record reader_ok : Prop := {
  ok_signatures : forall before n,
    let r := read_signatures ata (ds_pollLimit s) before "finalized" n in
    (exists new, hist (snd r) = new ++ hist n) /\
    forall l, fst r = Ok l -> l = page (ds_pollLimit s) before (hist (snd r));
  ok_transaction : forall sig n, exists new, hist (snd (read_transaction sig n)) = new ++ hist n;
  ok_distinct : forall n, NoDup (map si_Signature (hist n));
  ok_named : forall n, Forall (fun x => si_Signature x <> ""%string) (hist n) }.

(** Every transfer into the treasury has its row, of the transaction that the reader
    returned for the signature. *)
Definition rows_of (d : db) (sig : SignatureInfo) (tx : ConfirmedTransaction) : Prop :=
  Forall (fun tr => tt_Destination tr = ata ->
            is_Some (deposits d !! (si_Signature sig, tt_InstructionIndex tr)))
    (TokenTransfers tx (ds_mint s) (ds_tokenProgram s)).
Definition recorded (d : db) (sig : SignatureInfo) : Prop :=
  si_Err sig = None ->
  exists tx n, fst (read_transaction (si_Signature sig) n) = Ok (Some tx) /\ rows_of d sig tx.

(** Above [base], everything up to the cursor is recorded. *)
Definition caught_up (base : list SignatureInfo) (d : db) (h : list SignatureInfo) : Prop :=
  exists newer x older, dep_cursors d !! ata = Some (si_Signature x) /\
    h = newer ++ (x :: older) ++ base /\ Forall (recorded d) (x :: older).

Context (base : list SignatureInfo) (Hreader : reader_ok).

Definition others_ok (o : outside) : Prop := forall k d,
  (forall key, is_Some (deposits d !! key) -> is_Some (deposits (o_others o k d) !! key)) /\
  forall h, caught_up base d h -> caught_up base (o_others o k d) h.

Definition Inv (w : world N) : Prop := caught_up base (w_db w) (hist (w_node w)).

(** ** Facts that nobody falsifies *)
Definition grown (w w' : world N) : Prop :=
  (forall key, is_Some (deposits (w_db w) !! key) -> is_Some (deposits (w_db w') !! key)) /\
  exists new, hist (w_node w') = new ++ hist (w_node w).
Definition stable (P : world N -> Prop) : Prop := forall w w', grown w w' -> P w -> P w'.

Lemma recorded_rows d d' sig :
  (forall key, is_Some (deposits d !! key) -> is_Some (deposits d' !! key)) -> recorded d sig -> recorded d' sig.
Proof.
  intros Hk Hr He. destruct (Hr He) as (tx & n & Ht & Hrows). exists tx, n. split; [done|].
  eapply Forall_impl; [exact Hrows|]. simpl. auto.
Qed.
Lemma caught_up_keeps d d' h : keeps d d' -> caught_up base d h -> caught_up base d' h.
Proof.
  intros [Hk Hc] (newer & x & older & H1 & H2 & H3). exists newer, x, older. rewrite Hc. split; [done|].
  split; [done|]. eapply Forall_impl; [done|]. intros sig. by apply recorded_rows.
Qed.
Lemma caught_up_grow d new h : caught_up base d h -> caught_up base d (new ++ h).
Proof.
  intros (newer & x & older & H1 & -> & H3). exists (new ++ newer), x, older. by rewrite <- app_assoc.
Qed.

Lemma stable_true : stable (fun _ => True).
Proof. done. Qed.
Lemma stable_and P Q : stable P -> stable Q -> stable (fun w => P w /\ Q w).
Proof. intros HP HQ w w' Hg [? ?]. split; [by eapply HP|by eapply HQ]. Qed.
Lemma stable_row key : stable (fun w => is_Some (deposits (w_db w) !! key)).
Proof. intros w w' [Hk _]. apply Hk. Qed.
Lemma stable_recorded sig : stable (fun w => recorded (w_db w) sig).
Proof. intros w w' [Hk _]. by apply recorded_rows. Qed.

(** A store call that moves no cursor. *)
Lemma call_keeps {A} (m : store A) P (X : A -> db -> list SignatureInfo -> Prop) :
  stable P -> Moves keeps m ->
  (forall e d a h, caught_up base d h -> fst (run m e d) = Ok a -> X a (snd (run m e d)) h) ->
  wtriple others_ok Inv P (callStore m)
    (fun r w => P w /\ match r with Ok a => X a (w_db w) (hist (w_node w)) | Err _ => True end).
Proof.
  intros HP Hm HX o w Ho HI Hw. unfold callStore.
  destruct (Ho (w_calls w) (w_db w)) as [Hrows Hinv]. specialize (Hinv _ HI).
  pose proof (moves_run keeps m (o_env o (w_calls w)) (o_others o (w_calls w) (w_db w)) Hm) as Hk.
  pose proof (fun a => HX (o_env o (w_calls w)) (o_others o (w_calls w) (w_db w)) a _ Hinv) as HX'.
  destruct (run m _ _) as [r d]. simpl in *. split; [by eapply caught_up_keeps|].
  intros r' [= <-]. split.
  - eapply HP; [|exact Hw]. split; [|by exists []]. intros key Hs. apply Hk. by apply Hrows.
  - destruct r; [|done]. by apply HX'.
Qed.

Lemma call_node {A} (f : N -> res A * N) P (X : A -> list SignatureInfo -> Prop) :
  stable P ->
  (forall n, (exists new, hist (snd (f n)) = new ++ hist n) /\ forall a, fst (f n) = Ok a -> X a (hist (snd (f n)))) ->
  wtriple others_ok Inv P (callNode f)
    (fun r w => P w /\ match r with Ok a => X a (hist (w_node w)) | Err _ => True end).
Proof.
  intros HP Hf o w Ho HI Hw. unfold callNode. destruct (Hf (w_node w)) as [[new Hnew] HX].
  destruct (f (w_node w)) as [r n]. simpl in *. split.
  - unfold Inv. simpl. rewrite Hnew. by apply caught_up_grow.
  - intros r' [= <-]. split; [|destruct r; [by apply HX|done]].
    eapply HP; [|exact Hw]. split; [done|]. by exists new.
Qed.

Ltac wpost := intros [?|?] ?; simpl; tauto || naive_solver.

(** ** One signature *)
Lemma processTransfer_row sig tx tr P : stable P ->
  wtriple others_ok Inv P (processTransfer s sig tx tr) (fun r w => P w /\
    match r with
    | Ok _ => tt_Destination tr = ata -> is_Some (deposits (w_db w) !! (si_Signature sig, tt_InstructionIndex tr))
    | Err _ => True
    end).
Proof.
  intros HP. unfold processTransfer. destruct (String.eqb (tt_Destination tr) _) eqn:Ed; simpl.
  2:{ apply wt_ret. zb. done. }
  destruct (SenderWallet _ _ _) as [from|]; [|apply wt_panic].
  set (key := (si_Signature sig, tt_InstructionIndex tr)).
  set (P2 := fun w : world N => P w /\ is_Some (deposits (w_db w) !! key)).
  assert (HP2 : stable P2) by (apply stable_and; [done|apply stable_row]).
  apply (wt_bind _ _ _ _ _ (fun _ => P2)).
  { apply wt_wrap. eapply wt_post; [apply (call_keeps _ P (fun _ d _ => is_Some (deposits d !! key)));
      [done|apply insert_keeps|]|wpost]. intros e d a h _ Hr. by apply insert_has_row in Hr. }
  intros _. apply (wt_bind _ _ _ _ _ (fun _ => P2)).
  { apply wt_wrap. eapply wt_post; [apply (call_keeps _ P2 (fun _ _ _ => True));
      [done|apply account_keeps|done]|]. intros [?|?] w; simpl; unfold P2; tauto. }
  intros account. destruct (negb (snd account)); [apply wt_ret; unfold P2; tauto|].
  apply (wt_bind _ _ _ _ _ (fun _ => P2)); [by apply wt_clock|]. intros t.
  apply (wt_bind _ _ _ _ _ (fun _ => P2)).
  { apply wt_wrap. eapply wt_post; [apply (call_keeps _ P2 (fun _ _ _ => True));
      [done|apply apply_keeps|done]|]. intros [?|?] w; simpl; unfold P2; tauto. }
  intros _. apply wt_ret. unfold P2. tauto.
Qed.

Lemma processTransfers_rows sig tx l : forall P, stable P ->
  wtriple others_ok Inv P (processTransfers s sig tx l) (fun r w => P w /\
    match r with
    | Ok _ => Forall (fun tr => tt_Destination tr = ata ->
        is_Some (deposits (w_db w) !! (si_Signature sig, tt_InstructionIndex tr))) l
    | Err _ => True
    end).
Proof.
  induction l as [|tr l IH]; intros P HP; simpl; [by apply wt_ret|].
  set (row := fun w : world N => tt_Destination tr = ata ->
    is_Some (deposits (w_db w) !! (si_Signature sig, tt_InstructionIndex tr))).
  apply (wt_bind _ _ _ _ _ (fun _ w => P w /\ row w)).
  { eapply wt_post; [by apply processTransfer_row|]. intros [?|?] w; simpl; tauto. }
  intros _. eapply wt_post; [apply IH|].
  - apply stable_and; [done|]. intros w w' [Hk _] Hr Hd. by apply Hk, Hr.
  - intros [?|?] w; simpl; [|tauto]. intros [[? ?] ?]. split; [done|]. by constructor.
Qed.

Lemma processSignature_recorded sig P : stable P ->
  wtriple others_ok Inv P (processSignature s sig)
    (fun r w => P w /\ match r with Ok _ => recorded (w_db w) sig | Err _ => True end).
Proof using Hreader.
  intros HP. unfold processSignature, recorded. destruct (si_Err sig); [by apply wt_ret|].
  set (given := fun tx => exists n, fst (read_transaction (si_Signature sig) n) = Ok tx).
  apply (wt_bind _ _ _ _ _ (fun tx w => P w /\ given tx)).
  { apply wt_wrap. eapply wt_post; [apply (call_node _ P (fun tx _ => given tx)); [done|]|].
    - intros n. split; [apply (ok_transaction Hreader)|]. intros a Ha. by exists n.
    - intros [?|?] w; simpl; tauto. }
  intros [t|]; [|apply wt_fail; tauto].
  eapply wt_post; [apply (processTransfers_rows _ _ _ (fun w => P w /\ given (Some t)))|].
  - apply stable_and; [done|]. by intros w w' _ ?.
  - intros [?|?] w; simpl; [|tauto]. intros [[? [n Hn]] ?]. split; [done|]. intros _. by exists t, n.
Qed.

(** ** The pages *)
Definition names (l : list SignatureInfo) : list string := map si_Signature l.

Lemma after_split a y b : NoDup (names (a ++ y :: b)) -> after (si_Signature y) (a ++ y :: b) = b.
Proof.
  induction a as [|z a IH]; simpl.
  - by rewrite String.eqb_refl.
  - intros Hn. apply NoDup_cons in Hn as [Hz Hn]. destruct (String.eqb _ _) eqn:E; [|by apply IH]. zb.
    destruct Hz. rewrite E. apply list_elem_of_fmap. exists y. split; [done|]. apply elem_of_app. right. left.
Qed.

Lemma newer_than_take a y b : forall n, NoDup (names (a ++ y :: b)) ->
  newer_than (si_Signature y) (take n (a ++ y :: b)) =
    if (n <=? length a)%nat then (take n a, false) else (a, true).
Proof.
  induction a as [|z a IH]; intros n Hn; destruct n as [|n]; simpl; try done.
  - by rewrite String.eqb_refl.
  - apply NoDup_cons in Hn as [Hz Hn]. destruct (String.eqb _ _) eqn:E.
    + zb. destruct Hz. rewrite E. apply list_elem_of_fmap. exists y. split; [done|]. apply elem_of_app. right. left.
    + rewrite IH by done. by destruct (n <=? length a)%nat.
Qed.

(** The cursor [c] is a signature above [base]. *)
Definition marked (c : string) (h : list SignatureInfo) : Prop :=
  exists newer x older, h = newer ++ (x :: older) ++ base /\ si_Signature x = c.
(** [pending] comes right before the cursor. *)
Definition pends (c : string) (pending h : list SignatureInfo) : Prop :=
  exists newer x older, h = newer ++ pending ++ (x :: older) ++ base /\ si_Signature x = c.
(** The pages fetched so far end at [before], above the cursor. *)
Definition fetched (c before : string) (pending h : list SignatureInfo) : Prop :=
  exists newer mid x older, h = newer ++ pending ++ mid ++ (x :: older) ++ base /\ si_Signature x = c /\
    if String.eqb before "" then pending = []
    else exists p y, pending = p ++ [y] /\ si_Signature y = before.

Lemma pends_grow c pending new h : pends c pending h -> pends c pending (new ++ h).
Proof. intros (newer & x & older & -> & H). exists (new ++ newer), x, older. by rewrite <- app_assoc. Qed.
Lemma fetched_grow c before pending new h : fetched c before pending h -> fetched c before pending (new ++ h).
Proof.
  intros (newer & mid & x & older & -> & H). exists (new ++ newer), mid, x, older. by rewrite <- app_assoc.
Qed.
Lemma marked_grow c new h : marked c h -> marked c (new ++ h).
Proof. intros (newer & x & older & -> & H). exists (new ++ newer), x, older. by rewrite <- app_assoc. Qed.
Lemma stable_hist (F : list SignatureInfo -> Prop) :
  (forall new h, F h -> F (new ++ h)) -> stable (fun w => F (hist (w_node w))).
Proof. intros HF w w' [_ [new ->]]. apply HF. Qed.

Lemma hist_names n : NoDup (names (hist n)) /\ Forall (fun x => si_Signature x <> ""%string) (hist n).
Proof using Hreader. split; [apply (ok_distinct Hreader)|apply (ok_named Hreader)]. Qed.

(** One page more: the rest of the history below what was fetched. *)
Lemma page_step c before pending h limit :
  NoDup (names h) -> Forall (fun x => si_Signature x <> ""%string) h -> fetched c before pending h ->
  forall sigs, sigs = page limit before h -> sigs <> [] ->
  let '(new, stop) := newer_than c sigs in
  if stop || (Z.of_nat (length sigs) <? limit) || String.eqb c "" then pends c (pending ++ new) h
  else fetched c (default ""%string (si_Signature <$> last sigs)) (pending ++ new) h /\ new = sigs.
Proof.
  intros Hnd Hnm (newer & mid & x & older & Hh & Hx & Hb) sigs Hs Hne.
  assert (Hrest : exists newer' mid', h = newer' ++ pending ++ mid' ++ (x :: older) ++ base /\
    sigs = take (Z.to_nat limit) (mid' ++ (x :: older) ++ base)).
  { unfold page in Hs. destruct (String.eqb before "").
    - exists [], (newer ++ mid). subst pending. rewrite Hh in Hs |- *. rewrite <- !app_assoc in *. done.
    - destruct Hb as (p & y & -> & <-). exists newer, mid. split; [done|]. subst sigs. f_equal. rewrite Hh.
      rewrite Hh in Hnd. rewrite <- (app_assoc p), (app_assoc newer p) in *. cbn in *.
      by apply after_split. }
  destruct Hrest as (newer' & mid' & Hh' & Hs').
  set (n := Z.to_nat limit) in *. set (tail := older ++ base) in *.
  change ((x :: older) ++ base) with (x :: tail) in *.
  assert (Hnd' : NoDup (names (mid' ++ x :: tail))).
  { rewrite Hh', app_assoc in Hnd. unfold names in *. rewrite map_app in Hnd. by apply NoDup_app in Hnd as (_ & _ & ?). }
  assert (Hc : String.eqb c "" = false).
  { apply String.eqb_neq. rewrite <- Hx. eapply Forall_forall in Hnm; [exact Hnm|]. rewrite Hh'.
    apply elem_of_app; right. apply elem_of_app; right. apply elem_of_app; right. left. }
  rewrite Hs', <- Hx, newer_than_take by done. rewrite Hx, Hc.
  destruct (n <=? length mid')%nat eqn:En; rewrite ?orb_false_r; cbn [orb].
  - apply Nat.leb_le in En. rewrite length_take, length_app. cbn [length].
    assert (Hlt : (Z.of_nat (n `min` (length mid' + S (length tail))) <? limit) = false).
    { apply Z.ltb_ge. unfold n in *. lia. }
    rewrite Hlt. rewrite !take_app_le by done. split; [|done].
    exists newer', (drop n mid'), x, older. split; [|split; [done|]].
    + rewrite Hh'. rewrite <- (app_assoc pending), (app_assoc (take n mid')), take_drop. done.
    + rewrite Hs', take_app_le in Hne by done.
      destruct (exists_last Hne) as (q & y & Hq). rewrite Hq.
      rewrite last_snoc. simpl. assert (Hy : si_Signature y <> ""%string).
      { eapply Forall_forall in Hnm; [exact Hnm|]. rewrite Hh'. apply elem_of_app; right.
        apply elem_of_app; right. apply elem_of_app; left. rewrite <- (take_drop n mid'), Hq.
        apply elem_of_app; left. apply elem_of_app; right. left. }
      apply String.eqb_neq in Hy. rewrite Hy. exists (pending ++ q), y. by rewrite app_assoc.
  - exists newer', x, older. split; [|done]. rewrite Hh'. by rewrite <- app_assoc.
Qed.

Lemma fetchPages_pends c fuel : forall before pending P, stable P ->
  wtriple others_ok Inv (fun w => P w /\ fetched c before pending (hist (w_node w)))
    (fetchPages s fuel c before pending)
    (fun r w => match r with
      | Ok (Some l, _) => P w /\ pends c l (hist (w_node w))
      | _ => True
      end).
Proof using Hreader.
  induction fuel as [|fuel IH]; intros before pending P HP; simpl; [by apply wt_fail|].
  apply (wt_bind _ _ _ _ _ (fun sigs w => (P w /\ fetched c before pending (hist (w_node w))) /\
    (sigs <> [] -> let '(new, stop) := newer_than c sigs in
       if stop || (Z.of_nat (length sigs) <? ds_pollLimit s) || String.eqb c ""
       then pends c (pending ++ new) (hist (w_node w))
       else fetched c (default ""%string (si_Signature <$> last sigs)) (pending ++ new) (hist (w_node w))))).
  { apply wt_wrap. intros o w Ho HI [HPw Hf].
    destruct (call_node (read_signatures (ds_treasuryATA s) (ds_pollLimit s) before "finalized")
      (fun w => P w /\ fetched c before pending (hist (w_node w)))
      (fun sigs h => exists n, h = hist n /\ sigs = page (ds_pollLimit s) before h)) with (o := o) (w := w) as [HI' HQ];
      [|intros n; destruct (ok_signatures Hreader before n) as [Hh Hp]; split; [done|];
        intros l Hl; eexists; split; [done|by apply Hp]|done|done|done|].
    { apply stable_and; [done|]. apply (stable_hist (fetched c before pending)). intros; by apply fetched_grow. }
    split; [done|]. intros r Hr. specialize (HQ r Hr) as [HPF HX]. destruct r as [sigs|]; [|done].
    split; [done|]. intros Hne. destruct HX as (n & Hh & Hp). destruct HPF as [_ HF].
    rewrite Hh in *. destruct (hist_names n) as [Hnd Hnm].
    pose proof (page_step _ _ _ _ _ Hnd Hnm HF sigs Hp Hne) as Hst.
    destruct (newer_than c sigs) as [new stop]. destruct (_ || _); [done|]. by destruct Hst. }
  intros sigs. case_bool_decide as Hne; [by apply wt_ret|].
  destruct (newer_than c sigs) as [new stop]. destruct (_ || _) eqn:Estop.
  - apply wt_ret. intros w [[HPw _] Hp]. split; [done|]. by apply Hp.
  - eapply wt_pre; [|by apply (IH _ _ P)]. intros w [[HPw _] Hp]. split; [done|]. by apply Hp.
Qed.

(** ** The cursor *)
Lemma split_unique a y b a' y' b' :
  NoDup (names (a ++ y :: b)) -> a ++ y :: b = a' ++ y' :: b' -> si_Signature y = si_Signature y' ->
  a = a' /\ y = y' /\ b = b'.
Proof.
  intros Hnd He Hy. assert (b = b') as <-.
  { rewrite <- (after_split a y b Hnd), He, Hy. apply after_split. by rewrite <- He. }
  assert (Hl : length a = length a').
  { apply (f_equal length) in He. rewrite !length_app in He. simpl in He. lia. }
  apply app_inj_1 in He as [<- He]; [|done]. by injection He as <-.
Qed.

Lemma DepositCursor_reads c e d v :
  dep_cursors d !! ata = Some c -> fst (run (DepositCursor ata) e d) = Ok v -> v = c.
Proof.
  intros Hc. unfold run, DepositCursor. destruct (String.eqb ata ""); [done|].
  unfold attempt, scan_row, bind, pool_stmt, query, ret, fail. simpl. rewrite Hc.
  destruct (e_fault e 0); simpl; try done. by intros [= <-].
Qed.

(** Moving the cursor over a recorded signature right above it. *)
Lemma advance_caught_up d h cursor sig e rest :
  NoDup (names h) -> Forall (fun x => si_Signature x <> ""%string) h ->
  caught_up base d h -> pends cursor (rest ++ [sig]) h -> recorded d sig ->
  let d' := snd (run (AdvanceDepositCursor ata cursor (si_Signature sig)) e d) in
  caught_up base d' h.
Proof.
  intros Hnd Hnm HI (newer & x & older & Hh & Hx) Hrec. cbv zeta.
  assert (Hc : cursor <> ""%string).
  { rewrite <- Hx. eapply Forall_forall in Hnm; [exact Hnm|]. rewrite Hh. apply elem_of_app; right.
    apply elem_of_app; right. left. }
  destruct (advance_cursor ata cursor (si_Signature sig) e d Hc) as [-> | [Hcur ->]]; [done|].
  destruct HI as (newer1 & x1 & older1 & Hcur1 & Hh1 & Hr1).
  assert (Hx1 : si_Signature x1 = cursor) by congruence.
  destruct (split_unique (newer ++ rest ++ [sig]) x (older ++ base) newer1 x1 (older1 ++ base)) as (_ & -> & Ho).
  - rewrite Hh in Hnd. rewrite <- !app_assoc in Hnd. rewrite <- !app_assoc. done.
  - rewrite <- !app_assoc. rewrite <- !app_assoc in Hh. cbn in *. congruence.
  - congruence.
  - apply app_inv_tail in Ho as ->. exists (newer ++ rest), sig, (x1 :: older1). simpl.
    rewrite lookup_insert_eq. split; [done|]. split.
    + rewrite Hh. rewrite <- !app_assoc. done.
    + constructor; [by apply (recorded_rows d)|]. eapply Forall_impl; [exact Hr1|]. intros y. by apply recorded_rows.
Qed.

Lemma processPending_ok todo : forall blocked cursor examined,
  wtriple others_ok Inv (fun w => blocked = false -> pends cursor (rev todo) (hist (w_node w)))
    (processPending s todo blocked cursor examined) (fun _ _ => True).
Proof using Hreader.
  induction todo as [|sig todo IH]; intros blocked cursor examined; simpl; [by apply wt_ret|].
  set (P := fun w : world N => blocked = false -> pends cursor (rev todo ++ [sig]) (hist (w_node w))).
  assert (HP : stable P).
  { apply (stable_hist (fun h => blocked = false -> pends cursor (rev todo ++ [sig]) h)).
    intros new h H Hb. by apply pends_grow, H. }
  eapply wt_attempt; [by apply (processSignature_recorded sig P)|]. intros [u|e].
  2:{ eapply wt_pre; [|apply IH]. done. }
  destruct blocked; [by eapply wt_pre; [|apply IH]|].
  apply (wt_bind _ _ _ _ _ (fun adv w => adv = true ->
    pends (si_Signature sig) (rev todo) (hist (w_node w)))).
  - apply wt_wrap. intros o w Ho HI [Hp Hrec]. unfold callStore. simpl in Hrec.
    destruct (Ho (w_calls w) (w_db w)) as [Hrows Hinv].
    destruct (hist_names (w_node w)) as [Hnd Hnm].
    pose proof (advance_caught_up _ _ cursor sig (o_env o (w_calls w)) (rev todo) Hnd Hnm (Hinv _ HI) (Hp eq_refl)
      (recorded_rows _ _ _ Hrows Hrec)) as Hadv. cbv zeta in Hadv.
    destruct (run _ _ _) as [r d]. simpl in *. split; [done|]. intros r' [= <-].
    destruct r as [adv|]; [|done]. intros ->. destruct (Hp eq_refl) as (newer & x & older & Hh & Hx).
    exists newer, sig, (x :: older). split; [|done]. rewrite Hh. by rewrite <- !app_assoc.
  - intros [|]; simpl.
    + eapply wt_pre; [|apply IH]. intros w H _. by apply H.
    + apply (wt_bind _ _ _ _ _ (fun _ _ => True)); [|intros; by apply wt_ret].
      apply wt_wrap. eapply wt_pre with (P' := fun _ => True); [done|].
      eapply wt_post; [apply (call_keeps _ (fun _ => True) (fun _ _ _ => True)); [done|apply cursor_keeps|done]|].
      by intros [?|?].
Qed.

(** C25: the watcher passes nothing unread.  As long as the node pages truthfully
    through a history of distinct finalized signatures, every pass keeps the invariant
    that for each signature from the starting point up to the cursor which the history
    does not mark as failed the reader has returned a transaction, and each transfer into
    the treasury that [TokenTransfers] finds in it has its deposit row, whatever calls
    to the node or the database fail or are lost on the way, and whatever the other
    replicas, which keep it too, do in between.  Nothing is assumed of the transactions;
    nothing is shown of what is not in them, and the RPC client returns an empty one for
    the node's null ([missing_transaction_is_empty]). *)
Theorem watcher_passes_nothing_unread fuel o w :
  others_ok o -> caught_up base (w_db w) (hist (w_node w)) ->
  let w' := snd (RunOnce s fuel o w) in caught_up base (w_db w') (hist (w_node w')).
Proof using Hreader.
  intros Ho HI. cbv zeta. enough (Ht : wtriple others_ok Inv (fun _ => True) (RunOnce s fuel) (fun _ _ => True)).
  { by apply (Ht o w Ho HI). }
  unfold RunOnce. apply (wt_bind _ _ _ _ _ (fun c w => marked c (hist (w_node w)))).
  - apply wt_wrap. eapply wt_post;
      [apply (call_keeps _ (fun _ => True) (fun c _ h => marked c h)); [done|apply cursor_keeps|]|by intros [?|?] ? []].
    intros e d c h (newer & x & older & Hc & Hh & _) Hr. apply (DepositCursor_reads _ _ _ _ Hc) in Hr as ->.
    by exists newer, x, older.
  - intros c. apply (wt_bind _ _ _ _ _ (fun p w => match fst p with
      | Some l => pends c l (hist (w_node w)) | None => True end)).
    + eapply wt_post; [eapply wt_pre; [|apply (fetchPages_pends c fuel ""%string [] (fun _ => True)); done]|].
      * intros w0 (newer & x & older & Hh & Hx). split; [done|]. exists newer, [], x, older. done.
      * by intros [[[l|] n]|] w0; simpl; [intros []| |].
    + intros [[l|] n]; simpl; [|by apply wt_ret].
      eapply wt_pre; [|apply processPending_ok]. intros w0 H _. by rewrite rev_involutive.
Qed.

(** ** Every pass ends *)
Definition decided {A} (m : W N A) : Prop := forall o w, fst (m o w) <> Some (Err out_of_fuel).

Lemma decided_ret {A} (a : A) : decided (wret a).
Proof. by intros o w. Qed.
Lemma decided_wrap {A} fmt (m : W N A) : decided (wwrap fmt m).
Proof. intros o w. unfold wwrap, wattempt. by destruct (m o w) as [[[a|e]|] w']. Qed.
Lemma decided_bind {A B} (m : W N A) (k : A -> W N B) :
  decided m -> (forall a, decided (k a)) -> decided (wbind m k).
Proof.
  intros Hm Hk o w. unfold wbind. specialize (Hm o w). destruct (m o w) as [[[a|e]|] w']; simpl in *;
    [apply Hk|congruence|done].
Qed.
Lemma decided_attempt {A B} (m : W N A) (k : res A -> W N B) :
  (forall r, decided (k r)) -> decided (wattempt m k).
Proof. intros Hk o w. unfold wattempt. destruct (m o w) as [[r|] w']; [apply Hk|done]. Qed.

Lemma processPending_decided todo : forall blocked cursor examined,
  decided (processPending s todo blocked cursor examined).
Proof.
  induction todo as [|sig todo IH]; intros; simpl; [apply decided_ret|]. apply decided_attempt.
  intros [u|e]; [|apply IH]. destruct blocked; [apply IH|]. apply decided_bind; [apply decided_wrap|].
  intros [|]; simpl; [apply IH|]. apply decided_bind; [apply decided_wrap|]. intros; apply decided_ret.
Qed.

(** The history below the last fetched signature. *)
Definition below (before : string) (k : nat) (h : list SignatureInfo) : Prop :=
  exists a y b, h = a ++ y :: b /\ si_Signature y = before /\ (length b <= k)%nat.

Definition settles {A} (m : nat -> option (res A) * world N) (k : nat) : Prop :=
  forall fuel, (k <= fuel)%nat -> m fuel = m k /\ fst (m fuel) <> Some (Err out_of_fuel).

(** One page, and what follows it when the fetch goes on. *)
Lemma fetch_step lastSig before pending o w :
  let r := read_signatures ata (ds_pollLimit s) before "finalized" (w_node w) in
  let w' := mkWorld (w_db w) (snd r) (w_calls w) in
  (exists out, fst out <> Some (Err out_of_fuel) /\
     forall fuel, fetchPages s (S fuel) lastSig before pending o w = out) \/
  exists sigs new q z, fst r = Ok sigs /\ sigs = q ++ [z] /\
    forall fuel, fetchPages s (S fuel) lastSig before pending o w =
      fetchPages s fuel lastSig (si_Signature z) (pending ++ new) o w'.
Proof.
  cbv zeta. cbn [fetchPages]. unfold wbind, wwrap, wattempt, callNode. fold ata.
  destruct (read_signatures ata _ before "finalized" (w_node w)) as [[sigs|e] n'].
  2:{ left. (eexists; split; [|intros; cbv beta iota zeta delta [wfail wret]; reflexivity]; done). }
  cbn [fst snd]. unfold wret. case_bool_decide as Hne; [left; (eexists; split; [|intros; cbv beta iota zeta delta [wfail wret]; reflexivity]; done)|].
  destruct (newer_than lastSig sigs) as [new stop]. destruct (_ || _); [left; (eexists; split; [|intros; cbv beta iota zeta delta [wfail wret]; reflexivity]; done)|].
  right. destruct (exists_last Hne) as (q & z & ->). exists (q ++ [z]), new, q, z.
  split; [done|]. split; [done|]. intros fuel'. rewrite last_snoc. done.
Qed.

Lemma fetch_settles k : forall lastSig before pending o w,
  before <> ""%string -> below before k (hist (w_node w)) ->
  settles (fun fuel => fetchPages s fuel lastSig before pending o w) (S k).
Proof using Hreader.
  induction k as [|k IH]; intros lastSig before pending o w Hb (a & y & b & Hh & Hy & Hk) fuel Hf;
    (destruct fuel as [|fuel]; [lia|]);
    pose proof (fetch_step lastSig before pending o w) as Hst; cbv zeta in Hst;
    destruct (ok_signatures Hreader before (w_node w)) as [[new0 Hnew] Hpage];
    destruct Hst as [(out & Hout & Heq)|(sigs & new & q & z & Hr & Hsq & Heq)];
    try (rewrite !Heq; done).
  all: specialize (Hpage _ Hr); unfold page in Hpage;
    apply String.eqb_neq in Hb; rewrite Hb in Hpage;
    pose proof (proj1 (hist_names (snd (read_signatures ata (ds_pollLimit s) before "finalized" (w_node w))))) as Hnd;
    rewrite Hnew, Hh, app_assoc in Hpage, Hnd; rewrite <- Hy, after_split in Hpage by done.
  - destruct b; [|simpl in Hk; lia]. rewrite take_nil in Hpage. subst. by destruct q.
  - rewrite !Heq. set (n' := snd _) in *.
    destruct (hist_names n') as [_ Hnm].
    assert (Hb2 : b = q ++ z :: drop (Z.to_nat (ds_pollLimit s)) b).
    { rewrite <- (take_drop (Z.to_nat (ds_pollLimit s)) b) at 1. rewrite <- Hpage, Hsq. by rewrite <- app_assoc. }
    apply (IH lastSig (si_Signature z) (pending ++ new) o (mkWorld (w_db w) n' (w_calls w))); [| |lia].
    + eapply Forall_forall in Hnm; [exact Hnm|]. rewrite Hnew, Hh, Hb2. apply elem_of_app; right.
      apply elem_of_app; right. right. apply elem_of_app; right. left.
    + exists ((new0 ++ a) ++ y :: q), z, (drop (Z.to_nat (ds_pollLimit s)) b). split.
      * cbn [w_node]. rewrite Hnew, Hh. rewrite Hb2 at 1. by rewrite <- !app_assoc.
      * split; [done|]. apply (f_equal length) in Hb2. rewrite length_app in Hb2. simpl in Hb2. lia.
Qed.

(** C26: every pass of the watcher ends: the loop over the pages stops within a
    bound, the length of the history at the first page, whatever the cursor, so the
    pass has one result from some fuel on, which is not that the fuel ran out. *)
Theorem watcher_pass_ends o w : exists n, settles (fun fuel => RunOnce s fuel o w) n.
Proof using Hreader.
  unfold RunOnce, wbind at 1.
  destruct (wwrap "load cursor: %w" _ o w) as [[[c|e]|] w1] eqn:Ec.
  2:{ exists O. intros fuel _. split; [done|]. simpl. intros [= ->].
      pose proof (decided_wrap "load cursor: %w" (callStore (DepositCursor (ds_treasuryATA s))) o w) as Hd.
      by rewrite Ec in Hd. }
  2:{ by exists O. }
  assert (Hfetch : exists n, settles (fun fuel => fetchPages s fuel c "" [] o w1) n).
  { pose proof (fetch_step c "" [] o w1) as Hst. cbv zeta in Hst.
    destruct (ok_signatures Hreader "" (w_node w1)) as [_ Hpage].
    destruct Hst as [(out & Hout & Heq)|(sigs & new & q & z & Hr & Hsq & Heq)].
    - exists 1%nat. intros [|fuel] Hf; [lia|]. by rewrite !Heq.
    - specialize (Hpage _ Hr). unfold page in Hpage. simpl in Hpage. set (n' := snd _) in *.
      destruct (hist_names n') as [_ Hnm].
      assert (Hh : hist n' = q ++ z :: drop (Z.to_nat (ds_pollLimit s)) (hist n')).
      { rewrite <- (take_drop (Z.to_nat (ds_pollLimit s)) (hist n')) at 1. rewrite <- Hpage, Hsq.
        by rewrite <- app_assoc. }
      exists (S (S (length (hist n')))). intros [|fuel] Hf; [lia|]. rewrite !Heq.
      apply (fetch_settles (length (hist n')) c (si_Signature z) _ o (mkWorld (w_db w1) n' (w_calls w1))); [| |lia].
      + eapply Forall_forall in Hnm; [exact Hnm|]. rewrite Hh. apply elem_of_app; right. left.
      + exists q, z, (drop (Z.to_nat (ds_pollLimit s)) (hist n')). split; [exact Hh|]. split; [done|].
        rewrite length_drop. lia. }
  destruct Hfetch as [n Hn]. exists n. intros fuel Hf. unfold wbind. destruct (Hn fuel Hf) as [-> Hd].
  split; [done|]. specialize (Hn n ltac:(lia)) as [_ Hn].
  destruct (fetchPages s n c "" [] o w1) as [[[[[l|] x]|e]|] w2]; simpl in *; try done; [|congruence].
  apply processPending_decided.
Qed.
End Spec.

(** ** Transfers outside the first instruction *)
Lemma appendTransfers_app out i j ix mint program :
  appendTransfers out i j ix mint program = out ++ appendTransfers [] i j ix mint program.
Proof.
  unfold appendTransfers. destruct (px_Parsed ix); [|by rewrite app_nil_r].
  destruct (_ && _); [by rewrite app_nil_r|]. destruct (transferInfo _ _); [|by rewrite app_nil_r].
  destruct (_ || _); [by rewrite app_nil_r|]. destruct (ParseInt _); [|by rewrite app_nil_r].
  destruct (_ <=? 0); [by rewrite app_nil_r|done].
Qed.
Lemma appendTransfers_keeps out i j ix mint program : out ⊆ appendTransfers out i j ix mint program.
Proof. rewrite appendTransfers_app. intros x. rewrite elem_of_app. by left. Qed.
Lemma innerTransfers_keeps l : forall out i j mint program, out ⊆ innerTransfers out i j l mint program.
Proof.
  induction l as [|ix l IH]; intros; simpl; [done|]. etrans; [|apply IH]. apply appendTransfers_keeps.
Qed.
Lemma groupTransfers_keeps l : forall out i mint program, out ⊆ groupTransfers out i l mint program.
Proof.
  unfold groupTransfers. induction l as [|g l IH]; intros; simpl; [done|]. etrans; [|apply IH].
  destruct (negb _); [done|apply innerTransfers_keeps].
Qed.
Lemma outerTransfers_keeps l : forall out i meta mint program, out ⊆ outerTransfers out i l meta mint program.
Proof.
  induction l as [|ix l IH]; intros; simpl; [done|]. etrans; [|apply IH].
  destruct meta; [|apply appendTransfers_keeps]. etrans; [apply appendTransfers_keeps|apply groupTransfers_keeps].
Qed.
Lemma outerTransfers_at l : forall out i meta mint program n ix tr,
  l !! n = Some ix -> tr ∈ appendTransfers [] (i + Z.of_nat n) 0 ix mint program ->
  tr ∈ outerTransfers out i l meta mint program.
Proof.
  induction l as [|ix0 l IH]; intros out i meta mint program [|n] ix tr Hn Htr; try done.
  - injection Hn as ->. simpl in Htr. rewrite Z.add_0_r in Htr. simpl. apply outerTransfers_keeps.
    assert (H : tr ∈ appendTransfers out i 0 ix mint program).
    { rewrite appendTransfers_app. apply elem_of_app. by right. }
    destruct meta; [by apply groupTransfers_keeps|done].
  - simpl. eapply IH; [exact Hn|]. by replace (i + 1 + Z.of_nat n) with (i + Z.of_nat (S n)) by lia.
Qed.
Lemma appendTransfers_index i ix mint program tr :
  tr ∈ appendTransfers [] i 0 ix mint program -> tt_InstructionIndex tr = i64 (Z.shiftl i 32).
Proof.
  unfold appendTransfers. destruct (px_Parsed ix); [|by intros ?%elem_of_nil].
  destruct (_ && _); [by intros ?%elem_of_nil|]. destruct (transferInfo _ _); [|by intros ?%elem_of_nil].
  destruct (_ || _); [by intros ?%elem_of_nil|]. destruct (ParseInt _); [|by intros ?%elem_of_nil].
  destruct (_ <=? 0); [by intros ?%elem_of_nil|]. simpl. intros ->%list_elem_of_singleton. simpl. apply Z.lor_0_r.
Qed.

Lemma insert_wide ev e d :
  ~ in_i32 (de_InstructionIndex ev) -> is_ok (fst (run (InsertDepositEvent ev) e d)) = false.
Proof.
  intros Hw. unfold InsertDepositEvent. destruct (String.eqb _ ""); [done|]. destruct (_ <=? 0); [done|].
  destruct (String.eqb _ ""); [done|]. rewrite now_or_run.
  unfold run, bind, wrap, pool_stmt, sql_insert_deposit. simpl.
  rewrite (bool_decide_eq_false_2 _ Hw). simpl. by destruct (e_fault e 0).
Qed.

Lemma shifted_wide n : 1 <= n < two63 / 4294967296 -> ~ in_i32 (i64 (Z.shiftl n 32)).
Proof.
  intros Hn. rewrite Z.shiftl_mul_pow2 by lia. change (2 ^ 32) with 4294967296. unfold two63 in Hn.
  rewrite i64_id; [unfold in_i32; lia|]. unfold in_i64, two63. change (9223372036854775808 / 4294967296) with 2147483648 in Hn. lia.
Qed.

#[export] Instance TokenTransfer_eq_dec : EqDecision TokenTransfer.
Proof. solve_decision. Defined.

Section Blocked.
Context {N : Type} {RD : signaturesReader N} (s : depositService).
Lemma processTransfers_wide sig tx l tr o : forall w : world N,
  tr ∈ l -> tt_Destination tr = ds_treasuryATA s -> ~ in_i32 (tt_InstructionIndex tr) ->
  forall u, fst (processTransfers s sig tx l o w) <> Some (Ok u).
Proof.
  induction l as [|tr0 l IH]; intros w Hin Hd Hw u; [by apply elem_of_nil in Hin|].
  simpl. unfold wbind at 1. apply elem_of_cons in Hin as [<-|Hin].
  - assert (Hfail : forall v, fst (processTransfer s sig tx tr o w) <> Some (Ok v)).
    { intros v. unfold processTransfer. rewrite Hd, String.eqb_refl. simpl.
      destruct (SenderWallet _ _ _) as [from|]; [|done]. unfold wbind at 1, wwrap at 1, wattempt at 1, callStore at 1.
      pose proof (insert_wide (mkDeposit (si_Signature sig) (tt_InstructionIndex tr) (si_Slot sig) from
        (tt_AmountRaw tr) None Unassigned None zeroTime) (o_env o (w_calls w)) (o_others o (w_calls w) (w_db w)) Hw) as Hi.
      destruct (run _ _ _) as [[b|e] d]; [done|]. by unfold wfail. }
    destruct (processTransfer s sig tx tr o w) as [[[v|e]|] w']; simpl in *; [|done..]. by destruct (Hfail v).
  - destruct (processTransfer s sig tx tr0 o w) as [[[v|e]|] w']; simpl; [by apply IH|done..].
Qed.

(** a deposit outside the first instruction of its transaction stops the
    watcher: its index is its instruction's position shifted by 32 bits, the column
    is a 32-bit integer, so its insert fails in every environment, the signature is
    never processed and the cursor never moves past it. *)
Theorem later_transfer_blocks sig tx n ix tr o (w : world N) :
  (forall m t, fst (read_transaction (si_Signature sig) m) = Ok (Some t) -> t = tx) ->
  si_Err sig = None -> pm_Instructions (ct_Transaction tx) !! n = Some ix ->
  1 <= Z.of_nat n < two63 / 4294967296 ->
  tr ∈ appendTransfers [] (Z.of_nat n) 0 ix (ds_mint s) (ds_tokenProgram s) ->
  tt_Destination tr = ds_treasuryATA s ->
  forall u, fst (processSignature s sig o w) <> Some (Ok u).
Proof.
  intros Ht He Hix Hn Htr Hd u. unfold processSignature. rewrite He.
  unfold wbind at 1, wwrap at 1, wattempt at 1, callNode at 1.
  specialize (Ht (w_node w)). destruct (read_transaction _ _) as [[t|e] n']; [|done]. simpl in Ht. unfold wret at 1.
  destruct t as [t|]; [|done]. rewrite (Ht t eq_refl) in *.
  apply (processTransfers_wide _ _ _ tr); [|done|].
  - unfold TokenTransfers. by eapply outerTransfers_at.
  - rewrite (appendTransfers_index _ _ _ _ _ Htr). by apply shifted_wide.
Qed.
End Blocked.

(** ** A treasury with one deposit to see *)
Definition demo_sig (name : string) : SignatureInfo := mkSigInfo name 7 None "finalized".
Definition demo_history : list SignatureInfo := [demo_sig "b"; demo_sig "a"].
Definition demo_ix : ParsedIx :=
  mkParsedIx "token" (Some (mkParsedInfo "transfer" (Some (JObj [("source"%string, JStr "src");
    ("destination"%string, JStr "treasury"); ("authority"%string, JStr "wallet"); ("amount"%string, JStr "50")])))) "" [].
Definition demo_tx (sig : string) : ConfirmedTransaction :=
  if String.eqb sig "b" then mkTransaction 7 (mkParsedMessage ["wallet"%string; "src"%string] [demo_ix]) (Some zeroParsedMeta)
  else zeroTransaction.
Definition demo_reader : signaturesReader unit := {|
  read_signatures _ limit before _ n := (Ok (page limit before demo_history), n);
  read_transaction sig n := (Ok (Some (demo_tx sig)), n) |}.
Definition demo_watcher : depositService := mkDepositService "treasury" "mint" "token" 100.
Definition demo_outside : outside := mkOutside (fun _ => fine_env 1000) (fun _ d => d) (fun _ => false).
Definition demo_world : world unit :=
  mkWorld (set_dep_cursors {[ "treasury"%string := "a"%string ]} empty_db) tt 0.
Definition demo_pass : world unit := snd (@RunOnce unit demo_reader demo_watcher 5 demo_outside demo_world).

Lemma demo_reader_ok : @reader_ok unit demo_reader demo_watcher (fun _ => demo_history).
Proof.
  split.
  - intros before n. split; [by exists []|]. by intros l [= <-].
  - intros sig n. by exists [].
  - intros _. apply (bool_decide_eq_true_1 (NoDup (map si_Signature demo_history))). reflexivity.
  - intros _. repeat constructor; discriminate.
Qed.

Lemma demo_caught_up : @caught_up unit demo_reader demo_watcher [] (w_db demo_world) demo_history.
Proof.
  exists [demo_sig "b"], (demo_sig "a"), []. split; [reflexivity|]. split; [reflexivity|].
  repeat constructor. intros _. exists zeroTransaction, tt. by repeat constructor.
Qed.

Lemma demo_others : @others_ok unit demo_reader demo_watcher [] demo_outside.
Proof. intros k d. split; [done|]. auto. Qed.

Lemma watcher_passes_nothing_unread_witness :
  @caught_up unit demo_reader demo_watcher [] (w_db demo_pass) demo_history /\
  dep_cursors (w_db demo_pass) !! "treasury"%string = Some "b"%string /\
  de_AmountRaw <$> deposits (w_db demo_pass) !! ("b"%string, 0) = Some 50.
Proof.
  split; [|split; reflexivity].
  exact (watcher_passes_nothing_unread demo_watcher (fun _ => demo_history) [] demo_reader_ok 5 demo_outside
    demo_world demo_others demo_caught_up).
Defined.

Lemma watcher_pass_ends_witness :
  exists n, settles (fun fuel => @RunOnce unit demo_reader demo_watcher fuel demo_outside demo_world) n.
Proof.
  exact (watcher_pass_ends demo_watcher (fun _ => demo_history) demo_reader_ok demo_outside demo_world).
Defined.


(** The same deposit behind a compute-budget instruction. *)
Definition demo_late (sig : string) : ConfirmedTransaction :=
  mkTransaction 7 (mkParsedMessage ["wallet"%string; "src"%string] [zeroParsedIx; demo_ix]) (Some zeroParsedMeta).
Definition late_reader : signaturesReader unit := {|
  read_signatures _ limit before _ n := (Ok (page limit before demo_history), n);
  read_transaction sig n := (Ok (Some (demo_late sig)), n) |}.
Lemma later_transfer_blocks_witness :
  fst (@processSignature unit late_reader demo_watcher (demo_sig "b") demo_outside demo_world) <> Some (Ok tt).
Proof.
  apply (later_transfer_blocks demo_watcher (demo_sig "b") (demo_late "b") 1 demo_ix
    (mkTransfer 4294967296 "src" "treasury" "wallet" 50)); try reflexivity.
  - by intros m t [= <-].
  - vm_compute. split; congruence.
  - apply (bool_decide_eq_true_1 (_ ∈ _)). reflexivity.
Defined.
