(* ===== verification/Withdraw.v ===== *)
(** * internal/withdraw/worker.go: the withdrawal worker

    One pass: every due withdrawal is advanced by one transition.  The node, the
    signature (ed25519 under the treasury's key) and the text of an error are
    parameters; the context is over when [cancelled] says so, timeouts of single
    calls are errors of the node; logging is left out. *)
From Stdlib Require Import ZArith Lia Strings.Ascii Strings.String.
From stdpp Require Import base gmap strings list.
From S2P Require Import Prelude Billing Sha256 Base58 GoText Solana Json Base64 Rpc Tx Schema BillingStore WithdrawalStore Worker.

Open Scope Z_scope.
Open Scope worker_scope.

Class withdrawRPC (N : Type) := {
  node_AccountExists : string -> N -> res bool * N;
  node_LatestBlockhash : N -> res (bytes * Z) * N;
  node_SendTransaction : bytes -> N -> res string * N;
  node_GetSignatureStatuses : list string -> N -> res (list (option SignatureStatusValue)) * N;
  node_GetBlockHeight : N -> res Z * N;
  err_text : err -> string }.

(** The RPC client as the worker's node. *)
#[export] Instance rpcNode {N} (post : string -> list json -> N -> response * N) (text : err -> string)
    : withdrawRPC N := {|
  node_AccountExists := AccountExists post;
  node_LatestBlockhash := LatestBlockhash post;
  node_SendTransaction := SendTransaction post;
  node_GetSignatureStatuses := GetSignatureStatuses post;
  node_GetBlockHeight := GetBlockHeight post;
  err_text := text |}.

Record withdrawService := mkWithdrawService {
  ws_sign : bytes -> bytes;
  ws_treasuryPub : bytes; ws_treasuryATA : bytes; ws_mint : bytes; ws_tokenProgram : bytes;
  ws_token2022 : bool; ws_batchLimit : Z; ws_blockhashMaxAge : Z }.

(** [New]: the service, from the key's public half, the base58 addresses and the
    settings, with its defaults. *)
Definition New (sign : bytes -> bytes) (treasuryPub : bytes) (mint tokenProgram : string)
    (blockhashMaxAge : Z) : res withdrawService :=
  match DecodeBase58 mint PublicKeyBytes with
  | Err e => Err (Wrapf "withdraw: invalid mint: %w" e)
  | Ok mintBytes =>
    if negb (Z.of_nat (length mintBytes) =? PublicKeyBytes) then Err (Errorf "withdraw: invalid mint: %w")
    else
      match DecodeBase58 tokenProgram PublicKeyBytes with
      | Err e => Err (Wrapf "withdraw: invalid token program: %w" e)
      | Ok tpBytes =>
        if negb (Z.of_nat (length tpBytes) =? PublicKeyBytes)
        then Err (Errorf "withdraw: invalid token program: %w")
        else
          match AssociatedTokenAddress treasuryPub mintBytes tpBytes with
          | Err e => Err (Wrapf "withdraw: derive treasury ATA: %w" e)
          | Ok ata =>
            Ok (mkWithdrawService sign treasuryPub ata mintBytes tpBytes
                  (bool_decide (tpBytes = Token2022ProgramID)) 20
                  (if blockhashMaxAge <=? 0 then 90000000000 else blockhashMaxAge))
          end
      end
  end.

Section Worker.
Context {N : Type} `{RPC : withdrawRPC N} (s : withdrawService).

Definition discardW {A} (m : W N A) : W N unit := do* m in wret tt.

(** [RestoreWithdrawal] at the clock, its error wrapped. *)
Definition restore (fmt : string) (id : Z) (reason : string) (t : time) : W N unit :=
  discardW (wwrap fmt (callStore (RestoreWithdrawal id reason t))).

(** The transaction of a withdrawal: its signature and its bytes on the wire. *)
Definition signedTransaction (destATA destOwner : bytes) (createATA : bool) (bh : bytes) (amountRaw : Z)
    : bytes * bytes :=
  let message := buildTransferMessage (ws_treasuryPub s) (ws_treasuryATA s) destATA destOwner (ws_mint s)
    (ws_tokenProgram s) createATA (ws_token2022 s) bh (u64 amountRaw) in
  let sig := ws_sign s message in
  (sig, SerializeTransaction sig message).

Definition signAndStore (w : Withdrawal) : W N unit :=
  let invalid :=
    let* t := clock in
    restore "restore after invalid destination: %w" (wd_ID w) "invalid destination wallet" t in
  match DecodeBase58 (wd_DestinationWallet w) PublicKeyBytes with
  | Err _ => invalid
  | Ok destOwner =>
    if negb (Z.of_nat (length destOwner) =? PublicKeyBytes) then invalid
    else
      match AssociatedTokenAddress destOwner (ws_mint s) (ws_tokenProgram s) with
      | Err e => wfail (Wrapf "derive dest ATA: %w" e)
      | Ok destATA =>
        let* exists_ := wwrap "account exists: %w" (callNode (node_AccountExists (EncodeBase58 destATA))) in
        let* latest := wwrap "latest blockhash: %w" (callNode node_LatestBlockhash) in
        let bh := fst latest in
        let tx := signedTransaction destATA destOwner (negb exists_) bh (wd_AmountRaw w) in
        let* t := clock in
        discardW (wwrap "mark signed: %w" (callStore (MarkWithdrawalSigned (wd_ID w)
          (EncodeToString (snd tx)) (EncodeBase58 (fst tx)) (EncodeBase58 bh) (snd latest)
          (t + ws_blockhashMaxAge s) t)))
      end
  end.

(** What the text of a send error means. *)
Definition already_landed (msg : string) : bool :=
  Contains msg "already been processed" || Contains msg "already known" ||
  Contains msg "transaction results in an account already in use".
Definition says_expired (msg : string) : bool :=
  Contains msg "blockhash not found" || Contains msg "blockhash expired" || Contains msg "block has expired".

Definition markBroadcast (id : Z) : W N unit :=
  let* t := clock in discardW (wwrap "mark broadcast: %w" (callStore (MarkWithdrawalBroadcast id t))).

Definition broadcastStored (w : Withdrawal) : W N unit :=
  if String.eqb (wd_SignedWire w) "" then wfail (Errorf "no signed wire")
  else
    match DecodeString (wd_SignedWire w) with
    | Err _ => let* t := clock in restore "restore after corrupt wire: %w" (wd_ID w) "corrupt signed wire" t
    | Ok wire =>
      let*? sent := callNode (node_SendTransaction wire) in
      match sent with
      | Ok _ => markBroadcast (wd_ID w)
      | Err e =>
        let msg := ToLower (err_text e) in
        if already_landed msg then markBroadcast (wd_ID w)
        else if says_expired msg then
          let* t := clock in restore "restore after blockhash expiry: %w" (wd_ID w) "blockhash_expired" t
        else wfail (Wrapf "send (will retry): %w" e)
      end
    end.

Definition finalizeOrRestore (w : Withdrawal) : W N unit :=
  if String.eqb (wd_Signature w) "" then wfail (Errorf "no signature to finalize")
  else
    let* statuses := wwrap "signature statuses (will retry): %w"
      (callNode (node_GetSignatureStatuses [wd_Signature w])) in
    let st := default None (head statuses) in
    let* t := clock in
    match st with
    | Some st =>
      if Finalized st then discardW (wwrap "finalize: %w" (callStore (FinalizeWithdrawal (wd_ID w) t)))
      else if has_err st then restore "restore after tx failure: %w" (wd_ID w) "tx_failed" t
      else wfail (Errorf "pending")
    | None =>
      match wd_LastValidBlockHeight w with
      | None => wfail (Errorf "pending")
      | Some last =>
        let* height := wwrap "block height (will retry): %w" (callNode node_GetBlockHeight) in
        if height >? last
        then restore "restore after blockhash expiry: %w" (wd_ID w) "blockhash_expired_unconfirmed" t
        else wfail (Errorf "pending")
      end
    end.

Definition advance (w : Withdrawal) : W N unit :=
  match wd_State w with
  | WithdrawalReserved => signAndStore w
  | WithdrawalSigned => broadcastStored w
  | WithdrawalBroadcast => finalizeOrRestore w
  | _ => wret tt
  end.

Definition ErrCanceled : err := Sentinel "context canceled".

Fixpoint advanceAll (due : list Withdrawal) (advanced : Z) : W N Z :=
  match due with
  | [] => wret advanced
  | w :: r =>
    let* over := cancelled in
    if over : bool then wfail ErrCanceled
    else
      let*? res := advance w in
      match res with
      | Err _ => advanceAll r advanced
      | Ok _ => advanceAll r (advanced + 1)
      end
  end.

Definition RunOnce : W N Z :=
  let* due := wwrap "sweep: %w" (callStore (SweepWithdrawalsDue (ws_batchLimit s))) in
  advanceAll due 0.

(** [n] passes of [Run]. *)
Fixpoint passes (n : nat) (o : outside) (w : world N) : world N :=
  match n with O => w | S k => passes k o (snd (RunOnce o w)) end.
End Worker.
