(* ===== verification/SettlementWorker.v ===== *)
(** * internal/delegations/worker.go: the settlement worker

    One pass claims a wave of batches and advances every open batch by one
    transition.  The node is the withdrawal worker's interface; the signature under
    the authority's key is a parameter; the mutex serializes the passes of one
    process and is left out. *)
From Stdlib Require Import ZArith Lia Strings.Ascii Strings.String.
From stdpp Require Import base gmap strings list.
From S2P Require Import Prelude Billing Sha256 Base58 GoText Solana Json Base64 Rpc Tx Schema BillingStore SettlementStore Worker Withdraw.

Open Scope Z_scope.
Open Scope worker_scope.

Record settlementWorker := mkSettlementWorker {
  sw_sign : bytes -> bytes; sw_authorityKey : bytes; sw_authority : string;
  sw_mint : bytes; sw_tokenProgram : bytes; sw_treasuryWallet : string; sw_decimals : Z;
  sw_claimLimit : Z; sw_sweepLimit : Z; sw_blockhashMaxAge : Z }.

(** The constructor, for a key of the right length. *)
Definition NewSettlementWorker (sign : bytes -> bytes) (publicKey : bytes)
    (authority mint tokenProgram treasuryWallet : string) (decimals blockhashMaxAge : Z)
    : res settlementWorker :=
  if String.eqb authority "" then Err (Errorf "delegations: settlement authority is required")
  else if negb (String.eqb (EncodeBase58 publicKey) authority)
  then Err (Errorf "delegations: settlement keypair does not match authority (got %s, want %s)")
  else
    match DecodeBase58 mint PublicKeyBytes with
    | Err e => Err (Wrapf "delegations: mint: %w" e)
    | Ok m =>
      match DecodeBase58 tokenProgram PublicKeyBytes with
      | Err e => Err (Wrapf "delegations: token program: %w" e)
      | Ok tp =>
        if (decimals <? 0) || (decimals >? 255) then Err (Errorf "delegations: decimals out of range: %d")
        else Ok (mkSettlementWorker sign publicKey authority m tp treasuryWallet decimals 500 20
                   (if blockhashMaxAge <=? 0 then 90000000000 else blockhashMaxAge))
      end
    end.

Section Worker.
Context {N : Type} `{RPC : withdrawRPC N} (s : settlementWorker).

Definition restoreBatch (fmt : string) (id : Z) (reason : string) (t : time) : W N unit :=
  discardW (wwrap fmt (callStore (RestoreSettlement id reason t))).

(** The transaction of a batch: its signature and its bytes on the wire. *)
Definition signedBatch (source destATA : bytes) (createDestATA : bool) (bh : bytes) (amountRaw : Z)
    : bytes * bytes :=
  let message := buildTransferCheckedMessage source (sw_mint s) destATA (sw_authorityKey s)
    (sw_tokenProgram s) createDestATA bh (u64 amountRaw) (sw_decimals s) in
  let sig := sw_sign s message in
  (sig, SerializeTransaction sig message).

Definition signAndStoreBatch (b : DelegationSettlement) : W N unit :=
  match DecodeBase58 (ds_SourceATA b) PublicKeyBytes with
  | Err _ =>
    let* t := clock in restoreBatch "restore after invalid source: %w" (ds_ID b) "invalid source ata" t
  | Ok source =>
    match DecodeBase58 (ds_DestinationATA b) PublicKeyBytes with
    | Err _ =>
      let* t := clock in
      restoreBatch "restore after invalid destination: %w" (ds_ID b) "invalid destination ata" t
    | Ok destATA =>
      let* exists_ := wwrap "account exists: %w" (callNode (node_AccountExists (ds_DestinationATA b))) in
      let* latest := wwrap "latest blockhash: %w" (callNode node_LatestBlockhash) in
      let tx := signedBatch source destATA (negb exists_) (fst latest) (ds_AmountRaw b) in
      let* t := clock in
      discardW (wwrap "mark signed: %w" (callStore (MarkSettlementSigned (ds_ID b)
        (EncodeToString (snd tx)) (EncodeBase58 (fst tx)) (EncodeBase58 (fst latest)) (snd latest)
        (t + sw_blockhashMaxAge s) t)))
    end
  end.

Definition markBatchBroadcast (id : Z) : W N unit :=
  let* t := clock in discardW (wwrap "mark broadcast: %w" (callStore (MarkSettlementBroadcast id t))).

Definition broadcastBatch (b : DelegationSettlement) : W N unit :=
  if String.eqb (ds_SignedWire b) "" then wfail (Errorf "no signed wire")
  else
    match DecodeString (ds_SignedWire b) with
    | Err _ => let* t := clock in restoreBatch "restore after corrupt wire: %w" (ds_ID b) "corrupt signed wire" t
    | Ok wire =>
      let*? sent := callNode (node_SendTransaction wire) in
      match sent with
      | Ok _ => markBatchBroadcast (ds_ID b)
      | Err e =>
        let msg := ToLower (err_text e) in
        if already_landed msg then markBatchBroadcast (ds_ID b)
        else if says_expired msg then
          let* t := clock in restoreBatch "restore after blockhash expiry: %w" (ds_ID b) "blockhash_expired" t
        else wfail (Wrapf "send (will retry): %w" e)
      end
    end.

Definition finalizeOrRestoreBatch (b : DelegationSettlement) : W N unit :=
  if String.eqb (ds_Signature b) "" then wfail (Errorf "no signature to finalize")
  else
    let* statuses := wwrap "signature statuses (will retry): %w"
      (callNode (node_GetSignatureStatuses [ds_Signature b])) in
    let st := default None (head statuses) in
    let* t := clock in
    match st with
    | Some st =>
      if Finalized st then discardW (wwrap "finalize: %w" (callStore (FinalizeSettlement (ds_ID b) t)))
      else if has_err st then restoreBatch "restore after tx failure: %w" (ds_ID b) "tx_failed" t
      else wfail (Errorf "pending")
    | None =>
      match ds_LastValidBlockHeight b with
      | None => wfail (Errorf "pending")
      | Some last =>
        let* height := wwrap "block height (will retry): %w" (callNode node_GetBlockHeight) in
        if height >? last
        then restoreBatch "restore after blockhash expiry: %w" (ds_ID b) "blockhash_expired_unconfirmed" t
        else wfail (Errorf "pending")
      end
    end.

Definition advanceBatch (b : DelegationSettlement) : W N unit :=
  match ds_State b with
  | SettlementPending => signAndStoreBatch b
  | SettlementSigned => broadcastBatch b
  | SettlementBroadcast => finalizeOrRestoreBatch b
  | _ => wret tt
  end.

Fixpoint advanceBatches (due : list DelegationSettlement) (advanced : Z) : W N Z :=
  match due with
  | [] => wret advanced
  | b :: r =>
    let* over := cancelled in
    if over : bool then wfail ErrCanceled
    else
      let*? res := advanceBatch b in
      match res with
      | Err _ => advanceBatches r advanced
      | Ok _ => advanceBatches r (advanced + 1)
      end
  end.

Definition claimParams : SettlementClaimParams :=
  mkClaimParams (sw_authority s) (EncodeBase58 (sw_mint s)) (EncodeBase58 (sw_tokenProgram s))
    (sw_treasuryWallet s) (sw_claimLimit s).

Definition RunOnce : W N Z :=
  let* t := clock in
  do* wwrap "claim: %w" (callStore (ClaimDelegationSettlements claimParams t)) in
  let* due := wwrap "sweep: %w" (callStore (SweepDelegationSettlements (sw_sweepLimit s))) in
  advanceBatches due 0.
End Worker.
