(* ===== verification/BillingSpec.v ===== *)
(** * What reservation, settlement and release do

    The abstract effect of each billing method on balances, requests and ledger,
    and the proof that the method has exactly that effect when no round trip is
    lost; with the failures, every early return included. *)
From Stdlib Require Import ZArith Lia.
From stdpp Require Import base gmap strings list fin_maps.
From S2P Require Import Prelude Billing Tx Schema BillingStore Projection.

Open Scope Z_scope.
Open Scope tx_scope.

(** ** Effects *)
Definition zero_row (t : time) : CreditRow := mkCredit 0 0 no_caps t.

Definition ensured (a : string) (t : time) (d : db) : db :=
  match credits d !! a with
  | Some _ => d
  | None => set_credits (<[a := zero_row t]> (credits d)) d
  end.

Definition bump (a : string) (c r : Z) (t : time) (d : db) : db :=
  set_credits (<[a := add_credit c r t (default (zero_row t) (credits d !! a))]> (credits d)) d.

Definition rows_ok (d : db) : Prop := forall a r, credits d !! a = Some r ->
  0 <= cr_reserved_raw r <= cr_credit_raw r /\ cr_credit_raw r <= maxI64 /\
  caps_nonneg (cr_caps r) = true.

Lemma rows_ok_default d a t : rows_ok d ->
  let r := default (zero_row t) (credits d !! a) in
  cr_credit_raw r = credit_of a d /\ cr_reserved_raw r = reserved_of a d /\
  caps_nonneg (cr_caps r) = true /\ 0 <= reserved_of a d <= credit_of a d /\ credit_of a d <= maxI64.
Proof.
  intros Hok. unfold credit_of, reserved_of. destruct (credits d !! a) as [r|] eqn:E; simpl.
  - destruct (Hok a r E) as (? & ? & ?). auto.
  - unfold_i64. repeat split; lia.
Qed.

Lemma bump_credit a c r t d b : credit_of b (bump a c r t d) = credit_of b d + at_ a c b.
Proof.
  unfold bump. rewrite credit_of_insert. f_equal. unfold at_. destruct (String.eqb a b) eqn:E; [|done].
  simpl. unfold credit_of. destruct (credits d !! a); simpl; lia.
Qed.
Lemma bump_reserved a c r t d b : reserved_of b (bump a c r t d) = reserved_of b d + at_ a r b.
Proof.
  unfold bump. rewrite reserved_of_insert. f_equal. unfold at_. destruct (String.eqb a b) eqn:E; [|done].
  simpl. unfold reserved_of. destruct (credits d !! a); simpl; lia.
Qed.

Definition bump_fits (a : string) (c r : Z) (d : db) : Prop :=
  0 <= reserved_of a d + r <= credit_of a d + c /\ credit_of a d + c <= maxI64.

Lemma bump_rows_ok a c r t d : rows_ok d -> bump_fits a c r d -> rows_ok (bump a c r t d).
Proof.
  intros Hok Hf b row Hb. unfold bump in Hb. simpl in Hb.
  apply lookup_insert_Some in Hb as [[<- <-]|[_ Hb]]; [|by apply (Hok b)].
  destruct (rows_ok_default d a t Hok) as (Hc & Hr & Hcaps & _). unfold bump_fits in Hf.
  simpl in *. rewrite Hc, Hr. repeat split; try apply Hf. exact Hcaps.
Qed.

(** ** Statements that succeed *)
Lemma ensure_Ok a t d : sql_ensure_credit a t d = Ok (tt, ensured a t d).
Proof.
  unfold sql_ensure_credit, ensured. destruct (credits d !! a); [done|].
  rewrite write_credit_fits; [done|simpl; lia|simpl; unfold_i64; lia|done].
Qed.

Lemma ensured_row a t d : credits (ensured a t d) !! a = Some (default (zero_row t) (credits d !! a)).
Proof.
  unfold ensured. destruct (credits d !! a) as [r|] eqn:E; [by rewrite E|].
  simpl. by rewrite lookup_insert_eq.
Qed.

Lemma ensured_insert a t r d :
  set_credits (<[a := r]> (credits (ensured a t d))) (ensured a t d) =
  set_credits (<[a := r]> (credits d)) d.
Proof.
  unfold ensured. destruct (credits d !! a); [done|]. unfold set_credits. simpl. by rewrite insert_insert_eq.
Qed.

Lemma update_Ok a c r t d :
  rows_ok d -> bump_fits a c r d ->
  sql_update_credit a (add_credit c r t) (ensured a t d) = Ok (tt, bump a c r t d).
Proof.
  intros Hok [Hf Hm]. destruct (rows_ok_default d a t Hok) as (Hc & Hr & Hcaps & _). simpl in *.
  unfold sql_update_credit. rewrite ensured_row.
  rewrite write_credit_fits; simpl; [|lia|lia|done].
  unfold bump. by rewrite ensured_insert.
Qed.

Section Specs.
Context (t : time).

Lemma fr_applyDelta_value a c r t' w :
  rows_ok w -> bump_fits a c r w ->
  fine_run t (applyDelta a c r t') w (Ok (i64 (credit_of a w + c), i64 (reserved_of a w + r))) (bump a c r t' w).
Proof.
  intros Hok Hf. destruct (rows_ok_default w a t' Hok) as (Hc & Hr & _). rewrite <- Hc, <- Hr. unfold applyDelta.
  eapply fr_bind; [apply fr_wrap, fr_stmt, ensure_Ok|].
  eapply fr_bind; [apply fr_wrap, fr_scan, fr_stmt; unfold sql_lock_credit, query;
    by rewrite ensured_row|].
  eapply fr_bind; [apply fr_wrap, fr_stmt; by apply update_Ok|]. apply fr_ret.
Qed.
Lemma fr_applyDelta a c r t' w :
  rows_ok w -> bump_fits a c r w ->
  exists v, fine_run t (applyDelta a c r t') w (Ok v) (bump a c r t' w).
Proof. intros Hok Hf. eexists. by apply fr_applyDelta_value. Qed.

(** The reads of a request. *)
Lemma fr_scanRequest id w row :
  requests w !! id = Some row ->
  fine_run t (scanBillingRequest in_tx id) w (Ok (request_of_row id row)) w.
Proof.
  intros Hrow. unfold scanBillingRequest. eapply fr_attempt.
  - apply fr_scan, fr_stmt. unfold sql_select_request, query. by rewrite Hrow.
  - apply fr_ret.
Qed.

Lemma scanRequest_none id d w :
  requests w !! id = None ->
  fine_end t (scanBillingRequest in_tx id) d w (Err ErrNotFound) d.
Proof.
  intros Hrow. unfold scanBillingRequest. eapply fe_attempt.
  - apply fr_scan_none, fr_stmt. unfold sql_select_request, query. by rewrite Hrow.
  - simpl. apply fe_fail.
Qed.

(** Releasing the share of an open request. *)
Definition release_db (id : string) (row : RequestRow) (reason : string) (t' : time) (d : db) : db :=
  let d1 := if rr_reserved_raw row >? 0
            then bump (rr_buyer_account_id row) 0 (- rr_reserved_raw row) t' d else d in
  set_requests (<[id := row_released t' reason row]> (requests d1)) d1.

Lemma in_i32_row_closed id row f d :
  requests d !! id = Some row ->
  rr_input_tokens (f row) = None -> rr_cached_input_tokens (f row) = None ->
  rr_output_tokens (f row) = None -> 0 <= rr_reserved_raw (f row) ->
  sql_update_request id f d = Ok (tt, set_requests (<[id := f row]> (requests d)) d).
Proof.
  intros Hrow Hi Hc Ho Hr. unfold sql_update_request. rewrite Hrow. unfold write_request.
  rewrite Hi, Hc, Ho. simpl. destruct (_ <? 0) eqn:?; zb; [lia|done].
Qed.

Lemma fr_release id row r reason t' w :
  rows_ok w -> requests w !! id = Some row -> no_tokens row ->
  rq_RequestID r = id -> rq_BuyerAccountID r = rr_buyer_account_id row ->
  rq_ReservedRaw r = rr_reserved_raw row ->
  0 <= rr_reserved_raw row <= reserved_of (rr_buyer_account_id row) w ->
  (0 < rr_reserved_raw row -> is_Some (credits w !! rr_buyer_account_id row)) ->
  fine_run t (releaseLocked r reason t') w (Ok (released t' reason r)) (release_db id row reason t' w).
Proof.
  intros Hok Hrow (Hi & Hc & Ho) Hid Hb Hrr Hle Hex. unfold releaseLocked, release_db.
  rewrite Hid, Hb, Hrr.
  set (d1 := if rr_reserved_raw row >? 0 then _ else w).
  assert (Hr1 : requests d1 = requests w) by (unfold d1; by destruct (_ >? 0)).
  eapply fr_bind with (w1 := d1).
  - unfold d1. destruct (rr_reserved_raw row >? 0) eqn:Hpos; [|apply fr_ret]. zb.
    apply fr_wrap, fr_stmt.
    destruct (rows_ok_default w (rr_buyer_account_id row) t' Hok) as (_ & _ & _ & Hbal & Hmax).
    rewrite <- (update_Ok (rr_buyer_account_id row) 0 _ t'); [|done|unfold bump_fits; lia].
    f_equal. destruct (Hex ltac:(lia)) as [row' Hrow']. unfold ensured. by rewrite Hrow'.
  - eapply fr_bind; [|apply fr_ret]. apply fr_wrap, fr_stmt.
    apply (in_i32_row_closed id row (row_released t' reason)); simpl; try done; [by rewrite Hr1|lia].
Qed.
End Specs.

(** ** Settlement *)
Definition settle_legs_of (id : string) (row : RequestRow) (q : EligiblePeerQuote) (u : Usage)
    (c f s : Z) (t : time) : list LedgerRow :=
  let r := request_of_row id row in
  [usage_leg (rr_buyer_account_id row) (- c) "usage" "buyer" (q_PeerID q) r q u t;
   usage_leg (q_SellerAccountID q) s "earn" "seller" (rr_buyer_account_id row) r q u t] ++
  (if f >? 0 then [movement TreasuryAccountID f "fee" "fee" (rr_buyer_account_id row) id t] else []).

(** The balances after a charge [c] split into [f] and [s]. *)
Definition settle_credits (row : RequestRow) (q : EligiblePeerQuote) (c f s : Z) (t : time) (d : db) : db :=
  let d2 := bump (q_SellerAccountID q) s 0 t
              (bump (rr_buyer_account_id row) (- c) (- rr_reserved_raw row) t d) in
  if f >? 0 then bump TreasuryAccountID f 0 t d2 else d2.

Definition settle_db (id : string) (row : RequestRow) (q : EligiblePeerQuote) (u : Usage)
    (c f s : Z) (t : time) (d : db) : db :=
  let d1 := foldl (fun d l => append_ledger l d) (settle_credits row q c f s t d)
              (settle_legs_of id row q u c f s t) in
  set_requests (<[id := row_settled q u c f s t row]> (requests d1)) d1.

Lemma insert_ledger_Ok row d :
  ledger_row_check row = None -> ledger_taken (lg_ref row) (lg_leg row) (ledger d) = false ->
  sql_insert_ledger row d = Ok (tt, append_ledger row d).
Proof. intros H1 H2. unfold sql_insert_ledger. by rewrite H1, H2. Qed.

Lemma fr_insert_leg t x y row w :
  ledger_row_check row = None -> ledger_taken (lg_ref row) (lg_leg row) (ledger w) = false ->
  fine_run t (insert_leg x y row) w (Ok tt) (append_ledger row w).
Proof.
  intros H1 H2. unfold insert_leg. eapply fr_attempt; [by apply fr_stmt, insert_ledger_Ok|].
  apply fr_ret.
Qed.

(** No leg of an open request is in the ledger. *)
Lemma open_not_taken x d id row leg :
  Inv x d -> requests d !! id = Some row -> rr_state row = StateReserved ->
  leg ∈ settle_legs_names -> ledger_taken (Some id) leg (ledger d) = false.
Proof.
  intros HI Hrow Hst Hleg. apply not_true_iff_false. unfold ledger_taken.
  intros (l & Hl & Heq)%existsb_exists. zb.
  pose proof (core_fresh _ _ _ _ HI) as Hf. rewrite Forall_forall in Hf.
  destruct (Hf l) as (i & Hi & [?|(r & Hr & Hn)]); [by apply list_elem_of_In|congruence|done|].
  congruence.
Qed.

Lemma taken_append_other id leg row w :
  lg_leg row <> leg ->
  ledger_taken (Some id) leg (ledger (append_ledger row w)) = ledger_taken (Some id) leg (ledger w).
Proof.
  intros Hne. unfold ledger_taken, append_ledger. cbn [ledger set_ledger_seq set_ledger].
  rewrite existsb_app. simpl. apply String.eqb_neq in Hne. rewrite Hne, andb_false_r. by rewrite orb_false_r.
Qed.

(** The hypotheses of a settlement that goes through. *)
Record Chargeable (x : string -> Z) (d : db) (id : string) (row : RequestRow)
    (peer : string) (u : Usage) (feeBps : Z) (q : EligiblePeerQuote) (c f s : Z) : Prop := {
  cg_inv : Inv x d;
  cg_row : requests d !! id = Some row;
  cg_open : rr_state row = StateReserved;
  cg_quote : findQuote (rr_eligible_peers row) peer = Some q;
  cg_cost : Cost (InputTokens u) (CachedInputTokens u) (OutputTokens u)
              (q_InputPerMillion q) (q_CachedInputPerMillion q) (q_OutputPerMillion q) = Ok c;
  cg_pos : 0 < c <= rr_reserved_raw row;
  cg_fee : Fee c feeBps = Ok (f, s);
  cg_room : forall a, credit_of a d + c <= maxI64;
  cg_tokens : in_i32 (InputTokens u) /\ in_i32 (CachedInputTokens u) /\ in_i32 (OutputTokens u) }.

Lemma Inv_rows_ok x d : Inv x d -> rows_ok d.
Proof. intros HI a r Ha. by apply (core_rows _ _ _ _ HI a r). Qed.

Lemma open_reserved_le x d id row :
  Inv x d -> requests d !! id = Some row -> rr_state row = StateReserved ->
  0 <= rr_reserved_raw row <= reserved_of (rr_buyer_account_id row) d.
Proof.
  intros HI Hrow Hst. pose proof (core_open _ _ _ _ HI _ _ Hrow) as [H0 _]. split; [done|].
  rewrite (core_reserved _ _ _ _ HI). unfold zero. rewrite Z.add_0_r. unfold open_sum.
  assert (Hle := map_sum_lookup_le (open_share (rr_buyer_account_id row)) (requests d) id row).
  rewrite open_share_open in Hle by done. unfold at_ in Hle. rewrite String.eqb_refl in Hle.
  apply Hle; [|done]. intros k r Hk. unfold open_share. destruct (_ && _); [|done].
  by apply (core_open _ _ _ _ HI k).
Qed.

Section Charge.
Context (x : string -> Z) (d : db) (id peer : string) (row : RequestRow) (u : Usage)
  (feeBps : Z) (q : EligiblePeerQuote) (c f s : Z) (t0 t : time).
Context (HC : Chargeable x d id row peer u feeBps q c f s).
Let buyer := rr_buyer_account_id row.
Let seller := q_SellerAccountID q.

Lemma charge_split : f + s = c /\ 0 <= f /\ 0 <= s.
Proof using HC.
  destruct HC as [_ _ _ _ _ Hc HF Hroom _]. eapply Fee_sum; [|exact HF].
  unfold nonneg64. pose proof (Hroom buyer). destruct (rows_ok_default d buyer 0
    (Inv_rows_ok _ _ (cg_inv _ _ _ _ _ _ _ _ _ _ _ HC))) as (_ & _ & _ & ? & _). lia.
Qed.

Let d1 := bump buyer (- c) (- rr_reserved_raw row) t d.
Let d2 := bump seller s 0 t d1.

Lemma charge_fits :
  bump_fits buyer (- c) (- rr_reserved_raw row) d /\ rows_ok d1 /\
  bump_fits seller s 0 d1 /\ rows_ok d2 /\ bump_fits TreasuryAccountID f 0 d2.
Proof using HC.
  pose proof charge_split as (Hsum & Hf & Hs). pose proof HC as [HI Hrow Hst _ _ Hc _ Hroom _].
  pose proof (Inv_rows_ok _ _ HI) as Hok.
  pose proof (open_reserved_le _ _ _ _ HI Hrow Hst) as Hres.
  pose proof (rows_ok_default d buyer t Hok) as (_ & _ & _ & Hb & Hbm). fold buyer in Hres.
  assert (F1 : bump_fits buyer (- c) (- rr_reserved_raw row) d) by (unfold bump_fits; lia).
  assert (R1 : rows_ok d1) by (by apply bump_rows_ok).
  pose proof (rows_ok_default d1 seller t R1) as (_ & _ & _ & Hsb & _).
  assert (F2 : bump_fits seller s 0 d1).
  { unfold bump_fits. unfold d1 in *. rewrite bump_credit, bump_reserved in *.
    pose proof (Hroom seller). unfold at_ in *. destruct (String.eqb buyer seller); lia. }
  assert (R2 : rows_ok d2) by (by apply bump_rows_ok).
  pose proof (rows_ok_default d2 TreasuryAccountID t R2) as (_ & _ & _ & Htb & _).
  do 4 (split; [done|]). unfold bump_fits. unfold d2, d1 in *.
  rewrite !bump_credit, !bump_reserved in *. pose proof (Hroom TreasuryAccountID).
  unfold at_ in *. destruct (String.eqb buyer TreasuryAccountID), (String.eqb seller TreasuryAccountID); lia.
Qed.

Lemma fr_charge_credits :
  exists v1 v2 w1, fine_run t0 (applyDelta buyer (- c) (- rr_reserved_raw row) t) d (Ok v1) d1 /\
    fine_run t0 (applyDelta seller s 0 t) d1 (Ok v2) d2 /\
    w1 = settle_credits row q c f s t d /\
    fine_run t0 (if f >? 0
      then bind (wrap "store: settle billing: treasury: %w" (applyDelta TreasuryAccountID f 0 t))
             (fun _ => ret tt) else ret tt) d2 (Ok tt) w1.
Proof using HC.
  pose proof charge_fits as (F1 & R1 & F2 & R2 & F3).
  destruct (fr_applyDelta t0 buyer (- c) (- rr_reserved_raw row) t d) as [v1 H1];
    [by eapply Inv_rows_ok, HC|done|].
  destruct (fr_applyDelta t0 seller s 0 t d1) as [v2 H2]; [done..|].
  exists v1, v2, (settle_credits row q c f s t d). split; [done|]. split; [done|]. split; [done|].
  unfold settle_credits. fold buyer seller d1 d2. destruct (f >? 0); [|apply fr_ret].
  destruct (fr_applyDelta t0 TreasuryAccountID f 0 t d2) as [v3 H3]; [done..|].
  eapply fr_bind; [by apply fr_wrap|apply fr_ret].
Qed.

Lemma charge_row_checks l : l ∈ settle_legs_of id row q u c f s t ->
  ledger_row_check l = None /\ lg_ref l = Some id.
Proof using HC.
  destruct HC as [_ _ _ _ _ _ _ _ (T1 & T2 & T3)]. unfold settle_legs_of. simpl.
  rewrite !elem_of_cons. unfold ledger_row_check. intros Hl.
  assert (Hcases : (exists a dl sr lg cp, l = usage_leg a dl sr lg cp (request_of_row id row) q u t /\
      (sr = "usage"%string \/ sr = "earn"%string)) \/
    l = movement TreasuryAccountID f "fee" "fee" (rr_buyer_account_id row) id t).
  { destruct Hl as [->|[->|Hl]]; [left; eauto 10|left; eauto 10|right].
    destruct (f >? 0); [by apply list_elem_of_singleton in Hl|by apply elem_of_nil in Hl]. }
  destruct Hcases as [(a & dl & sr & lg & cp & -> & Hsr)| ->]; [|done]. simpl.
  rewrite !bool_decide_true by done. simpl. destruct Hsr as [-> | ->]; done.
Qed.

Definition with_legs (ls : list LedgerRow) (w : db) : db :=
  foldl (fun d l => append_ledger l d) w ls.

(** The three inserts, on any state with the ledger of [d]. *)
Lemma fr_charge_legs w x1 y1 x2 y2 x3 y3 :
  ledger w = ledger d ->
  let r := request_of_row id row in
  exists w1 w2,
    fine_run t0 (insert_leg x1 y1 (usage_leg buyer (- c) "usage" "buyer" (q_PeerID q) r q u t)) w (Ok tt) w1 /\
    fine_run t0 (insert_leg x2 y2 (usage_leg seller s "earn" "seller" buyer r q u t)) w1 (Ok tt) w2 /\
    fine_run t0 (if f >? 0
      then insert_leg x3 y3 (movement TreasuryAccountID f "fee" "fee" buyer id t) else ret tt) w2
      (Ok tt) (with_legs (settle_legs_of id row q u c f s t) w).
Proof using HC.
  intros Hl r. pose proof HC as [HI Hrow Hst _ _ _ _ _ _].
  assert (Hnt : forall leg, leg ∈ settle_legs_names -> ledger_taken (Some id) leg (ledger w) = false)
    by (intros; rewrite Hl; by eapply open_not_taken).
  assert (Hin : forall l, l ∈ settle_legs_of id row q u c f s t -> ledger_row_check l = None)
    by (intros l Hl'; by apply charge_row_checks).
  unfold settle_legs_of, with_legs in *.
  eexists _, _. split; [|split].
  - apply fr_insert_leg; [apply Hin; by left|]. apply Hnt. by left.
  - apply fr_insert_leg; [apply Hin; right; by left|].
    cbn [lg_ref lg_leg usage_leg request_of_row rq_RequestID].
    rewrite taken_append_other by done. apply Hnt. right; by left.
  - destruct (f >? 0); [|apply fr_ret]. apply fr_insert_leg.
    + apply Hin. right; right; by left.
    + cbn [lg_ref lg_leg movement]. rewrite !taken_append_other by done.
      apply Hnt. right; right; by left.
Qed.

Lemma with_legs_frame ls w :
  requests (with_legs ls w) = requests w /\ credits (with_legs ls w) = credits w.
Proof. revert w. induction ls as [|l ls IH]; intros w; [done|]. apply (IH (append_ledger l w)). Qed.

Lemma settle_credits_frame :
  requests (settle_credits row q c f s t d) = requests d /\
  ledger (settle_credits row q c f s t d) = ledger d.
Proof. unfold settle_credits. by destruct (f >? 0). Qed.

Lemma fe_settle :
  fine_end t0 (settleScanned (request_of_row id row) peer u feeBps t) d d
    (Ok (settled q u c f s t (request_of_row id row))) (settle_db id row q u c f s t d).
Proof using HC.
  pose proof HC as [HI Hrow Hst Hq Hcost Hc Hfee Hroom (T1 & T2 & T3)].
  destruct settle_credits_frame as [HR1 HL1].
  destruct fr_charge_credits as (v1 & v2 & w1 & H1 & H2 & Hw1 & H3).
  unfold settleScanned. simpl. rewrite Hst. simpl. rewrite Hq, Hcost.
  eapply fe_bind; [apply fr_wrap, fr_lift|]. destruct (c =? 0) eqn:E; zb; [lia|].
  eapply fe_bind; [rewrite Hfee; apply fr_wrap, fr_lift|]. simpl.
  eapply fe_bind; [apply fr_wrap; exact H1|]. eapply fe_bind; [apply fr_wrap; exact H2|].
  eapply fe_bind; [exact H3|].
  edestruct (fr_charge_legs w1) as (w2 & w3 & L1 & L2 & L3); [by rewrite Hw1|].
  eapply fe_bind; [exact L1|]. eapply fe_bind; [exact L2|]. eapply fe_bind; [exact L3|].
  subst w1. set (w := with_legs (settle_legs_of id row q u c f s t)
    (settle_credits row q c f s t d)).
  assert (HR : requests w = requests d) by (unfold w; by rewrite (proj1 (with_legs_frame _ _))).
  eapply fe_bind; [|apply fe_commit]. apply fr_wrap, fr_stmt.
  unfold sql_update_request. simpl. rewrite HR, Hrow. unfold write_request. simpl.
  rewrite !bool_decide_true by done. simpl.
  pose proof (core_open _ _ _ _ HI _ _ Hrow) as [Hnn _].
  destruct (_ <? 0) eqn:?; zb; [lia|done].
Qed.
End Charge.

Definition clock (t now : time) : time := if IsZero now then t else now.

Lemma run_now_or {A} t now (k : time -> store A) d :
  run (bind (now_or now) k) (fine_env t) d = run (k (clock t now)) (fine_env t) d.
Proof. unfold now_or, clock, run, bind. by destruct (IsZero now). Qed.

(** C1: settlement charges exactly: for an open request of a consistent store, with
    a served peer of its snapshot, a usage whose charge is positive and within the
    reservation, and room for the charge in every account, [SettleBilling] returns
    the settled request and its only effects are the debit of the buyer and the
    release of its reservation, the seller's and the fee's credit, the unique
    ledger legs and the request's final state. *)
Theorem SettleBilling_charges x d id peer row u feeBps q c f s t now :
  Chargeable x d id row peer u feeBps q c f s ->
  run (SettleBilling id peer u feeBps now) (fine_env t) d =
    (Ok (settled q u c f s (clock t now) (request_of_row id row)),
     settle_db id row q u c f s (clock t now) d).
Proof.
  intros HC. unfold SettleBilling. rewrite run_now_or. apply run_with_tx.
  eapply fe_bind; [apply fr_scanRequest, HC|]. by apply fe_settle with (x := x).
Qed.

(** ** Requests that are not charged *)
Definition closed (s : RequestState) : bool :=
  match s with StateReserved => false | _ => true end.

(** Settling and releasing are idempotent: on a request that is already
    settled or released, both return the stored request and change nothing; on an
    unknown id both report not found and change nothing. *)
Theorem settle_release_idempotent id peer u feeBps reason t now d :
  match requests d !! id with
  | None => run (SettleBilling id peer u feeBps now) (fine_env t) d = (Err ErrNotFound, d) /\
            run (ReleaseBilling id reason now) (fine_env t) d = (Err ErrNotFound, d)
  | Some row => closed (rr_state row) = true ->
      run (SettleBilling id peer u feeBps now) (fine_env t) d = (Ok (request_of_row id row), d) /\
      run (ReleaseBilling id reason now) (fine_env t) d = (Ok (request_of_row id row), d)
  end.
Proof.
  unfold SettleBilling, ReleaseBilling. rewrite !run_now_or.
  destruct (requests d !! id) as [row|] eqn:E.
  - intros Hc.
    assert (Hs : bool_decide (rr_state row = StateReserved) = false)
      by (apply bool_decide_eq_false_2; by destruct (rr_state row)).
    split; apply run_with_tx; (eapply fe_bind; [by apply fr_scanRequest|]);
      unfold settleScanned; simpl; rewrite Hs; apply fe_ret.
  - split; apply run_with_tx; (eapply fe_bind_err; [by apply scanRequest_none]).
Qed.

(** Releasing an open request frees exactly its reservation: the buyer's
    reserved amount drops by the request's share, no credit and no ledger row
    changes, and the request is released with the reason and the time.  Settling
    it for a peer outside its snapshot, or for a usage that costs nothing, does the
    same (with the reasons unknown_peer and zero_price). *)
Theorem release_frees_reservation x d id row reason t now :
  Inv x d -> requests d !! id = Some row -> rr_state row = StateReserved ->
  let t' := clock t now in
  let outcome why := (Ok (released t' why (request_of_row id row)), release_db id row why t' d) in
  run (ReleaseBilling id reason now) (fine_env t) d = outcome reason /\
  (forall peer u bps, findQuote (rr_eligible_peers row) peer = None ->
     run (SettleBilling id peer u bps now) (fine_env t) d = outcome "unknown_peer"%string) /\
  (forall peer u bps q, findQuote (rr_eligible_peers row) peer = Some q ->
     Cost (InputTokens u) (CachedInputTokens u) (OutputTokens u)
       (q_InputPerMillion q) (q_CachedInputPerMillion q) (q_OutputPerMillion q) = Ok 0 ->
     run (SettleBilling id peer u bps now) (fine_env t) d = outcome "zero_price"%string).
Proof.
  intros HI Hrow Hst t' outcome.
  pose proof (open_reserved_le _ _ _ _ HI Hrow Hst) as Hres.
  assert (Hrel : forall why, fine_run t (releaseLocked (request_of_row id row) why t') d
    (Ok (released t' why (request_of_row id row))) (release_db id row why t' d)).
  { intros why. apply fr_release; try done; [by eapply Inv_rows_ok|by apply (core_open _ _ _ _ HI id)|].
    intros Hpos. unfold reserved_of in Hres. destruct (credits d !! _); [by eexists|lia]. }
  unfold ReleaseBilling, SettleBilling. rewrite !run_now_or. fold t'.
  split; [|split; [intros peer u bps Hq|intros peer u bps q Hq Hc]].
  all: rewrite ?run_now_or; apply run_with_tx; (eapply fe_bind; [by apply fr_scanRequest|]).
  all: unfold settleScanned; cbn [rq_State request_of_row rq_Quotes]; rewrite Hst; simpl.
  - eapply fe_bind; [apply Hrel|]. apply fe_commit.
  - rewrite Hq. eapply fe_bind; [apply Hrel|]. apply fe_commit.
  - rewrite Hq, Hc. eapply fe_bind; [apply fr_wrap, fr_lift|]. simpl.
    eapply fe_bind; [apply Hrel|]. apply fe_commit.
Qed.

(** ** Reservation *)
Definition reservable (a : string) (d : db) : Z :=
  let free := credit_of a d - reserved_of a d in
  if (0 <? allowance_sum a d) && (allowance_sum a d <? free) then allowance_sum a d else free.

Definition reserve_db (req : Reservation) (r : Z) (t : time) (d : db) : db :=
  let d1 := set_requests (<[rs_RequestID req := new_request_row req r t]> (requests d)) d in
  if r >? 0 then bump (rs_BuyerAccountID req) 0 r t d1 else ensured (rs_BuyerAccountID req) t d1.

Definition reservation_checked (req : Reservation) : bool :=
  negb (String.eqb (rs_RequestID req) "") && negb (String.eqb (rs_BuyerAccountID req) "") &&
  bool_decide (rs_Quotes req <> []) && bool_decide (checkReservationQuotes (rs_Quotes req) = None).

Lemma ensured_of a t d b :
  credit_of b (ensured a t d) = credit_of b d /\ reserved_of b (ensured a t d) = reserved_of b d /\
  requests (ensured a t d) = requests d /\ allowances (ensured a t d) = allowances d.
Proof.
  unfold ensured. destruct (credits d !! a) eqn:E; [done|]. unfold credit_of, reserved_of. simpl.
  destruct (decide (a = b)) as [->|Hne]; [rewrite lookup_insert_eq, E|rewrite lookup_insert_ne by done]; done.
Qed.

Lemma run_with_tx_pair {A} t fmt (m : store A) d (p : res A * db) :
  fine_end t m d d (fst p) (snd p) -> run (with_tx fmt m) (fine_env t) d = p.
Proof. destruct p. apply run_with_tx. Qed.

Lemma run_lift_ok {A B} fmt (r : res A) (k : A -> store B) e d a :
  r = Ok a -> run (bind (wrap fmt (lift r)) k) e d = run (k a) e d.
Proof. by intros ->. Qed.

Lemma fr_scan_int64 t (f : db -> Z) w :
  in_i64 (f w) -> fine_run t (scan_int64 (tx_stmt (query f))) w (Ok (f w)) w.
Proof.
  intros Hf. unfold scan_int64, query. eapply fr_bind; [apply fr_query|].
  rewrite bool_decide_true by done. apply fr_ret.
Qed.

(** C2: reservation: a well-formed request whose worst-case charge is [r] is
    refused for insufficient credit exactly when [r] exceeds what the account can
    reserve (its free credit, bounded by its active delegations when it has any),
    is refused as a conflict when its id is already used, and otherwise adds one
    open request and [r] to the account's reserved amount and changes nothing else;
    a refusal changes nothing. *)
Theorem ReserveBilling_outcome x req r t d :
  Inv x d -> reservation_checked req = true ->
  ReserveAmount (rs_Quotes req) (rs_InputCeil req) (rs_OutputCeil req) = Ok r ->
  in_i64 (allowance_sum (rs_BuyerAccountID req) d) ->
  let a := rs_BuyerAccountID req in
  run (ReserveBilling req) (fine_env t) d =
    if reservable a d <? r then (Err ErrInsufficientCredit, d)
    else match requests d !! rs_RequestID req with
    | Some _ => (Err ErrConflict, d)
    | None => (Ok (mkAccountCredit a (credit_of a d) (reserved_of a d + r) no_caps
                     (clock t (rs_ReservedAt req))),
               reserve_db req r (clock t (rs_ReservedAt req)) d)
    end.
Proof.
  intros HI Hck HA Hal a. pose proof (Inv_rows_ok _ _ HI) as Hok.
  destruct (rows_ok_default d a 0 Hok) as (_ & _ & _ & Hb & Hm).
  assert (Hr : 0 <= r) by (by apply reserveMax_ge in HA as [? _]).
  unfold reservation_checked in Hck. apply andb_prop in Hck as [Hck H4].
  apply andb_prop in Hck as [Hck H3]. apply andb_prop in Hck as [H1 H2].
  apply bool_decide_eq_true_1 in H3, H4. apply negb_true_iff in H1, H2.
  unfold ReserveBilling. rewrite H1, H2, H4, (bool_decide_false _ H3). simpl.
  rewrite (run_lift_ok _ _ _ _ _ _ HA), run_now_or. set (t' := clock t (rs_ReservedAt req)).
  destruct (ensured_of a t' d a) as (Hc & Hrv & Hrq & Hall).
  apply run_with_tx_pair. eapply fe_bind; [apply fr_wrap, fr_stmt, ensure_Ok|].
  eapply fe_bind.
  { apply fr_wrap, fr_scan, fr_stmt. unfold sql_lock_credit, query. fold a. by rewrite ensured_row. }
  cbn [fmap option_fmap option_map fst snd].
  destruct (rows_ok_default d a t' Hok) as (-> & -> & _). rewrite i64_id by (unfold_i64; lia).
  assert (Hsum : allowance_sum a (ensured a t' d) = allowance_sum a d)
    by (unfold allowance_sum; by rewrite Hall).
  eapply fe_bind; [apply fr_wrap; unfold sumActiveAllowances; apply fr_wrap, fr_scan_int64;
    fold a; by rewrite Hsum|].
  cbn beta. fold a. rewrite Hsum, Z.gtb_ltb. fold (reservable a d).
  assert (Hle : reservable a d <= credit_of a d - reserved_of a d).
  { unfold reservable. destruct ((0 <? _) && _) eqn:E; zb; lia. }
  destruct (reservable a d <? r) eqn:Hins; zb; [apply fe_fail|].
  set (d1 := ensured a t' d) in *.
  destruct (requests d !! rs_RequestID req) as [row|] eqn:Hrow.
  { eapply fe_attempt_fail; [unfold sql_insert_request; by rewrite Hrq, Hrow|reflexivity]. }
  set (v := <[rs_RequestID req := new_request_row req r t']> (requests d)).
  eapply fe_attempt with (w1 := set_requests v d1) (a := Ok tt).
  { apply fr_stmt. unfold sql_insert_request. rewrite Hrq, Hrow. unfold write_request. simpl.
    destruct (r <? 0) eqn:?; zb; [lia|]. unfold v. by rewrite Hrq. }
  assert (Hcomm : set_requests v d1 = ensured a t' (set_requests v d)).
  { unfold d1, ensured. simpl. by destruct (credits d !! a). }
  rewrite (i64_id (reserved_of a d + r)) by (unfold_i64; lia).
  unfold reserve_db. fold a v. rewrite Hcomm.
  eapply fe_bind; [|apply fe_commit]. destruct (r >? 0) eqn:Hpos; zb; [|apply fr_ret].
  apply fr_wrap, fr_stmt. apply update_Ok; [exact Hok|]. unfold bump_fits.
  change (reserved_of a (set_requests v d)) with (reserved_of a d).
  change (credit_of a (set_requests v d)) with (credit_of a d). lia.
Qed.
