(* ===== verification/StoreSpec.v ===== *)
(** * What the billing store guarantees

    The theorems about whole histories: every state a sequence of store methods
    can leave, under any pattern of lost round trips. *)
From Stdlib Require Import ZArith Lia Relations Sorted.
From stdpp Require Import base gmap strings list fin_maps sorting.
From S2P Require Import Prelude Billing Tx Schema BillingStore Projection WithdrawalStore WithdrawalInv DepositStore DepositInv AllowanceStore SettlementStore SettlementInv Reachable BillingSpec.

Open Scope Z_scope.
Open Scope tx_scope.

(** ** Charges move credit, they never create or destroy it *)
Definition total_credit (d : db) : Z := map_sum cr_credit_raw (credits d).

Lemma Cost_range reg cached out inR cR outR c :
  Cost reg cached out inR cR outR = Ok c -> nonneg64 c.
Proof.
  unfold Cost. destruct (_ || _); [done|]. destruct (_ || _); [done|].
  intros (p1 & _ & (p2 & _ & (p3 & _ & (s1 & _ & (s & Hs & Hc)%res_bind_Ok)%res_bind_Ok)%res_bind_Ok)%res_bind_Ok)%res_bind_Ok.
  unfold nonneg64. destruct (s =? 0); [injection Hc as <-; unfold_i64; lia|].
  unfold ceilDiv, Million in Hc. destruct (_ <=? 0); [done|]. destruct (s <? 0) eqn:Hs0; [done|].
  apply res_bind_Ok in Hc as (r & Hr & [= <-]). unfold checkedAdd in Hr.
  destruct (_ || _); [done|]. destruct (_ <? s) eqn:Hlt; [done|]. injection Hr as <-. zb.
  pose proof (i64_range (s + i64 (1000000 - 1))) as Hrange. unfold in_i64 in Hrange.
  rewrite Z.quot_div_nonneg by lia.
  pose proof (Z.div_pos (i64 (s + i64 (1000000 - 1))) 1000000 ltac:(lia) ltac:(lia)).
  pose proof (Z.div_le_upper_bound (i64 (s + i64 (1000000 - 1))) 1000000
    (i64 (s + i64 (1000000 - 1))) ltac:(lia) ltac:(nia)).
  unfold maxI64. lia.
Qed.

Section Conserve.
Context (T : Z).
Definition Total (n : Z) (d : db) : Prop := total_credit d = n.
Let I : db -> Prop := Total T.

Lemma total_write a r d d' :
  write_credit a r d = Ok d' ->
  total_credit d' = total_credit d + cr_credit_raw r - credit_of a d.
Proof.
  intros (-> & _)%write_credit_Ok. unfold total_credit, credit_of. simpl.
  destruct (credits d !! a) as [r0|] eqn:E.
  - rewrite (map_sum_insert _ _ _ r0) by done. lia.
  - rewrite map_sum_insert_new by done. lia.
Qed.

Lemma total_ensure n a t d u d' :
  Total n d -> sql_ensure_credit a t d = Ok (u, d') -> Total n d' /\ is_Some (credits d' !! a).
Proof.
  unfold Total, sql_ensure_credit. intros HT. destruct (credits d !! a) eqn:E.
  - intros [= _ <-]. by rewrite E.
  - intros (d1 & H & [= _ <-])%res_bind_Ok. rewrite (total_write _ _ _ _ H).
    unfold credit_of. rewrite E. simpl. split; [lia|].
    apply write_credit_Ok in H as [-> _]. simpl. rewrite lookup_insert_eq. by eexists.
Qed.

Lemma total_update n a c r t d u d' :
  Total n d -> sql_update_credit a (add_credit c r t) d = Ok (u, d') ->
  (c = 0 \/ is_Some (credits d !! a)) -> Total (n + c) d'.
Proof.
  unfold Total, sql_update_credit. intros HT. destruct (credits d !! a) as [row|] eqn:E.
  - intros (d1 & H & [= _ <-])%res_bind_Ok _. rewrite (total_write _ _ _ _ H).
    unfold credit_of. rewrite E. simpl. lia.
  - intros [= _ <-] [->|[? ?]]; [lia|done].
Qed.

Lemma tt_applyDelta n a c r t :
  triple I (Total n) (applyDelta a c r t) (post (fun _ => Total (n + c))).
Proof.
  unfold applyDelta.
  eapply tbind with (R := fun _ d => Total n d /\ is_Some (credits d !! a)).
  { apply twrap, tstmt. intros w u w'. apply total_ensure. }
  intros ?. eapply tbind with (R := fun _ d => Total n d /\ is_Some (credits d !! a)).
  { apply twrap, tscan. unfold sql_lock_credit, query. apply tquery. auto. }
  intros cr. eapply tbind with (R := fun _ => Total (n + c)); [|intros ?; by apply tret].
  apply twrap, tstmt. intros w u w' [H1 H2] Hs. by eapply total_update; eauto.
Qed.

Lemma tt_other {A} n (s : stmt db A) :
  (forall d a d', s d = Ok (a, d') -> credits d' = credits d) ->
  triple I (Total n) (tx_stmt s) (post (fun _ => Total n)).
Proof.
  intros Hs. apply tstmt. intros w a w' HT H. unfold Total, total_credit in *. by rewrite (Hs _ _ _ H).
Qed.

Lemma tt_update_request n id f :
  triple I (Total n) (tx_stmt (sql_update_request id f)) (post (fun _ => Total n)).
Proof. apply tt_other. intros d u d' [->|[v ->]]%eff_update_request; done. Qed.

Lemma tt_insert_leg n x y row :
  triple I (Total n) (insert_leg x y row) (post (fun _ => Total n)).
Proof.
  unfold insert_leg. eapply tattempt with (R := fun _ => Total n).
  - intros w u w' HT [-> _]%eff_insert_ledger. exact HT.
  - intros ?. by apply tret.
  - intros ?. destruct (isUniqueViolation _); apply tfail.
Qed.

Lemma tt_release n r reason t :
  triple I (Total n) (releaseLocked r reason t) (post (fun _ => Total n)).
Proof.
  unfold releaseLocked. eapply tbind with (R := fun _ => Total n).
  { apply tif; intros _; [|by apply tret]. apply twrap, tstmt. intros w u w' HT H.
    replace n with (n + 0) by lia. eapply total_update; eauto. }
  intros ?. eapply tbind with (R := fun _ => Total n); [apply twrap, tt_update_request|].
  intros ?. by apply tret.
Qed.

Lemma tt_commit {A} fmt (a : A) :
  triple I I (bind (wrap fmt commit) (fun _ => ret a)) (post (fun _ _ => True)).
Proof. eapply tbind; [by apply tcommit|]. intros ?. by apply tret. Qed.

Lemma tt_settleScanned r peer u feeBps t :
  triple I I (settleScanned r peer u feeBps t) (post (fun _ _ => True)).
Proof.
  unfold settleScanned. apply tif; intros _; [by apply tret|].
  destruct (findQuote _ _) as [q|].
  2:{ eapply tbind; [apply tt_release|]. intros ?. apply tt_commit. }
  eapply tbind with (R := fun c d => nonneg64 c /\ I d).
  { apply twrap, tlift. intros c w Hc HI. split; [by eapply Cost_range|done]. }
  intros c. apply tpure; [tame|]. intros Hc. apply tif; intros _.
  { eapply tbind; [apply tt_release|]. intros ?. apply tt_commit. }
  eapply tbind with (R := fun fs d => fst fs + snd fs = c /\ 0 <= fst fs /\ I d).
  { apply twrap, tlift. intros [f s] w HF HI. simpl. destruct (Fee_sum _ _ _ _ Hc HF). tauto. }
  intros [f s]. simpl. apply tpure; [tame|]. intros Hsum. apply tpure; [tame|]. intros Hf.
  eapply tbind; [apply twrap, tt_applyDelta|]. intros ?.
  eapply tbind; [apply twrap, tt_applyDelta|]. intros ?.
  eapply tbind with (R := fun _ => I).
  { apply tif; intros Hpos; zb.
    - eapply tbind; [apply twrap, tt_applyDelta|]. intros ?. apply tret. intros w.
      by replace (T + - c + s + f) with T by lia.
    - apply tret. intros w. by replace (T + - c + s) with T by lia. }
  intros ?. eapply tbind; [apply tt_insert_leg|]. intros ?.
  eapply tbind; [apply tt_insert_leg|]. intros ?.
  eapply tbind with (R := fun _ => I); [apply tif; intros _; [apply tt_insert_leg|by apply tret]|].
  intros ?. eapply tbind; [apply twrap, tt_update_request|]. intros ?. apply tt_commit.
Qed.

Lemma settle_total id peer u feeBps now :
  Preserves I (SettleBilling id peer u feeBps now).
Proof.
  unfold SettleBilling. apply preserves_bind; [unfold now_or; destruct (IsZero _); auto with otela|].
  intros t. apply tbody. eapply tbind with (R := fun _ => I); [|intros ?; apply tt_settleScanned].
  unfold scanBillingRequest, in_tx, sql_select_request, query.
  eapply tattempt_scan with (R := fun _ => I); [auto|intros ?; by apply tret|].
  intros ?. destruct (errors_is _ _); apply tfail.
Qed.
End Conserve.

(** a settlement moves credit between the buyer, the seller and the treasury
    without creating or destroying any: whatever the request, the usage and the
    fee, and wherever the connection is lost, the total credit of all accounts
    is the same before and after [SettleBilling]. *)
Theorem SettleBilling_conserves e id peer u feeBps now d :
  total_credit (snd (run (SettleBilling id peer u feeBps now) e d)) = total_credit d.
Proof. apply (preserves_run (Total (total_credit d))); [apply settle_total|reflexivity]. Qed.

(** ** Histories *)

(** Histories in which the delegation mirror never runs. *)
Definition step_prepaid (d d' : db) : Prop :=
  exists o e, is_allowance o = false /\ d' = snd (run (exec_op o) e d).
Definition ReachablePrepaid (d : db) : Prop := rtc step_prepaid empty_db d.

Lemma prepaid_reachable d : ReachablePrepaid d -> Reachable d.
Proof.
  unfold ReachablePrepaid, Reachable. intros H. eapply rtc_subrel; [|exact H].
  intros x y (o & e & _ & ->). by exists o, e.
Qed.

(** Everything but the mirror keeps the credit the exact sum of the ledger. *)
Lemma Inv_op x o d0 d e :
  is_allowance o = false -> Good d0 d -> Inv x d -> Inv x (snd (run (exec_op o) e d)).
Proof.
  intros Ho HG HI. destruct HG as [_ HW HWL HD HDL _].
  pose proof (mv_settlements same_billing o) as Hs. pose proof (mv_sheets same_billing o) as Hsh.
  destruct o; try discriminate; cbn [exec_op] in *;
    try (eapply Core_frame; [by apply (moves_run same_billing)|exact HI]).
  all: try (apply (preserves_run (Inv x)); [|done]; try apply discard_preserves;
    solve [eauto using ensure_preserves, caps_preserves, reserve_preserves, settle_preserves,
      release_preserves, sweep_preserves, reconcile_preserves, asks_preserves, cursor_preserves]).
  all: try (eapply (preserves_run (WState x d0)); [apply discard_preserves;
    solve [eauto using reserve_w, signed_w, broadcast_w, finalize_w, restore_w, fail_w, due_w]
    |split; [exact HI|done]]).
  all: eapply (preserves_run (DState x d0)); [apply discard_preserves;
    solve [eauto using insert_d, apply_d, reconcile_d]|split; [exact HI|done]].
Qed.

Lemma prepaid_Inv d : ReachablePrepaid d -> Inv zero d.
Proof.
  intros H.
  assert (Hgen : forall d1 d2, rtc step_prepaid d1 d2 -> Good empty_db d1 -> Inv zero d1 -> Inv zero d2).
  { induction 1 as [|d1 d2 d3 (o & e & Ho & ->) _ IH]; intros HG HI; [done|].
    apply IH; [by apply Good_op|by eapply Inv_op]. }
  eapply Hgen; [exact H|exact Good_empty|apply empty_db_Inv].
Qed.

(** A history without failures, for concrete states. *)
Definition play (l : list (op * time)) (d : db) : db :=
  foldl (fun d ot => snd (run (exec_op (fst ot)) (fine_env (snd ot)) d)) d l.

Lemma play_steps l d : rtc step d (play l d).
Proof.
  revert d. induction l as [|[o t] l IH]; intros d; [reflexivity|]. simpl.
  eapply rtc_l; [|apply IH]. by exists o, (fine_env t).
Qed.

Lemma play_prepaid l :
  forallb (fun ot => negb (is_allowance (fst ot))) l = true -> ReachablePrepaid (play l empty_db).
Proof.
  unfold ReachablePrepaid. generalize empty_db. induction l as [|[o t] l IH]; intros d Hl; [reflexivity|].
  simpl in *. apply andb_prop in Hl as [Ho Hl]. eapply rtc_l; [|by apply IH].
  exists o, (fine_env t). split; [|done]. by destruct (is_allowance o).
Qed.

(** C8: the account invariant: in every state the store can reach, whatever was
    lost on the way, every account has 0 <= reserved <= credit (and the credit
    fits), its reserved amount is exactly the sum of its open reservations, and
    every request holds a non-negative reservation. *)
Theorem Reachable_balances d :
  Reachable d ->
  (forall a, 0 <= reserved_of a d <= credit_of a d /\ credit_of a d <= maxI64) /\
  (forall a, reserved_of a d = open_sum a d) /\
  (forall id r, requests d !! id = Some r -> 0 <= rr_reserved_raw r).
Proof.
  intros HR. destruct (good_projection _ _ (Reachable_Good d HR)) as [x HI].
  pose proof (Inv_rows_ok _ _ HI) as Hok. split; [|split].
  - intros a. destruct (rows_ok_default d a 0 Hok) as (_ & _ & _ & H1 & H2). done.
  - intros a. rewrite (core_reserved _ _ _ _ HI). unfold zero. lia.
  - intros id r Hr. by apply (core_open _ _ _ _ HI id).
Qed.

(** ** Reconciliation *)
Definition reconciled (a : string) (d : db) : Reconciliation :=
  match credits d !! a with
  | None => mkReconciliation a 0 0 0 0 0 0 0 0 true
  | Some r => mkReconciliation a (cr_credit_raw r) (cr_reserved_raw r) (ledger_sum a d) (open_sum a d)
      (ledger_count a d) (open_count a d) (i64 (cr_credit_raw r - ledger_sum a d))
      (i64 (cr_reserved_raw r - open_sum a d))
      ((cr_credit_raw r >=? 0) && (cr_reserved_raw r >=? 0) && (cr_reserved_raw r <=? cr_credit_raw r))
  end.

Lemma ReconcileAccount_eq a t d :
  in_i64 (ledger_sum a d) -> in_i64 (open_sum a d) ->
  run (ReconcileAccount a) (fine_env t) d = (Ok (reconciled a d), d).
Proof.
  intros H1 H2. unfold ReconcileAccount, reconciled. apply run_with_tx.
  destruct (credits d !! a) as [r|] eqn:E.
  - eapply fe_attempt.
    { apply fr_scan, fr_stmt. unfold sql_lock_credit, query. by rewrite E. }
    simpl. eapply fe_bind.
    { apply fr_wrap. eapply fr_bind; [by apply fr_scan_int64|]. eapply fr_bind; [apply fr_query|apply fr_ret]. }
    eapply fe_bind.
    { apply fr_wrap. eapply fr_bind; [by apply fr_scan_int64|]. eapply fr_bind; [apply fr_query|apply fr_ret]. }
    apply fe_commit.
  - eapply fe_attempt.
    { apply fr_scan_none, fr_stmt. unfold sql_lock_credit, query. by rewrite E. }
    simpl. apply fe_commit.
Qed.

(** C10: reconciliation never reports drift on a prepaid store: after any history
    of store methods without a delegation mirror, with any pattern of lost round
    trips, [ReconcileAccount] succeeds, leaves the store unchanged, finds the
    expected credit and reservations equal to the stored ones and the account
    invariant held. *)
Theorem ReconcileAccount_clean a t d :
  ReachablePrepaid d ->
  run (ReconcileAccount a) (fine_env t) d = (Ok (reconciled a d), d) /\
  rc_CreditRaw (reconciled a d) = credit_of a d /\
  rc_ExpectedCredit (reconciled a d) = credit_of a d /\
  rc_ExpectedReserved (reconciled a d) = rc_ReservedRaw (reconciled a d) /\
  rc_DriftCredit (reconciled a d) = 0 /\ rc_DriftReserved (reconciled a d) = 0 /\
  rc_InvariantHeld (reconciled a d) = true.
Proof.
  intros HP. pose proof (prepaid_Inv d HP) as HI. pose proof (Inv_rows_ok _ _ HI) as Hok.
  destruct (rows_ok_default d a 0 Hok) as (Hcr & Hrr & _ & Hb & Hm).
  pose proof (core_credit _ _ _ _ HI a) as Hc. pose proof (core_reserved _ _ _ _ HI a) as Hr.
  unfold zero in Hc, Hr. rewrite Z.add_0_r in Hc, Hr.
  split; [apply ReconcileAccount_eq; unfold_i64; lia|].
  unfold reconciled. unfold credit_of, reserved_of in *.
  destruct (credits d !! a) as [r|]; simpl in *; [|done].
  rewrite <- Hc, <- Hr, !Z.sub_diag. repeat split.
  destruct (cr_credit_raw r >=? 0) eqn:?, (cr_reserved_raw r >=? 0) eqn:?,
    (cr_reserved_raw r <=? cr_credit_raw r) eqn:?; zb; done || lia.
Qed.

(** ** The ledger *)

(** the ledger is append-only: along every history its rows are never
    changed, reordered or removed, ids strictly increase, and a non-NULL
    reference carries each leg at most once, so a charge, a deposit, a withdrawal
    or an observation is booked at most once per leg. *)
Theorem ledger_append_only d d' :
  Reachable d -> rtc step d d' ->
  ledger d `prefix_of` ledger d' /\
  StronglySorted (fun r s => lg_id r < lg_id s) (ledger d') /\
  (forall i j r s, ledger d' !! i = Some r -> ledger d' !! j = Some s ->
     is_Some (lg_ref r) -> lg_ref r = lg_ref s -> lg_leg r = lg_leg s -> i = j).
Proof.
  intros HR Hs. assert (HR' : Reachable d') by (unfold Reachable in *; by etrans).
  pose proof (Reachable_Good _ HR') as HG. destruct (good_projection _ _ HG) as [x HI].
  split; [by apply steps_grow|]. split; [by apply (core_sorted _ _ _ _ HI)|]. by apply HG.
Qed.

(** ** Withdrawals *)

(** C11: a withdrawal moves its amount exactly once: in every reachable state the
    ledger holds its [withdraw] debit of exactly the amount, and a [restore] credit
    of exactly the amount if it is restored and of nothing otherwise (finalized and
    failed withdrawals stay debited); an id that names no withdrawal has no legs. *)
Theorem withdrawal_booked_once d id :
  Reachable d ->
  match withdrawals d !! id with
  | Some r => 0 < wr_amount_raw r /\
      leg_sum (WithdrawalRef id) "withdraw" d = - wr_amount_raw r /\
      leg_sum (WithdrawalRef id) "restore" d =
        (if bool_decide (wr_state r = WithdrawalRestored) then wr_amount_raw r else 0)
  | None => leg_sum (WithdrawalRef id) "withdraw" d = 0 /\ leg_sum (WithdrawalRef id) "restore" d = 0
  end.
Proof.
  intros HR. destruct (good_withdrawals _ _ (Reachable_Good d HR)) as [_ Hrows Hw Hre].
  specialize (Hw id). specialize (Hre id). unfold zeroz, exp_withdraw, exp_restore in *.
  destruct (withdrawals d !! id) as [r|] eqn:E; [|lia].
  destruct (Hrows id r E) as [_ ?]. split; [done|]. lia.
Qed.

(** C18: the withdrawal state machine: along every history a withdrawal persists
    with its owner, idempotency key, destination and amount, its state moves only
    along reserved -> signed -> broadcast -> finalized with restored and failed
    reachable from the open states, and finalized, restored and failed are final: a
    failed withdrawal is never restored, although the comment on [FailWithdrawal] says
    that its credit comes back later ([failed_never_restored]). *)
Theorem withdrawal_lifecycle d d' id r :
  Reachable d -> rtc step d d' -> withdrawals d !! id = Some r ->
  exists r', withdrawals d' !! id = Some r' /\ evolves r r' /\
    (open_state (wr_state r) = false -> wr_state r' = wr_state r).
Proof.
  intros HR Hs Hr.
  pose proof (Good_steps d d d' (Good_here _ _ (Reachable_Good d HR)) Hs) as HG.
  destruct (good_wlife _ _ HG id r Hr) as (r' & Hr' & Hev). exists r'.
  split; [done|]. split; [done|]. intros Ho. apply rtc_wstep_terminal; [done|apply Hev].
Qed.

(** the debit of a failed withdrawal stands: in every later state the withdrawal is
    failed and the ledger holds no credit for it, so neither the expiry sweep nor an
    operator's [RestoreWithdrawal] gives it back. *)
Theorem failed_never_restored d d' id r :
  Reachable d -> rtc step d d' -> withdrawals d !! id = Some r -> wr_state r = WithdrawalFailed ->
  (exists r', withdrawals d' !! id = Some r' /\ wr_state r' = WithdrawalFailed) /\
  leg_sum (WithdrawalRef id) "withdraw" d' = - wr_amount_raw r /\ leg_sum (WithdrawalRef id) "restore" d' = 0.
Proof.
  intros HR Hs Hr Hf. assert (HR' : Reachable d') by (unfold Reachable in *; by etrans).
  pose proof (Good_here _ _ (Reachable_Good d' HR')) as HG'.
  destruct (good_wlife _ _ (Good_steps d d d' (Good_here _ _ (Reachable_Good d HR)) Hs) id r Hr) as (r' & Hr' & Hev).
  assert (Hst : wr_state r' = WithdrawalFailed).
  { rewrite <- Hf. apply rtc_wstep_terminal; [by rewrite Hf|apply Hev]. }
  destruct (good_withdrawals _ _ HG') as [_ _ Hw Hre]. specialize (Hw id). specialize (Hre id).
  unfold zeroz, exp_withdraw, exp_restore in *. rewrite Hr', Hst in *. split; [by exists r'|].
  assert (wr_amount_raw r' = wr_amount_raw r) by apply Hev. simpl in *. lia.
Qed.

(** ** Deposits *)

(** C12: a deposit is credited exactly once, to one account: in every reachable
    state the [deposit] legs of an event sum to its amount on the account it is
    assigned to and to nothing on every other account (or while unassigned), and an
    assigned event keeps its account and amount in every later state. *)
Theorem deposit_credited_once d d' k ev a :
  Reachable d -> rtc step d d' -> deposits d !! k = Some ev ->
  leg_sum_at a (depositRef (fst k) (snd k)) "deposit" d = credited_to a ev /\
  exists ev', deposits d' !! k = Some ev' /\ de_AmountRaw ev' = de_AmountRaw ev /\
    (de_AssignmentState ev <> Unassigned ->
     ev' = ev /\ leg_sum_at a (depositRef (fst k) (snd k)) "deposit" d' = credited_to a ev).
Proof.
  intros HR Hs Hk. pose proof (Reachable_Good d HR) as HG.
  pose proof (Good_steps d d d' (Good_here _ _ HG) Hs) as HG'.
  assert (Hsum : forall d0 e ev, DInv zerok e -> deposits e !! k = Some ev ->
    d0 = e -> leg_sum_at a (depositRef (fst k) (snd k)) "deposit" d0 = credited_to a ev).
  { intros d0 e ev0 [_ HD] He ->. rewrite HD. unfold exp_deposit, zerok. rewrite He. lia. }
  split; [eapply Hsum; [apply HG|exact Hk|done]|].
  destruct (good_dlife _ _ HG' k ev Hk) as (ev' & Hk' & _ & Ha & Hfin). exists ev'.
  split; [done|]. split; [done|]. intros Hst. rewrite <- (Hfin Hst). split; [done|].
  eapply Hsum; [apply HG'|exact Hk'|done].
Qed.

(** ** A concrete history *)
Definition demo_quote : EligiblePeerQuote := mkQuote "peer1" "seller" "ownerW" 7 1000000 500000 2000000.
Definition demo_reservation (id : string) : Reservation :=
  mkReservation id "buyer" "llm" "m" no_caps [demo_quote] 100 50 zeroTime.
Definition demo_usage : Usage := mkUsage 60 30 20.
Definition demo_deposit : DepositEvent :=
  mkDeposit "sig1" 0 9 "wallet1" 5000 None Unassigned None 0.

(** A deposit, a settled request, an open one, two withdrawals, one restored. *)
Definition demo_ops : list (op * time) := [
  (OpDeposit demo_deposit, 10); (OpApply "sig1" 0 "buyer" zeroTime, 11);
  (OpReserve (demo_reservation "r1"), 12); (OpSettle "r1" "peer1" demo_usage 250 zeroTime, 13);
  (OpReserve (demo_reservation "r2"), 14);
  (OpWithdraw (mkWithdrawalRequest "buyer" "k1" "dest" 1000) zeroTime, 15);
  (OpSigned 1 "wire" "sigW" "hash" 77 zeroTime zeroTime, 16); (OpBroadcast 1 zeroTime, 17); (OpFinalize 1 zeroTime, 18);
  (OpWithdraw (mkWithdrawalRequest "buyer" "k2" "dest" 500) zeroTime, 19);
  (OpRestore 2 "expired" zeroTime, 20) ]%string.
Definition demo_db : db := play demo_ops empty_db.

Lemma demo_prepaid : ReachablePrepaid demo_db.
Proof. apply play_prepaid. reflexivity. Qed.
Lemma demo_reachable : Reachable demo_db.
Proof. apply prepaid_reachable, demo_prepaid. Qed.

Example demo_balances :
  (credit_of "buyer" demo_db, reserved_of "buyer" demo_db, credit_of "seller" demo_db,
   credit_of TreasuryAccountID demo_db) = (3885, 200, 113, 2).
Proof. vm_compute. reflexivity. Qed.

Lemma demo_Inv : Inv zero demo_db.
Proof. apply prepaid_Inv, demo_prepaid. Qed.

Definition demo_row : RequestRow := new_request_row (demo_reservation "r2") 200 14.

Lemma demo_r2 : requests demo_db !! "r2"%string = Some demo_row.
Proof. vm_compute. reflexivity. Qed.

Lemma room_of d c : bool_decide (map_Forall (fun _ r => cr_credit_raw r + c <= maxI64) (credits d)) = true ->
  c <= maxI64 -> forall a, credit_of a d + c <= maxI64.
Proof.
  intros H%bool_decide_eq_true_1 Hc a. unfold credit_of. destruct (credits d !! a) as [r|] eqn:E; [by apply (H a)|lia].
Qed.

Lemma Reachable_balances_witness : reserved_of "buyer" demo_db = 200 /\ open_sum "buyer" demo_db = 200.
Proof.
  destruct (Reachable_balances demo_db demo_reachable) as (_ & H & _).
  rewrite <- (H "buyer"%string). split; vm_compute; reflexivity.
Defined.

Lemma ReconcileAccount_clean_witness : rc_DriftCredit (reconciled "buyer" demo_db) = 0.
Proof. apply (ReconcileAccount_clean "buyer" 30 demo_db demo_prepaid). Defined.

Lemma ledger_append_only_witness :
  ledger demo_db `prefix_of` ledger (play [(OpRelease "r2" "done" zeroTime, 40)] demo_db).
Proof.
  apply (ledger_append_only demo_db (play [(OpRelease "r2" "done" zeroTime, 40)] demo_db) demo_reachable).
  apply play_steps.
Defined.

Lemma withdrawal_booked_once_witness :
  leg_sum (WithdrawalRef 1) "withdraw" demo_db = -1000 /\ leg_sum (WithdrawalRef 2) "restore" demo_db = 500.
Proof.
  pose proof (withdrawal_booked_once demo_db 1 demo_reachable) as H1.
  pose proof (withdrawal_booked_once demo_db 2 demo_reachable) as H2.
  vm_compute in H1, H2. split; vm_compute; [apply H1|apply H2].
Defined.

Lemma withdrawal_lifecycle_witness :
  exists r', withdrawals (play [(OpFail 1 "late" zeroTime, 40)] demo_db) !! 1 = Some r' /\
    wr_state r' = WithdrawalFinalized.
Proof.
  destruct (withdrawals demo_db !! 1) as [r|] eqn:E; [|vm_compute in E; discriminate].
  destruct (withdrawal_lifecycle demo_db (play [(OpFail 1 "late" zeroTime, 40)] demo_db) 1 r
    demo_reachable (play_steps _ _) E) as (r' & Hr' & _ & Hs).
  exists r'. split; [exact Hr'|]. vm_compute in E. injection E as <-. apply Hs. reflexivity.
Defined.

Lemma deposit_credited_once_witness :
  leg_sum_at "buyer" (depositRef "sig1" 0) "deposit" demo_db = 5000.
Proof.
  destruct (deposits demo_db !! ("sig1"%string, 0)) as [ev|] eqn:E; [|vm_compute in E; discriminate].
  destruct (deposit_credited_once demo_db demo_db ("sig1"%string, 0) ev "buyer" demo_reachable
    (rtc_refl _ _) E) as [H _].
  simpl in H. rewrite H. vm_compute in E. injection E as <-. reflexivity.
Defined.

Lemma SettleBilling_charges_witness :
  run (SettleBilling "r2" "peer1" demo_usage 250 zeroTime) (fine_env 50) demo_db =
    (Ok (settled demo_quote demo_usage 115 2 113 50 (request_of_row "r2" demo_row)),
     settle_db "r2" demo_row demo_quote demo_usage 115 2 113 50 demo_db).
Proof.
  apply (SettleBilling_charges zero demo_db "r2" "peer1" demo_row demo_usage 250 demo_quote
           115 2 113 50 zeroTime). split; [exact demo_Inv|exact demo_r2|reflexivity..| | | |].
  - split; [reflexivity|discriminate].
  - reflexivity.
  - apply room_of; [vm_compute; reflexivity|unfold_i64; lia].
  - unfold in_i32. simpl. lia.
Defined.

Lemma settle_release_idempotent_witness :
  snd (run (ReleaseBilling "r1" "late" zeroTime) (fine_env 60) demo_db) = demo_db.
Proof.
  pose proof (settle_release_idempotent "r1" "peer1" demo_usage 250 "late" 60 zeroTime demo_db) as H.
  destruct (requests demo_db !! "r1"%string) as [row|] eqn:E; [|vm_compute in E; discriminate].
  assert (Hc : closed (rr_state row) = true) by (vm_compute in E; injection E as <-; reflexivity).
  destruct (H Hc) as [_ ->]. reflexivity.
Defined.

Lemma release_frees_reservation_witness :
  reserved_of "buyer" (snd (run (ReleaseBilling "r2" "late" zeroTime) (fine_env 60) demo_db)) = 0.
Proof.
  destruct (release_frees_reservation zero demo_db "r2" demo_row "late" 60 zeroTime demo_Inv demo_r2
    eq_refl) as [-> _].
  vm_compute. reflexivity.
Defined.

Lemma ReserveBilling_outcome_witness :
  run (ReserveBilling (demo_reservation "r2")) (fine_env 60) demo_db = (Err ErrConflict, demo_db).
Proof.
  pose proof (ReserveBilling_outcome zero (demo_reservation "r2") 200 60 demo_db demo_Inv
    eq_refl eq_refl) as H.
  assert (Ha : allowance_sum "buyer" demo_db = 0) by (vm_compute; reflexivity).
  assert (Hr : reservable "buyer" demo_db = 3685) by (vm_compute; reflexivity).
  change (rs_BuyerAccountID (demo_reservation "r2")) with "buyer"%string in H.
  change (rs_RequestID (demo_reservation "r2")) with "r2"%string in H.
  rewrite Ha in H. cbv zeta in H. rewrite Hr, demo_r2 in H. apply H. unfold_i64. lia.
Defined.
