(* ===== verification/SettlementSpec.v ===== *)
(** * What delegation settlement guarantees

    The registry of allowances backs the batches in flight: no method but the
    allowance mirror ever raises an allowance plus the batches drawn on it. *)
From Stdlib Require Import ZArith Lia Relations.
From stdpp Require Import base gmap strings list fin_maps sorting pretty.
From S2P Require Import Prelude Sha256 Base58 Solana Billing Tx Schema BillingStore Projection WithdrawalStore WithdrawalInv AllowanceStore SettlementStore SettlementInv Reachable StoreSpec.

Open Scope Z_scope.
Open Scope tx_scope.

(** ** Exposure of an allowance *)
Definition of_pair (a del : string) (buyer delegate : string) : bool :=
  String.eqb buyer a && String.eqb delegate del.

(** The batches of a pair that may still move tokens. *)
Definition in_flight (a del : string) (d : db) : Z :=
  map_sum (fun r => if of_pair a del (sr_buyer_account r) (sr_delegate r) && open_settlement (sr_state r)
                    then sr_amount_raw r else 0) (settlements d).

Definition allowance_of (a del : string) (d : db) : Z :=
  match allowances d !! (a, del) with Some x => AllowanceRaw x | None => 0 end.

Definition exposure (a del : string) (d : db) : Z := allowance_of a del d + in_flight a del d.

(** ** Planning nets the legs exactly *)
Definition batch_sum (bs : list settlementBatch) : Z := list_sum_by sb_Amount bs.
Definition batch_weight (bs : list settlementBatch) : Z := list_sum_by (fun b => Z.abs (sb_Amount b)) bs.
Definition plans_weight (plans : list (string * buyerPlan)) : Z :=
  list_sum_by (fun p => batch_weight (bp_batches (snd p))) plans.

Lemma list_sum_by_cons {A} (f : A -> Z) x l : list_sum_by f (x :: l) = f x + list_sum_by f l.
Proof. reflexivity. Qed.
#[local] Arguments list_sum_by : simpl never.

(** A plan's total is the sum of its batches, which are all the buyer's. *)
Definition plan_ok (p : string * buyerPlan) : Prop :=
  bp_total (snd p) = batch_sum (bp_batches (snd p)) /\
  Forall (fun b => sb_Buyer b = fst p) (bp_batches (snd p)).

Lemma batch_weight_nonneg bs : 0 <= batch_weight bs.
Proof. apply list_sum_by_nonneg. lia. Qed.
Lemma plans_weight_nonneg plans : 0 <= plans_weight plans.
Proof. apply list_sum_by_nonneg. intros. apply batch_weight_nonneg. Qed.
Lemma batch_sum_weight bs : Z.abs (batch_sum bs) <= batch_weight bs.
Proof.
  unfold batch_sum, batch_weight. induction bs as [|b bs IH]; [done|]. rewrite !list_sum_by_cons. lia.
Qed.

Lemma netBatches_sum new bs :
  batch_weight bs + Z.abs (sb_Amount new) <= maxI64 ->
  batch_sum (netBatches new bs) = batch_sum bs + sb_Amount new /\
  batch_weight (netBatches new bs) <= batch_weight bs + Z.abs (sb_Amount new).
Proof.
  unfold batch_sum, batch_weight. induction bs as [|b bs IH]; simpl.
  { rewrite !list_sum_by_cons. simpl. lia. }
  rewrite !list_sum_by_cons. intros Hb.
  pose proof (batch_weight_nonneg bs) as Hw. unfold batch_weight in Hw.
  destruct (_ && _); rewrite !list_sum_by_cons; simpl.
  - rewrite i64_id by (unfold_i64; lia). lia.
  - destruct IH as [-> ?]; lia.
Qed.

Lemma netBatches_buyer buyer new bs :
  sb_Buyer new = buyer -> Forall (fun b => sb_Buyer b = buyer) bs ->
  Forall (fun b => sb_Buyer b = buyer) (netBatches new bs).
Proof.
  intros Hn. induction 1 as [|b bs Hb HF IH]; simpl; [by repeat constructor|].
  destruct (_ && _); by constructor.
Qed.

Lemma addPlan_ok buyer f plans :
  (forall pl, plan_ok (buyer, pl) -> (plans_weight plans - batch_weight (bp_batches pl) >= 0 \/ pl = emptyPlan) ->
     plan_ok (buyer, f pl)) ->
  Forall plan_ok plans -> Forall plan_ok (addPlan buyer f plans).
Proof.
  intros Hf HF. induction HF as [|[b pl] plans Hp HF IH]; simpl.
  - constructor; [|done]. apply Hf; [by split|by right].
  - destruct (String.eqb b buyer) eqn:E; zb.
    + subst. constructor; [|done]. apply Hf; [done|]. left. unfold plans_weight. rewrite list_sum_by_cons.
      pose proof (plans_weight_nonneg plans). unfold plans_weight in *. simpl. lia.
    + constructor; [done|]. apply IH. intros pl' Hp' [Hw|Hw]; apply Hf; auto. left.
      unfold plans_weight in *. rewrite list_sum_by_cons. simpl.
      pose proof (batch_weight_nonneg (bp_batches pl)). lia.
Qed.

Lemma addPlan_weight buyer f plans c :
  0 <= c -> (forall pl, (plans_weight plans - batch_weight (bp_batches pl) >= 0 \/ pl = emptyPlan) ->
    batch_weight (bp_batches (f pl)) <= batch_weight (bp_batches pl) + c) ->
  plans_weight (addPlan buyer f plans) <= plans_weight plans + c.
Proof.
  intros Hc Hf. unfold plans_weight in *. induction plans as [|[b pl] plans IH]; simpl.
  - rewrite list_sum_by_cons. simpl. specialize (Hf emptyPlan (or_intror eq_refl)).
    change (batch_weight (bp_batches emptyPlan)) with 0 in Hf. lia.
  - pose proof (batch_weight_nonneg (bp_batches pl)) as H0.
    pose proof (plans_weight_nonneg plans) as H1. unfold plans_weight in H1.
    destruct (String.eqb b buyer); rewrite !list_sum_by_cons; simpl.
    + specialize (Hf pl). rewrite list_sum_by_cons in Hf. simpl in Hf. lia.
    + enough (list_sum_by (fun p => batch_weight (bp_batches (snd p))) (addPlan buyer f plans) <=
        list_sum_by (fun p => batch_weight (bp_batches (snd p))) plans + c) by lia.
      apply IH. intros pl' [Hw|Hw]; apply Hf; auto. left. rewrite list_sum_by_cons. simpl. lia.
Qed.

Lemma netInto_ok buyer dest amount leg isFee source plans :
  plans_weight plans + Z.abs amount <= maxI64 -> Forall plan_ok plans ->
  Forall plan_ok (netInto buyer dest amount leg isFee source plans) /\
  plans_weight (netInto buyer dest amount leg isFee source plans) <= plans_weight plans + Z.abs amount.
Proof.
  intros Hb HF. pose proof (plans_weight_nonneg plans).
  assert (Hnet : forall pl, plans_weight plans - batch_weight (bp_batches pl) >= 0 \/ pl = emptyPlan ->
    batch_weight (bp_batches pl) + Z.abs amount <= maxI64).
  { intros pl [?| ->]; [lia|]. simpl. change (batch_weight []) with 0. lia. }
  unfold netInto. split.
  - apply addPlan_ok; [|done]. intros pl [Ht Hbuy] Hw. specialize (Hnet pl Hw).
    split; simpl in *.
    + destruct (netBatches_sum (mkBatch buyer source dest amount [leg] isFee) (bp_batches pl)) as [-> _];
        [done|]. rewrite Ht. pose proof (batch_sum_weight (bp_batches pl)).
      simpl. apply i64_id. unfold_i64. lia.
    + by apply netBatches_buyer.
  - apply addPlan_weight; [lia|]. intros pl Hw. specialize (Hnet pl Hw). simpl.
    by apply (netBatches_sum (mkBatch buyer source dest amount [leg] isFee)).
Qed.

Lemma markSkippable_ok buyer plans :
  Forall plan_ok plans -> Forall plan_ok (addPlan buyer markSkippable plans) /\
  plans_weight (addPlan buyer markSkippable plans) <= plans_weight plans.
Proof.
  intros HF. split; [by apply addPlan_ok|].
  pose proof (addPlan_weight buyer markSkippable plans 0 ltac:(lia)) as H. rewrite Z.add_0_r in H.
  apply H. intros. simpl. lia.
Qed.

(** ** The claim, step by step *)
Definition legs_weight (legs : list unsettledLeg) : Z := list_sum_by (fun l => Z.abs (ul_DeltaRaw l)) legs.
Lemma legs_weight_nonneg legs : 0 <= legs_weight legs.
Proof. apply list_sum_by_nonneg. lia. Qed.

Definition plans_good (n : Z) (plans : list (string * buyerPlan)) : Prop :=
  Forall plan_ok plans /\ plans_weight plans <= n.

Lemma netInto_good n buyer dest amount leg isFee source plans :
  n + Z.abs amount <= maxI64 -> plans_good n plans ->
  plans_good (n + Z.abs amount) (netInto buyer dest amount leg isFee source plans).
Proof.
  intros Hn [HF Hw]. destruct (netInto_ok buyer dest amount leg isFee source plans) as [? ?];
    [lia|done|]. split; [done|lia].
Qed.

Lemma markSkippable_good n m buyer plans :
  n <= m -> plans_good n plans -> plans_good m (addPlan buyer markSkippable plans).
Proof. intros Hn [HF Hw]. destruct (markSkippable_ok buyer plans HF). split; [done|lia]. Qed.

Lemma plans_good_mono n m plans : n <= m -> plans_good n plans -> plans_good m plans.
Proof. intros ? []. split; [done|lia]. Qed.

Section Planning.
Context (I : db -> Prop).

Lemma primary_t P a : triple I P (PrimaryWalletForAccount a) (post (fun _ => P)).
Proof.
  unfold PrimaryWalletForAccount. apply tif; intros _; [by apply tret|].
  apply triple_attempt with (R := fun _ => P).
  - unfold scan_row, sql_primary_wallet, query. apply triple_bind with (R := fun _ => P).
    + eapply triple_conseq; [intros ? Hw; exact Hw| |].
      * apply triple_pool. by intros d x d' HI [= _ <-].
      * intros [|]; auto.
    + intros [?|]; [by apply triple_ret|by apply triple_fail].
  - intros [w|e]; [by apply tret|]. destruct (errors_is _ _); [by apply tret|apply tfail].
Qed.

Lemma planLeg_t P p st l n :
  n + Z.abs (ul_DeltaRaw l) <= maxI64 -> plans_good n (ps_plans st) ->
  triple I P (planLeg p st l)
    (post (fun st' w => plans_good (n + Z.abs (ul_DeltaRaw l)) (ps_plans st') /\ P w)).
Proof.
  intros Hn Hg. assert (Hskip : plans_good (n + Z.abs (ul_DeltaRaw l))
    (addPlan (ul_Counter l) markSkippable (ps_plans st))) by (eapply markSkippable_good; [|done]; lia).
  unfold planLeg. eapply tbind; [apply twrap, primary_t|]. intros bw; cbn beta.
  apply tif; intros _; [by apply tret|].
  eapply tbind with (R := fun _ => P); [apply twrap, tlift; auto|]. intros src.
  eapply tbind with (R := fun _ => P).
  { apply twrap. unfold resolve. destruct (ps_cache st !! _); [by apply tret|].
    eapply tbind; [apply primary_t|]. intros ?. by apply tret. }
  intros wc. apply tif; intros _; apply tret; intros w HP; simpl; split; try done.
  by apply netInto_good.
Qed.

Lemma planLeg_tame p st l : Tame (planLeg p st l).
Proof.
  assert (Hp : forall a, Tame (PrimaryWalletForAccount a)).
  { intros a. unfold PrimaryWalletForAccount, scan_row, sql_primary_wallet, query.
    destruct (String.eqb a ""); [apply tame_ret|]. apply tame_attempt; [|intros; tame].
    apply tame_bind; [|intros; tame]. intros e c Hc. unfold pool_stmt.
    destruct (e_fault e (c_step c)); simpl; (split; [done|]); intros w [? ?]; by apply (Hc w). }
  unfold planLeg, resolve. tame; apply Hp.
Qed.

Lemma planLegs_tame p legs : forall st, Tame (planLegs p st legs).
Proof.
  induction legs as [|l legs IH]; intros st; cbn [planLegs]; [tame|].
  apply tame_bind; [apply planLeg_tame|auto].
Qed.

Lemma planLegs_t P p legs : forall st n,
  n + legs_weight legs <= maxI64 -> plans_good n (ps_plans st) ->
  triple I P (planLegs p st legs)
    (post (fun st' w => plans_good (n + legs_weight legs) (ps_plans st') /\ P w)).
Proof.
  induction legs as [|l legs IH]; intros st n; cbn [planLegs].
  { intros _ Hg. apply tret. intros w HP. split; [|done]. eapply plans_good_mono; [|done].
    unfold legs_weight, list_sum_by. simpl. lia. }
  unfold legs_weight. rewrite list_sum_by_cons. change (list_sum_by _ legs) with (legs_weight legs).
  intros Hn Hg. pose proof (legs_weight_nonneg legs).
  eapply tbind; [apply planLeg_t; [|exact Hg]; lia|]. intros st'; cbn beta.
  apply tpure; [apply planLegs_tame|].
  intros Hg'. eapply tpost; [apply IH; [|exact Hg']; lia|]. intros a w. simpl.
  by rewrite Z.add_assoc.
Qed.

End Planning.

Lemma planFees_good p st feeLegs n :
  n + legs_weight feeLegs <= maxI64 -> plans_good n (ps_plans st) ->
  plans_good (n + legs_weight feeLegs) (planFees p st feeLegs).
Proof.
  intros Hn Hg. unfold planFees. destruct (String.eqb _ "").
  { eapply plans_good_mono; [|done]. pose proof (legs_weight_nonneg feeLegs). lia. }
  revert n Hn Hg. generalize (ps_plans st) as plans.
  induction feeLegs as [|l legs IH]; intros plans n; unfold legs_weight; cbn [fold_left].
  { intros _ Hg. eapply plans_good_mono; [|done]. unfold list_sum_by. simpl. lia. }
  rewrite list_sum_by_cons. change (list_sum_by _ legs) with (legs_weight legs).
  intros Hn Hg. pose proof (legs_weight_nonneg legs). rewrite Z.add_assoc. apply IH; [lia|].
  unfold planFee. destruct (hasPlan _ _); [apply netInto_good; [lia|done]|].
  eapply plans_good_mono; [|done]. lia.
Qed.

(** ** The legs a claim reads are rows of the ledger, each once *)
Definition is_earn (r : LedgerRow) : bool := String.eqb (lg_source r) "earn".
Definition is_fee (r : LedgerRow) : bool := String.eqb (lg_source r) "fee".
Definition earned (l : list LedgerRow) : Z :=
  list_sum_by (fun r => if is_earn r || is_fee r then Z.abs (lg_delta_raw r) else 0) l.
Definition rows_weight (rows : list LedgerRow) : Z := list_sum_by (fun r => Z.abs (lg_delta_raw r)) rows.

Lemma rows_weight_sublist l1 l2 : l1 `sublist_of` l2 -> rows_weight l1 <= rows_weight l2.
Proof.
  unfold rows_weight. induction 1; rewrite ?list_sum_by_cons; lia.
Qed.
Lemma rows_weight_perm l1 l2 : l1 ≡ₚ l2 -> rows_weight l1 = rows_weight l2.
Proof. unfold rows_weight. induction 1; rewrite ?list_sum_by_cons; lia. Qed.

Lemma rows_weight_filter (p q : LedgerRow -> bool) l :
  (forall r, p r = true -> q r = true) ->
  rows_weight (filter (fun r => p r = true) l) <= rows_weight (filter (fun r => q r = true) l).
Proof.
  intros Hpq. unfold rows_weight. induction l as [|r l IH]; [done|]. rewrite !filter_cons.
  specialize (Hpq r). destruct (p r), (q r); simpl; rewrite ?list_sum_by_cons; try lia.
Qed.

(** Rows of different kinds never add up to more than both kinds. *)
Lemma earned_split (p q : LedgerRow -> bool) l :
  (forall r, p r = true -> is_earn r = true) -> (forall r, q r = true -> is_fee r = true) ->
  rows_weight (filter (fun r => p r = true) l) + rows_weight (filter (fun r => q r = true) l) <= earned l.
Proof.
  intros Hp Hq. unfold rows_weight, earned. induction l as [|r l IH]; [done|].
  rewrite !filter_cons, list_sum_by_cons. specialize (Hp r). specialize (Hq r).
  assert (Hx : is_earn r = true -> is_fee r = false).
  { unfold is_earn, is_fee. rewrite String.eqb_eq. by intros ->. }
  destruct (p r) eqn:E1, (q r) eqn:E2; simpl; rewrite ?list_sum_by_cons.
  - rewrite Hx in Hq by auto. by specialize (Hq eq_refl).
  - rewrite Hp by done. simpl. lia.
  - rewrite Hq by done. rewrite orb_true_r. lia.
  - destruct (_ || _); lia.
Qed.

Lemma scanLegs_weight rows legs : scanLegs rows = Ok legs -> legs_weight legs = rows_weight rows.
Proof.
  revert legs. induction rows as [|r rows IH]; intros legs; simpl; [by intros [= <-]|].
  destruct (lg_counterparty r); [|done]. destruct (lg_ref r); [|done].
  intros (ls & Hls & [= <-])%res_bind_Ok. unfold legs_weight, rows_weight in *.
  rewrite !list_sum_by_cons, (IH _ Hls). simpl. lia.
Qed.

Section Exposure.
Context (a del : string) (L : list LedgerRow).

Definition Bounded (n : Z) (d : db) : Prop :=
  fresh_ids d /\ ledger d = L /\ exposure a del d <= n.

Lemma Bounded_same n d d' :
  settlements d' = settlements d -> settlements_seq d' = settlements_seq d -> ledger d' = ledger d ->
  allowances d' = allowances d -> Bounded n d -> Bounded n d'.
Proof.
  unfold Bounded, fresh_ids, exposure, in_flight, allowance_of. intros -> -> -> ->. done.
Qed.

(** Drawing on the pair's allowance. *)
Definition drawn (buyer delegate : string) (amount : Z) : Z :=
  if of_pair a del buyer delegate then amount else 0.

Lemma consume_bounded n buyer delegate amount d k d' :
  Bounded n d -> sql_consume_allowance buyer delegate amount d = Ok (k, d') ->
  (k = 1 /\ Bounded (n - drawn buyer delegate amount) d') \/ (k = 0 /\ d' = d).
Proof.
  intros (HF & HL & HE). unfold sql_consume_allowance.
  destruct (allowances d !! _) as [x|] eqn:Hx; [|intros [= <- <-]; by right].
  destruct (_ && _); intros [= <- <-]; [left|by right]. split; [done|]. split; [done|]. split; [done|].
  unfold exposure, allowance_of, drawn, of_pair in *. simpl.
  change (in_flight a del _) with (in_flight a del d).
  destruct (String.eqb buyer a) eqn:E1, (String.eqb delegate del) eqn:E2; zb; subst; simpl.
  - rewrite lookup_insert_eq. rewrite Hx in HE. simpl. lia.
  - rewrite lookup_insert_ne by congruence. lia.
  - rewrite lookup_insert_ne by congruence. lia.
  - rewrite lookup_insert_ne by congruence. lia.
Qed.

Lemma insert_bounded n r d o d' :
  Bounded n d -> sql_insert_settlement r d = Ok (o, d') -> sr_state r = SettlementPending ->
  0 < sr_amount_raw r /\
  Bounded (n + if o is Some _ then drawn (sr_buyer_account r) (sr_delegate r) (sr_amount_raw r) else 0) d'.
Proof.
  intros (HF & HL & HE) Hs Hst.
  assert (Hfresh : fresh_ids d') by (by apply (SLife_insert _ _ _ _ Hs)).
  unfold sql_insert_settlement in Hs. destruct (_ <=? 0) eqn:Hpos; [done|]. zb. split; [done|].
  destruct (find_batch _ _); injection Hs as <- <-; (split; [done|]); (split; [done|]).
  - unfold exposure in *. change (allowance_of a del _) with (allowance_of a del d).
    change (in_flight a del _) with (in_flight a del d). lia.
  - unfold exposure, in_flight, drawn in *. change (allowance_of a del _) with (allowance_of a del d).
    simpl. rewrite map_sum_insert_new, Hst; [destruct (of_pair _ _ _ _); simpl; lia|].
    destruct (settlements d !! settlements_seq d) as [r0|] eqn:E; [|done].
    specialize (HF _ _ E). simpl in HF. lia.
Qed.

Lemma drawn_nonneg buyer delegate amount : 0 <= amount -> 0 <= drawn buyer delegate amount.
Proof. unfold drawn. destruct (of_pair _ _ _ _); lia. Qed.

Let drawn_all (delegate : string) (bs : list settlementBatch) : Z :=
  list_sum_by (fun b => drawn (sb_Buyer b) delegate (sb_Amount b)) bs.

Section Claim.
Context (N : Z) (p : SettlementClaimParams).
Let I : db -> Prop := Bounded N.

Lemma anchor_t n id leg :
  triple I (Bounded n) (tx_stmt (sql_anchor_leg id leg)) (post (fun _ => Bounded n)).
Proof.
  apply tstmt. intros w u w' HB [->|[_ ->]]%eff_anchor; [done|]. by eapply Bounded_same.
Qed.
Lemma anchorLegs_t n id legs :
  triple I (Bounded n) (anchorLegs id legs) (post (fun _ => Bounded n)).
Proof.
  induction legs as [|l legs IH]; simpl; [by apply tret|].
  eapply tbind; [apply twrap, anchor_t|]. intros ?. exact IH.
Qed.

Lemma Bounded_mono n m d : n <= m -> Bounded n d -> Bounded m d.
Proof. intros Hn (? & ? & ?). split; [done|]. split; [done|lia]. Qed.

(** The batches of a plan take no more than what was drawn for them. *)
Lemma insertBatches_t t bs n :
  triple I (Bounded (n - drawn_all (cp_Delegate p) bs)) (insertBatches p t bs)
    (post (fun _ => Bounded n)).
Proof.
  induction bs as [|b bs IH]; cbn [insertBatches].
  { apply tret. intros w HB. eapply Bounded_mono; [|exact HB]. unfold drawn_all, list_sum_by. simpl. lia. }
  set (m := n - drawn_all (cp_Delegate p) bs) in *.
  assert (Hm : n - drawn_all (cp_Delegate p) (b :: bs) = m - drawn (sb_Buyer b) (cp_Delegate p) (sb_Amount b))
    by (unfold m, drawn_all; rewrite list_sum_by_cons; lia).
  rewrite Hm. clear Hm.
  eapply tbind with (R := fun _ => Bounded (m - drawn (sb_Buyer b) (cp_Delegate p) (sb_Amount b)));
    [apply twrap, tlift; auto|]. intros ata; cbn beta zeta.
  apply triple_attempt with (R := fun _ => Bounded m).
  - unfold scan_row. apply triple_bind with (R := fun _ => Bounded m).
    + apply triple_stmt. intros w o w' HB Hs.
      destruct (insert_bounded _ _ _ _ _ HB Hs eq_refl) as [Hpos HB']. simpl in Hpos, HB'.
      pose proof (drawn_nonneg (sb_Buyer b) (cp_Delegate p) (sb_Amount b) ltac:(lia)).
      eapply Bounded_mono; [|exact HB']. destruct o; lia.
    + intros [id|]; [by apply triple_ret|by apply triple_fail].
  - intros [id|e].
    + eapply tbind; [apply anchorLegs_t|]. intros ?; cbn beta.
      eapply tbind; [exact IH|]. intros ?. by apply tret.
    + destruct (errors_is _ _); [exact IH|apply tfail].
Qed.

Lemma drawn_all_plan buyer delegate bs :
  Forall (fun b => sb_Buyer b = buyer) bs -> drawn_all delegate bs = drawn buyer delegate (batch_sum bs).
Proof.
  unfold drawn_all, drawn, batch_sum. induction 1 as [|b bs Hb _ IH].
  - unfold list_sum_by. simpl. by destruct (of_pair _ _ _ _).
  - rewrite !list_sum_by_cons, IH, Hb. destruct (of_pair _ _ _ _); lia.
Qed.

Lemma insertPlans_t t plans n :
  Forall plan_ok plans ->
  triple I (Bounded n) (insertPlans p t plans) (post (fun _ => Bounded n)).
Proof.
  induction 1 as [|[buyer pl] plans [Ht Hb] _ IH]; cbn [insertPlans]; [by apply tret|].
  simpl in Ht, Hb. apply tif; intros _; [exact IH|].
  eapply tbind with (R := fun ok => Bounded (if ok : bool then n - drawn buyer (cp_Delegate p) (bp_total pl)
                                              else n)).
  { apply twrap. unfold lockAndConsumeAllowanceTx. apply tif; intros _; [apply tfail|].
    eapply tbind; [apply tstmt|].
    { intros w k w' HB Hs.
      instantiate (1 := fun k w => (k = 1 /\ Bounded (n - drawn buyer (cp_Delegate p) (bp_total pl)) w) \/
        (k = 0 /\ Bounded n w)). destruct (consume_bounded _ _ _ _ _ _ _ HB Hs) as [[-> ?]|[-> ->]]; auto. }
    intros k. apply tret. by intros w [[-> ?]|[-> ?]]. }
  intros [|]; cbn [negb]; [|exact IH].
  rewrite Ht, <- (drawn_all_plan _ _ _ Hb).
  eapply tbind; [apply insertBatches_t|]. intros created; cbn beta.
  eapply tbind; [exact IH|]. intros more. by apply tret.
Qed.

Lemma insertPlans_tame t plans : Tame (insertPlans p t plans).
Proof.
  assert (Ha : forall id legs, Tame (anchorLegs id legs)).
  { intros id legs. induction legs as [|l legs IH]; simpl; tame. }
  assert (Hb : forall bs, Tame (insertBatches p t bs)).
  { intros bs. induction bs as [|b bs IH]; cbn [insertBatches]; tame. }
  induction plans as [|[buyer pl] plans IH]; cbn [insertPlans]; unfold lockAndConsumeAllowanceTx; tame.
Qed.
Hint Resolve insertPlans_tame planLegs_tame : tame.

Lemma wave_bounded t limit lastLeg :
  earned L <= maxI64 -> triple I I (claimWave p t limit lastLeg) (post (fun _ _ => True)).
Proof.
  intros HL. unfold claimWave.
  pose proof (earned_split is_earn is_fee L ltac:(done) ltac:(done)) as HE.
  eapply tbind with (R := fun rows w =>
    rows_weight rows <= rows_weight (filter (fun r => is_earn r = true) L) /\ I w).
  { apply twrap, tquery. intros w HB. split; [|exact HB]. destruct HB as (_ & -> & _).
    etrans; [apply rows_weight_sublist, sublist_take|].
    rewrite (rows_weight_perm _ _ (merge_sort_Permutation _ _)). apply rows_weight_filter.
    intros r H. zb. unfold is_earn. by apply String.eqb_eq. }
  intros rows; cbn beta. apply tpure; [unfold scanned; tame|]. intros Hrows.
  eapply tbind with (R := fun legs w => legs_weight legs = rows_weight rows /\ I w).
  { apply twrap, tlift. intros legs w Hl HB. split; [by apply scanLegs_weight|done]. }
  intros legs; cbn beta. apply tpure; [unfold scanned; tame|]. intros Hlegs.
  destruct (last legs) as [lastOne|].
  2:{ eapply tbind; [by apply tcommit|]. intros ?. by apply tret. }
  eapply tbind with (R := fun frows w =>
    rows_weight frows <= rows_weight (filter (fun r => is_fee r = true) L) /\ I w).
  { apply twrap, tquery. intros w HB. split; [|exact HB]. destruct HB as (_ & -> & _).
    apply rows_weight_filter. intros r H. zb. unfold is_fee. by apply String.eqb_eq. }
  intros frows; cbn beta. apply tpure; [unfold scanned; tame|]. intros Hfrows.
  eapply tbind with (R := fun fees w => legs_weight fees = rows_weight frows /\ I w).
  { apply twrap, tlift. intros fees w Hl HB. split; [by apply scanLegs_weight|done]. }
  intros fees; cbn beta. apply tpure; [tame|]. intros Hfees.
  pose proof (legs_weight_nonneg legs). pose proof (legs_weight_nonneg fees).
  eapply tbind; [apply (planLegs_t I I p legs (mkPlanState [] "" ∅) 0); [lia|by split]|].
  intros st; cbn beta. apply tpure; [tame|]. intros Hst.
  eapply tbind; [apply insertPlans_t, (planFees_good p st fees (0 + legs_weight legs)); [lia|done]|].
  intros created; cbn beta. eapply tbind with (R := fun _ => I).
  { apply twrap, tstmt. intros w u w' HB [v ->]%eff_settle_cursor. by eapply Bounded_same. }
  intros ?. eapply tbind; [by apply tcommit|]. intros ?. by apply tret.
Qed.

Lemma claim_bounded now :
  earned L <= maxI64 -> Preserves I (ClaimDelegationSettlements p now).
Proof.
  intros HL. unfold ClaimDelegationSettlements.
  apply preserves_bind; [unfold now_or; destruct (IsZero now); auto with otela|]. intros t.
  destruct (_ || _); [auto with otela|]. apply tbody.
  eapply tattempt_scan with (R := fun _ => I); [auto|intros ?; by apply wave_bounded|].
  intros e. destruct (errors_is _ _); [by apply wave_bounded|apply tfail].
Qed.
End Claim.
End Exposure.

(** ** The batches' transitions and everything else *)
Definition settlement_op (o : op) : bool :=
  match o with
  | OpClaim _ _ | OpSettleSigned _ _ _ _ _ _ _ | OpSettleBroadcast _ _ | OpSettleFinalize _ _
  | OpSettleRestore _ _ _ | OpSettleSweep _ => true
  | _ => false
  end.

(** Methods that touch neither the registry nor the batches. *)
Definition same_exposure (d d' : db) : Prop :=
  allowances d' = allowances d /\ settlements d' = settlements d.

#[export] Instance same_exposure_preorder : PreOrder same_exposure.
Proof. split; [by split|]. intros d1 d2 d3 [? ?] [? ?]. split; congruence. Qed.
#[export] Instance same_exposure_BillingFrame : BillingFrame same_exposure (fun _ => True).
Proof. split; [typeclasses eauto|by split..]. Qed.
#[export] Instance same_exposure_DepositFrame : DepositFrame same_exposure.
Proof. by split. Qed.
#[export] Instance same_exposure_WithdrawalFrame : WithdrawalFrame same_exposure.
Proof. by split. Qed.
#[export] Instance same_exposure_SheetFrame : SheetFrame same_exposure.
Proof. split; [typeclasses eauto|by split..]. Qed.

Lemma same_exposure_op o :
  is_allowance o = false -> settlement_op o = false -> Moves same_exposure (exec_op o).
Proof.
  intros H1 H2. pose proof (mv_billing same_exposure (fun _ => True) o I I I) as H3.
  pose proof (mv_deposits same_exposure (fun _ => True) o I) as H4.
  pose proof (mv_withdrawals same_exposure (fun _ => True) o I I) as H5.
  pose proof (mv_sheets same_exposure o) as H6.
  destruct o; try done. simpl. apply moves_pool; [typeclasses eauto|]. by intros d u d' [= _ <-].
Qed.

Section Transitions.
Context (a del : string) (L : list LedgerRow).

Definition share (r : SettlementRow) : Z :=
  if of_pair a del (sr_buyer_account r) (sr_delegate r) && open_settlement (sr_state r)
  then sr_amount_raw r else 0.

Lemma update_exposure n id r r' d :
  Bounded a del L (n + share r) d -> settlements d !! id = Some r -> sevolves r r' ->
  share r' <= share r ->
  Bounded a del L (n + share r') (set_settlements (<[id := r']> (settlements d)) d).
Proof.
  intros (HF & HL & HE) Hr Hv Hs. split; [by eapply SLife_update|]. split; [done|].
  unfold exposure, in_flight in *. change (allowance_of a del _) with (allowance_of a del d).
  simpl. rewrite (map_sum_insert _ _ _ r) by done. unfold share in *. lia.
Qed.

Lemma advance_bounded n id from f d k d' :
  (forall r, sr_state r = from -> 0 < sr_amount_raw r -> sevolves r (f r) /\ share (f r) <= share r) ->
  Bounded a del L n d -> sql_advance_settlement id from f d = Ok (k, d') -> Bounded a del L n d'.
Proof.
  intros Hf HB [->|(r & Hr & Hst & ->)]%eff_advance; [done|]. destruct (Hf r Hst) as [Hv Hsh];
    [by apply (proj1 HB id)|].
  eapply Bounded_mono; [|apply (update_exposure (n - share r) id r); [|done..]].
  - lia.
  - by replace (n - share r + share r) with n by lia.
Qed.

Lemma refund_bounded n buyer delegate amount d u d' :
  0 <= amount -> Bounded a del L n d -> sql_refund_allowance buyer delegate amount d = Ok (u, d') ->
  Bounded a del L (n + drawn a del buyer delegate amount) d'.
Proof.
  intros Ha (HF & HL & HE) Hs. split; [|split].
  - by apply eff_refund in Hs as [->|[v ->]].
  - by apply eff_refund in Hs as [->|[v ->]].
  - pose proof (drawn_nonneg a del buyer delegate amount Ha) as Hd.
    unfold sql_refund_allowance in Hs. unfold exposure, allowance_of, drawn, of_pair in *.
    destruct (allowances d !! (buyer, delegate)) as [x|] eqn:Hx; [|simplify_eq; lia].
    destruct (bool_decide (RevokedAt x = None)); [|simplify_eq; lia].
    destruct (bool_decide _); [|done]. injection Hs as _ <-. simpl.
    change (in_flight a del _) with (in_flight a del d).
    destruct (String.eqb buyer a) eqn:E1, (String.eqb delegate del) eqn:E2; zb; subst; simpl in *.
    + rewrite lookup_insert_eq. rewrite Hx in HE. simpl. lia.
    + rewrite lookup_insert_ne by congruence. lia.
    + rewrite lookup_insert_ne by congruence. lia.
    + rewrite lookup_insert_ne by congruence. lia.
Qed.
End Transitions.

Section Operations.
Context (a del : string) (L : list LedgerRow) (N : Z).
Let I : db -> Prop := Bounded a del L N.

Lemma now_bounded now : Preserves I (now_or now).
Proof. unfold now_or. destruct (IsZero now); auto with otela. Qed.

Lemma advance_pool id from f :
  (forall r, sr_state r = from -> 0 < sr_amount_raw r ->
     sevolves r (f r) /\ share a del (f r) <= share a del r) ->
  forall fmt, Preserves I (bind (wrap fmt (pool_stmt (sql_advance_settlement id from f)))
                             (fun n => ret (n >? 0))).
Proof.
  intros Hf fmt. apply preserves_bind; [|auto with otela]. apply preserves_wrap, preserves_pool.
  intros d k d' HB Hs. by eapply advance_bounded.
Qed.

Ltac row_step := intros r Hr Hpos; split;
  [apply sstep_once; try done; rewrite Hr; constructor
  |unfold share, of_pair; simpl; rewrite Hr; simpl; rewrite ?andb_false_r;
   destruct (_ && _); lia].

Lemma signed_bounded id w s h ht ex now : Preserves I (MarkSettlementSigned id w s h ht ex now).
Proof.
  unfold MarkSettlementSigned. apply preserves_bind; [apply now_bounded|]. intros t.
  apply preserves_bind; [|auto with otela]. apply preserves_wrap, preserves_pool.
  intros d k d' HB. destruct (bool_decide _); [|done]. apply advance_bounded; [row_step|done].
Qed.
Lemma broadcast_bounded id now : Preserves I (MarkSettlementBroadcast id now).
Proof.
  unfold MarkSettlementBroadcast. apply preserves_bind; [apply now_bounded|]. intros t.
  apply advance_pool. row_step.
Qed.
Lemma finalize_bounded id now : Preserves I (FinalizeSettlement id now).
Proof.
  unfold FinalizeSettlement. apply preserves_bind; [apply now_bounded|]. intros t.
  apply advance_pool. row_step.
Qed.

(** The refund and the closing of the batch cancel. *)
Lemma restore_bounded id reason now : Preserves I (RestoreSettlement id reason now).
Proof.
  unfold RestoreSettlement. apply preserves_bind; [apply now_bounded|]. intros t. apply tbody.
  eapply tattempt_scan with (R := fun row w => I w /\ settlements w !! id = Some row); [auto| |].
  2:{ intros e. destruct (errors_is _ _); [by apply tret|apply tfail]. }
  intros row. apply tif; intros Hopen; zb; [by apply tret|].
  set (x := drawn a del (sr_buyer_account row) (sr_delegate row) (sr_amount_raw row)).
  eapply tbind with (R := fun _ w => Bounded a del L (N + x) w /\ settlements w !! id = Some row).
  { apply twrap, tstmt. intros w u w' [HB Hrow] Hs.
    pose proof (proj1 HB id row Hrow) as [_ Hpos]. split.
    - by eapply refund_bounded; [lia| |].
    - by apply eff_refund in Hs as [->|[v ->]]. }
  intros ?. eapply tbind with (R := fun _ => I).
  { apply twrap, tstmt. intros w u w' [HB Hrow] Hs.
    assert (Hsh : share a del row = x) by (unfold share, x, drawn; rewrite Hopen, andb_true_r; done).
    unfold sql_restore_settlement in Hs. rewrite Hrow in Hs. injection Hs as _ <-.
    set (row' := settlement_restored reason t row).
    assert (Hsh' : share a del row' = 0) by (unfold share; simpl; by rewrite andb_false_r).
    unfold I. replace N with (N + share a del row') by lia.
    apply update_exposure with (r := row); [by rewrite Hsh|done| |].
    - apply sstep_once; try done. by constructor.
    - rewrite Hsh, Hsh'. apply drawn_nonneg. destruct (proj1 HB id row Hrow) as [_ ?]. lia. }
  intros ?. eapply tbind; [by apply tcommit|]. intros ?. by apply tret.
Qed.

Lemma sweep_bounded limit : Preserves I (SweepDelegationSettlements limit).
Proof.
  unfold SweepDelegationSettlements. apply preserves_bind; [|auto with otela].
  apply preserves_wrap, preserves_pool. by intros d x d' HB [= _ <-].
Qed.
End Operations.

(** C23: the registry backs the batches in flight: no store method but the
    allowance mirror raises an account's allowance for a delegate plus the open
    batches drawn on it, wherever the connection is lost. A claim takes from the
    allowance at least what its batches will move, and a restoration gives back
    exactly what its batch held, at most once. *)
Theorem settlement_exposure_bounded d o e a del :
  Reachable d -> is_allowance o = false -> earned (ledger d) <= maxI64 ->
  exposure a del (snd (run (exec_op o) e d)) <= exposure a del d.
Proof.
  intros HR Ho HL.
  assert (HB : Bounded a del (ledger d) (exposure a del d) d)
    by (split; [by apply Reachable_fresh|split; [done|lia]]).
  destruct (settlement_op o) eqn:Hop.
  - enough (Bounded a del (ledger d) (exposure a del d) (snd (run (exec_op o) e d))) as (_ & _ & ?) by done.
    apply (preserves_run (Bounded a del (ledger d) (exposure a del d))); [|done].
    destruct o; try done; apply discard_preserves;
      auto using claim_bounded, signed_bounded, broadcast_bounded, finalize_bounded, restore_bounded,
        sweep_bounded.
  - destruct (moves_run _ _ e d (same_exposure_op o Ho Hop)) as [Ha Hs].
    unfold exposure, allowance_of, in_flight. by rewrite Ha, Hs.
Qed.

(** a batch moves only along its machine, in every history: pending, signed,
    broadcast, finalized, or restored from any open state; its parties, amount,
    accounts and reference never change, a finalized or restored batch stays so,
    and a leg once anchored to a batch stays anchored to it. *)
Theorem settlement_lifecycle d d' :
  Reachable d -> rtc step d d' ->
  settle_legs d ⊆ settle_legs d' /\
  forall id r, settlements d !! id = Some r ->
    exists r', settlements d' !! id = Some r' /\ sevolves r r' /\
      (open_settlement (sr_state r) = false -> sr_state r' = sr_state r).
Proof.
  intros HR Hs. destruct (steps_SLife d d' Hs (Reachable_fresh d HR)) as [_ [Hrows Hanch]].
  split; [done|]. intros id r Hr. destruct (Hrows id r Hr) as (r' & Hr' & Hv). exists r'. split; [done|].
  split; [done|]. intros Hc. by eapply rtc_sstep_terminal, sv_state.
Qed.

(** ** Anchors do not stop a second transfer *)
Lemma anchorLegs_fine t id legs d m :
  is_Some (settlements d !! id) ->
  exists v, m ⊆ v /\ Forall (fun leg => is_Some (v !! leg)) legs /\
    fine_run t (anchorLegs id legs) (set_settle_legs m d) (Ok tt) (set_settle_legs v d).
Proof.
  intros Hid. revert m. induction legs as [|leg legs IH]; intros m; simpl.
  { exists m. split; [done|]. split; [constructor|apply fr_ret]. }
  set (m' := match m !! leg with Some _ => m | None => <[leg := id]> m end).
  assert (Hm' : m ⊆ m' /\ is_Some (m' !! leg)).
  { unfold m'. destruct (m !! leg) eqn:E; [split; [done|by eexists]|].
    split; [by apply insert_subseteq|rewrite lookup_insert_eq; by eexists]. }
  destruct Hm' as [Hsub [k Hk]]. destruct (IH m') as (v & Hv & Hall & Hrun). exists v.
  split; [by etrans|]. split; [constructor; [exists k; by eapply lookup_weaken|done]|].
  eapply fr_bind; [|exact Hrun]. apply fr_wrap, fr_stmt. unfold sql_anchor_leg, m'. simpl.
  destruct (m !! leg); [done|]. destruct Hid as [r Hr]. by rewrite Hr.
Qed.

(** anchoring a leg to a batch is no backstop against moving it twice: for
    every state of the anchors, even with every leg of the batch already anchored
    to another one, a claim that plans a batch under a fresh reference (as another
    delegate's claim of the same legs does) inserts it, pending and for the full
    amount; the old anchors are kept and the conflicts silently ignored. *)
Theorem anchored_legs_move_again p t b ata d :
  destinationATA (sb_Dest b) (cp_Mint p) (cp_TokenProgram p) = Ok ata ->
  0 < sb_Amount b -> find_batch (settlementRef (cp_Delegate p) b) d = None ->
  exists created v,
    fine_run t (insertBatches p t [b]) d (Ok [created])
      (set_settle_legs v (set_settlements
        (<[settlements_seq d := pending_row (settlementRef (cp_Delegate p) b) (cp_Delegate p) ata b t]>
           (settlements d)) (set_settlements_seq (settlements_seq d + 1) d))) /\
    ds_AmountRaw created = sb_Amount b /\ settle_legs d ⊆ v /\
    Forall (fun leg => is_Some (v !! leg)) (sb_LegIDs b).
Proof.
  intros Hata Hpos Hfind. cbn [insertBatches].
  set (row := pending_row (settlementRef (cp_Delegate p) b) (cp_Delegate p) ata b t).
  set (d1 := set_settlements (<[settlements_seq d := row]> (settlements d))
               (set_settlements_seq (settlements_seq d + 1) d)).
  assert (Hins : sql_insert_settlement row d = Ok (Some (settlements_seq d), d1)).
  { unfold sql_insert_settlement. simpl.
    rewrite (proj2 (Z.leb_gt _ _)) by done. cbn.
    assert (find_batch (settlementRef (cp_Delegate p) b) (set_settlements_seq (settlements_seq d + 1) d)
      = None) as -> by exact Hfind. done. }
  destruct (anchorLegs_fine t (settlements_seq d) (sb_LegIDs b) d1 (settle_legs d1))
    as (v & Hv & Hall & Hrun).
  { simpl. rewrite lookup_insert_eq. by eexists. }
  eexists _, v. split; [|split; [|by split]].
  - eapply fr_bind; [apply fr_wrap; rewrite Hata; apply fr_lift|]. cbn zeta.
    eapply fr_attempt; [apply fr_scan, fr_stmt, Hins|]. cbn.
    eapply fr_bind; [exact Hrun|]. eapply fr_bind; [apply fr_ret|apply fr_ret].
  - done.
Qed.

(** ** A concrete history *)
Definition key_of (b : Byte.byte) : string := EncodeBase58 (repeat b 32).
Definition demo_claim : SettlementClaimParams :=
  mkClaimParams "del1" (key_of Byte.x03) (EncodeBase58 TokenProgramID) "" 0.

(** Two linked wallets, a grant and a settled request: legs ready to be claimed. *)
Definition funded_ops : list (op * time) := [
  (OpWallets (<["buyer" := key_of Byte.x01]> {["seller" := key_of Byte.x02]}), 1);
  (OpAllowance (mkChange "buyer" "del1" 4000 3 "obs:1"), 3);
  (OpReserve (demo_reservation "r1"), 12);
  (OpSettle "r1" "peer1" demo_usage 250 zeroTime, 13) ]%string.
Definition funded_db : db := play funded_ops empty_db.
Lemma funded_reachable : Reachable funded_db.
Proof. apply play_steps. Qed.

(** The claim and the first transitions of its batch. *)
Definition claimed_db : db := play [(OpClaim demo_claim zeroTime, 14)] funded_db.
Lemma claimed_reachable : Reachable claimed_db.
Proof. unfold Reachable. etrans; [exact funded_reachable|apply play_steps]. Qed.

Lemma settlement_exposure_bounded_witness :
  exposure "buyer" "del1" claimed_db <= exposure "buyer" "del1" funded_db.
Proof.
  apply (settlement_exposure_bounded funded_db (OpClaim demo_claim zeroTime) (fine_env 14));
    [exact funded_reachable|reflexivity|vm_compute; discriminate].
Defined.

Definition restored_db : db :=
  play [(OpSettleRestore 1 "expired" zeroTime, 15); (OpSettleRestore 1 "again" zeroTime, 16)] claimed_db.

Lemma settlement_lifecycle_witness :
  settle_legs claimed_db ⊆ settle_legs restored_db /\
  (forall r, settlements claimed_db !! 1 = Some r -> exists r', settlements restored_db !! 1 = Some r' /\
     sr_amount_raw r' = sr_amount_raw r).
Proof.
  destruct (settlement_lifecycle claimed_db restored_db claimed_reachable (play_steps _ _)) as [Hl Hr].
  split; [exact Hl|]. intros r E. destruct (Hr 1 r E) as (r' & Hr' & Hv & _).
  exists r'. split; [exact Hr'|exact (sv_amount _ _ Hv)].
Defined.

(** The wallet and mint of the repository's token account vector. *)
Definition vector_wallet : string := "wyXQMgDFSzHvCwz1aK79r6Qr5BxqxKFK4Ra8u7xPBhz".
Definition vector_claim : SettlementClaimParams :=
  mkClaimParams "del1" "EsmcTrdLkFqV3mv4CjLF3AmCx132ixfFSYYRWD78cDzR" (EncodeBase58 TokenProgramID) "" 0.
Definition demo_batch : settlementBatch := mkBatch "buyer" "src" vector_wallet 113 [3] false.
Definition anchored_db : db := set_settle_legs {[3 := 7]} empty_db.

Lemma destinationATA_of w m tp :
  is_ok (DecodeBase58 w PublicKeyBytes) = true -> is_ok (DecodeBase58 m PublicKeyBytes) = true ->
  is_ok (DecodeBase58 tp PublicKeyBytes) = true ->
  destinationATA w m tp =
    res_bind (AssociatedTokenAddress (decoded w) (decoded m) (decoded tp)) (fun a => Ok (EncodeBase58 a)).
Proof.
  unfold destinationATA, decoded. intros H1 H2 H3.
  destruct (DecodeBase58 w _); [|done]. destruct (DecodeBase58 m _); [|done].
  by destruct (DecodeBase58 tp _).
Qed.

Lemma demo_ata :
  destinationATA vector_wallet (cp_Mint vector_claim) (cp_TokenProgram vector_claim) =
  Ok "4ZdrF3WBc9aGKdhGCS9UXSGmKV4kcoaRVTRvZrirBSQQ"%string.
Proof.
  rewrite destinationATA_of by (vm_compute; reflexivity).
  assert (decoded (cp_TokenProgram vector_claim) = TokenProgramID) as -> by (vm_compute; reflexivity).
  exact ata_vector.
Qed.

Lemma anchored_legs_move_again_witness :
  exists created (v : gmap Z Z), v !! 3 = Some 7 /\ ds_AmountRaw created = 113.
Proof.
  destruct (anchored_legs_move_again vector_claim 15 demo_batch _ anchored_db demo_ata eq_refl eq_refl)
    as (created & v & _ & Ha & Hsub & _).
  exists created, v. split; [|exact Ha].
  exact (lookup_weaken _ _ _ _ (lookup_singleton_eq 3 7) Hsub).
Defined.
