(* ===== verification/WithdrawSpec.v ===== *)
(** * What the withdrawal worker guarantees

    Why a pass moves a withdrawal, and the race between a status and the block height
    it is judged by. *)
From Stdlib Require Import ZArith Lia Strings.Ascii Strings.String.
From stdpp Require Import base gmap strings list fin_maps sorting.
From S2P Require Import Prelude Billing Sha256 Base58 GoText Solana Json Base64 Rpc Tx Schema BillingStore Projection WithdrawalStore Reachable StoreSpec Worker Withdraw.

Open Scope Z_scope.
Open Scope tx_scope.
Open Scope worker_scope.

(** No failures, nobody else, no cancellation. *)
Record quiet (o : outside) : Prop := {
  qt_env : forall k, exists t, o_env o k = fine_env t;
  qt_others : forall k d, o_others o k d = d;
  qt_running : forall k, o_cancelled o k = false }.

(** ** What a call does to the rows *)
(** The rows are kept, but for [id]'s, which may go along [P]. *)
Definition touches (id : Z) (P : relation WithdrawalRow) (d d' : db) : Prop :=
  forall k r, withdrawals d !! k = Some r ->
  exists r', withdrawals d' !! k = Some r' /\ (r' = r \/ k = id /\ P r r').
#[export] Instance touches_refl id P : Reflexive (touches id P).
Proof. intros d k r Hr. exists r. auto. Qed.
#[export] Instance touches_trans id P `{!Transitive P} : Transitive (touches id P).
Proof.
  intros d1 d2 d3 H1 H2 k r Hr. destruct (H1 k r Hr) as (r1 & Hr1 & C1). destruct (H2 k r1 Hr1) as (r2 & Hr2 & C2).
  exists r2. split; [done|]. destruct C1 as [->|[-> C1]]; [done|]. right. split; [done|].
  destruct C2 as [->|[_ C2]]; [done|]. by etrans.
Qed.
Lemma touches_mono id (P Q : relation WithdrawalRow) d d' :
  (forall r r', withdrawals d !! id = Some r -> P r r' -> Q r r') -> touches id P d d' -> touches id Q d d'.
Proof.
  intros H Ht k r Hr. destruct (Ht k r Hr) as (r' & Hr' & C). exists r'. split; [done|].
  destruct C as [?|[-> C]]; [by left|]. right. auto.
Qed.
Lemma touches_same id P d d' : withdrawals d' = withdrawals d -> touches id P d d'.
Proof. intros H k r Hr. exists r. rewrite H. auto. Qed.

Section Rows.
Context (id : Z) (f : time -> WithdrawalRow -> WithdrawalRow) (Hf : forall t t' r, f t (f t' r) = f t r).
Definition becomes (r r' : WithdrawalRow) : Prop := exists t, r' = f t r.
#[local] Instance becomes_trans : Transitive becomes.
Proof using Hf. intros r1 r2 r3 [t1 ->] [t2 ->]. exists t2. apply Hf. Qed.
#[local] Instance becomes_preorder : PreOrder (touches id becomes).
Proof using Hf. split; apply _. Qed.

Lemma touches_query {A} (q : db -> A) d a d' : query q d = Ok (a, d') -> touches id becomes d d'.
Proof. intros ->%eff_query. reflexivity. Qed.
Lemma touches_ensure a t d u d' : sql_ensure_credit a t d = Ok (u, d') -> touches id becomes d d'.
Proof. intros H. apply eff_ensure in H as [->|[v ->]]; by apply touches_same. Qed.
Lemma touches_update a g d u d' : sql_update_credit a g d = Ok (u, d') -> touches id becomes d d'.
Proof. intros H. apply eff_update_credit in H as [->|[v ->]]; by apply touches_same. Qed.
Lemma touches_ledger row d u d' : sql_insert_ledger row d = Ok (u, d') -> touches id becomes d d'.
Proof. intros [-> _]%eff_insert_ledger. by apply touches_same. Qed.
Lemma touches_row t d u d' : sql_update_withdrawal id (f t) d = Ok (u, d') -> touches id becomes d d'.
Proof.
  unfold sql_update_withdrawal. destruct (withdrawals d !! id) as [r|] eqn:E; intros [= _ <-]; [|reflexivity].
  intros k r0 Hr. simpl. destruct (decide (id = k)) as [<-|Hne].
  - exists (f t r). rewrite lookup_insert_eq. split; [done|]. right. split; [done|]. exists t. by simplify_eq.
  - exists r0. rewrite lookup_insert_ne by done. auto.
Qed.
Hint Resolve touches_query touches_ensure touches_update touches_ledger touches_row : moves.

Lemma transition_touches pre fmt from now effect e d :
  (forall w t, Moves (touches id becomes) (effect w t)) ->
  touches id becomes d (snd (run (transition pre fmt from id now effect f) e d)).
Proof using Hf.
  intros He. apply moves_run; [apply _|].
  unfold transition, now_or, lockWithdrawal, requeryWithdrawal, read_withdrawal, in_tx, on_pool, sql_select_withdrawal.
  moves.
Qed.
Lemma creditBack_touches w t : Moves (touches id becomes) (creditBack id w t).
Proof using Hf. unfold creditBack, applyDelta, sql_lock_credit. moves. Qed.
Lemma no_effect_touches w t : Moves (touches id becomes) (no_effect w t).
Proof using Hf. unfold no_effect. moves. Qed.
End Rows.

Lemma signed_touches id wire sig hash height expires now e d :
  touches id (becomes (row_signed wire sig hash (i64 height) (if IsZero expires then None else Some expires))) d
    (snd (run (MarkWithdrawalSigned id wire sig hash height expires now) e d)).
Proof. unfold MarkWithdrawalSigned. destruct (_ || _); [reflexivity|]. apply transition_touches; [done|apply no_effect_touches; done]. Qed.
Lemma broadcast_touches id now e d : touches id (becomes row_broadcast) d (snd (run (MarkWithdrawalBroadcast id now) e d)).
Proof. apply transition_touches; [done|apply no_effect_touches; done]. Qed.
Lemma finalized_touches id now e d : touches id (becomes row_finalized) d (snd (run (FinalizeWithdrawal id now) e d)).
Proof. apply transition_touches; [done|apply no_effect_touches; done]. Qed.
Lemma restored_touches id reason now e d :
  touches id (becomes (fun _ => row_stopped WithdrawalRestored reason)) d (snd (run (RestoreWithdrawal id reason now) e d)).
Proof. apply transition_touches; [done|apply creditBack_touches; done]. Qed.

(** ** Why a withdrawal moves *)
Section Cause.
Context {N : Type} {RPC : withdrawRPC N} (s : withdrawService).

(** The node's word on a row's signature, and its state afterwards. *)
Definition status_is (n : N) (signature : option string) (st : option SignatureStatusValue) (n' : N) : Prop :=
  exists sig l, signature = Some sig /\ sig <> ""%string /\
    node_GetSignatureStatuses [sig] n = (Ok l, n') /\ st = default None (head l).
(** A row's stored transaction, and the node's answer to it. *)
Definition sent (n : N) (stored : option string) (answer : res string) : Prop :=
  exists wire tx, stored = Some wire /\ DecodeString wire = Ok tx /\ answer = fst (node_SendTransaction tx n).

(** The transfer cannot land, or no longer: the money goes back. *)
Inductive hopeless (n : N) (r : WithdrawalRow) : string -> Prop :=
  | no_destination : wr_state r = WithdrawalReserved ->
      (forall owner, DecodeBase58 (wr_destination_wallet r) PublicKeyBytes = Ok owner -> length owner <> 32%nat) ->
      hopeless n r "invalid destination wallet"
  | no_transaction wire : wr_state r = WithdrawalSigned ->
      wr_signed_wire r = Some wire -> is_ok (DecodeString wire) = false -> hopeless n r "corrupt signed wire"
  | refused_expired e : wr_state r = WithdrawalSigned -> sent n (wr_signed_wire r) (Err e) ->
      already_landed (ToLower (err_text e)) = false -> says_expired (ToLower (err_text e)) = true ->
      hopeless n r "blockhash_expired"
  | failed st n' : wr_state r = WithdrawalBroadcast -> status_is n (wr_signature r) (Some st) n' ->
      Finalized st = false -> has_err st = true -> hopeless n r "tx_failed"
  | lapsed n' last height : wr_state r = WithdrawalBroadcast -> status_is n (wr_signature r) None n' ->
      wr_last_valid_block_height r = Some last -> fst (node_GetBlockHeight n') = Ok height -> last < height ->
      hopeless n r "blockhash_expired_unconfirmed".

(** What the node says in state [n] that takes row [r] to a later one. *)
Inductive cause (n : N) (r : WithdrawalRow) : WithdrawalRow -> Prop :=
  | signed owner ata exists_ n1 bh height n2 expires t : wr_state r = WithdrawalReserved ->
      DecodeBase58 (wr_destination_wallet r) PublicKeyBytes = Ok owner -> length owner = 32%nat ->
      AssociatedTokenAddress owner (ws_mint s) (ws_tokenProgram s) = Ok ata ->
      node_AccountExists (EncodeBase58 ata) n = (Ok exists_, n1) -> node_LatestBlockhash n1 = (Ok (bh, height), n2) ->
      let tx := signedTransaction s ata owner (negb exists_) bh (wr_amount_raw r) in
      cause n r (row_signed (EncodeToString (snd tx)) (EncodeBase58 (fst tx)) (EncodeBase58 bh) (i64 height) expires t r)
  | broadcast answer t : wr_state r = WithdrawalSigned -> sent n (wr_signed_wire r) answer ->
      (forall e, answer = Err e -> already_landed (ToLower (err_text e)) = true) -> cause n r (row_broadcast t r)
  | finalized st n' t : wr_state r = WithdrawalBroadcast -> status_is n (wr_signature r) (Some st) n' -> Finalized st = true ->
      cause n r (row_finalized t r)
  | returned reason : hopeless n r reason -> cause n r (row_stopped WithdrawalRestored reason r).

(** The others add withdrawals, and move none. *)
Definition rows_kept (o : outside) : Prop := forall k d id r,
  withdrawals d !! id = Some r -> withdrawals (o_others o k d) !! id = Some r.

Context (o : outside) (Ho : rows_kept o).

Lemma snd_wrap {A} fmt (m : W N A) w : snd (wwrap fmt m o w) = snd (m o w).
Proof. unfold wwrap, wattempt. by destruct (m o w) as [[[a|e]|] w']. Qed.
Lemma snd_discard {A} (m : W N A) w : snd (discardW m o w) = snd (m o w).
Proof. unfold discardW, wbind. by destruct (m o w) as [[[a|e]|] w']. Qed.

(** A question to the node, its error wrapped. *)
Lemma asked {A B} fmt (f : N -> res A * N) (k : A -> W N B) (w : world N) :
  wbind (wwrap fmt (callNode f)) k o w =
    let w' := mkWorld (w_db w) (snd (f (w_node w))) (w_calls w) in
    match fst (f (w_node w)) with Ok a => k a o w' | Err e => (Some (Err (Wrapf fmt e)), w') end.
Proof. unfold wbind, wwrap, wattempt, callNode. by destruct (f (w_node w)) as [[a|e] n]. Qed.

Lemma call_touches {A} (m : store A) id P (w : world N) :
  (forall e d, touches id P d (snd (run m e d))) -> touches id P (w_db w) (w_db (snd (callStore m o w))).
Proof using Ho.
  intros Hm k r Hr. unfold callStore. apply (Ho (w_calls w)) in Hr.
  destruct (Hm (o_env o (w_calls w)) (o_others o (w_calls w) (w_db w)) k r Hr) as (r' & Hr' & C).
  exists r'. by destruct (run _ _ _).
Qed.
(** A step of the machine at the clock, its result dropped. *)
Lemma step_touches {A} (m : time -> store A) fmt id P (w : world N) :
  (forall t e d, touches id P d (snd (run (m t) e d))) ->
  touches id P (w_db w) (w_db (snd ((let* t := clock in discardW (wwrap fmt (callStore (m t)))) o w))).
Proof using Ho. intros Hm. unfold wbind at 1, clock. cbv beta iota. rewrite snd_discard, snd_wrap. by apply call_touches. Qed.

Lemma stop_cause n id r reason (d d' : db) : withdrawals d !! id = Some r -> hopeless n r reason ->
  touches id (becomes (fun _ => row_stopped WithdrawalRestored reason)) d d' -> touches id (cause n) d d'.
Proof. intros Hr Hh. apply touches_mono. intros r0 r' Hr0 [_ ->]. simplify_eq. by apply returned. Qed.

(** Decodes of an address that the worker turns away. *)
Lemma signAndStore_cause id r (w : world N) :
  withdrawals (w_db w) !! id = Some r -> wr_state r = WithdrawalReserved ->
  touches id (cause (w_node w)) (w_db w) (w_db (snd (signAndStore s (scanWithdrawal id r) o w))).
Proof using Ho.
  intros Hr Hst. unfold signAndStore. cbn [scanWithdrawal wd_DestinationWallet wd_ID wd_AmountRaw].
  assert (Hinvalid : (forall owner, DecodeBase58 (wr_destination_wallet r) PublicKeyBytes = Ok owner -> length owner <> 32%nat) ->
    touches id (cause (w_node w)) (w_db w) (w_db (snd ((let* t := clock in
      restore "restore after invalid destination: %w" id "invalid destination wallet" t) o w)))).
  { intros H. eapply stop_cause; [exact Hr|by apply no_destination|].
    apply step_touches. intros. apply restored_touches. }
  destruct (DecodeBase58 (wr_destination_wallet r) PublicKeyBytes) as [owner|e] eqn:Ed; [|by apply Hinvalid].
  destruct (Z.of_nat (length owner) =? PublicKeyBytes) eqn:El; cbn [negb].
  2:{ apply Hinvalid. intros ? [= <-] Hl. rewrite Hl in El. done. }
  apply Z.eqb_eq in El. clear Hinvalid. destruct (AssociatedTokenAddress owner _ _) as [ata|e] eqn:Ea; [|reflexivity].
  rewrite asked. cbv zeta.
  destruct (node_AccountExists (EncodeBase58 ata) (w_node w)) as [[ex|e] n1] eqn:Ex; [|reflexivity].
  cbn [fst snd]. rewrite asked. cbv zeta. cbn [w_node w_db w_calls].
  destruct (node_LatestBlockhash n1) as [[[bh height]|e] n2] eqn:Eb; [|reflexivity]. cbn [fst snd].
  set (w2 := mkWorld (w_db w) n2 (w_calls w)). change (w_db w) with (w_db w2) at 1.
  set (tx := signedTransaction s ata owner (negb ex) bh (wr_amount_raw r)).
  eapply touches_mono; [|apply (step_touches (fun t => MarkWithdrawalSigned id (EncodeToString (snd tx)) (EncodeBase58 (fst tx))
     (EncodeBase58 bh) height (t + ws_blockhashMaxAge s) t) "mark signed: %w" id (fun r r' => exists expires t,
       r' = row_signed (EncodeToString (snd tx)) (EncodeBase58 (fst tx)) (EncodeBase58 bh) (i64 height) expires t r))].
  - intros r0 r' Hr0 (expires & t & ->). change (withdrawals (w_db w) !! id = Some r0) in Hr0. simplify_eq.
    eapply signed; eauto. unfold PublicKeyBytes in El. lia.
  - intros t e d. eapply touches_mono; [|apply signed_touches]. intros ? ? _ [t0 ->]. by do 2 eexists.
Qed.

Lemma broadcastStored_cause id r (w : world N) :
  withdrawals (w_db w) !! id = Some r -> wr_state r = WithdrawalSigned ->
  touches id (cause (w_node w)) (w_db w) (w_db (snd (broadcastStored (scanWithdrawal id r) o w))).
Proof using Ho.
  intros Hr Hst. unfold broadcastStored. cbn [scanWithdrawal wd_SignedWire wd_ID].
  destruct (String.eqb _ "") eqn:Ew; [reflexivity|].
  destruct (wr_signed_wire r) as [wire|] eqn:Hw; [|done]. change (opt_str (Some wire)) with wire in *.
  destruct (DecodeString wire) as [tx|e] eqn:Ed.
  2:{ eapply stop_cause; [exact Hr|eapply no_transaction; [done|done|by rewrite Ed]|].
      apply step_touches. intros. apply restored_touches. }
  unfold wattempt at 1, callNode at 1. destruct (node_SendTransaction tx (w_node w)) as [res n1] eqn:Es.
  assert (Hsent : sent (w_node w) (wr_signed_wire r) res) by (exists wire, tx; by rewrite Es).
  set (w1 := mkWorld (w_db w) n1 (w_calls w)). change (w_db w) with (w_db w1) at 1.
  assert (Hb : (forall e, res = Err e -> already_landed (ToLower (err_text e)) = true) ->
    touches id (cause (w_node w)) (w_db w1) (w_db (snd (markBroadcast id o w1)))).
  { intros Hres. eapply touches_mono; [|apply step_touches; intros; apply broadcast_touches].
    intros r0 r' Hr0 [t ->]. change (withdrawals (w_db w) !! id = Some r0) in Hr0. simplify_eq. by eapply broadcast. }
  destruct res as [sig|e]; [by apply Hb|]. cbv zeta. destruct (already_landed _) eqn:Ea; [apply Hb; by intros ? [= <-]|].
  destruct (says_expired _) eqn:Ee; [|reflexivity].
  eapply (stop_cause (w_node w)); [exact Hr|by eapply refused_expired|]. apply step_touches. intros. apply restored_touches.
Qed.

Lemma finalizeOrRestore_cause id r (w : world N) :
  withdrawals (w_db w) !! id = Some r -> wr_state r = WithdrawalBroadcast ->
  touches id (cause (w_node w)) (w_db w) (w_db (snd (finalizeOrRestore (scanWithdrawal id r) o w))).
Proof using Ho.
  intros Hr Hst. unfold finalizeOrRestore. cbn [scanWithdrawal wd_Signature wd_ID wd_LastValidBlockHeight].
  destruct (String.eqb _ "") eqn:Ew; [reflexivity|]. apply String.eqb_neq in Ew.
  destruct (wr_signature r) as [sig|] eqn:Hw; [|done]. change (opt_str (Some sig)) with sig in *.
  rewrite asked. cbv zeta.
  destruct (node_GetSignatureStatuses [sig] (w_node w)) as [[l|e] n1] eqn:Eg; [|reflexivity]. cbn [fst snd]. set (w1 := mkWorld (w_db w) n1 (w_calls w)). change (w_db w) with (w_db w1) at 1.
  assert (Hs : status_is (w_node w) (wr_signature r) (default None (head l)) n1) by (by exists sig, l).
  unfold wbind at 1, clock. cbv beta iota zeta. generalize (e_now (o_env o (w_calls w1))). intros t.
  destruct (default None (head l)) as [st|].
  - destruct (Finalized st) eqn:Ef.
    + rewrite snd_discard, snd_wrap. eapply touches_mono; [|apply call_touches; intros; apply finalized_touches].
      intros r0 r' Hr0 [t' ->]. change (withdrawals (w_db w) !! id = Some r0) in Hr0. simplify_eq. by eapply finalized.
    + destruct (has_err st) eqn:Eh; [|reflexivity]. eapply (stop_cause (w_node w)); [exact Hr|by eapply failed|].
      unfold restore. rewrite snd_discard, snd_wrap. apply call_touches. intros. apply restored_touches.
  - destruct (wr_last_valid_block_height r) as [last|] eqn:El; [|reflexivity].
    destruct (last >=? 0); [|reflexivity]. rewrite asked. cbv zeta.
    destruct (node_GetBlockHeight (w_node w1)) as [[height|e] n2] eqn:Eh; [|reflexivity]. cbn [fst snd].
    destruct (height >? last) eqn:Eg2; [|reflexivity]. apply Z.gtb_lt in Eg2.
    eapply (stop_cause (w_node w)); [exact Hr|eapply lapsed; [done|done|done| |exact Eg2]; simpl in Eh; by rewrite Eh|].
    unfold restore. rewrite snd_discard, snd_wrap.
    exact (call_touches (RestoreWithdrawal id "blockhash_expired_unconfirmed" t) id _ (mkWorld (w_db w) n2 (w_calls w))
      (fun e d => restored_touches id _ t e d)).
Qed.

Lemma advance_cause id r (w : world N) : withdrawals (w_db w) !! id = Some r ->
  touches id (cause (w_node w)) (w_db w) (w_db (snd (advance s (scanWithdrawal id r) o w))).
Proof using Ho.
  intros Hr. unfold advance. cbn [scanWithdrawal wd_State]. destruct (wr_state r) eqn:E; try reflexivity.
  - by apply signAndStore_cause.
  - by apply broadcastStored_cause.
  - by apply finalizeOrRestore_cause.
Qed.

(** ** A pass *)
(** The world when the withdrawals before [n] have had their turn. *)
Notation turn l w := (snd (advanceAll s (map (fun p => scanWithdrawal (fst p) (snd p)) l) 0 o w)).

Lemma advanceAll_count due : forall n m (w : world N), snd (advanceAll s due n o w) = snd (advanceAll s due m o w).
Proof.
  induction due as [|wd due IH]; intros n m w; simpl; [done|]. unfold wbind, cancelled, wattempt.
  destruct (o_cancelled o (w_calls w)); [done|]. destruct (advance s wd o w) as [[[u|e]|] w1]; [apply IH|apply IH|done].
Qed.
(** One withdrawal's turn, when the pass gets to it. *)
Lemma advanceAll_cons wd due n (w : world N) :
  snd (advanceAll s (wd :: due) n o w) = w \/
  (forall due' m, let w1 := snd (advance s wd o w) in
    snd (advanceAll s (wd :: due') m o w) = snd (advanceAll s due' 0 o w1)) \/
  snd (advanceAll s (wd :: due) n o w) = snd (advance s wd o w).
Proof.
  simpl. unfold wbind, cancelled, wattempt. destruct (o_cancelled o (w_calls w)); [by left|].
  destruct (advance s wd o w) as [[[u|e]|] w1]; simpl; [right; left; intros; apply advanceAll_count..|by right; right].
Qed.

Definition in_table (d : db) (p : Z * WithdrawalRow) : Prop := withdrawals d !! fst p = Some (snd p).
Lemma advanceAll_cause l : forall n (w : world N), NoDup l.*1 -> Forall (in_table (w_db w)) l ->
  forall id r, withdrawals (w_db w) !! id = Some r ->
  exists r', withdrawals (w_db (snd (advanceAll s (map (fun p => scanWithdrawal (fst p) (snd p)) l) n o w))) !! id = Some r' /\
    (r' = r \/ exists before after, l = before ++ (id, r) :: after /\ cause (w_node (turn before w)) r r').
Proof using Ho.
  induction l as [|[k rk] l IH]; intros n w Hnd Hl id r Hr; [exists r; by split; [|left]|].
  apply NoDup_cons in Hnd as [Hk Hnd]. apply Forall_cons in Hl as [Hrk Hl]. unfold in_table in Hrk. cbn [fst snd] in *.
  pose proof (advance_cause k rk w Hrk) as Hadv. cbn [map fst snd].
  destruct (Hadv id r Hr) as (r1 & Hr1 & C1).
  assert (Hhere : r1 = r \/ exists before after, (k, rk) :: l = before ++ (id, r) :: after /\ cause (w_node (turn before w)) r r1).
  { destruct C1 as [?|[-> C1]]; [by left|]. right. exists [], l. by simplify_eq. }
  destruct (advanceAll_cons (scanWithdrawal k rk) (map (fun p => scanWithdrawal (fst p) (snd p)) l) n w) as [E|[E|E]].
  - exists r. rewrite E. by split; [|left].
  - cbv zeta in E. rewrite E. set (w1 := snd (advance s (scanWithdrawal k rk) o w)) in *.
    assert (Hl1 : Forall (in_table (w_db w1)) l).
    { rewrite Forall_forall in Hl |- *. intros [j rj] Hj. destruct (Hadv j rj (Hl _ Hj)) as (r2 & Hr2 & [->|[-> _]]); [done|].
      destruct Hk. apply list_elem_of_fmap. by exists (k, rj). }
    destruct (IH 0 w1 Hnd Hl1 id r1 Hr1) as (r' & Hr' & C). exists r'. split; [done|].
    destruct C as [->|(before & after & -> & C)]; [done|]. destruct (decide (id = k)) as [->|Hne].
    { destruct Hk. apply list_elem_of_fmap. exists (k, r1). split; [done|]. apply elem_of_app. right. left. }
    destruct C1 as [->|[? _]]; [|done]. right. exists ((k, rk) :: before), after. split; [done|].
    cbn [map fst snd]. by rewrite E.
  - exists r1. by rewrite E.
Qed.

Lemma sweep_reads limit (w : world N) :
  let out := callStore (SweepWithdrawalsDue limit) o w in
  w_db (snd out) = o_others o (w_calls w) (w_db w) /\
  forall due, fst out = Some (Ok due) -> exists l, due = map (fun p => scanWithdrawal (fst p) (snd p)) l /\
    NoDup l.*1 /\ Forall (in_table (w_db (snd out))) l.
Proof.
  cbv zeta. unfold callStore. set (d := o_others o (w_calls w) (w_db w)). set (e := o_env o (w_calls w)). clearbody d e.
  unfold run, SweepWithdrawalsDue, with_tx, begin_tx, bind, wrap, tx_stmt, commit, ret, sql_due_withdrawals, query.
  set (l := select wr_reserved_le (fun p => open_state (wr_state (snd p)) = true) (Z.to_nat (clampLimit 100 20 limit)) (withdrawals d)).
  repeat (cbn -[select]; case_match; try congruence; simplify_eq/=); try (by split).
  all: split; [done|]; intros due [= <-]; exists l; split; [done|]; split; [apply select_NoDup|];
    apply Forall_forall; intros [k r] Hk; apply select_In in Hk as [Hk _]; exact Hk.
Qed.

(** C5: a withdrawal moves only for cause.  Whatever the node answers, whatever is lost
    and whenever the worker is stopped, a pass leaves every withdrawal in the table as it
    was, or moves it once, when it is its turn in the sweep's list, for what the node
    says at that moment or what the row holds: reserved to signed with the transaction of
    its own amount to its own destination on the blockhash the node just gave; signed to
    broadcast when the node takes the stored transaction or says it has landed; broadcast
    to finalized when the node says its signature is finalized; and to restored, the
    money going back, only when its destination is no address, its stored transaction
    does not decode, the node refuses it as expired, the node says its signature failed,
    or the node does not know its signature and is then past its last valid block.  A
    withdrawal whose signature the node reports as pending is never returned; one that
    lands between the two questions of the last case is ([restore_races_landing]). *)
Theorem withdrawals_move_for_cause (w : world N) id r :
  withdrawals (w_db w) !! id = Some r ->
  exists r', withdrawals (w_db (snd (RunOnce s o w))) !! id = Some r' /\
    (r' = r \/ exists before after w0,
       callStore (SweepWithdrawalsDue (ws_batchLimit s)) o w =
         (Some (Ok (map (fun p => scanWithdrawal (fst p) (snd p)) (before ++ (id, r) :: after))), w0) /\
       cause (w_node (turn before w0)) r r').
Proof using Ho.
  intros Hr. unfold RunOnce. pose proof (sweep_reads (ws_batchLimit s) w) as Hs. cbv zeta in Hs.
  unfold wbind, wwrap, wattempt. destruct (callStore _ o w) as [[[due|e]|] w0]; cbn [fst snd] in Hs; destruct Hs as [Hdb Hs].
  2,3: exists r; cbn; rewrite Hdb; split; [by apply Ho|by left].
  destruct (Hs due eq_refl) as (l & -> & Hnd & Hl). unfold wret.
  destruct (advanceAll_cause l 0 w0 Hnd Hl id r) as (r' & Hr' & C); [rewrite Hdb; by apply Ho|].
  exists r'. split; [done|]. destruct C as [?|(before & after & -> & C)]; [by left|]. right. by exists before, after, w0.
Qed.
End Cause.

(** ** A worker and its nodes *)
Definition prompt_node : withdrawRPC unit := {|
  node_AccountExists _ n := (Ok true, n);
  node_LatestBlockhash n := (Ok (repeat (byteZ 7) 32, 500), n);
  node_SendTransaction _ n := (Ok "sig"%string, n);
  node_GetSignatureStatuses _ n := (Ok [Some (mkSigStatus 0 None (mkTxErr None None) "finalized")], n);
  node_GetBlockHeight n := (Ok 1, n);
  err_text _ := ""%string |}.
Definition demo_worker : withdrawService :=
  mkWithdrawService (fun _ => repeat (byteZ 1) 64) [] []
    (decoded "EsmcTrdLkFqV3mv4CjLF3AmCx132ixfFSYYRWD78cDzR") TokenProgramID false 2 0.
Definition quiet_outside : outside := mkOutside (fun k => fine_env (1000 + Z.of_nat k)) (fun _ d => d) (fun _ => false).
Lemma demo_quiet : quiet quiet_outside.
Proof. split; try done. intros k. by eexists. Qed.
(** ** The status and the height *)

(** A node that has not seen the transaction when it is asked for its status; the
    transaction lands in block 100, its last valid one, and the chain is at block
    101 when the height is asked for. *)
Definition landing_node : withdrawRPC bool := {|
  node_AccountExists _ n := (Ok true, n);
  node_LatestBlockhash n := (Ok (repeat (byteZ 7) 32, 100), n);
  node_SendTransaction _ n := (Ok "sig"%string, n);
  node_GetSignatureStatuses _ n := (Ok [None], true);
  node_GetBlockHeight n := (Ok 101, n);
  err_text _ := ""%string |}.

Definition race_ops : list (op * time) := [
  (OpDeposit (mkDeposit "dep" 0 9 "wallet" 5000 None Unassigned None 0), 10); (OpApply "dep" 0 "buyer" zeroTime, 11);
  (OpWithdraw (mkWithdrawalRequest "buyer" "key" "dest" 1000) zeroTime, 12);
  (OpSigned 1 "AQID" "sig" "hash" 100 zeroTime zeroTime, 13); (OpBroadcast 1 zeroTime, 14) ]%string.
Definition race_world : world bool := mkWorld (play race_ops empty_db) false 0.

(** A node that refuses what it is sent, and the client that reads its error. *)
Definition refusing_node (_ : string) (_ : list json) (n : unit) : response * unit :=
  (Body (Some (JObj [("error"%string, JObj [("code"%string, JInt (-32002));
     ("message"%string, JStr "Transaction simulation failed: Blockhash not found")])])), n).
Definition refused : withdrawRPC unit := rpcNode refusing_node
  (fun _ => "solana rpc: sendTransaction error (-32002): Transaction simulation failed: Blockhash not found"%string).
Definition signed_world : world unit := mkWorld (play (take 4 race_ops) empty_db) tt 0.

Lemma withdrawals_move_for_cause_witness : exists r r',
  withdrawals (w_db signed_world) !! 1 = Some r /\
  withdrawals (w_db (snd (@RunOnce unit refused demo_worker quiet_outside signed_world))) !! 1 = Some r' /\
  (wr_state r, wr_state r') = (WithdrawalSigned, WithdrawalRestored) /\
  exists n, @cause unit refused demo_worker n r r'.
Proof.
  destruct (withdrawals (w_db signed_world) !! 1) as [r|] eqn:E; [|vm_compute in E; discriminate].
  destruct (@withdrawals_move_for_cause unit refused demo_worker quiet_outside (fun _ _ _ _ H => H) signed_world 1 r E)
    as (r' & E' & H).
  assert (Hs : (wr_state r, wr_state r') = (WithdrawalSigned, WithdrawalRestored)).
  { vm_compute in E. injection E as <-. vm_compute in E'. injection E' as <-. reflexivity. }
  exists r, r'. split; [reflexivity|]. split; [exact E'|]. split; [exact Hs|].
  destruct H as [->|(before & after & w0 & _ & H)]; [injection Hs; congruence|]. eexists. exact H.
Defined.

(** a withdrawal can be paid twice: the worker asks for the status first and for
    the block height afterwards, so a transaction that lands in between, in its last
    valid block, is taken for one that can no longer land. The whole credit is given
    back for a transfer that went through, without any failure of the node or the
    database. *)
Theorem restore_races_landing :
  let w' := snd (@RunOnce bool landing_node demo_worker quiet_outside race_world) in
  w_node w' = true /\
  wr_state <$> withdrawals (w_db w') !! 1 = Some WithdrawalRestored /\
  (credit_of "buyer" (w_db race_world), credit_of "buyer" (w_db w')) = (4000, 5000).
Proof. vm_compute. split; [reflexivity|]. split; reflexivity. Qed.
