(* ===== verification/Recon.v ===== *)
(** * internal/store/reconciliation.go: committing and auditing an account

    The pages of an account's ledger as Merkle leaves, the proof of one row, the sums
    of open and failed settlement batches, and the list of wallet links.  The reads
    are statements on the pool. *)
From Stdlib Require Import ZArith Lia Strings.String.
From stdpp Require Import base gmap strings list fin_maps sorting.
From S2P Require Import Prelude Billing Sha256 Merkle Tx Schema BillingStore WithdrawalStore DepositStore AllowanceStore SettlementStore Market Worker.

Open Scope Z_scope.
Open Scope tx_scope.

Record MerkleSummary := mkSummary { ms_Root : bytes; ms_LeafCount : Z }.
Record ExposureSummary := mkExposure { ex_RestoredCount : Z; ex_RestoredRaw : Z }.
Record WalletAccount := mkWalletAccount { wa_AccountID : string; wa_Wallet : string }.

(** ** Pages of leaves *)
Definition leaf_input (r : LedgerRow) : LedgerLeafInput :=
  mkLeafInput (lg_id r) (lg_delta_raw r) (lg_source r) (lg_leg r) (opt_str (lg_counterparty r))
    (opt_str (lg_ref r)) (lg_created_at r).

Definition id_le (x y : LedgerRow) : Prop := lg_id x <= lg_id y.
#[export] Instance id_le_dec : RelDecision id_le.
Proof. intros x y. unfold id_le. apply _. Defined.

(** SELECT ... WHERE account_id = $1 AND id > $2 ORDER BY id LIMIT $3 *)
Definition sql_leaf_page (a : string) (afterID limit : Z) : stmt db (list LedgerRow) := query (fun d =>
  take (Z.to_nat limit)
    (merge_sort id_le (filter (fun r => lg_account_id r = a /\ afterID < lg_id r) (ledger d)))).

Definition LedgerLeafPage (a : string) (afterID limit : Z) : store (list LedgerLeafInput) :=
  let limit := clampLimit 10000 1000 limit in
  let! rows := wrap "store: ledger leaf page: %w" (pool_stmt (sql_leaf_page a afterID limit)) in
  ret (map leaf_input rows).

Definition sql_rank (a : string) (id : Z) : stmt db Z := query (fun d =>
  Z.of_nat (length (filter (fun r => lg_account_id r = a /\ lg_id r < id) (ledger d)))).
Definition sql_row_exists (a : string) (id : Z) : stmt db bool := query (fun d =>
  existsb (fun r => String.eqb (lg_account_id r) a && (lg_id r =? id)) (ledger d)).

(** The index and whether the row exists. *)
Definition LedgerLeafIndex (a : string) (id : Z) : store (Z * bool) :=
  let! n := wrap "store: ledger leaf index: %w" (pool_stmt (sql_rank a id)) in
  let! exists_ := wrap "store: ledger leaf index: %w" (pool_stmt (sql_row_exists a id)) in
  ret (if exists_ : bool then (n, true) else (0, false)).

(** The loop over the pages.  Each page but the last holds 1000 rows, so as many rounds
    as the ledger has rows are enough. *)
Fixpoint leafPages (fuel : nat) (a : string) (after : Z) : store (list LedgerLeafInput) :=
  match fuel with
  | O => ret []
  | S k =>
    let! page := LedgerLeafPage a after 1000 in
    match last page with
    | None => ret []
    | Some r =>
      if (Z.of_nat (length page) <? 1000) then ret page
      else
        let! rest := leafPages k a (li_ID r) in
        ret (page ++ rest)
    end
  end.
Definition allLeaves (a : string) : store (list LedgerLeafInput) := fun e c =>
  leafPages (S (length (ledger (c_db c)))) a 0 e c.

Definition MerkleProofForLedgerRow (a : string) (id : Z) : store (bytes * list bytes * bytes * Z) :=
  let! ix := LedgerLeafIndex a id in
  let '(index, ok) := ix in
  if negb ok then fail ErrNotFound else
  let! rows := allLeaves a in
  let leaves := map LedgerLeaf rows in
  if Z.of_nat (length leaves) <=? index then fail (Errorf "store: merkle proof: index %d beyond %d leaves") else
  let! path := wrap "store: merkle proof: %w" (lift (MerklePath leaves index)) in
  ret (nth (Z.to_nat index) leaves [], path, MerkleRoot leaves, Z.of_nat (length leaves)).

Definition AccountMerkleSummary (a : string) : store MerkleSummary :=
  let! rows := allLeaves a in
  ret (mkSummary (MerkleRoot (map LedgerLeaf rows)) (Z.of_nat (length rows))).

(** ** Batches *)
Definition terminally_failed (s : DelegationSettlementState) : bool :=
  match s with SettlementRestored | SettlementFailed => true | _ => false end.
Definition failed_batch (a : string) (r : SettlementRow) : bool :=
  String.eqb (sr_buyer_account r) a && terminally_failed (sr_state r).
Definition SettlementExposure (a : string) : store ExposureSummary :=
  wrap "store: settlement exposure: %w" (
    let! cs := pool_stmt (query (fun d =>
      (map_sum (fun r => if failed_batch a r then 1 else 0) (settlements d),
       map_sum (fun r => if failed_batch a r then sr_amount_raw r else 0) (settlements d)))) in
    if bool_decide (in_i64 (snd cs)) then ret (mkExposure (fst cs) (snd cs))
    else fail (Errorf "can't scan into dest: out of range")).

(** The groups: the delegates of the account's open batches, with their sums. *)
Definition open_batch (a del : string) (r : SettlementRow) : bool :=
  String.eqb (sr_buyer_account r) a && String.eqb (sr_delegate r) del && open_settlement (sr_state r).
Definition open_total (a del : string) (d : db) : Z :=
  map_sum (fun r => if open_batch a del r then sr_amount_raw r else 0) (settlements d).
Definition open_delegates (a : string) (d : db) : list string :=
  map sr_delegate (List.filter (fun r => String.eqb (sr_buyer_account r) a && open_settlement (sr_state r))
    (map snd (map_to_list (settlements d)))).
Definition InFlightSettlements (a : string) : store (gmap string Z) :=
  wrap "store: in-flight settlements: %w" (
    let! m := pool_stmt (query (fun d =>
      list_to_map (map (fun del => (del, open_total a del d)) (open_delegates a d)) : gmap string Z)) in
    if bool_decide (map_Forall (fun _ z => in_i64 z) m) then ret m
    else fail (Errorf "can't scan into dest: out of range")).

(** ** internal/store/allowance.go: the links the poller inspects *)
Definition link_before (x y : WalletAccount) : Prop := String.leb (wa_AccountID x) (wa_AccountID y) = true.
#[export] Instance link_before_dec : RelDecision link_before.
Proof. intros x y. unfold link_before. apply _. Defined.
Definition LinkedWalletAccounts : store (list WalletAccount) :=
  wrap "store: linked wallet accounts: %w" (pool_stmt (query (fun d =>
    merge_sort link_before (map (fun aw => mkWalletAccount (fst aw) (snd aw)) (map_to_list (wallets d)))))).

(** * The store's read methods change nothing

    One lemma per read, in the hint database [reads]; the clients' files show with them
    what a process can change. *)
Create HintDb reads discriminated.

Lemma read_only {A} (f : db -> A) d a d' : query f d = Ok (a, d') -> d = d'.
Proof. unfold query. by intros [= _ <-]. Qed.

(** A read by its syntax. *)
Ltac by_read := moves; try (intros; by eapply read_only).

Lemma scan_int64_read (m : store Z) : Moves (=) m -> Moves (=) (scan_int64 m).
Proof. intros Hm. unfold scan_int64. moves. Qed.

Lemma account_read wallet : Moves (=) (AccountForWallet wallet).
Proof. unfold AccountForWallet. by_read. Qed.
Lemma primary_read a : Moves (=) (PrimaryWalletForAccount a).
Proof. unfold PrimaryWalletForAccount. by_read. Qed.
Lemma cursor_read ata : Moves (=) (DepositCursor ata).
Proof. unfold DepositCursor. by_read. Qed.
Lemma links_read : Moves (=) LinkedWalletAccounts.
Proof. unfold LinkedWalletAccounts. by_read. Qed.
Lemma allowances_read a : Moves (=) (AccountAllowances a).
Proof. unfold AccountAllowances. by_read. Qed.
Lemma model_caps_read a : Moves (=) (ModelCapsForAccount a).
Proof. unfold ModelCapsForAccount. by_read. Qed.
Lemma account_credit_read a : Moves (=) (AccountCreditOf a).
Proof. unfold AccountCreditOf. by_read. Qed.
Lemma live_asks_read service model t : Moves (=) (LiveAsks service model t).
Proof. unfold LiveAsks. by_read. Qed.
Lemma live_asks_by_peers_read peers t : Moves (=) (LiveAsksByPeers peers t).
Proof. unfold LiveAsksByPeers. by_read. Qed.
Lemma ask_config_read peers : Moves (=) (AskConfigForPeers peers).
Proof. unfold AskConfigForPeers. by_read. Qed.
Lemma ask_configs_read : Moves (=) AllAskConfigs.
Proof. unfold AllAskConfigs. by_read. Qed.
Lemma ledger_page_read a c limit : Moves (=) (ListLedger a c limit).
Proof. unfold ListLedger. by_read. Qed.
Lemma deposits_page_read a c limit : Moves (=) (ListDepositEvents a c limit).
Proof. unfold ListDepositEvents. by_read. Qed.
Lemma withdrawals_page_read a c limit : Moves (=) (ListWithdrawals a c limit).
Proof. unfold ListWithdrawals. by_read. Qed.
Lemma withdrawal_read a id : Moves (=) (WithdrawalOf a id).
Proof. unfold WithdrawalOf, read_withdrawal, on_pool. by_read. Qed.
Lemma reconcile_read a : Moves (=) (ReconcileAccount a).
Proof. unfold ReconcileAccount, scan_int64. by_read. Qed.
Lemma exposure_read a : Moves (=) (SettlementExposure a).
Proof. unfold SettlementExposure. by_read. Qed.
Lemma in_flight_read a : Moves (=) (InFlightSettlements a).
Proof. unfold InFlightSettlements. by_read. Qed.
Lemma leaf_index_read a id : Moves (=) (LedgerLeafIndex a id).
Proof. unfold LedgerLeafIndex. by_read. Qed.
Lemma leaf_pages_read a : forall fuel after, Moves (=) (leafPages fuel a after).
Proof.
  induction fuel as [|k IH]; intros after; simpl; [apply moves_ret|]. unfold LedgerLeafPage. by_read.
  all: try apply IH.
Qed.
#[local] Hint Resolve leaf_index_read : moves.
Lemma leaves_read a : Moves (=) (allLeaves a).
Proof. intros e c. apply (leaf_pages_read a). Qed.
#[local] Hint Resolve leaves_read : moves.
Lemma merkle_proof_read a id : Moves (=) (MerkleProofForLedgerRow a id).
Proof. unfold MerkleProofForLedgerRow. moves. Qed.
Lemma merkle_summary_read a : Moves (=) (AccountMerkleSummary a).
Proof. unfold AccountMerkleSummary. moves. Qed.

#[export] Hint Resolve account_read primary_read cursor_read links_read allowances_read model_caps_read account_credit_read
  live_asks_read live_asks_by_peers_read ask_config_read ask_configs_read ledger_page_read deposits_page_read
  withdrawals_page_read withdrawal_read reconcile_read exposure_read in_flight_read leaf_index_read merkle_proof_read
  merkle_summary_read : reads.

(** A read leaves the database as it found it. *)
Lemma read_stays {A} (m : store A) e d : Moves (=) m -> snd (run m e d) = d.
Proof. intros Hm. by rewrite <- (moves_run (=) m e d Hm). Qed.
