(* ===== verification/ReconSpec.v ===== *)
(** * The audit reads answer what the ledger holds

    The pages put together are the account's rows in order, the index of a row is its
    position, and the proof that is handed out is accepted by the verifier against the
    root of the summary. *)
From Stdlib Require Import ZArith Lia Strings.String.
From stdpp Require Import base gmap strings list fin_maps sorting.
From S2P Require Import Prelude Sha256 Merkle Billing Tx Schema BillingStore Projection AllowanceStore SettlementStore Reachable BillingSpec StoreSpec Recon.

Open Scope Z_scope.
Open Scope tx_scope.

(** [yields d m r]: run on [d], with or without a transaction open, [m] changes nothing
    and answers [r] unless a round trip is lost, when it fails. *)
Definition yields {A} (d : db) (m : store A) (r : res A) : Prop :=
  forall e c, c_db c = d -> c_db (snd (m e c)) = d /\
    (fst (m e c) = r \/
     (exists x, fst (m e c) = Err x) /\ exists n, e_fault e n <> Fine).

Section Yields.
Context (d : db).
Lemma yields_ret {A} (a : A) : yields d (ret a) (Ok a).
Proof. intros e c <-. auto. Qed.
Lemma yields_fail {A} x : yields d (@fail db A x) (Err x).
Proof. intros e c <-. auto. Qed.
Lemma yields_lift {A} (r : res A) : yields d (lift r) r.
Proof. intros e c <-. auto. Qed.
Lemma yields_bind {A B} (m : store A) (k : A -> store B) a r :
  yields d m (Ok a) -> yields d (k a) r -> yields d (bind m k) r.
Proof.
  intros Hm Hk e c Hc. unfold bind. destruct (Hm e c Hc) as [Hd Hr].
  destruct (m e c) as [[a'|x] c']; simpl in *.
  - destruct Hr as [[= ->]|[[y [=]] _]]. by apply Hk.
  - destruct Hr as [[=]|[_ Hn]]. split; [done|]. right. eauto.
Qed.
Lemma yields_wrap {A} fmt (m : store A) a : yields d m (Ok a) -> yields d (wrap fmt m) (Ok a).
Proof.
  intros Hm e c Hc. unfold wrap. destruct (Hm e c Hc) as [Hd Hr].
  destruct (m e c) as [[a'|x] c']; simpl in *.
  - destruct Hr as [[= ->]|[[y [=]] _]]. auto.
  - destruct Hr as [[=]|[_ Hn]]. split; [done|]. right. eauto.
Qed.
Lemma yields_query {A} (f : db -> A) : yields d (pool_stmt (query f)) (Ok (f d)).
Proof.
  intros e c <-. unfold pool_stmt, query.
  destruct (e_fault e (c_step c)) eqn:E; simpl; (split; [done|]); [by left|right|right];
    (split; [by eexists|]); exists (c_step c); by rewrite E.
Qed.
Lemma yields_run {A} (m : store A) r t : yields d m r -> run m (fine_env t) d = (r, d).
Proof.
  intros Hm. unfold run. destruct (Hm (fine_env t) (mkConn d None false 0) eq_refl) as [Hd Hr].
  destruct (m _ _) as [r' c']. simpl in *. subst.
  destruct Hr as [->|[_ [n Hn]]]; [done|]. by destruct Hn.
Qed.
End Yields.

#[local] Hint Resolve yields_ret yields_fail yields_lift yields_query : otela.

(** ** The account's rows *)
Definition account_rows (a : string) (d : db) : list LedgerRow :=
  filter (fun r => lg_account_id r = a) (ledger d).
Definition after_id (k : Z) (l : list LedgerRow) : list LedgerRow := filter (fun r => k < lg_id r) l.

Notation increasing := (StronglySorted (fun r s => lg_id r < lg_id s)).

Lemma increasing_filter P `{!forall x, Decision (P x)} l : increasing l -> increasing (filter P l).
Proof.
  induction 1 as [|r l Hs IH Hr]; [constructor|]. rewrite filter_cons. destruct (decide _); [|done].
  constructor; [done|]. rewrite Forall_forall in Hr |- *. intros x [_ Hx]%list_elem_of_filter. by apply Hr.
Qed.
Lemma increasing_inj l r s : increasing l -> r ∈ l -> s ∈ l -> lg_id r = lg_id s -> r = s.
Proof.
  induction 1 as [|x l Hs IH Hx]; [set_solver|]. rewrite Forall_forall in Hx.
  intros [->|Hr]%elem_of_cons [->|Hs']%elem_of_cons He; [done| | |auto].
  - specialize (Hx s Hs'). lia.
  - specialize (Hx r Hr). lia.
Qed.
Lemma sort_increasing l : increasing l -> merge_sort id_le l = l.
Proof.
  assert (Ht : Transitive id_le) by (unfold id_le; intros ?; lia).
  assert (Hto : base.Total id_le) by (unfold id_le; intros ?; lia).
  intros Hl. apply (StronglySorted_unique_strong id_le).
  - intros x y Hx Hy H1 H2. rewrite merge_sort_Permutation in Hx. unfold id_le in *.
    apply (increasing_inj l); [done..|lia].
  - by apply StronglySorted_merge_sort.
  - clear -Hl. induction Hl as [|x l Hl IH Hx]; constructor; [done|].
    eapply Forall_impl; [exact Hx|]. unfold id_le. simpl. lia.
  - apply merge_sort_Permutation.
Qed.

(** What follows a row is what has a larger id; its rank is its position. *)
Lemma after_row l0 r l : increasing (l0 ++ r :: l) -> after_id (lg_id r) (l0 ++ r :: l) = l.
Proof.
  intros H. apply StronglySorted_app in H as (H0 & _ & [_ H2]%StronglySorted_inv).
  unfold after_id. rewrite filter_app, filter_cons, decide_False by lia.
  rewrite filter_none, filter_every; [done|exact H2|].
  apply Forall_forall. intros x Hx. specialize (H0 x r Hx (list_elem_of_here _ _)). lia.
Qed.
Lemma rank_split l i r : increasing l -> l !! i = Some r -> length (filter (fun x => lg_id x < lg_id r) l) = i.
Proof.
  intros H Hi. rewrite <- (take_drop_middle l i r Hi) in H |- *.
  apply StronglySorted_app in H as (H0 & _ & [_ H2]%StronglySorted_inv).
  rewrite filter_app, filter_cons, decide_False by lia.
  rewrite filter_every, filter_none, app_nil_r.
  - apply length_take_le. apply lookup_lt_Some in Hi. lia.
  - eapply Forall_impl; [exact H2|]. simpl. lia.
  - apply Forall_forall. intros x Hx. exact (H0 x r Hx (list_elem_of_here _ _)).
Qed.
Lemma after_weaken k r l : k < lg_id r -> after_id (lg_id r) (after_id k l) = after_id (lg_id r) l.
Proof. intros Hk. unfold after_id. rewrite list_filter_filter. apply list_filter_iff. intros x. lia. Qed.

(** ** The pages *)
Lemma page_yields a k d : increasing (ledger d) ->
  yields d (LedgerLeafPage a k 1000) (Ok (map leaf_input (take 1000 (after_id k (account_rows a d))))).
Proof.
  intros Hl. unfold LedgerLeafPage, clampLimit. cbn [Z.leb Z.gtb Z.compare Pos.compare Pos.compare_cont orb].
  eapply yields_bind; [apply yields_wrap, yields_query|]. 
  rewrite sort_increasing by by apply increasing_filter.
  replace (filter (fun r => lg_account_id r = a /\ k < lg_id r) (ledger d)) with (after_id k (account_rows a d)).
  - apply yields_ret.
  - unfold after_id, account_rows. rewrite list_filter_filter. apply list_filter_iff. intros x. tauto.
Qed.

(** One round: the page ends the list, or the next one starts after its last row. *)
Lemma leafPages_all fuel a k d : increasing (ledger d) ->
  (length (after_id k (account_rows a d)) < fuel)%nat ->
  yields d (leafPages fuel a k) (Ok (map leaf_input (after_id k (account_rows a d)))).
Proof.
  intros Hl. revert k. induction fuel as [|fuel IH]; intros k Hf; [lia|]. cbn [leafPages].
  eapply yields_bind; [by apply page_yields|].
  assert (HL : increasing (after_id k (account_rows a d))) by (by do 2 apply increasing_filter).
  assert (Hk : Forall (fun r => k < lg_id r) (after_id k (account_rows a d))).
  { apply Forall_forall. intros x [Hx _]%list_elem_of_filter. done. }
  pose proof (fun r => after_weaken k r (account_rows a d)) as Hw.
  remember (after_id k (account_rows a d)) as L eqn:E.
  assert (Hn : Z.of_nat 1000 = 1000) by done. revert Hn. generalize 1000%nat as n. intros n Hn.
  replace (last (map leaf_input (take n L))) with (leaf_input <$> last (take n L)) by (by rewrite <- fmap_last).
  destruct (last (take n L)) as [r|] eqn:Hr; cbn [fmap option_fmap option_map].
  2: { apply last_None in Hr. destruct L; [apply yields_ret|]. destruct n; [lia|done]. }
  apply last_Some in Hr as [l0 Hr]. rewrite length_map, length_take.
  pose proof (take_drop n L) as HLd. rewrite Hr, <- app_assoc in HLd. simpl in HLd.
  assert (Hrk : k < lg_id r). { rewrite <- HLd, Forall_app, Forall_cons in Hk. tauto. }
  destruct (Z.ltb_spec (Z.of_nat (n `min` length L)) 1000).
  - rewrite take_ge by lia. apply yields_ret.
  - assert (Hrest : after_id (lg_id r) (account_rows a d) = drop n L).
    { rewrite <- Hw by done. rewrite <- HLd in HL |- * at 1. by apply after_row. }
    eapply yields_bind; [apply IH|].
    + simpl. rewrite Hrest, length_drop. lia.
    + simpl. rewrite Hrest, <- map_app, take_drop. apply yields_ret.
Qed.

Lemma allLeaves_yields a d : increasing (ledger d) -> Forall (fun r => 0 < lg_id r) (ledger d) ->
  yields d (allLeaves a) (Ok (map leaf_input (account_rows a d))).
Proof.
  intros Hl H0 e c <-. unfold allLeaves.
  assert (Ha : after_id 0 (account_rows a (c_db c)) = account_rows a (c_db c)).
  { apply filter_every. apply Forall_forall. intros x [_ Hx]%list_elem_of_filter.
    rewrite Forall_forall in H0. by apply H0. }
  rewrite <- Ha at 1. apply leafPages_all; [done| |done].
  rewrite Ha. unfold account_rows. pose proof (length_filter (fun r => lg_account_id r = a) (ledger (c_db c))). lia.
Qed.

Lemma reachable_rows d : Reachable d -> increasing (ledger d) /\ Forall (fun r => 0 < lg_id r) (ledger d).
Proof.
  intros HR. destruct (good_projection _ _ (Reachable_Good _ HR)) as [x HI]. split; [apply HI|].
  eapply Forall_impl; [apply (core_ids _ _ _ _ HI)|]. simpl. lia.
Qed.

Lemma index_yields a d i row : increasing (ledger d) -> account_rows a d !! i = Some row ->
  yields d (LedgerLeafIndex a (lg_id row)) (Ok (Z.of_nat i, true)).
Proof.
  intros Hl Hi. unfold LedgerLeafIndex.
  eapply yields_bind; [apply yields_wrap, yields_query|].
  eapply yields_bind; [apply yields_wrap, yields_query|].
  replace (existsb _ _) with true; cbn match.
  - rewrite <- (rank_split (account_rows a d) i row); [|by apply increasing_filter|done].
    unfold account_rows. rewrite list_filter_filter.
    erewrite (list_filter_iff _ (fun x => lg_id x < lg_id row /\ lg_account_id x = a)); [apply yields_ret|].
    intros x. tauto.
  - symmetry. apply existsb_exists. exists row.
    assert (Hin : row ∈ account_rows a d) by (by eapply list_elem_of_lookup_2).
    apply list_elem_of_filter in Hin as [Ha Hin]. split; [by apply list_elem_of_In|].
    rewrite Ha, String.eqb_refl, Z.eqb_refl. done.
Qed.

(** C37: the inclusion proof of a ledger row is accepted. For the i-th row of an account in
    any reachable database, MerkleProofForLedgerRow, which pages through the whole
    ledger a thousand rows at a time, returns the hash of that row, a path, and exactly
    the root and the count that AccountMerkleSummary reports, and the verifier accepts
    the path at the position LedgerLeafIndex gives; the position is the same in every
    later state. When the account has no such row the answer is ErrNotFound. A method
    fails otherwise only when a round trip is lost, and none changes the database. *)
Theorem merkle_proof_verifies d a :
  Reachable d ->
  let leaves := map LedgerLeaf (map leaf_input (account_rows a d)) in
  let count := Z.of_nat (length leaves) in
  yields d (AccountMerkleSummary a) (Ok (mkSummary (MerkleRoot leaves) count)) /\
  (forall i row, account_rows a d !! i = Some row ->
    (forall d', rtc step d d' -> yields d' (LedgerLeafIndex a (lg_id row)) (Ok (Z.of_nat i, true))) /\
    exists path,
      yields d (MerkleProofForLedgerRow a (lg_id row))
        (Ok (LedgerLeaf (leaf_input row), path, MerkleRoot leaves, count)) /\
      VerifyMerklePath (LedgerLeaf (leaf_input row)) path (Z.of_nat i) count (MerkleRoot leaves) = true) /\
  (forall id, (forall row, row ∈ account_rows a d -> lg_id row <> id) ->
    yields d (MerkleProofForLedgerRow a id) (Err ErrNotFound)).
Proof.
  intros HR leaves count. destruct (reachable_rows d HR) as [Hl H0]. split; [|split].
  - eapply yields_bind; [by apply allLeaves_yields|]. subst count leaves. rewrite (length_map LedgerLeaf). apply yields_ret.
  - intros i row Hi. split.
    + intros d' Hs. apply index_yields.
      * apply reachable_rows. unfold Reachable in *. by etrans.
      * unfold account_rows. destruct (gr_prefix _ _ (steps_grow _ _ Hs)) as [k ->].
        rewrite filter_app. by apply lookup_app_l_Some.
    + assert (Hleaf : leaves !! i = Some (LedgerLeaf (leaf_input row))).
      { pose proof (list_lookup_fmap LedgerLeaf (leaf_input <$> account_rows a d) i) as H.
      pose proof (list_lookup_fmap leaf_input (account_rows a d) i) as H1. rewrite Hi in H1.
      rewrite H1 in H. exact H. }
      destruct (MerklePath_complete leaves (Z.of_nat i) (LedgerLeaf (leaf_input row))) as (path & Hp & Hv);
        [lia|by rewrite Nat2Z.id|].
      exists path. split; [|done].
      eapply yields_bind; [by apply index_yields|]. cbn match beta delta [negb].
      eapply yields_bind; [by apply allLeaves_yields|]. fold leaves. cbv zeta. fold count.
      apply lookup_lt_Some in Hleaf as Hlt. destruct (Z.leb_spec count (Z.of_nat i)); [lia|].
      eapply yields_bind; [apply yields_wrap; rewrite Hp; apply yields_lift|].
      rewrite Nat2Z.id, (nth_lookup_Some leaves i [] _ Hleaf). apply yields_ret.
  - intros id Hid. eapply yields_bind with (a := (0, false)); [|apply yields_fail].
    unfold LedgerLeafIndex. do 2 (eapply yields_bind; [apply yields_wrap, yields_query|]).
    replace (existsb _ _) with false; [apply yields_ret|]. symmetry. apply not_true_iff_false.
    intros (row & Hin%list_elem_of_In & [Ha%String.eqb_eq Hi%Z.eqb_eq]%andb_true_iff)%existsb_exists.
    apply (Hid row); [|done]. by apply list_elem_of_filter.
Qed.

(** The account of the demo: its rows, and the proof of its second one. *)
Lemma merkle_proof_verifies_witness :
  exists path row, account_rows "buyer" demo_db !! 1%nat = Some row /\
    fst (run (MerkleProofForLedgerRow "buyer" (lg_id row)) (fine_env 0) demo_db) =
      Ok (LedgerLeaf (leaf_input row), path,
        MerkleRoot (map LedgerLeaf (map leaf_input (account_rows "buyer" demo_db))),
        Z.of_nat (length (map LedgerLeaf (map leaf_input (account_rows "buyer" demo_db))))).
Proof.
  destruct (merkle_proof_verifies demo_db "buyer" demo_reachable) as (_ & H & _).
  destruct (proj1 (fmap_Some lg_id (account_rows "buyer" demo_db !! 1%nat) 2)) as (row & Hrow & _); [vm_compute; reflexivity|].
  destruct (H 1%nat row Hrow) as (_ & path & Hp & _). exists path, row. split; [exact Hrow|].
  by rewrite (yields_run _ _ _ 0 Hp).
Defined.
