(* ===== verification/Delegations.v ===== *)
(** * internal/delegations/poller.go and reconcile.go: the mirror and its audit

    The poller reads the delegation of every linked wallet's token account and writes
    it to the registry; the reconciler compares the registry with the chain.  The read
    of the chain is the operation [node_TokenDelegation] of a node state. *)
From Stdlib Require Import ZArith Lia Strings.String.
From stdpp Require Import base gmap strings list pretty.
From S2P Require Import Prelude Sha256 Base58 Solana Merkle Billing Rpc Tx Schema BillingStore AllowanceStore SettlementStore Worker Recon.

Open Scope Z_scope.
Local Open Scope worker_scope.
Local Open Scope go_scope.

(** The chain reader: [None] when the token account does not exist. *)
Class chainReader (N : Type) := {
  node_TokenDelegation : string -> N -> res (option TokenDelegate) * N }.

Record poller := mkPoller { po_authority : string; po_mint : string; po_tokenProgram : string; po_refresh : Z }.
Definition NewPoller (authority mint tokenProgram : string) (refresh : Z) : res poller :=
  if String.eqb authority "" then Err (Errorf "delegations: settlement authority is required")
  else if String.eqb mint "" || String.eqb tokenProgram "" then Err (Errorf "delegations: mint and token program are required")
  else Ok (mkPoller authority mint tokenProgram (if refresh <=? 0 then 60000000000 else refresh)).

Definition walletATA (wallet mint tokenProgram : string) : res string :=
  match DecodeBase58 wallet PublicKeyBytes with
  | Err e => Err (Wrapf "linked wallet is not valid base58: %w" e)
  | Ok w =>
    match DecodeBase58 mint PublicKeyBytes with
    | Err e => Err (Wrapf "mint is not valid base58: %w" e)
    | Ok m =>
      match DecodeBase58 tokenProgram PublicKeyBytes with
      | Err e => Err (Wrapf "token program is not valid base58: %w" e)
      | Ok tp =>
        match AssociatedTokenAddress w m tp with
        | Err e => Err (Wrapf "derive ATA: %w" e)
        | Ok ata => Ok (EncodeBase58 ata)
        end
      end
    end
  end.

Definition observationRef (wallet : string) (slot : Z) : string := "obs:" +:+ wallet +:+ ":" +:+ pretty slot.

Section Poller.
Context {N : Type} `{RPC : chainReader N}.

(** What is mirrored when the answer is [td]: an absolute amount, or nothing. *)
Definition mirror (s : poller) (link : WalletAccount) (amount slot : Z) (fmt : string) : W N Z :=
  let* t := clock in
  do* wwrap fmt (callStore (UpsertAllowance (mkChange (wa_AccountID link) (po_authority s) amount t
        (observationRef (wa_Wallet link) slot)))) in
  wret 1.

Definition observeWallet (s : poller) (link : WalletAccount) : W N Z :=
  let* ata := wlift (walletATA (wa_Wallet link) (po_mint s) (po_tokenProgram s)) in
  let* td := wwrap "read token delegation: %w" (callNode (node_TokenDelegation ata)) in
  let elsewhere slot :=
    let* rows := wwrap "read registry: %w" (callStore (AccountAllowances (wa_AccountID link))) in
    if existsb (fun a => String.eqb (al_Delegate a) (po_authority s) && Active a) rows
    then mirror s link 0 slot "mirror revocation: %w"
    else wret 0 in
  match td with
  | Some td =>
    if String.eqb (td_Delegate td) (po_authority s)
    then mirror s link (i64 (td_DelegatedAmountRaw td)) (td_Slot td) "mirror delegation: %w"
    else elsewhere (td_Slot td)
  | None => elsewhere 0
  end.

(** The loop of [RunOnce]: an error of one wallet is logged and skipped. *)
Fixpoint observeWallets (s : poller) (applied : Z) (links : list WalletAccount) : W N Z :=
  match links with
  | [] => wret applied
  | link :: rest =>
    let* over := cancelled in
    if over : bool then wfail (Sentinel "context canceled") else
    let*? r := observeWallet s link in
    match r with
    | Ok wrote => observeWallets s (applied + wrote) rest
    | Err _ => observeWallets s applied rest
    end
  end.
Definition PollOnce (s : poller) : W N Z :=
  let* links := wwrap "delegations: list wallet links: %w" (callStore LinkedWalletAccounts) in
  observeWallets s 0 links.

(** ** The audit *)
Record AllowanceCrossCheck := mkCrossCheck {
  cc_Delegate : string; cc_Active : bool; cc_RegistryAllowanceRaw : Z; cc_InFlightRaw : Z; cc_ExpectedChainRaw : Z;
  cc_ObservedChainRaw : option Z; cc_DivergenceRaw : option Z }.
Record ReconciliationReport := mkReport {
  rp_AccountID : string; rp_Ledger : Reconciliation; rp_Merkle : MerkleSummary;
  rp_Allowances : list AllowanceCrossCheck; rp_Exposure : ExposureSummary }.

Definition observeChain (s : poller) (a : string) : W N (Z * string) :=
  let* wk := wwrap "resolve wallet: %w" (callStore (PrimaryWalletForAccount a)) in
  let '(wallet, ok) := wk in
  if negb ok || String.eqb wallet "" then wret (0, ""%string) else
  let* ata := wlift (walletATA wallet (po_mint s) (po_tokenProgram s)) in
  let* td := wwrap "read token delegation: %w" (callNode (node_TokenDelegation ata)) in
  match td with
  | None => wret (0, ""%string)
  | Some td => wret (td_DelegatedAmountRaw td, td_Delegate td)
  end.

Definition crossCheck (inFlight : gmap string Z) (chain : res (Z * string)) (a : Allowance) : AllowanceCrossCheck :=
  let flight := default 0 (inFlight !! al_Delegate a) in
  let expected := i64 (AllowanceRaw a - flight) in
  let obs := match chain with
    | Ok (raw, delegate) => Some (if String.eqb delegate (al_Delegate a) then i64 raw else 0)
    | Err _ => None
    end in
  mkCrossCheck (al_Delegate a) (bool_decide (RevokedAt a = None)) (AllowanceRaw a) flight expected
    obs (match obs with Some o => Some (i64 (o - expected)) | None => None end).

Definition Report (s : poller) (a : string) : W N ReconciliationReport :=
  let* ledger := wwrap "delegations: reconcile ledger: %w" (callStore (ReconcileAccount a)) in
  let* merkle := wwrap "delegations: reconcile merkle: %w" (callStore (AccountMerkleSummary a)) in
  let* rows := wwrap "delegations: reconcile allowances: %w" (callStore (AccountAllowances a)) in
  let* inFlight := wwrap "delegations: reconcile in-flight: %w" (callStore (InFlightSettlements a)) in
  let* exposure := wwrap "delegations: reconcile exposure: %w" (callStore (SettlementExposure a)) in
  let*? chain := observeChain s a in
  wret (mkReport a ledger merkle (map (crossCheck inFlight chain) rows) exposure).
End Poller.
