(* ===== verification/DelegationsSpec.v ===== *)
(** * What the poller writes

    The registry's rows are well-formed in every state the store reaches; an observation
    makes the registered amount the chain's, whatever batches are in flight. *)
From Stdlib Require Import ZArith Lia Relations.
From stdpp Require Import base gmap strings list fin_maps sorting pretty.
From S2P Require Import Prelude Sha256 Base58 Solana Merkle Billing Rpc Tx Schema BillingStore Projection WithdrawalStore AllowanceStore SettlementStore SettlementInv Reachable Worker BillingSpec StoreSpec SettlementSpec Withdraw WithdrawSpec Recon ReconSpec Delegations.

Open Scope Z_scope.
Open Scope tx_scope.

Lemma run_discard {A} (m : store A) e d r d' : run m e d = (Ok r, d') -> run (discard m) e d = (Ok tt, d').
Proof. unfold run, discard, bind. destruct (m e _) as [[x|y] c]; [|done]. by intros [= _ <-]. Qed.

(** ** The registry's rows *)
Definition registry_row (a del : string) (x : Allowance) : Prop :=
  al_AccountID x = a /\ al_Delegate x = del /\ 0 <= AllowanceRaw x /\
  (is_Some (RevokedAt x) -> AllowanceRaw x = 0).
Definition registry_ok (d : db) : Prop :=
  forall a del x, allowances d !! (a, del) = Some x -> registry_row a del x.

Lemma registry_insert a del x d :
  registry_row a del x -> registry_ok d -> registry_ok (set_allowances (<[(a, del) := x]> (allowances d)) d).
Proof.
  intros Hx Hd a' del' y. simpl. intros [[[= <- <-] <-]|[_ Hy]]%lookup_insert_Some; [done|by apply Hd].
Qed.
Lemma registry_same d d' : allowances d' = allowances d -> registry_ok d -> registry_ok d'.
Proof. unfold registry_ok. by intros ->. Qed.

Lemma upsert_ok a del raw t d u d' : registry_ok d ->
  sql_upsert_allowance a del raw t (if raw =? 0 then Some t else None) d = Ok (u, d') -> registry_ok d'.
Proof.
  intros Hd. unfold sql_upsert_allowance. destruct (Z.ltb_spec raw 0); [done|].
  destruct (credits d !! a); [|done]. intros [= _ <-]. apply registry_insert; [|done].
  split; [done|]. split; [done|]. split; [done|]. simpl.
  destruct (allowances d !! _), (Z.eqb_spec raw 0), (Z.gtb_spec raw 0); intros [? ?]; simpl in *; done || lia.
Qed.
Lemma consume_registry a del n d k d' : registry_ok d ->
  sql_consume_allowance a del n d = Ok (k, d') -> registry_ok d'.
Proof.
  intros Hd. unfold sql_consume_allowance. destruct (allowances d !! (a, del)) as [x|] eqn:Hx; [|intros [= _ <-]; done].
  destruct (Hd _ _ _ Hx) as (<- & <- & ? & ?).
  destruct (bool_decide _ && _) eqn:E; intros [= _ <-]; [|done]. zb.
  apply registry_insert; [|done]. repeat split; simpl; [lia|by intros [? ?]].
Qed.
Lemma refund_ok a del n d u d' : 0 <= n -> registry_ok d ->
  sql_refund_allowance a del n d = Ok (u, d') -> registry_ok d'.
Proof.
  intros Hn Hd. unfold sql_refund_allowance. destruct (allowances d !! (a, del)) as [x|] eqn:Hx; [|intros [= _ <-]; done].
  destruct (Hd _ _ _ Hx) as (<- & <- & ? & ?).
  destruct (bool_decide _); [destruct (bool_decide _); [|done]|intros [= _ <-]; done]. intros [= _ <-].
  apply registry_insert; [|done]. repeat split; simpl; [lia|by intros [? ?]].
Qed.

Definition keeps_registry (d d' : db) : Prop := registry_ok d -> registry_ok d'.
#[export] Instance keeps_registry_preorder : PreOrder keeps_registry.
Proof. split; [by intros d ?|]. intros d1 d2 d3 H1 H2 H. auto. Qed.

Lemma keeps_same d d' : allowances d' = allowances d -> keeps_registry d d'.
Proof. exact (registry_same d d'). Qed.

Lemma claim_keeps p now : Moves keeps_registry (ClaimDelegationSettlements p now).
Proof.
  apply (mv_claim keeps_registry).
  - intros a del n d k d' Hs Hd. by eapply consume_registry.
  - intros v d. by apply keeps_same.
  - intros r d o d' [->|[_ ->]]%eff_insert_settlement; by apply keeps_same.
  - intros id leg d u d' [->|[_ ->]]%eff_anchor; [done|by apply keeps_same].
Qed.
Lemma advance_keeps id from f d n d' : sql_advance_settlement id from f d = Ok (n, d') -> keeps_registry d d'.
Proof. intros [->|(r & _ & _ & ->)]%eff_advance; [done|by apply keeps_same]. Qed.
Lemma upsert_keeps ch : Moves keeps_registry (UpsertAllowance ch).
Proof.
  assert (H1 : forall a del raw t d u d',
    sql_upsert_allowance a del raw t (if raw =? 0 then Some t else None) d = Ok (u, d') -> keeps_registry d d').
  { intros a del raw t d u d' Hs Hd. by eapply upsert_ok. }
  assert (H2 : forall a t d u d', sql_ensure_credit a t d = Ok (u, d') -> keeps_registry d d').
  { intros a t d u d' [->|[v ->]]%eff_ensure; [done|by apply keeps_same]. }
  assert (H3 : forall a f d u d', sql_update_credit a f d = Ok (u, d') -> keeps_registry d d').
  { intros a f d u d' [->|[v ->]]%eff_update_credit; [done|by apply keeps_same]. }
  assert (H4 : forall row d n d', sql_insert_ledger_nothing row d = Ok (n, d') -> keeps_registry d d').
  { intros row d n d' [[-> _]|(-> & _)]%eff_insert_ledger_nothing; by apply keeps_same. }
  assert (H5 : forall A (f : db -> A) d a d', query f d = Ok (a, d') -> keeps_registry d d').
  { intros A f d a d' ->%eff_query. done. }
  unfold UpsertAllowance, mirrorDelta, sql_lock_credit, now_or. moves; eauto.
Qed.

(** A refund gives back what a batch held, which is positive. *)
Lemma restore_keeps id reason now : Preserves (fun d => fresh_ids d /\ registry_ok d) (RestoreSettlement id reason now).
Proof.
  unfold RestoreSettlement. apply preserves_bind; [unfold now_or; destruct (IsZero now); auto with otela|].
  intros t. apply tbody. eapply tattempt_scan with
    (R := fun row w => (fresh_ids w /\ registry_ok w) /\ settlements w !! id = Some row); [auto| |].
  2:{ intros e. destruct (errors_is _ _); [by apply tret|apply tfail]. }
  intros row. apply tif; intros _; zb; [apply tret; tauto|].
  eapply tbind with (R := fun _ w => (fresh_ids w /\ registry_ok w) /\ settlements w !! id = Some row).
  { apply twrap, tstmt. intros w u w' [[HF HR] Hrow] Hs.
    assert (0 <= sr_amount_raw row) by (destruct (HF id row Hrow) as [_ ?]; lia).
    assert (registry_ok w') by (by eapply refund_ok).
    split; [split; [|done]|]; by apply eff_refund in Hs as [->|[v ->]]. }
  intros ?. eapply tbind with (R := fun _ w => fresh_ids w /\ registry_ok w).
  { apply twrap, tstmt. intros w u w' [[HF HR] Hrow] [->|(r & Hr & ->)]%eff_restore_settlement; [done|].
    split; [|by apply (registry_same w)]. simplify_eq. intros k x Hk. simpl in Hk.
    apply lookup_insert_Some in Hk as [[<- <-]|[_ Hk]]; [exact (HF _ _ Hrow)|exact (HF _ _ Hk)]. }
  intros ?. eapply tbind; [by apply tcommit|]. intros ?. by apply tret.
Qed.

Lemma registry_step d o e : fresh_ids d -> registry_ok d -> registry_ok (snd (run (exec_op o) e d)).
Proof.
  intros HF Hd.
  assert (Hmv : Moves keeps_registry (exec_op o) -> registry_ok (snd (run (exec_op o) e d)))
    by (intros H; by apply (moves_run keeps_registry)).
  destruct (is_allowance o) eqn:Ha, (settlement_op o) eqn:Hs; try (by destruct o).
  - destruct o; try done. apply Hmv. simpl. unfold discard. pose proof (upsert_keeps ch). moves.
  - pose proof advance_keeps. destruct o; try done; simpl in *; unfold discard in *.
    + apply Hmv. pose proof (claim_keeps p now). moves.
    + apply Hmv. unfold MarkSettlementSigned, now_or. moves. intros d1 u d2. destruct (bool_decide _); [apply advance_keeps|done].
    + apply Hmv. unfold MarkSettlementBroadcast, now_or. moves; eauto.
    + apply Hmv. unfold FinalizeSettlement, now_or. moves; eauto.
    + enough (fresh_ids (snd (run (discard (RestoreSettlement id reason now)) e d)) /\
        registry_ok (snd (run (discard (RestoreSettlement id reason now)) e d))) by (unfold discard in *; tauto).
      apply (preserves_run (fun d => fresh_ids d /\ registry_ok d)); [|done].
      apply discard_preserves, restore_keeps.
    + apply Hmv. unfold SweepDelegationSettlements. moves. by intros d1 u d2 ->%eff_query.
  - destruct (moves_run _ _ e d (same_exposure_op o Ha Hs)) as [H _]. by apply (registry_same d).
Qed.

Lemma Reachable_registry d : Reachable d -> registry_ok d.
Proof.
  unfold Reachable. intros Hs. apply rtc_ind_r with (P := fun d => registry_ok d) in Hs; [done|by intros a del x|].
  intros d1 d2 HR (o & e & ->) Hd. apply registry_step; [by apply Reachable_fresh|done].
Qed.

(** ** What the mirror does *)
Definition mirrored_row (ch : AllowanceChange) (t : time) (d : db) : Allowance :=
  let raw := ch_AllowanceRaw ch in
  mkAllowance (ch_AccountID ch) (ch_Delegate ch) raw t
    (match allowances d !! (ch_AccountID ch, ch_Delegate ch) with
     | None => if raw =? 0 then Some t else None
     | Some _ => if raw >? 0 then None else Some t
     end).
Definition mirrored_delta (ch : AllowanceChange) (d : db) : Z :=
  i64 (ch_AllowanceRaw ch - allowance_of (ch_AccountID ch) (ch_Delegate ch) d).
Definition mirrored_leg (ch : AllowanceChange) (d : db) : string :=
  if mirrored_delta ch d <? 0 then "revoke" else "grant".
Definition mirrored (ch : AllowanceChange) (t : time) (d : db) : AllowanceChangeResult * db :=
  let a := ch_AccountID ch in
  let prev := allowance_of a (ch_Delegate ch) d in
  let delta := mirrored_delta ch d in
  let d1 := ensured a t d in
  let d2 := set_allowances (<[(a, ch_Delegate ch) := mirrored_row ch t d]> (allowances d1)) d1 in
  if delta =? 0 then (mkChangeResult prev 0 0, d2)
  else if ledger_taken (Some (ch_Ref ch)) (mirrored_leg ch d) (ledger d)
  then (mkChangeResult prev 0 0, set_ledger_seq (ledger_seq d2 + 1) d2)
  else
    let d3 := append_ledger (movement a delta "delegation" (mirrored_leg ch d) (ch_Delegate ch) (ch_Ref ch) t) d2 in
    let row := default (zero_row t) (credits d !! a) in
    let cs := clampCredit (cr_credit_raw row) (cr_reserved_raw row) delta in
    (mkChangeResult prev delta (snd cs), set_credits (<[a := set_credit_to (fst cs) t row]> (credits d3)) d3).

Lemma ensured_frame a t d :
  allowances (ensured a t d) = allowances d /\ ledger (ensured a t d) = ledger d /\
  ledger_seq (ensured a t d) = ledger_seq d /\ settlements (ensured a t d) = settlements d.
Proof. unfold ensured. by destruct (credits d !! a). Qed.

Lemma clamp_fits credit reserved delta : 0 <= reserved <= maxI64 ->
  reserved <= fst (clampCredit credit reserved delta) <= maxI64.
Proof.
  intros H. unfold clampCredit. pose proof (i64_range (credit + delta)). unfold in_i64, maxI64, two63 in *.
  destruct (Z.ltb_spec (i64 (credit + delta)) reserved); simpl; lia.
Qed.

Section Mirror.
Context (ch : AllowanceChange) (now t : time) (d : db).
Context (Hok : rows_ok d) (Hch : checkChange ch = None).
Let a := ch_AccountID ch.
Let prev := allowance_of a (ch_Delegate ch) d.
Let d2 := set_allowances (<[(a, ch_Delegate ch) := mirrored_row ch t d]> (allowances (ensured a t d))) (ensured a t d).

Lemma upsert_row_Ok :
  sql_upsert_allowance a (ch_Delegate ch) (ch_AllowanceRaw ch) t
    (if ch_AllowanceRaw ch =? 0 then Some t else None) (ensured a t d) = Ok (tt, d2).
Proof using Hch.
  unfold sql_upsert_allowance. destruct (Z.ltb_spec (ch_AllowanceRaw ch) 0) as [Hneg|_].
  { exfalso. revert Hch. unfold checkChange. destruct (_ || _); [done|].
    destruct (Z.ltb_spec (ch_AllowanceRaw ch) 0); [done|lia]. }
  rewrite ensured_row. unfold d2, mirrored_row. by rewrite (proj1 (ensured_frame a t d)).
Qed.

Lemma mirrorDelta_runs : mirrored_delta ch d <> 0 ->
  fine_run now (mirrorDelta ch prev (mirrored_delta ch d) t) d2 (Ok (fst (mirrored ch t d))) (snd (mirrored ch t d)).
Proof using Hok.
  intros Hd. destruct (ensured_frame a t d) as (Ea & El & Es & _).
  unfold mirrorDelta, mirrored. fold a prev. fold d2. rewrite (proj2 (Z.eqb_neq _ _) Hd).
  change (if mirrored_delta ch d <? 0 then "revoke"%string else "grant"%string) with (mirrored_leg ch d).
  set (row := movement a _ _ _ _ _ _).
  assert (Hs : sql_insert_ledger_nothing row d2 =
    if ledger_taken (Some (ch_Ref ch)) (mirrored_leg ch d) (ledger d)
    then Ok (0, set_ledger_seq (ledger_seq d2 + 1) d2) else Ok (1, append_ledger row d2)).
  { unfold sql_insert_ledger_nothing. change (ledger_row_check row) with (@None err).
    change (ledger d2) with (ledger (ensured a t d)). by rewrite El. }
  destruct (ledger_taken _ _ _) eqn:Hl.
  - eapply fr_bind; [apply fr_wrap, fr_stmt, Hs|]. apply fr_ret.
  - eapply fr_bind; [apply fr_wrap, fr_stmt, Hs|]. cbn match beta. change (1 >? 0) with true. cbn match.
    assert (Hrow : credits (append_ledger row d2) !! a = Some (default (zero_row t) (credits d !! a)))
      by exact (ensured_row a t d).
    eapply fr_bind; [apply fr_wrap, fr_scan, fr_stmt; unfold sql_lock_credit, query; by rewrite Hrow|].
    cbn [fst snd]. destruct (rows_ok_default d a t Hok) as (H1 & H2 & H3 & H4 & H5).
    set (r0 := default (zero_row t) (credits d !! a)) in *.
    pose proof (clamp_fits (cr_credit_raw r0) (cr_reserved_raw r0) (mirrored_delta ch d) ltac:(lia)) as Hc.
    set (cs := clampCredit _ _ _) in *.
    eapply fr_bind; [apply fr_wrap, fr_stmt|apply fr_ret].
    unfold sql_update_credit. rewrite Hrow. rewrite write_credit_fits; [done|simpl; lia..|exact H3].
Qed.

Lemma upsert_tail :
  fine_end now (
    do! wrap "store: upsert allowance: registry: %w" (tx_stmt (sql_upsert_allowance a (ch_Delegate ch) (ch_AllowanceRaw ch) t
          (if ch_AllowanceRaw ch =? 0 then Some t else None))) in
    let! result := (if negb (i64 (ch_AllowanceRaw ch - prev) =? 0)
                    then mirrorDelta ch prev (i64 (ch_AllowanceRaw ch - prev)) t
                    else ret (mkChangeResult prev (i64 (ch_AllowanceRaw ch - prev)) 0)) in
    do! wrap "store: upsert allowance: commit: %w" commit in
    ret result) d (ensured a t d) (Ok (fst (mirrored ch t d))) (snd (mirrored ch t d)).
Proof using Hok Hch.
  eapply fe_bind; [apply fr_wrap, fr_stmt, upsert_row_Ok|].
  change (i64 (ch_AllowanceRaw ch - prev)) with (mirrored_delta ch d).
  destruct (Z.eqb_spec (mirrored_delta ch d) 0) as [E|E]; cbn [negb].
  - eapply fe_bind; [apply fr_ret|]. unfold mirrored. fold a prev. fold d2. rewrite E. apply fe_commit.
  - eapply fe_bind; [by apply mirrorDelta_runs|]. apply fe_commit.
Qed.
End Mirror.

Lemma UpsertAllowance_mirrors ch now d :
  rows_ok d -> checkChange ch = None ->
  run (UpsertAllowance ch) (fine_env now) d =
    let t := if IsZero (ch_ObservedAt ch) then now else ch_ObservedAt ch in
    (Ok (fst (mirrored ch t d)), snd (mirrored ch t d)).
Proof.
  intros Hok Hch. unfold UpsertAllowance. rewrite Hch, now_or_run. cbv zeta.
  set (t := if IsZero _ then _ else _). apply run_with_tx.
  destruct (ensured_frame (ch_AccountID ch) t d) as (Ea & _).
  eapply fe_bind; [apply fr_wrap, fr_stmt, ensure_Ok|].
  pose proof (upsert_tail ch now t d Hok Hch) as Htail. unfold allowance_of in Htail. revert Htail.
  destruct (allowances d !! (ch_AccountID ch, ch_Delegate ch)) as [x|] eqn:E; intros Htail;
    (eapply fe_attempt; [first [apply fr_scan, fr_stmt; unfold query; rewrite Ea, E; reflexivity
                               |apply fr_scan_none, fr_stmt; unfold query; rewrite Ea, E; reflexivity]|]);
    (eapply fe_bind; [apply fr_ret|exact Htail]).
Qed.

(** ** An observation *)
Section Observe.
Context {N : Type} `{RPC : chainReader N} (s : poller).

(** What the chain delegates to the authority, and the reference of the observation. *)
Definition delegated (td : option TokenDelegate) : Z :=
  match td with
  | Some td => if String.eqb (td_Delegate td) (po_authority s) then td_DelegatedAmountRaw td else 0
  | None => 0
  end.
Definition observed (link : WalletAccount) (td : option TokenDelegate) (t : time) : AllowanceChange :=
  mkChange (wa_AccountID link) (po_authority s) (delegated td) t
    (observationRef (wa_Wallet link) (match td with Some td => td_Slot td | None => 0 end)).

Lemma call_read {A} (m : store A) r o (w : world N) : quiet o -> yields (w_db w) m r ->
  callStore m o w = (Some r, mkWorld (w_db w) (w_node w) (S (w_calls w))).
Proof.
  intros Hq Hm. unfold callStore. destruct (qt_env o Hq (w_calls w)) as [t ->].
  by rewrite (qt_others o Hq), (yields_run _ _ _ t Hm).
Qed.

Lemma mirror_runs link amount slot fmt o (w : world N) t :
  quiet o -> o_env o (w_calls w) = fine_env t -> rows_ok (w_db w) ->
  let ch := mkChange (wa_AccountID link) (po_authority s) amount t (observationRef (wa_Wallet link) slot) in
  checkChange ch = None ->
  mirror s link amount slot fmt o w =
    (Some (Ok 1), mkWorld (snd (mirrored ch t (w_db w))) (w_node w) (S (w_calls w))).
Proof.
  intros Hq Ht Hok ch Hch. unfold mirror, Worker.clock, wbind, wwrap, wattempt, callStore. rewrite Ht. cbn [e_now fine_env].
  rewrite (qt_others o Hq). fold ch. rewrite UpsertAllowance_mirrors by done. cbv zeta.
  replace (if IsZero (ch_ObservedAt ch) then t else ch_ObservedAt ch) with t; [done|].
  by destruct (IsZero _).
Qed.

Lemma allowances_yield a d : exists rows, yields d (AccountAllowances a) (Ok rows) /\
  forall x, x ∈ rows <-> exists del, allowances d !! (a, del) = Some x.
Proof.
  eexists. split; [apply yields_wrap, yields_query|]. intros x. rewrite list_elem_of_fmap. split.
  - intros ([[a' del] y] & -> & [Hm Ha]%select_In). simpl in *. subst. by exists del.
  - intros [del Hx]. exists ((a, del), x). split; [done|]. unfold select.
    rewrite take_ge; [|rewrite merge_sort_Permutation, length_filter; apply Nat.eq_le_incl, length_map_to_list].
    rewrite merge_sort_Permutation. apply list_elem_of_filter. split; [done|]. by apply elem_of_map_to_list.
Qed.

Lemma observed_checks link td t :
  wa_AccountID link <> "" -> po_authority s <> "" -> 0 <= delegated td -> checkChange (observed link td t) = None.
Proof.
  intros Ha%String.eqb_neq Hs%String.eqb_neq Hd. unfold checkChange, observed. simpl. rewrite Ha, Hs. simpl.
  destruct (Z.ltb_spec (delegated td) 0); [lia|done].
Qed.

Definition to_mirror (link : WalletAccount) (td : option TokenDelegate) (d : db) : bool :=
  match td with Some td => String.eqb (td_Delegate td) (po_authority s) | None => false end ||
  match allowances d !! (wa_AccountID link, po_authority s) with Some x => Active x | None => false end.

Lemma observeWallet_runs link ata td n o (w : world N) :
  quiet o -> Reachable (w_db w) -> wa_AccountID link <> "" -> po_authority s <> "" ->
  walletATA (wa_Wallet link) (po_mint s) (po_tokenProgram s) = Ok ata ->
  node_TokenDelegation ata (w_node w) = (Ok td, n) -> 0 <= delegated td <= maxI64 ->
  exists t wrote w', observeWallet s link o w = (Some (Ok wrote), w') /\ w_node w' = n /\
    w_db w' = if to_mirror link td (w_db w) then snd (mirrored (observed link td t) t (w_db w)) else w_db w.
Proof.
  intros Hq HR Hacc Hs Hata Hn Hd.
  assert (Hok : rows_ok (w_db w)) by (destruct (good_projection _ _ (Reachable_Good _ HR)) as [x HI]; by eapply Inv_rows_ok).
  unfold observeWallet. unfold wbind at 1, wlift. rewrite Hata. cbv beta iota zeta.
  unfold wbind at 1, wwrap at 1, wattempt at 1, callNode. rewrite Hn. unfold wret at 1.
  set (w1 := mkWorld (w_db w) n (w_calls w)).
  assert (Helse : forall slot, slot = match td with Some td => td_Slot td | None => 0 end ->
    match td with Some td => String.eqb (td_Delegate td) (po_authority s) | None => false end = false ->
    exists t wrote w', (let* rows := wwrap "read registry: %w" (callStore (AccountAllowances (wa_AccountID link))) in
      if existsb (fun a => String.eqb (al_Delegate a) (po_authority s) && Active a) rows
      then mirror s link 0 slot "mirror revocation: %w" else wret 0)%worker o w1 = (Some (Ok wrote), w') /\ w_node w' = n /\
      w_db w' = if to_mirror link td (w_db w) then snd (mirrored (observed link td t) t (w_db w)) else w_db w).
  { intros slot Hslot Hno. destruct (allowances_yield (wa_AccountID link) (w_db w)) as (rows & Hy & Hrows).
    unfold wbind, wwrap, wattempt at 1. rewrite (call_read _ (Ok rows) o w1 Hq) by exact Hy. unfold wret at 1.
    set (w2 := mkWorld _ _ _). replace (existsb _ rows) with (to_mirror link td (w_db w)).
    - destruct (to_mirror link td (w_db w)) eqn:E; [|by exists 0, 0, w2].
      destruct (qt_env o Hq (w_calls w2)) as [t Ht]. exists t, 1. eexists.
      assert (Hzero : delegated td = 0) by (unfold delegated; destruct td as [td'|]; [by rewrite Hno|done]).
      split; [|split].
      + apply (mirror_runs link 0 slot _ o w2 t Hq Ht Hok).
        rewrite <- Hzero, Hslot. apply (observed_checks link td t Hacc Hs). lia.
      + done.
      + cbn [w_db]. unfold observed. by rewrite Hzero, Hslot.
    - unfold to_mirror. rewrite Hno. cbn [orb]. apply eq_iff_eq_true. rewrite existsb_exists. split.
      + destruct (allowances (w_db w) !! _) as [x|] eqn:E; [|done]. intros Hx. exists x.
        split; [apply list_elem_of_In, Hrows; by eexists|].
        destruct (Reachable_registry _ HR _ _ _ E) as (_ & -> & _). by rewrite String.eqb_refl.
      + intros (x & [del Hx]%list_elem_of_In%Hrows & [Hdel%String.eqb_eq Hact]%andb_true_iff).
        pose proof (Reachable_registry _ HR _ _ _ Hx) as (_ & He & _). by rewrite <- Hdel, He, Hx. }
  destruct td as [td|]; cbn match beta; [|by apply Helse].
  destruct (String.eqb (td_Delegate td) (po_authority s)) eqn:E; [|by apply Helse].
  destruct (qt_env o Hq (w_calls w1)) as [t Ht]. exists t, 1. eexists.
  assert (Hraw : delegated (Some td) = td_DelegatedAmountRaw td) by (unfold delegated; by rewrite E).
  rewrite i64_id by (unfold in_i64, maxI64, two63 in *; lia). split; [|split].
  - apply (mirror_runs link _ _ _ o w1 t Hq Ht Hok). rewrite <- Hraw. apply (observed_checks link (Some td) t Hacc Hs). lia.
  - done.
  - cbn [w_db]. unfold to_mirror, observed. by rewrite E, Hraw.
Qed.
End Observe.

Lemma mirrored_registry ch t d : allowance_of (ch_AccountID ch) (ch_Delegate ch) (snd (mirrored ch t d)) = ch_AllowanceRaw ch /\
  settlements (snd (mirrored ch t d)) = settlements d /\
  (forall k, k <> (ch_AccountID ch, ch_Delegate ch) -> allowances (snd (mirrored ch t d)) !! k = allowances d !! k).
Proof.
  destruct (ensured_frame (ch_AccountID ch) t d) as (Ea & _ & _ & Es).
  assert (H : allowances (snd (mirrored ch t d)) = <[(ch_AccountID ch, ch_Delegate ch) := mirrored_row ch t d]> (allowances d)).
  { unfold mirrored. rewrite <- Ea. destruct (_ =? 0); [done|]. by destruct (ledger_taken _ _ _). }
  split; [|split].
  - unfold allowance_of. by rewrite H, lookup_insert_eq.
  - unfold mirrored. destruct (_ =? 0); [exact Es|]. destruct (ledger_taken _ _ _); exact Es.
  - intros k Hk. by rewrite H, lookup_insert_ne.
Qed.

Lemma ensured_credit a t d b : credit_of b (ensured a t d) = credit_of b d /\ reserved_of b (ensured a t d) = reserved_of b d.
Proof.
  unfold ensured. destruct (credits d !! a) eqn:E; [done|].
  rewrite credit_of_insert, reserved_of_insert. unfold at_. simpl. unfold credit_of at 2, reserved_of at 2. rewrite E.
  destruct (String.eqb a b); lia.
Qed.

(** The credit follows the change, down to the reserved amount, once per observation. *)
Lemma mirrored_credit ch t d : rows_ok d ->
  let change := ch_AllowanceRaw ch - allowance_of (ch_AccountID ch) (ch_Delegate ch) d in
  let a := ch_AccountID ch in
  in_i64 change -> credit_of a d + change <= maxI64 ->
  credit_of a (snd (mirrored ch t d)) =
    (if ledger_taken (Some (ch_Ref ch)) (if change <? 0 then "revoke" else "grant") (ledger d) then credit_of a d
     else Z.max (reserved_of a d) (credit_of a d + change)) /\
  reserved_of a (snd (mirrored ch t d)) = reserved_of a d.
Proof.
  intros Hok change a Hc Hfit. destruct (rows_ok_default d a t Hok) as (H1 & H2 & H3 & H4 & H5).
  destruct (ensured_credit a t d a) as [Ec Er].
  assert (Hdelta : mirrored_delta ch d = change) by (by apply i64_id). unfold mirrored, mirrored_leg. rewrite Hdelta. fold a.
  destruct (Z.eqb_spec change 0) as [E|E].
  { change (credit_of a (ensured a t d) = (if ledger_taken (Some (ch_Ref ch)) (if change <? 0 then "revoke"%string else "grant"%string) (ledger d)
      then credit_of a d else Z.max (reserved_of a d) (credit_of a d + change)) /\ reserved_of a (ensured a t d) = reserved_of a d).
    rewrite Ec, Er, E. split; [|done]. destruct (ledger_taken _ _ _); [done|]. lia. }
  destruct (ledger_taken _ _ _).
  { split; [exact Ec|exact Er]. }
  cbn [snd]. unfold credit_of at 1, reserved_of at 2. cbn [credits set_credits]. rewrite lookup_insert_eq. cbn [cr_credit_raw cr_reserved_raw set_credit_to].
  rewrite H1, H2. split; [|done]. unfold clampCredit.
  assert (reserved_of a d <= credit_of a d <= maxI64) by lia.
  rewrite i64_id by (unfold in_i64, maxI64, two63 in *; lia).
  destruct (Z.ltb_spec (credit_of a d + change) (reserved_of a d)); cbn [fst]; lia.
Qed.

Section Claims.
Context {N : Type} `{RPC : chainReader N}.

(** The conditions of an observation that reaches the registry: the poller and the link
    are configured, the node answers, and no round trip is lost. *)
Record observable (s : poller) (link : WalletAccount) (td : option TokenDelegate) (n : N) (o : outside) (w : world N) : Prop := {
  ob_quiet : quiet o;
  ob_reachable : Reachable (w_db w);
  ob_account : wa_AccountID link <> ""%string;
  ob_authority : po_authority s <> ""%string;
  ob_answer : exists ata, walletATA (wa_Wallet link) (po_mint s) (po_tokenProgram s) = Ok ata /\
    node_TokenDelegation ata (w_node w) = (Ok td, n);
  ob_fits : 0 <= delegated s td <= maxI64 }.

Lemma observation_outcome s link td n o w :
  observable s link td n o w ->
  let a := wa_AccountID link in
  let change := delegated s td - allowance_of a (po_authority s) (w_db w) in
  let ref := observationRef (wa_Wallet link) (match td with Some td => td_Slot td | None => 0 end) in
  allowance_of a (po_authority s) (w_db w) <= maxI64 -> credit_of a (w_db w) + change <= maxI64 ->
  exists wrote w', observeWallet s link o w = (Some (Ok wrote), w') /\ w_node w' = n /\ rtc step (w_db w) (w_db w') /\
    allowance_of a (po_authority s) (w_db w') = delegated s td /\
    (forall k, k <> (a, po_authority s) -> allowances (w_db w') !! k = allowances (w_db w) !! k) /\
    settlements (w_db w') = settlements (w_db w) /\
    reserved_of a (w_db w') = reserved_of a (w_db w) /\
    credit_of a (w_db w') =
      if ledger_taken (Some ref) (if change <? 0 then "revoke" else "grant") (ledger (w_db w)) then credit_of a (w_db w)
      else Z.max (reserved_of a (w_db w)) (credit_of a (w_db w) + change).
Proof.
  intros [Hq HR Ha Hs (ata & Hata & Hn) Hd] a change ref Hmax Hfit.
  assert (Hok : rows_ok (w_db w)) by (destruct (good_projection _ _ (Reachable_Good _ HR)) as [x HI]; by eapply Inv_rows_ok).
  destruct (observeWallet_runs s link ata td n o w Hq HR Ha Hs Hata Hn Hd) as (t & wrote & w' & Hrun & Hnode & Hdb).
  exists wrote, w'. split; [done|]. split; [done|]. rewrite Hdb.
  assert (Hpos : 0 <= allowance_of a (po_authority s) (w_db w)).
  { unfold allowance_of. destruct (allowances (w_db w) !! _) as [x|] eqn:E; [|done]. apply (Reachable_registry _ HR _ _ _ E). }
  destruct (to_mirror s link td (w_db w)) eqn:Hw.
  - destruct (mirrored_registry (observed s link td t) t (w_db w)) as (H1 & H2 & H3).
    destruct (mirrored_credit (observed s link td t) t (w_db w) Hok) as [H4 H5];
      [unfold in_i64, maxI64, two63 in *; simpl; fold a; lia|exact Hfit|].
    split_and!; [|exact H1|exact H3|exact H2|exact H5|exact H4].
    apply rtc_once. exists (OpAllowance (observed s link td t)), (fine_env t).
    pose proof (UpsertAllowance_mirrors _ t (w_db w) Hok (observed_checks s link td t Ha Hs ltac:(lia))) as Hu. cbv zeta in Hu.
    replace (if IsZero _ then t else _) with t in Hu by by destruct (IsZero _).
    cbn [exec_op]. by rewrite (run_discard _ _ _ _ _ Hu).
  - unfold to_mirror in Hw. apply orb_false_iff in Hw as [Hno Hact].
    assert (Hz : delegated s td = 0) by (unfold delegated; destruct td; [by rewrite Hno|done]).
    assert (Hnone : allowance_of a (po_authority s) (w_db w) = 0).
    { unfold allowance_of. fold a in Hact. destruct (allowances (w_db w) !! (a, po_authority s)) as [x|] eqn:E; [|done].
      destruct (Reachable_registry _ HR _ _ _ E) as (_ & _ & H0 & Hrev). unfold Active in Hact.
      destruct (RevokedAt x); [apply Hrev; by eexists|]. destruct (Z.gtb_spec (AllowanceRaw x) 0); [done|lia]. }
    assert (Hc : change = 0) by (unfold change; lia). rewrite Hc.
    split_and!; try done; [lia|]. destruct (ledger_taken _ _ _); [done|].
    destruct (rows_ok_default (w_db w) a 0 Hok) as (_ & _ & _ & H4 & H5). lia.
Qed.


(** The poller makes the registry the chain's. From every reachable state, when the node
    answers for a linked wallet and no round trip is lost, observeWallet succeeds and
    leaves a state the store reaches, in which the amount registered for the account and
    the settlement authority is the one the chain delegates to it (zero when the token
    account is missing or approves another delegate), and every other allowance and every
    batch is as before; the credit follows the difference, down to the reserved amount at
    most, unless the observation's reference was already booked. *)
Theorem poll_mirrors_chain s link td n o w :
  observable s link td n o w ->
  let a := wa_AccountID link in
  let change := delegated s td - allowance_of a (po_authority s) (w_db w) in
  let ref := observationRef (wa_Wallet link) (match td with Some td => td_Slot td | None => 0 end) in
  allowance_of a (po_authority s) (w_db w) <= maxI64 -> credit_of a (w_db w) + change <= maxI64 ->
  exists wrote w', observeWallet s link o w = (Some (Ok wrote), w') /\ w_node w' = n /\ rtc step (w_db w) (w_db w') /\
    allowance_of a (po_authority s) (w_db w') = delegated s td /\
    (forall k, k <> (a, po_authority s) -> allowances (w_db w') !! k = allowances (w_db w) !! k) /\
    settlements (w_db w') = settlements (w_db w) /\
    reserved_of a (w_db w') = reserved_of a (w_db w) /\
    credit_of a (w_db w') =
      if ledger_taken (Some ref) (if change <? 0 then "revoke" else "grant") (ledger (w_db w)) then credit_of a (w_db w)
      else Z.max (reserved_of a (w_db w)) (credit_of a (w_db w) + change).
Proof. apply observation_outcome. Qed.

(** the poller gives consumed allowances back while their batches are in flight. A claim
    takes its amount from the registry before the transfer is sent; until the transfer
    lands the chain still delegates the registered amount plus the batches. Observing
    just that credits the account with the whole amount in flight a second time and
    registers it again: the registry and the open batches together then claim more than
    the chain delegates, by as much. *)
Theorem poll_regrants_in_flight s link td n o w :
  observable s link td n o w ->
  let a := wa_AccountID link in
  let flying := in_flight a (po_authority s) (w_db w) in
  delegated s td = exposure a (po_authority s) (w_db w) ->
  0 < flying -> credit_of a (w_db w) + flying <= maxI64 ->
  ledger_taken (Some (observationRef (wa_Wallet link) (match td with Some td => td_Slot td | None => 0 end))) "grant"
    (ledger (w_db w)) = false ->
  exists wrote w', observeWallet s link o w = (Some (Ok wrote), w') /\
    credit_of a (w_db w') = credit_of a (w_db w) + flying /\
    exposure a (po_authority s) (w_db w') = delegated s td + flying.
Proof.
  intros Hob a flying Hchain Hpos Hfit Hfresh. pose proof (ob_fits _ _ _ _ _ _ Hob) as Hd.
  assert (Hdelta : delegated s td - allowance_of a (po_authority s) (w_db w) = flying) by (rewrite Hchain; unfold exposure; fold flying; lia).
  destruct (observation_outcome s link td n o w Hob) as (wrote & w' & Hrun & _ & _ & Hal & _ & Hst & _ & Hcr);
    fold a; rewrite ?Hdelta; [lia|done|]. fold a in Hal, Hcr. rewrite Hdelta in Hcr.
  destruct (Z.ltb_spec flying 0); [lia|]. rewrite Hfresh in Hcr.
  exists wrote, w'. split; [done|]. split.
  - rewrite Hcr. assert (Hok : rows_ok (w_db w)) by
      (destruct (good_projection _ _ (Reachable_Good _ (ob_reachable _ _ _ _ _ _ Hob))) as [x HI]; by eapply Inv_rows_ok).
    destruct (rows_ok_default (w_db w) a 0 Hok) as (_ & _ & _ & H4 & H5). lia.
  - unfold exposure. rewrite Hal. unfold in_flight. rewrite Hst. fold (in_flight a (po_authority s) (w_db w)). fold flying. lia.
Qed.
End Claims.

(** ** A batch in flight, and a chain that has not executed it yet *)
Definition twin_ops : list (op * time) := [
  (OpWallets (<["buyer" := vector_wallet]> {["seller" := vector_wallet]}), 1);
  (OpAllowance (mkChange "buyer" "del1" 4000 3 "obs:1"), 3);
  (OpReserve (demo_reservation "r1"), 12);
  (OpSettle "r1" "peer1" demo_usage 250 zeroTime, 13) ]%string.
Definition twin_db : db := play twin_ops empty_db.
Definition twin_ata : string := "4ZdrF3WBc9aGKdhGCS9UXSGmKV4kcoaRVTRvZrirBSQQ".
Definition twin_leg : unsettledLeg := mkLeg 3 "seller" "buyer" 113 "r1".
Definition twin_batch : settlementBatch := mkBatch "buyer" twin_ata vector_wallet 113 [3] false.
(** Runs inside a transaction whose durable state is known. *)
Definition run_at {A} (t : time) (d : db) (m : store A) (w : db) (r : res A) (w' : db) : Prop :=
  forall n, exists n', m (fine_env t) (mkConn d (Some w) false n) = (r, mkConn d (Some w') false n').
Lemma at_fine {A} t d (m : store A) w r w' : fine_run t m w r w' -> run_at t d m w r w'.
Proof. intros H n. apply H. Qed.
Lemma at_pool {A} t d (f : db -> A) w : run_at t d (pool_stmt (query f)) w (Ok (f d)) w.
Proof. intros n. by eexists. Qed.
Lemma at_bind {A B} t d (m : store A) (k : A -> store B) w a w1 r w2 :
  run_at t d m w (Ok a) w1 -> run_at t d (k a) w1 r w2 -> run_at t d (bind m k) w r w2.
Proof. intros Hm Hk n. destruct (Hm n) as [n' H]. unfold bind. rewrite H. apply Hk. Qed.
Lemma at_wrap {A} t d fmt (m : store A) w a w' : run_at t d m w (Ok a) w' -> run_at t d (wrap fmt m) w (Ok a) w'.
Proof. intros Hm n. destruct (Hm n) as [n' H]. unfold wrap. rewrite H. by eexists. Qed.
Lemma at_end {A B} t d (m : store A) (k : A -> store B) w a w1 r d' :
  run_at t d m w (Ok a) w1 -> fine_end t (k a) d w1 r d' -> fine_end t (bind m k) d w r d'.
Proof. intros Hm Hk n. destruct (Hm n) as [n' H]. unfold bind. rewrite H. apply Hk. Qed.

Lemma at_primary t d a wallet w : a <> ""%string -> wallets d !! a = Some wallet ->
  run_at t d (PrimaryWalletForAccount a) w (Ok (wallet, true)) w.
Proof.
  intros Ha%String.eqb_neq Hw. unfold PrimaryWalletForAccount. rewrite Ha. intros n. eexists.
  unfold attempt, scan_row, bind, pool_stmt, sql_primary_wallet, query. simpl. by rewrite Hw.
Qed.

(** The claim of one leg whose buyer and seller are linked and whose buyer is backed. *)
Section Claim.
Context (d : db) (x : Allowance).
Hypothesis Hbuyer : wallets d !! "buyer"%string = Some vector_wallet.
Hypothesis Hseller : wallets d !! "seller"%string = Some vector_wallet.
Hypothesis Hcursor : settle_cursors d !! "del1"%string = None.
Hypothesis Hlegs : res_bind (sql_earn_legs "del1" 0 500 d) (fun p => scanLegs (fst p)) = Ok [twin_leg].
Hypothesis Hfees : exists l, res_bind (sql_fee_legs ["r1"%string] d) (fun p => scanLegs (fst p)) = Ok l.
Hypothesis Hallow : allowances d !! ("buyer", "del1")%string = Some x.
Hypothesis Hactive : RevokedAt x = None /\ 113 <= AllowanceRaw x.
Hypothesis Hnone : settlements d = ∅ /\ settle_legs d = ∅.

Definition one_claimed : db :=
  let d1 := set_allowances (<[("buyer", "del1")%string :=
    mkAllowance (al_AccountID x) (al_Delegate x) (AllowanceRaw x - 113) (ApprovedAt x) None]> (allowances d)) d in
  let d2 := set_settlements (<[settlements_seq d := pending_row (settlementRef "del1" twin_batch) "del1" twin_ata twin_batch 14]> (settlements d))
              (set_settlements_seq (settlements_seq d + 1) d1) in
  set_settle_cursors (<["del1"%string := 3]> (settle_cursors d)) (set_settle_legs (<[3 := settlements_seq d]> (settle_legs d)) d2).

Lemma one_plan :
  run_at 14 d (planLegs vector_claim (mkPlanState [] "" ∅) [twin_leg]) d
    (Ok (mkPlanState [("buyer", mkPlan 113 [twin_batch] false)]%string twin_ata {["seller" := vector_wallet]}%string)) d.
Proof using Hbuyer Hseller.
  eapply at_bind; [|apply at_fine, fr_ret]. unfold planLeg.
  eapply at_bind; [apply at_wrap, at_primary; [discriminate|exact Hbuyer]|]. cbn [fst].
  change (String.eqb vector_wallet "") with false. cbv iota.
  eapply at_bind; [apply at_wrap, at_fine; rewrite demo_ata; apply fr_lift|].
  eapply at_bind; [apply at_wrap; eapply at_bind; [apply at_primary; [discriminate|exact Hseller]|apply at_fine, fr_ret]|].
  apply at_fine, fr_ret.
Qed.

Lemma one_insert : exists created,
  fine_run 14 (insertPlans vector_claim 14 [("buyer"%string, mkPlan 113 [twin_batch] false)]) d (Ok created)
    (set_settle_cursors (settle_cursors d) one_claimed).
Proof using Hallow Hactive Hnone.
  eexists. unfold insertPlans. cbn [bp_skippable]. 
  eapply fr_bind; [apply fr_wrap; unfold lockAndConsumeAllowanceTx; cbn; eapply fr_bind; [apply fr_stmt|apply fr_ret]|].
  { unfold sql_consume_allowance. cbn. rewrite Hallow, bool_decide_true by apply Hactive. rewrite (proj2 (Z.leb_le _ _)) by apply Hactive. reflexivity. }
  cbv iota. change (1 >? 0) with true. cbn [negb]. cbv iota.
  eapply fr_bind; [|apply fr_bind with (a := []) (w1 := set_settle_cursors (settle_cursors d) one_claimed); apply fr_ret].
  unfold insertBatches. cbn [bp_batches sb_Dest twin_batch].
  eapply fr_bind; [apply fr_wrap; rewrite demo_ata; apply fr_lift|].
  destruct Hnone as [Hs Hl].
  eapply fr_attempt; [apply fr_scan, fr_stmt|].
  { unfold sql_insert_settlement. cbn [pending_row sr_amount_raw sb_Amount twin_batch]. change (113 <=? 0) with false. cbv iota.
    unfold find_batch. cbn [settlements set_settlements_seq set_allowances]. rewrite Hs at 1. reflexivity. }
  cbv beta iota. eapply fr_bind.
  { cbn [anchorLegs sb_LegIDs twin_batch]. eapply fr_bind; [apply fr_wrap, fr_stmt|apply fr_ret].
    unfold sql_anchor_leg. cbn [settle_legs settlements set_settlements set_settlements_seq set_allowances].
    rewrite Hl at 1. rewrite lookup_empty, lookup_insert_eq. reflexivity. }
  eapply fr_bind; [apply fr_ret|apply fr_ret].
Qed.

Lemma one_claim : exists created,
  run (ClaimDelegationSettlements vector_claim zeroTime) (fine_env 14) d = (Ok created, one_claimed).
Proof using All.
  destruct one_insert as [created Hins]. destruct Hfees as [fl Hf]. exists created.
  assert (Hp : String.eqb (cp_Delegate vector_claim) "" || String.eqb (cp_Mint vector_claim) "" ||
    String.eqb (cp_TokenProgram vector_claim) "" = false) by (vm_compute; reflexivity).
  unfold ClaimDelegationSettlements. rewrite now_or_run, Hp. change (clampLimit 1000 500 (cp_LegLimit vector_claim)) with 500.
  cbn [cp_Delegate vector_claim]. apply run_with_tx.
  eapply fe_attempt; [apply fr_scan_none, fr_stmt; unfold query; cbn [cp_Delegate vector_claim]; rewrite Hcursor; reflexivity|]. cbn match beta.
  change (errors_is ErrNoRows ErrNoRows) with true. cbv iota. unfold claimWave.
  eapply fe_bind; [apply fr_wrap, fr_query|]. cbv beta.
  eapply fe_bind; [apply fr_wrap; unfold res_bind, sql_earn_legs, query in Hlegs; cbn [fst] in Hlegs; change (backed (cp_Delegate vector_claim) d) with (backed "del1" d); rewrite Hlegs; apply fr_lift|].
  cbn [last map ul_Ref twin_leg].
  eapply fe_bind; [apply fr_wrap, fr_query|]. cbv beta.
  eapply fe_bind; [apply fr_wrap; unfold res_bind, sql_fee_legs, query in Hf; cbn [fst] in Hf; rewrite Hf; apply fr_lift|].
  eapply at_end; [exact one_plan|]. unfold planFees. cbn [cp_TreasuryWallet vector_claim ps_plans]. change (String.eqb "" "") with true. cbv iota.
  eapply fe_bind; [exact Hins|]. eapply fe_bind; [apply fr_wrap, fr_stmt; reflexivity|]. apply fe_commit.
Qed.
End Claim.

Definition twin_row : Allowance := mkAllowance "buyer" "del1" 4000 3 None.
Definition twin_claimed : db := one_claimed twin_db twin_row.
Lemma twin_claims : exists created,
  run (ClaimDelegationSettlements vector_claim zeroTime) (fine_env 14) twin_db = (Ok created, twin_claimed).
Proof.
  apply one_claim; [vm_compute; reflexivity..|eexists; vm_compute; reflexivity|vm_compute; reflexivity| |].
  - split; [reflexivity|vm_compute; discriminate].
  - split; vm_compute; reflexivity.
Qed.
Lemma twin_reachable : Reachable twin_claimed.
Proof.
  destruct twin_claims as [created Hrun].
  unfold Reachable. etrans; [apply (play_steps twin_ops)|]. apply rtc_once.
  exists (OpClaim vector_claim zeroTime), (fine_env 14).
  exact (eq_sym (f_equal snd (run_discard _ _ _ _ _ Hrun))).
Qed.

Definition demo_poller : poller := mkPoller "del1" (cp_Mint vector_claim) (cp_TokenProgram vector_claim) 60000000000.
Definition demo_link : WalletAccount := mkWalletAccount "buyer" vector_wallet.
Definition slow_chain : chainReader unit := {|
  node_TokenDelegation := fun _ n => (Ok (Some (mkDelegate "del1" 4000 77)), n) |}.
Definition claimed_world : world unit := mkWorld twin_claimed tt 0.

(** The poller and the settlements derive a wallet's token account alike. *)
Lemma walletATA_destination w m tp x : destinationATA w m tp = Ok x -> walletATA w m tp = Ok x.
Proof.
  unfold destinationATA, walletATA, wrap_res, res_bind.
  destruct (DecodeBase58 w _); [|done]. destruct (DecodeBase58 m _); [|done].
  destruct (DecodeBase58 tp _); [|done]. by destruct (AssociatedTokenAddress _ _ _).
Qed.

Lemma demo_walletATA :
  walletATA vector_wallet (po_mint demo_poller) (po_tokenProgram demo_poller) =
  Ok "4ZdrF3WBc9aGKdhGCS9UXSGmKV4kcoaRVTRvZrirBSQQ"%string.
Proof. exact (walletATA_destination _ _ _ _ demo_ata). Qed.

Lemma demo_observable : @observable unit slow_chain demo_poller demo_link (Some (mkDelegate "del1" 4000 77)) tt quiet_outside claimed_world.
Proof.
  split; [exact demo_quiet|exact twin_reachable|done|done| |done].
  eexists. split; [exact demo_walletATA|reflexivity].
Qed.

Lemma poll_mirrors_chain_witness :
  exists wrote w', @observeWallet unit slow_chain demo_poller demo_link quiet_outside claimed_world = (Some (Ok wrote), w') /\
    allowance_of "buyer" "del1" (w_db w') = 4000.
Proof.
  destruct (@poll_mirrors_chain unit slow_chain demo_poller demo_link _ tt quiet_outside claimed_world demo_observable)
    as (wrote & w' & H & _ & _ & Ha & _); [vm_compute; discriminate..|].
  exists wrote, w'. split; [exact H|exact Ha].
Defined.

Lemma poll_regrants_in_flight_witness :
  exists wrote w', @observeWallet unit slow_chain demo_poller demo_link quiet_outside claimed_world = (Some (Ok wrote), w') /\
    credit_of "buyer" (w_db w') = 3998.
Proof.
  destruct (@poll_regrants_in_flight unit slow_chain demo_poller demo_link _ tt quiet_outside claimed_world demo_observable)
    as (wrote & w' & H & Hc & _); [vm_compute; reflexivity|vm_compute; reflexivity|vm_compute; discriminate|vm_compute; reflexivity|].
  exists wrote, w'. split; [exact H|]. etransitivity; [exact Hc|]. vm_compute. reflexivity.
Defined.
