(* ===== verification/DirSchema.v ===== *)
(** * The directory tables and the SQL statements over them

    The rows of src/migrations/0001, 0002, 0003, 0004, 0005, 0007, 0010 and 0014 to 0016: API keys,
    identities, linked wallets, instances and their ACL rules, trusted regions with
    their memberships, invitations, services and events, challenges, deploy keys and
    faucet claims; with one definition per statement shape of internal/store/acl.go
    and policy.go.  The constraints are the schema's: 23514 for a CHECK, 23505 for a
    duplicate key, 23503 for a foreign key, 22003 for a value out of its column's
    range.  A serial column counts per table; the id that a rolled-back insert drew
    is given back, where the server leaves a gap.  A query without ORDER BY answers
    in the tables' order; ORDER BY on a text is byte order. *)
From Stdlib Require Import ZArith Lia Strings.Ascii Strings.String.
From stdpp Require Import base gmap strings list fin_maps sorting.
From S2P Require Import Prelude Sha256 Base58 GoText AclTypes Json Tx Schema.

Open Scope Z_scope.

(** ** Rows *)
Record WalletRow := mkWalletRow {
  wl_account_id : string; wl_wallet : string; wl_is_primary : bool; wl_created_at : time }.

Record WalletChallengeRow := mkWalletChallengeRow {
  wc_account_id : string; wc_wallet : string; wc_nonce : string; wc_message : string;
  wc_issued_at : time; wc_expires_at : time; wc_used_at : option time }.

Record InstanceRow := mkInstanceRow {
  ir_account_id : string; ir_peer_id : string; ir_label : string; ir_owner_wallet : string;
  ir_access_mode : string; ir_policy_scope : string; ir_policy_revision : Z;
  ir_ownership_status : string; ir_observed_wallet : option string;
  ir_ownership_observed_at : option time; ir_created_at : time; ir_updated_at : time }.

(** instance_acl_rules and instance_service_acl_rules: the owner of the rule, its kind
    and its value; UNIQUE over the three. *)
Definition rule_row : Type := Z * string * string.

Record RegionRow := mkRegionRow {
  rg_slug : string; rg_name : string; rg_owner_account_id : string; rg_status : string;
  rg_region_revision : Z; rg_created_at : time; rg_updated_at : time }.

Record MembershipRow := mkMembershipRow {
  mr_region_id : Z; mr_node_role : string; mr_status : string;
  mr_admitted_by_account_id : option string; mr_admission_reason : option string;
  mr_expires_at : option time; mr_ownership_verified_at : option time;
  mr_membership_revision : Z; mr_created_at : time; mr_updated_at : time }.

Record EventRow := mkEventRow {
  ev_instance_id : Z; ev_region_id : option Z; ev_event_kind : string;
  ev_actor_account_id : option string; ev_membership_revision : Z; ev_payload : json;
  ev_created_at : time }.

Record InvitationRow := mkInvitationRow {
  iv_region_id : Z; iv_instance_id : Z; iv_created_by_account_id : string;
  iv_acceptance_token_hash : string; iv_status : string; iv_node_role : string;
  iv_expires_at : time; iv_accepted_at : option time; iv_cancelled_at : option time;
  iv_created_at : time; iv_updated_at : time }.

Record ServiceRow := mkServiceRow {
  sv_instance_id : Z; sv_service_name : string; sv_exposure : string; sv_region_id : option Z;
  sv_access_mode : string; sv_service_policy_revision : Z; sv_observed_present : bool;
  sv_observed_last_seen_at : option time; sv_created_at : time; sv_updated_at : time }.

Record NodeChallengeRow := mkNodeChallengeRow {
  nc_peer_id : string; nc_region_slug : string; nc_node_role : string; nc_audience : string;
  nc_nonce_hash : string; nc_challenge_message : string; nc_issued_at : time;
  nc_expires_at : time; nc_consumed_at : option time }.

Record KeyRow := mkKeyRow {
  ak_key_hash : string; ak_name : option string; ak_active : bool; ak_created_at : time;
  ak_revoked_at : option time; ak_user_id : option string; ak_key_prefix : option string }.

Record DeployKeyRow := mkDeployKeyRow {
  dk_user_id : string; dk_key_hash : string; dk_key_prefix : string; dk_name : option string;
  dk_max_uses : Z; dk_use_count : Z; dk_expires_at : option time; dk_last_used_at : option time;
  dk_active : bool; dk_created_at : time; dk_revoked_at : option time }.

Record FaucetClaimRow := mkFaucetClaimRow {
  fc_wallet : string; fc_amount_raw : Z; fc_tx_signature : string; fc_claimed_at : time }.

(** Tables keyed by their primary key: memberships by their instance, identities by
    their account, faucet claims by theirs, challenges by their text id, the others by
    their serial id. *)
Record dir := mkDir {
  identities : gmap string IdentityInfo;
  user_wallets : gmap Z WalletRow;
  wallet_challenges : gmap string WalletChallengeRow;
  instances : gmap Z InstanceRow;
  acl_rules : gset rule_row;
  regions : gmap Z RegionRow;
  memberships : gmap Z MembershipRow;
  events : list EventRow;
  invitations : gmap Z InvitationRow;
  services : gmap Z ServiceRow;
  service_rules : gset rule_row;
  node_challenges : gmap string NodeChallengeRow;
  api_keys : gmap Z KeyRow;
  deploy_keys : gmap Z DeployKeyRow;
  faucet_claims : gmap string FaucetClaimRow;
  seqs : gmap string Z }.

Definition set_identities (v : gmap string IdentityInfo) (d : dir) : dir :=
  mkDir v (user_wallets d) (wallet_challenges d) (instances d) (acl_rules d) (regions d) (memberships d) (events d) (invitations d) (services d) (service_rules d) (node_challenges d) (api_keys d) (deploy_keys d) (faucet_claims d) (seqs d).
Definition set_user_wallets (v : gmap Z WalletRow) (d : dir) : dir :=
  mkDir (identities d) v (wallet_challenges d) (instances d) (acl_rules d) (regions d) (memberships d) (events d) (invitations d) (services d) (service_rules d) (node_challenges d) (api_keys d) (deploy_keys d) (faucet_claims d) (seqs d).
Definition set_wallet_challenges (v : gmap string WalletChallengeRow) (d : dir) : dir :=
  mkDir (identities d) (user_wallets d) v (instances d) (acl_rules d) (regions d) (memberships d) (events d) (invitations d) (services d) (service_rules d) (node_challenges d) (api_keys d) (deploy_keys d) (faucet_claims d) (seqs d).
Definition set_instances (v : gmap Z InstanceRow) (d : dir) : dir :=
  mkDir (identities d) (user_wallets d) (wallet_challenges d) v (acl_rules d) (regions d) (memberships d) (events d) (invitations d) (services d) (service_rules d) (node_challenges d) (api_keys d) (deploy_keys d) (faucet_claims d) (seqs d).
Definition set_acl_rules (v : gset rule_row) (d : dir) : dir :=
  mkDir (identities d) (user_wallets d) (wallet_challenges d) (instances d) v (regions d) (memberships d) (events d) (invitations d) (services d) (service_rules d) (node_challenges d) (api_keys d) (deploy_keys d) (faucet_claims d) (seqs d).
Definition set_regions (v : gmap Z RegionRow) (d : dir) : dir :=
  mkDir (identities d) (user_wallets d) (wallet_challenges d) (instances d) (acl_rules d) v (memberships d) (events d) (invitations d) (services d) (service_rules d) (node_challenges d) (api_keys d) (deploy_keys d) (faucet_claims d) (seqs d).
Definition set_memberships (v : gmap Z MembershipRow) (d : dir) : dir :=
  mkDir (identities d) (user_wallets d) (wallet_challenges d) (instances d) (acl_rules d) (regions d) v (events d) (invitations d) (services d) (service_rules d) (node_challenges d) (api_keys d) (deploy_keys d) (faucet_claims d) (seqs d).
Definition set_events (v : list EventRow) (d : dir) : dir :=
  mkDir (identities d) (user_wallets d) (wallet_challenges d) (instances d) (acl_rules d) (regions d) (memberships d) v (invitations d) (services d) (service_rules d) (node_challenges d) (api_keys d) (deploy_keys d) (faucet_claims d) (seqs d).
Definition set_invitations (v : gmap Z InvitationRow) (d : dir) : dir :=
  mkDir (identities d) (user_wallets d) (wallet_challenges d) (instances d) (acl_rules d) (regions d) (memberships d) (events d) v (services d) (service_rules d) (node_challenges d) (api_keys d) (deploy_keys d) (faucet_claims d) (seqs d).
Definition set_services (v : gmap Z ServiceRow) (d : dir) : dir :=
  mkDir (identities d) (user_wallets d) (wallet_challenges d) (instances d) (acl_rules d) (regions d) (memberships d) (events d) (invitations d) v (service_rules d) (node_challenges d) (api_keys d) (deploy_keys d) (faucet_claims d) (seqs d).
Definition set_service_rules (v : gset rule_row) (d : dir) : dir :=
  mkDir (identities d) (user_wallets d) (wallet_challenges d) (instances d) (acl_rules d) (regions d) (memberships d) (events d) (invitations d) (services d) v (node_challenges d) (api_keys d) (deploy_keys d) (faucet_claims d) (seqs d).
Definition set_node_challenges (v : gmap string NodeChallengeRow) (d : dir) : dir :=
  mkDir (identities d) (user_wallets d) (wallet_challenges d) (instances d) (acl_rules d) (regions d) (memberships d) (events d) (invitations d) (services d) (service_rules d) v (api_keys d) (deploy_keys d) (faucet_claims d) (seqs d).
Definition set_api_keys (v : gmap Z KeyRow) (d : dir) : dir :=
  mkDir (identities d) (user_wallets d) (wallet_challenges d) (instances d) (acl_rules d) (regions d) (memberships d) (events d) (invitations d) (services d) (service_rules d) (node_challenges d) v (deploy_keys d) (faucet_claims d) (seqs d).
Definition set_deploy_keys (v : gmap Z DeployKeyRow) (d : dir) : dir :=
  mkDir (identities d) (user_wallets d) (wallet_challenges d) (instances d) (acl_rules d) (regions d) (memberships d) (events d) (invitations d) (services d) (service_rules d) (node_challenges d) (api_keys d) v (faucet_claims d) (seqs d).
Definition set_faucet_claims (v : gmap string FaucetClaimRow) (d : dir) : dir :=
  mkDir (identities d) (user_wallets d) (wallet_challenges d) (instances d) (acl_rules d) (regions d) (memberships d) (events d) (invitations d) (services d) (service_rules d) (node_challenges d) (api_keys d) (deploy_keys d) v (seqs d).
Definition set_seqs (v : gmap string Z) (d : dir) : dir :=
  mkDir (identities d) (user_wallets d) (wallet_challenges d) (instances d) (acl_rules d) (regions d) (memberships d) (events d) (invitations d) (services d) (service_rules d) (node_challenges d) (api_keys d) (deploy_keys d) (faucet_claims d) v.

Definition empty_dir : dir := mkDir ∅ ∅ ∅ ∅ ∅ ∅ ∅ [] ∅ ∅ ∅ ∅ ∅ ∅ ∅ ∅.

Definition isForeignKeyViolation (e : err) : bool :=
  match pg_code e with Some c => String.eqb c "23503" | None => false end.

Definition select {A} (f : dir -> A) : stmt dir A := fun d => Ok (f d, d).

Definition nextval (table : string) (d : dir) : Z := default 1 (seqs d !! table).
Definition advance (table : string) (d : dir) : dir :=
  set_seqs (<[table := nextval table d + 1]> (seqs d)) d.

(** A row a condition selects (the first, where several do). *)
Definition find_row {K R} `{Countable K} (P : K -> R -> bool) (m : gmap K R) : option (K * R) :=
  find (fun kr => P (fst kr) (snd kr)) (map_to_list m).
Definition rows_where {K R} `{Countable K} (P : K -> R -> bool) (m : gmap K R) : list (K * R) :=
  List.filter (fun kr => P (fst kr) (snd kr)) (map_to_list m).

Definition one_of (s : string) (l : list string) : bool := bool_decide (s ∈ l).

(** Two texts in byte order, two rows by creation time and id. *)
Definition rule_le (a b : ACLRule) : Prop :=
  if String.eqb (Kind a) (Kind b) then String.leb (Value a) (Value b) = true
  else String.leb (Kind a) (Kind b) = true.
#[export] Instance rule_le_dec : RelDecision rule_le.
Proof. intros a b. unfold rule_le. destruct (String.eqb _ _); apply _. Defined.

Definition older {R} (created : R -> time) (a b : Z * R) : Prop :=
  created (snd a) < created (snd b) \/ created (snd a) = created (snd b) /\ fst a <= fst b.
#[export] Instance older_dec {R} (created : R -> time) : RelDecision (older created).
Proof. intros a b. unfold older. apply _. Defined.
Definition newer {R} (created : R -> time) (a b : Z * R) : Prop := older created b a.
#[export] Instance newer_dec {R} (created : R -> time) : RelDecision (newer created).
Proof. intros a b. unfold newer. apply _. Defined.

(** ** user_wallets *)
Definition sql_wallet_owner (wallet : string) : stmt dir (option string) := select (fun d =>
  (fun kr => wl_account_id (snd kr)) <$> find_row (fun _ r => String.eqb (wl_wallet r) wallet) (user_wallets d)).
Definition sql_account_wallet (a : string) : stmt dir (option string) := select (fun d =>
  (fun kr => wl_wallet (snd kr)) <$> find_row (fun _ r => String.eqb (wl_account_id r) a) (user_wallets d)).

(** INSERT INTO user_wallets ... ON CONFLICT (wallet) DO NOTHING RETURNING id, created_at;
    UNIQUE (account_id) still holds. *)
Definition sql_insert_wallet (a wallet : string) (t : time) : stmt dir (option (Z * time)) := fun d =>
  let id := nextval "user_wallets" d in
  if find_row (fun _ r => String.eqb (wl_wallet r) wallet) (user_wallets d) is Some _
  then Ok (None, advance "user_wallets" d)
  else if find_row (fun _ r => String.eqb (wl_account_id r) a) (user_wallets d) is Some _
  then Err UniqueViolation
  else Ok (Some (id, t),
           set_user_wallets (<[id := mkWalletRow a wallet true t]> (user_wallets d))
             (advance "user_wallets" d)).

Definition wallet_linked (a wallet : string) (d : dir) : bool :=
  if find_row (fun _ r => String.eqb (wl_account_id r) a && String.eqb (wl_wallet r) wallet) (user_wallets d)
  is Some _ then true else false.
Definition wallet_in_use (a wallet : string) (d : dir) : bool :=
  if find_row (fun _ r => String.eqb (ir_account_id r) a && String.eqb (ir_owner_wallet r) wallet) (instances d)
  is Some _ then true else false.

(** DELETE FROM user_wallets WHERE id = $1 AND account_id = $2; instances hold on to
    their owner's wallet (ON DELETE RESTRICT). *)
Definition sql_delete_wallet (id : Z) (a : string) : stmt dir Z := fun d =>
  match user_wallets d !! id with
  | None => Ok (0, d)
  | Some r =>
    if negb (String.eqb (wl_account_id r) a) then Ok (0, d)
    else if wallet_in_use a (wl_wallet r) d then Err ForeignKeyViolation
    else Ok (1, set_user_wallets (delete id (user_wallets d)) d)
  end.

(** UPDATE user_wallets SET is_primary = TRUE of the account's oldest wallet *)
Definition sql_promote_wallet (a : string) : stmt dir unit := fun d =>
  match merge_sort (older wl_created_at) (rows_where (fun _ r => String.eqb (wl_account_id r) a) (user_wallets d)) with
  | [] => Ok (tt, d)
  | (id, r) :: _ =>
    Ok (tt, set_user_wallets
      (<[id := mkWalletRow (wl_account_id r) (wl_wallet r) true (wl_created_at r)]> (user_wallets d)) d)
  end.

(** ** instances *)
Definition instance_check (r : InstanceRow) : bool :=
  one_of (ir_access_mode r) ["public"; "restricted"]%string &&
  one_of (ir_ownership_status r) ["active"; "mismatch"; "unavailable"]%string &&
  one_of (ir_policy_scope r) ["peer"; "service"]%string.

(** The row an INSERT or UPDATE writes, the unique key apart. *)
Definition write_instance (id : Z) (r : InstanceRow) (d : dir) : res dir :=
  if negb (bool_decide (in_i64 (ir_policy_revision r))) then Err OutOfRange
  else if negb (instance_check r) then Err CheckViolation
  else if negb (wallet_linked (ir_account_id r) (ir_owner_wallet r) d) then Err ForeignKeyViolation
  else Ok (set_instances (<[id := r]> (instances d)) d).

Definition sql_insert_instance (r : InstanceRow) : stmt dir (Z * InstanceRow) := fun d =>
  let id := nextval "instances" d in
  if find_row (fun _ r' => String.eqb (ir_peer_id r') (ir_peer_id r)) (instances d) is Some _
  then Err (if instance_check r then UniqueViolation else CheckViolation)
  else res_bind (write_instance id r (advance "instances" d)) (fun d' => Ok ((id, r), d')).

(** UPDATE instances SET ... WHERE id = $1 [AND account_id = $2] RETURNING *; no row is
    [None]. *)
Definition sql_update_instance (id : Z) (owner : option string) (f : InstanceRow -> InstanceRow)
    : stmt dir (option InstanceRow) := fun d =>
  match instances d !! id with
  | None => Ok (None, d)
  | Some r =>
    if match owner with Some a => negb (String.eqb (ir_account_id r) a) | None => false end
    then Ok (None, d)
    else res_bind (write_instance id (f r) d) (fun d' => Ok (Some (f r), d'))
  end.

(** policy_revision = policy_revision + 1, updated_at = now() *)
Definition bump_instance (t : time) (r : InstanceRow) : InstanceRow :=
  mkInstanceRow (ir_account_id r) (ir_peer_id r) (ir_label r) (ir_owner_wallet r) (ir_access_mode r)
    (ir_policy_scope r) (ir_policy_revision r + 1) (ir_ownership_status r) (ir_observed_wallet r)
    (ir_ownership_observed_at r) (ir_created_at r) t.

(** ** Rules *)
Definition rule_kinds : list string := ["email_domain"; "wallet"; "api_key"]%string.
Definition insert_rule (owned : bool) (id : Z) (r : ACLRule) (s : gset rule_row) : res (gset rule_row) :=
  if negb (one_of (Kind r) rule_kinds) then Err CheckViolation
  else if bool_decide ((id, Kind r, Value r) ∈ s) then Err UniqueViolation
  else if negb owned then Err ForeignKeyViolation
  else Ok ({[(id, Kind r, Value r)]} ∪ s).
Definition drop_rules (gone : Z -> bool) (s : gset rule_row) : gset rule_row :=
  filter (fun x => gone (fst (fst x)) = false) s.
(** ... ORDER BY rule_kind, rule_value *)
Definition rules_of (id : Z) (s : gset rule_row) : list ACLRule :=
  merge_sort rule_le (map (fun x => mkRule (snd (fst x)) (snd x))
    (List.filter (fun x => fst (fst x) =? id) (elements s))).

Definition sql_insert_rule (id : Z) (r : ACLRule) : stmt dir unit := fun d =>
  res_bind (insert_rule (bool_decide (is_Some (instances d !! id))) id r (acl_rules d))
    (fun s => Ok (tt, set_acl_rules s d)).
Definition sql_delete_rules (id : Z) : stmt dir unit := fun d =>
  Ok (tt, set_acl_rules (drop_rules (Z.eqb id) (acl_rules d)) d).
Definition sql_rules (id : Z) : stmt dir (list ACLRule) := select (fun d => rules_of id (acl_rules d)).

(** ** trusted_regions *)
Definition slug_char (c : ascii) : bool :=
  let z := ascii_Z c in ((97 <=? z) && (z <=? 122)) || ((48 <=? z) && (z <=? 57)).
(** slug ~ '^[a-z0-9][a-z0-9-]{0,62}[a-z0-9]$' OR slug ~ '^[a-z0-9]$' *)
Definition slug_ok (s : string) : bool :=
  let cs := chars_of s in
  (1 <=? length cs)%nat && (length cs <=? 64)%nat &&
  match cs with c :: _ => slug_char c | [] => false end &&
  match last cs with Some c => slug_char c | None => false end &&
  forallb (fun c => slug_char c || (ascii_Z c =? 45)) cs.

Definition write_region (id : Z) (r : RegionRow) (d : dir) : res dir :=
  if negb (bool_decide (in_i64 (rg_region_revision r))) then Err OutOfRange
  else if negb (slug_ok (rg_slug r) && one_of (rg_status r) ["active"; "disabled"]%string)
  then Err CheckViolation
  else Ok (set_regions (<[id := r]> (regions d)) d).

Definition sql_insert_region (r : RegionRow) : stmt dir (Z * RegionRow) := fun d =>
  let id := nextval "trusted_regions" d in
  res_bind (write_region id r (advance "trusted_regions" d)) (fun d' =>
    if find_row (fun _ r' => String.eqb (rg_slug r') (rg_slug r)) (regions d) is Some _
    then Err UniqueViolation else Ok ((id, r), d')).

Definition owned_region (owner : string) (id : Z) (d : dir) : option RegionRow :=
  match regions d !! id with
  | Some r => if String.eqb (rg_owner_account_id r) owner then Some r else None
  | None => None
  end.

Definition sql_update_region (owner : string) (id : Z) (f : RegionRow -> RegionRow)
    : stmt dir (option RegionRow) := fun d =>
  match owned_region owner id d with
  | None => Ok (None, d)
  | Some r => res_bind (write_region id (f r) d) (fun d' => Ok (Some (f r), d'))
  end.

(** DELETE FROM trusted_regions: memberships and services hold on to their region,
    invitations go with it, events forget it. *)
Definition event_forget (region : Z) (e : EventRow) : EventRow :=
  if bool_decide (ev_region_id e = Some region)
  then mkEventRow (ev_instance_id e) None (ev_event_kind e) (ev_actor_account_id e)
         (ev_membership_revision e) (ev_payload e) (ev_created_at e)
  else e.
Definition region_in_use (id : Z) (d : dir) : bool :=
  (if find_row (fun _ m => mr_region_id m =? id) (memberships d) is Some _ then true else false) ||
  (if find_row (fun _ s => bool_decide (sv_region_id s = Some id)) (services d) is Some _ then true else false).
Definition sql_delete_region (owner : string) (id : Z) : stmt dir Z := fun d =>
  match owned_region owner id d with
  | None => Ok (0, d)
  | Some _ =>
    if region_in_use id d then Err ForeignKeyViolation
    else Ok (1, set_regions (delete id (regions d))
      (set_invitations (filter (fun kv => iv_region_id (snd kv) <> id) (invitations d))
        (set_events (map (event_forget id) (events d)) d)))
  end.

(** ** trusted_region_memberships, and their events *)
Definition node_roles : list string := ["worker"; "head"; "combined"]%string.
Definition membership_statuses : list string :=
  ["active"; "suspended"; "expired"; "revoked"; "ownership_mismatch"; "ownership_unavailable"]%string.
(** A service is bound to the membership of [region] and [instance]. *)
Definition membership_bound (region inst : Z) (d : dir) : bool :=
  if find_row (fun _ s => (sv_instance_id s =? inst) && bool_decide (sv_region_id s = Some region)) (services d)
  is Some _ then true else false.

(** The row an INSERT or UPDATE writes; services bound to the row it replaces keep it
    in their region. *)
Definition write_membership (inst : Z) (r : MembershipRow) (d : dir) : res dir :=
  if negb (bool_decide (in_i64 (mr_membership_revision r))) then Err OutOfRange
  else if negb (one_of (mr_node_role r) node_roles && one_of (mr_status r) membership_statuses)
  then Err CheckViolation
  else if negb (bool_decide (is_Some (instances d !! inst)) && bool_decide (is_Some (regions d !! mr_region_id r)))
  then Err ForeignKeyViolation
  else if match memberships d !! inst with
          | Some old => negb (mr_region_id old =? mr_region_id r) && membership_bound (mr_region_id old) inst d
          | None => false
          end then Err ForeignKeyViolation
  else Ok (set_memberships (<[inst := r]> (memberships d)) d).

(** INSERT ... ON CONFLICT (instance_id) DO UPDATE ... RETURNING *: the fresh row, or
    [merge] of the old one. *)
Definition sql_upsert_membership (inst : Z) (fresh : MembershipRow) (merge : MembershipRow -> MembershipRow)
    : stmt dir MembershipRow := fun d =>
  let r := match memberships d !! inst with Some old => merge old | None => fresh end in
  res_bind (write_membership inst r d) (fun d' => Ok (r, d')).

Definition sql_delete_membership (inst : Z) : stmt dir Z := fun d =>
  match memberships d !! inst with
  | None => Ok (0, d)
  | Some r =>
    if membership_bound (mr_region_id r) inst d then Err ForeignKeyViolation
    else Ok (1, set_memberships (delete inst (memberships d)) d)
  end.

(** The server types the parameters of a statement by their uses; a number below the
    highest that the text does not mention is refused (42P18). *)
Definition IndeterminateDatatype := PgError "42P18".
Definition untyped_parameter (used : list nat) : bool :=
  existsb (fun i => negb (bool_decide (i ∈ used))) (seq 1 (foldr Nat.max 0%nat used)).
Definition prepared {A} (used : list nat) (s : stmt dir A) : stmt dir A := fun d =>
  if untyped_parameter used then Err IndeterminateDatatype else s d.

(** UPDATE ... WHERE region_id = $1 AND instance_id = $2 RETURNING * *)
Definition sql_update_membership (region inst : Z) (f : MembershipRow -> MembershipRow)
    : stmt dir (option MembershipRow) := fun d =>
  match memberships d !! inst with
  | None => Ok (None, d)
  | Some r =>
    if negb (mr_region_id r =? region) then Ok (None, d)
    else res_bind (write_membership inst (f r) d) (fun d' => Ok (Some (f r), d'))
  end.

Definition event_kinds : list string :=
  ["invited"; "accepted"; "suspended"; "reactivated"; "revoked"; "released"; "expired";
   "ownership_mismatch"; "ownership_unavailable"; "region_disabled"; "region_enabled"]%string.
Definition sql_insert_event (e : EventRow) : stmt dir unit := fun d =>
  if negb (one_of (ev_event_kind e) event_kinds) then Err CheckViolation
  else if negb (bool_decide (is_Some (instances d !! ev_instance_id e)) &&
                match ev_region_id e with Some r => bool_decide (is_Some (regions d !! r)) | None => true end)
  then Err ForeignKeyViolation
  else Ok (tt, set_events (events d ++ [e]) d).

(** ** trusted_region_invitations *)
Definition invitation_statuses : list string := ["pending"; "accepted"; "expired"; "cancelled"]%string.
Definition pending_invitation (region inst : Z) (d : dir) : option (Z * InvitationRow) :=
  find_row (fun _ i => (iv_region_id i =? region) && (iv_instance_id i =? inst) &&
    String.eqb (iv_status i) "pending") (invitations d).
(** A new pending row; one pending row per region and instance. *)
Definition sql_insert_invitation (r : InvitationRow) : stmt dir (Z * InvitationRow) := fun d =>
  let id := nextval "trusted_region_invitations" d in
  if negb (one_of (iv_node_role r) node_roles && one_of (iv_status r) invitation_statuses)
  then Err CheckViolation
  else if pending_invitation (iv_region_id r) (iv_instance_id r) d is Some _ then Err UniqueViolation
  else if negb (bool_decide (is_Some (instances d !! iv_instance_id r)) &&
                bool_decide (is_Some (regions d !! iv_region_id r)))
  then Err ForeignKeyViolation
  else Ok ((id, r), set_invitations (<[id := r]> (invitations d)) (advance "trusted_region_invitations" d)).

Definition set_invitation_status (status : string) (accepted cancelled : option time) (t : time)
    (i : InvitationRow) : InvitationRow :=
  mkInvitationRow (iv_region_id i) (iv_instance_id i) (iv_created_by_account_id i)
    (iv_acceptance_token_hash i) status (iv_node_role i) (iv_expires_at i)
    (if accepted is Some _ then accepted else iv_accepted_at i)
    (if cancelled is Some _ then cancelled else iv_cancelled_at i) (iv_created_at i) t.
Definition sql_update_invitation (id : Z) (f : InvitationRow -> InvitationRow) : stmt dir unit := fun d =>
  Ok (tt, set_invitations (alter f id (invitations d)) d).

(** ** instance_services *)
Definition service_char (c : ascii) : bool :=
  let z := ascii_Z c in
  ((65 <=? z) && (z <=? 90)) || ((97 <=? z) && (z <=? 122)) || ((48 <=? z) && (z <=? 57)).
(** service_name ~ '^[A-Za-z0-9][A-Za-z0-9._-]{0,79}$' *)
Definition service_name_ok (s : string) : bool :=
  let cs := chars_of s in
  (length cs <=? 80)%nat &&
  match cs with c :: _ => service_char c | [] => false end &&
  forallb (fun c => service_char c || one_of (text_of [c]) ["."; "_"; "-"]%string) cs.

Definition service_check (s : ServiceRow) : bool :=
  one_of (sv_exposure s) [ExposurePermissionless; ExposureTrustedRegion; ExposureDisabled] &&
  one_of (sv_access_mode s) [AccessModeInherit; AccessModePublic; AccessModeRestricted] &&
  service_name_ok (sv_service_name s) &&
  Bool.eqb (String.eqb (sv_exposure s) ExposureTrustedRegion) (bool_decide (is_Some (sv_region_id s))).

(** The instance exists; a bound service's region is the one its instance belongs to. *)
Definition service_refs_ok (s : ServiceRow) (d : dir) : bool :=
  bool_decide (is_Some (instances d !! sv_instance_id s)) &&
  match sv_region_id s with
  | None => true
  | Some r => bool_decide (is_Some (regions d !! r)) &&
              bool_decide (mr_region_id <$> memberships d !! sv_instance_id s = Some r)
  end.

Definition sql_insert_service (s : ServiceRow) : stmt dir (Z * Z) := fun d =>
  let id := nextval "instance_services" d in
  if negb (service_check s) then Err CheckViolation
  else if find_row (fun _ s' => (sv_instance_id s' =? sv_instance_id s) &&
                               String.eqb (sv_service_name s') (sv_service_name s)) (services d) is Some _
  then Err UniqueViolation
  else if negb (service_refs_ok s d) then Err ForeignKeyViolation
  else Ok ((id, sv_service_policy_revision s),
           set_services (<[id := s]> (services d)) (advance "instance_services" d)).

Definition owns_instance (a : string) (inst : Z) (d : dir) : bool :=
  match instances d !! inst with Some r => String.eqb (ir_account_id r) a | None => false end.

(** UPDATE instance_services ... FROM instances WHERE svc.id = $1 AND svc.instance_id = $2
    AND i.account_id = $3 RETURNING * *)
Definition sql_update_service (id inst : Z) (a : string) (f : ServiceRow -> ServiceRow)
    : stmt dir (option ServiceRow) := fun d =>
  match services d !! id with
  | None => Ok (None, d)
  | Some s =>
    if negb ((sv_instance_id s =? inst) && owns_instance a inst d) then Ok (None, d)
    else if negb (bool_decide (in_i64 (sv_service_policy_revision (f s)))) then Err OutOfRange
    else if negb (service_check (f s)) then Err CheckViolation
    else Ok (Some (f s), set_services (<[id := f s]> (services d)) d)
  end.

(** Is [id] a service of the instance? *)
Definition service_of (inst : Z) (d : dir) (id : Z) : bool :=
  match services d !! id with Some s => sv_instance_id s =? inst | None => false end.
(** DELETE FROM instance_service_acl_rules WHERE instance_service_id IN (SELECT id ...) *)
Definition sql_delete_service_rules (inst : Z) : stmt dir unit := fun d =>
  Ok (tt, set_service_rules (drop_rules (service_of inst d) (service_rules d)) d).
(** DELETE FROM instance_services WHERE instance_id = $1, their rules with them *)
Definition sql_delete_services (inst : Z) : stmt dir unit := fun d =>
  Ok (tt, set_services (filter (fun kv => sv_instance_id (snd kv) <> inst) (services d))
            (set_service_rules (drop_rules (service_of inst d) (service_rules d)) d)).
Definition sql_insert_service_rule (id : Z) (r : ACLRule) : stmt dir unit := fun d =>
  res_bind (insert_rule (bool_decide (is_Some (services d !! id))) id r (service_rules d))
    (fun s => Ok (tt, set_service_rules s d)).
Definition sql_clear_service_rules (id : Z) : stmt dir unit := fun d =>
  Ok (tt, set_service_rules (drop_rules (Z.eqb id) (service_rules d)) d).

(** SELECT count( * ) FROM instance_services ... exposure = 'trusted_region' *)
Definition trusted_services (inst : Z) (d : dir) : list (Z * ServiceRow) :=
  rows_where (fun _ s => (sv_instance_id s =? inst) && String.eqb (sv_exposure s) ExposureTrustedRegion) (services d).
Definition sql_count_trusted (inst : Z) : stmt dir Z :=
  select (fun d => Z.of_nat (length (trusted_services inst d))).
Definition sql_count_bindings (inst region : Z) : stmt dir Z := select (fun d =>
  Z.of_nat (length (List.filter (fun kv => bool_decide (sv_region_id (snd kv) = Some region)) (trusted_services inst d)))).

(** DELETE FROM instances WHERE id = $1 AND account_id = $2: everything that refers to the
    instance goes with it, its services before their hold on the membership is asked. *)
Definition sql_delete_instance (id : Z) (a : string) : stmt dir Z := fun d =>
  if negb (owns_instance a id d) then Ok (0, d)
  else Ok (1,
    set_instances (delete id (instances d))
    (set_acl_rules (drop_rules (Z.eqb id) (acl_rules d))
    (set_memberships (delete id (memberships d))
    (set_events (List.filter (fun e => negb (ev_instance_id e =? id)) (events d))
    (set_invitations (filter (fun kv => iv_instance_id (snd kv) <> id) (invitations d))
    (set_services (filter (fun kv => sv_instance_id (snd kv) <> id) (services d))
    (set_service_rules (drop_rules (service_of id d) (service_rules d)) d))))))).
