(* ===== verification/Directory.v ===== *)
(** * internal/store/acl.go: identities, wallets and instances

    The methods of acl.go, and the reads of policy.go they share, over the session
    model of [Tx] and the tables of [DirSchema]. *)
From Stdlib Require Import ZArith Lia Strings.Ascii Strings.String.
From stdpp Require Import base gmap strings list fin_maps sorting.
From S2P Require Import Prelude Sha256 Base58 GoText AclTypes Json Tx Schema DirSchema.

Open Scope Z_scope.
Open Scope tx_scope.

Notation dstore A := (M dir A).

(** [if errors.Is(err, pgx.ErrNoRows) { return missing }], any other error wrapped *)
Definition found {A} (missing : err) (fmt : string) (m : dstore A) : dstore A :=
  let!? r := m in
  match r with
  | Ok a => ret a
  | Err e => fail (if errors_is e ErrNoRows then missing else Wrapf fmt e)
  end.

(** ** Identities *)
Definition RefreshIdentity (i : IdentityInfo) : dstore unit :=
  wrap "store: refresh identity: %w"
    (pool_stmt (fun d => Ok (tt, set_identities (<[id_AccountID i := i]> (identities d)) d))).

Definition GetIdentity (a : string) : dstore IdentityInfo :=
  found ErrStoreNotFound "store: get identity: %w" (scan_row (pool_stmt (select (fun d => identities d !! a)))).

(** ** Wallet challenges *)
Definition sql_insert_wallet_challenge (c : WalletChallenge) : stmt dir unit := fun d =>
  match wallet_challenges d !! wh_ID c with
  | Some _ => Err UniqueViolation
  | None => Ok (tt, set_wallet_challenges (<[wh_ID c := mkWalletChallengeRow (wh_AccountID c) (wh_Wallet c)
      (wh_Nonce c) (wh_Message c) (wh_IssuedAt c) (wh_ExpiresAt c) None]> (wallet_challenges d)) d)
  end.

Definition CreateWalletChallenge (c : WalletChallenge) : dstore unit :=
  wrap "store: create wallet challenge: %w" (pool_stmt (sql_insert_wallet_challenge c)).

Definition wallet_challenge (a id : string) (d : dir) : option WalletChallengeRow :=
  match wallet_challenges d !! id with
  | Some r => if String.eqb (wc_account_id r) a then Some r else None
  | None => None
  end.

Definition GetWalletChallenge (a id : string) : dstore WalletChallenge :=
  let! r := found ErrStoreNotFound "store: get wallet challenge: %w"
              (scan_row (pool_stmt (select (wallet_challenge a id)))) in
  ret (mkWalletChallenge id (wc_account_id r) (wc_wallet r) (wc_nonce r) (wc_message r)
         (wc_issued_at r) (wc_expires_at r)).

Definition use_wallet_challenge (t : time) (r : WalletChallengeRow) : WalletChallengeRow :=
  mkWalletChallengeRow (wc_account_id r) (wc_wallet r) (wc_nonce r) (wc_message r)
    (wc_issued_at r) (wc_expires_at r) (Some t).
Definition sql_use_wallet_challenge (a id : string) (t : time) : stmt dir unit := fun d =>
  match wallet_challenge a id d with
  | None => Ok (tt, d)
  | Some r => Ok (tt, set_wallet_challenges (<[id := use_wallet_challenge t r]> (wallet_challenges d)) d)
  end.

Definition ConsumeWalletChallenge (a id : string) (t : time) : dstore unit :=
  with_tx "store: begin consume challenge: %w" (
    let! r := found ErrStoreNotFound "store: lock wallet challenge: %w"
                (scan_row (tx_stmt (select (wallet_challenge a id)))) in
    if wc_used_at r is Some _ then fail ErrChallengeConsumed
    else if After t (wc_expires_at r) then fail ErrChallengeExpired
    else
      do! wrap "store: consume wallet challenge: %w" (tx_stmt (sql_use_wallet_challenge a id t)) in
      wrap "store: commit wallet challenge: %w" commit).

(** ** Wallet links *)
Definition advisory_lock : stmt dir unit := select (fun _ => tt).

Definition LinkWallet (a wallet : string) : dstore WalletInfo :=
  with_tx "store: begin link wallet: %w" (
    do! wrap "store: lock wallet account: %w" (tx_stmt advisory_lock) in
    let!? owner := scan_row (tx_stmt (sql_wallet_owner wallet)) in
    match owner with
    | Ok o => if negb (String.eqb o a) then fail ErrWalletOtherAccount else fail ErrStoreConflict
    | Err e =>
      if negb (errors_is e ErrNoRows) then fail (Wrapf "store: wallet owner lookup: %w" e)
      else
        let!? existing := scan_row (tx_stmt (sql_account_wallet a)) in
        match existing with
        | Ok w => if String.eqb w wallet then fail ErrStoreConflict else fail ErrWalletAlreadyLinked
        | Err e =>
          if negb (errors_is e ErrNoRows) then fail (Wrapf "store: existing wallet lookup: %w" e)
          else
            let! t := now in
            let! r := found ErrWalletOtherAccount "store: link wallet: %w"
                        (scan_row (tx_stmt (sql_insert_wallet a wallet t))) in
            do! wrap "store: commit link wallet: %w" commit in
            ret (mkWallet (fst r) a wallet true (snd r))
        end
    end).

Definition wallet_info (kr : Z * WalletRow) : WalletInfo :=
  mkWallet (fst kr) (wl_account_id (snd kr)) (wl_wallet (snd kr)) (wl_is_primary (snd kr)) (wl_created_at (snd kr)).
Definition account_wallets (a : string) (d : dir) : list (Z * WalletRow) :=
  merge_sort (older wl_created_at) (rows_where (fun _ r => String.eqb (wl_account_id r) a) (user_wallets d)).
(** ORDER BY is_primary DESC, created_at, id *)
Definition primary_first (l : list (Z * WalletRow)) : list (Z * WalletRow) :=
  List.filter (fun kr => wl_is_primary (snd kr)) l ++ List.filter (fun kr => negb (wl_is_primary (snd kr))) l.

Definition ListWalletsByUser (a : string) : dstore (list WalletInfo) :=
  wrap "store: list wallets: %w"
    (pool_stmt (select (fun d => map wallet_info (primary_first (account_wallets a d))))).

Definition GetUserWalletSet (a : string) : dstore (list string) :=
  wrap "store: list wallet set: %w"
    (pool_stmt (select (fun d => map (fun kr => wl_wallet (snd kr)) (account_wallets a d)))).

Definition own_wallet (id : Z) (a : string) (d : dir) : option WalletRow :=
  match user_wallets d !! id with
  | Some r => if String.eqb (wl_account_id r) a then Some r else None
  | None => None
  end.

Definition DeleteWalletByIDForUser (a : string) (id : Z) : dstore bool :=
  with_tx "store: begin delete wallet: %w" (
    do! wrap "store: lock wallet account: %w" (tx_stmt advisory_lock) in
    let!? r := scan_row (tx_stmt (select (own_wallet id a))) in
    match r with
    | Err e => if errors_is e ErrNoRows then ret false else fail (Wrapf "store: lookup wallet delete: %w" e)
    | Ok r =>
      let! inUse := wrap "store: wallet delete in-use check: %w"
                      (tx_stmt (select (wallet_in_use a (wl_wallet r)))) in
      if inUse then fail ErrWalletInUse
      else
        let!? tag := tx_stmt (sql_delete_wallet id a) in
        match tag with
        | Err e => if isForeignKeyViolation e then fail ErrWalletInUse
                   else fail (Wrapf "store: delete wallet: %w" e)
        | Ok n =>
          if n =? 0 then ret false
          else
            do! (if wl_is_primary r
                 then wrap "store: promote primary wallet: %w" (tx_stmt (sql_promote_wallet a))
                 else ret tt) in
            do! wrap "store: commit delete wallet: %w" commit in
            ret true
        end
    end).

(** ** What an instance is read with *)
Definition membership_info (d : dir) (kr : Z * MembershipRow) : option RegionMembership :=
  let m := snd kr in
  match regions d !! mr_region_id m, instances d !! fst kr with
  | Some r, Some i =>
    Some (mkMembership (fst kr) (ir_peer_id i) (ir_label i) (mr_region_id m) (rg_slug r) (rg_status r)
      (rg_region_revision r) (mr_node_role m) (mr_status m) (mr_admitted_by_account_id m)
      (mr_admission_reason m) (mr_expires_at m) (mr_ownership_verified_at m) (mr_membership_revision m)
      (Z.of_nat (length (trusted_services (fst kr) d))) (mr_created_at m) (mr_updated_at m))
  | _, _ => None
  end.

(** ... WHERE p ORDER BY created_at DESC, instance_id DESC *)
Definition listMemberships (p : Z -> MembershipRow -> bool) : dstore (list RegionMembership) :=
  wrap "store: list memberships: %w" (pool_stmt (select (fun d =>
    omap (membership_info d) (merge_sort (newer mr_created_at) (rows_where p (memberships d)))))).

Definition listServiceRulesByServiceIDs (ids : list Z) : dstore (gmap Z (list ACLRule)) :=
  if bool_decide (ids = []) then ret ∅
  else wrap "store: list service acl rules: %w" (pool_stmt (select (fun d =>
    list_to_map (map (fun id => (id, rules_of id (service_rules d))) ids)))).

Definition service_before (a b : Z * ServiceRow) : Prop :=
  sv_instance_id (snd a) < sv_instance_id (snd b) \/
  sv_instance_id (snd a) = sv_instance_id (snd b) /\
    String.leb (sv_service_name (snd a)) (sv_service_name (snd b)) = true.
#[export] Instance service_before_dec : RelDecision service_before.
Proof. intros a b. unfold service_before. apply _. Defined.

Definition service_info (d : dir) (kr : Z * ServiceRow) : InstanceService :=
  let s := snd kr in
  mkService (fst kr) (sv_instance_id s) (sv_service_name s) (sv_exposure s) (sv_region_id s)
    (match sv_region_id s with Some r => rg_slug <$> regions d !! r | None => None end)
    (sv_access_mode s) (sv_service_policy_revision s) (sv_observed_present s)
    (sv_observed_last_seen_at s) (sv_created_at s) (sv_updated_at s) [].
Definition with_service_rules (rules : gmap Z (list ACLRule)) (s : InstanceService) : InstanceService :=
  mkService (is_ID s) (is_InstanceID s) (is_ServiceName s) (is_Exposure s) (is_RegionID s)
    (is_RegionSlug s) (is_AccessMode s) (is_ServicePolicyRevision s) (is_ObservedPresent s)
    (is_ObservedLastSeenAt s) (is_CreatedAt s) (is_UpdatedAt s) (default [] (rules !! is_ID s)).

(** [out[item.InstanceID] = append(...)] *)
Definition by_instance (l : list InstanceService) : gmap Z (list InstanceService) :=
  fold_left (fun m s => <[is_InstanceID s := default [] (m !! is_InstanceID s) ++ [s]]> m) l ∅.

Definition listInstanceServices (ids : list Z) : dstore (gmap Z (list InstanceService)) :=
  if bool_decide (ids = []) then ret ∅
  else
    let! rows := wrap "store: list instance services: %w" (pool_stmt (select (fun d =>
      map (service_info d) (merge_sort service_before
        (rows_where (fun _ s => bool_decide (sv_instance_id s ∈ ids)) (services d)))))) in
    let! rules := listServiceRulesByServiceIDs (map is_ID rows) in
    ret (by_instance (map (with_service_rules rules) rows)).

Definition with_rules (rules : list ACLRule) (i : InstanceInfo) : InstanceInfo :=
  mkInstance (in_ID i) (in_AccountID i) (in_PeerID i) (in_Label i) (in_OwnerWallet i) (in_AccessMode i)
    (in_PolicyScope i) (in_PolicyRevision i) (in_OwnershipStatus i) (in_ObservedWallet i)
    (in_OwnershipObservedAt i) (in_CreatedAt i) (in_UpdatedAt i) rules (in_Membership i) (in_Services i).
Definition with_trust (m : option RegionMembership) (l : list InstanceService) (i : InstanceInfo) : InstanceInfo :=
  mkInstance (in_ID i) (in_AccountID i) (in_PeerID i) (in_Label i) (in_OwnerWallet i) (in_AccessMode i)
    (in_PolicyScope i) (in_PolicyRevision i) (in_OwnershipStatus i) (in_ObservedWallet i)
    (in_OwnershipObservedAt i) (in_CreatedAt i) (in_UpdatedAt i) (in_Rules i) m l.

(** What the rows found say of one instance; ids are unique in the lists enriched. *)
Definition enriched (ms : list RegionMembership) (svcs : gmap Z (list InstanceService)) (i : InstanceInfo)
    : InstanceInfo :=
  with_trust (match find (fun m => rm_InstanceID m =? in_ID i) ms with Some m => Some m | None => in_Membership i end)
    (default (in_Services i) (svcs !! in_ID i)) i.

Definition enrichInstances (l : list InstanceInfo) : dstore (list InstanceInfo) :=
  if bool_decide (l = []) then ret []
  else
    let ids := map in_ID l in
    let! ms := listMemberships (fun inst _ => bool_decide (inst ∈ ids)) in
    let! svcs := listInstanceServices ids in
    ret (map (enriched ms svcs) l).

Definition enrichInstance (i : InstanceInfo) : dstore InstanceInfo :=
  let! l := enrichInstances [i] in
  ret (match l with x :: _ => x | [] => i end).

Definition ListInstanceRules (id : Z) : dstore (list ACLRule) :=
  wrap "store: list instance rules: %w" (pool_stmt (sql_rules id)).

Definition listRulesByInstanceIDs (ids : list Z) : dstore (gmap Z (list ACLRule)) :=
  if bool_decide (ids = []) then ret ∅
  else wrap "store: list rule map: %w" (pool_stmt (select (fun d =>
    list_to_map (map (fun id => (id, rules_of id (acl_rules d))) ids)))).

(** ** Instances *)
Definition instance_info (kr : Z * InstanceRow) : InstanceInfo :=
  let r := snd kr in
  mkInstance (fst kr) (ir_account_id r) (ir_peer_id r) (ir_label r) (ir_owner_wallet r)
    (ir_access_mode r) (ir_policy_scope r) (ir_policy_revision r) (ir_ownership_status r)
    (ir_observed_wallet r) (ir_ownership_observed_at r) (ir_created_at r) (ir_updated_at r) [] None [].

(** The columns left out take their defaults. *)
Definition new_instance_row (i : InstanceInfo) (t : time) : InstanceRow :=
  mkInstanceRow (in_AccountID i) (in_PeerID i) (in_Label i) (in_OwnerWallet i) (in_AccessMode i)
    (if String.eqb (in_PolicyScope i) "" then "peer" else in_PolicyScope i) 1 (in_OwnershipStatus i)
    (in_ObservedWallet i) (in_OwnershipObservedAt i) t t.

Definition CreateInstance (i : InstanceInfo) : dstore InstanceInfo :=
  let! t := now in
  let!? r := pool_stmt (sql_insert_instance (new_instance_row i t)) in
  match r with
  | Err e => if isUniqueViolation e then fail ErrStoreConflict
             else fail (Wrapf "store: create instance: %w" e)
  | Ok kr => ret (instance_info kr)
  end.

Definition getInstance (q : dir -> option (Z * InstanceRow)) : dstore InstanceInfo :=
  let! kr := found ErrStoreNotFound "store: get instance: %w" (scan_row (pool_stmt (select q))) in
  ret (instance_info kr).

Definition loadInstance (q : dir -> option (Z * InstanceRow)) : dstore InstanceInfo :=
  let! i := getInstance q in
  let! i := enrichInstance i in
  let! rules := ListInstanceRules (in_ID i) in
  ret (with_rules rules i).

Definition by_id (id : Z) (d : dir) : option (Z * InstanceRow) := (fun r => (id, r)) <$> instances d !! id.
Definition by_id_owned (a : string) (id : Z) (d : dir) : option (Z * InstanceRow) :=
  match instances d !! id with
  | Some r => if String.eqb (ir_account_id r) a then Some (id, r) else None
  | None => None
  end.
Definition by_peer (peer : string) (d : dir) : option (Z * InstanceRow) :=
  find_row (fun _ r => String.eqb (ir_peer_id r) peer) (instances d).

Definition GetInstanceByIDForUser (a : string) (id : Z) : dstore InstanceInfo := loadInstance (by_id_owned a id).
Definition GetInstanceByID (id : Z) : dstore InstanceInfo := loadInstance (by_id id).
Definition GetInstanceByPeerID (peer : string) : dstore InstanceInfo := loadInstance (by_peer peer).

(** The rest of both lists: memberships, services and rules of the rows read. *)
Definition load_all (l : list InstanceInfo) : dstore (list InstanceInfo) :=
  let! l := enrichInstances l in
  let! rules := listRulesByInstanceIDs (map in_ID l) in
  ret (map (fun i => with_rules (default [] (rules !! in_ID i)) i) l).

Definition ListInstancesByUser (a : string) : dstore (list InstanceInfo) :=
  let! l := wrap "store: list instances: %w" (pool_stmt (select (fun d =>
    map instance_info (merge_sort (newer ir_created_at)
      (rows_where (fun _ r => String.eqb (ir_account_id r) a) (instances d)))))) in
  if bool_decide (l = []) then ret l else load_all l.

Definition ListManagedInstancesByPeerIDs (peers : list string) : dstore (list InstanceInfo) :=
  let! l := wrap "store: list managed instances: %w" (pool_stmt (select (fun d =>
    map instance_info (rows_where (fun _ r => bool_decide (ir_peer_id r ∈ peers)) (instances d))))) in
  load_all l.

Definition row_metadata (label mode status : string) (wallet : option string) (observed : option time)
    (t : time) (r : InstanceRow) : InstanceRow :=
  mkInstanceRow (ir_account_id r) (ir_peer_id r) label (ir_owner_wallet r) mode (ir_policy_scope r)
    (ir_policy_revision r) status wallet observed (ir_created_at r) t.

Definition UpdateInstanceMetadata (a : string) (id : Z) (label mode status : string)
    (wallet : option string) (observed : option time) : dstore InstanceInfo :=
  let! t := now in
  let! r := found ErrStoreNotFound "store: update instance metadata: %w"
    (scan_row (pool_stmt (sql_update_instance id (Some a) (row_metadata label mode status wallet observed t)))) in
  let! rules := ListInstanceRules id in
  enrichInstance (with_rules rules (instance_info (id, r))).

(** The batch: one insert per rule. *)
Fixpoint insertRules (id : Z) (rules : list ACLRule) : dstore unit :=
  match rules with
  | [] => ret tt
  | r :: rest =>
    do! wrap "store: insert instance rules: %w" (tx_stmt (sql_insert_rule id r)) in
    insertRules id rest
  end.

Definition row_acl (mode status : string) (wallet : option string) (observed : option time)
    (t : time) (r : InstanceRow) : InstanceRow :=
  bump_instance t (mkInstanceRow (ir_account_id r) (ir_peer_id r) (ir_label r) (ir_owner_wallet r) mode
    (ir_policy_scope r) (ir_policy_revision r) status wallet observed (ir_created_at r) (ir_updated_at r)).

Definition ReplaceInstanceACL (a : string) (id : Z) (mode status : string) (wallet : option string)
    (observed : option time) (rules : list ACLRule) : dstore InstanceInfo :=
  let! out := with_tx "store: begin replace acl: %w" (
    let! t := now in
    let! r := found ErrStoreNotFound "store: update instance acl: %w"
      (scan_row (tx_stmt (sql_update_instance id (Some a) (row_acl mode status wallet observed t)))) in
    do! wrap "store: delete instance rules: %w" (tx_stmt (sql_delete_rules id)) in
    do! insertRules id rules in
    do! wrap "store: commit replace acl: %w" commit in
    ret (instance_info (id, r))) in
  enrichInstance (with_rules rules out).

Definition row_reclaimed (a ownerWallet : string) (wallet : option string) (observed : option time)
    (t : time) (r : InstanceRow) : InstanceRow :=
  bump_instance t (mkInstanceRow a (ir_peer_id r) (ir_label r) ownerWallet "restricted" "peer"
    (ir_policy_revision r) "active" wallet observed (ir_created_at r) (ir_updated_at r)).

Definition ReclaimInstance (id : Z) (a ownerWallet : string) (wallet : option string)
    (observed : option time) : dstore InstanceInfo :=
  let! out := with_tx "store: begin reclaim: %w" (
    do! wrap "store: reclaim delete rules: %w" (tx_stmt (sql_delete_rules id)) in
    let! t := now in
    let! r := found ErrStoreNotFound "store: reclaim instance: %w"
      (scan_row (tx_stmt (sql_update_instance id None (row_reclaimed a ownerWallet wallet observed t)))) in
    do! wrap "store: commit reclaim: %w" commit in
    ret (instance_info (id, r))) in
  enrichInstance out.

Definition DeleteInstanceByIDForUser (a : string) (id : Z) : dstore bool :=
  let! n := wrap "store: delete instance: %w" (pool_stmt (sql_delete_instance id a)) in
  ret (0 <? n).

(** ** API keys *)
Definition LookupActiveKey (keyHash : string) : dstore ActiveKey :=
  let! kr := found ErrStoreNotFound "store: lookup active key: %w" (scan_row (pool_stmt (select (fun d =>
    find_row (fun _ r => String.eqb (ak_key_hash r) keyHash && ak_active r) (api_keys d))))) in
  ret (mkActiveKey (fst kr) (ak_user_id (snd kr)) (ak_key_hash (snd kr)) (default ""%string (ak_key_prefix (snd kr)))).
