(* ===== verification/Regions.v ===== *)
(** * internal/store/policy.go: trusted regions, service policies, node challenges *)
From Stdlib Require Import ZArith Lia Strings.Ascii Strings.String.
From stdpp Require Import base gmap strings list fin_maps sorting.
From S2P Require Import Prelude Sha256 Base58 GoText AclTypes Json Tx Schema DirSchema Directory.

Open Scope Z_scope.
Open Scope tx_scope.

(** [hex.EncodeToString] *)
Definition hex_char (d : Z) : ascii := nth (Z.to_nat d) (chars_of "0123456789abcdef") "0"%char.
Definition EncodeHex (b : bytes) : string :=
  text_of (concat (map (fun x => [hex_char (Zbyte x / 16); hex_char (Zbyte x mod 16)]) b)).
Definition hashSecret (value : string) : string := EncodeHex (sha256 (bytes_of_string value)).

(** ** Regions *)
Definition region_info (kr : Z * RegionRow) : RegionInfo :=
  let r := snd kr in
  mkRegion (fst kr) (rg_slug r) (rg_name r) (rg_owner_account_id r) (rg_status r) (rg_region_revision r)
    (rg_created_at r) (rg_updated_at r).

Definition GetRegionByIDForOwner (owner : string) (id : Z) : dstore RegionInfo :=
  let! r := found ErrStoreNotFound "store: get region by owner: %w"
              (scan_row (pool_stmt (select (owned_region owner id)))) in
  ret (region_info (id, r)).

Definition GetRegionByID (id : Z) : dstore RegionInfo :=
  let! r := found ErrStoreNotFound "store: get region: %w"
              (scan_row (pool_stmt (select (fun d => regions d !! id)))) in
  ret (region_info (id, r)).

Definition ListRegionsByOwner (owner : string) : dstore (list RegionInfo) :=
  wrap "store: list regions: %w" (pool_stmt (select (fun d =>
    map region_info (merge_sort (newer rg_created_at)
      (rows_where (fun _ r => String.eqb (rg_owner_account_id r) owner) (regions d)))))).

Definition CreateRegion (i : RegionInfo) : dstore RegionInfo :=
  let! t := now in
  let!? r := pool_stmt (sql_insert_region (mkRegionRow (ri_Slug i) (ri_Name i) (ri_OwnerAccountID i)
    (if String.eqb (ri_Status i) "" then "active" else ri_Status i) 1 t t)) in
  match r with
  | Err e => if isUniqueViolation e then fail ErrStoreConflict else fail (Wrapf "store: create region: %w" e)
  | Ok kr => ret (region_info kr)
  end.

Definition row_region (name status : string) (t : time) (r : RegionRow) : RegionRow :=
  mkRegionRow (rg_slug r) name (rg_owner_account_id r) status
    (if String.eqb (rg_status r) status then rg_region_revision r else rg_region_revision r + 1)
    (rg_created_at r) t.

Definition UpdateRegion (owner : string) (id : Z) (name status : string) : dstore RegionInfo :=
  let! t := now in
  let! r := found ErrStoreNotFound "store: update region: %w"
    (scan_row (pool_stmt (sql_update_region owner id (row_region name status t)))) in
  ret (region_info (id, r)).

Definition DeleteRegion (owner : string) (id : Z) : dstore bool :=
  let!? n := pool_stmt (sql_delete_region owner id) in
  match n with
  | Err e => if isForeignKeyViolation e then fail ErrStoreConflict else fail (Wrapf "store: delete region: %w" e)
  | Ok n => ret (0 <? n)
  end.

(** ** Invitations *)
Definition invitation_info (slug peer label : string) (kr : Z * InvitationRow) : RegionInvitation :=
  let i := snd kr in
  mkInvitation (fst kr) (iv_region_id i) slug (iv_instance_id i) peer label (iv_created_by_account_id i)
    (iv_acceptance_token_hash i) (iv_status i) (iv_node_role i) (iv_expires_at i) (iv_accepted_at i)
    (iv_cancelled_at i) (iv_created_at i) (iv_updated_at i).

(** The JOINs of the list. *)
Definition joined_invitation (d : dir) (kr : Z * InvitationRow) : option RegionInvitation :=
  match regions d !! iv_region_id (snd kr), instances d !! iv_instance_id (snd kr) with
  | Some r, Some i => Some (invitation_info (rg_slug r) (ir_peer_id i) (ir_label i) kr)
  | _, _ => None
  end.
Definition listInvitations (p : Z -> InvitationRow -> bool) : dstore (list RegionInvitation) :=
  wrap "store: list invitations: %w" (pool_stmt (select (fun d =>
    omap (joined_invitation d) (merge_sort (newer iv_created_at) (rows_where p (invitations d)))))).

Definition ListRegionMembershipsByOwner (owner : string) (region : Z)
    : dstore (list RegionMembership * list RegionInvitation) :=
  do! GetRegionByIDForOwner owner region in
  let! members := listMemberships (fun _ m => mr_region_id m =? region) in
  let! invitations := listInvitations (fun _ i => iv_region_id i =? region) in
  ret (members, invitations).

Definition record_event (inst region : Z) (kind actor : string) (revision : Z) (payload : json)
    : dstore unit :=
  let! t := now in
  tx_stmt (sql_insert_event (mkEventRow inst (Some region) kind (Some actor) revision payload t)).

Definition CreateRegionInvitation (owner : string) (region inst : Z) (nodeRole token : string)
    (expiresAt : time) : dstore RegionInvitation :=
  with_tx "store: begin create invitation: %w" (
    let! r := found ErrStoreNotFound "store: lock region for invitation: %w"
                (scan_row (tx_stmt (select (owned_region owner region)))) in
    let! i := found ErrStoreNotFound "store: load invitation instance: %w"
                (scan_row (tx_stmt (select (fun d => instances d !! inst)))) in
    let! t := now in
    let!? ins := tx_stmt (sql_insert_invitation (mkInvitationRow region inst owner (hashSecret token)
      "pending" nodeRole expiresAt None None t t)) in
    match ins with
    | Err e => if isUniqueViolation e then fail ErrStoreConflict
               else fail (Wrapf "store: insert invitation: %w" e)
    | Ok kr =>
      do! wrap "store: record invitation event: %w" (record_event inst region "invited" owner 0
            (JObj [("invitation_id"%string, JInt (fst kr)); ("status"%string, JStr (iv_status (snd kr)))])) in
      do! wrap "store: commit invitation: %w" commit in
      ret (invitation_info (rg_slug r) (ir_peer_id i) (ir_label i) kr)
    end).

Definition zeroMembership : RegionMembership :=
  mkMembership 0 "" "" 0 "" "" 0 "" "" None None None None 0 0 zeroTime zeroTime.
(** The columns RETURNING scans; the rest as the caller fills it in. *)
Definition scanned_membership (inst : Z) (slug status : string) (m : MembershipRow) : RegionMembership :=
  mkMembership inst "" "" (mr_region_id m) slug status 0 (mr_node_role m) (mr_status m)
    (mr_admitted_by_account_id m) (mr_admission_reason m) (mr_expires_at m) (mr_ownership_verified_at m)
    (mr_membership_revision m) 0 (mr_created_at m) (mr_updated_at m).

Definition admitted (region : Z) (role by_account : string) (verified t : time) : MembershipRow :=
  mkMembershipRow region role "active" (Some by_account) None None (Some verified) 1 t t.
(** ... ON CONFLICT (instance_id) DO UPDATE *)
Definition readmitted (region : Z) (role by_account : string) (verified t : time) (m : MembershipRow)
    : MembershipRow :=
  mkMembershipRow region role "active" (Some by_account) (mr_admission_reason m) (mr_expires_at m)
    (Some verified) (mr_membership_revision m + 1) (mr_created_at m) t.

Definition role_event (m : MembershipRow) : json :=
  JObj [("node_role"%string, JStr (mr_node_role m)); ("status"%string, JStr (mr_status m))].

(** Services of another region still bound to the instance's membership. *)
Definition migration_guard (region inst : Z) : dstore unit :=
  let!? existing := scan_row (tx_stmt (select (fun d => mr_region_id <$> memberships d !! inst))) in
  match existing with
  | Err e => if errors_is e ErrNoRows then ret tt else fail (Wrapf "store: load existing membership: %w" e)
  | Ok old =>
    if old =? region then ret tt
    else
      let! bindings := wrap "store: count existing bindings: %w" (tx_stmt (sql_count_bindings inst old)) in
      if bindings >? 0 then fail ErrRegionMigrationConflict else ret tt
  end.

(** The JOIN with the invitation's region. *)
Definition pending_joined (region inst : Z) (d : dir) : option (Z * InvitationRow) :=
  match regions d !! region with Some _ => pending_invitation region inst d | None => None end.

Definition expire_invitation (t : time) : InvitationRow -> InvitationRow := set_invitation_status "expired" None None t.
Definition accept_invitation (t : time) : InvitationRow -> InvitationRow :=
  set_invitation_status "accepted" (Some t) None t.

Definition bump_policy (id : Z) : dstore unit :=
  let! t := now in
  do! tx_stmt (sql_update_instance id None (bump_instance t)) in ret tt.

Definition AcceptRegionInvitation (actor : string) (region inst : Z) (token : string)
    (ownershipVerifiedAt : time) : dstore RegionMembership :=
  with_tx "store: begin accept invitation: %w" (
    let! i := found ErrStoreNotFound "store: lock instance for invitation acceptance: %w"
                (scan_row (tx_stmt (select (fun d => instances d !! inst)))) in
    if negb (String.eqb (ir_account_id i) actor) then fail ErrStoreNotFound
    else
      let! kr := found ErrStoreNotFound "store: load pending invitation: %w"
                   (scan_row (tx_stmt (select (pending_joined region inst)))) in
      let iv := snd kr in
      if negb (String.eqb (hashSecret token) (iv_acceptance_token_hash iv)) then fail ErrStoreNotFound
      else if After ownershipVerifiedAt (iv_expires_at iv) then
        let! t := now in
        do! wrap "store: expire invitation: %w" (tx_stmt (sql_update_invitation (fst kr) (expire_invitation t))) in
        fail ErrChallengeExpired
      else
        do! migration_guard region inst in
        let! t := now in
        let! m := wrap "store: upsert membership: %w" (tx_stmt (sql_upsert_membership inst
          (admitted region (iv_node_role iv) (iv_created_by_account_id iv) ownershipVerifiedAt t)
          (readmitted region (iv_node_role iv) (iv_created_by_account_id iv) ownershipVerifiedAt t))) in
        do! wrap "store: accept invitation row: %w"
              (tx_stmt (sql_update_invitation (fst kr) (accept_invitation t))) in
        let! r := wrap "store: load accepted region: %w"
                    (scan_row (tx_stmt (select (fun d => regions d !! region)))) in
        do! wrap "store: bump instance revision after accept: %w" (bump_policy inst) in
        do! wrap "store: record acceptance event: %w"
              (record_event inst region "accepted" actor (mr_membership_revision m) (role_event m)) in
        do! wrap "store: commit accept invitation: %w" commit in
        ret (scanned_membership inst (rg_slug r) (rg_status r) m)).

(** ** Memberships *)
Definition membershipEventKind (status : string) : string :=
  if String.eqb status "suspended" then "suspended"
  else if String.eqb status "revoked" then "revoked"
  else "reactivated".

Definition row_managed (role status : string) (expires verified : option time) (t : time) (m : MembershipRow)
    : MembershipRow :=
  mkMembershipRow (mr_region_id m) role status (mr_admitted_by_account_id m) (mr_admission_reason m) expires
    (if verified is Some _ then verified else mr_ownership_verified_at m) (mr_membership_revision m + 1)
    (mr_created_at m) t.

(** The statement has seven arguments, its text mentions $1, $2 and $4 to $7. *)
Definition sql_manage_membership (region inst : Z) (role status : string) (expires verified : option time)
    (t : time) : stmt dir (option MembershipRow) :=
  prepared [4; 5; 6; 7; 1; 2]%nat (sql_update_membership region inst (row_managed role status expires verified t)).

Definition UpdateMembershipState (owner : string) (region inst : Z) (nodeRole status : string)
    (expiresAt ownershipVerifiedAt : option time) : dstore RegionMembership :=
  with_tx "store: begin update membership: %w" (
    let! r := found ErrStoreNotFound "store: lock region for membership update: %w"
                (scan_row (tx_stmt (select (owned_region owner region)))) in
    let! t := now in
    let! m := found ErrStoreNotFound "store: update membership: %w" (scan_row (tx_stmt
      (sql_manage_membership region inst nodeRole status expiresAt ownershipVerifiedAt t))) in
    do! wrap "store: bump instance after membership update: %w" (bump_policy inst) in
    do! wrap "store: record membership update event: %w" (record_event inst region
          (membershipEventKind status) owner (mr_membership_revision m) (role_event m)) in
    do! wrap "store: commit membership update: %w" commit in
    ret (scanned_membership inst (rg_slug r) (rg_status r) m)).

Definition own_membership (actor : string) (inst : Z) (d : dir) : option MembershipRow :=
  if owns_instance actor inst d then memberships d !! inst else None.

Definition ReleaseMembership (actor : string) (inst : Z) : dstore bool :=
  with_tx "store: begin release membership: %w" (
    let! m := found ErrStoreNotFound "store: lock membership for release: %w"
                (scan_row (tx_stmt (select (own_membership actor inst)))) in
    let! activeTrusted := wrap "store: count trusted bindings: %w" (tx_stmt (sql_count_trusted inst)) in
    if activeTrusted >? 0 then fail ErrStoreConflict
    else
      let! revision := wrap "store: membership revision before release: %w"
        (scan_row (tx_stmt (select (fun d => mr_membership_revision <$> memberships d !! inst)))) in
      let! n := wrap "store: delete membership: %w" (tx_stmt (sql_delete_membership inst)) in
      if n =? 0 then fail ErrStoreNotFound
      else
        do! wrap "store: bump instance on release: %w" (bump_policy inst) in
        do! wrap "store: record release event: %w" (record_event inst (mr_region_id m) "released" actor
              revision (JObj [("released"%string, JBool true)])) in
        do! wrap "store: commit release membership: %w" commit in
        ret true).

Definition sql_cancel_invitations (owner : string) (region inst : Z) (t : time) : stmt dir Z := fun d =>
  match owned_region owner region d, pending_invitation region inst d with
  | Some _, Some (id, _) =>
    Ok (1, set_invitations (alter (set_invitation_status "cancelled" None (Some t) t) id (invitations d)) d)
  | _, _ => Ok (0, d)
  end.
Definition CancelInvitationForOwner (owner : string) (region inst : Z) : dstore bool :=
  let! t := now in
  let! n := wrap "store: cancel invitation: %w" (pool_stmt (sql_cancel_invitations owner region inst t)) in
  ret (0 <? n).

(** ** Service policies *)
Definition GetInstanceServicesForUser (a : string) (inst : Z) : dstore InstanceInfo :=
  let! i := GetInstanceByIDForUser a inst in ret i.

(** The first observed service of the name: present when it is the only one. *)
Definition observed_in (inv : ServiceInventory) (name : string) : bool * option time :=
  match find (fun o => String.eqb (os_Name o) name) (iy_Services inv) with
  | Some o => (os_Count o =? 1, Some (iy_ObservedAt inv))
  | None => (false, None)
  end.

Fixpoint insertServiceRules (id : Z) (rules : list ACLRule) : dstore unit :=
  match rules with
  | [] => ret tt
  | r :: rest =>
    do! wrap "store: insert service acl rule: %w" (tx_stmt (sql_insert_service_rule id r)) in
    insertServiceRules id rest
  end.

Definition new_service_row (inst : Z) (inv : ServiceInventory) (t : time) (s : InstanceService) : ServiceRow :=
  mkServiceRow inst (is_ServiceName s) (is_Exposure s) (is_RegionID s) (is_AccessMode s) 1
    (fst (observed_in inv (is_ServiceName s))) (snd (observed_in inv (is_ServiceName s))) t t.

Fixpoint insertServices (inst : Z) (inv : ServiceInventory) (l : list InstanceService) : dstore unit :=
  match l with
  | [] => ret tt
  | s :: rest =>
    let! t := now in
    let!? ins := tx_stmt (sql_insert_service (new_service_row inst inv t s)) in
    match ins with
    | Err e => if isUniqueViolation e || isForeignKeyViolation e then fail ErrStoreConflict
               else fail (Wrapf "store: insert service policy: %w" e)
    | Ok kr =>
      do! insertServiceRules (fst kr) (is_Rules s) in
      insertServices inst inv rest
    end
  end.

Definition row_scope (scope : string) (t : time) (r : InstanceRow) : InstanceRow :=
  bump_instance t (mkInstanceRow (ir_account_id r) (ir_peer_id r) (ir_label r) (ir_owner_wallet r)
    (ir_access_mode r) scope (ir_policy_revision r) (ir_ownership_status r) (ir_observed_wallet r)
    (ir_ownership_observed_at r) (ir_created_at r) (ir_updated_at r)).

Definition clear_services (rules_fmt services_fmt : string) (inst : Z) : dstore unit :=
  do! wrap rules_fmt (tx_stmt (sql_delete_service_rules inst)) in
  wrap services_fmt (tx_stmt (sql_delete_services inst)).

Definition ReplaceInstanceServicePolicy (a : string) (inst : Z) (p : ReplaceServicePolicyInput)
    : dstore InstanceInfo :=
  do! with_tx "store: begin replace service policy: %w" (
    let! current := found ErrStoreNotFound "store: lock instance service policy: %w"
      (scan_row (tx_stmt (select (fun d => (fun kr => ir_policy_scope (snd kr)) <$> by_id_owned a inst d)))) in
    let service := String.eqb (rp_PolicyScope p) PolicyScopeService in
    if service && (negb (iy_SupportsPolicyV2 (rp_Inventory p)) ||
                   existsb (fun o => os_Count o >? 1) (iy_Services (rp_Inventory p)))
    then fail ErrStoreConflict
    else
      do! (if String.eqb current PolicyScopeService && String.eqb (rp_PolicyScope p) PolicyScopePeer then
             if negb (rp_AcknowledgeScopeReset p) then fail ErrStoreConflict
             else
               let! trusted := wrap "store: count trusted service bindings: %w" (tx_stmt (sql_count_trusted inst)) in
               if trusted >? 0 then fail ErrStoreConflict
               else clear_services "store: delete service acl rules on peer reset: %w"
                      "store: delete service policies on peer reset: %w" inst
           else ret tt) in
      do! (if service then
             do! clear_services "store: delete service acl rules: %w" "store: delete service policies: %w" inst in
             insertServices inst (rp_Inventory p) (rp_Services p)
           else ret tt) in
      let! t := now in
      do! wrap "store: update instance policy scope: %w"
            (tx_stmt (sql_update_instance inst (Some a) (row_scope (rp_PolicyScope p) t))) in
      wrap "store: commit service policy replacement: %w" commit) in
  GetInstanceServicesForUser a inst.

Definition row_service_acl (mode : string) (t : time) (s : ServiceRow) : ServiceRow :=
  mkServiceRow (sv_instance_id s) (sv_service_name s) (sv_exposure s) (sv_region_id s) mode
    (sv_service_policy_revision s + 1) (sv_observed_present s) (sv_observed_last_seen_at s)
    (sv_created_at s) t.

(** The columns RETURNING scans: without the region's slug. *)
Definition scanned_service (id : Z) (s : ServiceRow) (rules : list ACLRule) : InstanceService :=
  mkService id (sv_instance_id s) (sv_service_name s) (sv_exposure s) (sv_region_id s) None
    (sv_access_mode s) (sv_service_policy_revision s) (sv_observed_present s)
    (sv_observed_last_seen_at s) (sv_created_at s) (sv_updated_at s) rules.

Definition ReplaceInstanceServiceACL (a : string) (inst id : Z) (mode : string) (rules : list ACLRule)
    : dstore InstanceService :=
  with_tx "store: begin replace service acl: %w" (
    let! t := now in
    let! s := found ErrStoreNotFound "store: update service acl: %w"
                (scan_row (tx_stmt (sql_update_service id inst a (row_service_acl mode t)))) in
    do! wrap "store: clear service acl rules: %w" (tx_stmt (sql_clear_service_rules id)) in
    do! insertServiceRules id rules in
    do! wrap "store: commit service acl replacement: %w" commit in
    ret (scanned_service id s rules)).

(** ** Node credential challenges *)
Definition audFor (a : string) : string := if String.eqb a "" then "api.opentela.ai/internal/acl" else a.

Definition node_row (audience : string) (c : NodeCredentialChallenge) : NodeChallengeRow :=
  mkNodeChallengeRow (nd_PeerID c) (nd_RegionSlug c) (nd_NodeRole c) audience (nd_NonceHash c)
    (nd_ChallengeMessage c) (nd_IssuedAt c) (nd_ExpiresAt c) None.
Definition sql_insert_node_challenge (id : string) (r : NodeChallengeRow) : stmt dir unit := fun d =>
  match node_challenges d !! id with
  | Some _ => Err UniqueViolation
  | None => Ok (tt, set_node_challenges (<[id := r]> (node_challenges d)) d)
  end.
(** [p]: the rows of one flow. *)
Definition challenge_open (t : time) (r : NodeChallengeRow) : bool :=
  bool_decide (nc_consumed_at r = None) && (t <? nc_expires_at r).
Definition sql_prune_challenges (p : NodeChallengeRow -> bool) (t : time) : stmt dir unit := fun d =>
  Ok (tt, set_node_challenges
    (filter (fun kv => p (snd kv) && negb (challenge_open t (snd kv)) = false) (node_challenges d)) d).
Definition sql_count_challenges (p : NodeChallengeRow -> bool) (t : time) : stmt dir Z := select (fun d =>
  Z.of_nat (length (rows_where (fun _ r => p r && challenge_open t r) (node_challenges d)))).

Definition CreateNodeCredentialChallenge (c : NodeCredentialChallenge) : dstore unit :=
  with_tx "store: begin create node credential challenge: %w" (
    let of_peer := fun r => String.eqb (nc_peer_id r) (nd_PeerID c) in
    do! wrap "store: lock node credential challenges: %w" (tx_stmt advisory_lock) in
    do! wrap "store: prune node credential challenges: %w"
          (tx_stmt (sql_prune_challenges of_peer (nd_IssuedAt c))) in
    let! pending := wrap "store: count node credential challenges: %w"
                      (tx_stmt (sql_count_challenges of_peer (nd_IssuedAt c))) in
    if pending >=? 5 then fail ErrStoreConflict
    else
      do! wrap "store: create node credential challenge: %w"
            (tx_stmt (sql_insert_node_challenge (nd_ID c) (node_row (audFor (nd_Audience c)) c))) in
      wrap "store: commit node credential challenge: %w" commit).

(** internal/store/deploykey.go: the same table, one audience at a time. *)
Definition CreateInstanceLinkChallenge (c : NodeCredentialChallenge) : dstore unit :=
  let audience := if String.eqb (nd_Audience c) "" then "api.opentela.ai/internal/instances/link"%string
                  else nd_Audience c in
  with_tx "store: begin create link challenge: %w" (
    let of_flow := fun r => String.eqb (nc_peer_id r) (nd_PeerID c) && String.eqb (nc_audience r) audience in
    do! wrap "store: lock link challenges: %w" (tx_stmt advisory_lock) in
    do! wrap "store: prune link challenges: %w" (tx_stmt (sql_prune_challenges of_flow (nd_IssuedAt c))) in
    let! pending := wrap "store: count link challenges: %w"
                      (tx_stmt (sql_count_challenges of_flow (nd_IssuedAt c))) in
    if pending >=? 5 then fail ErrStoreConflict
    else
      do! wrap "store: create link challenge: %w"
            (tx_stmt (sql_insert_node_challenge (nd_ID c) (node_row audience c))) in
      wrap "store: commit link challenge: %w" commit).

Definition node_challenge (id peer audience : string) (d : dir) : option NodeChallengeRow :=
  match node_challenges d !! id with
  | Some r => if String.eqb (nc_peer_id r) peer && String.eqb (nc_audience r) audience then Some r else None
  | None => None
  end.
Definition consume_row (t : time) (r : NodeChallengeRow) : NodeChallengeRow :=
  mkNodeChallengeRow (nc_peer_id r) (nc_region_slug r) (nc_node_role r) (nc_audience r) (nc_nonce_hash r)
    (nc_challenge_message r) (nc_issued_at r) (nc_expires_at r) (Some t).
Definition sql_consume_challenge (id : string) (t : time) : stmt dir unit := fun d =>
  Ok (tt, set_node_challenges (alter (consume_row t) id (node_challenges d)) d).

Definition ConsumeNodeCredentialChallenge (id peer nonce audience : string) (t : time)
    : dstore NodeCredentialChallenge :=
  with_tx "store: begin consume node challenge: %w" (
    let! r := found ErrStoreNotFound "store: lock node challenge: %w"
                (scan_row (tx_stmt (select (node_challenge id peer (audFor audience))))) in
    if nc_consumed_at r is Some _ then fail ErrChallengeConsumed
    else if negb (String.eqb (hashSecret nonce) (nc_nonce_hash r)) then fail ErrStoreNotFound
    else if After t (nc_expires_at r) then fail ErrChallengeExpired
    else
      do! wrap "store: consume node challenge: %w" (tx_stmt (sql_consume_challenge id t)) in
      do! wrap "store: commit node challenge: %w" commit in
      ret (mkNodeChallenge id (nc_peer_id r) (nc_region_slug r) (nc_node_role r) (nc_audience r)
             (nc_nonce_hash r) (nc_challenge_message r) (nc_issued_at r) (nc_expires_at r) None)).
