(* ===== verification/DirInv.v ===== *)
(** * The directory's tables are always well-formed

    What the schema's constraints give on every reachable state, statement by
    statement: links are one to one, every instance is owned through a wallet its
    account has linked, and every trusted service is bound to the region its instance
    is a member of. *)
From Stdlib Require Import ZArith Lia Strings.Ascii Strings.String Relations.
From stdpp Require Import base gmap strings list fin_maps sorting.
From S2P Require Import Prelude Sha256 Base58 GoText AclTypes Json Tx Schema DirSchema Directory Regions.

Open Scope Z_scope.
Open Scope tx_scope.

(** ** Tables *)
Lemma find_row_Some {K R} `{Countable K} (P : K -> R -> bool) m k r :
  find_row P m = Some (k, r) -> m !! k = Some r /\ P k r = true.
Proof.
  unfold find_row. intros Hf. apply find_some in Hf as [Hin HP].
  split; [|done]. apply elem_of_map_to_list. by apply list_elem_of_In.
Qed.
Lemma find_row_None {K R} `{Countable K} (P : K -> R -> bool) m k r :
  find_row P m = None -> m !! k = Some r -> P k r = false.
Proof.
  unfold find_row. intros Hf Hk. apply (find_none _ _ Hf (k, r)).
  apply list_elem_of_In. by apply elem_of_map_to_list.
Qed.

(** No two rows share a key; rows without one ([None]) never collide. *)
Definition unique_by {K R V} `{Countable K} (f : R -> option V) (m : gmap K R) : Prop :=
  forall i j r s v, m !! i = Some r -> m !! j = Some s -> f r = Some v -> f s = Some v -> i = j.

Section Unique.
Context {K R V : Type} `{Countable K} (f : R -> option V).

Implicit Types m : gmap K R.

Lemma unique_insert m k r :
  unique_by f m ->
  (forall j s v, m !! j = Some s -> f r = Some v -> f s = Some v -> j = k) ->
  unique_by f (<[k := r]> m).
Proof.
  intros Hu Hn i j r1 r2 v H1 H2 E1 E2.
  apply lookup_insert_Some in H1 as [[<- <-]|[N1 H1]], H2 as [[<- <-]|[N2 H2]]; try done.
  - symmetry. eauto.
  - eauto.
  - eauto.
Qed.
Lemma unique_update m k r0 r :
  unique_by f m -> m !! k = Some r0 -> f r = f r0 -> unique_by f (<[k := r]> m).
Proof. intros Hu Hk Hf. apply unique_insert; [done|]. intros j s v Hj E1 E2. rewrite Hf in E1. eauto. Qed.
Lemma unique_delete m k : unique_by f m -> unique_by f (delete k m).
Proof.
  intros Hu i j r s v [_ H1]%lookup_delete_Some [_ H2]%lookup_delete_Some. eauto.
Qed.
Lemma unique_filter (P : K * R -> Prop) `{!forall x, Decision (P x)} m :
  unique_by f m -> unique_by f (filter P m).
Proof.
  intros Hu i j r s v [H1 _]%map_lookup_filter_Some [H2 _]%map_lookup_filter_Some. eauto.
Qed.
Lemma unique_empty : unique_by f (∅ : gmap K R).
Proof. intros i j r s v H1. by apply lookup_empty_Some in H1. Qed.
End Unique.

(** Serial ids are below the sequence. *)
Definition below {R} (n : Z) (m : gmap Z R) : Prop := forall k, is_Some (m !! k) -> k < n.

Lemma below_fresh {R} n (m : gmap Z R) : below n m -> m !! n = None.
Proof. intros Hb. destruct (m !! n) eqn:E; [|done]. pose proof (Hb n ltac:(by eexists)). lia. Qed.
Lemma below_insert {R} n (m : gmap Z R) k r : below n m -> k <= n -> below (n + 1) (<[k := r]> m).
Proof.
  intros Hb Hk i [x Hi]. apply lookup_insert_Some in Hi as [[<- _]|[_ Hi]]; [lia|].
  pose proof (Hb i ltac:(by eexists)). lia.
Qed.
Lemma below_update {R} n (m : gmap Z R) k r r0 : below n m -> m !! k = Some r0 -> below n (<[k := r]> m).
Proof.
  intros Hb Hk i [x Hi]. apply lookup_insert_Some in Hi as [[<- _]|[_ Hi]]; apply Hb; by eexists.
Qed.
Lemma below_delete {R} n (m : gmap Z R) k : below n m -> below n (delete k m).
Proof. intros Hb i [x [_ Hi]%lookup_delete_Some]. apply Hb. by eexists. Qed.
Lemma below_filter {R} n (m : gmap Z R) (P : Z * R -> Prop) `{!forall x, Decision (P x)} :
  below n m -> below n (filter P m).
Proof. intros Hb i [x [Hi _]%map_lookup_filter_Some]. apply Hb. by eexists. Qed.
Lemma below_grow {R} n (m : gmap Z R) : below n m -> below (n + 1) m.
Proof. intros Hb i Hi. pose proof (Hb i Hi). lia. Qed.

(** ** The invariant, a part per table *)
Definition wallets_ok (n : Z) (ws : gmap Z WalletRow) : Prop :=
  below n ws /\ unique_by (fun r => Some (wl_wallet r)) ws /\
  unique_by (fun r => Some (wl_account_id r)) ws /\
  map_Forall (fun _ r => wl_is_primary r = true) ws.

Definition linked (ws : gmap Z WalletRow) (a w : string) : Prop :=
  exists k r, ws !! k = Some r /\ wl_account_id r = a /\ wl_wallet r = w.

Definition instances_ok (n : Z) (ws : gmap Z WalletRow) (is_ : gmap Z InstanceRow) : Prop :=
  below n is_ /\ unique_by (fun r => Some (ir_peer_id r)) is_ /\
  map_Forall (fun _ r => instance_check r = true /\ linked ws (ir_account_id r) (ir_owner_wallet r) /\
    1 <= ir_policy_revision r <= maxI64) is_.

Definition rules_ok {R} (owners : gmap Z R) (s : gset rule_row) : Prop :=
  forall id k v, (id, k, v) ∈ s -> is_Some (owners !! id) /\ k ∈ rule_kinds.

Definition regions_ok (n : Z) (rs : gmap Z RegionRow) : Prop :=
  below n rs /\ unique_by (fun r => Some (rg_slug r)) rs /\
  map_Forall (fun _ r => slug_ok (rg_slug r) = true /\ rg_status r ∈ ["active"; "disabled"]%string /\
    1 <= rg_region_revision r <= maxI64) rs.

Definition memberships_ok (is_ : gmap Z InstanceRow) (rs : gmap Z RegionRow) (ms : gmap Z MembershipRow) : Prop :=
  map_Forall (fun i m => is_Some (is_ !! i) /\ is_Some (rs !! mr_region_id m) /\
    mr_node_role m ∈ node_roles /\ mr_status m ∈ membership_statuses /\
    1 <= mr_membership_revision m <= maxI64) ms.

Definition service_key (s : ServiceRow) : option (Z * string) := Some (sv_instance_id s, sv_service_name s).
Definition services_ok (n : Z) (is_ : gmap Z InstanceRow) (rs : gmap Z RegionRow) (ms : gmap Z MembershipRow)
    (ss : gmap Z ServiceRow) : Prop :=
  below n ss /\ unique_by service_key ss /\
  map_Forall (fun _ s => service_check s = true /\ is_Some (is_ !! sv_instance_id s) /\
    (forall r, sv_region_id s = Some r -> is_Some (rs !! r) /\ mr_region_id <$> ms !! sv_instance_id s = Some r)) ss.

Definition pending_key (i : InvitationRow) : option (Z * Z) :=
  if String.eqb (iv_status i) "pending" then Some (iv_region_id i, iv_instance_id i) else None.
Definition invitations_ok (n : Z) (is_ : gmap Z InstanceRow) (rs : gmap Z RegionRow)
    (vs : gmap Z InvitationRow) : Prop :=
  below n vs /\ unique_by pending_key vs /\
  map_Forall (fun _ i => is_Some (is_ !! iv_instance_id i) /\ is_Some (rs !! iv_region_id i) /\
    iv_node_role i ∈ node_roles /\ iv_status i ∈ invitation_statuses) vs.

Definition events_ok (is_ : gmap Z InstanceRow) (rs : gmap Z RegionRow) (es : list EventRow) : Prop :=
  Forall (fun e => is_Some (is_ !! ev_instance_id e) /\ ev_event_kind e ∈ event_kinds /\
    (forall r, ev_region_id e = Some r -> is_Some (rs !! r))) es.

Record sound (d : dir) : Prop := {
  so_wallets : wallets_ok (nextval "user_wallets" d) (user_wallets d);
  so_instances : instances_ok (nextval "instances" d) (user_wallets d) (instances d);
  so_rules : rules_ok (instances d) (acl_rules d);
  so_regions : regions_ok (nextval "trusted_regions" d) (regions d);
  so_memberships : memberships_ok (instances d) (regions d) (memberships d);
  so_services : services_ok (nextval "instance_services" d) (instances d) (regions d) (memberships d) (services d);
  so_service_rules : rules_ok (services d) (service_rules d);
  so_invitations : invitations_ok (nextval "trusted_region_invitations" d) (instances d) (regions d) (invitations d);
  so_events : events_ok (instances d) (regions d) (events d) }.

Lemma below_empty {R} n : below n (∅ : gmap Z R).
Proof. intros k [x Hx]. by apply lookup_empty_Some in Hx. Qed.
Lemma sound_empty : sound empty_dir.
Proof.
  assert (Hr : forall R (owners : gmap Z R), rules_ok owners ∅) by (intros R owners id k v Hin; set_solver).
  assert (Hb : forall R n, below n (∅ : gmap Z R)) by (intros; apply below_empty).
  assert (Hu : forall R V (f : R -> option V), unique_by f (∅ : gmap Z R)) by (intros; apply unique_empty).
  assert (Hf : forall R (P : Z -> R -> Prop), map_Forall P ∅) by (intros; apply map_Forall_empty).
  split; [| |apply Hr|  |apply Hf| |apply Hr| |apply Forall_nil_2]; 
    (split; [apply Hb|split; [apply Hu|]]); first [apply Hf|split; [apply Hu|apply Hf]].
Qed.

(** Statements keep it. *)
Definition keeps_sound (d d' : dir) : Prop := sound d -> sound d'.
#[export] Instance keeps_sound_preorder : PreOrder keeps_sound.
Proof. unfold keeps_sound. split; [intros d H; exact H|intros d1 d2 d3 H1 H2 H; auto]. Qed.

Lemma select_sound {A} (f : dir -> A) d a d' : select f d = Ok (a, d') -> keeps_sound d d'.
Proof. intros [= _ <-]. reflexivity. Qed.

Lemma nextval_same t d : nextval t (advance t d) = nextval t d + 1.
Proof. unfold advance, nextval at 1. simpl. by rewrite lookup_insert_eq. Qed.
Lemma nextval_other t u d : t <> u -> nextval t (advance u d) = nextval t d.
Proof. intros Hn. unfold advance, nextval at 1. simpl. by rewrite lookup_insert_ne. Qed.

(** Opens the invariant around a statement's effect: what the statement leaves alone
    is what it was. *)
Ltac open_sound Hd :=
  destruct Hd; split; simpl;
  repeat match goal with
  | |- context [nextval ?t (set_user_wallets _ ?d)] => change (nextval t (set_user_wallets _ d)) with (nextval t d)
  | |- context [nextval ?t (?f _ (advance ?u ?d))] => change (nextval t (f _ (advance u d))) with (nextval t (advance u d))
  end;
  rewrite ?nextval_same, ?nextval_other by done; try assumption.

(** ** Wallets *)
Lemma linked_insert ws k r a w : ws !! k = None -> linked ws a w -> linked (<[k := r]> ws) a w.
Proof.
  intros Hk (j & r' & Hj & ?). exists j, r'. split; [|done]. rewrite lookup_insert_ne; [done|]. congruence.
Qed.

Lemma instances_ok_links n ws ws' is_ :
  (forall a w, linked ws a w -> linked ws' a w) -> instances_ok n ws is_ -> instances_ok n ws' is_.
Proof.
  intros Hl (H1 & H2 & H3). split; [done|]. split; [done|]. eapply map_Forall_impl; [exact H3|].
  intros k r (? & ? & ?). auto.
Qed.

Lemma wallet_linked_spec a w d : wallet_linked a w d = true -> linked (user_wallets d) a w.
Proof.
  unfold wallet_linked. destruct (find_row _ _) as [[k r]|] eqn:Hf; [|done]. intros _.
  apply find_row_Some in Hf as [Hk Hp]. simpl in Hp. apply andb_prop in Hp as [E1%String.eqb_eq E2%String.eqb_eq].
  by exists k, r.
Qed.

Lemma wallet_in_use_false a w d k r :
  wallet_in_use a w d = false -> instances d !! k = Some r -> ~ (ir_account_id r = a /\ ir_owner_wallet r = w).
Proof.
  unfold wallet_in_use. destruct (find_row _ _) eqn:Hf; [done|]. intros _ Hk [<- <-].
  pose proof (find_row_None _ _ _ _ Hf Hk) as Hx. simpl in Hx. by rewrite !String.eqb_refl in Hx.
Qed.

Lemma insert_wallet_sound a w t d o d' : sql_insert_wallet a w t d = Ok (o, d') -> keeps_sound d d'.
Proof.
  unfold sql_insert_wallet, keeps_sound. intros Hs Hd. pose proof (so_wallets _ Hd) as (Hb & Hw & Ha & Hp).
  destruct (find_row (fun _ r => String.eqb (wl_wallet r) w) (user_wallets d)) eqn:F1; simplify_eq.
  { open_sound Hd. split; [by apply below_grow|done]. }
  destruct (find_row (fun _ r => String.eqb (wl_account_id r) a) (user_wallets d)) eqn:F2; simplify_eq.
  pose proof (below_fresh _ _ Hb) as Hfresh.
  open_sound Hd.
  - split; [apply below_insert; [done|lia]|]. split; [|split].
    + apply unique_insert; [done|]. intros j s v Hj [= <-] [= E].
      pose proof (find_row_None _ _ _ _ F1 Hj) as Hx. simpl in Hx. rewrite E, String.eqb_refl in Hx. done.
    + apply unique_insert; [done|]. intros j s v Hj [= <-] [= E].
      pose proof (find_row_None _ _ _ _ F2 Hj) as Hx. simpl in Hx. rewrite E, String.eqb_refl in Hx. done.
    + by apply map_Forall_insert_2.
  - eapply instances_ok_links; [|done]. intros. by apply linked_insert.
Qed.

Lemma delete_wallet_sound id a d n d' : sql_delete_wallet id a d = Ok (n, d') -> keeps_sound d d'.
Proof.
  unfold sql_delete_wallet, keeps_sound. intros Hs Hd.
  destruct (user_wallets d !! id) as [r|] eqn:Hr; [|by simplify_eq].
  destruct (String.eqb (wl_account_id r) a) eqn:E; simpl in Hs; [|by simplify_eq].
  destruct (wallet_in_use a (wl_wallet r) d) eqn:F; simplify_eq. apply String.eqb_eq in E as <-.
  destruct Hd as [(Hb & Hw & Ha & Hp) Hi]. split; try done; simpl.
  - split; [by apply below_delete|]. split; [by apply unique_delete|]. split; [by apply unique_delete|].
    by apply map_Forall_delete.
  - destruct Hi as (? & ? & H3). split; [done|]. split; [done|]. intros k i Hk.
    destruct (H3 k i Hk) as (? & (j & r' & Hj & E1 & E2) & ?). split; [done|]. split; [|done].
    exists j, r'. split; [|done]. rewrite lookup_delete_ne; [done|]. intros ->. simplify_eq.
    by apply (wallet_in_use_false _ _ _ _ _ F Hk).
Qed.

Lemma promote_wallet_sound a d u d' : sql_promote_wallet a d = Ok (u, d') -> keeps_sound d d'.
Proof.
  unfold sql_promote_wallet, keeps_sound. destruct (merge_sort _ _) as [|[id r] l] eqn:E; [by intros [= _ <-]|].
  intros [= _ <-] Hd.
  assert (Hr : user_wallets d !! id = Some r).
  { assert (Hin : (id, r) ∈ rows_where (fun _ r => String.eqb (wl_account_id r) a) (user_wallets d)).
    { rewrite <- (merge_sort_Permutation (older wl_created_at)), E. by left. }
    apply list_elem_of_In, filter_In in Hin as [Hin _]. apply elem_of_map_to_list. by apply list_elem_of_In. }
  destruct Hd as [(Hb & Hw & Ha & Hp) Hi]. split; try done; simpl.
  - split; [by eapply below_update|]. split; [by eapply unique_update|]. split; [by eapply unique_update|].
    by apply map_Forall_insert_2.
  - eapply instances_ok_links; [|exact Hi]. intros a' w' (j & r' & Hj & E1 & E2).
    destruct (decide (j = id)) as [->|Hne].
    + simplify_eq. eexists id, _. by rewrite lookup_insert_eq.
    + exists j, r'. by rewrite lookup_insert_ne.
Qed.

(** ** Rows that stay: references keep holding *)
Definition kept {R} (m m' : gmap Z R) : Prop := forall i, is_Some (m !! i) -> is_Some (m' !! i).

Lemma kept_insert {R} (m : gmap Z R) k r : kept m (<[k := r]> m).
Proof. intros i Hi. destruct (decide (k = i)) as [->|]; [rewrite lookup_insert_eq|rewrite lookup_insert_ne]; by eauto. Qed.
Lemma kept_refl {R} (m : gmap Z R) : kept m m.
Proof. by intros i. Qed.

Section Kept.
Context (is_ is' : gmap Z InstanceRow) (rs rs' : gmap Z RegionRow) (Hi : kept is_ is') (Hr : kept rs rs').

Lemma rules_ok_kept {R} (m m' : gmap Z R) s : kept m m' -> rules_ok m s -> rules_ok m' s.
Proof using. intros Hk Hs id k v Hin. destruct (Hs _ _ _ Hin). auto. Qed.
Lemma memberships_ok_kept ms : memberships_ok is_ rs ms -> memberships_ok is' rs' ms.
Proof using Hi Hr. intros H i m Hm. destruct (H i m Hm) as (? & ? & ?). auto. Qed.
Lemma services_ok_kept n ms ss : services_ok n is_ rs ms ss -> services_ok n is' rs' ms ss.
Proof using Hi Hr.
  intros (H1 & H2 & H3). split; [done|]. split; [done|]. intros i s Hs. destruct (H3 i s Hs) as (? & ? & H4).
  split; [done|]. split; [auto|]. intros r Er. destruct (H4 r Er). auto.
Qed.
Lemma invitations_ok_kept n vs : invitations_ok n is_ rs vs -> invitations_ok n is' rs' vs.
Proof using Hi Hr.
  intros (H1 & H2 & H3). split; [done|]. split; [done|]. intros i v Hv. destruct (H3 i v Hv) as (? & ? & ?). auto.
Qed.
Lemma events_ok_kept es : events_ok is_ rs es -> events_ok is' rs' es.
Proof using Hi Hr.
  intros H. eapply Forall_impl; [exact H|]. intros e (? & ? & H3). split; [auto|]. split; [done|]. intros r Er. eauto.
Qed.
End Kept.

(** ** Instances *)
Lemma write_instance_ok id r d d' :
  write_instance id r d = Ok d' ->
  in_i64 (ir_policy_revision r) /\ instance_check r = true /\
  linked (user_wallets d) (ir_account_id r) (ir_owner_wallet r) /\
  d' = set_instances (<[id := r]> (instances d)) d.
Proof.
  unfold write_instance. destruct (bool_decide _) eqn:E1; [|done]. simpl.
  destruct (instance_check r) eqn:E2; [|done]. simpl. destruct (wallet_linked _ _ _) eqn:E3; [|done]. simpl.
  intros [= <-]. apply bool_decide_eq_true_1 in E1. apply wallet_linked_spec in E3. auto.
Qed.

(** The references to instances after [id] got a row. *)
Lemma set_instance_sound id r d :
  sound d ->
  rules_ok (<[id := r]> (instances d)) (acl_rules d) /\
  memberships_ok (<[id := r]> (instances d)) (regions d) (memberships d) /\
  services_ok (nextval "instance_services" d) (<[id := r]> (instances d)) (regions d) (memberships d) (services d) /\
  invitations_ok (nextval "trusted_region_invitations" d) (<[id := r]> (instances d)) (regions d) (invitations d) /\
  events_ok (<[id := r]> (instances d)) (regions d) (events d).
Proof.
  intros []. pose proof (kept_insert (instances d) id r) as Hk. pose proof (kept_refl (regions d)) as Hr.
  split; [by eapply rules_ok_kept|]. split; [by eapply memberships_ok_kept|]. split; [by eapply services_ok_kept|].
  split; [by eapply invitations_ok_kept|by eapply events_ok_kept].
Qed.

Lemma insert_instance_sound r d o d' :
  1 <= ir_policy_revision r -> sql_insert_instance r d = Ok (o, d') -> keeps_sound d d'.
Proof.
  unfold sql_insert_instance, keeps_sound. intros Hrev Hs Hd.
  destruct (find_row _ (instances d)) eqn:F; [done|].
  destruct (write_instance _ _ _) as [d1|] eqn:W; simplify_eq/=.
  apply write_instance_ok in W as (Hi & Hc & Hl & ->). simpl in Hl.
  destruct (so_instances _ Hd) as (Hb & Hu & Hf). pose proof (below_fresh _ _ Hb) as Hfresh.
  destruct (set_instance_sound (nextval "instances" d) r d Hd) as (? & ? & ? & ? & ?).
  open_sound Hd. split; [apply below_insert; [done|lia]|]. split.
  - apply unique_insert; [done|]. intros j s v Hj [= <-] [= E].
    pose proof (find_row_None _ _ _ _ F Hj) as Hx. simpl in Hx. rewrite E, String.eqb_refl in Hx. done.
  - apply map_Forall_insert_2; [|done]. unfold in_i64, maxI64 in *. split; [done|]. split; [done|lia].
Qed.

(** The updates of the methods keep the peer and never lower the revision. *)
Definition row_update (f : InstanceRow -> InstanceRow) : Prop :=
  forall r, ir_peer_id (f r) = ir_peer_id r /\ ir_policy_revision r <= ir_policy_revision (f r).

Lemma update_instance_sound id owner f d o d' :
  row_update f -> sql_update_instance id owner f d = Ok (o, d') -> keeps_sound d d'.
Proof.
  unfold sql_update_instance, keeps_sound. intros Hf Hs Hd.
  destruct (instances d !! id) as [r|] eqn:Hr; [|by simplify_eq].
  destruct (match owner with Some a => _ | None => _ end); [by simplify_eq|].
  destruct (write_instance _ _ _) as [d1|] eqn:W; simplify_eq/=.
  apply write_instance_ok in W as (Hi & Hc & Hl & ->). destruct (Hf r) as [Hp Hv].
  destruct (so_instances _ Hd) as (Hb & Hu & Hfa). destruct (Hfa _ _ Hr) as (_ & _ & Hrev).
  destruct (set_instance_sound id (f r) d Hd) as (? & ? & ? & ? & ?).
  open_sound Hd. split; [by eapply below_update|]. split.
  - eapply unique_update; [done|done|]. by f_equal.
  - apply map_Forall_insert_2; [|done]. unfold in_i64, maxI64 in *. split; [done|]. split; [done|lia].
Qed.

Lemma drop_rules_spec gone s x : x ∈ drop_rules gone s <-> gone (fst (fst x)) = false /\ x ∈ s.
Proof. unfold drop_rules. rewrite elem_of_filter. done. Qed.

Lemma rules_ok_drop {R} (m : gmap Z R) gone s : rules_ok m s -> rules_ok m (drop_rules gone s).
Proof. intros H id k v [_ Hin]%drop_rules_spec. eauto. Qed.
(** Rules whose owner goes, go. *)
Lemma rules_ok_gone {R} (m m' : gmap Z R) gone s :
  (forall i, gone i = false -> is_Some (m !! i) -> is_Some (m' !! i)) ->
  rules_ok m s -> rules_ok m' (drop_rules gone s).
Proof. intros Hg H id k v [Hn Hin]%drop_rules_spec. destruct (H _ _ _ Hin). auto. Qed.

Lemma service_of_false inst d i s :
  service_of inst d i = false -> services d !! i = Some s -> sv_instance_id s <> inst.
Proof. unfold service_of. intros H Hs. rewrite Hs in H. by apply Z.eqb_neq. Qed.

Lemma services_filter n is_ rs ms inst ss :
  services_ok n is_ rs ms ss ->
  services_ok n is_ rs ms (filter (fun kv => sv_instance_id (snd kv) <> inst) ss).
Proof.
  intros (H1 & H2 & H3). split; [by apply below_filter|]. split; [by apply unique_filter|].
  intros i s [Hi _]%map_lookup_filter_Some. eauto.
Qed.

Lemma service_rules_gone inst d :
  rules_ok (services d) (service_rules d) ->
  rules_ok (filter (fun kv => sv_instance_id (snd kv) <> inst) (services d))
    (drop_rules (service_of inst d) (service_rules d)).
Proof.
  apply rules_ok_gone. intros i Hi [s Hs]. exists s. apply map_lookup_filter_Some. split; [done|].
  by eapply service_of_false.
Qed.

Lemma delete_instance_sound id a d n d' : sql_delete_instance id a d = Ok (n, d') -> keeps_sound d d'.
Proof.
  unfold sql_delete_instance, keeps_sound. intros Hs Hd.
  destruct (owns_instance a id d); simplify_eq/=; [|exact Hd].
  assert (Hk : forall i, i <> id -> is_Some (instances d !! i) -> is_Some (delete id (instances d) !! i)).
  { intros i Hne Hi. by rewrite lookup_delete_ne. }
  open_sound Hd.
  - destruct so_instances0 as (? & ? & ?). split; [by apply below_delete|]. split; [by apply unique_delete|].
    by apply map_Forall_delete.
  - eapply rules_ok_gone; [|done]. intros i Hi. apply Hk. lia.
  - intros i m [Hne Hm]%lookup_delete_Some. destruct (so_memberships0 i m Hm) as (? & ?). auto.
  - apply services_filter with (inst := id) in so_services0 as (H1 & H2 & H3).
    split; [done|]. split; [done|]. intros i s Hi. destruct (H3 i s Hi) as (? & ? & H4).
    apply map_lookup_filter_Some in Hi as [_ Hne]. simpl in Hne. split; [done|]. split; [by apply Hk|].
    intros r Er. rewrite lookup_delete_ne by done. by apply H4.
  - by apply service_rules_gone.
  - destruct so_invitations0 as (H1 & H2 & H3). split; [by apply below_filter|]. split; [by apply unique_filter|].
    intros i v [Hi Hne]%map_lookup_filter_Some. simpl in Hne. destruct (H3 i v Hi) as (? & ?). auto.
  - apply Forall_forall. intros e He. apply list_elem_of_In, filter_In in He as [He Hne].
    unfold events_ok in so_events0. rewrite Forall_forall in so_events0.
    destruct (so_events0 e) as (? & ?); [by apply list_elem_of_In|].
    split; [|done]. apply Hk; [|done]. apply negb_true_iff, Z.eqb_neq in Hne. done.
Qed.

(** ** Rules *)
Lemma insert_rule_ok owned id r s s' :
  insert_rule owned id r s = Ok s' -> owned = true /\ Kind r ∈ rule_kinds /\ s' = {[(id, Kind r, Value r)]} ∪ s.
Proof.
  unfold insert_rule, one_of. intros H. do 2 case_bool_decide; destruct owned; by simplify_eq/=.
Qed.
Lemma rules_ok_insert {R} (m : gmap Z R) id k v s :
  is_Some (m !! id) -> k ∈ rule_kinds -> rules_ok m s -> rules_ok m ({[(id, k, v)]} ∪ s).
Proof.
  intros Hm Hk H i k' v' [Hin|Hin]%elem_of_union; [|eauto]. apply elem_of_singleton in Hin. by simplify_eq.
Qed.

Lemma insert_acl_rule_sound id r d u d' : sql_insert_rule id r d = Ok (u, d') -> keeps_sound d d'.
Proof.
  unfold sql_insert_rule, keeps_sound. intros Hs Hd.
  destruct (insert_rule _ _ _ _) as [s|] eqn:E; simplify_eq/=. apply insert_rule_ok in E as (Ho & Hk & ->).
  apply bool_decide_eq_true_1 in Ho. open_sound Hd. by apply rules_ok_insert.
Qed.
Lemma delete_rules_sound id d u d' : sql_delete_rules id d = Ok (u, d') -> keeps_sound d d'.
Proof. intros [= _ <-] Hd. open_sound Hd. by apply rules_ok_drop. Qed.
Lemma insert_service_rule_sound id r d u d' : sql_insert_service_rule id r d = Ok (u, d') -> keeps_sound d d'.
Proof.
  unfold sql_insert_service_rule, keeps_sound. intros Hs Hd.
  destruct (insert_rule _ _ _ _) as [s|] eqn:E; simplify_eq/=. apply insert_rule_ok in E as (Ho & Hk & ->).
  apply bool_decide_eq_true_1 in Ho. open_sound Hd. by apply rules_ok_insert.
Qed.
Lemma delete_service_rules_sound inst d u d' : sql_delete_service_rules inst d = Ok (u, d') -> keeps_sound d d'.
Proof. intros [= _ <-] Hd. open_sound Hd. by apply rules_ok_drop. Qed.
Lemma clear_service_rules_sound id d u d' : sql_clear_service_rules id d = Ok (u, d') -> keeps_sound d d'.
Proof. intros [= _ <-] Hd. open_sound Hd. by apply rules_ok_drop. Qed.
Lemma delete_services_sound inst d u d' : sql_delete_services inst d = Ok (u, d') -> keeps_sound d d'.
Proof.
  intros [= _ <-] Hd. open_sound Hd; [by apply services_filter|by apply service_rules_gone].
Qed.

(** ** Regions *)
Lemma write_region_ok id r d d' :
  write_region id r d = Ok d' ->
  in_i64 (rg_region_revision r) /\ slug_ok (rg_slug r) = true /\ rg_status r ∈ ["active"; "disabled"]%string /\
  d' = set_regions (<[id := r]> (regions d)) d.
Proof.
  unfold write_region, one_of. intros H. do 2 case_bool_decide; destruct (slug_ok _) eqn:E; by simplify_eq/=.
Qed.

Lemma set_region_sound id r d :
  sound d ->
  memberships_ok (instances d) (<[id := r]> (regions d)) (memberships d) /\
  services_ok (nextval "instance_services" d) (instances d) (<[id := r]> (regions d)) (memberships d) (services d) /\
  invitations_ok (nextval "trusted_region_invitations" d) (instances d) (<[id := r]> (regions d)) (invitations d) /\
  events_ok (instances d) (<[id := r]> (regions d)) (events d).
Proof.
  intros []. pose proof (kept_insert (regions d) id r) as Hk. pose proof (kept_refl (instances d)) as Hr.
  split; [by eapply memberships_ok_kept|]. split; [by eapply services_ok_kept|].
  split; [by eapply invitations_ok_kept|by eapply events_ok_kept].
Qed.

Lemma insert_region_sound r d o d' :
  1 <= rg_region_revision r -> sql_insert_region r d = Ok (o, d') -> keeps_sound d d'.
Proof.
  unfold sql_insert_region, keeps_sound. intros Hrev Hs Hd.
  destruct (write_region _ _ _) as [d1|] eqn:W; [|done]. simpl in Hs.
  destruct (find_row _ (regions d)) eqn:F; simplify_eq.
  apply write_region_ok in W as (Hi & Hc & Hl & ->).
  destruct (so_regions _ Hd) as (Hb & Hu & Hf). pose proof (below_fresh _ _ Hb) as Hfresh.
  destruct (set_region_sound (nextval "trusted_regions" d) r d Hd) as (? & ? & ? & ?).
  open_sound Hd. split; [apply below_insert; [done|lia]|]. split.
  - apply unique_insert; [done|]. intros j s v Hj [= <-] [= E].
    pose proof (find_row_None _ _ _ _ F Hj) as Hx. simpl in Hx. rewrite E, String.eqb_refl in Hx. done.
  - apply map_Forall_insert_2; [|done]. unfold in_i64, maxI64 in *. split; [done|]. split; [done|lia].
Qed.

Lemma owned_region_Some owner id d r : owned_region owner id d = Some r -> regions d !! id = Some r.
Proof. unfold owned_region. destruct (regions d !! id); [|done]. by destruct (String.eqb _ _). Qed.

Lemma update_region_sound owner id f d o d' :
  (forall r, rg_slug (f r) = rg_slug r /\ rg_region_revision r <= rg_region_revision (f r)) ->
  sql_update_region owner id f d = Ok (o, d') -> keeps_sound d d'.
Proof.
  unfold sql_update_region, keeps_sound. intros Hf Hs Hd.
  destruct (owned_region owner id d) as [r|] eqn:Hr; [|by simplify_eq]. apply owned_region_Some in Hr.
  destruct (write_region _ _ _) as [d1|] eqn:W; simplify_eq/=.
  apply write_region_ok in W as (Hi & Hc & Hl & ->). destruct (Hf r) as [Hp Hv].
  destruct (so_regions _ Hd) as (Hb & Hu & Hfa). destruct (Hfa _ _ Hr) as (_ & _ & Hrev).
  destruct (set_region_sound id (f r) d Hd) as (? & ? & ? & ?).
  open_sound Hd. split; [by eapply below_update|]. split.
  - eapply unique_update; [done|done|]. by f_equal.
  - apply map_Forall_insert_2; [|done]. unfold in_i64, maxI64 in *. split; [done|]. split; [done|lia].
Qed.

Lemma delete_region_sound owner id d n d' : sql_delete_region owner id d = Ok (n, d') -> keeps_sound d d'.
Proof.
  unfold sql_delete_region, region_in_use, keeps_sound. intros Hs Hd.
  destruct (owned_region owner id d) as [r|] eqn:Hr; [|by simplify_eq].
  destruct (find_row _ (memberships d)) eqn:F1; [done|]. destruct (find_row _ (services d)) eqn:F2; [done|].
  simplify_eq/=.
  assert (Hk : forall i, i <> id -> is_Some (regions d !! i) -> is_Some (delete id (regions d) !! i)).
  { intros i Hne Hi. by rewrite lookup_delete_ne. }
  open_sound Hd.
  - destruct so_regions0 as (? & ? & ?). split; [by apply below_delete|]. split; [by apply unique_delete|].
    by apply map_Forall_delete.
  - intros i m Hm. destruct (so_memberships0 i m Hm) as (? & ? & ?). split; [done|]. split; [|done].
    apply Hk; [|done]. pose proof (find_row_None _ _ _ _ F1 Hm) as Hx. simpl in Hx. by apply Z.eqb_neq.
  - destruct so_services0 as (H1 & H2 & H3). split; [done|]. split; [done|]. intros i s Hi.
    destruct (H3 i s Hi) as (? & ? & H4). split; [done|]. split; [done|]. intros q Eq.
    destruct (H4 q Eq). split; [|done]. apply Hk; [|done]. intros ->.
    pose proof (find_row_None _ _ _ _ F2 Hi) as Hx. simpl in Hx. by apply bool_decide_eq_false_1 in Hx.
  - destruct so_invitations0 as (H1 & H2 & H3). split; [by apply below_filter|]. split; [by apply unique_filter|].
    intros i v [Hi Hne]%map_lookup_filter_Some. simpl in Hne. destruct (H3 i v Hi) as (? & ? & ?). auto.
  - apply Forall_fmap. eapply Forall_impl; [exact so_events0|]. intros e (H1 & H2 & H3). unfold event_forget.
    simpl. case_bool_decide as E; simpl; [done|]. split; [done|]. split; [done|]. intros q Eq.
    apply Hk; [congruence|auto].
Qed.

(** ** Memberships *)
Lemma write_membership_ok inst r d d' :
  write_membership inst r d = Ok d' ->
  in_i64 (mr_membership_revision r) /\ mr_node_role r ∈ node_roles /\ mr_status r ∈ membership_statuses /\
  is_Some (instances d !! inst) /\ is_Some (regions d !! mr_region_id r) /\
  (forall old, memberships d !! inst = Some old ->
     mr_region_id old = mr_region_id r \/ membership_bound (mr_region_id old) inst d = false) /\
  d' = set_memberships (<[inst := r]> (memberships d)) d.
Proof.
  unfold write_membership, one_of. intros H.
  repeat case_bool_decide; simplify_eq/=.
  destruct (match memberships d !! inst with Some old => _ | None => _ end) eqn:E; [done|].
  injection H as <-. repeat (split; [done|]). split; [|done]. intros old Hold. rewrite Hold in E.
  destruct (Z.eqb_spec (mr_region_id old) (mr_region_id r)); [by left|by right].
Qed.

Lemma membership_bound_false region inst d k s :
  membership_bound region inst d = false -> services d !! k = Some s -> sv_instance_id s = inst ->
  sv_region_id s <> Some region.
Proof.
  unfold membership_bound. destruct (find_row _ _) eqn:F; [done|]. intros _ Hk <- E.
  pose proof (find_row_None _ _ _ _ F Hk) as Hx. simpl in Hx. by rewrite Z.eqb_refl, bool_decide_true in Hx.
Qed.

(** A membership that changes its region takes no bound service with it. *)
Lemma write_membership_sound inst r d d' :
  1 <= mr_membership_revision r -> write_membership inst r d = Ok d' -> keeps_sound d d'.
Proof.
  unfold keeps_sound. intros Hrev W Hd. apply write_membership_ok in W as (Hi & Hro & Hst & Hin & Hre & Hb & ->).
  open_sound Hd.
  - apply map_Forall_insert_2; [|done]. unfold in_i64, maxI64 in *. repeat (split; [done|]). lia.
  - destruct so_services0 as (H1 & H2 & H3). split; [done|]. split; [done|]. intros i s Hs.
    destruct (H3 i s Hs) as (? & ? & H4). split; [done|]. split; [done|]. intros q Eq.
    destruct (H4 q Eq) as [? Hm]. split; [done|]. destruct (decide (inst = sv_instance_id s)) as [->|Hne].
    + rewrite lookup_insert_eq. simpl. destruct (memberships d !! sv_instance_id s) as [old|]; [|done].
      simpl in Hm. destruct (Hb old eq_refl) as [Hsame|Hfree]; [congruence|].
      exfalso. eapply membership_bound_false; [exact Hfree|exact Hs|done|congruence].
    + by rewrite lookup_insert_ne.
Qed.

Lemma upsert_membership_sound inst fresh merge d o d' :
  1 <= mr_membership_revision fresh ->
  (forall m, mr_membership_revision m <= mr_membership_revision (merge m)) ->
  sql_upsert_membership inst fresh merge d = Ok (o, d') -> keeps_sound d d'.
Proof.
  unfold sql_upsert_membership. intros Hf Hm Hs Hd.
  destruct (write_membership _ _ _) as [d1|] eqn:W; simplify_eq/=.
  eapply write_membership_sound; [|exact W|done].
  destruct (memberships d !! inst) as [old|] eqn:Ho; [|done].
  destruct (so_memberships _ Hd inst old Ho) as (_ & _ & _ & _ & ?). specialize (Hm old). lia.
Qed.

Lemma update_membership_sound region inst f d o d' :
  (forall m, mr_membership_revision m <= mr_membership_revision (f m)) ->
  sql_update_membership region inst f d = Ok (o, d') -> keeps_sound d d'.
Proof.
  unfold sql_update_membership. intros Hm Hs Hd.
  destruct (memberships d !! inst) as [old|] eqn:Ho; [|by simplify_eq].
  destruct (negb _); [by simplify_eq|].
  destruct (write_membership _ _ _) as [d1|] eqn:W; simplify_eq/=.
  eapply write_membership_sound; [|exact W|done].
  destruct (so_memberships _ Hd inst old Ho) as (_ & _ & _ & _ & ?). specialize (Hm old). lia.
Qed.

Lemma prepared_ok {A} used (s : stmt dir A) d x : prepared used s d = Ok x -> s d = Ok x.
Proof. unfold prepared. by destruct (untyped_parameter used). Qed.

Lemma delete_membership_sound inst d n d' : sql_delete_membership inst d = Ok (n, d') -> keeps_sound d d'.
Proof.
  unfold sql_delete_membership, keeps_sound. intros Hs Hd.
  destruct (memberships d !! inst) as [old|] eqn:Ho; [|by simplify_eq].
  destruct (membership_bound _ _ _) eqn:Hb; simplify_eq/=. open_sound Hd.
  - by apply map_Forall_delete.
  - destruct so_services0 as (H1 & H2 & H3). split; [done|]. split; [done|]. intros i s Hs.
    destruct (H3 i s Hs) as (? & ? & H4). split; [done|]. split; [done|]. intros q Eq.
    destruct (H4 q Eq) as [? Hm]. split; [done|]. destruct (decide (inst = sv_instance_id s)) as [->|Hne].
    + rewrite Ho in Hm. simpl in Hm. exfalso.
      eapply membership_bound_false; [exact Hb|exact Hs|done|congruence].
    + by rewrite lookup_delete_ne.
Qed.

Lemma insert_event_sound e d u d' : sql_insert_event e d = Ok (u, d') -> keeps_sound d d'.
Proof.
  unfold sql_insert_event, one_of, keeps_sound. intros Hs Hd.
  destruct (bool_decide (ev_event_kind e ∈ event_kinds)) eqn:E1; [|done]. simpl in Hs.
  destruct (bool_decide (is_Some (instances d !! ev_instance_id e))) eqn:E2; [|done]. simpl in Hs.
  destruct (match ev_region_id e with Some r => _ | None => _ end) eqn:E3; simplify_eq/=.
  apply bool_decide_eq_true_1 in E1, E2. open_sound Hd. apply Forall_app. split; [done|].
  constructor; [|constructor]. split; [done|]. split; [done|]. intros r Er. rewrite Er in E3.
  by apply bool_decide_eq_true_1 in E3.
Qed.

(** ** Invitations *)
Lemma insert_invitation_sound r d o d' : sql_insert_invitation r d = Ok (o, d') -> keeps_sound d d'.
Proof.
  unfold sql_insert_invitation, one_of, keeps_sound. intros Hs Hd.
  destruct (bool_decide (iv_node_role r ∈ node_roles)) eqn:E1; [|done].
  destruct (bool_decide (iv_status r ∈ invitation_statuses)) eqn:E2; [|done]. simpl in Hs.
  destruct (pending_invitation _ _ _) eqn:F; [done|].
  destruct (bool_decide (is_Some (instances d !! iv_instance_id r))) eqn:E3; [|done].
  destruct (bool_decide (is_Some (regions d !! iv_region_id r))) eqn:E4; simplify_eq/=.
  apply bool_decide_eq_true_1 in E1, E2, E3, E4.
  destruct (so_invitations _ Hd) as (Hb & Hu & Hf). open_sound Hd.
  split; [apply below_insert; [done|lia]|]. split.
  - apply unique_insert; [done|]. intros j s v Hj K1 K2. unfold pending_key in *.
    destruct (String.eqb (iv_status r) "pending"); simplify_eq.
    destruct (String.eqb (iv_status s) "pending") eqn:Es; simplify_eq.
    pose proof (find_row_None _ _ _ _ F Hj) as Hx. simpl in Hx.
    rewrite Es in Hx. replace (iv_region_id s) with (iv_region_id r) in Hx by congruence.
    replace (iv_instance_id s) with (iv_instance_id r) in Hx by congruence. by rewrite !Z.eqb_refl in Hx.
  - by apply map_Forall_insert_2.
Qed.

(** A change of status is to one that is not pending. *)
Definition closes (f : InvitationRow -> InvitationRow) : Prop := forall i,
  iv_region_id (f i) = iv_region_id i /\ iv_instance_id (f i) = iv_instance_id i /\
  iv_node_role (f i) = iv_node_role i /\ iv_status (f i) ∈ invitation_statuses /\ pending_key (f i) = None.

Lemma alter_invitation_sound id f d :
  closes f -> keeps_sound d (set_invitations (alter f id (invitations d)) d).
Proof.
  intros Hf Hd. destruct (so_invitations _ Hd) as (Hb & Hu & Hfa). open_sound Hd.
  split; [|split].
  - intros k [x Hk]. apply Hb. apply lookup_alter_Some in Hk as [(<- & y & Hy & _)|[_ Hk]]; eauto.
  - intros i j r s v Hi Hj K1 K2.
    apply lookup_alter_Some in Hi as [(<- & y & Hy & ->)|[_ Hi]].
    { destruct (Hf y) as (_ & _ & _ & _ & E). congruence. }
    apply lookup_alter_Some in Hj as [(<- & y & Hy & ->)|[_ Hj]]; [|eauto].
    destruct (Hf y) as (_ & _ & _ & _ & E). congruence.
  - intros i v Hi. apply lookup_alter_Some in Hi as [(<- & y & Hy & ->)|[_ Hi]]; [|by apply (Hfa i)].
    destruct (Hf y) as (E1 & E2 & E3 & E4 & _). destruct (Hfa _ _ Hy) as (? & ? & ? & _).
    rewrite E1, E2, E3. auto.
Qed.
Lemma update_invitation_sound id f d u d' :
  closes f -> sql_update_invitation id f d = Ok (u, d') -> keeps_sound d d'.
Proof. intros Hf [= _ <-]. by apply alter_invitation_sound. Qed.

Lemma status_closes st a c t :
  st ∈ invitation_statuses -> st <> "pending"%string -> closes (set_invitation_status st a c t).
Proof.
  intros H1 H2 i. repeat split; [done|]. unfold pending_key. simpl. by apply String.eqb_neq in H2 as ->.
Qed.

Lemma cancel_invitations_sound owner region inst t d n d' :
  sql_cancel_invitations owner region inst t d = Ok (n, d') -> keeps_sound d d'.
Proof.
  unfold sql_cancel_invitations. intros Hs.
  destruct (owned_region owner region d); [|by simplify_eq].
  destruct (pending_invitation region inst d) as [[id iv]|]; simplify_eq; [|done].
  apply alter_invitation_sound, status_closes; [set_solver|done].
Qed.

(** ** Services *)
Lemma service_refs_ok_spec s d :
  service_refs_ok s d = true ->
  is_Some (instances d !! sv_instance_id s) /\
  (forall r, sv_region_id s = Some r -> is_Some (regions d !! r) /\ mr_region_id <$> memberships d !! sv_instance_id s = Some r).
Proof.
  unfold service_refs_ok. intros [E1%bool_decide_eq_true_1 E2]%andb_prop. split; [done|].
  intros r Er. rewrite Er in E2. apply andb_prop in E2 as [E2 E3]. by apply bool_decide_eq_true_1 in E2, E3.
Qed.

Lemma insert_service_sound s d o d' : sql_insert_service s d = Ok (o, d') -> keeps_sound d d'.
Proof.
  unfold sql_insert_service, keeps_sound. intros Hs Hd.
  destruct (service_check s) eqn:Hc; [|done]. simpl in Hs.
  destruct (find_row _ (services d)) eqn:F; [done|].
  destruct (service_refs_ok s d) eqn:Hr; simplify_eq/=. apply service_refs_ok_spec in Hr as [Hi Hr].
  destruct (so_services _ Hd) as (Hb & Hu & Hf). pose proof (below_fresh _ _ Hb) as Hfresh.
  open_sound Hd.
  - split; [apply below_insert; [done|lia]|]. split.
    + apply unique_insert; [done|]. intros j s' v Hj [= <-] [= E1 E2].
      pose proof (find_row_None _ _ _ _ F Hj) as Hx. simpl in Hx.
      by rewrite E1, E2, Z.eqb_refl, String.eqb_refl in Hx.
    + by apply map_Forall_insert_2.
  - eapply rules_ok_kept; [apply kept_insert|done].
Qed.

Lemma update_service_sound id inst a f d o d' :
  (forall s, service_key (f s) = service_key s /\ sv_region_id (f s) = sv_region_id s) ->
  sql_update_service id inst a f d = Ok (o, d') -> keeps_sound d d'.
Proof.
  unfold sql_update_service, keeps_sound. intros Hf Hs Hd.
  destruct (services d !! id) as [s|] eqn:Hsv; [|by simplify_eq].
  destruct (negb _); [by simplify_eq|]. destruct (negb _); [done|].
  destruct (service_check (f s)) eqn:Hc; simplify_eq/=.
  destruct (so_services _ Hd) as (Hb & Hu & Hfa). destruct (Hfa _ _ Hsv) as (_ & Hi & Hr).
  destruct (Hf s) as [E1 E2]. open_sound Hd.
  - split; [by eapply below_update|]. split; [by eapply unique_update|].
    apply map_Forall_insert_2; [|done]. injection E1 as E1 _. rewrite E1, E2. done.
  - eapply rules_ok_kept; [apply kept_insert|done].
Qed.

(** ** The other tables *)
Lemma wallet_challenge_sound d v : keeps_sound d (set_wallet_challenges v d).
Proof. intros Hd. by open_sound Hd. Qed.
Lemma node_challenge_sound d v : keeps_sound d (set_node_challenges v d).
Proof. intros Hd. by open_sound Hd. Qed.
Lemma insert_wallet_challenge_sound c d u d' : sql_insert_wallet_challenge c d = Ok (u, d') -> keeps_sound d d'.
Proof.
  unfold sql_insert_wallet_challenge. destruct (_ !! _); [done|]. intros [= _ <-]. apply wallet_challenge_sound.
Qed.
Lemma use_wallet_challenge_sound a id t d u d' : sql_use_wallet_challenge a id t d = Ok (u, d') -> keeps_sound d d'.
Proof.
  unfold sql_use_wallet_challenge. destruct (wallet_challenge _ _ _); intros [= _ <-]; [apply wallet_challenge_sound|done].
Qed.
Lemma insert_node_challenge_sound id r d u d' : sql_insert_node_challenge id r d = Ok (u, d') -> keeps_sound d d'.
Proof.
  unfold sql_insert_node_challenge. destruct (_ !! _); [done|]. intros [= _ <-]. apply node_challenge_sound.
Qed.
Lemma prune_challenges_sound p t d u d' : sql_prune_challenges p t d = Ok (u, d') -> keeps_sound d d'.
Proof. intros [= _ <-]. apply node_challenge_sound. Qed.
Lemma consume_challenge_sound id t d u d' : sql_consume_challenge id t d = Ok (u, d') -> keeps_sound d d'.
Proof. intros [= _ <-]. apply node_challenge_sound. Qed.
