(* ===== verification/Keys.v ===== *)
(** * internal/store/postgres.go, deploykey.go, faucet.go: keys and claims

    API keys, deploy keys and faucet claims: single statements on the pool. *)
From Stdlib Require Import ZArith Lia Strings.Ascii Strings.String.
From stdpp Require Import base gmap strings list fin_maps sorting.
From S2P Require Import Prelude Sha256 Base58 GoText AclTypes Json Tx Schema DirSchema Directory Regions DirInv.

Open Scope Z_scope.
Open Scope tx_scope.

(** ** API keys *)
Record KeyInfo := mkKeyInfo {
  ki_ID : Z; ki_KeyHash : string; ki_UserID : option string; ki_Name : string; ki_Prefix : string;
  ki_Active : bool; ki_CreatedAt : time; ki_RevokedAt : option time }.

Definition HashKey (token : string) : string := EncodeHex (sha256 (bytes_of_string token)).

Definition key_by_hash (keyHash : string) (d : dir) : option (Z * KeyRow) :=
  find_row (fun _ r => String.eqb (ak_key_hash r) keyHash) (api_keys d).

(** The account and whether the key is active; a legacy key has no account. *)
Definition Validate (keyHash : string) : dstore (string * bool) :=
  let!? r := scan_row (pool_stmt (select (key_by_hash keyHash))) in
  match r with
  | Err e => if errors_is e ErrNoRows then ret (""%string, false) else fail (Wrapf "store: validate: %w" e)
  | Ok kr =>
    match ak_active (snd kr), ak_user_id (snd kr) with
    | true, Some a => ret (a, true)
    | active, _ => ret (""%string, active)
    end
  end.

(** INSERT INTO api_keys; UNIQUE (key_hash) *)
Definition sql_insert_key (r : KeyRow) : stmt dir Z := fun d =>
  let id := nextval "api_keys" d in
  if key_by_hash (ak_key_hash r) d is Some _ then Err UniqueViolation
  else Ok (id, set_api_keys (<[id := r]> (api_keys d)) (advance "api_keys" d)).

Definition Insert (keyHash name : string) : dstore unit :=
  let! t := now in
  do! wrap "store: insert: %w" (pool_stmt (sql_insert_key
        (mkKeyRow keyHash (Some name) true t None None None))) in
  ret tt.

Definition InsertUserKey (user keyHash name prefix : string) : dstore KeyInfo :=
  let! t := now in
  let! id := wrap "store: insert user key: %w" (pool_stmt (sql_insert_key
    (mkKeyRow keyHash (Some name) true t None (Some user) (Some prefix)))) in
  ret (mkKeyInfo id keyHash (Some user) name prefix true t None).

Definition revoke_key (t : time) (r : KeyRow) : KeyRow :=
  mkKeyRow (ak_key_hash r) (ak_name r) false (ak_created_at r) (Some t) (ak_user_id r) (ak_key_prefix r).
(** UPDATE api_keys SET active = FALSE ... WHERE p AND active; the hash of the row changed *)
Definition sql_revoke_key (p : Z -> KeyRow -> bool) (t : time) : stmt dir (option string) := fun d =>
  match find_row (fun id r => p id r && ak_active r) (api_keys d) with
  | None => Ok (None, d)
  | Some (id, r) => Ok (Some (ak_key_hash r), set_api_keys (<[id := revoke_key t r]> (api_keys d)) d)
  end.

Definition Revoke (keyHash : string) : dstore bool :=
  let! t := now in
  let! o := wrap "store: revoke: %w" (pool_stmt (sql_revoke_key (fun _ r => String.eqb (ak_key_hash r) keyHash) t)) in
  ret (if o is Some _ then true else false).

Definition owned_key (user : string) (r : KeyRow) : bool :=
  match ak_user_id r with Some u => String.eqb u user | None => false end.

Definition RevokeByIDForUser (user : string) (id : Z) : dstore (string * bool) :=
  let! t := now in
  let!? r := scan_row (pool_stmt (sql_revoke_key (fun k r => (k =? id) && owned_key user r) t)) in
  match r with
  | Err e => if errors_is e ErrNoRows then ret (""%string, false) else fail (Wrapf "store: revoke by id: %w" e)
  | Ok hash => ret (hash, true)
  end.

(** The columns each list reads; the others keep their zero value. *)
Definition admin_key (kr : Z * KeyRow) : KeyInfo :=
  let r := snd kr in
  mkKeyInfo 0 (ak_key_hash r) None (default ""%string (ak_name r)) "" (ak_active r) (ak_created_at r) (ak_revoked_at r).
Definition user_key (user : string) (kr : Z * KeyRow) : KeyInfo :=
  let r := snd kr in
  mkKeyInfo (fst kr) "" (Some user) (default ""%string (ak_name r)) (default ""%string (ak_key_prefix r))
    (ak_active r) (ak_created_at r) (ak_revoked_at r).

Definition ListKeys : dstore (list KeyInfo) :=
  wrap "store: list query: %w" (pool_stmt (select (fun d =>
    map admin_key (merge_sort (older ak_created_at) (map_to_list (api_keys d)))))).
Definition ListByUser (user : string) : dstore (list KeyInfo) :=
  wrap "store: list by user query: %w" (pool_stmt (select (fun d =>
    map (user_key user) (merge_sort (newer ak_created_at) (rows_where (fun _ r => owned_key user r) (api_keys d)))))).
Definition CountActiveByUser (user : string) : dstore Z :=
  wrap "store: count active: %w" (pool_stmt (select (fun d =>
    Z.of_nat (length (rows_where (fun _ r => owned_key user r && ak_active r) (api_keys d)))))).

(** ** Deploy keys *)
Record DeployKeyInfo := mkDeployKey {
  dy_ID : Z; dy_UserID : string; dy_KeyHash : string; dy_KeyPrefix : string; dy_Name : string;
  dy_MaxUses : Z; dy_UseCount : Z; dy_ExpiresAt : option time; dy_LastUsedAt : option time;
  dy_Active : bool; dy_CreatedAt : time; dy_RevokedAt : option time }.

Definition UsesLeft (k : DeployKeyInfo) : Z :=
  if dy_MaxUses k =? 0 then -1 else i64 (dy_MaxUses k - dy_UseCount k).
Definition Expired (k : DeployKeyInfo) (t : time) : bool :=
  match dy_ExpiresAt k with Some e => After t e | None => false end.
Definition Usable (k : DeployKeyInfo) (t : time) : bool :=
  dy_Active k && bool_decide (dy_RevokedAt k = None) && negb (Expired k t) &&
  ((dy_MaxUses k =? 0) || (dy_UseCount k <? dy_MaxUses k)).

(** The name is scanned into a Go string, which takes no NULL. *)
Definition deploy_key_info (kr : Z * DeployKeyRow) : res DeployKeyInfo :=
  let r := snd kr in
  match dk_name r with
  | None => Err (Errorf "cannot scan NULL into *string")
  | Some name => Ok (mkDeployKey (fst kr) (dk_user_id r) (dk_key_hash r) (dk_key_prefix r) name (dk_max_uses r)
      (dk_use_count r) (dk_expires_at r) (dk_last_used_at r) (dk_active r) (dk_created_at r) (dk_revoked_at r))
  end.
Definition scanDeployKey (m : dstore (option (Z * DeployKeyRow))) : dstore DeployKeyInfo :=
  found ErrStoreNotFound "store: scan deploy key: %w"
    (let! kr := scan_row m in lift (deploy_key_info kr)).

Definition deploy_key_by_hash (keyHash : string) (d : dir) : option (Z * DeployKeyRow) :=
  find_row (fun _ r => String.eqb (dk_key_hash r) keyHash) (deploy_keys d).

(** The row an INSERT or UPDATE writes: INT columns, max_uses >= 0. *)
Definition write_deploy_key (id : Z) (r : DeployKeyRow) (d : dir) : res dir :=
  if negb (bool_decide (in_i32 (dk_max_uses r)) && bool_decide (in_i32 (dk_use_count r))) then Err OutOfRange
  else if dk_max_uses r <? 0 then Err CheckViolation
  else Ok (set_deploy_keys (<[id := r]> (deploy_keys d)) d).

(** NULLIF($4, '') *)
Definition sql_insert_deploy_key (user keyHash prefix name : string) (maxUses : Z) (expires : option time)
    (t : time) : stmt dir (option (Z * DeployKeyRow)) := fun d =>
  let id := nextval "deploy_keys" d in
  let r := mkDeployKeyRow user keyHash prefix (if String.eqb name "" then None else Some name) maxUses 0
             expires None true t None in
  if negb (bool_decide (in_i32 maxUses)) then Err EncodeError
  else res_bind (write_deploy_key id r (advance "deploy_keys" d)) (fun d' =>
    if deploy_key_by_hash keyHash d is Some _ then Err UniqueViolation else Ok (Some (id, r), d')).

Definition InsertDeployKey (user keyHash prefix name : string) (maxUses : Z) (expires : option time)
    : dstore DeployKeyInfo :=
  let! t := now in
  wrap "store: insert deploy key: %w"
    (scanDeployKey (pool_stmt (sql_insert_deploy_key user keyHash prefix name maxUses expires t))).

Fixpoint scan_all (l : list (Z * DeployKeyRow)) : res (list DeployKeyInfo) :=
  match l with
  | [] => Ok []
  | kr :: rest =>
    match deploy_key_info kr with
    | Err e => Err (Wrapf "store: scan deploy key: %w" e)
    | Ok k => res_bind (scan_all rest) (fun ks => Ok (k :: ks))
    end
  end.
Definition ListDeployKeysByUser (user : string) : dstore (list DeployKeyInfo) :=
  let! rows := wrap "store: list deploy keys: %w" (pool_stmt (select (fun d =>
    merge_sort (newer dk_created_at) (rows_where (fun _ r => String.eqb (dk_user_id r) user) (deploy_keys d))))) in
  lift (scan_all rows).

Definition unrevoked (r : DeployKeyRow) : bool := bool_decide (dk_revoked_at r = None).
Definition CountActiveDeployKeysByUser (user : string) : dstore Z :=
  wrap "store: count deploy keys: %w" (pool_stmt (select (fun d =>
    Z.of_nat (length (rows_where (fun _ r => String.eqb (dk_user_id r) user && unrevoked r) (deploy_keys d)))))).

Definition revoke_deploy_key (t : time) (r : DeployKeyRow) : DeployKeyRow :=
  mkDeployKeyRow (dk_user_id r) (dk_key_hash r) (dk_key_prefix r) (dk_name r) (dk_max_uses r) (dk_use_count r)
    (dk_expires_at r) (dk_last_used_at r) false (dk_created_at r) (Some t).
Definition sql_revoke_deploy_key (user : string) (id : Z) (t : time) : stmt dir Z := fun d =>
  match deploy_keys d !! id with
  | Some r => if String.eqb (dk_user_id r) user && unrevoked r
              then Ok (1, set_deploy_keys (<[id := revoke_deploy_key t r]> (deploy_keys d)) d) else Ok (0, d)
  | None => Ok (0, d)
  end.

(** The hash is read after the row changed, in a statement of its own. *)
Definition RevokeDeployKeyByIDForUser (user : string) (id : Z) : dstore (string * bool) :=
  let! t := now in
  let! n := wrap "store: revoke deploy key: %w" (pool_stmt (sql_revoke_deploy_key user id t)) in
  if n =? 0 then ret (""%string, false)
  else
    let! hash := wrap "store: revoke deploy key hash: %w"
      (scan_row (pool_stmt (select (fun d => dk_key_hash <$> deploy_keys d !! id)))) in
    ret (hash, true).

Definition FindActiveDeployKey (keyHash : string) (t : time) : dstore DeployKeyInfo :=
  let! k := scanDeployKey (pool_stmt (select (deploy_key_by_hash keyHash))) in
  if negb (dy_Active k) || negb (bool_decide (dy_RevokedAt k = None)) || Expired k t
  then fail ErrStoreNotFound else ret k.

Definition spendable (t : time) (r : DeployKeyRow) : bool :=
  dk_active r && unrevoked r && match dk_expires_at r with Some e => t <? e | None => true end &&
  ((dk_max_uses r =? 0) || (dk_use_count r <? dk_max_uses r)).
Definition spend (t : time) (r : DeployKeyRow) : DeployKeyRow :=
  mkDeployKeyRow (dk_user_id r) (dk_key_hash r) (dk_key_prefix r) (dk_name r) (dk_max_uses r)
    (dk_use_count r + 1) (dk_expires_at r) (Some t) (dk_active r) (dk_created_at r) (dk_revoked_at r).
Definition sql_spend_deploy_key (keyHash : string) (t : time) : stmt dir (option string) := fun d =>
  match deploy_key_by_hash keyHash d with
  | Some (id, r) =>
    if spendable t r
    then res_bind (write_deploy_key id (spend t r) d) (fun d' => Ok (Some (dk_user_id r), d')) else Ok (None, d)
  | None => Ok (None, d)
  end.
Definition ConsumeDeployKeyUse (keyHash : string) (t : time) : dstore string :=
  found ErrStoreNotFound "store: consume deploy key use: %w"
    (scan_row (pool_stmt (sql_spend_deploy_key keyHash t))).

(** ** Faucet claims *)
Record FaucetClaim := mkFaucetClaim {
  ft_AccountID : string; ft_Wallet : string; ft_AmountRaw : Z; ft_TxSignature : string; ft_ClaimedAt : time }.

Definition FaucetPendingTTL : Z := 120000000000.

Definition stale_claim (t : time) (r : FaucetClaimRow) : bool :=
  String.eqb (fc_tx_signature r) "" && (fc_claimed_at r <? t - FaucetPendingTTL).
(** INSERT ... ON CONFLICT (account_id) DO UPDATE ... WHERE the claim is stale; rows affected *)
Definition sql_claim_faucet (a wallet sig : string) (amount : Z) (t : time) : stmt dir Z := fun d =>
  match faucet_claims d !! a with
  | None => Ok (1, set_faucet_claims (<[a := mkFaucetClaimRow wallet amount sig t]> (faucet_claims d)) d)
  | Some r =>
    if stale_claim t r
    then Ok (1, set_faucet_claims (<[a := mkFaucetClaimRow wallet amount "" t]> (faucet_claims d)) d)
    else Ok (0, d)
  end.
Definition ClaimFaucet (a wallet sig : string) (amount : Z) : dstore bool :=
  let! t := now in
  let! n := wrap "store: claim faucet: %w" (pool_stmt (sql_claim_faucet a wallet sig amount t)) in
  ret (n =? 1).

Definition sql_complete_claim (a sig : string) : stmt dir Z := fun d =>
  match faucet_claims d !! a with
  | Some r => if String.eqb (fc_tx_signature r) ""
              then Ok (1, set_faucet_claims
                     (<[a := mkFaucetClaimRow (fc_wallet r) (fc_amount_raw r) sig (fc_claimed_at r)]> (faucet_claims d)) d)
              else Ok (0, d)
  | None => Ok (0, d)
  end.
Definition CompleteFaucetClaim (a sig : string) : dstore unit :=
  let! n := wrap "store: complete faucet claim: %w" (pool_stmt (sql_complete_claim a sig)) in
  if n =? 0 then fail (Errorf "store: complete faucet claim: no pending claim for %s") else ret tt.

Definition sql_clear_claim (a : string) : stmt dir unit := fun d =>
  match faucet_claims d !! a with
  | Some r => if String.eqb (fc_tx_signature r) "" then Ok (tt, set_faucet_claims (delete a (faucet_claims d)) d)
              else Ok (tt, d)
  | None => Ok (tt, d)
  end.
Definition ClearFaucetClaim (a : string) : dstore unit :=
  wrap "store: clear faucet claim: %w" (pool_stmt (sql_clear_claim a)).

Definition GetFaucetClaim (a : string) : dstore FaucetClaim :=
  let! r := found ErrStoreNotFound "store: get faucet claim: %w"
              (scan_row (pool_stmt (select (fun d => faucet_claims d !! a)))) in
  ret (mkFaucetClaim a (fc_wallet r) (fc_amount_raw r) (fc_tx_signature r) (fc_claimed_at r)).
