(* ===== verification/DirReach.v ===== *)
(** * Every state the directory can reach

    An operation is any method that changes the directory, with any arguments, in any
    environment.  [effect] is one statement; every method is a sequence of effects, so
    what each statement keeps every method keeps, whatever is lost. *)
From Stdlib Require Import ZArith Lia Strings.Ascii Strings.String Relations.
From stdpp Require Import base gmap strings list fin_maps sorting.
From S2P Require Import Prelude Sha256 Base58 GoText AclTypes Json Tx Schema DirSchema Directory Regions DirInv Keys.

Open Scope Z_scope.
Open Scope tx_scope.

(** ** Statements *)
Inductive effect (d d' : dir) : Prop :=
  | ef_read : d' = d -> effect d d'
  | ef_identity i : d' = set_identities i d -> effect d d'
  | ef_insert_wallet a w t o : sql_insert_wallet a w t d = Ok (o, d') -> effect d d'
  | ef_delete_wallet id a n : sql_delete_wallet id a d = Ok (n, d') -> effect d d'
  | ef_promote_wallet a u : sql_promote_wallet a d = Ok (u, d') -> effect d d'
  | ef_insert_challenge c u : sql_insert_wallet_challenge c d = Ok (u, d') -> effect d d'
  | ef_use_challenge a id t u : sql_use_wallet_challenge a id t d = Ok (u, d') -> effect d d'
  | ef_insert_instance r o : sql_insert_instance r d = Ok (o, d') -> ir_policy_revision r = 1 -> effect d d'
  | ef_update_instance id owner f o :
      sql_update_instance id owner f d = Ok (o, d') -> row_update f -> effect d d'
  | ef_delete_instance id a n : sql_delete_instance id a d = Ok (n, d') -> effect d d'
  | ef_insert_rule id r u : sql_insert_rule id r d = Ok (u, d') -> effect d d'
  | ef_delete_rules id u : sql_delete_rules id d = Ok (u, d') -> effect d d'
  | ef_insert_region r o : sql_insert_region r d = Ok (o, d') -> rg_region_revision r = 1 -> effect d d'
  | ef_update_region owner id name status t o :
      sql_update_region owner id (row_region name status t) d = Ok (o, d') -> effect d d'
  | ef_delete_region owner id n : sql_delete_region owner id d = Ok (n, d') -> effect d d'
  | ef_upsert_membership inst region role by_account v t o :
      sql_upsert_membership inst (admitted region role by_account v t) (readmitted region role by_account v t) d = Ok (o, d') ->
      effect d d'
  | ef_update_membership region inst role status e v t o :
      sql_manage_membership region inst role status e v t d = Ok (o, d') -> effect d d'
  | ef_delete_membership inst n : sql_delete_membership inst d = Ok (n, d') -> effect d d'
  | ef_insert_event e u : sql_insert_event e d = Ok (u, d') -> effect d d'
  | ef_insert_invitation r o : sql_insert_invitation r d = Ok (o, d') -> effect d d'
  | ef_close_invitation id st a c t u :
      sql_update_invitation id (set_invitation_status st a c t) d = Ok (u, d') ->
      st ∈ invitation_statuses -> st <> "pending"%string -> effect d d'
  | ef_cancel_invitations owner region inst t n :
      sql_cancel_invitations owner region inst t d = Ok (n, d') -> effect d d'
  | ef_insert_service inst inv t s o : sql_insert_service (new_service_row inst inv t s) d = Ok (o, d') -> effect d d'
  | ef_update_service id inst a mode t o :
      sql_update_service id inst a (row_service_acl mode t) d = Ok (o, d') -> effect d d'
  | ef_delete_services inst u : sql_delete_services inst d = Ok (u, d') -> effect d d'
  | ef_insert_service_rule id r u : sql_insert_service_rule id r d = Ok (u, d') -> effect d d'
  | ef_delete_service_rules inst u : sql_delete_service_rules inst d = Ok (u, d') -> effect d d'
  | ef_clear_service_rules id u : sql_clear_service_rules id d = Ok (u, d') -> effect d d'
  | ef_insert_node id r u : sql_insert_node_challenge id r d = Ok (u, d') -> nc_consumed_at r = None -> effect d d'
  | ef_prune_nodes p t u : sql_prune_challenges p t d = Ok (u, d') -> effect d d'
  | ef_consume_node id t u : sql_consume_challenge id t d = Ok (u, d') -> effect d d'
  | ef_insert_key r o : sql_insert_key r d = Ok (o, d') -> effect d d'
  | ef_revoke_key p t o : sql_revoke_key p t d = Ok (o, d') -> effect d d'
  | ef_insert_deploy user h p name m e t o : sql_insert_deploy_key user h p name m e t d = Ok (o, d') -> effect d d'
  | ef_revoke_deploy user id t n : sql_revoke_deploy_key user id t d = Ok (n, d') -> effect d d'
  | ef_spend_deploy h t o : sql_spend_deploy_key h t d = Ok (o, d') -> effect d d'
  | ef_claim a w sig amount t n : sql_claim_faucet a w sig amount t d = Ok (n, d') -> effect d d'
  | ef_complete_claim a sig n : sql_complete_claim a sig d = Ok (n, d') -> effect d d'
  | ef_clear_claim a u : sql_clear_claim a d = Ok (u, d') -> effect d d'.

Lemma ef_select {A} (f : dir -> A) d a d' : select f d = Ok (a, d') -> effect d d'.
Proof. intros [= _ <-]. by apply ef_read. Qed.

(** ** Methods are sequences of statements *)
Notation effects := (rtc effect).
Definition dmoves {A} (m : dstore A) : Prop := Moves effects m.

Lemma once {A} (s : stmt dir A) : (forall w a w', s w = Ok (a, w') -> effect w w') ->
  forall w a w', s w = Ok (a, w') -> effects w w'.
Proof. intros H w a w' Hs. apply rtc_once. eauto. Qed.

Lemma found_moves {A} missing fmt (m : dstore A) : dmoves m -> dmoves (found missing fmt m).
Proof. intros Hm. apply moves_attempt; [done|]. intros [a|e]; [apply moves_ret|apply moves_fail]. Qed.

(** The rows of an update keep their peer and do not lower their revision. *)
Lemma row_metadata_update a b c x y t : row_update (row_metadata a b c x y t).
Proof. intros r. simpl. split; [done|lia]. Qed.
Lemma row_acl_update a b x y t : row_update (row_acl a b x y t).
Proof. intros r. simpl. split; [done|lia]. Qed.
Lemma row_reclaimed_update a b x y t : row_update (row_reclaimed a b x y t).
Proof. intros r. simpl. split; [done|lia]. Qed.
Lemma row_scope_update a t : row_update (row_scope a t).
Proof. intros r. simpl. split; [done|lia]. Qed.
Lemma bump_instance_update t : row_update (bump_instance t).
Proof. intros r. simpl. split; [done|lia]. Qed.

Create HintDb effects discriminated.
#[export] Hint Resolve row_metadata_update row_acl_update row_reclaimed_update row_scope_update bump_instance_update
  ef_select ef_insert_wallet ef_delete_wallet ef_promote_wallet ef_insert_challenge ef_use_challenge
  ef_insert_instance ef_update_instance ef_delete_instance ef_insert_rule ef_delete_rules ef_insert_region
  ef_update_region ef_delete_region ef_upsert_membership ef_update_membership ef_delete_membership ef_insert_event
  ef_insert_invitation ef_close_invitation ef_cancel_invitations ef_insert_service ef_update_service
  ef_delete_services ef_insert_service_rule ef_delete_service_rules ef_clear_service_rules ef_insert_node
  ef_prune_nodes ef_consume_node ef_insert_key ef_revoke_key ef_insert_deploy ef_revoke_deploy ef_spend_deploy
  ef_claim ef_complete_claim ef_clear_claim : effects.

(** Proves [dmoves] by a method's syntax. *)
Ltac dmoves :=
  unfold dmoves;
  repeat match goal with
  | |- Moves _ (bind _ _) => apply moves_bind; [|intros ?]
  | |- Moves _ (attempt _ _) => apply moves_attempt; [|intros ?]
  | |- Moves _ (wrap _ _) => apply moves_wrap
  | |- Moves _ (scan_row _) => apply moves_scan
  | |- Moves _ (with_tx _ _) => apply moves_with_tx
  | |- Moves _ (found _ _ _) => apply found_moves; unfold dmoves
  | |- Moves _ (match ?x with _ => _ end) => destruct x
  | |- Moves _ (tx_stmt _) => apply moves_stmt; [typeclasses eauto|apply once; intros; eauto with effects]
  | |- Moves _ (pool_stmt _) => apply moves_pool; [typeclasses eauto|apply once; intros; eauto with effects]
  | |- Moves _ (ret _) => apply moves_ret
  | |- Moves _ (fail _) => apply moves_fail
  | |- Moves _ (lift _) => apply moves_lift
  | |- Moves _ now => apply moves_now
  | |- Moves _ commit => apply moves_commit
  end.

#[export] Hint Extern 1 (@eq Z _ _) => reflexivity : effects.
#[export] Hint Extern 1 (@eq (option _) _ _) => reflexivity : effects.
#[export] Hint Extern 1 (_ ∈ invitation_statuses) => (unfold invitation_statuses; set_solver) : effects.
#[export] Hint Extern 1 (_ <> _) => discriminate : effects.
#[export] Hint Transparent sql_wallet_owner sql_account_wallet advisory_lock sql_rules sql_count_trusted
  sql_count_bindings sql_count_challenges expire_invitation accept_invitation row_update : effects.

(** ** The methods *)
Lemma RefreshIdentity_moves i : dmoves (RefreshIdentity i).
Proof. unfold RefreshIdentity. dmoves. eapply ef_identity. match goal with H : Ok _ = Ok _ |- _ => by injection H end. Qed.
Lemma CreateWalletChallenge_moves c : dmoves (CreateWalletChallenge c).
Proof. unfold CreateWalletChallenge. dmoves. Qed.
Lemma ConsumeWalletChallenge_moves a id t : dmoves (ConsumeWalletChallenge a id t).
Proof. unfold ConsumeWalletChallenge. dmoves. Qed.
Lemma LinkWallet_moves a w : dmoves (LinkWallet a w).
Proof. unfold LinkWallet. dmoves. Qed.
Lemma DeleteWallet_moves a id : dmoves (DeleteWalletByIDForUser a id).
Proof. unfold DeleteWalletByIDForUser. dmoves. Qed.

Lemma listMemberships_moves p : dmoves (listMemberships p).
Proof. unfold listMemberships. dmoves. Qed.
Lemma listInstanceServices_moves ids : dmoves (listInstanceServices ids).
Proof. unfold listInstanceServices, listServiceRulesByServiceIDs. dmoves. Qed.
Lemma enrichInstances_moves l : dmoves (enrichInstances l).
Proof.
  unfold enrichInstances. cbv zeta. dmoves; [apply listMemberships_moves|apply listInstanceServices_moves].
Qed.
Lemma enrichInstance_moves i : dmoves (enrichInstance i).
Proof. unfold enrichInstance. dmoves. apply enrichInstances_moves. Qed.
Lemma ListInstanceRules_moves id : dmoves (ListInstanceRules id).
Proof. unfold ListInstanceRules. dmoves. Qed.
Lemma loadInstance_moves q : dmoves (loadInstance q).
Proof. unfold loadInstance, getInstance. dmoves; [apply enrichInstance_moves|apply ListInstanceRules_moves]. Qed.
Lemma load_all_moves l : dmoves (load_all l).
Proof. unfold load_all, listRulesByInstanceIDs. dmoves. apply enrichInstances_moves. Qed.
Lemma CreateInstance_moves i : dmoves (CreateInstance i).
Proof. unfold CreateInstance. dmoves. Qed.
Lemma UpdateInstanceMetadata_moves a id l m s w o : dmoves (UpdateInstanceMetadata a id l m s w o).
Proof. unfold UpdateInstanceMetadata. dmoves; [apply ListInstanceRules_moves|apply enrichInstance_moves]. Qed.
Lemma insertRules_moves id rules : dmoves (insertRules id rules).
Proof. induction rules as [|r rules IH]; simpl; dmoves. apply IH. Qed.
Lemma ReplaceInstanceACL_moves a id m s w o rules : dmoves (ReplaceInstanceACL a id m s w o rules).
Proof. unfold ReplaceInstanceACL. dmoves; [apply insertRules_moves|apply enrichInstance_moves]. Qed.
Lemma ReclaimInstance_moves id a ow w o : dmoves (ReclaimInstance id a ow w o).
Proof. unfold ReclaimInstance. dmoves. apply enrichInstance_moves. Qed.
Lemma DeleteInstance_moves a id : dmoves (DeleteInstanceByIDForUser a id).
Proof. unfold DeleteInstanceByIDForUser. dmoves. Qed.

Lemma CreateRegion_moves i : dmoves (CreateRegion i).
Proof. unfold CreateRegion. dmoves. Qed.
Lemma UpdateRegion_moves o id n s : dmoves (UpdateRegion o id n s).
Proof. unfold UpdateRegion. dmoves. Qed.
Lemma DeleteRegion_moves o id : dmoves (DeleteRegion o id).
Proof. unfold DeleteRegion. dmoves. Qed.
Lemma record_event_moves i r k a v p : dmoves (record_event i r k a v p).
Proof. unfold record_event. dmoves. Qed.
Lemma bump_policy_moves id : dmoves (bump_policy id).
Proof. unfold bump_policy. dmoves. Qed.
Lemma CreateRegionInvitation_moves o r i n tok e : dmoves (CreateRegionInvitation o r i n tok e).
Proof. unfold CreateRegionInvitation. dmoves. apply record_event_moves. Qed.
Lemma migration_guard_moves r i : dmoves (migration_guard r i).
Proof. unfold migration_guard. dmoves. Qed.
Lemma AcceptRegionInvitation_moves a r i tok v : dmoves (AcceptRegionInvitation a r i tok v).
Proof.
  unfold AcceptRegionInvitation. cbv zeta.
  dmoves; [apply migration_guard_moves|apply bump_policy_moves|apply record_event_moves].
Qed.
Lemma UpdateMembershipState_moves o r i n s e v : dmoves (UpdateMembershipState o r i n s e v).
Proof. unfold UpdateMembershipState. dmoves; [apply bump_policy_moves|apply record_event_moves]. Qed.
Lemma ReleaseMembership_moves a i : dmoves (ReleaseMembership a i).
Proof. unfold ReleaseMembership. dmoves; [apply bump_policy_moves|apply record_event_moves]. Qed.
Lemma CancelInvitation_moves o r i : dmoves (CancelInvitationForOwner o r i).
Proof. unfold CancelInvitationForOwner. dmoves. Qed.
Lemma insertServiceRules_moves id rules : dmoves (insertServiceRules id rules).
Proof. induction rules as [|r rules IH]; simpl; dmoves. apply IH. Qed.
Lemma insertServices_moves inst inv l : dmoves (insertServices inst inv l).
Proof. induction l as [|s l IH]; simpl; dmoves; [apply insertServiceRules_moves|apply IH]. Qed.
Lemma clear_services_moves f g i : dmoves (clear_services f g i).
Proof. unfold clear_services. dmoves. Qed.
Lemma ReplaceServicePolicy_moves a i p : dmoves (ReplaceInstanceServicePolicy a i p).
Proof.
  unfold ReplaceInstanceServicePolicy, GetInstanceServicesForUser, GetInstanceByIDForUser. cbv zeta.
  dmoves; first [apply clear_services_moves|apply insertServices_moves|apply loadInstance_moves].
Qed.
Lemma ReplaceServiceACL_moves a i id m rules : dmoves (ReplaceInstanceServiceACL a i id m rules).
Proof. unfold ReplaceInstanceServiceACL. dmoves. apply insertServiceRules_moves. Qed.
Lemma CreateNodeChallenge_moves c : dmoves (CreateNodeCredentialChallenge c).
Proof. unfold CreateNodeCredentialChallenge. cbv zeta. dmoves. Qed.
Lemma CreateLinkChallenge_moves c : dmoves (CreateInstanceLinkChallenge c).
Proof. unfold CreateInstanceLinkChallenge. cbv zeta. dmoves. Qed.
Lemma ConsumeNodeChallenge_moves id p n a t : dmoves (ConsumeNodeCredentialChallenge id p n a t).
Proof. unfold ConsumeNodeCredentialChallenge. dmoves. Qed.

Lemma Insert_moves h n : dmoves (Insert h n).
Proof. unfold Insert. dmoves. Qed.
Lemma InsertUserKey_moves u h n p : dmoves (InsertUserKey u h n p).
Proof. unfold InsertUserKey. dmoves. Qed.
Lemma Revoke_moves h : dmoves (Revoke h).
Proof. unfold Revoke. dmoves. Qed.
Lemma RevokeByID_moves u id : dmoves (RevokeByIDForUser u id).
Proof. unfold RevokeByIDForUser. dmoves. Qed.
Lemma scanDeployKey_moves m : dmoves m -> dmoves (scanDeployKey m).
Proof. intros Hm. unfold scanDeployKey. dmoves. apply Hm. Qed.
Lemma InsertDeployKey_moves u h p n m e : dmoves (InsertDeployKey u h p n m e).
Proof. unfold InsertDeployKey. dmoves. apply scanDeployKey_moves. dmoves. Qed.
Lemma RevokeDeployKey_moves u id : dmoves (RevokeDeployKeyByIDForUser u id).
Proof. unfold RevokeDeployKeyByIDForUser. dmoves. Qed.
Lemma ConsumeDeployKeyUse_moves h t : dmoves (ConsumeDeployKeyUse h t).
Proof. unfold ConsumeDeployKeyUse. dmoves. Qed.
Lemma ClaimFaucet_moves a w s x : dmoves (ClaimFaucet a w s x).
Proof. unfold ClaimFaucet. dmoves. Qed.
Lemma CompleteFaucetClaim_moves a s : dmoves (CompleteFaucetClaim a s).
Proof. unfold CompleteFaucetClaim. dmoves. Qed.
Lemma ClearFaucetClaim_moves a : dmoves (ClearFaucetClaim a).
Proof. unfold ClearFaucetClaim. dmoves. Qed.

(** ** Operations *)
Inductive dop :=
  | DIdentity (i : IdentityInfo)
  | DChallenge (c : WalletChallenge)
  | DConsume (a id : string) (t : time)
  | DLink (a wallet : string)
  | DUnlink (a : string) (id : Z)
  | DCreate (i : InstanceInfo)
  | DMetadata (a : string) (id : Z) (label mode status : string) (wallet : option string) (observed : option time)
  | DReplaceACL (a : string) (id : Z) (mode status : string) (wallet : option string) (observed : option time)
      (rules : list ACLRule)
  | DReclaim (id : Z) (a ownerWallet : string) (wallet : option string) (observed : option time)
  | DDelete (a : string) (id : Z)
  | DRegion (i : RegionInfo)
  | DUpdateRegion (owner : string) (id : Z) (name status : string)
  | DDeleteRegion (owner : string) (id : Z)
  | DInvite (owner : string) (region inst : Z) (role token : string) (expires : time)
  | DAccept (actor : string) (region inst : Z) (token : string) (verified : time)
  | DManage (owner : string) (region inst : Z) (role status : string) (expires verified : option time)
  | DRelease (actor : string) (inst : Z)
  | DCancel (owner : string) (region inst : Z)
  | DReplaceServices (a : string) (inst : Z) (p : ReplaceServicePolicyInput)
  | DReplaceServiceACL (a : string) (inst id : Z) (mode : string) (rules : list ACLRule)
  | DNodeChallenge (c : NodeCredentialChallenge)
  | DLinkChallenge (c : NodeCredentialChallenge)
  | DConsumeNode (id peer nonce audience : string) (t : time)
  | DInsertKey (keyHash name : string)
  | DInsertUserKey (user keyHash name prefix : string)
  | DRevoke (keyHash : string)
  | DRevokeByID (user : string) (id : Z)
  | DInsertDeploy (user keyHash prefix name : string) (maxUses : Z) (expires : option time)
  | DRevokeDeploy (user : string) (id : Z)
  | DSpend (keyHash : string) (t : time)
  | DClaim (a wallet sig : string) (amount : Z)
  | DComplete (a sig : string)
  | DClear (a : string).

Definition ignore {A} (m : dstore A) : dstore unit := bind m (fun _ => ret tt).

Definition dexec (o : dop) : dstore unit :=
  match o with
  | DIdentity i => RefreshIdentity i
  | DChallenge c => CreateWalletChallenge c
  | DConsume a id t => ConsumeWalletChallenge a id t
  | DLink a w => ignore (LinkWallet a w)
  | DUnlink a id => ignore (DeleteWalletByIDForUser a id)
  | DCreate i => ignore (CreateInstance i)
  | DMetadata a id l m s w o => ignore (UpdateInstanceMetadata a id l m s w o)
  | DReplaceACL a id m s w o rules => ignore (ReplaceInstanceACL a id m s w o rules)
  | DReclaim id a ow w o => ignore (ReclaimInstance id a ow w o)
  | DDelete a id => ignore (DeleteInstanceByIDForUser a id)
  | DRegion i => ignore (CreateRegion i)
  | DUpdateRegion ow id n s => ignore (UpdateRegion ow id n s)
  | DDeleteRegion ow id => ignore (DeleteRegion ow id)
  | DInvite ow r i ro tok e => ignore (CreateRegionInvitation ow r i ro tok e)
  | DAccept a r i tok v => ignore (AcceptRegionInvitation a r i tok v)
  | DManage ow r i ro s e v => ignore (UpdateMembershipState ow r i ro s e v)
  | DRelease a i => ignore (ReleaseMembership a i)
  | DCancel ow r i => ignore (CancelInvitationForOwner ow r i)
  | DReplaceServices a i p => ignore (ReplaceInstanceServicePolicy a i p)
  | DReplaceServiceACL a i id m rules => ignore (ReplaceInstanceServiceACL a i id m rules)
  | DNodeChallenge c => CreateNodeCredentialChallenge c
  | DLinkChallenge c => CreateInstanceLinkChallenge c
  | DConsumeNode id p n a t => ignore (ConsumeNodeCredentialChallenge id p n a t)
  | DInsertKey h n => Insert h n
  | DInsertUserKey u h n p => ignore (InsertUserKey u h n p)
  | DRevoke h => ignore (Revoke h)
  | DRevokeByID u id => ignore (RevokeByIDForUser u id)
  | DInsertDeploy u h p n m e => ignore (InsertDeployKey u h p n m e)
  | DRevokeDeploy u id => ignore (RevokeDeployKeyByIDForUser u id)
  | DSpend h t => ignore (ConsumeDeployKeyUse h t)
  | DClaim a w s x => ignore (ClaimFaucet a w s x)
  | DComplete a s => CompleteFaucetClaim a s
  | DClear a => ClearFaucetClaim a
  end.

Lemma ignore_moves {A} (m : dstore A) : dmoves m -> dmoves (ignore m).
Proof. intros Hm. apply moves_bind; [done|]. intros. apply moves_ret. Qed.

#[export] Hint Resolve RefreshIdentity_moves CreateWalletChallenge_moves ConsumeWalletChallenge_moves LinkWallet_moves
  DeleteWallet_moves CreateInstance_moves UpdateInstanceMetadata_moves ReplaceInstanceACL_moves ReclaimInstance_moves
  DeleteInstance_moves CreateRegion_moves UpdateRegion_moves DeleteRegion_moves CreateRegionInvitation_moves
  AcceptRegionInvitation_moves UpdateMembershipState_moves ReleaseMembership_moves CancelInvitation_moves
  ReplaceServicePolicy_moves ReplaceServiceACL_moves CreateNodeChallenge_moves CreateLinkChallenge_moves
  ConsumeNodeChallenge_moves Insert_moves InsertUserKey_moves Revoke_moves RevokeByID_moves InsertDeployKey_moves
  RevokeDeployKey_moves ConsumeDeployKeyUse_moves ClaimFaucet_moves CompleteFaucetClaim_moves ClearFaucetClaim_moves : effects.

Lemma dexec_moves o : dmoves (dexec o).
Proof. destruct o; cbn [dexec]; first [solve [eauto with effects] | apply ignore_moves; solve [eauto with effects]]. Qed.

(** One method in any environment. *)
Definition dstep (d d' : dir) : Prop := exists o e, d' = snd (run (dexec o) e d).
Definition DReachable (d : dir) : Prop := rtc dstep empty_dir d.

Lemma dstep_effects d d' : dstep d d' -> effects d d'.
Proof. intros (o & e & ->). apply (moves_run effects). apply dexec_moves. Qed.
Lemma dsteps_effects d d' : rtc dstep d d' -> effects d d'.
Proof. induction 1; [done|]. etrans; [by apply dstep_effects|done]. Qed.

(** What every statement keeps, every history keeps. *)
Lemma dsteps_rel (Rel : relation dir) `{!PreOrder Rel} :
  (forall d d', effect d d' -> Rel d d') -> forall d d', rtc dstep d d' -> Rel d d'.
Proof.
  intros He d d' Hs. apply dsteps_effects in Hs. induction Hs; [reflexivity|]. etrans; [by apply He|done].
Qed.

Lemma effect_sound d d' : effect d d' -> keeps_sound d d'.
Proof.
  destruct 1; subst; try reflexivity;
    eauto using insert_wallet_sound, delete_wallet_sound, promote_wallet_sound, insert_wallet_challenge_sound,
      use_wallet_challenge_sound, delete_instance_sound, insert_acl_rule_sound, delete_rules_sound,
      delete_region_sound, delete_membership_sound, insert_event_sound, insert_invitation_sound,
      cancel_invitations_sound, insert_service_sound, delete_services_sound, insert_service_rule_sound,
      delete_service_rules_sound, clear_service_rules_sound, insert_node_challenge_sound, prune_challenges_sound,
      consume_challenge_sound, update_instance_sound.
  - intros Hd. by open_sound Hd.
  - eapply insert_instance_sound; [|done]. lia.
  - eapply insert_region_sound; [|done]. lia.
  - eapply update_region_sound; [|done]. intros r. simpl. split; [done|]. destruct (String.eqb _ _); lia.
  - eapply upsert_membership_sound; [| |done]; simpl; intros; lia.
  - eapply update_membership_sound; [|by eapply prepared_ok]. simpl. intros; lia.
  - eapply update_invitation_sound; [|done]. by apply status_closes.
  - eapply update_service_sound; [|done]. done.
  - unfold sql_insert_key in *. destruct (key_by_hash _ _); simplify_eq. intros Hd. by open_sound Hd.
  - unfold sql_revoke_key in *. destruct (find_row _ _) as [[? ?]|]; simplify_eq; intros Hd; [by open_sound Hd|done].
  - unfold sql_insert_deploy_key, write_deploy_key in *. repeat case_bool_decide; simplify_eq/=.
    destruct (_ <? _); simplify_eq/=. destruct (deploy_key_by_hash _ _); simplify_eq. intros Hd. by open_sound Hd.
  - unfold sql_revoke_deploy_key in *. destruct (_ !! _); simplify_eq; [|done].
    destruct (_ && _); simplify_eq; intros Hd; [by open_sound Hd|done].
  - unfold sql_spend_deploy_key, write_deploy_key in *. destruct (deploy_key_by_hash _ _) as [[? ?]|]; simplify_eq; [|done].
    destruct (spendable _ _); simplify_eq; [|done]. repeat case_bool_decide; simplify_eq/=.
    destruct (_ <? _); simplify_eq/=. intros Hd. by open_sound Hd.
  - unfold sql_claim_faucet in *. destruct (_ !! _); [destruct (stale_claim _ _)|]; simplify_eq; intros Hd; first [by open_sound Hd|done].
  - unfold sql_complete_claim in *. destruct (_ !! _); [destruct (String.eqb _ _)|]; simplify_eq; intros Hd; first [by open_sound Hd|done].
  - unfold sql_clear_claim in *. destruct (_ !! _); [destruct (String.eqb _ _)|]; simplify_eq; intros Hd; first [by open_sound Hd|done].
Qed.

Lemma DReachable_sound d : DReachable d -> sound d.
Proof. intros Hr. exact (dsteps_rel keeps_sound effect_sound _ _ Hr sound_empty). Qed.

Lemma DReachable_steps d d' : DReachable d -> rtc dstep d d' -> DReachable d'.
Proof. unfold DReachable. intros. by etrans. Qed.

(** A concrete history without failures. *)
Definition dplay (l : list (dop * time)) (d : dir) : dir :=
  fold_left (fun d ot => snd (run (dexec (fst ot)) (fine_env (snd ot)) d)) l d.
Lemma dplay_steps l d : rtc dstep d (dplay l d).
Proof.
  revert d. induction l as [|[o t] l IH]; intros d; [reflexivity|]. simpl. eapply rtc_l; [|apply IH].
  by exists o, (fine_env t).
Qed.

(** Opens a statement's effect into the states it can leave. *)
Ltac open_effect := unfold sql_insert_wallet, sql_delete_wallet, sql_promote_wallet, sql_insert_wallet_challenge,
  sql_use_wallet_challenge, sql_insert_instance, sql_update_instance, sql_delete_instance, sql_insert_rule,
  sql_delete_rules, sql_insert_region, sql_update_region, sql_delete_region, sql_upsert_membership,
  sql_manage_membership, prepared, sql_update_membership, sql_delete_membership, sql_insert_event,
  sql_insert_invitation, sql_update_invitation, sql_cancel_invitations, sql_insert_service, sql_update_service,
  sql_delete_services, sql_insert_service_rule, sql_delete_service_rules, sql_clear_service_rules,
  sql_insert_node_challenge, sql_prune_challenges, sql_consume_challenge, sql_insert_key, sql_revoke_key,
  sql_insert_deploy_key, sql_revoke_deploy_key, sql_spend_deploy_key, sql_claim_faucet, sql_complete_claim,
  sql_clear_claim, write_instance, write_region, write_membership, write_deploy_key, insert_rule, res_bind in *;
  repeat first [progress simplify_eq/= | case_match].

Lemma effect_wallets d d' : effect d d' ->
  user_wallets d' = user_wallets d \/ (exists a w t o, sql_insert_wallet a w t d = Ok (o, d')) \/
  (exists id a n, sql_delete_wallet id a d = Ok (n, d')) \/ (exists a u, sql_promote_wallet a d = Ok (u, d')).
Proof.
  destruct 1; subst; [by left|by left|by right; left; eauto|by right; right; left; eauto|by right; right; right; eauto|..];
    left; open_effect; reflexivity.
Qed.
