(* ===== verification/DirSpec.v ===== *)
(** * What the directory guarantees

    Well-formedness of every reachable state, the wallet links as the map the billing
    store reads, credentials that are spent once, and what changes of trust the
    methods do and do not make. *)
From Stdlib Require Import ZArith Lia Strings.Ascii Strings.String Relations.
From stdpp Require Import base gmap strings list fin_maps sorting.
From S2P Require Import Prelude Sha256 Base58 GoText AclTypes Json Billing Tx Schema BillingStore DirSchema Directory Regions DirInv Keys DirReach.

Open Scope Z_scope.
Open Scope tx_scope.

(** C29: the directory is well-formed in every state it can reach, whatever was lost: a
    wallet is linked to one account and an account to one wallet; every instance is
    owned through the wallet its account has linked, and a peer is one instance; every
    membership is of an existing instance in an existing region, with a known role and
    status; every service exposed to a trusted region is bound to the region its
    instance is a member of; and a region has one pending invitation per instance. *)
Theorem directory_sound d :
  DReachable d ->
  (forall i j r s, user_wallets d !! i = Some r -> user_wallets d !! j = Some s ->
     wl_wallet r = wl_wallet s \/ wl_account_id r = wl_account_id s -> i = j) /\
  (forall i r, instances d !! i = Some r ->
     linked (user_wallets d) (ir_account_id r) (ir_owner_wallet r) /\ instance_check r = true /\
     forall j s, instances d !! j = Some s -> ir_peer_id r = ir_peer_id s -> i = j) /\
  (forall i m, memberships d !! i = Some m ->
     is_Some (instances d !! i) /\ is_Some (regions d !! mr_region_id m) /\
     mr_node_role m ∈ node_roles /\ mr_status m ∈ membership_statuses) /\
  (forall i s, services d !! i = Some s -> sv_exposure s = ExposureTrustedRegion ->
     exists m, memberships d !! sv_instance_id s = Some m /\ sv_region_id s = Some (mr_region_id m)) /\
  (forall i j v u, invitations d !! i = Some v -> invitations d !! j = Some u ->
     iv_status v = "pending"%string -> iv_status u = "pending"%string ->
     iv_region_id v = iv_region_id u -> iv_instance_id v = iv_instance_id u -> i = j).
Proof.
  intros Hr. destruct (DReachable_sound d Hr) as [(_ & Hw & Ha & _) (_ & Hp & Hi) _ _ Hm (_ & _ & Hs) _ (_ & Hv & _) _].
  split; [|split; [|split; [|split]]].
  - intros i j r s E1 E2 [E|E]; [by eapply (Hw i j); eauto; f_equal|by eapply (Ha i j); eauto; f_equal].
  - intros i r E. destruct (Hi i r E) as (? & ? & _). split; [done|]. split; [done|].
    intros j s E2 Ep. eapply (Hp i j); eauto. by f_equal.
  - intros i m E. destruct (Hm i m E) as (? & ? & ? & ? & _). done.
  - intros i s E Ex. destruct (Hs i s E) as (Hc & _ & Hb). unfold service_check in Hc.
    rewrite Ex in Hc. apply andb_prop in Hc as [_ Hc]. apply eqb_prop in Hc. symmetry in Hc.
    apply bool_decide_eq_true_1 in Hc as [q Eq]. destruct (Hb q Eq) as [_ Hq].
    destruct (memberships d !! sv_instance_id s) as [m|]; [|done]. exists m. split; [done|]. simpl in Hq. congruence.
  - intros i j v u E1 E2 P1 P2 Er Ei. eapply (Hv i j); [exact E1|exact E2| |].
    + unfold pending_key. by rewrite P1.
    + unfold pending_key. rewrite P2, <- Er, <- Ei. done.
Qed.

(** ** The links as the map the billing store reads *)
Definition link_pair (kr : Z * WalletRow) : string * string := (wl_account_id (snd kr), wl_wallet (snd kr)).
Definition links (d : dir) : gmap string string := list_to_map (map link_pair (map_to_list (user_wallets d))).

Lemma links_spec d a w : sound d -> links d !! a = Some w <-> linked (user_wallets d) a w.
Proof.
  intros Hd. destruct (so_wallets d Hd) as (_ & _ & Ha & _). unfold links.
  rewrite <- elem_of_list_to_map.
  - rewrite list_elem_of_fmap. split.
    + intros ((k & r) & [= -> ->] & Hin). apply elem_of_map_to_list in Hin. by exists k, r.
    + intros (k & r & Hk & <- & <-). exists (k, r). split; [done|]. by apply elem_of_map_to_list.
  - rewrite <- list_fmap_compose. apply NoDup_fmap_2_strong; [|apply NoDup_map_to_list].
    intros [i r] [j s] Hi%elem_of_map_to_list Hj%elem_of_map_to_list E. simpl in E.
    assert (i = j) as -> by (eapply (Ha i j); eauto; by f_equal). congruence.
Qed.

Lemma links_inj d a b w : sound d -> links d !! a = Some w -> links d !! b = Some w -> a = b.
Proof.
  intros Hd Ha Hb. apply links_spec in Ha as (i & r & Hi & <- & Er), Hb as (j & s & Hj & <- & Es); [|done..].
  destruct (so_wallets d Hd) as (_ & Hw & _). assert (i = j) as -> by (eapply (Hw i j); eauto; f_equal; congruence).
  by simplify_eq.
Qed.

(** A query that selects the one row there can be. *)
Lemma find_row_unique {R A} (P : R -> bool) (f : R -> A) (m : gmap Z R) (o : option A) :
  (forall k r, m !! k = Some r -> P r = true -> o = Some (f r)) ->
  (forall x, o = Some x -> exists k r, m !! k = Some r /\ P r = true) ->
  (fun kr => f (snd kr)) <$> find_row (fun _ r => P r) m = o.
Proof.
  intros H1 H2. destruct (find_row _ m) as [[k r]|] eqn:F; simpl.
  - apply find_row_Some in F as [Hk HP]. symmetry. by eapply H1.
  - destruct o as [x|]; [|done]. destruct (H2 x eq_refl) as (k & r & Hk & HP).
    pose proof (find_row_None _ _ _ _ F Hk) as Hx. simpl in Hx. congruence.
Qed.

Lemma owner_of_links d (b : db) w a :
  sound d -> wallets b = links d -> owner_of w b = Some a <-> links d !! a = Some w.
Proof.
  intros Hd Hb. unfold owner_of. rewrite Hb.
  destruct (filter (fun p => snd p = w) (map_to_list (links d))) as [|[x y] l] eqn:F; simpl.
  - split; [done|]. intros Ha. exfalso.
    assert (Hin : (a, w) ∈ filter (fun p => snd p = w) (map_to_list (links d))).
    { apply list_elem_of_filter. split; [done|]. by apply elem_of_map_to_list. }
    rewrite F in Hin. by apply elem_of_nil in Hin.
  - assert (Hin : (x, y) ∈ filter (fun p => snd p = w) (map_to_list (links d))) by (rewrite F; by left).
    apply list_elem_of_filter in Hin as [E Hin]. simpl in E. subst y. apply elem_of_map_to_list in Hin.
    split; [by intros [= <-]|]. intros Ha. f_equal. by eapply links_inj.
Qed.

Inductive link_step (m m' : gmap string string) : Prop :=
  | link_new a w : m !! a = None -> (forall b, m !! b <> Some w) -> m' = <[a := w]> m -> link_step m m'
  | link_gone a w : m !! a = Some w -> m' = delete a m -> link_step m m'.

Lemma links_ext d d' : sound d -> sound d' -> (forall a w, linked (user_wallets d) a w <-> linked (user_wallets d') a w) ->
  links d' = links d.
Proof.
  intros H1 H2 He. apply map_eq. intros a. apply option_eq. intros w. rewrite !links_spec by done. by rewrite He.
Qed.

Lemma insert_wallet_links a w t d o d' :
  sound d -> sql_insert_wallet a w t d = Ok (o, d') -> rtc link_step (links d) (links d').
Proof.
  intros Hd Hs. pose proof (insert_wallet_sound _ _ _ _ _ _ Hs Hd) as Hd'. revert Hs. unfold sql_insert_wallet.
  destruct (find_row (fun _ r => String.eqb (wl_wallet r) w) (user_wallets d)) eqn:F1; intros Hs; simplify_eq.
  { rewrite (links_ext d (advance "user_wallets" d)); done. }
  destruct (find_row (fun _ r => String.eqb (wl_account_id r) a) (user_wallets d)) eqn:F2; simplify_eq.
  assert (Ha : links d !! a = None).
  { destruct (links d !! a) as [v|] eqn:E; [|done]. apply links_spec in E as (k & r & Hk & <- & _); [|done].
    pose proof (find_row_None _ _ _ _ F2 Hk) as Hx. simpl in Hx. by rewrite String.eqb_refl in Hx. }
  apply rtc_once, (link_new _ _ a w); [done| |].
  - intros b E. apply links_spec in E as (k & r & Hk & _ & <-); [|done].
    pose proof (find_row_None _ _ _ _ F1 Hk) as Hx. simpl in Hx. by rewrite String.eqb_refl in Hx.
  - pose proof (below_fresh _ _ (proj1 (so_wallets d Hd))) as Hf.
    apply map_eq. intros b. apply option_eq. intros v. rewrite links_spec by done. simpl.
    rewrite lookup_insert_Some. rewrite links_spec by done. split.
    + intros (k & r & Hk & <- & <-). apply lookup_insert_Some in Hk as [[_ <-]|[_ Hk]]; [by left|].
      right. split; [|by exists k, r]. intros ->.
      pose proof (find_row_None _ _ _ _ F2 Hk) as Hx. simpl in Hx. by rewrite String.eqb_refl in Hx.
    + intros [[<- <-]|[_ (k & r & Hk & ? & ?)]].
      * eexists _, _. by rewrite lookup_insert_eq.
      * exists k, r. rewrite lookup_insert_ne by congruence. done.
Qed.

Lemma delete_wallet_links id a d n d' :
  sound d -> sql_delete_wallet id a d = Ok (n, d') -> rtc link_step (links d) (links d').
Proof.
  intros Hd Hs. pose proof (delete_wallet_sound _ _ _ _ _ Hs Hd) as Hd'. revert Hs. unfold sql_delete_wallet.
  destruct (user_wallets d !! id) as [r|] eqn:Hr; [|by intros [= _ <-]].
  destruct (String.eqb_spec (wl_account_id r) a) as [<-|]; simpl; [|by intros [= _ <-]].
  destruct (wallet_in_use _ _ _); [done|]. intros [= _ <-].
  apply rtc_once, (link_gone _ _ (wl_account_id r) (wl_wallet r)).
  - apply links_spec; [done|]. by exists id, r.
  - destruct (so_wallets d Hd) as (_ & _ & Ha & _).
    apply map_eq. intros b. apply option_eq. intros v. rewrite links_spec by done. simpl.
    rewrite lookup_delete_Some. rewrite links_spec by done. split.
    + intros (k & s & [Hne Hk]%lookup_delete_Some & <- & <-). split; [|by exists k, s].
      intros E. apply Hne. eapply (Ha id k); eauto. by f_equal.
    + intros (Hne & k & s & Hk & <- & <-). exists k, s. rewrite lookup_delete_ne; [done|]. congruence.
Qed.

Lemma promote_wallet_links a d u d' :
  sound d -> sql_promote_wallet a d = Ok (u, d') -> links d' = links d.
Proof.
  intros Hd Hs. pose proof (promote_wallet_sound _ _ _ _ Hs Hd) as Hd'. revert Hs. unfold sql_promote_wallet.
  destruct (merge_sort _ _) as [|[id r] l] eqn:E; [by intros [= _ <-]|]. intros [= _ <-].
  assert (Hr : user_wallets d !! id = Some r).
  { assert (Hin : (id, r) ∈ rows_where (fun _ r => String.eqb (wl_account_id r) a) (user_wallets d)).
    { rewrite <- (merge_sort_Permutation (older wl_created_at)), E. by left. }
    apply list_elem_of_In, filter_In in Hin as [Hin _]. apply elem_of_map_to_list. by apply list_elem_of_In. }
  apply links_ext; [done..|]. intros a' w'. simpl. split; intros (k & s & Hk & <- & <-).
  - destruct (decide (k = id)) as [->|Hne].
    + simplify_eq. eexists id, _. by rewrite lookup_insert_eq.
    + exists k, s. by rewrite lookup_insert_ne.
  - apply lookup_insert_Some in Hk as [[<- <-]|[_ Hk]]; [by exists id, r|by exists k, s].
Qed.

Lemma effect_links d d' : effect d d' -> sound d -> rtc link_step (links d) (links d').
Proof.
  intros He Hd. destruct (effect_wallets d d' He) as [E|[(a & w & t & o & E)|[(id & a & n & E)|(a & u & E)]]].
  - rewrite (links_ext d d'); [done|done|by apply (effect_sound d)|by rewrite E].
  - by eapply insert_wallet_links.
  - by eapply delete_wallet_links.
  - by rewrite (promote_wallet_links _ _ _ _ Hd E).
Qed.

Definition keeps_links (d d' : dir) : Prop := sound d -> sound d' /\ rtc link_step (links d) (links d').
#[export] Instance keeps_links_preorder : PreOrder keeps_links.
Proof.
  unfold keeps_links. split; [done|]. intros d1 d2 d3 H1 H2 H. destruct (H1 H) as [? ?], (H2 ltac:(done)).
  split; [done|by etrans].
Qed.

(** C32: the wallet table implements the map of links that the billing store reads: on
    every reachable directory the two lookups of acl.go (a wallet's owner, an account's
    wallet) answer what the billing side's lookups answer on that map, and along every
    history the map changes only by linking an account that has no wallet to a wallet
    that has no account, and by unlinking. *)
Theorem wallet_links_refine d (b : db) :
  DReachable d -> wallets b = links d ->
  (forall w, sql_wallet_owner w d = Ok (owner_of w b, d)) /\
  (forall a, sql_account_wallet a d = Ok (wallets b !! a, d)) /\
  forall d', rtc dstep d d' -> rtc link_step (links d) (links d').
Proof.
  intros Hr Hb. pose proof (DReachable_sound d Hr) as Hd. split; [|split].
  - intros w. unfold sql_wallet_owner, select. do 2 f_equal. apply find_row_unique.
    + intros k r Hk E%String.eqb_eq. apply (owner_of_links d); [done..|]. apply links_spec; [done|]. by exists k, r.
    + intros a Ha. apply (owner_of_links d) in Ha; [|done..]. apply links_spec in Ha as (k & r & Hk & _ & <-); [|done].
      exists k, r. by rewrite String.eqb_refl.
  - intros a. unfold sql_account_wallet, select. do 2 f_equal. rewrite Hb. apply find_row_unique.
    + intros k r Hk E%String.eqb_eq. apply links_spec; [done|]. by exists k, r.
    + intros w Hw. apply links_spec in Hw as (k & r & Hk & <- & _); [|done]. exists k, r. by rewrite String.eqb_refl.
  - intros d' Hs. apply (dsteps_rel keeps_links) in Hs; [by apply Hs|].
    intros x y He Hx. split; [by apply (effect_sound x)|by apply effect_links].
Qed.

(** ** Credentials are spent once *)
Record spent (d d' : dir) : Prop := {
  sp_challenge : forall id r, wallet_challenges d !! id = Some r -> is_Some (wc_used_at r) ->
    exists r', wallet_challenges d' !! id = Some r' /\ is_Some (wc_used_at r');
  sp_key : forall id r, api_keys d !! id = Some r ->
    exists r', api_keys d' !! id = Some r' /\ ak_key_hash r' = ak_key_hash r /\ (ak_active r = false -> ak_active r' = false);
  sp_deploy : forall id r, deploy_keys d !! id = Some r ->
    exists r', deploy_keys d' !! id = Some r' /\ dk_key_hash r' = dk_key_hash r /\ dk_user_id r' = dk_user_id r /\
      dk_max_uses r' = dk_max_uses r /\ dk_expires_at r' = dk_expires_at r /\ dk_use_count r <= dk_use_count r' /\
      (is_Some (dk_revoked_at r) -> r' = r) /\
      (0 < dk_max_uses r -> dk_use_count r <= dk_max_uses r -> dk_use_count r' <= dk_max_uses r');
  sp_claim : forall a r, faucet_claims d !! a = Some r -> fc_tx_signature r <> ""%string -> faucet_claims d' !! a = Some r }.

#[export] Instance spent_preorder : PreOrder spent.
Proof.
  split.
  - intros d. split; [eauto|eauto| |eauto]. intros id r Hr. exists r. do 5 (split; [done|]). split; [lia|done].
  - intros d1 d2 d3 [A1 A2 A3 A4] [B1 B2 B3 B4]. split.
    + intros id r Hr Hu. destruct (A1 id r Hr Hu) as (r' & Hr' & Hu'). eauto.
    + intros id r Hr. destruct (A2 id r Hr) as (r' & Hr' & E1 & I1), (B2 id r' Hr') as (r2 & Hr2 & E2 & I2).
      exists r2. split; [done|]. split; [congruence|auto].
    + intros id r Hr. destruct (A3 id r Hr) as (r' & Hr' & ? & ? & ? & ? & ? & R1 & U1).
      destruct (B3 id r' Hr') as (r2 & Hr2 & ? & ? & ? & ? & ? & R2 & U2).
      exists r2. split; [done|]. do 4 (split; [congruence|]). split; [lia|]. split.
      * intros Hv. rewrite (R1 Hv) in R2. auto.
      * intros. apply U2; [lia|]. auto.
    + intros a r Hr Hs. eauto.
Qed.

Definition keys_ok (d : dir) : Prop :=
  (below (nextval "api_keys" d) (api_keys d) /\ unique_by (fun r => Some (ak_key_hash r)) (api_keys d)) /\
  below (nextval "deploy_keys" d) (deploy_keys d) /\ unique_by (fun r => Some (dk_key_hash r)) (deploy_keys d) /\
  map_Forall (fun _ r => 0 <= dk_use_count r /\ (0 < dk_max_uses r -> dk_use_count r <= dk_max_uses r)) (deploy_keys d).

Lemma keys_ok_empty : keys_ok empty_dir.
Proof.
  unfold keys_ok. split; [split; [apply below_empty|apply unique_empty]|].
  split; [apply below_empty|]. split; [apply unique_empty|apply map_Forall_empty].
Qed.

Definition keeps_spent (d d' : dir) : Prop := keys_ok d -> keys_ok d' /\ spent d d'.
#[export] Instance keeps_spent_preorder : PreOrder keeps_spent.
Proof.
  unfold keeps_spent. split; [done|]. intros d1 d2 d3 H1 H2 H. destruct (H1 H) as [? ?], (H2 ltac:(done)) as [? ?].
  split; [done|by etrans].
Qed.

Lemma spent_refl_deploy (m m' : gmap Z DeployKeyRow) : m' = m -> forall id r, m !! id = Some r ->
  exists r', m' !! id = Some r' /\ dk_key_hash r' = dk_key_hash r /\ dk_user_id r' = dk_user_id r /\
    dk_max_uses r' = dk_max_uses r /\ dk_expires_at r' = dk_expires_at r /\ dk_use_count r <= dk_use_count r' /\
    (is_Some (dk_revoked_at r) -> r' = r) /\
    (0 < dk_max_uses r -> dk_use_count r <= dk_max_uses r -> dk_use_count r' <= dk_max_uses r').
Proof. intros -> id r Hr. exists r. do 5 (split; [done|]). split; [lia|done]. Qed.

Lemma keeps_spent_same d d' :
  wallet_challenges d' = wallet_challenges d -> api_keys d' = api_keys d -> deploy_keys d' = deploy_keys d ->
  faucet_claims d' = faucet_claims d -> nextval "api_keys" d' = nextval "api_keys" d ->
  nextval "deploy_keys" d' = nextval "deploy_keys" d -> keeps_spent d d'.
Proof.
  intros E1 E2 E3 E4 E5 E6 Hk. unfold keys_ok. rewrite E2, E3, E5, E6. split; [done|].
  split; [rewrite E1; eauto|rewrite E2; eauto|by apply spent_refl_deploy|rewrite E4; eauto].
Qed.

Lemma keeps_spent_challenges v d :
  (forall id r, wallet_challenges d !! id = Some r -> is_Some (wc_used_at r) ->
    exists r', v !! id = Some r' /\ is_Some (wc_used_at r')) -> keeps_spent d (set_wallet_challenges v d).
Proof.
  intros Hv Hk. split; [done|]. split; simpl; [done|eauto|by apply spent_refl_deploy|eauto].
Qed.

Lemma keeps_spent_keys v s d :
  (keys_ok d -> below (nextval "api_keys" s) v /\ unique_by (fun r => Some (ak_key_hash r)) v) ->
  (keys_ok d -> forall id r, api_keys d !! id = Some r ->
    exists r', v !! id = Some r' /\ ak_key_hash r' = ak_key_hash r /\ (ak_active r = false -> ak_active r' = false)) ->
  wallet_challenges s = wallet_challenges d -> deploy_keys s = deploy_keys d -> faucet_claims s = faucet_claims d ->
  nextval "deploy_keys" s = nextval "deploy_keys" d -> keeps_spent d (set_api_keys v s).
Proof.
  intros Hv Hr E1 E2 E3 E4 Hk. split.
  - unfold keys_ok. simpl. rewrite E2. change (nextval ?t (set_api_keys v s)) with (nextval t s). rewrite E4.
    split; [by apply Hv|by destruct Hk].
  - split; simpl; [rewrite E1; eauto|by apply Hr|by apply spent_refl_deploy|rewrite E3; eauto].
Qed.

Lemma keeps_spent_deploy v s d :
  (keys_ok d -> below (nextval "deploy_keys" s) v /\ unique_by (fun r => Some (dk_key_hash r)) v /\
    map_Forall (fun _ r => 0 <= dk_use_count r /\ (0 < dk_max_uses r -> dk_use_count r <= dk_max_uses r)) v) ->
  (keys_ok d -> forall id r, deploy_keys d !! id = Some r ->
    exists r', v !! id = Some r' /\ dk_key_hash r' = dk_key_hash r /\ dk_user_id r' = dk_user_id r /\
    dk_max_uses r' = dk_max_uses r /\ dk_expires_at r' = dk_expires_at r /\ dk_use_count r <= dk_use_count r' /\
    (is_Some (dk_revoked_at r) -> r' = r) /\
    (0 < dk_max_uses r -> dk_use_count r <= dk_max_uses r -> dk_use_count r' <= dk_max_uses r')) ->
  wallet_challenges s = wallet_challenges d -> api_keys s = api_keys d -> faucet_claims s = faucet_claims d ->
  nextval "api_keys" s = nextval "api_keys" d -> keeps_spent d (set_deploy_keys v s).
Proof.
  intros Hv Hr E1 E2 E3 E4 Hk. split.
  - unfold keys_ok. simpl. rewrite E2. change (nextval ?t (set_deploy_keys v s)) with (nextval t s). rewrite E4.
    split; [by destruct Hk|by apply Hv].
  - split; simpl; [rewrite E1; eauto|rewrite E2; eauto|by apply Hr|rewrite E3; eauto].
Qed.

Lemma keeps_spent_claims v d :
  (forall a r, faucet_claims d !! a = Some r -> fc_tx_signature r <> ""%string -> v !! a = Some r) ->
  keeps_spent d (set_faucet_claims v d).
Proof. intros Hv Hk. split; [done|]. split; simpl; [eauto|eauto|by apply spent_refl_deploy|done]. Qed.

Lemma insert_key_spent r d o d' : sql_insert_key r d = Ok (o, d') -> keeps_spent d d'.
Proof.
  unfold sql_insert_key, key_by_hash. destruct (find_row _ (api_keys d)) eqn:F; [done|]. intros [= _ <-].
  apply keeps_spent_keys; try done.
  - intros [(Hb & Hu) _]. rewrite nextval_same. split; [apply below_insert; [done|lia]|].
    apply unique_insert; [done|]. intros j s v Hj [= <-] [= E].
    pose proof (find_row_None _ _ _ _ F Hj) as Hx. simpl in Hx. by rewrite E, String.eqb_refl in Hx.
  - intros [(Hb & _) _] id q Hq. exists q. split; [|done]. rewrite lookup_insert_ne; [done|].
    intros <-. by rewrite (below_fresh _ _ Hb) in Hq.
  - by rewrite nextval_other.
Qed.

Lemma revoke_key_spent p t d o d' : sql_revoke_key p t d = Ok (o, d') -> keeps_spent d d'.
Proof.
  unfold sql_revoke_key. destruct (find_row _ (api_keys d)) as [[id r]|] eqn:F; intros [= _ <-]; [|reflexivity].
  apply find_row_Some in F as [Hr _]. apply keeps_spent_keys; try done.
  - intros [(Hb & Hu) _]. split; [by eapply below_update|by eapply unique_update].
  - intros _ k q Hq. destruct (decide (k = id)) as [->|Hne].
    + simplify_eq. eexists. by rewrite lookup_insert_eq.
    + exists q. by rewrite lookup_insert_ne.
Qed.

Lemma deploy_key_by_hash_Some h d id r : deploy_key_by_hash h d = Some (id, r) -> deploy_keys d !! id = Some r /\ dk_key_hash r = h.
Proof. intros [Hr E]%find_row_Some. simpl in E. by apply String.eqb_eq in E. Qed.

Lemma insert_deploy_spent u h p n m e t d o d' : sql_insert_deploy_key u h p n m e t d = Ok (o, d') -> keeps_spent d d'.
Proof.
  unfold sql_insert_deploy_key, write_deploy_key, deploy_key_by_hash. intros Hs.
  destruct (negb (bool_decide (in_i32 m))); [done|].
  destruct (negb _); [done|]. simpl in Hs. destruct (Z.ltb_spec m 0); [done|]. simpl in Hs.
  destruct (find_row _ (deploy_keys d)) eqn:F; [done|]. injection Hs as _ <-.
  apply keeps_spent_deploy; try done.
  - intros (_ & Hb & Hu & Hf). rewrite nextval_same. split; [apply below_insert; [done|lia]|]. split.
    + apply unique_insert; [done|]. intros j s v Hj [= <-] [= E].
      pose proof (find_row_None _ _ _ _ F Hj) as Hx. simpl in Hx. by rewrite E, String.eqb_refl in Hx.
    + apply map_Forall_insert_2; [simpl; lia|done].
  - intros (_ & Hb & _) id q Hq. exists q. rewrite lookup_insert_ne.
    + do 5 (split; [done|]). split; [lia|done].
    + intros <-. by rewrite (below_fresh _ _ Hb) in Hq.
  - by rewrite nextval_other.
Qed.

(** A deploy key row that changes, and is not revoked. *)
Lemma update_deploy_spent d id r r' :
  deploy_keys d !! id = Some r -> dk_revoked_at r = None ->
  dk_key_hash r' = dk_key_hash r -> dk_user_id r' = dk_user_id r -> dk_max_uses r' = dk_max_uses r ->
  dk_expires_at r' = dk_expires_at r -> dk_use_count r <= dk_use_count r' ->
  (0 < dk_max_uses r -> dk_use_count r <= dk_max_uses r -> dk_use_count r' <= dk_max_uses r') ->
  keeps_spent d (set_deploy_keys (<[id := r']> (deploy_keys d)) d).
Proof.
  intros Hr Hv E1 E2 E3 E4 Hc Hm. apply keeps_spent_deploy; try done.
  - intros (_ & Hb & Hu & Hf). split; [by eapply below_update|]. split; [eapply unique_update; [done..|by f_equal]|].
    destruct (Hf _ _ Hr) as [? Hle]. apply map_Forall_insert_2; [|done]. split; [lia|]. rewrite E3 at 1. intros Hp.
    auto.
  - intros _ k q Hq. destruct (decide (k = id)) as [->|Hne].
    + simplify_eq. exists r'. rewrite lookup_insert_eq. do 6 (split; [done|]). split; [by intros [? ?]; congruence|done].
    + exists q. rewrite lookup_insert_ne by done. do 5 (split; [done|]). split; [lia|done].
Qed.

Lemma unrevoked_None r : unrevoked r = true -> dk_revoked_at r = None.
Proof. apply bool_decide_eq_true_1. Qed.

Lemma revoke_deploy_spent u id t d n d' : sql_revoke_deploy_key u id t d = Ok (n, d') -> keeps_spent d d'.
Proof.
  unfold sql_revoke_deploy_key. destruct (deploy_keys d !! id) as [r|] eqn:Hr; [|by intros [= _ <-]].
  destruct (String.eqb _ _); simpl; [|by intros [= _ <-]].
  destruct (unrevoked r) eqn:Hu; intros [= _ <-]; [|reflexivity].
  by apply update_deploy_spent with (r := r); [|apply unrevoked_None| | | | | |].
Qed.

Lemma spend_deploy_ok h t d o d' : sql_spend_deploy_key h t d = Ok (o, d') ->
  match o with
  | None => d' = d
  | Some u => exists id r, deploy_keys d !! id = Some r /\ dk_key_hash r = h /\ spendable t r = true /\
      dk_user_id r = u /\ d' = set_deploy_keys (<[id := spend t r]> (deploy_keys d)) d
  end.
Proof.
  unfold sql_spend_deploy_key. destruct (deploy_key_by_hash h d) as [[id r]|] eqn:F; [|by intros [= <- <-]].
  destruct (spendable t r) eqn:Es; [|by intros [= <- <-]]. apply deploy_key_by_hash_Some in F as [Hr Hh].
  unfold write_deploy_key. destruct (negb _); [done|]. destruct (_ <? _); [done|]. simpl. intros [= <- <-].
  by exists id, r.
Qed.

Lemma spend_deploy_spent h t d o d' : sql_spend_deploy_key h t d = Ok (o, d') -> keeps_spent d d'.
Proof.
  intros Hs%spend_deploy_ok. destruct o as [u|]; [|by subst]. destruct Hs as (id & r & Hr & _ & Hsp & _ & ->).
  unfold spendable in Hsp. repeat (apply andb_prop in Hsp as [Hsp ?]). apply update_deploy_spent with (r := r); simpl; try done.
  - by apply unrevoked_None.
  - lia.
  - intros. match goal with H : _ || _ = true |- _ => apply orb_prop in H end. lia.
Qed.

Lemma effect_spent d d' : effect d d' -> keeps_spent d d'.
Proof.
  destruct 1; subst; try reflexivity;
    eauto using insert_key_spent, revoke_key_spent, insert_deploy_spent, revoke_deploy_spent, spend_deploy_spent;
    open_effect; try reflexivity; 
    try (apply keeps_spent_same; try reflexivity; unfold nextval; simpl; by rewrite lookup_insert_ne by discriminate).
  - apply keeps_spent_challenges. intros id r Hr Hu. exists r. split; [|done]. rewrite lookup_insert_ne; [done|]. congruence.
  - apply keeps_spent_challenges. intros i r Hr Hu. destruct (decide (i = id)) as [->|Hne].
    + eexists. by rewrite lookup_insert_eq.
    + exists r. by rewrite lookup_insert_ne.
  - apply keeps_spent_claims. intros b r Hr Hn. rewrite lookup_insert_ne; [done|]. intros ->.
    match goal with H : stale_claim _ _ = true |- _ => apply andb_prop in H as [E%String.eqb_eq _] end. congruence.
  - apply keeps_spent_claims. intros b r Hr Hn. rewrite lookup_insert_ne; [done|]. congruence.
  - apply keeps_spent_claims. intros b r Hr Hn. rewrite lookup_insert_ne; [done|]. intros ->.
    match goal with H : String.eqb _ _ = true |- _ => apply String.eqb_eq in H end. congruence.
  - apply keeps_spent_claims. intros b r Hr Hn. rewrite lookup_delete_ne; [done|]. intros ->.
    match goal with H : String.eqb _ _ = true |- _ => apply String.eqb_eq in H end. congruence.
Qed.

Lemma DReachable_keys d : DReachable d -> keys_ok d.
Proof.
  intros Hr. exact (proj1 (dsteps_rel keeps_spent effect_spent _ _ Hr keys_ok_empty)).
Qed.
Lemma dsteps_spent d d' : DReachable d -> rtc dstep d d' -> spent d d'.
Proof. intros Hr Hs. apply (dsteps_rel keeps_spent effect_spent _ _ Hs). by apply DReachable_keys. Qed.

(** Runs a method through every fault. *)
Ltac run_all := unfold run, with_tx, begin_tx, found, scan_row, attempt, wrap, bind, tx_stmt, pool_stmt, commit,
  now, ret, fail, lift in *; simpl in *; repeat first [progress simplify_eq/= | case_match].

Lemma consume_ok a id t e d d1 :
  run (ConsumeWalletChallenge a id t) e d = (Ok tt, d1) ->
  exists r, wallet_challenges d !! id = Some r /\ wc_used_at r = None /\
    d1 = set_wallet_challenges (<[id := use_wallet_challenge t r]> (wallet_challenges d)) d.
Proof.
  unfold ConsumeWalletChallenge, sql_use_wallet_challenge, select, wallet_challenge. intros H. run_all; eauto.
Qed.

Lemma revoke_ok h e d d1 :
  run (Revoke h) e d = (Ok true, d1) ->
  exists id r, api_keys d1 !! id = Some r /\ ak_key_hash r = h /\ ak_active r = false.
Proof.
  unfold Revoke, sql_revoke_key. intros H. run_all.
  match goal with F : find_row _ _ = Some (?k, ?r) |- _ =>
    apply find_row_Some in F as [Hr E]; apply andb_prop in E as [E%String.eqb_eq _];
    exists k, (revoke_key (e_now e) r) end.
  split; [apply lookup_insert_eq|done].
Qed.

Lemma complete_ok a sig e d d1 :
  run (CompleteFaucetClaim a sig) e d = (Ok tt, d1) ->
  exists r, faucet_claims d1 !! a = Some r /\ fc_tx_signature r = sig.
Proof.
  unfold CompleteFaucetClaim, sql_complete_claim. intros H. run_all. eexists. split; [apply lookup_insert_eq|done].
Qed.

Lemma revoke_deploy_ok u id e d h d1 :
  run (RevokeDeployKeyByIDForUser u id) e d = (Ok (h, true), d1) ->
  exists r, deploy_keys d1 !! id = Some r /\ dk_key_hash r = h /\ is_Some (dk_revoked_at r).
Proof.
  unfold RevokeDeployKeyByIDForUser, sql_revoke_deploy_key, select. intros H. run_all.
  match goal with F : _ <$> _ = Some _ |- _ =>
    rewrite lookup_insert_eq in F; injection F as <- end.
  eexists. split; [apply lookup_insert_eq|]. split; [done|]. by eexists.
Qed.

Lemma spend_ok h t e d u d1 :
  run (ConsumeDeployKeyUse h t) e d = (Ok u, d1) ->
  exists id r, deploy_keys d !! id = Some r /\ dk_key_hash r = h /\ spendable t r = true /\
    dk_user_id r = u /\ d1 = set_deploy_keys (<[id := spend t r]> (deploy_keys d)) d.
Proof.
  unfold ConsumeDeployKeyUse. intros H.
  destruct (sql_spend_deploy_key h t d) as [[o d']|x] eqn:E.
  - pose proof (spend_deploy_ok _ _ _ _ _ E) as Ho. run_all. destruct Ho as (id & r & Hr & Hh & Hs & Hu & ->).
    by exists id, r.
  - run_all.
Qed.

(** ** What a spent credential can no longer do *)
Lemma consume_spent a id t e d r : wallet_challenges d !! id = Some r -> is_Some (wc_used_at r) ->
  fst (run (ConsumeWalletChallenge a id t) e d) <> Ok tt.
Proof.
  intros Hr [u Hu] H. destruct (run (ConsumeWalletChallenge a id t) e d) as [x d1] eqn:E. simpl in H. subst.
  apply consume_ok in E as (q & Hq & Hn & _). congruence.
Qed.

Lemma validate_inactive h e d id r a : keys_ok d -> api_keys d !! id = Some r -> ak_key_hash r = h ->
  ak_active r = false -> fst (run (Validate h) e d) <> Ok (a, true).
Proof.
  intros [(_ & Hu) _] Hr Hh Ha H.
  destruct (run (Validate h) e d) as [x d1] eqn:E. simpl in H. subst.
  unfold Validate, select, key_by_hash in E. run_all.
  all: match goal with F : find_row _ _ = Some ?kr |- _ =>
    destruct kr as [k q]; apply find_row_Some in F as [Hq Eq%String.eqb_eq];
    assert (k = id) as -> by (eapply (Hu k id); eauto; by f_equal) end.
  all: simplify_eq/=; congruence.
Qed.

Lemma lookup_inactive h e d id r k : keys_ok d -> api_keys d !! id = Some r -> ak_key_hash r = h ->
  ak_active r = false -> fst (run (LookupActiveKey h) e d) <> Ok k.
Proof.
  intros [(_ & Hu) _] Hr Hh Ha H.
  destruct (run (LookupActiveKey h) e d) as [x d1] eqn:E. simpl in H. subst.
  unfold LookupActiveKey, select in E. run_all.
  match goal with F : find_row _ _ = Some ?kr |- _ =>
    destruct kr as [i q]; apply find_row_Some in F as [Hq Eq]; apply andb_prop in Eq as [Eq%String.eqb_eq Hact];
    assert (i = id) as -> by (eapply (Hu i id); eauto; by f_equal) end.
  simplify_eq/=; congruence.
Qed.

Lemma claim_paid a w sig x e d r : faucet_claims d !! a = Some r -> fc_tx_signature r <> ""%string ->
  fst (run (ClaimFaucet a w sig x) e d) <> Ok true.
Proof.
  intros Hr Hn H. destruct (run (ClaimFaucet a w sig x) e d) as [y d1] eqn:E. simpl in H. subst.
  unfold ClaimFaucet, sql_claim_faucet, stale_claim in E. run_all.
  match goal with F : _ && _ = true |- _ => apply andb_prop in F as [F%String.eqb_eq _] end. done.
Qed.

Lemma deploy_row_unique d h i j r q : keys_ok d -> deploy_keys d !! i = Some r -> dk_key_hash r = h ->
  deploy_keys d !! j = Some q -> dk_key_hash q = h -> i = j /\ r = q.
Proof.
  intros (_ & _ & Hu & _) Hr Hh Hq Hh'. assert (i = j) as -> by (eapply (Hu i j); eauto; f_equal; congruence).
  split; [done|congruence].
Qed.

Lemma spend_revoked h t e d id r u : keys_ok d -> deploy_keys d !! id = Some r -> dk_key_hash r = h ->
  is_Some (dk_revoked_at r) -> fst (run (ConsumeDeployKeyUse h t) e d) <> Ok u.
Proof.
  intros Hk Hr Hh [v Hv] H. destruct (run (ConsumeDeployKeyUse h t) e d) as [x d1] eqn:E. simpl in H. subst x.
  apply spend_ok in E as (i & q & Hq & Hh' & Hs & _).
  destruct (deploy_row_unique d h i id q r Hk Hq Hh' Hr Hh) as [-> ->].
  unfold spendable in Hs. repeat (apply andb_prop in Hs as [Hs ?]).
  match goal with F : unrevoked _ = true |- _ => apply unrevoked_None in F end. congruence.
Qed.

Lemma find_revoked h t e d id r k : keys_ok d -> deploy_keys d !! id = Some r -> dk_key_hash r = h ->
  is_Some (dk_revoked_at r) -> fst (run (FindActiveDeployKey h t) e d) <> Ok k.
Proof.
  intros Hk Hr Hh [v Hv] H. destruct (run (FindActiveDeployKey h t) e d) as [x d1] eqn:E. simpl in H. subst x.
  unfold FindActiveDeployKey, scanDeployKey, deploy_key_info, select in E. run_all.
  match goal with F : deploy_key_by_hash _ _ = Some ?kr |- _ =>
    destruct kr as [i q]; apply deploy_key_by_hash_Some in F as [Hq Hh'] end.
  destruct (deploy_row_unique d _ i id q r Hk Hq Hh' Hr eq_refl) as [-> ->]. simpl in *.
  case_bool_decide; simpl in *; [congruence|]. by destruct (negb (dk_active r)).
Qed.

(** From a state on, whatever happens, the method never succeeds with such a value. *)
Definition never {A} (m : dstore A) (P : A -> Prop) (d : dir) : Prop :=
  forall d' e a, rtc dstep d d' -> fst (run m e d') = Ok a -> ~ P a.

Lemma revoke_by_id_ok u k h e d d1 :
  run (RevokeByIDForUser u k) e d = (Ok (h, true), d1) ->
  exists id r, api_keys d1 !! id = Some r /\ ak_key_hash r = h /\ ak_active r = false.
Proof.
  unfold RevokeByIDForUser, sql_revoke_key. intros H. run_all.
  match goal with |- context [<[?k := _]> _] => eexists k, _ end. split; [apply lookup_insert_eq|done].
Qed.

Lemma key_stays_revoked d1 id r h : DReachable d1 ->
  api_keys d1 !! id = Some r -> ak_key_hash r = h -> ak_active r = false ->
  never (LookupActiveKey h) (fun _ => True) d1 /\ never (Validate h) (fun x => snd x = true) d1.
Proof.
  intros Hr Hk Hh Ha. split; intros d' e a Hs.
  all: destruct (sp_key _ _ (dsteps_spent _ _ Hr Hs) id r Hk) as (q & Hq & Hh' & Hn);
    pose proof (DReachable_keys _ (DReachable_steps _ _ Hr Hs)) as Hok.
  - intros E _. eapply (lookup_inactive h); eauto. congruence.
  - destruct a as [a b]. intros E. simpl. intros ->. eapply (validate_inactive h); eauto. congruence.
Qed.

Lemma run_reaches {A} (m : dstore A) o e d r d1 : DReachable d -> dexec o = ignore m ->
  run m e d = (r, d1) -> DReachable d1.
Proof.
  intros Hr Ho Hm. apply (DReachable_steps _ _ Hr). apply rtc_once. exists o, e. rewrite Ho.
  unfold ignore, run, bind in *. destruct (m e _) as [[x|x] c]; simpl in *; congruence.
Qed.

(** C30: a credential is spent once, whatever else runs before or after and whatever is
    lost.  After a wallet challenge is consumed no call consumes it again; after an API
    key is revoked (by the admin or by its account) it never validates or resolves
    again; after a faucet claim is completed with a signature its account never claims
    again; after a deploy key is revoked it is never found and never spent again. *)
Theorem credentials_spent_once d e d1 :
  DReachable d ->
  (forall a id t, run (ConsumeWalletChallenge a id t) e d = (Ok tt, d1) ->
     forall b u, never (ConsumeWalletChallenge b id u) (fun _ => True) d1) /\
  (forall h, run (Revoke h) e d = (Ok true, d1) \/ (exists u id, run (RevokeByIDForUser u id) e d = (Ok (h, true), d1)) ->
     never (LookupActiveKey h) (fun _ => True) d1 /\ never (Validate h) (fun x => snd x = true) d1) /\
  (forall a sig, run (CompleteFaucetClaim a sig) e d = (Ok tt, d1) -> sig <> ""%string ->
     forall w s x, never (ClaimFaucet a w s x) (fun paid => paid = true) d1) /\
  (forall u id h, run (RevokeDeployKeyByIDForUser u id) e d = (Ok (h, true), d1) ->
     forall t, never (ConsumeDeployKeyUse h t) (fun _ => True) d1 /\ never (FindActiveDeployKey h t) (fun _ => True) d1).
Proof.
  intros Hr. split; [|split; [|split]].
  - intros a id t H b u d' e' [] Hs E _. destruct (consume_ok _ _ _ _ _ _ H) as (r & Hk & _ & ->).
    edestruct (sp_challenge _ _ (dsteps_spent _ _ ltac:(eapply (DReachable_steps d); [done|apply rtc_once; by exists (DConsume a id t), e; simpl; rewrite H]) Hs) id)
      as (q & Hq & Hu); [apply lookup_insert_eq|by eexists|]. by eapply consume_spent.
  - intros h H. assert (DReachable d1) as Hr1.
    { destruct H as [H|(u & id & H)]; [eapply (run_reaches _ (DRevoke h))|eapply (run_reaches _ (DRevokeByID u id))]; done. }
    destruct H as [H%revoke_ok|(u & k & H%revoke_by_id_ok)]; destruct H as (id & r & Hk & Hh & Ha);
      by eapply key_stays_revoked.
  - intros a sig H Hn w s x d' e' p Hs E ->.
    assert (DReachable d1) as Hr1.
    { apply (DReachable_steps d); [done|]. apply rtc_once. exists (DComplete a sig), e. simpl. by rewrite H. }
    apply complete_ok in H as (r & Hk & <-). eapply claim_paid; [|done|done].
    by apply (sp_claim _ _ (dsteps_spent _ _ Hr1 Hs)).
  - intros u id h H t. assert (DReachable d1) as Hr1 by by eapply (run_reaches _ (DRevokeDeploy u id)).
    apply revoke_deploy_ok in H as (r & Hk & Hh & Hv).
    split; intros d' e' x Hs E _; destruct (sp_deploy _ _ (dsteps_spent _ _ Hr1 Hs) id r Hk) as (q & Hq & Hh' & _ & _ & _ & _ & Hv' & _);
      pose proof (DReachable_keys _ (DReachable_steps _ _ Hr1 Hs)) as Hok; specialize (Hv' Hv); subst q;
      [eapply (spend_revoked h t e' d' id r x)|eapply (find_revoked h t e' d' id r x)]; done.
Qed.

(** The budget of a deploy key holds in every reachable state: a key with a limit has
    not been used more often than the limit, and a use that succeeds raises the count
    of that key by exactly one, on a key that was active, unexpired, unrevoked and
    below its limit; a use that does not find such a key spends nothing. *)
Theorem deploy_key_budget d :
  DReachable d ->
  (forall id r, deploy_keys d !! id = Some r -> 0 < dk_max_uses r -> 0 <= dk_use_count r <= dk_max_uses r) /\
  (forall h t e u d1, run (ConsumeDeployKeyUse h t) e d = (Ok u, d1) ->
     exists id r, deploy_keys d !! id = Some r /\ dk_key_hash r = h /\ dk_user_id r = u /\
       dk_active r = true /\ dk_revoked_at r = None /\ (forall x, dk_expires_at r = Some x -> t < x) /\
       (dk_max_uses r = 0 \/ dk_use_count r < dk_max_uses r) /\
       deploy_keys d1 = <[id := spend t r]> (deploy_keys d)) /\
  (forall h t e, fst (run (ConsumeDeployKeyUse h t) e d) = Err ErrStoreNotFound ->
     snd (run (ConsumeDeployKeyUse h t) e d) = d).
Proof.
  intros Hr. destruct (DReachable_keys d Hr) as (_ & _ & _ & Hf). split; [|split].
  - intros id r Hk Hp. destruct (Hf id r Hk) as [? ?]. lia.
  - intros h t e u d1 H. apply spend_ok in H as (id & r & Hk & Hh & Hs & Hu & ->). exists id, r.
    unfold spendable in Hs. repeat (apply andb_prop in Hs as [Hs ?]).
    do 4 (split; [done|]). split; [by apply unrevoked_None|]. split.
    { intros x Hx. match goal with F : match dk_expires_at r with _ => _ end = true |- _ => rewrite Hx in F end. lia. }
    split; [|done]. match goal with F : _ || _ = true |- _ => apply orb_prop in F end. lia.
  - intros h t e. unfold ConsumeDeployKeyUse, found, scan_row, attempt, bind, pool_stmt, run. simpl.
    destruct (e_fault e 0); simpl; [|done|].
    + pose proof (spend_deploy_ok h t d) as Ho. destruct (sql_spend_deploy_key h t d) as [[[u|] d']|x]; simpl; [done| |done].
      intros _. by eapply (Ho None).
    + destruct (sql_spend_deploy_key h t d) as [[o d']|x]; simpl; done.
Qed.


(** ** Updates that are refused *)
Lemma manage_refused region inst role status x v t d :
  sql_manage_membership region inst role status x v t d = Err IndeterminateDatatype.
Proof. reflexivity. Qed.

(** The method fails and leaves the directory as it was, in every environment. *)
Definition declined {A} (m : dstore A) (d : dir) : Prop :=
  forall e, snd (run m e d) = d /\ exists x, fst (run m e d) = Err x.

Ltac declined := unfold declined, run, with_tx, begin_tx, found, attempt, scan_row, wrap, bind, tx_stmt, now, ret, fail, select;
  simpl; let e := fresh "e" in intros e.
Ltac gives_up := solve [split; [done|by eexists]].
(** The next round trip is lost, or goes through. *)
Ltac next_trip := match goal with |- context [match e_fault ?e ?n with _ => _ end] =>
  destruct (e_fault e n); [|gives_up..]; simpl end.

(** UpdateMembershipState never succeeds and never changes a row: its statement is
    given seven parameters and mentions six, so the server refuses to prepare it and
    the transaction is rolled back; no membership can be suspended, revoked,
    reactivated, given another role or an expiry through it. *)
Theorem membership_updates_refused owner region inst role status expires verified d :
  declined (UpdateMembershipState owner region inst role status expires verified) d.
Proof.
  unfold UpdateMembershipState. declined. do 2 next_trip.
  destruct (owned_region owner region d); simpl; [|gives_up]. next_trip. gives_up.
Qed.

Lemma pending_row d region inst id v : sound d -> invitations d !! id = Some v ->
  iv_status v = "pending"%string -> iv_region_id v = region -> iv_instance_id v = inst ->
  pending_invitation region inst d = Some (id, v).
Proof.
  intros Hd Hv Hs Hr Hi. destruct (so_invitations d Hd) as (_ & Hu & _). unfold pending_invitation.
  destruct (find_row _ _) as [[j u]|] eqn:F.
  - apply find_row_Some in F as [Hj E]. assert (j = id) as ->; [|congruence].
    apply andb_prop in E as [[E1%Z.eqb_eq E2%Z.eqb_eq]%andb_prop E3].
    eapply (Hu j id); [exact Hj|exact Hv| |]; unfold pending_key; [by rewrite E3|rewrite Hs; simpl; congruence].
  - pose proof (find_row_None _ _ _ _ F Hv) as Hx. simpl in Hx. by rewrite Hs, Hr, Hi, !Z.eqb_refl in Hx.
Qed.

(** an expired invitation keeps its place.  Accepting after its expiry fails and
    changes nothing, for the update to 'expired' is part of the transaction that the
    error abandons; and while the row is pending no new invitation of the instance to
    the region can be made, whoever asks and with any expiry. *)
Theorem expired_invitation_blocks d region inst id v :
  DReachable d -> invitations d !! id = Some v ->
  iv_status v = "pending"%string -> iv_region_id v = region -> iv_instance_id v = inst ->
  (forall actor token verified, iv_expires_at v < verified ->
     declined (AcceptRegionInvitation actor region inst token verified) d) /\
  (forall owner role token expires, declined (CreateRegionInvitation owner region inst role token expires) d).
Proof.
  intros Hreach Hv Hst Hr Hi. pose proof (DReachable_sound d Hreach) as Hd.
  pose proof (pending_row d region inst id v Hd Hv Hst Hr Hi) as Hp. split.
  - intros actor token verified Hx. unfold AcceptRegionInvitation.
    generalize (hashSecret token); intros h. declined. do 2 next_trip.
    destruct (instances d !! inst) as [i|]; simpl; [|gives_up]. destruct (String.eqb _ _); simpl; [|gives_up].
    next_trip. unfold pending_joined. rewrite Hp.
    destruct (regions d !! region); simpl; [|gives_up]. destruct (String.eqb _ _); simpl; [|gives_up].
    unfold After. destruct (Z.ltb_spec (iv_expires_at v) verified); [|lia]. simpl.
    next_trip. gives_up.
  - intros owner role token expires. unfold CreateRegionInvitation.
    generalize (hashSecret token); intros h. declined. do 2 next_trip.
    destruct (owned_region owner region d); simpl; [|gives_up]. next_trip.
    destruct (instances d !! inst) as [i|]; simpl; [|gives_up]. next_trip.
    unfold sql_insert_invitation. simpl. rewrite Hp. destruct (negb _); gives_up.
Qed.

(** ** A small history *)
Definition demo_instance : InstanceInfo :=
  mkInstance 0 "alice" "peerA" "box" "walletA" "restricted" "peer" 1 "active" (Some "walletA"%string) (Some 5)
    zeroTime zeroTime [] None [].
Definition demo_history : list (dop * time) :=
  [(DLink "alice" "walletA", 1); (DCreate demo_instance, 2); (DRegion (mkRegion 0 "eu" "Europe" "bob" "active" 0 0 0), 3);
   (DInvite "bob" 1 1 "worker" "secret" 100, 4);
   (DChallenge (mkWalletChallenge "ch" "alice" "walletB" "n" "m" 5 50), 5);
   (DInsertUserKey "alice" "hash" "laptop" "otela-1", 6); (DInsertDeploy "alice" "dhash" "dk-1" "ci" 2 None, 7)].
Definition demo_dir : dir := dplay demo_history empty_dir.
Lemma demo_dir_reachable : DReachable demo_dir.
Proof. apply dplay_steps. Qed.

Lemma directory_sound_witness :
  (exists r, instances demo_dir !! 1 = Some r) /\
  forall r, instances demo_dir !! 1 = Some r -> linked (user_wallets demo_dir) (ir_account_id r) (ir_owner_wallet r).
Proof.
  split; [eexists; reflexivity|]. intros r Hr.
  by apply (proj1 (proj2 (directory_sound demo_dir demo_dir_reachable))) in Hr as [? _].
Defined.

Lemma wallet_links_refine_witness :
  sql_wallet_owner "walletA" demo_dir = Ok (Some "alice"%string, demo_dir).
Proof.
  destruct (wallet_links_refine demo_dir (set_wallets (links demo_dir) empty_db) demo_dir_reachable eq_refl) as [H _].
  rewrite (H "walletA"%string). reflexivity.
Defined.

Lemma run_pair {A} (m : dstore A) e d r : fst (run m e d) = r -> run m e d = (r, snd (run m e d)).
Proof. intros <-. apply surjective_pairing. Qed.

Lemma credentials_spent_once_witness :
  fst (run (Revoke "hash") (fine_env 9) demo_dir) = Ok true /\
  never (LookupActiveKey "hash") (fun _ => True) (snd (run (Revoke "hash") (fine_env 9) demo_dir)).
Proof.
  split; [reflexivity|].
  apply (credentials_spent_once demo_dir (fine_env 9) _ demo_dir_reachable). left. apply run_pair. reflexivity.
Defined.

Lemma deploy_key_budget_witness :
  fst (run (ConsumeDeployKeyUse "dhash" 9) (fine_env 9) demo_dir) = Ok "alice"%string /\
  exists r, deploy_keys demo_dir !! 1 = Some r /\ dk_max_uses r = 2 /\ 0 <= dk_use_count r <= 2.
Proof.
  split; [reflexivity|]. assert (F : dk_max_uses <$> deploy_keys demo_dir !! 1 = Some 2) by reflexivity.
  apply fmap_Some in F as (r & E & Hm). exists r. split; [done|]. split; [done|]. rewrite Hm.
  apply (proj1 (deploy_key_budget demo_dir demo_dir_reachable) 1 r E). lia.
Defined.

Lemma expired_invitation_blocks_witness :
  declined (AcceptRegionInvitation "alice" 1 1 "secret" 200) demo_dir.
Proof.
  assert (F : (fun v => (iv_status v, iv_region_id v, iv_instance_id v, iv_expires_at v)) <$> invitations demo_dir !! 1 =
    Some ("pending"%string, 1, 1, 100)) by reflexivity.
  apply fmap_Some in F as (v & E & F). injection F as Hs Hr Hi Hx.
  apply (expired_invitation_blocks demo_dir 1 1 1 v demo_dir_reachable E (eq_sym Hs) (eq_sym Hr) (eq_sym Hi)). lia.
Defined.
