(* ===== verification/ThinkFix.v ===== *)
(** * internal/thinkfix: reasoning that leaked into the answer

    scanner.go finds the markers of a reasoning section in a stream of text;
    anthropic_json.go and anthropic_sse.go move what is between them into thinking
    blocks.  JSON is rewritten as values: a map is written back with its keys sorted. *)
From Stdlib Require Import ZArith Lia Strings.Ascii Strings.String.
From stdpp Require Import base gmap strings list fin_maps sorting.
From S2P Require Import Prelude Sha256 Base58 GoText Json.

Open Scope Z_scope.

(** ** scanner.go *)
Definition thinkOpenMarker : chars := chars_of "<|open|>think".
Definition thinkCloseMarker : chars := chars_of "<|close|>think".
Definition sepBareToken : chars := chars_of "<|sep|".
Definition sepFullToken : chars := chars_of "<|sep|>".

Record Segment := mkSegment { sg_Thinking : bool; sg_Text : chars }.
Record Scanner := mkScanner { inThink : bool; pending : chars; flipped : bool; atStart : bool }.
Definition NewScanner : Scanner := mkScanner false [] false false.
Definition Flipped (s : Scanner) : bool := flipped s.
Definition Seed (s : Scanner) (think : bool) : Scanner := mkScanner think [] (flipped s) true.
Definition marker (think : bool) : chars := if think then thinkCloseMarker else thinkOpenMarker.

(** [strings.Index] *)
Fixpoint Index (m l : chars) : option nat :=
  if has_prefix m l then Some 0%nat else
  match l with [] => None | _ :: r => S <$> Index m r end.

(** The longest suffix of [l] that is a proper prefix of [m], from length [k] on down. *)
Fixpoint prefix_overlap (k : nat) (l m : chars) : nat :=
  match k with
  | O => O
  | S j => if bool_decide (drop (length l - k) l = take k m) then k else prefix_overlap j l m
  end.
Definition markerPrefixOverlap (l m : chars) : nat := prefix_overlap (Nat.min (length l) (length m - 1)) l m.

(** None: only separators so far, or the beginning of one. *)
Fixpoint strip_seps (fuel : nat) (d : chars) : option chars :=
  match fuel with
  | O => None
  | S n =>
    if has_prefix sepFullToken d then strip_seps n (drop (length sepFullToken) d)
    else if has_prefix sepBareToken d then strip_seps n (drop (length sepBareToken) d)
    else if has_prefix d sepBareToken then None else Some d
  end.
Definition stripLeadingSeps (d : chars) : option chars := strip_seps (S (length d)) d.

(** The loop of [Feed]; [data] gets shorter with every marker. *)
Definition segment (think : bool) (l : chars) : list Segment := if bool_decide (l = []) then [] else [mkSegment think l].
Fixpoint feed (fuel : nat) (s : Scanner) (data : chars) : list Segment * Scanner :=
  match fuel, data with
  | O, _ | _, [] => ([], s)
  | S n, _ =>
    match (if atStart s then stripLeadingSeps data else Some data) with
    | None => ([], mkScanner (inThink s) data (flipped s) true)
    | Some data =>
      let m := marker (inThink s) in
      match Index m data with
      | None =>
        let keep := markerPrefixOverlap data m in
        (segment (inThink s) (take (length data - keep) data),
         mkScanner (inThink s) (drop (length data - keep) data) (flipped s) false)
      | Some i =>
        let '(out, s') := feed n (mkScanner (negb (inThink s)) [] true true) (drop (i + length m) data) in
        (segment (inThink s) (take i data) ++ out, s')
      end
    end
  end.
Definition Feed (s : Scanner) (chunk : chars) : list Segment * Scanner :=
  let data := pending s ++ chunk in
  feed (S (length data)) (mkScanner (inThink s) [] (flipped s) (atStart s)) data.
Definition Flush (s : Scanner) : bool * Scanner :=
  (negb (bool_decide (pending s = [])), mkScanner (inThink s) [] (flipped s) (atStart s)).

Definition texts (l : list Segment) : chars := concat (map sg_Text l).
(** [mergeSegments] *)
Fixpoint mergeSegments (l : list Segment) : list Segment :=
  match l with
  | a :: r =>
    match mergeSegments r with
    | b :: r' => if Bool.eqb (sg_Thinking a) (sg_Thinking b) then mkSegment (sg_Thinking a) (sg_Text a ++ sg_Text b) :: r'
                 else a :: b :: r'
    | [] => [a]
    end
  | [] => []
  end.

Example scan_ex :
  let '(a, s) := Feed NewScanner (chars_of "hi<|open|>thi") in
  let '(b, s) := Feed s (chars_of "nk<|sep|<|sep|>why<|close|>think ok") in
  map (fun x => (sg_Thinking x, text_of (sg_Text x))) (a ++ b) = [(false, "hi"); (true, "why"); (false, " ok")]%string.
Proof. vm_compute. reflexivity. Qed.

(** ** JSON values as Go's maps

    [any] values: an object is a map, its last member of a key counts. *)
Notation jmap := (gmap string json) (only parsing).
Definition map_of (l : list (string * json)) : jmap := list_to_map (rev l).
Definition member_before (a b : string * json) : Prop := String.leb (fst a) (fst b) = true.
#[export] Instance member_before_dec : RelDecision member_before.
Proof. intros a b. unfold member_before. apply _. Defined.
Definition object (m : jmap) : json := JObj (merge_sort member_before (map_to_list m)).
(** [v, _ := m[k].(string)] and the like: the zero value unless the type is right. *)
Definition str_at (m : jmap) (k : string) : string := match m !! k with Some (JStr s) => s | _ => "" end.
Definition obj_at (m : jmap) (k : string) : jmap := match m !! k with Some (JObj l) => map_of l | _ => ∅ end.
Definition scannable (kind : string) : bool := String.eqb kind "text" || String.eqb kind "thinking".

(** ** anthropic_json.go

    The result is the value that is marshalled. *)
Definition MaxJSONRewriteBody : Z := 8 * 1024 * 1024.
Definition seg_block (s : Segment) : json :=
  if sg_Thinking s then object {[ "type" := JStr "thinking"; "thinking" := JStr (text_of (sg_Text s)) ]}%string
  else object {[ "type" := JStr "text"; "text" := JStr (text_of (sg_Text s)) ]}%string.
(** One item of the content: what replaces it, and whether that is a change. *)
Definition rewrite_item (sc : Scanner) (item : json) : list json * Scanner * bool :=
  match item with
  | JObj l =>
    let block := map_of l in
    let kind := str_at block "type" in
    if negb (scannable kind) then ([item], sc, false) else
    let field := if String.eqb kind "thinking" then "thinking"%string else "text"%string in
    let text := chars_of (str_at block field) in
    let '(segs, sc) := Feed (Seed sc (String.eqb kind "thinking")) text in
    if negb (Flipped sc) then
      if bool_decide (texts segs = text) then ([item], sc, false)
      else ([object (<[field := JStr (text_of (texts segs))]> block)], sc, true)
    else (map seg_block (List.filter (fun s => negb (bool_decide (sg_Text s = []))) (mergeSegments segs)), sc, true)
  | _ => ([item], sc, false)
  end.
Fixpoint rewrite_items (sc : Scanner) (l : list json) : list json * bool :=
  match l with
  | [] => ([], false)
  | item :: rest =>
    let '(out, sc, c1) := rewrite_item sc item in
    let '(more, c2) := rewrite_items sc rest in (out ++ more, c1 || c2)
  end.
(** [None]: the body goes out as it came. *)
Definition RewriteAnthropicMessage (body : chars) : res (option json) :=
  match parse body with
  | Some (JObj l) =>
    let msg := map_of l in
    match msg !! "content"%string with
    | Some (JArr content) =>
      let '(out, changed) := rewrite_items NewScanner content in
      Ok (if changed then Some (object (<["content"%string := JArr out]> msg)) else None)
    | _ => Ok None
    end
  | Some JNull => Ok None
  | Some _ => Err mismatch
  | None => Err (Errorf "invalid JSON")
  end.

(** ** proxy.go

    Which responses are rewritten, and how the body of a JSON one is read.  [Content-Length]
    and the like are dropped from a rewritten response. *)
Record Response := mkResponse {
  rq_Method : string; rq_Path : string; rs_StatusCode : Z; rs_Encoding : string; rs_ContentType : string }.
Inductive wrapped := Untouched | StreamRewriter | jsonRewriteBody.
Definition HasSuffix (suffix s : string) : bool := has_prefix (rev (chars_of suffix)) (rev (chars_of s)).
Definition MaybeWrapResponse (r : Response) : wrapped :=
  if negb (String.eqb (rq_Method r) "POST") || negb (HasSuffix "/v1/messages" (rq_Path r)) || negb (rs_StatusCode r =? 200)
  then Untouched
  else if negb (String.eqb (rs_Encoding r) "") && negb (String.eqb (rs_Encoding r) "identity") then Untouched
  else if has_prefix (chars_of "text/event-stream") (chars_of (rs_ContentType r)) then StreamRewriter
  else if has_prefix (chars_of "application/json") (chars_of (rs_ContentType r)) then jsonRewriteBody
  else Untouched.

(** What the upstream sends: bytes, then the end or a failure. *)
Record upstream := mkUpstream { u_bytes : chars; u_failure : option err }.
(** What reading the wrapped body to its end gives: bytes as they came and how they end, or
    the text of a rewritten value. *)
Inductive delivered := Verbatim (bytes : chars) (failure : option err) | Rewritten (message : json).
(** [load] and [Read]: at most [MaxJSONRewriteBody + 1] bytes are read at first. *)
Definition load (u : upstream) : delivered :=
  let limited := Z.of_nat (length (u_bytes u)) <=? MaxJSONRewriteBody in
  if negb limited then Verbatim (u_bytes u) (u_failure u)
  else match u_failure u with
  | Some e => Verbatim (u_bytes u) (Some e)
  | None =>
    match RewriteAnthropicMessage (u_bytes u) with
    | Ok (Some message) => Rewritten message
    | _ => Verbatim (u_bytes u) None
    end
  end.

(** ** anthropic_sse.go

    What is written: a frame of the upstream as it came, or an event by its name and the
    payload that is marshalled. *)
Inductive output := Raw (frame : chars) | Event (name : string) (payload : jmap).
Record synthBlock := mkSynth { sy_idx : Z; sy_thinking : bool; sy_up : Z }.
Record upBlock := mkUp { up_kind : string; up_synthIdx : Z; up_started : bool; up_otherBlock : bool }.
Record rewriter := mkRewriter {
  w_sc : Scanner; w_rewriting : bool; w_rawIdx : Z; w_rawKind : string; w_nextSynth : Z;
  w_cur : option synthBlock; w_blocks : gmap Z upBlock }.
Definition NewAnthropicSSERewriter : rewriter := mkRewriter NewScanner false 0 "" 0 None ∅.

Definition with_sc (s : Scanner) (w : rewriter) : rewriter :=
  mkRewriter s (w_rewriting w) (w_rawIdx w) (w_rawKind w) (w_nextSynth w) (w_cur w) (w_blocks w).
Definition with_cur (c : option synthBlock) (w : rewriter) : rewriter :=
  mkRewriter (w_sc w) (w_rewriting w) (w_rawIdx w) (w_rawKind w) (w_nextSynth w) c (w_blocks w).
Definition with_blocks (b : gmap Z upBlock) (w : rewriter) : rewriter :=
  mkRewriter (w_sc w) (w_rewriting w) (w_rawIdx w) (w_rawKind w) (w_nextSynth w) (w_cur w) b.
Definition allocIdx (w : rewriter) : Z * rewriter :=
  (w_nextSynth w, mkRewriter (w_sc w) (w_rewriting w) (w_rawIdx w) (w_rawKind w) (i64 (w_nextSynth w + 1)) (w_cur w) (w_blocks w)).

Definition block_start (idx : Z) (kind : string) : jmap :=
  {[ "type" := JStr "content_block_start"; "index" := JInt idx;
     "content_block" := object {[ "type" := JStr kind; kind := JStr "" ]} ]}%string.
Definition block_delta (idx : Z) (dtype field : string) (text : chars) : jmap :=
  {[ "type" := JStr "content_block_delta"; "index" := JInt idx;
     "delta" := object {[ "type" := JStr dtype; field := JStr (text_of text) ]} ]}%string.
Definition block_stop (idx : Z) : jmap := {[ "type" := JStr "content_block_stop"; "index" := JInt idx ]}%string.
Definition stop_event (idx : Z) : output := Event "content_block_stop" (block_stop idx).
Definition kind_name (think : bool) : string := if think then "thinking" else "text".

Definition closeCur (w : rewriter) : list output * rewriter :=
  match w_cur w with Some c => ([stop_event (sy_idx c)], with_cur None w) | None => ([], w) end.

(** The block of the upstream's index [i] gets a downstream block of this kind. *)
Definition ensureOpen (i : Z) (up : upBlock) (think : bool) (w : rewriter) : list output * rewriter :=
  let open := match w_cur w with Some c => (sy_up c =? i) && Bool.eqb (sy_thinking c) think | None => false end in
  if open then ([], w) else
  let '(closed, w) := closeCur w in
  let '(idx, w) := allocIdx w in
  let w := with_blocks (<[i := mkUp (up_kind up) idx true (up_otherBlock up)]> (w_blocks w)) w in
  (closed ++ [Event "content_block_start" (block_start idx (kind_name think))], with_cur (Some (mkSynth idx think i)) w).
Definition emit_segment (i : Z) (up : upBlock) (s : Segment) (w : rewriter) : list output * rewriter :=
  let '(opened, w) := ensureOpen i up (sg_Thinking s) w in
  if bool_decide (sg_Text s = []) then (opened, w) else
  let kind := kind_name (sg_Thinking s) in
  (opened ++ [Event "content_block_delta"
     (block_delta (match w_cur w with Some c => sy_idx c | None => 0 end) (kind +:+ "_delta") kind (sg_Text s))], w).
Fixpoint emit_all (i : Z) (up : upBlock) (l : list Segment) (w : rewriter) : list output * rewriter :=
  match l with
  | [] => ([], w)
  | s :: rest =>
    let '(o1, w) := emit_segment i up s w in
    let '(o2, w) := emit_all i up rest w in (o1 ++ o2, w)
  end.
Definition emitSegments (i : Z) (up : upBlock) (segs : list Segment) : rewriter -> list output * rewriter :=
  emit_all i up (mergeSegments segs).

(** A number literal with a fraction or an exponent, cut to an integer: the parameter
    [trunc]. *)
Class Truncates := { trunc : string -> Z }.
Section Events.
Context `{Truncates}.
Definition asInt (j : option json) : Z := match j with Some (JInt z) => z | Some (JFrac s) => trunc s | _ => 0 end.

Definition onBlockStart (name : string) (frame : chars) (msg : jmap) (w : rewriter) : list output * rewriter :=
  let idx := asInt (msg !! "index"%string) in
  let kind := str_at (obj_at msg "content_block") "type" in
  let scan := scannable kind in
  let think := String.eqb kind "thinking" in
  if negb (w_rewriting w) then
    ([Raw frame], mkRewriter (if scan then Seed (w_sc w) think else w_sc w) false idx (if scan then kind else "")
       (w_nextSynth w) (w_cur w) (w_blocks w))
  else
    let '(closed, w) := closeCur w in
    if negb scan then
      let '(i, w) := allocIdx w in
      let w := with_blocks (<[idx := mkUp kind i true true]> (w_blocks w)) w in
      (closed ++ [Event name (<["index"%string := JInt i]> msg)], with_cur (Some (mkSynth i false idx)) w)
    else
      let w := with_blocks (<[idx := mkUp kind (-1) false false]> (w_blocks w)) w in
      (closed, with_sc (Seed (w_sc w) think) w).

(** Text of a delta while no marker has been seen. *)
Definition raw_delta (name dtype : string) (frame : chars) (idx : Z) (text : chars) (w : rewriter) : list output * rewriter :=
  let '(segs, sc) := Feed (w_sc w) text in
  if negb (Flipped sc) then
    let emitted := texts segs in
    (if bool_decide (emitted = text) then [Raw frame]
     else if bool_decide (emitted = []) then []
     else [Event name (block_delta idx dtype (if String.eqb dtype "thinking_delta" then "thinking" else "text") emitted)],
     with_sc sc w)
  else
    let up := mkUp (w_rawKind w) idx true false in
    let w := mkRewriter sc true (w_rawIdx w) (w_rawKind w) (i64 (idx + 1))
      (Some (mkSynth idx (String.eqb (w_rawKind w) "thinking") idx)) (<[idx := up]> (w_blocks w)) in
    emitSegments idx up segs w.
Definition onBlockDelta (name : string) (frame : chars) (msg : jmap) (w : rewriter) : list output * rewriter :=
  let idx := asInt (msg !! "index"%string) in
  let delta := obj_at msg "delta" in
  let dtype := str_at delta "type" in
  let forward up := ([Event name (<["index"%string := JInt (up_synthIdx up)]> msg)], w) in
  if negb (String.eqb dtype "text_delta") && negb (String.eqb dtype "thinking_delta") then
    match (if w_rewriting w then w_blocks w !! idx else None) with Some up => forward up | None => ([Raw frame], w) end
  else
    let text := chars_of (str_at delta (if String.eqb dtype "text_delta" then "text" else "thinking")) in
    if negb (w_rewriting w) then raw_delta name dtype frame idx text w else
    match w_blocks w !! idx with
    | None => ([Raw frame], w)
    | Some up =>
      if up_otherBlock up then forward up
      else let '(segs, sc) := Feed (w_sc w) text in emitSegments idx up segs (with_sc sc w)
    end.

Definition onBlockStop (frame : chars) (msg : jmap) (w : rewriter) : list output * rewriter :=
  if negb (w_rewriting w) then ([Raw frame], w) else
  let idx := asInt (msg !! "index"%string) in
  match w_blocks w !! idx with
  | None => ([Raw frame], w)
  | Some up =>
    let w := with_blocks (delete idx (w_blocks w)) w in
    let current := match w_cur w with Some c => sy_up c =? idx | None => false end in
    if current then closeCur w
    else if up_otherBlock up then ([stop_event (up_synthIdx up)], w)
    else if negb (up_started up) then
      let '(i, w) := allocIdx w in
      ([Event "content_block_start" (block_start i (up_kind up)); stop_event i], w)
    else ([], w)
  end.

(** [readSSEFrame]: the lines up to a blank one, and what is left; the last frame may lack
    its blank line. *)
Definition newline : ascii := "010"%char.
Definition is_eol (c : ascii) : bool := Ascii.eqb c newline || Ascii.eqb c "013"%char.
Definition trim_eol (l : chars) : chars := rev ((fix drop_eol l := match l with c :: r => if is_eol c then drop_eol r else l | [] => [] end) (rev l)).
Fixpoint take_line (l : chars) : chars * chars :=
  match l with
  | [] => ([], [])
  | c :: r => if Ascii.eqb c newline then ([c], r) else let '(a, b) := take_line r in (c :: a, b)
  end.
Fixpoint readSSEFrame (fuel : nat) (l : chars) : chars * chars :=
  match fuel, l with
  | O, _ | _, [] => ([], l)
  | S n, _ =>
    let '(line, r) := take_line l in
    if bool_decide (trim_eol line = []) then (line, r)
    else let '(frame, r) := readSSEFrame n r in (line ++ frame, r)
  end.
(** [strings.Split] on a newline. *)
Fixpoint lines (l : chars) : list chars :=
  match l with
  | [] => [[]]
  | c :: r => if Ascii.eqb c newline then [] :: lines r else match lines r with a :: b => (c :: a) :: b | [] => [[c]] end
  end.
Fixpoint trim_cr (l : chars) : chars :=
  match l with
  | [] => []
  | c :: r => match trim_cr r with [] => if Ascii.eqb c "013"%char then [] else [c] | t => c :: t end
  end.
Definition event_prefix : chars := chars_of "event: ".
Definition data_prefix : chars := chars_of "data: ".
Fixpoint parse_lines (l : list chars) (name : string) (data : option chars) : option (string * option chars) :=
  match l with
  | [] => Some (name, data)
  | line :: rest =>
    let line := trim_cr line in
    if has_prefix event_prefix line then
      if negb (String.eqb name "") then None
      else parse_lines rest (TrimSpace (text_of (drop (length event_prefix) line))) data
    else if has_prefix data_prefix line then
      match data with Some _ => None | None => parse_lines rest name (Some (drop (length data_prefix) line)) end
    else None
  end.
Definition parseSSEFrame (frame : chars) : option (string * chars) :=
  match parse_lines (lines (trim_eol frame)) "" None with Some (name, Some data) => Some (name, data) | _ => None end.

(** [step], on the frame that was read *)
Definition on_frame (frame : chars) (w : rewriter) : list output * rewriter :=
  match parseSSEFrame frame with
  | None => ([Raw frame], w)
  | Some (name, data) =>
    match parse data with
    | Some (JObj _) | Some JNull =>
      let msg := match parse data with Some (JObj l) => map_of l | _ => ∅ end in
      let typ := str_at msg "type" in
      let name := if String.eqb name "" then typ else name in
      if String.eqb typ "content_block_start" then onBlockStart name frame msg w
      else if String.eqb typ "content_block_delta" then onBlockDelta name frame msg w
      else if String.eqb typ "content_block_stop" then onBlockStop frame msg w
      else
        let '(closed, w) := (if String.eqb typ "message_stop" then closeCur w else ([], w)) in
        (closed ++ [Raw frame], w)
    | _ => ([Raw frame], w)
    end
  end.
Definition finish (w : rewriter) : list output * rewriter := closeCur (with_sc (snd (Flush (w_sc w))) w).

(** [Read] until the end: the frames one by one, then [finish]. *)
Fixpoint frames (fuel : nat) (l : chars) : list chars :=
  match fuel, l with
  | O, _ | _, [] => []
  | S n, _ => let '(f, r) := readSSEFrame (S (length l)) l in f :: frames n r
  end.
Fixpoint on_frames (l : list chars) (w : rewriter) : list output * rewriter :=
  match l with
  | [] => finish w
  | f :: rest =>
    let '(o1, w) := on_frame f w in
    let '(o2, w) := on_frames rest w in (o1 ++ o2, w)
  end.
Definition rewrite_stream (body : chars) : list output := fst (on_frames (frames (length body) body) NewAnthropicSSERewriter).
End Events.

(** The frames are the stream: nothing is lost between them, and their fuel is enough. *)
Lemma take_line_app l : fst (take_line l) ++ snd (take_line l) = l /\ (l <> [] -> fst (take_line l) <> []).
Proof.
  induction l as [|c l [IH _]]; [done|]. cbn [take_line]. destruct (Ascii.eqb c newline); [done|].
  destruct (take_line l) as [a b]. cbn in *. by rewrite IH.
Qed.
Lemma readSSEFrame_app n : forall l, fst (readSSEFrame n l) ++ snd (readSSEFrame n l) = l /\ (l <> [] -> (0 < n)%nat -> fst (readSSEFrame n l) <> []).
Proof.
  induction n as [|n IH]; intros l; [split; [done|lia]|]. cbn [readSSEFrame]. destruct l as [|c l]; [done|].
  pose proof (take_line_app (c :: l)) as [Ha Hn]. destruct (take_line (c :: l)) as [line r]. cbn [fst snd] in *.
  specialize (Hn ltac:(done)). case_bool_decide; [done|]. destruct (IH r) as [Hr _]. destruct (readSSEFrame n r) as [f r'].
  cbn [fst snd] in *. rewrite <- app_assoc, Hr. split; [done|]. intros _ _. by destruct line.
Qed.
Lemma readSSEFrame_fuel n : forall m l, (length l < n)%nat -> (length l < m)%nat -> readSSEFrame n l = readSSEFrame m l.
Proof.
  induction n as [|n IH]; intros [|m] l Hn Hm; try lia. cbn [readSSEFrame]. destruct l as [|c l]; [done|].
  pose proof (take_line_app (c :: l)) as [Ha Hne]. destruct (take_line (c :: l)) as [line r]. cbn [fst snd] in *.
  specialize (Hne ltac:(done)). case_bool_decide; [done|]. apply (f_equal length) in Ha. rewrite length_app in Ha.
  assert (0 < length line)%nat by (destruct line; [done|simpl; lia]). by rewrite (IH m) by lia.
Qed.
Lemma frames_concat n : forall l, (length l <= n)%nat -> concat (frames n l) = l.
Proof.
  induction n as [|n IH]; intros l Hl; [by destruct l; [|simpl in Hl; lia]|]. destruct l as [|c l]; [done|].
  cbn [frames]. pose proof (readSSEFrame_app (S (length (c :: l))) (c :: l)) as [Ha Hne].
  destruct (readSSEFrame _ _) as [f r]. cbn [fst snd concat] in *. rewrite IH; [done|].
  specialize (Hne ltac:(done) ltac:(lia)). apply (f_equal length) in Ha. rewrite length_app in Ha. destruct f; [done|]. simpl in *. lia.
Qed.

(** ** However the stream is cut

    The text with, for every byte, whether it belongs to the reasoning. *)
Definition labelled (l : list Segment) : list (bool * ascii) := concat (map (fun s => map (pair (sg_Thinking s)) (sg_Text s)) l).

Lemma labelled_app a b : labelled (a ++ b) = labelled a ++ labelled b.
Proof. unfold labelled. by rewrite map_app, concat_app. Qed.
Lemma labelled_segment t l : labelled (segment t l) = map (pair t) l.
Proof. unfold segment, labelled. case_bool_decide as E; [by rewrite E|]. simpl. by rewrite app_nil_r. Qed.

Lemma has_prefix_long p d b : (length p <= length d)%nat -> has_prefix p (d ++ b) = has_prefix p d.
Proof.
  revert d. induction p as [|x p IH]; intros [|y d]; simpl; [done..|lia|]. intros Hl. by rewrite IH by lia.
Qed.
Lemma has_prefix_trans a b c : has_prefix a b = true -> has_prefix b c = true -> has_prefix a c = true.
Proof. rewrite !has_prefix_app. intros [x ->] [y ->]. exists (x ++ y). by rewrite app_assoc. Qed.
Lemma has_prefix_here a b : has_prefix a (a ++ b) = true.
Proof. apply has_prefix_app. by exists b. Qed.
(** Two prefixes of one text: the shorter is a prefix of the longer. *)
Lemma prefixes_compare a b l : has_prefix a l = true -> has_prefix b l = true -> has_prefix a b = true \/ has_prefix b a = true.
Proof.
  revert b l. induction a as [|x a IH]; intros [|y b] [|z l]; simpl; auto; try done.
  rewrite !andb_true_iff, !Ascii.eqb_eq. intros [-> Ha] [-> Hb]. destruct (IH b l Ha Hb) as [->| ->]; auto.
Qed.

(** *** Separators *)
Lemma strip_length f : forall d r, strip_seps f d = Some r -> (length r <= length d)%nat.
Proof.
  induction f as [|f IH]; intros d r; cbn [strip_seps]; [done|].
  destruct (has_prefix sepFullToken d); [intros Hr%IH; rewrite length_drop in Hr; lia|].
  destruct (has_prefix sepBareToken d); [intros Hr%IH; rewrite length_drop in Hr; lia|].
  destruct (has_prefix d sepBareToken); [done|]. by intros [= ->].
Qed.
Lemma strip_nonempty f : forall d r, strip_seps f d = Some r -> r <> [].
Proof.
  induction f as [|f IH]; intros d r; cbn [strip_seps]; [done|]. destruct (has_prefix sepFullToken d); [apply IH|].
  destruct (has_prefix sepBareToken d); [apply IH|]. destruct (has_prefix d sepBareToken) eqn:E; [done|].
  intros [= ->] ->. done.
Qed.
Lemma strip_more b f : forall d r f', strip_seps f d = Some r -> (length (d ++ b) < f')%nat -> strip_seps f' (d ++ b) = Some (r ++ b).
Proof.
  induction f as [|f IH]; intros d r f'; [done|]. cbn [strip_seps]. destruct f' as [|f']; [lia|]. cbn [strip_seps].
  destruct (has_prefix sepFullToken d) eqn:Ef.
  { apply has_prefix_app in Ef as [d' ->]. rewrite <- app_assoc, has_prefix_here, !drop_app_length. intros Hs Hl.
    apply (IH _ _ _ Hs). rewrite !length_app in *. cbn in Hl. lia. }
  destruct (has_prefix sepBareToken d) eqn:Eb.
  { apply has_prefix_app in Eb as [d' ->]. rewrite drop_app_length. intros Hs Hl.
    assert (Hd : d' <> []). { intros ->. destruct f; [done|]. discriminate Hs. }
    rewrite has_prefix_long, Ef by (rewrite length_app; destruct d'; [done|cbn; lia]).
    rewrite <- app_assoc, has_prefix_here, drop_app_length. apply (IH _ _ _ Hs). rewrite !length_app in *. cbn in Hl. lia. }
  destruct (has_prefix d sepBareToken) eqn:Ed; [done|]. intros [= ->] _.
  assert (Hb : has_prefix sepBareToken (r ++ b) = false).
  { destruct (has_prefix sepBareToken (r ++ b)) eqn:E; [|done].
    destruct (prefixes_compare _ _ _ E (has_prefix_here r b)); congruence. }
  destruct (has_prefix sepFullToken (r ++ b)) eqn:E2; [by rewrite (has_prefix_trans sepBareToken sepFullToken) in Hb|].
  rewrite Hb. destruct (has_prefix (r ++ b) sepBareToken) eqn:E3; [|done].
  by rewrite (has_prefix_trans _ _ _ (has_prefix_here r b) E3) in Ed.
Qed.
Lemma strip_fuel f f' d : (length d < f)%nat -> (length d < f')%nat -> strip_seps f d = strip_seps f' d.
Proof.
  intros Hf Hf'. destruct (strip_seps f d) as [r|] eqn:E.
  - pose proof (strip_more [] f d r f' E) as Hm. rewrite !app_nil_r in Hm. by rewrite Hm.
  - destruct (strip_seps f' d) as [r|] eqn:E'; [|done].
    pose proof (strip_more [] f' d r f E') as Hm. rewrite !app_nil_r in Hm. by rewrite Hm in E.
Qed.

(** *** Searching *)
Lemma drop_long {A} n (l : list A) : (length l <= n)%nat -> drop n l = [].
Proof. apply skipn_all2. Qed.
Lemma Index_Some m l i : Index m l = Some i ->
  has_prefix m (drop i l) = true /\ forall j, (j < i)%nat -> has_prefix m (drop j l) = false.
Proof.
  revert i. induction l as [|c l IH]; intros i; cbn [Index].
  - destruct (has_prefix m []) eqn:E; [|done]. intros [= <-]. split; [done|lia].
  - destruct (has_prefix m (c :: l)) eqn:E; [intros [= <-]; split; [done|lia]|].
    destruct (Index m l) as [k|] eqn:Ek; [|done]. intros [= <-]. destruct (IH k eq_refl) as [H1 H2]. split; [done|].
    intros [|j] Hj; [done|]. apply H2. lia.
Qed.
Lemma Index_None m l : m <> [] -> Index m l = None -> forall j, has_prefix m (drop j l) = false.
Proof.
  intros Hm. induction l as [|c l IH]; cbn [Index].
  - intros _ j. rewrite drop_long by (simpl; lia). by destruct m.
  - destruct (has_prefix m (c :: l)) eqn:E; [done|]. destruct (Index m l); [done|]. intros _ [|j]; [done|]. by apply IH.
Qed.
Lemma Index_is m l i : has_prefix m (drop i l) = true -> (forall j, (j < i)%nat -> has_prefix m (drop j l) = false) ->
  m <> [] -> Index m l = Some i.
Proof.
  intros H1 H2 Hm. destruct (Index m l) as [k|] eqn:E.
  - apply Index_Some in E as [K1 K2]. f_equal. destruct (Nat.lt_trichotomy i k) as [Hlt|[->|Hlt]]; [|done|].
    + by rewrite K2 in H1.
    + by rewrite H2 in K1.
  - by rewrite (Index_None m l Hm E) in H1.
Qed.
Lemma Index_isnt m l : (forall j, has_prefix m (drop j l) = false) -> Index m l = None.
Proof.
  intros H. destruct (Index m l) as [k|] eqn:E; [|done]. apply Index_Some in E as [K _]. by rewrite H in K.
Qed.

(** [k] bytes at the end of [l] begin [m]. *)
Definition begins (k : nat) (l m : chars) : Prop := (k <= length l)%nat /\ drop (length l - k) l = take k m.
Lemma overlap_spec K l m : (K <= length l)%nat ->
  let k := prefix_overlap K l m in (k <= K)%nat /\ begins k l m /\ forall j, (k < j <= K)%nat -> ~ begins j l m.
Proof.
  induction K as [|K IH]; cbn [prefix_overlap]; intros Hl.
  - split; [done|]. split; [split; [lia|]; rewrite drop_long by lia; done|lia].
  - case_bool_decide as E.
    + split; [done|]. split; [by split|lia].
    + destruct IH as (H1 & H2 & H3); [lia|]. split; [lia|]. split; [done|]. intros j Hj [_ Hb].
      destruct (decide (j = S K)) as [->|]; [done|]. apply (H3 j); [lia|]. split; [lia|done].
Qed.
Lemma overlap_is l m k : (k <= length m - 1)%nat -> begins k l m -> (forall j, (k < j <= length m - 1)%nat -> ~ begins j l m) ->
  markerPrefixOverlap l m = k.
Proof.
  intros Hk Hb Hn. unfold markerPrefixOverlap. pose proof (overlap_spec (Nat.min (length l) (length m - 1)) l m ltac:(lia)) as (H1 & H2 & H3).
  set (x := prefix_overlap _ l m) in *. destruct (Nat.lt_trichotomy x k) as [Hlt|[->|Hlt]]; [|done|].
  - destruct (H3 k); [|done]. destruct Hb. lia.
  - destruct (Hn x); [lia|done].
Qed.

Lemma overlap_longest l m : (markerPrefixOverlap l m <= Nat.min (length l) (length m - 1))%nat /\ begins (markerPrefixOverlap l m) l m /\
  forall j, (markerPrefixOverlap l m < j <= Nat.min (length l) (length m - 1))%nat -> ~ begins j l m.
Proof. exact (overlap_spec (Nat.min (length l) (length m - 1)) l m ltac:(lia)). Qed.

(** *** Enough fuel *)
Lemma marker_length t : (13 <= length (marker t) <= 14)%nat.
Proof. destruct t; vm_compute; lia. Qed.
Lemma marker_ne t : marker t <> [].
Proof. by destruct t. Qed.
Lemma Index_fits m l i : m <> [] -> Index m l = Some i -> (i + length m <= length l)%nat.
Proof.
  intros Hm [H _]%Index_Some. apply has_prefix_app in H as [r H]. pose proof (f_equal length H) as Hl.
  rewrite length_drop, length_app in Hl. destruct m; [done|]. simpl in *. lia.
Qed.
Lemma feed_fuel f : forall f' s d, (length d < f)%nat -> (length d < f')%nat -> feed f s d = feed f' s d.
Proof.
  induction f as [|f IH]; intros [|f'] s d H1 H2; [lia..|]. cbn [feed]. destruct d as [|c d]; [done|].
  destruct (if atStart s then _ else _) as [data|] eqn:Ed; [|done].
  assert (Hd : (length data <= length (c :: d))%nat).
  { destruct (atStart s); [by apply strip_length in Ed|by injection Ed as <-]. }
  destruct (Index _ data) as [i|] eqn:Ei; [|done]. pose proof (Index_fits _ _ _ (marker_ne _) Ei) as Hi.
  pose proof (marker_length (inThink s)) as Hm.
  rewrite (IH f') by (rewrite length_drop; lia). done.
Qed.

(** *** Text that no marker starts in *)
Lemma begins_app k p q m : (k <= length q)%nat -> begins k (p ++ q) m <-> begins k q m.
Proof.
  intros Hk. unfold begins. rewrite length_app, drop_app_ge by lia.
  replace (length p + length q - k - length p)%nat with (length q - k)%nat by lia. split; intros [? ?]; (split; [lia|done]).
Qed.
Lemma feed_skip p q s f f' : atStart s = false -> pending s = [] -> (length (p ++ q) < f)%nat -> (length q < f')%nat ->
  (forall j, (j < length p)%nat -> has_prefix (marker (inThink s)) (drop j (p ++ q)) = false) ->
  (forall j, (j < length p)%nat -> has_prefix (drop j (p ++ q)) (marker (inThink s)) = false) ->
  labelled (fst (feed f s (p ++ q))) = map (pair (inThink s)) p ++ labelled (fst (feed f' s q)) /\
  snd (feed f s (p ++ q)) = snd (feed f' s q).
Proof.
  intros Ha Hpd Hf Hf' Hm Hn. destruct (decide (p = [])) as [->|Hp].
  { rewrite !app_nil_l in *. rewrite (feed_fuel f f') by done. done. }
  destruct f as [|f]; [lia|]. destruct f' as [|f']; [lia|].
  pose proof (marker_ne (inThink s)) as Hne. pose proof (marker_length (inThink s)) as Hlen. set (m := marker (inThink s)) in *.
  assert (Hfeed : feed (S f) s (p ++ q) = match Index m (p ++ q) with
      | None => let keep := markerPrefixOverlap (p ++ q) m in
        (segment (inThink s) (take (length (p ++ q) - keep) (p ++ q)),
         mkScanner (inThink s) (drop (length (p ++ q) - keep) (p ++ q)) (flipped s) false)
      | Some i => let '(out, s') := feed f (mkScanner (negb (inThink s)) [] true true) (drop (i + length m) (p ++ q)) in
        (segment (inThink s) (take i (p ++ q)) ++ out, s')
      end).
  { cbn [feed]. rewrite Ha. destruct (p ++ q) eqn:E; [by destruct p|]. rewrite <- E. done. }
  rewrite Hfeed. clear Hfeed.
  assert (Hov : markerPrefixOverlap (p ++ q) m = markerPrefixOverlap q m).
  { destruct (overlap_longest q m) as (K1 & K2 & K3). set (k := markerPrefixOverlap q m) in *.
    apply overlap_is; [lia|by apply begins_app; [lia|]|]. intros j Hj Hb.
    destruct (decide (j <= length q)%nat) as [Hjq|Hjq]; [apply begins_app in Hb; [|done]; apply (K3 j); [lia|done]|].
    destruct Hb as [Hl Hb]. rewrite length_app in Hl, Hb. set (x := (length p + length q - j)%nat) in *.
    assert (has_prefix (drop x (p ++ q)) m = true) as E; [|by rewrite Hn in E by lia].
    rewrite Hb. apply has_prefix_app. exists (drop j m). by rewrite take_drop. }
  assert (Hk : (markerPrefixOverlap q m <= length q)%nat).
  { destruct (overlap_longest q m) as (K1 & _). lia. }
  destruct (Index m q) as [i|] eqn:Ei.
  - pose proof (Index_fits _ _ _ Hne Ei) as Hfit. pose proof Ei as [I1 I2]%Index_Some.
    rewrite (Index_is m (p ++ q) (length p + i)).
    + destruct q as [|c q']; [cbn in Hfit; destruct m; [done|cbn in Hfit; lia]|]. set (q := c :: q') in *.
      assert (Hq : feed (S f') s q = let '(out, s') := feed f' (mkScanner (negb (inThink s)) [] true true) (drop (i + length m) q) in
        (segment (inThink s) (take i q) ++ out, s')) by (cbn [feed]; rewrite Ha; fold m; by rewrite Ei).
      rewrite Hq. replace (length p + i + length m)%nat with (length p + (i + length m))%nat by lia.
      rewrite drop_app_add. rewrite length_app in Hf.
      rewrite (feed_fuel f f') by (rewrite length_drop; lia). destruct (feed f' _ _) as [out s'].
      cbn [fst snd]. rewrite !labelled_app, !labelled_segment, take_app_add, map_app, app_assoc. done.
    + by rewrite drop_app_add.
    + intros j Hj. destruct (decide (j < length p)%nat); [by apply Hm|].
      replace j with (length p + (j - length p))%nat by lia. rewrite drop_app_add. apply I2. lia.
    + done.
  - pose proof (Index_None m q Hne Ei) as Hnone. rewrite Index_isnt.
    + cbv zeta. rewrite Hov, length_app. set (k := markerPrefixOverlap q m) in *.
      replace (length p + length q - k)%nat with (length p + (length q - k))%nat by lia. rewrite take_app_add, drop_app_add.
      cbn [fst snd]. rewrite labelled_segment, map_app. destruct q as [|c q'].
      * cbn. rewrite !app_nil_r. split; [done|]. destruct s. simpl in *. by subst.
      * set (q := c :: q') in *.
        assert (Hq : feed (S f') s q = (segment (inThink s) (take (length q - k) q), mkScanner (inThink s) (drop (length q - k) q) (flipped s) false))
          by (cbn [feed]; rewrite Ha; fold m; by rewrite Ei).
        rewrite Hq. cbn [fst snd]. by rewrite labelled_segment.
    + intros j. destruct (decide (j < length p)%nat); [by apply Hm|].
      replace j with (length p + (j - length p))%nat by lia. rewrite drop_app_add. apply Hnone.
Qed.

(** *** One cut *)
Definition body (f : nat) (t fl : bool) (data : chars) : list Segment * Scanner :=
  match Index (marker t) data with
  | None =>
    let keep := markerPrefixOverlap data (marker t) in
    (segment t (take (length data - keep) data), mkScanner t (drop (length data - keep) data) fl false)
  | Some i =>
    let '(out, s') := feed f (mkScanner (negb t) [] true true) (drop (i + length (marker t)) data) in
    (segment t (take i data) ++ out, s')
  end.
Lemma feed_body f s d : d <> [] -> feed (S f) s d =
  match (if atStart s then stripLeadingSeps d else Some d) with
  | None => ([], mkScanner (inThink s) d (flipped s) true)
  | Some data => body f (inThink s) (flipped s) data
  end.
Proof. intros Hd. cbn [feed]. destruct d; [done|]. done. Qed.

(** A suffix of [data] that a marker could still grow from is no longer than what is held back. *)
Lemma held_back m data b j : m <> [] -> Index m data = None -> (j < length data - markerPrefixOverlap data m)%nat ->
  has_prefix m (drop j data ++ b) = false /\ has_prefix (drop j data ++ b) m = false.
Proof.
  intros Hm Hi Hj. pose proof (Index_None m data Hm Hi j) as Hn. destruct (overlap_longest data m) as (K1 & _ & K3).
  assert (Hc : has_prefix (drop j data) m = false).
  { destruct (has_prefix (drop j data) m) eqn:E; [|done]. apply has_prefix_app in E as [r E].
    assert (Hl : length (drop j data) = (length data - j)%nat) by apply length_drop.
    destruct r as [|x r].
    - rewrite app_nil_r in E. pose proof (has_prefix_here (drop j data) []) as Hx. rewrite app_nil_r in Hx. congruence.
    - destruct (K3 (length data - j)%nat).
      + assert (Hlm : length m = (length data - j + S (length r))%nat) by (rewrite E, length_app, Hl; done). lia.
      + split; [lia|]. replace (length data - (length data - j))%nat with j by lia. rewrite E, <- Hl. by rewrite take_app_length. }
  split.
  - destruct (has_prefix m (drop j data ++ b)) eqn:E; [|done].
    destruct (prefixes_compare _ _ _ E (has_prefix_here (drop j data) b)); congruence.
  - destruct (has_prefix (drop j data ++ b) m) eqn:E; [|done].
    by rewrite (has_prefix_trans _ _ _ (has_prefix_here (drop j data) b) E) in Hc.
Qed.

Definition joins (r1 r2 r : list Segment * Scanner) : Prop :=
  labelled (fst r) = labelled (fst r1) ++ labelled (fst r2) /\ snd r = snd r2.

Lemma feed_cut n : forall d b s, (length d <= n)%nat -> pending s = [] ->
  joins (feed (S (length d)) s d) (Feed (snd (feed (S (length d)) s d)) b) (feed (S (length (d ++ b))) s (d ++ b)).
Proof.
  induction n as [n IH] using lt_wf_ind. intros d b s Hn Hp.
  destruct (decide (d = [])) as [->|Hd].
  { unfold joins, Feed. cbn [length feed fst snd app]. rewrite Hp. destruct s. cbn in *. by subst. }
  assert (Hdb : d ++ b <> []) by (by destruct d). rewrite !feed_body by done.
  destruct (if atStart s then stripLeadingSeps d else Some d) as [data|] eqn:Es.
  2: { destruct (atStart s) eqn:Ea; [|done]. unfold joins, Feed. cbn [fst snd pending inThink flipped atStart].
    rewrite (feed_body _ _ (d ++ b)) by done. cbn [atStart inThink flipped]. done. }
  assert (Hlen : (length data <= length d)%nat) by (destruct (atStart s); [by apply strip_length in Es|by injection Es as <-]).
  assert (Hne : data <> []) by (destruct (atStart s); [by apply strip_nonempty in Es|by injection Es as <-]).
  assert (Es' : (if atStart s then stripLeadingSeps (d ++ b) else Some (d ++ b)) = Some (data ++ b)).
  { destruct (atStart s); [|by injection Es as <-]. apply (strip_more b _ _ _ _ Es). lia. }
  rewrite Es'. unfold body. set (t := inThink s). pose proof (marker_ne t) as Hm. pose proof (marker_length t) as Hml.
  destruct (Index (marker t) data) as [i|] eqn:Ei.
  - pose proof (Index_fits _ _ _ Hm Ei) as Hfit. pose proof Ei as [I1 I2]%Index_Some.
    rewrite (Index_is (marker t) (data ++ b) i); [| | |done].
    + rewrite take_app_le, drop_app_le by lia. set (rest := drop (i + length (marker t)) data).
      assert (Hr : (length rest < length d)%nat) by (unfold rest; rewrite length_drop; lia).
      destruct (IH (length rest) ltac:(lia) rest b (mkScanner (negb t) [] true true) ltac:(lia) eq_refl) as [H1 H2].
      rewrite (feed_fuel (length d) (S (length rest))) by lia.
      rewrite (feed_fuel (length (d ++ b)) (S (length (rest ++ b)))) by (rewrite !length_app; lia).
      destruct (feed (S (length rest)) _ rest) as [o1 s1]. destruct (feed _ _ (rest ++ b)) as [o s2].
      unfold joins in *. cbn [fst snd] in *. rewrite !labelled_app, H1. by rewrite app_assoc.
    + rewrite drop_app_le by lia. rewrite has_prefix_long; [done|]. rewrite length_drop. lia.
    + intros j Hj. rewrite drop_app_le by lia. rewrite has_prefix_long; [by apply I2|]. rewrite length_drop. lia.
  - pose proof (fun j => held_back (marker t) data b j Hm Ei) as Hheld. set (k := markerPrefixOverlap data (marker t)) in *.
    set (p := take (length data - k) data). set (q := drop (length data - k) data).
    assert (Hpq : data ++ b = p ++ (q ++ b)) by (unfold p, q; by rewrite app_assoc, take_drop).
    assert (Hlp : (length p <= length data - k)%nat) by (unfold p; rewrite length_take; lia).
    change (let keep := _ in _) with (segment t p, mkScanner t q (flipped s) false).
    fold (body (length (d ++ b)) t (flipped s) (data ++ b)).
    assert (Hbody : body (length (d ++ b)) t (flipped s) (data ++ b) =
      feed (S (length (d ++ b))) (mkScanner t [] (flipped s) false) (p ++ (q ++ b))).
    { rewrite <- Hpq, feed_body; [done|by destruct data]. }
    rewrite Hbody. unfold joins, Feed. cbn [fst snd pending inThink flipped atStart].
    destruct (feed_skip p (q ++ b) (mkScanner t [] (flipped s) false) (S (length (d ++ b))) (S (length (q ++ b)))) as [H1 H2]; cbn [inThink].
    + done.
    + done.
    + rewrite <- Hpq, !length_app. lia.
    + lia.
    + intros j Hj. rewrite <- Hpq, drop_app_le by lia. apply Hheld. lia.
    + intros j Hj. rewrite <- Hpq, drop_app_le by lia. apply Hheld. lia.
    + rewrite H1, H2, labelled_segment. done.
Qed.

(** *** Any cut *)
Fixpoint feeds (s : Scanner) (chunks : list chars) : list Segment * Scanner :=
  match chunks with
  | [] => ([], s)
  | c :: rest => let '(o1, s) := Feed s c in let '(o2, s) := feeds s rest in (o1 ++ o2, s)
  end.
Lemma Feed_split s a b : joins (Feed s a) (Feed (snd (Feed s a)) b) (Feed s (a ++ b)).
Proof.
  unfold Feed at 1 3 4. rewrite app_assoc. by apply (feed_cut (length (pending s ++ a))).
Qed.

(** C40: However a stream of model output is cut into chunks, the scanner attributes every
    byte of it in the same way (to the reasoning or to the answer), drops the same markers
    and separators, and ends in the same state, with the same bytes held back: feeding the
    chunks one by one agrees with feeding their concatenation at once.  So a marker that is
    split between two events is found like one that is not. *)
Theorem chunks_do_not_matter (s : Scanner) (c : chars) (cs : list chars) :
  labelled (fst (feeds s (c :: cs))) = labelled (fst (Feed s (c ++ concat cs))) /\
  snd (feeds s (c :: cs)) = snd (Feed s (c ++ concat cs)).
Proof.
  revert s c. induction cs as [|c' cs IH]; intros s c.
  - cbn [feeds concat]. rewrite app_nil_r. destruct (Feed s c) as [o s']. by rewrite app_nil_r.
  - destruct (Feed_split s c (concat (c' :: cs))) as [H1 H2]. rewrite H1, H2. cbn [concat].
    destruct (IH (snd (Feed s c)) c') as [K1 K2]. rewrite <- K1, <- K2. remember (c' :: cs) as l. cbn [feeds].
    destruct (Feed s c) as [o s']. cbn [fst snd]. destruct (feeds s' l) as [o2 s2]. cbn [fst snd].
    by rewrite labelled_app.
Qed.

(** *** Without a marker nothing moves *)
Lemma labelled_texts l : map snd (labelled l) = texts l.
Proof.
  induction l as [|s l IH]; [done|]. unfold labelled, texts in *. cbn [map concat]. rewrite map_app, IH, map_map.
  by rewrite map_id.
Qed.
(** Inside a section, while no marker has come: what was given out and what is held back is
    what came in, and nothing of it is called the other kind. *)
Lemma inert s c : flipped (snd (Feed s c)) = false -> atStart s = false ->
  labelled (fst (Feed s c)) ++ map (pair (inThink s)) (pending (snd (Feed s c))) = map (pair (inThink s)) (pending s ++ c) /\
  inThink (snd (Feed s c)) = inThink s /\ atStart (snd (Feed s c)) = false.
Proof.
  assert (Hsticky : forall f s d, flipped s = true -> flipped (snd (feed f s d)) = true).
  { induction f as [|f IH]; intros s0 d Hs; [done|]. cbn [feed]. destruct d; [done|].
    destruct (if atStart s0 then _ else _); [|done]. destruct (Index _ _); [|done].
    specialize (IH (mkScanner (negb (inThink s0)) [] true true) (drop (n + length (marker (inThink s0))) l) eq_refl).
    by destruct (feed f _ _). }
  unfold Feed. intros Hf Ha. destruct (pending s ++ c) as [|x d] eqn:E; [by cbn in *|]. rewrite feed_body in * by done.
  cbn [atStart inThink flipped] in *. rewrite Ha in *. unfold body in *. destruct (Index _ _) as [i|].
  - specialize (Hsticky (length (x :: d)) (mkScanner (negb (inThink s)) [] true true) (drop (i + length (marker (inThink s))) (x :: d)) eq_refl).
    destruct (feed _ _ _) as [out s']. cbn [snd] in *. congruence.
  - cbn [fst snd pending inThink atStart]. by rewrite labelled_segment, <- map_app, take_drop.
Qed.

(** ** The downstream blocks

    A stream of events is balanced from the open block [o]: a block is started with none
    open, a delta and a stop are for the open one. *)
Definition event_index (p : jmap) : option json := p !! "index"%string.
Fixpoint balanced (o : option Z) (l : list output) : option (option Z) :=
  match l with
  | [] => Some o
  | Raw _ :: r => balanced o r
  | Event name p :: r =>
    match o, event_index p with
    | None, Some (JInt i) => if String.eqb name "content_block_start" then balanced (Some i) r else None
    | Some j, Some (JInt i) =>
      if negb (i =? j) then None
      else if String.eqb name "content_block_delta" then balanced o r
      else if String.eqb name "content_block_stop" then balanced None r else None
    | _, _ => None
    end
  end.
Lemma balanced_app o a b : balanced o (a ++ b) = (x ← balanced o a; balanced x b).
Proof.
  revert o. induction a as [|[f|name p] a IH]; intros o; [done|apply IH|]. cbn [balanced app].
  destruct o as [j|]; destruct (event_index p) as [[| | i | | | |]|]; try done.
  - destruct (negb (i =? j)); [done|]. destruct (String.eqb name "content_block_delta"); [apply IH|].
    destruct (String.eqb name "content_block_stop"); [apply IH|done].
  - destruct (String.eqb name "content_block_start"); [apply IH|done].
Qed.
Lemma index_of_start i k : event_index (block_start i k) = Some (JInt i).
Proof. reflexivity. Qed.
Lemma index_of_delta i d f x : event_index (block_delta i d f x) = Some (JInt i).
Proof. reflexivity. Qed.
Lemma index_of_stop i : event_index (block_stop i) = Some (JInt i).
Proof. reflexivity. Qed.
Definition open_block (w : rewriter) : option Z := sy_idx <$> w_cur w.
Lemma closeCur_balanced w : balanced (open_block w) (fst (closeCur w)) = Some None /\ w_cur (snd (closeCur w)) = None.
Proof.
  unfold closeCur, open_block. destruct (w_cur w) as [c|] eqn:E; [|done]. cbn [fst snd fmap option_fmap option_map].
  split; [|done]. unfold stop_event. cbn [balanced]. by rewrite index_of_stop, Z.eqb_refl.
Qed.
Lemma ensureOpen_balanced i up think w :
  balanced (open_block w) (fst (ensureOpen i up think w)) = Some (open_block (snd (ensureOpen i up think w))) /\
  exists c, w_cur (snd (ensureOpen i up think w)) = Some c /\ sy_up c = i /\ sy_thinking c = think.
Proof.
  unfold ensureOpen. destruct (match w_cur w with Some c => _ | None => false end) eqn:E.
  - cbn [fst snd]. split; [done|]. destruct (w_cur w) as [c|]; [|done]. exists c. apply andb_prop in E as [E1 E2].
    apply Z.eqb_eq in E1. apply Bool.eqb_prop in E2. done.
  - pose proof (closeCur_balanced w) as [H1 H2]. destruct (closeCur w) as [o w']. cbn [fst snd] in *.
    unfold allocIdx. cbv beta iota zeta. cbn [fst snd]. rewrite balanced_app, H1. cbn [mbind option_bind balanced]. rewrite index_of_start. split; [done|]. by eexists.
Qed.
Lemma emit_segment_balanced i up s w :
  balanced (open_block w) (fst (emit_segment i up s w)) = Some (open_block (snd (emit_segment i up s w))).
Proof.
  unfold emit_segment. pose proof (ensureOpen_balanced i up (sg_Thinking s) w) as (H1 & c & H2 & _ & _).
  destruct (ensureOpen _ _ _ w) as [o w']. cbn [fst snd] in *. case_bool_decide; [done|]. cbn [fst snd].
  rewrite balanced_app, H1. unfold open_block. rewrite H2. cbn [mbind option_bind balanced fmap option_fmap option_map].
  by rewrite index_of_delta, Z.eqb_refl.
Qed.
Lemma emit_all_balanced i up l : forall w,
  balanced (open_block w) (fst (emit_all i up l w)) = Some (open_block (snd (emit_all i up l w))).
Proof.
  induction l as [|s l IH]; intros w; [done|]. cbn [emit_all]. pose proof (emit_segment_balanced i up s w) as H1.
  destruct (emit_segment i up s w) as [o1 w1]. specialize (IH w1). destruct (emit_all i up l w1) as [o2 w2].
  cbn [fst snd] in *. by rewrite balanced_app, H1.
Qed.
(** What the rewriter writes for the text of a delta once a marker has been seen is
    bracketed: every synthetic block is started before its deltas, closed before the next
    is started, and the block that stays open is the one the rewriter records. *)
Lemma emitSegments_balanced i up segs w :
  balanced (open_block w) (fst (emitSegments i up segs w)) = Some (open_block (snd (emitSegments i up segs w))).
Proof. apply emit_all_balanced. Qed.

(** ** The indices of the blocks

    The blocks that the rewriter itself starts, by the index it gives them. *)
Definition start_of (o : output) : list Z :=
  match o with
  | Raw _ => []
  | Event _ p => if String.eqb (str_at p "type") "content_block_start" then
      match event_index p with Some (JInt i) => [i] | _ => [-1] end else []
  end.
Definition starts (l : list output) : list Z := concat (map start_of l).
Lemma starts_app a b : starts (a ++ b) = starts a ++ starts b.
Proof. unfold starts. by rewrite map_app, concat_app. Qed.
Lemma start_of_start n i k : start_of (Event n (block_start i k)) = [i].
Proof. reflexivity. Qed.
Lemma start_of_delta n i d f x : start_of (Event n (block_delta i d f x)) = [].
Proof. reflexivity. Qed.
Lemma start_of_stop i : start_of (stop_event i) = [].
Proof. reflexivity. Qed.
Lemma str_at_index m v k : k <> "index"%string -> str_at (<["index"%string := v]> m) k = str_at m k.
Proof. intros Hk. unfold str_at. by rewrite lookup_insert_ne by congruence. Qed.
Lemma start_of_moved n m i : start_of (Event n (<["index"%string := JInt i]> m)) =
  if String.eqb (str_at m "type") "content_block_start" then [i] else [].
Proof. unfold start_of, event_index. rewrite str_at_index, lookup_insert_eq by done. done. Qed.

(** [k] indices one after the other, and the one that comes next. *)
Fixpoint alloc (n : Z) (k : nat) : list Z := match k with O => [] | S j => n :: alloc (i64 (n + 1)) j end.
Fixpoint after (n : Z) (k : nat) : Z := match k with O => n | S j => after (i64 (n + 1)) j end.
Lemma alloc_app n a b : alloc n (a + b) = alloc n a ++ alloc (after n a) b.
Proof. revert n. induction a as [|a IH]; intros n; [done|]. cbn. by rewrite IH. Qed.
Lemma after_add n a b : after n (a + b) = after (after n a) b.
Proof. revert n. induction a as [|a IH]; intros n; [done|]. apply IH. Qed.

(** In rewrite mode an operation takes the next indices, and stays in rewrite mode. *)
Definition takes (w : rewriter) (r : list output * rewriter) : Prop :=
  exists k, starts (fst r) = alloc (w_nextSynth w) k /\ w_nextSynth (snd r) = after (w_nextSynth w) k /\
            w_rewriting (snd r) = w_rewriting w.
Lemma takes_none w o w' : starts o = [] -> w_nextSynth w' = w_nextSynth w -> w_rewriting w' = w_rewriting w -> takes w (o, w').
Proof. intros H1 H2 H3. by exists 0%nat. Qed.
Lemma takes_seq w o1 w1 o2 w2 : takes w (o1, w1) -> takes w1 (o2, w2) -> takes w (o1 ++ o2, w2).
Proof.
  intros (k1 & A1 & B1 & C1) (k2 & A2 & B2 & C2). exists (k1 + k2)%nat. cbn [fst snd] in *.
  rewrite starts_app, A1, A2, alloc_app, after_add, B2, C2, C1, B1. done.
Qed.
Lemma takes_closeCur w : takes w (closeCur w).
Proof. unfold closeCur. destruct (w_cur w); by apply takes_none. Qed.
Lemma takes_allocIdx w w' n p : start_of (Event n p) = [w_nextSynth w] -> w_nextSynth w' = i64 (w_nextSynth w + 1) ->
  w_rewriting w' = w_rewriting w -> takes w ([Event n p], w').
Proof. intros H1 H2 H3. exists 1%nat. unfold starts. cbn [fst snd map concat]. rewrite H1. done. Qed.
Lemma takes_ensureOpen i up t w : takes w (ensureOpen i up t w).
Proof.
  unfold ensureOpen. destruct (match w_cur w with Some c => _ | None => false end); [by apply takes_none|].
  pose proof (takes_closeCur w) as Hc. destruct (closeCur w) as [o w']. cbv [allocIdx]. eapply takes_seq; [exact Hc|].
  by apply takes_allocIdx; [apply start_of_start|..].
Qed.
Lemma takes_emit_segment i up s w : takes w (emit_segment i up s w).
Proof.
  unfold emit_segment. pose proof (takes_ensureOpen i up (sg_Thinking s) w) as Ho. destruct (ensureOpen _ _ _ w) as [o w'].
  case_bool_decide; [exact Ho|]. eapply takes_seq; [exact Ho|]. apply takes_none; [|done..].
  unfold starts. cbn [map concat]. by rewrite start_of_delta.
Qed.
Lemma takes_emitSegments i up l w : takes w (emitSegments i up l w).
Proof.
  unfold emitSegments. generalize (mergeSegments l). clear l. intros l. revert w.
  induction l as [|s l IH]; intros w; [by apply takes_none|]. cbn [emit_all]. pose proof (takes_emit_segment i up s w) as Hs.
  destruct (emit_segment i up s w) as [o1 w1]. specialize (IH w1). destruct (emit_all i up l w1) as [o2 w2].
  by eapply takes_seq.
Qed.

Section Dense.
Context `{Truncates}.
Lemma takes_onBlockStart name frame msg w : w_rewriting w = true -> str_at msg "type" = "content_block_start"%string ->
  takes w (onBlockStart name frame msg w).
Proof.
  intros Hr Ht. unfold onBlockStart. rewrite Hr. cbn [negb]. pose proof (takes_closeCur w) as Hc.
  destruct (closeCur w) as [o w']. destruct (negb _).
  - cbv [allocIdx]. eapply takes_seq; [exact Hc|]. apply takes_allocIdx; [|done..]. rewrite start_of_moved, Ht. done.
  - rewrite <- (app_nil_r o). eapply takes_seq; [exact Hc|]. by apply takes_none.
Qed.
Lemma takes_onBlockDelta name frame msg w : w_rewriting w = true -> str_at msg "type" = "content_block_delta"%string ->
  takes w (onBlockDelta name frame msg w).
Proof.
  intros Hr Ht. unfold onBlockDelta. rewrite Hr. cbn [negb].
  assert (Hfw : forall up, takes w ([Event name (<["index"%string := JInt (up_synthIdx up)]> msg)], w)).
  { intros up. apply takes_none; [|done..]. unfold starts. cbn [map concat]. by rewrite start_of_moved, Ht. }
  destruct (negb _ && negb _).
  - destruct (_ !! _); [apply Hfw|by apply takes_none].
  - destruct (_ !! _) as [up|]; [|by apply takes_none]. destruct (up_otherBlock up); [apply Hfw|].
    destruct (Feed _ _) as [segs sc]. destruct (takes_emitSegments (asInt (msg !! "index"%string)) up segs (with_sc sc w)) as (k & Hk).
    exists k. exact Hk.
Qed.
Lemma takes_onBlockStop frame msg w : w_rewriting w = true -> takes w (onBlockStop frame msg w).
Proof.
  intros Hr. unfold onBlockStop. rewrite Hr. cbn [negb]. destruct (_ !! _) as [up|]; [|by apply takes_none].
  destruct (match w_cur _ with Some c => _ | None => false end).
  { destruct (takes_closeCur (with_blocks (delete (asInt (msg !! "index"%string)) (w_blocks w)) w)) as (k & Hk). by exists k. }
  destruct (up_otherBlock up); [by apply takes_none|]. destruct (negb _); [|by apply takes_none].
  exists 1%nat. cbv [allocIdx with_blocks]. cbn [fst snd w_nextSynth w_rewriting]. unfold starts. cbn [map concat].
  by rewrite start_of_start, start_of_stop.
Qed.
Lemma takes_on_frame frame w : w_rewriting w = true -> takes w (on_frame frame w).
Proof.
  intros Hr. unfold on_frame. destruct (parseSSEFrame frame) as [[name data]|]; [|by apply takes_none].
  set (msg := match parse data with Some (JObj l) => map_of l | _ => ∅ end). set (typ := str_at msg "type").
  assert (Hgo : forall n, takes w (if String.eqb typ "content_block_start" then onBlockStart n frame msg w
      else if String.eqb typ "content_block_delta" then onBlockDelta n frame msg w
      else if String.eqb typ "content_block_stop" then onBlockStop frame msg w
      else let '(closed, w) := (if String.eqb typ "message_stop" then closeCur w else ([], w)) in (closed ++ [Raw frame], w))).
  { intros n. destruct (String.eqb_spec typ "content_block_start"); [by apply takes_onBlockStart|].
    destruct (String.eqb_spec typ "content_block_delta"); [by apply takes_onBlockDelta|].
    destruct (String.eqb typ "content_block_stop"); [by apply takes_onBlockStop|].
    destruct (String.eqb typ "message_stop"); [|by apply takes_none]. pose proof (takes_closeCur w) as Hc.
    destruct (closeCur w) as [o w']. eapply takes_seq; [exact Hc|]. by apply takes_none. }
  destruct (parse data) as [[]|]; try (by apply takes_none); apply Hgo.
Qed.
Lemma takes_on_frames l : forall w, w_rewriting w = true -> takes w (on_frames l w).
Proof.
  induction l as [|f l IH]; intros w Hr; cbn [on_frames].
  - unfold finish. destruct (takes_closeCur (with_sc (snd (Flush (w_sc w))) w)) as (k & Hk). by exists k.
  - pose proof (takes_on_frame f w Hr) as Hf. destruct (on_frame f w) as [o1 w1]. specialize (IH w1).
    destruct (on_frames l w1) as [o2 w2]. eapply takes_seq; [exact Hf|]. apply IH. destruct Hf as (k & _ & _ & Hx). by rewrite <- Hr.
Qed.

(** Until the switch nothing is started. *)
Lemma raw_frame frame w : w_rewriting w = false -> w_cur w = None ->
  starts (fst (on_frame frame w)) = [] /\ w_rewriting (snd (on_frame frame w)) = false /\ w_cur (snd (on_frame frame w)) = None \/
  exists w1, w_rewriting w1 = true /\ takes w1 (on_frame frame w).
Proof.
  intros Hr Hc. unfold on_frame. destruct (parseSSEFrame frame) as [[name data]|]; [|by left].
  set (msg := match parse data with Some (JObj l) => map_of l | _ => ∅ end). set (typ := str_at msg "type").
  assert (Hgo : forall n, let r := (if String.eqb typ "content_block_start" then onBlockStart n frame msg w
      else if String.eqb typ "content_block_delta" then onBlockDelta n frame msg w
      else if String.eqb typ "content_block_stop" then onBlockStop frame msg w
      else let '(closed, w) := (if String.eqb typ "message_stop" then closeCur w else ([], w)) in (closed ++ [Raw frame], w)) in
    starts (fst r) = [] /\ w_rewriting (snd r) = false /\ w_cur (snd r) = None \/ exists w1, w_rewriting w1 = true /\ takes w1 r).
  { intros n. cbv zeta. destruct (String.eqb_spec typ "content_block_start"); [unfold onBlockStart; rewrite Hr; by left|].
    destruct (String.eqb_spec typ "content_block_delta").
    - unfold onBlockDelta. rewrite Hr. cbn [negb]. destruct (_ && _); [by left|]. unfold raw_delta.
      destruct (Feed _ _) as [segs sc]. destruct (negb (Flipped sc)).
      + left. cbn [fst snd with_sc w_rewriting w_cur]. split; [|done]. case_bool_decide; [done|]. case_bool_decide; [done|].
        unfold starts. cbn [map concat]. by rewrite start_of_delta.
      + right. match goal with |- context [emitSegments ?i ?up ?l ?w1] => exists w1; split; [done|apply takes_emitSegments] end.
    - destruct (String.eqb typ "content_block_stop"); [unfold onBlockStop; rewrite Hr; by left|].
      destruct (String.eqb typ "message_stop"); [|by left]. unfold closeCur. rewrite Hc. by left. }
  destruct (parse data) as [[]|]; try (by left); apply Hgo.
Qed.

(** The content blocks that the rewriter starts in a response, those of the reasoning,
    of the answer and of the tools alike, are numbered one after the other from some first
    index: none is skipped and none is given twice (up to the wrap of the counter), whatever
    bytes the upstream sends. *)
Theorem indices_are_dense (stream : chars) : exists first count, starts (rewrite_stream stream) = alloc first count.
Proof.
  unfold rewrite_stream. generalize (frames (length stream) stream). intros l.
  assert (Hgo : forall l w, w_rewriting w = false -> w_cur w = None -> exists n k, starts (fst (on_frames l w)) = alloc n k).
  { clear. induction l as [|f l IH]; intros w Hr Hc; cbn [on_frames].
    - exists 0, 0%nat. unfold finish, closeCur. cbn [with_sc w_cur]. by rewrite Hc.
    - destruct (raw_frame f w Hr Hc) as [(H1 & H2 & H3)|(w1 & Hw & k1 & A & B & C)].
      + destruct (on_frame f w) as [o1 w1]. cbn [fst snd] in *. destruct (IH w1 H2 H3) as (n & k & Hk).
        destruct (on_frames l w1) as [o2 w2]. exists n, k. cbn [fst] in *. by rewrite starts_app, H1.
      + destruct (on_frame f w) as [o1 w2]. cbn [fst snd] in *. rewrite Hw in C. destruct (takes_on_frames l w2 C) as (k2 & D & _).
        destruct (on_frames l w2) as [o2 w3]. exists (w_nextSynth w1), (k1 + k2)%nat. cbn [fst] in *.
        by rewrite starts_app, A, D, B, alloc_app. }
  by apply Hgo.
Qed.
End Dense.

(** ** What the rewriting does on small messages

    Single quotes stand for double ones. *)
Definition requoted (s : string) : chars := map (fun c => if Ascii.eqb c "'" then "034"%char else c) (chars_of s).
Definition no_fractions : Truncates := {| trunc := fun _ => 0 |}.
(** What a client is told of an event: its type, its index, and the text of a delta. *)
Definition shown (o : output) : option (string * Z * string) :=
  match o with
  | Raw _ => None
  | Event _ p =>
    let d := obj_at p "delta" in
    Some (str_at p "type", match event_index p with Some (JInt i) => i | _ => -1 end, str_at d "text" +:+ str_at d "thinking")
  end%string.
Definition sse (l : list string) : chars := concat (map (fun t => chars_of "data: " ++ requoted t ++ [newline; newline]) l).
(** A marker split between two events: the answer's block is closed, the reasoning gets
    block 1 and what follows it block 2; the upstream's stop closes that one. *)
Example leak_in_a_stream :
  map shown (rewrite_stream (H := no_fractions) (sse
    ["{'type':'content_block_start','index':0,'content_block':{'type':'text','text':''}}";
     "{'type':'content_block_delta','index':0,'delta':{'type':'text_delta','text':'hi <|open'}}";
     "{'type':'content_block_delta','index':0,'delta':{'type':'text_delta','text':'|>think<|sep|>why<|close|>think ok'}}";
     "{'type':'content_block_stop','index':0}"]%string)) =
  [None; Some ("content_block_delta", 0, "hi "); Some ("content_block_stop", 0, "");
   Some ("content_block_start", 1, ""); Some ("content_block_delta", 1, "why"); Some ("content_block_stop", 1, "");
   Some ("content_block_start", 2, ""); Some ("content_block_delta", 2, " ok"); Some ("content_block_stop", 2, "")]%string.
Proof. vm_compute. reflexivity. Qed.

(** The texts of a rewritten message's blocks, with the number of members of each. *)
Definition blocks_of (r : res (option json)) : list (string * nat) :=
  match r with
  | Ok (Some (JObj l)) =>
    match map_of l !! "content"%string with
    | Some (JArr items) => map (fun j => match j with
        | JObj m => ((str_at (map_of m) "text" +:+ str_at (map_of m) "thinking")%string, length m) | _ => (EmptyString, 0%nat) end) items
    | _ => [] end
  | _ => []
  end.
(** A text that ends in what could begin a marker loses its end, although the message has
    no marker. *)
Example plain_text_is_cut :
  blocks_of (RewriteAnthropicMessage (requoted "{'content':[{'type':'text','text':'if a <'}]}")) = [("if a ", 2%nat)]%string.
Proof. vm_compute. reflexivity. Qed.
(** Once a marker was seen, the later blocks of the message are written anew, and a thinking
    block loses its signature. *)
Example signature_is_lost :
  blocks_of (RewriteAnthropicMessage (requoted
    "{'content':[{'type':'text','text':'x<|open|>thinky'},{'type':'thinking','thinking':'deep','signature':'s'}]}")) =
  [("x", 2%nat); ("y", 2%nat); ("deep", 2%nat)]%string.
Proof. vm_compute. reflexivity. Qed.
(** While no marker has come the scanner may hold back, and drops a leading separator: what
    it gave out is not what it was fed. *)
Example unflipped_text_differs :
  let '(out, s) := Feed (Seed NewScanner false) (chars_of "<|sep|>a<") in
  (Flipped s, text_of (texts out)) = (false, "a"%string).
Proof. vm_compute. reflexivity. Qed.
