(* ===== verification/Gate.v ===== *)
(** * internal/gate/inspect.go: what a request may cost

    [Inspect] reads the service and route off the path and the model, the streaming
    mode and the token ceilings off the body, and hands the request on with a body of
    the same bytes, or with its output fields lowered to the ceiling.  The buffer that
    held the bytes comes from a pool of the process and returns to it before the
    request is forwarded, so the memory behind the new body is modelled: arrays, the
    pool, and readers that alias an array.  A panic is [None]. *)
From Stdlib Require Import ZArith Lia Strings.Ascii Strings.String.
From stdpp Require Import base gmap strings list fin_maps sorting.
From S2P Require Import Prelude Sha256 Base58 GoText Json.

Open Scope Z_scope.
Local Open Scope go_scope.

Definition InspectCap : Z := 1048576.
Definition MaxBody : Z := 67108864.

Record Plan := mkPlan {
  pl_Service : string; pl_Route : string; pl_Model : string; pl_Streaming : bool; pl_IncludeUsage : bool;
  pl_InputCeiling : Z; pl_OutputCeiling : Z; pl_Generative : bool; pl_Supported : bool }.
Record Options := mkOptions { OutputMax : Z }.

(** ** The path *)
Fixpoint cut (sep : ascii) (l : chars) : option (chars * chars) :=
  match l with
  | [] => None
  | c :: r => if Ascii.eqb c sep then Some ([], r)
              else match cut sep r with Some (a, b) => Some (c :: a, b) | None => None end
  end.
Definition CutPrefix (s p : string) : option string :=
  if HasPrefix s p then Some (TrimPrefix p s) else None.

Definition routePrefix : string := "/v1/service/".
Definition serviceOf (path : string) : string :=
  match CutPrefix path routePrefix with
  | None => ""%string
  | Some rest =>
    match cut "/" (chars_of rest) with
    | Some (svc, _) => text_of svc
    | None => ""%string
    end
  end.
Definition clip48 (s : string) : string := text_of (take 48 (chars_of s)).
Definition routeOf (path : string) : string :=
  match CutPrefix path routePrefix with
  | None => ""%string
  | Some rest =>
    match cut "/" (chars_of rest) with
    | Some (_, tail) => clip48 (TrimPrefix "v1/" (text_of tail))
    | None => ""%string
    end
  end.

Definition generativeRoutes : list string := ["chat/completions"; "completions"; "messages"; "responses"]%string.
Definition classifyRoute (route : string) : bool * bool :=
  if String.eqb route "" then (false, false)
  else if bool_decide (route ∈ generativeRoutes) then (true, true)
  else if String.eqb route "embeddings" then (false, true)
  else (false, false).

(** ** The body's fields *)
Record bodyShape := mkShape {
  sh_Model : string; sh_Streaming : bool; sh_IncludeUsage : bool;
  sh_MaxTokens : option Z; sh_MaxCompletion : option Z; sh_MaxOutputTokens : option Z }.
Definition zeroShape : bodyShape := mkShape "" false false None None None.

(** The next token, or the decoder as it is when there is none. *)
Definition next (d : Decoder) : option token * Decoder :=
  match Token d with Some (t, d') => (Some t, d') | None => (None, d) end.

Definition readIntPtr (d : Decoder) : option Z * Decoder :=
  let '(t, d) := next d in
  (match t with
   | Some (TNumber (JInt z)) => if bool_decide (in_i64 z) && (z >? 0) then Some z else None
   | _ => None
   end, d).

Fixpoint skip_loop (fuel : nat) (depth : Z) (d : Decoder) : Decoder :=
  match fuel with
  | O => d
  | S k =>
    match Token d with
    | None => d
    | Some (TDelim c, d) =>
      if (Ascii.eqb c "{" || Ascii.eqb c "[")%char then skip_loop k (depth + 1) d
      else if depth - 1 <=? 0 then d else skip_loop k (depth - 1) d
    | Some (_, d) => if depth =? 0 then d else skip_loop k depth d
    end
  end.
Definition skipValue (d : Decoder) : Decoder := skip_loop (fuel_for (d_rest d)) 0 d.

Fixpoint usage_loop (fuel : nat) (d : Decoder) : bool * Decoder :=
  match fuel with
  | O => (false, d)
  | S k =>
    match next d with
    | (Some (TString key), d) =>
      if String.eqb key "include_usage" then
        let '(v, d) := next d in (match v with Some (TBool b) => b | _ => false end, d)
      else usage_loop k (skipValue d)
    | (_, d) => (false, d)
    end
  end.
Definition readIncludeUsage (d : Decoder) : bool * Decoder :=
  match next d with
  | (Some (TDelim "{"%char), d) => usage_loop (fuel_for (d_rest d)) d
  | (_, d) => (false, d)
  end.

Definition read_field (key : string) (d : Decoder) (s : bodyShape) : bodyShape * Decoder :=
  let '(mkShape model streaming usage mt mc mo) := s in
  if String.eqb key "model" then
    let '(v, d) := next d in
    (mkShape (match v with Some (TString m) => m | _ => model end) streaming usage mt mc mo, d)
  else if String.eqb key "stream" then
    let '(v, d) := next d in
    (mkShape model (match v with Some (TBool b) => b | _ => streaming end) usage mt mc mo, d)
  else if String.eqb key "max_tokens" then
    let '(v, d) := readIntPtr d in (mkShape model streaming usage v mc mo, d)
  else if String.eqb key "max_completion_tokens" then
    let '(v, d) := readIntPtr d in (mkShape model streaming usage mt v mo, d)
  else if String.eqb key "max_output_tokens" then
    let '(v, d) := readIntPtr d in (mkShape model streaming usage mt mc v, d)
  else if String.eqb key "stream_options" then
    let '(v, d) := readIncludeUsage d in (mkShape model streaming v mt mc mo, d)
  else (s, skipValue d).

Fixpoint shape_loop (fuel : nat) (d : Decoder) (s : bodyShape) : bodyShape :=
  match fuel with
  | O => s
  | S k =>
    match next d with
    | (Some (TString key), d) => let '(s, d) := read_field key d s in shape_loop k d s
    | _ => s
    end
  end.
Definition decodeShape (b : chars) : bodyShape :=
  match next (NewDecoder b) with
  | (Some (TDelim "{"%char), d) => shape_loop (fuel_for b) d zeroShape
  | _ => zeroShape
  end.

(** ** Ceilings *)
Definition positive (o : option Z) : list Z := match o with Some m => if m >? 0 then [m] else [] | None => [] end.
Definition resolveOutputCeiling (generative : bool) (mt mc mo : option Z) (opts : Options) : Z :=
  if negb generative then 0
  else match positive mt ++ positive mc ++ positive mo ++ positive (Some (OutputMax opts)) with
       | [] => 0
       | c :: r => foldl Z.min c r
       end.
Definition ceilingFromLength (length : Z) : Z := if (length <? 0) || (length >? MaxBody) then 0 else length.

Definition maxFieldKeys : list string := ["max_tokens"; "max_completion_tokens"; "max_output_tokens"]%string.
Definition maxFieldForRoute (route : string) : string :=
  if String.eqb route "responses" then "max_output_tokens" else "max_tokens".

(** [strconv.Itoa], of a value that is not negative. *)
Fixpoint itoa_digits (fuel : nat) (n : Z) (acc : chars) : chars :=
  match fuel with
  | O => acc
  | S k => let acc := byte_ascii (48 + n mod 10) :: acc in if n <? 10 then acc else itoa_digits k (n / 10) acc
  end.
Definition Itoa (n : Z) : chars :=
  if n <? 0 then "-"%char :: itoa_digits 20 (- n) [] else itoa_digits 20 n [].

(** One recognized field: the members, whether one was rewritten, whether one is a
    positive bound. *)
Definition clamp_field (ceiling : Z) (acc : gmap string chars * bool * bool) (key : string)
    : gmap string chars * bool * bool :=
  let '(m, rewritten, bounded) := acc in
  match m !! key with
  | None => acc
  | Some raw =>
    match unmarshal_int raw with
    | Err _ => acc
    | Ok cur =>
      let bounded := bounded || (cur >? 0) in
      if cur >? ceiling then (<[key := Itoa ceiling]> m, true, bounded) else (m, rewritten, bounded)
    end
  end.
Definition clamped (route : string) (ceiling : Z) (m : gmap string chars) : gmap string chars * bool :=
  let '(m, rewritten, bounded) := fold_left (clamp_field ceiling) maxFieldKeys (m, false, false) in
  if bounded then (m, rewritten) else (<[maxFieldForRoute route := Itoa ceiling]> m, true).

(** [None] is the panic of an assignment into a nil map; [Some None] keeps the body. *)
Definition rewriteOutputCeiling (body : chars) (route : string) (ceiling : Z) : option (option chars) :=
  match unmarshal_map body with
  | Err _ => Some None
  | Ok None => None
  | Ok (Some m) => let '(m, rewritten) := clamped route ceiling m in
                   Some (if rewritten then Some (marshal_map m) else None)
  end.

(** ** The request *)
Notation header := (gmap string (list string)).
Definition header_get (k : string) (h : header) : string :=
  match h !! k with Some (v :: _) => v | _ => ""%string end.
Definition header_set (k v : string) (h : header) : header := <[k := [v]]> h.

(** A part of a body: bytes still on the connection, ending in EOF or an error; a slice
    of an array; bytes of its own. *)
Inductive part :=
  | Conn (data : chars) (eof : bool)
  | Slice (array len : nat)
  | Own (data : chars).
Record Request := mkRequest {
  rq_Method : string; rq_Path : string; rq_Header : header; rq_ContentLength : Z;
  rq_Body : option (list part);
  rq_Account : option string;     (* the account the context carries *)
  rq_BillingID : option string }. (* the reservation the context carries *)
Definition with_body (b : list part) (h : header) (n : Z) (r : Request) : Request :=
  mkRequest (rq_Method r) (rq_Path r) h n (Some b) (rq_Account r) (rq_BillingID r).

(** The process's memory for the buffers. *)
Record mem := mkMem { m_arrays : gmap nat chars; m_pool : list nat; m_next : nat }.

(** What reading a body to its end yields; an error of the connection cuts it off. *)
Definition read_part (m : mem) (p : part) : chars * bool :=
  match p with
  | Conn data eof => (data, eof)
  | Slice a n => (take n (default [] (m_arrays m !! a)), true)
  | Own data => (data, true)
  end.
Fixpoint read_parts (m : mem) (l : list part) : chars * bool :=
  match l with
  | [] => ([], true)
  | p :: r => match read_part m p with
              | (d, false) => (d, false)
              | (d, true) => let '(d', ok) := read_parts m r in (d ++ d', ok)
              end
  end.

Fixpoint takeZ (n : Z) (l : chars) : chars :=
  match l with [] => [] | c :: r => if n <=? 0 then [] else c :: takeZ (n - 1) r end.
Fixpoint dropZ (n : Z) (l : chars) : chars :=
  match l with [] => [] | c :: r => if n <=? 0 then l else dropZ (n - 1) r end.
Definition lenZ (l : chars) : Z := Z.of_nat (length l).

(** What becomes of the body. *)
Inductive bodyFate :=
  | Rewritten (new : chars)          (* a new slice, with its length set *)
  | Verbatim                         (* the buffer, with its length set *)
  | Restored (rest : chars).         (* the buffer and the unread rest *)

(** [inspectBody] on a body of [data], ending in EOF or an error: the plan, the
    buffer's bytes and the fate of the body. *)
Definition inspectBody (data : chars) (eof : bool) (cl : Z) (p : Plan) (opts : Options)
    : option (Plan * chars * bodyFate) :=
  let limit := if (cl >=? 0) && (cl <? InspectCap) then cl else InspectCap in
  let buf := takeZ limit data in
  let rest := dropZ limit data in
  let shape := decodeShape buf in
  let '(buf, rest, input, supported) :=
    if (cl >=? 0) && (cl <=? MaxBody) then (buf, rest, cl, pl_Supported p)
    else if cl >? MaxBody then (buf, rest, 0, false)
    else
      let n := MaxBody - lenZ buf in
      let more := takeZ n rest in
      let buf' := buf ++ more in
      if (lenZ more <? n) && eof then (buf', dropZ n rest, lenZ buf', pl_Supported p)
      else (buf', dropZ n rest, MaxBody, false) in
  let output := resolveOutputCeiling (pl_Generative p) (sh_MaxTokens shape) (sh_MaxCompletion shape)
                  (sh_MaxOutputTokens shape) opts in
  let supported := supported && negb (pl_Generative p && (output =? 0)) in
  let plan := mkPlan (pl_Service p) (pl_Route p) (sh_Model shape) (sh_Streaming shape) (sh_IncludeUsage shape)
                input output (pl_Generative p) supported in
  if supported && pl_Generative p && (output >? 0) then
    let buf := if (cl <? 0) || (cl >? lenZ buf) then buf ++ takeZ (MaxBody - lenZ buf) rest else buf in
    match rewriteOutputCeiling buf (pl_Route p) output with
    | None => None
    | Some (Some new) => Some (plan, buf, Rewritten new)
    | Some None => Some (plan, buf, Verbatim)
    end
  else Some (plan, buf, Restored rest).

(** Where the pool's [Get] takes the buffer from, and whether filling it outgrew the
    array after a number of bytes. *)
Record choice := mkChoice { from_pool : option nat; outgrown : option nat }.

(** [Get]: the array and the pool without it. *)
Definition pool_get (g : choice) (m : mem) : nat * mem :=
  match from_pool g with
  | Some i =>
    match m_pool m !! i with
    | Some a => (a, mkMem (m_arrays m) (delete i (m_pool m)) (m_next m))
    | None => (m_next m, mkMem (<[m_next m := []]> (m_arrays m)) (m_pool m) (S (m_next m)))
    end
  | None => (m_next m, mkMem (<[m_next m := []]> (m_arrays m)) (m_pool m) (S (m_next m)))
  end.
Definition overwrite (new old : chars) : chars := new ++ drop (length new) old.
(** The array that holds the bytes in the end. *)
Definition pool_fill (g : choice) (a : nat) (buf : chars) (m : mem) : nat * mem :=
  let old := default [] (m_arrays m !! a) in
  match outgrown g with
  | None => (a, mkMem (<[a := overwrite buf old]> (m_arrays m)) (m_pool m) (m_next m))
  | Some k => (m_next m, mkMem (<[m_next m := buf]> (<[a := overwrite (take k buf) old]> (m_arrays m)))
                           (m_pool m) (S (m_next m)))
  end.
Definition pool_put (a : nat) (m : mem) : mem := mkMem (m_arrays m) (a :: m_pool m) (m_next m).

Definition set_length (n : Z) (h : header) : header := header_set "Content-Length" (text_of (Itoa n)) h.

Definition Inspect (g : choice) (opts : Options) (rq : Request) (m : mem) : option (Plan * Request) * mem :=
  let route := routeOf (rq_Path rq) in
  let '(generative, supported) := classifyRoute route in
  let p := mkPlan (serviceOf (rq_Path rq)) route "" false false 0 0 generative supported in
  let cl := rq_ContentLength rq in
  match rq_Body rq with
  | None =>
    let output := resolveOutputCeiling generative None None None opts in
    (Some (mkPlan (pl_Service p) route "" false false (ceilingFromLength cl) output generative
             (supported && negb (generative && (output =? 0))), rq), m)
  | Some parts =>
    let '(data, eof) := read_parts m parts in
    let '(a, m) := pool_get g m in
    match inspectBody data eof cl p opts with
    | None => (None, pool_put a m)
    | Some (plan, buf, fate) =>
      let '(a, m) := pool_fill g a buf m in
      let h := rq_Header rq in
      (Some (plan, match fate with
        | Rewritten new => with_body [Own new] (set_length (lenZ new) h) (lenZ new) rq
        | Verbatim => with_body [Slice a (length buf)] (set_length (lenZ buf) h) (lenZ buf) rq
        | Restored rest => with_body [Slice a (length buf); Conn rest eof] h cl rq
        end), pool_put a m)
    end
  end.
