(* ===== verification/GateSpec.v ===== *)
(** * What the inspection of a request guarantees *)
From Stdlib Require Import ZArith Lia Strings.Ascii Strings.String.
From stdpp Require Import base gmap strings list fin_maps sorting.
From S2P Require Import Prelude Sha256 Base58 GoText Json Gate.

Open Scope Z_scope.

(** ** Decimal numbers read back *)
Lemma byte_digit d : 0 <= d < 10 -> ascii_Z (byte_ascii (48 + d)) = 48 + d.
Proof.
  intros Hd. assert (Hc : d = 0 \/ d = 1 \/ d = 2 \/ d = 3 \/ d = 4 \/ d = 5 \/ d = 6 \/ d = 7 \/ d = 8 \/ d = 9) by lia.
  repeat (destruct Hc as [->|Hc]; [reflexivity|]). by subst.
Qed.

Lemma digit_value_byte d : 0 <= d < 10 -> digit_value (byte_ascii (48 + d)) = Some d.
Proof.
  intros Hd. unfold digit_value. rewrite byte_digit by done.
  destruct (Z.leb_spec 48 (48 + d)), (Z.leb_spec (48 + d) 57); simpl; try lia. f_equal. lia.
Qed.

Lemma parse_digits_app acc l1 l2 v : parse_digits acc l1 = Some v -> parse_digits acc (l1 ++ l2) = parse_digits v l2.
Proof.
  revert acc. induction l1 as [|c l1 IH]; intros acc; simpl; [by intros [= ->]|].
  destruct (digit_value c); [apply IH|done].
Qed.

Lemma itoa_digits_app fuel n acc : itoa_digits fuel n acc = itoa_digits fuel n [] ++ acc.
Proof.
  revert n acc. induction fuel as [|k IH]; intros n acc; simpl; [done|].
  destruct (n <? 10); [done|]. rewrite IH, (IH _ [_]). by rewrite <- app_assoc.
Qed.

Lemma itoa_parse fuel n : 0 <= n < 10 ^ Z.of_nat fuel -> (0 < fuel)%nat ->
  parse_digits 0 (itoa_digits fuel n []) = Some n /\ Forall (fun c => is_digit c = true) (itoa_digits fuel n []) /\
  itoa_digits fuel n [] <> [] /\ (0 < n -> forall r, itoa_digits fuel n [] <> "0"%char :: r).
Proof.
  revert n. induction fuel as [|k IH]; intros n Hn Hf; [lia|]. simpl.
  assert (Hd : 0 <= n mod 10 < 10) by (apply Z.mod_pos_bound; lia).
  assert (Hdig : is_digit (byte_ascii (48 + n mod 10)) = true)
    by (unfold is_digit; rewrite byte_digit by done; lia).
  destruct (Z.ltb_spec n 10).
  - rewrite Z.mod_small in * by lia. split; [simpl; rewrite digit_value_byte by lia; f_equal; lia|].
    split; [by constructor|]. split; [done|]. intros Hp r [= E _].
    assert (H0 : ascii_Z (byte_ascii (48 + n)) = 48) by (by rewrite E). rewrite byte_digit in H0; lia.
  - destruct k as [|k]; [simpl in Hn; lia|].
    assert (Hq : 0 <= n / 10 < 10 ^ Z.of_nat (S k)).
    { split; [apply Z.div_pos; lia|]. apply Z.div_lt_upper_bound; [lia|].
      replace (Z.of_nat (S (S k))) with (Z.succ (Z.of_nat (S k))) in Hn by lia. rewrite Z.pow_succ_r in Hn; lia. }
    destruct (IH (n / 10) Hq ltac:(lia)) as (Hp & Hall & Hne & Hz). rewrite itoa_digits_app.
    split; [|split; [|split]].
    + erewrite parse_digits_app by exact Hp. simpl. rewrite digit_value_byte by done. f_equal.
      pose proof (Z.div_mod n 10). lia.
    + apply Forall_app. split; [done|by constructor].
    + destruct (itoa_digits (S k) (n / 10) []); done.
    + intros _ r E. destruct (itoa_digits (S k) (n / 10) []) as [|c l] eqn:El; [done|]. simpl in E.
      injection E as -> _. eapply (Hz (Z.div_str_pos n 10 ltac:(lia))). done.
Qed.

Lemma digits_all l : Forall (fun c => is_digit c = true) l -> digits l = (l, []).
Proof. induction 1 as [|c l Hc Hl IH]; simpl; [done|]. by rewrite Hc, IH. Qed.

Lemma is_digit_cases c : is_digit c = true ->
  c = "0"%char \/ c = "1"%char \/ c = "2"%char \/ c = "3"%char \/ c = "4"%char \/ c = "5"%char \/
  c = "6"%char \/ c = "7"%char \/ c = "8"%char \/ c = "9"%char.
Proof.
  destruct c as [[] [] [] [] [] [] [] []]; vm_compute; intros H; try discriminate H; tauto.
Qed.

Lemma unmarshal_Itoa n : 0 < n -> in_i64 n -> unmarshal_int (Itoa n) = Ok n.
Proof.
  intros Hn Hi. unfold unmarshal_int, Itoa. destruct (Z.ltb_spec n 0); [lia|].
  destruct (itoa_parse 20 n) as (Hp & Hall & Hne & Hz); [unfold_i64; lia|lia|].
  destruct (itoa_digits 20 n []) as [|c l] eqn:E; [done|].
  assert (Hparse : parse (c :: l) = Some (JInt n)); [|by rewrite Hparse; simpl; case_bool_decide].
  pose proof (digits_all _ Hall) as Hd. inversion Hall as [|? ? Hc Hl]; subst.
  assert (c <> "0"%char) as Hc0 by (intros ->; by eapply (Hz Hn)).
  unfold parse, fuel_for. cbn [value].
  apply is_digit_cases in Hc. destruct Hc as [->|Hc]; [done|].
  assert (Hv : number_text (c :: l) = Some (c :: l, [], [])).
  { unfold number_text. repeat (destruct Hc as [->|Hc]; [cbv beta iota; by rewrite Hd|]). subst c. cbv beta iota. by rewrite Hd. }
  assert (Hnv : number_value (c :: l) [] = JInt n).
  { unfold number_value. rewrite bool_decide_eq_true_2 by done.
    assert (Hpn : parse_nat (c :: l) = Some n) by (unfold parse_nat; by rewrite bool_decide_eq_false_2 by done).
    repeat (destruct Hc as [->|Hc]; [cbv beta iota zeta; by rewrite Hpn|]). subst c. cbv beta iota zeta. by rewrite Hpn. }
  assert (Hs : scalar (c :: l) = Some (JInt n, [])).
  { unfold scalar. repeat (destruct Hc as [->|Hc]; [cbv beta iota; rewrite Hv; by rewrite Hnv|]). subst c. cbv beta iota.
    rewrite Hv. by rewrite Hnv. }
  repeat (destruct Hc as [->|Hc]; [simpl skip_space; cbv beta iota; by rewrite Hs|]). subst c.
  simpl skip_space. cbv beta iota. by rewrite Hs.
Qed.

(** ** The output fields *)
(** The members bound the output: every recognized field that is an integer is at most
    the ceiling, and one of them is positive. *)
Definition at_most (ceiling : Z) (m : gmap string chars) (key : string) : Prop :=
  forall raw v, m !! key = Some raw -> unmarshal_int raw = Ok v -> v <= ceiling.
Definition positive_bound (m : gmap string chars) : Prop :=
  exists key raw v, key ∈ maxFieldKeys /\ m !! key = Some raw /\ unmarshal_int raw = Ok v /\ 0 < v.
Definition bounds_output (ceiling : Z) (m : gmap string chars) : Prop :=
  (forall key, key ∈ maxFieldKeys -> at_most ceiling m key) /\ positive_bound m.

Section Clamp.
Context (ceiling : Z) (Hpos : 0 < ceiling) (Hin : in_i64 ceiling).

(** The state of the loop over the recognized keys. *)
Definition clamp_ok (m0 : gmap string chars) (done_ : list string) (acc : gmap string chars * bool * bool) : Prop :=
  let '(m, rewritten, bounded) := acc in
  (forall key, key ∈ done_ -> at_most ceiling m key) /\
  (forall key, key ∉ done_ -> m !! key = m0 !! key) /\
  (bounded = true -> positive_bound m) /\
  (bounded = false -> forall key raw v, key ∈ done_ -> m !! key = Some raw -> unmarshal_int raw = Ok v -> v <= 0) /\
  (rewritten = false -> m = m0).

Lemma clamp_field_ok m0 done_ acc key :
  key ∈ maxFieldKeys -> key ∉ done_ -> clamp_ok m0 done_ acc -> clamp_ok m0 (done_ ++ [key]) (clamp_field ceiling acc key).
Proof.
  destruct acc as [[m rewritten] bounded]. intros Hk Hnew (H1 & H2 & H3 & H4 & H5). unfold clamp_field.
  assert (Hsnoc : forall x, x ∈ done_ ++ [key] -> x ∈ done_ \/ x = key) by set_solver.
  destruct (m !! key) as [raw|] eqn:Em.
  - destruct (unmarshal_int raw) as [cur|e] eqn:Er.
    + rewrite !Z.gtb_ltb. destruct (Z.ltb_spec ceiling cur) as [Hgt|Hle].
      * split; [|split; [|split; [|split]]]; [| | | |done].
        -- intros x [Hx| ->]%Hsnoc r v.
           ++ rewrite lookup_insert_ne by set_solver. by apply H1.
           ++ rewrite lookup_insert_eq. intros [= <-]. rewrite unmarshal_Itoa by done. intros [= <-]. lia.
        -- intros x Hx. rewrite lookup_insert_ne by set_solver. apply H2. set_solver.
        -- intros _. exists key, (Itoa ceiling), ceiling. rewrite lookup_insert_eq, unmarshal_Itoa by done. done.
        -- destruct (Z.ltb_spec 0 cur); [by rewrite orb_true_r|lia].
      * split; [|split; [|split; [|split]]]; [| | | |done].
        -- intros x [Hx| ->]%Hsnoc; [by apply H1|]. intros r v E1 E2. assert (v = cur) as -> by congruence. done.
        -- intros x Hx. apply H2. set_solver.
        -- destruct bounded; simpl; [auto|]. intros Hc. exists key, raw, cur. split; [done|]. split; [done|]. split; [done|]. lia.
        -- intros Hb x r v [Hx| ->]%Hsnoc E1 E2; apply orb_false_iff in Hb as [Hb Hc]; [by eapply H4|].
           assert (v = cur) as -> by congruence. lia.
    + split; [|split; [|split; [|split]]]; [| |done| |done].
      * intros x [Hx| ->]%Hsnoc; [by apply H1|]. intros r v E1 E2. congruence.
      * intros x Hx. apply H2. set_solver.
      * intros Hb x r v [Hx| ->]%Hsnoc E1 E2; [by eapply H4|congruence].
  - split; [|split; [|split; [|split]]]; [| |done| |done].
    + intros x [Hx| ->]%Hsnoc; [by apply H1|]. intros r v E1. congruence.
    + intros x Hx. apply H2. set_solver.
    + intros Hb x r v [Hx| ->]%Hsnoc E1 E2; [by eapply H4|congruence].
Qed.

Lemma maxFieldForRoute_in route : maxFieldForRoute route ∈ maxFieldKeys.
Proof. unfold maxFieldForRoute. destruct (String.eqb _ _); unfold maxFieldKeys; set_solver. Qed.

Lemma clamped_ok route m :
  let '(m', rewritten) := clamped route ceiling m in
  bounds_output ceiling m' /\ (forall key, key ∉ maxFieldKeys -> m' !! key = m !! key) /\ (rewritten = false -> m' = m).
Proof.
  unfold clamped.
  assert (H : clamp_ok m maxFieldKeys (fold_left (clamp_field ceiling) maxFieldKeys (m, false, false))).
  { assert (H0 : clamp_ok m [] (m, false, false)).
    { split; [intros ? Hx; by apply elem_of_nil in Hx|]. split; [done|]. split; [done|]. split; [|done]. intros _ key raw v Hx. by apply elem_of_nil in Hx. }
    unfold maxFieldKeys. cbn [fold_left].
    apply (clamp_field_ok m ["max_tokens"; "max_completion_tokens"]%string); [unfold maxFieldKeys; set_solver|set_solver|].
    apply (clamp_field_ok m ["max_tokens"]%string); [unfold maxFieldKeys; set_solver|set_solver|].
    apply (clamp_field_ok m []); [unfold maxFieldKeys; set_solver|set_solver|done]. }
  destruct (fold_left _ _ _) as [[m1 rewritten] bounded]. destruct H as (H1 & H2 & H3 & H4 & H5).
  destruct bounded.
  - split; [split; [done|by apply H3]|]. split; [done|done].
  - pose proof (maxFieldForRoute_in route) as Hr. split; [split|split; [|done]].
    + intros key Hk raw v. rewrite lookup_insert_Some. intros [[_ <-]|[_ E]].
      * rewrite unmarshal_Itoa by done. intros [= <-]. lia.
      * intros Ev. by eapply H1.
    + exists (maxFieldForRoute route), (Itoa ceiling), ceiling. rewrite lookup_insert_eq, unmarshal_Itoa by done. done.
    + intros key Hk. rewrite lookup_insert_ne by congruence. by apply H2.
Qed.
End Clamp.

(** ** The bytes *)
Lemma lenZ_nonneg l : 0 <= lenZ l.
Proof. unfold lenZ. lia. Qed.
Lemma lenZ_cons c l : lenZ (c :: l) = 1 + lenZ l.
Proof. unfold lenZ. simpl length. lia. Qed.
Lemma lenZ_app l1 l2 : lenZ (l1 ++ l2) = lenZ l1 + lenZ l2.
Proof. unfold lenZ. rewrite length_app. lia. Qed.
Lemma take_dropZ n l : takeZ n l ++ dropZ n l = l.
Proof. revert n. induction l as [|c l IH]; intros n; simpl; [done|]. destruct (n <=? 0); [done|]. simpl. by rewrite IH. Qed.
Lemma takeZ_all n l : lenZ l <= n -> takeZ n l = l /\ dropZ n l = [].
Proof.
  revert n. induction l as [|c l IH]; intros n Hn; simpl; [done|]. rewrite lenZ_cons in Hn.
  pose proof (lenZ_nonneg l). destruct (Z.leb_spec n 0); [lia|]. destruct (IH (n - 1)) as [-> ->]; [lia|done].
Qed.
Lemma takeZ_le n l : 0 <= n -> lenZ (takeZ n l) <= n.
Proof.
  revert n. induction l as [|c l IH]; intros n Hn; simpl; [done|]. destruct (Z.leb_spec n 0); [done|].
  rewrite lenZ_cons. specialize (IH (n - 1)). lia.
Qed.
Lemma takeZ_short n l : lenZ (takeZ n l) < n -> dropZ n l = [] /\ takeZ n l = l.
Proof.
  revert n. induction l as [|c l IH]; intros n Hn; simpl in *; [done|]. destruct (Z.leb_spec n 0); [unfold lenZ in Hn; simpl in Hn; lia|].
  rewrite lenZ_cons in Hn. destruct (IH (n - 1)) as [-> ->]; [lia|done].
Qed.

Lemma pool_fill_slice g a buf m a' m' b : pool_fill g a buf m = (a', m') ->
  read_part (pool_put b m') (Slice a' (length buf)) = (buf, true).
Proof.
  unfold pool_fill. destruct (outgrown g) as [k|]; intros [= <- <-]; simpl; rewrite lookup_insert_eq; simpl.
  - by rewrite firstn_all.
  - unfold overwrite. by rewrite take_app_length.
Qed.

Lemma min_all c l : Forall (fun x => 0 < x) (c :: l) -> 0 < foldl Z.min c l /\ Forall (fun x => foldl Z.min c l <= x) (c :: l).
Proof.
  revert c. induction l as [|d l IH]; intros c Hp; simpl.
  - inversion Hp; subst. split; [done|]. by repeat constructor.
  - inversion Hp as [|? ? Hc Hl]; subst. inversion Hl; subst.
    destruct (IH (Z.min c d)) as [Hm Hall]; [constructor; [lia|done]|]. split; [done|].
    inversion Hall; subst. repeat constructor; [lia|lia|done].
Qed.

Lemma positive_all o : Forall (fun x => 0 < x) (positive o).
Proof. destruct o as [z|]; simpl; [|done]. destruct (z >? 0) eqn:E; repeat constructor; lia. Qed.

(** The output ceiling is 0 when nothing bounds it, and otherwise the least bound. *)
Lemma resolve_ceiling generative mt mc mo opts :
  let c := resolveOutputCeiling generative mt mc mo opts in
  c = 0 \/ (generative = true /\ 0 < c /\ (0 < OutputMax opts -> c <= OutputMax opts) /\
            forall o z, o ∈ [mt; mc; mo] -> o = Some z -> 0 < z -> c <= z).
Proof.
  unfold resolveOutputCeiling. destruct generative; simpl negb; cbv zeta beta iota; [|by left].
  destruct (positive mt ++ positive mc ++ positive mo ++ positive (Some (OutputMax opts))) as [|c l] eqn:E; [by left|right].
  assert (Hp : Forall (fun x => 0 < x) (c :: l)).
  { rewrite <- E. repeat (apply Forall_app; split); apply positive_all. }
  destruct (min_all c l Hp) as [H1 H2]. split; [done|]. split; [done|].
  assert (Hin : forall z, z ∈ c :: l -> foldl Z.min c l <= z) by (intros z; by apply Forall_forall).
  rewrite <- E in Hin. split.
  - intros Hm. apply Hin. rewrite !elem_of_app. do 3 right. simpl. destruct (OutputMax opts >? 0) eqn:Eo; [by left|lia].
  - intros o z Ho -> Hz. apply Hin. rewrite !elem_of_app.
    assert (Hpz : z ∈ positive (Some z)) by (simpl; destruct (z >? 0) eqn:Ez; [by left|lia]).
    apply elem_of_cons in Ho as [<-|[<-|[<-|[]%elem_of_nil]%elem_of_cons]%elem_of_cons]; tauto.
Qed.

(** The fields the decoder reads are machine integers. *)
Definition small (o : option Z) : Prop := match o with Some z => in_i64 z | None => True end.
Definition shape_small (s : bodyShape) : Prop :=
  small (sh_MaxTokens s) /\ small (sh_MaxCompletion s) /\ small (sh_MaxOutputTokens s).
Lemma readIntPtr_small d : small (fst (readIntPtr d)).
Proof.
  unfold readIntPtr. destruct (next d) as [[t|] d']; simpl; [|done]. destruct t as [| | |j|]; try done.
  destruct j; try done. case_bool_decide; simpl; [|done]. by destruct (_ >? 0).
Qed.
Lemma read_field_small key d s : shape_small s -> shape_small (fst (read_field key d s)).
Proof.
  destruct s as [model st us mt mc mo]. intros (H1 & H2 & H3). unfold read_field.
  destruct (String.eqb key "model"); [by destruct (next d)|]. destruct (String.eqb key "stream"); [by destruct (next d)|].
  pose proof (readIntPtr_small d) as Hr. destruct (readIntPtr d) as [v d'].
  repeat (destruct (String.eqb _ _); [by try destruct (readIncludeUsage d)|]). done.
Qed.
Lemma decodeShape_small b : shape_small (decodeShape b).
Proof.
  unfold decodeShape. destruct (next _) as [[t|] d]; [|done]. destruct t as [c| | | |]; try done.
  assert (H : forall fuel d s, shape_small s -> shape_small (shape_loop fuel d s)).
  { clear. induction fuel as [|k IH]; intros d s Hs; simpl; [done|].
    destruct (next d) as [[t|] d']; [|done]. destruct t; try done.
    pose proof (read_field_small s0 d' s Hs). destruct (read_field s0 d' s) as [s' d2]. by apply IH. }
  assert (H0 : shape_small (shape_loop (fuel_for b) d zeroShape)) by by apply H.
  destruct c as [[] [] [] [] [] [] [] []]; done.
Qed.

(** What the decoded body is after the output fields were lowered, or left alone. *)
Definition lowered (ceiling : Z) (data out : chars) : Prop :=
  match unmarshal_map data with
  | Ok (Some o) =>
    exists o', bounds_output ceiling o' /\ (forall key, key ∉ maxFieldKeys -> o' !! key = o !! key) /\
      ((o' = o /\ out = data) \/ out = marshal_map o')
  | _ => out = data
  end.

Lemma rewrite_lowered data route ceiling r :
  0 < ceiling -> in_i64 ceiling -> rewriteOutputCeiling data route ceiling = Some r -> lowered ceiling data (default data r).
Proof.
  intros Hp Hi. unfold rewriteOutputCeiling, lowered. destruct (unmarshal_map data) as [[o|]|e]; [|done|by intros [= <-]].
  pose proof (clamped_ok ceiling Hp Hi route o) as Hc. destruct (clamped route ceiling o) as [o' rewritten].
  destruct Hc as (H1 & H2 & H3). intros [= <-]. exists o'. split; [done|]. split; [done|].
  destruct rewritten; simpl; [by right|left]. by rewrite H3.
Qed.

Lemma min_in c l : foldl Z.min c l ∈ c :: l.
Proof.
  revert c. induction l as [|d l IH]; intros c; simpl; [by left|].
  pose proof (IH (Z.min c d)) as H. apply elem_of_cons in H as [->|H]; [|by right; right].
  destruct (Z.min_spec c d) as [[_ ->]|[_ ->]]; [by left|by right; left].
Qed.
Lemma resolve_small generative s opts : shape_small s -> in_i64 (OutputMax opts) ->
  in_i64 (resolveOutputCeiling generative (sh_MaxTokens s) (sh_MaxCompletion s) (sh_MaxOutputTokens s) opts).
Proof.
  intros (H1 & H2 & H3) Hm. unfold resolveOutputCeiling. destruct (negb generative); [unfold_i64; lia|].
  assert (Hall : forall o z, small o -> z ∈ positive o -> in_i64 z).
  { intros [x|] z Hx; simpl; [|by intros ?%elem_of_nil]. destruct (x >? 0); [|by intros ?%elem_of_nil].
    intros ->%list_elem_of_singleton. done. }
  destruct (_ ++ _) as [|c l] eqn:E; [unfold_i64; lia|]. pose proof (min_in c l) as Hin. rewrite <- E in Hin.
  rewrite !elem_of_app in Hin. destruct Hin as [Hin|[Hin|[Hin|Hin]]]; eapply Hall; [|exact Hin| |exact Hin| |exact Hin| |exact Hin]; done.
Qed.

(** The part of the body [inspectBody] has read when it sizes the input: the buffer, the
    unread rest, the input ceiling and whether the request is still supported. *)
Definition sized (buf0 rest0 : chars) (eof : bool) (cl : Z) (supported : bool) : chars * chars * Z * bool :=
  if (cl >=? 0) && (cl <=? MaxBody) then (buf0, rest0, cl, supported)
  else if cl >? MaxBody then (buf0, rest0, 0, false)
  else
    let n := MaxBody - lenZ buf0 in
    let more := takeZ n rest0 in
    if (lenZ more <? n) && eof then (buf0 ++ more, dropZ n rest0, lenZ (buf0 ++ more), supported)
    else (buf0 ++ more, dropZ n rest0, MaxBody, false).

Lemma sized_ok data buf0 rest0 eof cl supported buf rest input sup :
  buf0 ++ rest0 = data -> (0 <= cl -> lenZ data <= cl) ->
  sized buf0 rest0 eof cl supported = (buf, rest, input, sup) ->
  buf ++ rest = data /\
  (sup = true -> supported = true /\ input = (if cl <? 0 then lenZ data else cl) /\ lenZ data <= MaxBody /\
     (if (cl <? 0) || (cl >? lenZ buf) then buf ++ takeZ (MaxBody - lenZ buf) rest else buf) = data).
Proof.
  intros H0 Hcl. unfold sized. cbv zeta. pose proof (lenZ_app buf0 rest0) as Hlen. rewrite H0 in Hlen.
  destruct (Z.geb_spec cl 0) as [Hge|Hlt]; simpl.
  - specialize (Hcl ltac:(lia)). destruct (Z.leb_spec cl MaxBody).
    + intros [= <- <- <- <-]. split; [done|]. intros Hs. destruct (Z.ltb_spec cl 0); [lia|]. simpl.
      do 2 (split; [done|]). split; [lia|]. rewrite Z.gtb_ltb. destruct (Z.ltb_spec (lenZ buf0) cl).
      * by rewrite (proj1 (takeZ_all (MaxBody - lenZ buf0) rest0 ltac:(lia))).
      * assert (Hr : rest0 = []); [|by rewrite Hr, app_nil_r in H0].
        destruct rest0 as [|c r]; [done|]. rewrite lenZ_cons in Hlen. pose proof (lenZ_nonneg r). lia.
    + destruct (Z.gtb_spec cl MaxBody); [|lia]. by intros [= <- <- <- <-].
  - destruct (Z.gtb_spec cl MaxBody); [unfold MaxBody in *; lia|].
    destruct (Z.ltb_spec (lenZ (takeZ (MaxBody - lenZ buf0) rest0)) (MaxBody - lenZ buf0)) as [Hs|Hs]; simpl.
    + destruct (takeZ_short _ _ Hs) as [Hd Ht]. rewrite Hd, Ht, H0. rewrite Ht in Hs.
      destruct eof; intros [= <- <- <- <-]; (split; [by rewrite app_nil_r|]); [|done].
      intros Hsp. destruct (Z.ltb_spec cl 0); [|lia]. simpl. rewrite app_nil_r. split; [done|]. split; [done|]. split; [lia|done].
    + intros [= <- <- <- <-]. split; [by rewrite <- app_assoc, take_dropZ|done].
Qed.

(** [inspectBody], when the body is no longer than its declared length. *)
Lemma inspectBody_spec data eof cl p opts plan buf fate :
  in_i64 (OutputMax opts) -> (0 <= cl -> lenZ data <= cl) ->
  inspectBody data eof cl p opts = Some (plan, buf, fate) ->
  pl_Service plan = pl_Service p /\ pl_Route plan = pl_Route p /\ pl_Generative plan = pl_Generative p /\
  (pl_Supported plan = true -> pl_Supported p = true /\ pl_InputCeiling plan = (if cl <? 0 then lenZ data else cl) /\ lenZ data <= MaxBody) /\
  (if pl_Supported plan && pl_Generative plan then
     0 < pl_OutputCeiling plan /\ in_i64 (pl_OutputCeiling plan) /\
     (0 < OutputMax opts -> pl_OutputCeiling plan <= OutputMax opts) /\
     match fate with
     | Rewritten new => lowered (pl_OutputCeiling plan) data new
     | Verbatim => buf = data /\ lowered (pl_OutputCeiling plan) data data
     | Restored _ => False
     end
   else exists rest, fate = Restored rest /\ buf ++ rest = data).
Proof.
  intros Hm Hcl. unfold inspectBody.
  set (limit := if (cl >=? 0) && (cl <? InspectCap) then cl else InspectCap). cbv zeta.
  set (shape := decodeShape (takeZ limit data)).
  fold (sized (takeZ limit data) (dropZ limit data) eof cl (pl_Supported p)).
  destruct (sized _ _ _ _ _) as [[[buf1 rest1] input] sup1] eqn:Ez.
  apply (sized_ok data) in Ez as [Hsplit Hsup]; [|apply take_dropZ|done].
  pose proof (resolve_ceiling (pl_Generative p) (sh_MaxTokens shape) (sh_MaxCompletion shape) (sh_MaxOutputTokens shape) opts) as Hres.
  pose proof (resolve_small (pl_Generative p) shape opts (decodeShape_small _) Hm) as Hi.
  set (output := resolveOutputCeiling _ _ _ _ _) in *. cbv zeta in Hres.
  destruct (sup1 && negb (pl_Generative p && (output =? 0))) eqn:Es.
  2: { simpl. intros [= <- <- <-]. simpl. do 3 (split; [done|]). split; [done|]. by exists rest1. }
  apply andb_prop in Es as [-> Hg]. destruct (Hsup eq_refl) as (Hsp & Hinp & Hlen & Hwhole).
  destruct (pl_Generative p) eqn:Egen; simpl in *.
  2: { intros [= <- <- <-]. simpl. do 3 (split; [done|]). split; [done|]. by exists rest1. }
  destruct Hres as [Hz|(_ & Hpos & Hmax & _)]; [rewrite Hz in Hg; done|].
  destruct (Z.gtb_spec output 0); [|lia]. rewrite Hwhole.
  destruct (rewriteOutputCeiling data (pl_Route p) output) as [r|] eqn:Er; [|done].
  pose proof (rewrite_lowered _ _ _ _ Hpos Hi Er) as Hlow.
  intros He. assert (He' : plan = mkPlan (pl_Service p) (pl_Route p) (sh_Model shape) (sh_Streaming shape) (sh_IncludeUsage shape)
      input output true true /\ buf = data /\ fate = match r with Some new => Rewritten new | None => Verbatim end).
  { by destruct r; simplify_eq. }
  destruct He' as (-> & -> & ->). simpl. do 3 (split; [done|]). split; [done|]. do 3 (split; [done|]).
  by destruct r.
Qed.

(** C35: [Inspect] does not change what it may not bound and bounds what it changes.  For
    a request whose body is no longer than its declared length, right after the call:
    an unsupported or input-only request is forwarded byte for byte, with its headers
    and length; a supported generative request has a positive output ceiling within the
    operator's, is forwarded whole, and its body is the original one, or the encoding
    of the same object with other output fields, in which every integer output field is
    at most the ceiling and one is positive; its input ceiling is at least its length. *)
Theorem Inspect_forwards g opts rq m parts data eof plan rq' m' :
  in_i64 (OutputMax opts) ->
  rq_Body rq = Some parts -> read_parts m parts = (data, eof) ->
  (0 <= rq_ContentLength rq -> lenZ data <= rq_ContentLength rq) ->
  Inspect g opts rq m = (Some (plan, rq'), m') ->
  let out := read_parts m' (default [] (rq_Body rq')) in
  let generative := fst (classifyRoute (routeOf (rq_Path rq))) in
  pl_Service plan = serviceOf (rq_Path rq) /\ pl_Generative plan = generative /\
  (pl_Supported plan = true -> lenZ data <= pl_InputCeiling plan) /\
  (if pl_Supported plan && generative then
     0 < pl_OutputCeiling plan /\ (0 < OutputMax opts -> pl_OutputCeiling plan <= OutputMax opts) /\
     lowered (pl_OutputCeiling plan) data (fst out) /\ snd out = true /\ rq_ContentLength rq' = lenZ (fst out)
   else out = (data, eof) /\ rq_ContentLength rq' = rq_ContentLength rq /\ rq_Header rq' = rq_Header rq).
Proof.
  intros Hm Hb Hd Hcl. unfold Inspect. rewrite Hb, Hd. cbv zeta.
  destruct (classifyRoute (routeOf (rq_Path rq))) as [generative supported] eqn:Ec. simpl fst.
  destruct (pool_get g m) as [a m1].
  destruct (inspectBody _ _ _ _ _) as [[[plan1 buf] fate]|] eqn:Ei; [|done].
  apply inspectBody_spec in Ei as (Hs & _ & Hg & Hsup & Hfate); [|done..]. simpl in Hs, Hg.
  destruct (pool_fill g a buf m1) as [a' m2] eqn:Ef. pose proof (pool_fill_slice _ _ _ _ _ _ a' Ef) as Hslice.
  intros He. assert (plan1 = plan) as -> by congruence.
  split; [done|]. split; [done|]. split.
  { intros Hp. destruct (Hsup Hp) as (_ & -> & _). destruct (Z.ltb_spec (rq_ContentLength rq) 0); lia. }
  rewrite Hg in Hfate. destruct (pl_Supported plan && generative).
  - destruct Hfate as (H1 & _ & H3 & Hf). split; [done|]. split; [done|].
    destruct fate as [new| |rest]; [|destruct Hf as [-> Hf]|done]; simplify_eq; simpl default; cbn [read_parts].
    + simpl. by rewrite app_nil_r.
    + rewrite Hslice. simpl. by rewrite app_nil_r.
  - destruct Hfate as (rest & -> & Hr). simplify_eq. simpl default. cbn [read_parts]. rewrite Hslice. simpl.
    split; [|done]. destruct eof; simpl; by rewrite ?app_nil_r.
Qed.

Lemma inspect_plain data p opts : pl_Generative p = false -> lenZ data <= InspectCap ->
  exists plan, inspectBody data true (lenZ data) p opts = Some (plan, data, Restored []).
Proof.
  intros Hg Hl. unfold inspectBody. cbv zeta. rewrite Hg.
  pose proof (lenZ_nonneg data). unfold MaxBody, InspectCap in *.
  assert (Ht : forall n, lenZ data <= n -> takeZ n data = data /\ dropZ n data = []) by (intros; by apply takeZ_all).
  destruct (Z.geb_spec (lenZ data) 0); [|lia]. destruct (Z.leb_spec (lenZ data) 67108864); [|lia]. cbv beta iota delta [andb].
  destruct (Z.ltb_spec (lenZ data) 1048576); [destruct (Ht (lenZ data)) as [-> ->]|destruct (Ht 1048576) as [-> ->]]; try lia;
    destruct (pl_Supported p); by eexists.
Qed.

(** A request on a route without output, with its body on the connection. *)
Definition plain (data : chars) (rq : Request) : Prop :=
  fst (classifyRoute (routeOf (rq_Path rq))) = false /\ rq_Body rq = Some [Conn data true] /\
  rq_ContentLength rq = lenZ data /\ lenZ data <= InspectCap.

Lemma Inspect_plain g opts rq data m : plain data rq ->
  exists plan, Inspect g opts rq m =
    let '(a, m1) := pool_get g m in let '(a', m2) := pool_fill g a data m1 in
    (Some (plan, with_body [Slice a' (length data); Conn [] true] (rq_Header rq) (lenZ data) rq), pool_put a' m2).
Proof.
  intros (Hc & Hb & Hl & Hcap). unfold Inspect. rewrite Hb, Hl. cbv zeta.
  destruct (classifyRoute (routeOf (rq_Path rq))) as [generative supported]. simpl in Hc. subst generative.
  cbn [read_parts read_part]. rewrite app_nil_r. destruct (pool_get g m) as [a m1].
  edestruct (inspect_plain data (mkPlan (serviceOf (rq_Path rq)) (routeOf (rq_Path rq)) "" false false 0 0 false supported) opts)
    as [plan ->]; [done|done|]. exists plan. by destruct (pool_fill g a data m1).
Qed.

(** the body a request is forwarded with lies in a buffer that [Inspect] has already
    given back to the pool.  If the next request's [Inspect] takes that buffer before
    the first request was sent, the first is sent with the bytes of the second: its
    prefix of the same length, for a second body at least as long. *)
Theorem pooled_body_overwritten g opts rqA rqB dataA dataB m planA rqA' mA :
  plain dataA rqA -> plain dataB rqB -> (length dataA <= length dataB)%nat ->
  Inspect g opts rqA m = (Some (planA, rqA'), mA) ->
  read_parts mA (default [] (rq_Body rqA')) = (dataA, true) /\
  let mB := snd (Inspect (mkChoice (Some 0%nat) None) opts rqB mA) in
  read_parts mB (default [] (rq_Body rqA')) = (take (length dataA) dataB, true).
Proof.
  intros HA HB Hlen HI. destruct (Inspect_plain g opts rqA dataA m HA) as [pA EA]. rewrite HI in EA.
  destruct (pool_get g m) as [a m1]. destruct (pool_fill g a dataA m1) as [a' m2] eqn:Ef. simplify_eq.
  pose proof (pool_fill_slice _ _ _ _ _ _ a' Ef) as Hs. simpl default. cbn [read_parts]. rewrite Hs. simpl.
  split; [by rewrite app_nil_r|].
  destruct (Inspect_plain (mkChoice (Some 0%nat) None) opts rqB dataB (pool_put a' m2) HB) as [pB ->].
  simpl. rewrite lookup_insert_eq. simpl. rewrite app_nil_r. f_equal. unfold overwrite.
  by rewrite take_app_le.
Qed.

(** a generative request whose body is the JSON text null panics: the text decodes
    into a nil map without an error, and the ceiling is then assigned into that map. *)
Theorem null_body_panics g opts rq m :
  rq_Body rq = Some [Conn (chars_of "null") true] -> rq_ContentLength rq = 4 ->
  classifyRoute (routeOf (rq_Path rq)) = (true, true) -> 0 < OutputMax opts ->
  fst (Inspect g opts rq m) = None.
Proof.
  intros Hb Hl Hc Ho. unfold Inspect. rewrite Hb, Hl, Hc. cbv zeta. cbn [read_parts read_part].
  destruct (pool_get g m) as [a m1].
  assert (E : inspectBody (chars_of "null" ++ []) true 4
    (mkPlan (serviceOf (rq_Path rq)) (routeOf (rq_Path rq)) "" false false 0 0 true true) opts = None); [|by rewrite E].
  destruct opts as [mx]. simpl in Ho. unfold inspectBody. simpl.
  unfold resolveOutputCeiling. simpl. destruct (Z.gtb_spec mx 0); [|lia]. simpl.
  destruct (Z.eqb_spec mx 0); [lia|]. simpl. by destruct (Z.gtb_spec mx 0); [|lia].
Qed.

(** A text with apostrophes for its quotes. *)
Definition quotes (s : string) : chars := map (fun c => if Ascii.eqb c "'" then "034"%char else c) (chars_of s).

(** the fields after stream_options are not read.  The reader of that object stops
    at include_usage, so the next token is the brace that closes it, which the outer
    loop takes for the end of the body: whatever follows, the plan has no model and no
    bound of the request's own. *)
Theorem stream_options_hide_the_rest rest :
  decodeShape (quotes "{'stream_options':{'include_usage':true}" ++ rest) = mkShape "" false true None None None.
Proof. reflexivity. Qed.

(** ** Concrete requests *)
Definition demo_request (path : string) (body : chars) : Request :=
  mkRequest "POST" path ∅ (lenZ body) (Some [Conn body true]) None None.
Definition demo_chat : string := "/v1/service/llm/v1/chat/completions".
Definition demo_embed : string := "/v1/service/llm/v1/embeddings".
Definition demo_mem : mem := mkMem ∅ [] 0.
Definition demo_choice : choice := mkChoice None None.

(** The plan, the request and the memory, when the request is inspected. *)
Definition inspected (path : string) (body : chars) (m : mem) : option (Plan * Request * mem) :=
  match Inspect demo_choice (mkOptions 64) (demo_request path body) m with
  | (Some (p, rq), m) => Some (p, rq, m)
  | (None, _) => None
  end.
Lemma inspected_Inspect path body m p rq m' : inspected path body m = Some (p, rq, m') ->
  Inspect demo_choice (mkOptions 64) (demo_request path body) m = (Some (p, rq), m').
Proof. unfold inspected. destruct (Inspect _ _ _ _) as [[[? ?]|] ?]; congruence. Qed.

Lemma Inspect_forwards_witness :
  exists plan rq' m',
    Inspect demo_choice (mkOptions 64) (demo_request demo_chat (quotes "{'max_tokens':100}")) demo_mem
      = (Some (plan, rq'), m') /\
    fst (read_parts m' (default [] (rq_Body rq'))) = quotes "{'max_tokens':64}" /\
    lowered (pl_OutputCeiling plan) (quotes "{'max_tokens':100}") (fst (read_parts m' (default [] (rq_Body rq')))).
Proof.
  assert (E : (fun '(p, rq, m) => (pl_Supported p, fst (read_parts m (default [] (rq_Body rq)))))
    <$> inspected demo_chat (quotes "{'max_tokens':100}") demo_mem = Some (true, quotes "{'max_tokens':64}"))
    by (vm_compute; reflexivity).
  apply fmap_Some in E as ([[plan rq'] m'] & E%inspected_Inspect & Ho). injection Ho as Hs Hout.
  exists plan, rq', m'. split; [exact E|]. split; [by symmetry|].
  pose proof (Inspect_forwards demo_choice (mkOptions 64) (demo_request demo_chat (quotes "{'max_tokens':100}"))
    demo_mem _ _ true plan rq' m' ltac:(simpl; unfold_i64; lia) eq_refl eq_refl ltac:(vm_compute; discriminate) E) as H.
  cbv zeta in H. rewrite <- Hs in H. destruct H as (_ & _ & _ & _ & _ & H & _). exact H.
Defined.

Lemma pooled_body_overwritten_witness :
  exists plan rq' mA,
    Inspect demo_choice (mkOptions 64) (demo_request demo_embed (quotes "{'input':'a'}")) demo_mem
      = (Some (plan, rq'), mA) /\
    let mB := snd (Inspect (mkChoice (Some 0%nat) None) (mkOptions 64) (demo_request demo_embed (quotes "{'input':'b'}")) mA) in
    read_parts mA (default [] (rq_Body rq')) = (quotes "{'input':'a'}", true) /\
    read_parts mB (default [] (rq_Body rq')) = (quotes "{'input':'b'}", true).
Proof.
  assert (E : (fun _ => ()) <$> inspected demo_embed (quotes "{'input':'a'}") demo_mem = Some ()) by (vm_compute; reflexivity).
  apply fmap_Some in E as ([[plan rq'] m'] & E%inspected_Inspect & _).
  exists plan, rq', m'. split; [exact E|].
  apply (pooled_body_overwritten demo_choice (mkOptions 64) (demo_request demo_embed (quotes "{'input':'a'}"))
    (demo_request demo_embed (quotes "{'input':'b'}")) (quotes "{'input':'a'}") (quotes "{'input':'b'}") demo_mem plan rq' m').
  - repeat split. vm_compute. discriminate.
  - repeat split. vm_compute. discriminate.
  - simpl. lia.
  - exact E.
Defined.

Lemma null_body_panics_witness :
  fst (Inspect demo_choice (mkOptions 64) (demo_request demo_chat (chars_of "null")) demo_mem) = None.
Proof. apply null_body_panics; [reflexivity..|simpl; lia]. Defined.
