(* ===== verification/JsonPrint.v ===== *)
(** * encoding/json: what is marshalled reads back

    [json.Marshal] of a struct of strings, integers and booleans, and the proof that the
    parser of Json.v returns its members.  A Go string that is not valid UTF-8 does
    not survive; a valid one does, whatever is escaped. *)
From Stdlib Require Import ZArith Lia Strings.Ascii Strings.String.
From stdpp Require Import base list strings.
From S2P Require Import Prelude Sha256 Base58 GoText Json Gate GateSpec.

Open Scope Z_scope.
Local Open Scope go_scope.

(** ** The printer *)
Definition print_scalar (j : json) : chars :=
  match j with
  | JStr s => quoted s
  | JInt z => Itoa z
  | JBool true => chars_of "true"
  | JBool false => chars_of "false"
  | _ => chars_of "null"
  end.
Fixpoint print_fields (l : list (string * json)) : chars :=
  match l with
  | [] => []
  | [(k, v)] => quoted k ++ ":"%char :: print_scalar v
  | (k, v) :: r => quoted k ++ ":"%char :: print_scalar v ++ ","%char :: print_fields r
  end.
(** [json.Marshal] of a struct, by its fields in order. *)
Definition MarshalStruct (l : list (string * json)) : chars := "{"%char :: print_fields l ++ ["}"%char].

(** A string that is valid UTF-8. *)
Fixpoint utf8 (fuel : nat) (l : chars) : bool :=
  match l, fuel with
  | [], _ => true
  | _, O => false
  | _, S k => match rune_len l with O => false | n => utf8 k (drop n l) end
  end.
Definition valid_string (s : string) : bool := utf8 (String.length s) (chars_of s).
Definition valid_scalar (j : json) : bool :=
  match j with
  | JStr s => valid_string s
  | JInt z => bool_decide (in_i64 z)
  | JBool _ => true
  | _ => false
  end.

(** ** Pieces of a string body

    A piece stands for some bytes: it goes through the scanner whole and is one step of
    the unquoting. *)
Definition piece (p s : chars) : Prop :=
  (forall r, string_body (p ++ r) = match string_body r with Some (x, t) => Some (p ++ x, t) | None => None end) /\
  (forall k r, unquote (S k) (p ++ r) = s ++ unquote k r).

Definition escaped (c : ascii) : chars :=
  let z := ascii_Z c in
  if z =? 34 then ["\"%char; c] else if z =? 92 then ["\"%char; c]
  else if z =? 8 then chars_of "\b" else if z =? 12 then chars_of "\f"
  else if z =? 10 then chars_of "\n" else if z =? 13 then chars_of "\r"
  else if z =? 9 then chars_of "\t"
  else if (z <? 32) || html_char z then u00 z else [c].

Lemma piece_escaped c : ascii_Z c < 128 -> piece (escaped c) [c].
Proof.
  intros Hc. destruct c as [[] [] [] [] [] [] [] []]; try (exfalso; revert Hc; vm_compute; congruence);
    (split; [intros r; reflexivity|intros k r; reflexivity]).
Qed.
Lemma piece_separator d : (d = 8 \/ d = 9) -> piece (u202 d) (map byte_ascii [226; 128; 168 + (d - 8)]).
Proof. intros [-> | ->]; (split; [intros r; reflexivity|intros k r; reflexivity]). Qed.

(** The shape of a sequence of more than one byte. *)
Lemma cont_high c : cont (ascii_Z c) = true -> 128 <= ascii_Z c.
Proof. unfold cont. lia. Qed.
Ltac rune_goal H1 :=
  match goal with
  | Hne : ?n%nat <> _, b : ascii |- exists u v, ?l = u ++ v /\ _ =>
    exists (take (pred n) l), (drop (pred n) l); cbn [pred take drop length app];
    split; [done|]; split;
    [|split; [repeat constructor; repeat match goal with H : _ && _ = true |- _ => apply andb_prop in H as [? ?] end;
              first [by apply cont_high|lia]|intros r]];
    unfold rune_len; cbn [app take map]; rewrite H1;
    repeat (match goal with
      | H : ?x = true |- context [?x] => rewrite H
      | H : ?x = false |- context [?x] => rewrite H end; cbn [andb]); done
  end.
Lemma rune_split a l : 128 <= ascii_Z a -> rune_len (a :: l) <> 0%nat ->
  exists u v, l = u ++ v /\ rune_len (a :: l) = S (length u) /\ Forall (fun c => 128 <= ascii_Z c) u /\
    forall r, rune_len (a :: u ++ r) = S (length u).
Proof.
  intros Ha. assert (H1 : (ascii_Z a <? 128) = false) by lia.
  destruct l as [|b l]; [|destruct l as [|c l]; [|destruct l as [|d l]]];
    (unfold rune_len at 1; cbn [take map]; rewrite H1;
     repeat match goal with |- context [if ?x then _ else _] =>
       lazymatch x with context [if _ then _ else _] => fail | _ => destruct x eqn:? end end;
     intros Hne; try (by destruct Hne)).
  all: rune_goal H1.
Qed.

Lemma piece_copied a u r0 : 128 <= ascii_Z a -> Forall (fun c => 128 <= ascii_Z c) u ->
  (forall r, rune_len (a :: u ++ r) = S (length u)) -> r0 = a :: u -> piece r0 r0.
Proof.
  intros Ha Hu Hn ->.
  assert (Hstep : forall c r, 128 <= ascii_Z c -> string_body (c :: r) =
    match string_body r with Some (x, t) => Some (c :: x, t) | None => None end).
  { intros c r' Hc. destruct c as [[] [] [] [] [] [] [] []]; first [exfalso; revert Hc; vm_compute; congruence|reflexivity]. }
  split; intros.
  - assert (Hall : Forall (fun c => 128 <= ascii_Z c) (a :: u)) by by constructor.
    clear -Hall Hstep. induction Hall as [|c u' Hc Hu' IH]; simpl app; [by destruct (string_body r) as [[]|]|].
    rewrite Hstep, IH by done. by destruct (string_body r) as [[]|].
  - assert (Hu1 : forall c k l, 128 <= ascii_Z c -> unquote (S k) (c :: l) =
      match rune_len (c :: l) with O => rune_error ++ unquote k l | n => take n (c :: l) ++ unquote k (drop n (c :: l)) end).
    { intros c k' l Hc. destruct c as [[] [] [] [] [] [] [] []]; first [exfalso; revert Hc; vm_compute; congruence|reflexivity]. }
    change ((a :: u) ++ r) with (a :: u ++ r). rewrite Hu1, Hn by done. cbn [take drop].
    by rewrite take_app_length, drop_app_length.
Qed.

Lemma line_separator_shape l d r : line_separator l = Some (d, r) ->
  (d = 8 \/ d = 9) /\ l = map byte_ascii [226; 128; 168 + (d - 8)] ++ r.
Proof.
  destruct l as [|a l]; [done|]. destruct a as [[] [] [] [] [] [] [] []]; try done.
  destruct l as [|b l]; [done|]. destruct b as [[] [] [] [] [] [] [] []]; try done.
  destruct l as [|c t]; [done|].
  destruct c as [[] [] [] [] [] [] [] []]; try done; intros [= <- <-]; (split; [by auto|done]).
Qed.

(** ** Strings *)
Lemma quote_step k c r : utf8 (S k) (c :: r) = true ->
  exists p s t, quote_body (S k) (c :: r) = p ++ quote_body k t /\ c :: r = s ++ t /\ piece p s /\
    utf8 k t = true /\ (length t <= length r)%nat /\ p <> [].
Proof.
  intros Hv. cbn [utf8] in Hv. cbn [quote_body].
  destruct (Z.ltb_spec (ascii_Z c) 128) as [Hc|Hc].
  - exists (escaped c), [c], r. split; [done|]. split; [done|]. split; [by apply piece_escaped|].
    destruct c as [[] [] [] [] [] [] [] []]; first [exfalso; revert Hc; vm_compute; congruence|by repeat split].
  - destruct (decide (rune_len (c :: r) = 0%nat)) as [E|E]; [by rewrite E in Hv|].
    destruct (rune_split c r Hc E) as (u & v & -> & Hn & Hu & Hall).
    rewrite Hn in Hv |- *. cbn [drop take] in Hv |- *. rewrite drop_app_length in Hv.
    destruct (line_separator (c :: u ++ v)) as [[d r']|] eqn:Els.
    + apply line_separator_shape in Els as [Hd Hl]. rewrite Hl in Hn |- *.
      assert (Hs : forall t, rune_len (map byte_ascii [226; 128; 168 + (d - 8)] ++ t) = 3%nat)
        by (intros t; by destruct Hd as [-> | ->]).
      rewrite Hs in Hn. destruct u as [|b1 [|b2 [|b3 u]]]; try done. injection Hl as -> -> -> ->.
      exists (u202 d), (map byte_ascii [226; 128; 168 + (d - 8)]), r'. repeat split; try done.
      1,2: by apply piece_separator. simpl; lia.
    + exists (c :: u), (c :: u), v. rewrite take_app_length, drop_app_length. repeat split; try done.
      1,2: by apply (piece_copied c u). rewrite length_app; lia.
Qed.

Lemma quote_scan n l r : (length l <= n)%nat -> utf8 n l = true ->
  string_body (quote_body n l ++ "034"%char :: r) = Some (quote_body n l, r).
Proof.
  revert l. induction n as [|n IH]; intros [|c t] Hl Hv; simpl in Hl; [done|lia|done|].
  destruct (quote_step n c t Hv) as (p & s & t' & -> & _ & [Hp _] & Hv' & Hlt & _).
  rewrite <- app_assoc, Hp, IH by (done || lia). done.
Qed.
Lemma quote_unquote n k l : (length l <= n)%nat -> (length (quote_body n l) <= k)%nat -> utf8 n l = true ->
  unquote k (quote_body n l) = l.
Proof.
  revert k l. induction n as [|n IH]; intros k [|c t] Hl Hk Hv; simpl in Hl; [by destruct k|lia|by destruct k|].
  destruct (quote_step n c t Hv) as (p & s & t' & E & Hst & [_ Hp] & Hv' & Hlt & Hne).
  rewrite E, length_app in Hk. rewrite E. destruct p as [|p0 p]; [done|]. simpl in Hk.
  destruct k as [|k]; [lia|]. rewrite Hp, IH by (done || lia). done.
Qed.

Lemma string_length_chars s : length (chars_of s) = String.length s.
Proof. induction s; simpl; by f_equal. Qed.

(** What the scanner makes of a printed string. *)
Lemma scan_quoted s r : valid_string s = true ->
  string_body (quote_body (String.length s) (chars_of s) ++ "034"%char :: r) =
    Some (quote_body (String.length s) (chars_of s), r) /\
  text_of (unquote (length (quote_body (String.length s) (chars_of s))) (quote_body (String.length s) (chars_of s))) = s.
Proof.
  intros Hv. pose proof (string_length_chars s). split; [apply quote_scan; [lia|done]|].
  rewrite quote_unquote by (done || lia). apply text_chars.
Qed.

(** ** Numbers *)
Definition stops (r : chars) : Prop := match r with c :: _ => c = ","%char \/ c = "}"%char | [] => False end.
Lemma digits_app d r : Forall (fun c => is_digit c = true) d -> stops r -> digits (d ++ r) = (d, r).
Proof.
  induction 1 as [|c d Hc _ IH]; intros Hr; simpl.
  - destruct r as [|c r]; [done|]. by destruct Hr as [-> | ->].
  - by rewrite Hc, IH.
Qed.
Lemma itoa_zero fuel : itoa_digits (S fuel) 0 [] = ["0"%char].
Proof. done. Qed.

Lemma number_digits d r : Forall (fun c => is_digit c = true) d -> d <> [] -> (forall x, d <> "0"%char :: x) \/ d = ["0"%char] ->
  stops r -> number_text (d ++ r) = Some (d, [], r) /\ number_text ("-"%char :: d ++ r) = Some ("-"%char :: d, [], r).
Proof.
  intros Hd Hne Hz Hr.
  assert (Hsign : match d ++ r with "-"%char :: t => (["-"%char], t) | _ => ([], d ++ r) end = ([], d ++ r)).
  { destruct d as [|c d]; [done|]. inversion Hd as [|? ? Hc _]; subst. simpl.
    by destruct c as [[] [] [] [] [] [] [] []]. }
  assert (Hint : match d ++ r with "0"%char :: t => (["0"%char], t) | _ => digits (d ++ r) end = (d, r)).
  { destruct Hz as [Hz | ->]; [|done]. destruct d as [|c d]; [done|].
    rewrite <- (digits_app _ r Hd Hr). simpl.
    destruct c as [[] [] [] [] [] [] [] []]; try done. by destruct (Hz d). }
  assert (Hfrac : match r with "."%char :: t => let '(d, t) := digits t in
      if bool_decide (d = []) then None else Some ("."%char :: d, t) | _ => Some ([], r) end = Some ([], r)).
  { destruct r as [|c r]; [done|]. by destruct Hr as [-> | ->]. }
  unfold number_text. rewrite Hsign. cbn beta iota. rewrite Hint. cbn beta iota.
  rewrite bool_decide_eq_false_2 by done. rewrite Hfrac. cbn beta iota.
  destruct r as [|c r]; [done|]. destruct Hr as [-> | ->]; done.
Qed.

Lemma ascii_digit (c : ascii) (P : ascii -> Prop) : is_digit c = true ->
  Forall P (chars_of "0123456789") -> P c.
Proof.
  intros Hc HP. repeat (apply Forall_cons in HP as [? HP]).
  destruct c as [[] [] [] [] [] [] [] []]; first [done|assumption].
Qed.

Lemma scalar_number d : Forall (fun c => is_digit c = true) d -> d <> [] ->
  (forall t, scalar (d ++ t) = match number_text (d ++ t) with Some (int, frac, u) => Some (number_value int frac, u) | None => None end).
Proof.
  intros Hd Hne t. destruct d as [|c d]; [done|]. inversion Hd as [|? ? Hc _]; subst.
  refine (ascii_digit c (fun c => scalar ((c :: d) ++ t) =
    match number_text ((c :: d) ++ t) with Some (int, frac, u) => Some (number_value int frac, u) | None => None end) Hc _).
  repeat constructor.
Qed.

Lemma number_value_parse d n : Forall (fun c => is_digit c = true) d -> d <> [] -> parse_digits 0 d = Some n ->
  number_value d [] = JInt n /\ number_value ("-"%char :: d) [] = JInt (- n).
Proof.
  intros Hd Hne Hp.
  assert (Hs : match d with "-"%char :: x => (true, x) | _ => (false, d) end = (false, d)).
  { destruct d as [|c d]; [done|]. inversion Hd as [|? ? Hc _]; subst. by destruct c as [[] [] [] [] [] [] [] []]. }
  unfold number_value. rewrite bool_decide_eq_true_2 by done. rewrite Hs. unfold parse_nat.
  rewrite bool_decide_eq_false_2 by done. by rewrite Hp.
Qed.

(** Ten digits fewer than twenty hold any int64. *)
Lemma digits_of n : 0 <= n <= two63 -> let d := itoa_digits 20 n [] in
  Forall (fun c => is_digit c = true) d /\ d <> [] /\ parse_digits 0 d = Some n /\
  ((forall x, d <> "0"%char :: x) \/ d = ["0"%char]).
Proof.
  intros Hn d. destruct (itoa_parse 20 n) as (Hp & Hall & Hne & Hz); [unfold_i64; lia|lia|].
  split; [done|]. split; [done|]. split; [done|]. destruct (Z.eq_dec n 0) as [->|]; [by right|left; apply Hz; lia].
Qed.

Lemma scalar_print j r : valid_scalar j = true -> stops r -> scalar (print_scalar j ++ r) = Some (j, r).
Proof.
  intros Hj Hr. destruct j as [|b|z|f|s|l|l]; try done; simpl in Hj.
  - by destruct b.
  - apply bool_decide_eq_true in Hj. unfold print_scalar, Itoa. destruct (Z.ltb_spec z 0).
    + destruct (digits_of (- z)) as (Hd & Hne & Hp & Hz); [unfold_i64; unfold in_i64 in Hj; lia|]. cbv zeta in *.
      set (d := itoa_digits 20 (- z) []) in *. destruct (number_digits d r Hd Hne Hz Hr) as [_ Hn].
      assert (Hs : scalar (("-"%char :: d) ++ r) = match number_text ("-"%char :: d ++ r) with
        Some (int, frac, u) => Some (number_value int frac, u) | None => None end) by done.
      rewrite Hs, Hn. destruct (number_value_parse d (- z)) as [_ ->]; try done. do 3 f_equal. lia.
    + destruct (digits_of z) as (Hd & Hne & Hp & Hz); [unfold_i64; unfold in_i64 in Hj; lia|]. cbv zeta in *.
      set (d := itoa_digits 20 z []) in *. destruct (number_digits d r Hd Hne Hz Hr) as [Hn _].
      rewrite scalar_number, Hn by done. by destruct (number_value_parse d z) as [-> _].
  - destruct (scan_quoted s r Hj) as [H1 H2]. unfold print_scalar, quoted. cbn [app]. rewrite <- app_assoc. cbn [app].
    unfold scalar. cbv beta iota. rewrite H1. cbv beta iota. by rewrite H2.
Qed.

(** ** Objects *)
Lemma value_print k depth j r : valid_scalar j = true -> stops r ->
  value (S k) depth (print_scalar j ++ r) = Some (j, r).
Proof.
  intros Hj Hr. rewrite <- (scalar_print j r Hj Hr).
  assert (Hhead : exists c t, print_scalar j ++ r = c :: t /\ is_space c = false /\ c <> "{"%char /\ c <> "["%char).
  { destruct j as [|b|z|f|s|l|l]; try done; [by destruct b; repeat eexists| |by repeat eexists]. simpl in Hj.
    apply bool_decide_eq_true in Hj. unfold print_scalar, Itoa. destruct (Z.ltb_spec z 0); [by repeat eexists|].
    destruct (digits_of z) as (Hd & Hne & _); [unfold_i64; unfold in_i64 in Hj; lia|]. cbv zeta in *.
    destruct (itoa_digits 20 z []) as [|c t]; [done|]. inversion Hd as [|? ? Hc _]; subst. exists c, (t ++ r).
    split; [done|]. refine (ascii_digit c (fun c => is_space c = false /\ c <> "{"%char /\ c <> "["%char) Hc _).
    repeat constructor; done. }
  destruct Hhead as (c & t & -> & Hs & H1 & H2). simpl. rewrite Hs.
  destruct c as [[] [] [] [] [] [] [] []]; try done.
Qed.

Lemma members_print l : forall k depth r, l <> [] -> Forall (fun kv => valid_string (fst kv) = true /\ valid_scalar (snd kv) = true) l ->
  (length l < k)%nat -> members k depth (print_fields l ++ "}"%char :: r) = Some (l, r).
Proof.
  induction l as [|[key v] l IH]; [done|]. intros k depth r _ Hl Hk. apply Forall_cons in Hl as [[Hkey Hv] Hl].
  destruct k as [|[|k]]; simpl in Hk; [lia|lia|].
  assert (Hq : forall t, quoted key ++ t = "034"%char :: quote_body (String.length key) (chars_of key) ++ "034"%char :: t).
  { intros t. unfold quoted. cbn [app]. by rewrite <- app_assoc. }
  assert (Hone : forall t, stops t -> members (S (S k)) depth (quoted key ++ ":"%char :: print_scalar v ++ t) =
    match skip_space t with
    | "}"%char :: t => Some ([(key, v)], t)
    | ","%char :: t => match members (S k) depth t with Some (ms, t) => Some ((key, v) :: ms, t) | None => None end
    | _ => None end).
  { intros t Ht. rewrite Hq. destruct (scan_quoted key (":"%char :: print_scalar v ++ t) Hkey) as [H1 H2].
    cbn [members].
    match goal with |- context [skip_space (?c :: ?x)] => change (skip_space (c :: x)) with (c :: x) end.
    cbv iota beta. rewrite H1. cbv iota beta.
    match goal with |- context [skip_space (?c :: ?x)] => change (skip_space (c :: x)) with (c :: x) end.
    cbv iota beta. rewrite value_print by done. cbv iota beta zeta. by rewrite H2. }
  cbn [print_fields]. destruct l as [|kv l].
  - rewrite <- app_assoc. cbn [app]. rewrite Hone by (by right). done.
  - rewrite <- !app_assoc. cbn [app]. rewrite <- app_assoc. cbn [app]. rewrite Hone by (by left).
    match goal with |- context [skip_space (?c :: ?x)] => change (skip_space (c :: x)) with (c :: x) end.
    cbv iota beta. rewrite IH; [done..|]. simpl in *; lia.
Qed.

Lemma print_fields_length l : (length l <= length (print_fields l))%nat.
Proof.
  induction l as [|[k v] [|kv l] IH]; [done|..]; cbn [print_fields] in *; unfold quoted in *;
    rewrite !length_app in *; simpl in *; rewrite ?length_app in *; simpl in *; lia.
Qed.

(** The members of a marshalled struct, as the parser returns them. *)
Lemma parse_MarshalStruct l : l <> [] ->
  Forall (fun kv => valid_string (fst kv) = true /\ valid_scalar (snd kv) = true) l ->
  parse (MarshalStruct l) = Some (JObj l).
Proof.
  intros Hne Hl. unfold parse, MarshalStruct. pose proof (print_fields_length l) as Hlen.
  assert (Hv : value (fuel_for ("{"%char :: print_fields l ++ ["}"%char])) 0 ("{"%char :: print_fields l ++ ["}"%char]) =
    Some (JObj l, [])).
  { unfold fuel_for. set (k := length (print_fields l ++ ["}"%char])).
    assert (Hm : members (S k) 1 (print_fields l ++ ["}"%char]) = Some (l, [])).
    { apply members_print; [done..|]. subst k. rewrite length_app. simpl. lia. }
    change (length ("{"%char :: print_fields l ++ ["}"%char])) with (S k).
    assert (Hq : exists t, print_fields l ++ ["}"%char] = "034"%char :: t).
    { destruct l as [|[key v] [|kv r]]; [done|..]; by eexists. }
    assert (Ev : forall t, value (S (S k)) 0 ("{"%char :: "034"%char :: t) =
      match members (S k) 1 ("034"%char :: t) with Some (ms, u) => Some (JObj ms, u) | None => None end) by done.
    destruct Hq as [t Ht]. rewrite Ht, Ev, <- Ht, Hm. done. }
  by rewrite Hv.
Qed.

Example marshal_ex : text_of (MarshalStruct [("kid", JStr "a<b"); ("exp", JInt (-5))]%string) =
  text_of ("{"%char :: "034"%char :: chars_of "kid" ++ "034"%char :: ":"%char :: "034"%char :: chars_of "a\u003cb" ++
    "034"%char :: ","%char :: "034"%char :: chars_of "exp" ++ "034"%char :: chars_of ":-5}").
Proof. reflexivity. Qed.
