(* ===== verification/Jwt.v ===== *)
(** * internal/nodecred/jwt.go: node credentials

    Compact tokens signed with ed25519: a header, the claims and the signature, each in
    base64.  The signature scheme is a parameter; what is relied on is that a signature
    made with a private key verifies under its public key. *)
From Stdlib Require Import ZArith Lia Strings.Ascii Strings.String.
From stdpp Require Import base gmap strings list.
From S2P Require Import Prelude Sha256 Base58 GoText AclTypes Json Base64 JsonPrint.

Open Scope Z_scope.
Local Open Scope go_scope.

(** crypto/ed25519; a private key is the seed and its public key. *)
Class Ed25519 := {
  ed25519_NewKeyFromSeed : bytes -> bytes;
  ed25519_Sign : bytes -> bytes -> bytes;
  ed25519_Verify : bytes -> bytes -> bytes -> bool }.
Definition SeedSize : nat := 32.
Definition PublicKeySize : nat := 32.
Definition PrivateKeySize : nat := 64.

(** ** Seconds since 1970

    [time.Unix] adds an offset in int64 arithmetic. *)
Definition second : Z := 1000000000.
Definition unixToInternal : Z := 62135596800.
Definition Unix (t : time) : Z := t / second.
Definition time_Unix (sec : Z) : time := (i64 (sec + unixToInternal) - unixToInternal) * second.

(** [strings.Split] at one character. *)
Fixpoint split_on (sep : ascii) (l : chars) : list chars :=
  match l with
  | [] => [[]]
  | c :: r =>
    if Ascii.eqb c sep then [] :: split_on sep r
    else match split_on sep r with h :: t => (c :: h) :: t | [] => [[c]] end
  end.
Definition text_of_bytes (b : bytes) : chars := chars_of (String.string_of_list_byte b).

(** ** Signing *)
Definition Audience : string := "api.opentela.ai/internal/acl".
Definition PricingAudience : string := "api.opentela.ai/internal/pricing".
Definition maxTokenTTL : Z := 15 * 60 * second.

Record Signer := mkSigner { sg_kid : string; sg_issuer : string; sg_audience : string; sg_privateKey : bytes }.
Definition NewSignerWithAudience (kid issuer audience : string) (privateKey : bytes) : Signer :=
  mkSigner kid issuer audience privateKey.
Definition NewSigner (kid issuer : string) (privateKey : bytes) : Signer :=
  NewSignerWithAudience kid issuer Audience privateKey.

Record Verifier := mkVerifier {
  vf_issuer : string; vf_audience : string; vf_requireMembership : bool; vf_keys : gmap string bytes }.
Definition NewVerifierWithAudience (issuer audience : string) (keys : gmap string bytes) : Verifier :=
  mkVerifier issuer audience (String.eqb audience Audience) keys.
Definition NewVerifier (issuer : string) (keys : gmap string bytes) : Verifier :=
  NewVerifierWithAudience issuer Audience keys.

Record jwtHeader := mkHeader { jh_Alg : string; jh_Kid : string; jh_Typ : string }.
Record jwtClaims := mkJwtClaims {
  jc_Iss : string; jc_Sub : string; jc_Aud : string; jc_Exp : Z; jc_Iat : Z; jc_Jti : string;
  jc_Role : string; jc_Region : string; jc_MembershipRevision : Z }.

Definition header_members (h : jwtHeader) : list (string * json) :=
  [("alg", JStr (jh_Alg h)); ("kid", JStr (jh_Kid h)); ("typ", JStr (jh_Typ h))]%string.
Definition claims_members (c : jwtClaims) : list (string * json) :=
  [("iss", JStr (jc_Iss c)); ("sub", JStr (jc_Sub c)); ("aud", JStr (jc_Aud c)); ("exp", JInt (jc_Exp c));
   ("iat", JInt (jc_Iat c)); ("jti", JStr (jc_Jti c)); ("role", JStr (jc_Role c)); ("region", JStr (jc_Region c));
   ("membership_revision", JInt (jc_MembershipRevision c))]%string.
Definition segment (l : list (string * json)) : string :=
  RawURL_EncodeToString (bytes_of_string (text_of (MarshalStruct l))).

Definition payload_of (s : Signer) (c : Claims) : jwtClaims :=
  mkJwtClaims (sg_issuer s) (cl_Subject c) (sg_audience s) (Unix (cl_ExpiresAt c)) (Unix (cl_IssuedAt c))
    (cl_JTI c) (cl_Role c) (cl_Region c) (cl_MembershipRevision c).

Section Tokens.
Context `{Ed25519}.

(** Marshalling strings and integers does not fail. *)
Definition Sign (s : Signer) (c : Claims) : res string :=
  let header := segment (header_members (mkHeader "EdDSA" (sg_kid s) "JWT")) in
  let payload := segment (claims_members (payload_of s c)) in
  let signingInput := header +:+ "." +:+ payload in
  let sig := ed25519_Sign (sg_privateKey s) (bytes_of_string signingInput) in
  Ok (signingInput +:+ "." +:+ RawURL_EncodeToString sig).

(** ** Verification *)
Definition dec_header : decoder jwtHeader := dec_struct [
  fld "alg" jh_Alg (fun v h => mkHeader v (jh_Kid h) (jh_Typ h)) dec_string;
  fld "kid" jh_Kid (fun v h => mkHeader (jh_Alg h) v (jh_Typ h)) dec_string;
  fld "typ" jh_Typ (fun v h => mkHeader (jh_Alg h) (jh_Kid h) v) dec_string ]%string.
Definition dec_claims : decoder jwtClaims := dec_struct [
  fld "iss" jc_Iss (fun v c => mkJwtClaims v (jc_Sub c) (jc_Aud c) (jc_Exp c) (jc_Iat c) (jc_Jti c) (jc_Role c) (jc_Region c) (jc_MembershipRevision c)) dec_string;
  fld "sub" jc_Sub (fun v c => mkJwtClaims (jc_Iss c) v (jc_Aud c) (jc_Exp c) (jc_Iat c) (jc_Jti c) (jc_Role c) (jc_Region c) (jc_MembershipRevision c)) dec_string;
  fld "aud" jc_Aud (fun v c => mkJwtClaims (jc_Iss c) (jc_Sub c) v (jc_Exp c) (jc_Iat c) (jc_Jti c) (jc_Role c) (jc_Region c) (jc_MembershipRevision c)) dec_string;
  fld "exp" jc_Exp (fun v c => mkJwtClaims (jc_Iss c) (jc_Sub c) (jc_Aud c) v (jc_Iat c) (jc_Jti c) (jc_Role c) (jc_Region c) (jc_MembershipRevision c)) dec_int64;
  fld "iat" jc_Iat (fun v c => mkJwtClaims (jc_Iss c) (jc_Sub c) (jc_Aud c) (jc_Exp c) v (jc_Jti c) (jc_Role c) (jc_Region c) (jc_MembershipRevision c)) dec_int64;
  fld "jti" jc_Jti (fun v c => mkJwtClaims (jc_Iss c) (jc_Sub c) (jc_Aud c) (jc_Exp c) (jc_Iat c) v (jc_Role c) (jc_Region c) (jc_MembershipRevision c)) dec_string;
  fld "role" jc_Role (fun v c => mkJwtClaims (jc_Iss c) (jc_Sub c) (jc_Aud c) (jc_Exp c) (jc_Iat c) (jc_Jti c) v (jc_Region c) (jc_MembershipRevision c)) dec_string;
  fld "region" jc_Region (fun v c => mkJwtClaims (jc_Iss c) (jc_Sub c) (jc_Aud c) (jc_Exp c) (jc_Iat c) (jc_Jti c) (jc_Role c) v (jc_MembershipRevision c)) dec_string;
  fld "membership_revision" jc_MembershipRevision (fun v c => mkJwtClaims (jc_Iss c) (jc_Sub c) (jc_Aud c) (jc_Exp c) (jc_Iat c) (jc_Jti c) (jc_Role c) (jc_Region c) v) dec_int64 ]%string.
Definition zeroHeader : jwtHeader := mkHeader "" "" "".
Definition zeroJwtClaims : jwtClaims := mkJwtClaims "" "" "" 0 0 "" "" "" 0.

(** A base64 segment of JSON, with the texts of its two failures. *)
Definition read_segment {A} (decodefmt jsonfmt : string) (d : decoder A) (zero : A) (part : chars) : res A :=
  match RawURL_DecodeString (text_of part) with
  | Err e => Err (Wrapf decodefmt e)
  | Ok b =>
    match Unmarshal d zero (parse (text_of_bytes b)) with
    | Err e => Err (Wrapf jsonfmt e)
    | Ok a => Ok a
    end
  end.

Definition validNodeRole (role : string) : bool :=
  String.eqb role "head" || String.eqb role "worker" || String.eqb role "combined".

Definition badClaims (v : Verifier) (p : jwtClaims) : bool :=
  negb (String.eqb (jc_Iss p) (vf_issuer v)) || negb (String.eqb (jc_Aud p) (vf_audience v)) ||
  String.eqb (jc_Sub p) "" || String.eqb (jc_Jti p) "" || (jc_Iat p =? 0).
Definition badMembership (v : Verifier) (p : jwtClaims) : bool :=
  vf_requireMembership v &&
  (negb (validNodeRole (jc_Role p)) || String.eqb (jc_Region p) "" || (jc_MembershipRevision p <=? 0)).

Definition checkLifetime (now : time) (p : jwtClaims) : option err :=
  let issuedAt := time_Unix (jc_Iat p) in
  let expiresAt := time_Unix (jc_Exp p) in
  if (jc_Exp p =? 0) || negb (Before now expiresAt) then Some (Errorf "nodecred: expired")
  else if After issuedAt (now + 30 * second) || negb (After expiresAt issuedAt) || (Sub expiresAt issuedAt >? maxTokenTTL)
  then Some (Errorf "nodecred: invalid lifetime") else None.

Definition Verify (v : Verifier) (now : time) (raw : string) : res Claims :=
  match split_on "." (chars_of raw) with
  | [p0; p1; p2] =>
    let? header := read_segment "nodecred: header decode: %w" "nodecred: header json: %w" dec_header zeroHeader p0 in
    if negb (String.eqb (jh_Alg header) "EdDSA") then Err (Errorf "nodecred: unexpected alg") else
    match vf_keys v !! jh_Kid header with
    | None => Err (Errorf "nodecred: unknown kid")
    | Some pub =>
      match RawURL_DecodeString (text_of p2) with
      | Err e => Err (Wrapf "nodecred: signature decode: %w" e)
      | Ok sig =>
        if negb (ed25519_Verify pub (bytes_of_string (text_of p0 +:+ "." +:+ text_of p1)) sig)
        then Err (Errorf "nodecred: signature mismatch") else
        let? payload := read_segment "nodecred: payload decode: %w" "nodecred: payload json: %w" dec_claims zeroJwtClaims p1 in
        if badClaims v payload || badMembership v payload then Err (Errorf "nodecred: invalid claims") else
        match checkLifetime now payload with
        | Some e => Err e
        | None => Ok (mkClaims (jc_Sub payload) (jc_Aud payload) (jc_Role payload) (jc_Region payload)
            (jc_MembershipRevision payload) (jc_Jti payload) (time_Unix (jc_Iat payload)) (time_Unix (jc_Exp payload)))
        end
      end
    end
  | _ => Err (Errorf "nodecred: token is not a compact JWT")
  end.

(** ** Keys in configuration *)
Definition decodeBase64 (raw : string) : res bytes :=
  if String.eqb raw "" then Err (Errorf "nodecred: empty key") else
  match RawURL_DecodeString raw with
  | Ok b => Ok b
  | Err _ => match DecodeString raw with Ok b => Ok b | Err _ => Err (Errorf "nodecred: invalid base64") end
  end.
Definition DecodeSigningKey (raw : string) : res bytes :=
  let? decoded := decodeBase64 raw in
  if bool_decide (length decoded = SeedSize) then Ok (ed25519_NewKeyFromSeed decoded)
  else if bool_decide (length decoded = PrivateKeySize) then Ok decoded
  else Err (Errorf "nodecred: unexpected Ed25519 private key length").
Definition DecodePublicKey (raw : string) : res bytes :=
  let? decoded := decodeBase64 raw in
  if bool_decide (length decoded = PublicKeySize) then Ok decoded
  else Err (Errorf "nodecred: unexpected Ed25519 public key length").
End Tokens.

(** * What a node credential says

    A token signed for a verifier's issuer and audience is read back as it was signed,
    to the second; whatever a verifier accepts was signed under one of its keys for its
    own audience, and holds for a quarter of an hour at most. *)
(** ** Segments *)
Lemma text_of_bytes_of s : text_of_bytes (bytes_of_string s) = chars_of s.
Proof. unfold text_of_bytes, bytes_of_string. by rewrite String.string_of_list_byte_of_string. Qed.

Lemma alphabetic_dotless c : alphabetic c -> url_char c <> "."%char.
Proof. intros ([v Hv] & _ & _). by destruct c as [[] [] [] [] [] [] [] []]. Qed.
Lemma raw_url_dotless l : Forall (fun c => c <> "."%char) (chars_of (RawURL_EncodeToString l)).
Proof.
  unfold RawURL_EncodeToString. rewrite chars_text. destruct (std_encode_shape l) as (p & k & -> & Hp & Hk & _).
  rewrite List.filter_app. apply Forall_map, Forall_app. split.
  - induction Hp as [|c p Hc _ IH]; simpl; [done|]. destruct (negb _); [|done].
    constructor; [by apply alphabetic_dotless|done].
  - by induction Hk as [|c k -> _ IH].
Qed.

Lemma split_on_app sep a r : Forall (fun c => c <> sep) a -> split_on sep (a ++ sep :: r) = a :: split_on sep r.
Proof.
  induction 1 as [|c a Hc _ IH]; simpl; [by rewrite Ascii.eqb_refl|].
  rewrite (proj2 (Ascii.eqb_neq c sep)) by done. by rewrite IH.
Qed.
Lemma split_on_none sep a : Forall (fun c => c <> sep) a -> split_on sep a = [a].
Proof.
  induction 1 as [|c a Hc _ IH]; simpl; [done|]. rewrite (proj2 (Ascii.eqb_neq c sep)) by done. by rewrite IH.
Qed.
Lemma chars_of_app a b : chars_of (a +:+ b) = chars_of a ++ chars_of b.
Proof. induction a; simpl; by f_equal. Qed.
Lemma split_token a b c : Forall (fun c => c <> "."%char) (chars_of a) -> Forall (fun c => c <> "."%char) (chars_of b) ->
  Forall (fun c => c <> "."%char) (chars_of c) ->
  split_on "." (chars_of ((a +:+ "." +:+ b) +:+ "." +:+ c)) = [chars_of a; chars_of b; chars_of c].
Proof.
  intros Ha Hb Hc. rewrite !chars_of_app. change (chars_of ".") with ["."%char]. rewrite <- !app_assoc. cbn [app].
  by rewrite split_on_app, split_on_app, split_on_none.
Qed.

(** A printed struct is decoded member by member. *)
Lemma read_printed {A} df jf (d : decoder A) zero l : l <> [] ->
  Forall (fun kv => valid_string (fst kv) = true /\ valid_scalar (snd kv) = true) l ->
  read_segment df jf d zero (chars_of (segment l)) = match d zero (JObj l) with Ok a => Ok a | Err e => Err (Wrapf jf e) end.
Proof.
  intros Hne Hl. unfold read_segment, segment. rewrite text_chars, raw_url_round_trip, text_of_bytes_of, chars_text.
  by rewrite parse_MarshalStruct.
Qed.

(** ** Time *)
Lemma time_Unix_small s : 0 <= s <= 4611686018427387904 -> time_Unix s = s * second.
Proof. intros Hs. unfold time_Unix, unixToInternal. rewrite i64_id; [lia|]. unfold in_i64. unfold_i64. lia. Qed.

(** ** The round trip *)
Definition claims_ok (s : Signer) (c : Claims) : Prop :=
  Forall (fun x => valid_string x = true)
    [sg_kid s; sg_issuer s; sg_audience s; cl_Subject c; cl_JTI c; cl_Role c; cl_Region c] /\
  in_i64 (cl_MembershipRevision c) /\ cl_Subject c <> ""%string /\ cl_JTI c <> ""%string /\
  (sg_audience s = Audience ->
    validNodeRole (cl_Role c) = true /\ cl_Region c <> ""%string /\ 0 < cl_MembershipRevision c).

(** The whole seconds of the lifetime, as a verifier at [now] wants them. *)
Definition lifetime_ok (now : time) (c : Claims) : Prop :=
  let iat := Unix (cl_IssuedAt c) in let exp := Unix (cl_ExpiresAt c) in
  0 < iat < exp /\ exp <= 4611686018427387904 /\ exp - iat <= 15 * 60 /\
  iat * second <= now + 30 * second /\ now < exp * second.

Definition to_seconds (aud : string) (c : Claims) : Claims :=
  mkClaims (cl_Subject c) aud (cl_Role c) (cl_Region c) (cl_MembershipRevision c) (cl_JTI c)
    (Unix (cl_IssuedAt c) * second) (Unix (cl_ExpiresAt c) * second).

Lemma checkLifetime_ok now c p : lifetime_ok now c -> jc_Iat p = Unix (cl_IssuedAt c) -> jc_Exp p = Unix (cl_ExpiresAt c) ->
  checkLifetime now p = None.
Proof.
  intros (Hi & He & Hd & Hn & Hx) Hiat Hexp. unfold checkLifetime. rewrite Hiat, Hexp.
  rewrite !time_Unix_small by lia. unfold Before, After, Sub, maxTokenTTL. unfold second in *.
  set (iat := Unix (cl_IssuedAt c)) in *. set (exp := Unix (cl_ExpiresAt c)) in *.
  destruct (Z.eqb_spec exp 0); [lia|]. destruct (Z.ltb_spec now (exp * 1000000000)); [|lia]. cbn [negb orb].
  destruct (Z.ltb_spec (now + 30 * 1000000000) (iat * 1000000000)); [lia|].
  destruct (Z.ltb_spec (iat * 1000000000) (exp * 1000000000)); [|lia]. cbn [negb orb].
  destruct (Z.gtb_spec (Z.max (- two63) (Z.min maxI64 (exp * 1000000000 - iat * 1000000000))) (15 * 60 * 1000000000)); [|done].
  unfold_i64. lia.
Qed.

Lemma dec_claims_printed p : in_i64 (jc_Exp p) -> in_i64 (jc_Iat p) -> in_i64 (jc_MembershipRevision p) ->
  dec_claims zeroJwtClaims (JObj (claims_members p)) = Ok p.
Proof.
  intros H1 H2 H3. destruct p as [iss sub aud exp iat jti role region rev]. simpl in *.
  unfold dec_claims, dec_struct, claims_members. simpl.
  rewrite !bool_decide_eq_true_2 by done. done.
Qed.

Section Specs.
Context `{Ed25519}.

(** What crypto/ed25519 documents of a key pair. *)
Definition key_pair (priv pub : bytes) : Prop := forall msg, ed25519_Verify pub msg (ed25519_Sign priv msg) = true.

(** The verifier is the signer's. *)
Definition counterpart (s : Signer) (v : Verifier) (pub : bytes) : Prop :=
  vf_issuer v = sg_issuer s /\ vf_audience v = sg_audience s /\
  vf_requireMembership v = String.eqb (sg_audience s) Audience /\ vf_keys v !! sg_kid s = Some pub.

Lemma Sign_verifies s c v pub now : key_pair (sg_privateKey s) pub -> counterpart s v pub -> claims_ok s c ->
  lifetime_ok now c -> forall raw, Sign s c = Ok raw -> Verify v now raw = Ok (to_seconds (sg_audience s) c).
Proof.
  intros Hkey (Hiss & Haud & Hreq & Hpub) (Hstr & Hrev & Hsub & Hjti & Hmem) Hlife raw [= <-].
  repeat (apply Forall_cons in Hstr as [? Hstr]). pose proof Hlife as (Hi & He & _).
  unfold Verify. rewrite split_token by apply raw_url_dotless.
  rewrite read_printed; [|done|by repeat constructor]. cbn [res_bind].
  change (dec_header zeroHeader (JObj (header_members (mkHeader "EdDSA" (sg_kid s) "JWT"))))
    with (Ok (mkHeader "EdDSA" (sg_kid s) "JWT")). cbn [res_bind jh_Alg jh_Kid].
  rewrite String.eqb_refl, Hpub. cbn [negb]. rewrite text_chars, raw_url_round_trip, !text_chars, Hkey. cbn [negb].
  rewrite read_printed; [|done|].
  2: { repeat constructor; cbn [fst snd payload_of jc_Iss jc_Sub jc_Aud jc_Exp jc_Iat jc_Jti jc_Role jc_Region
         jc_MembershipRevision valid_scalar]; try done; apply bool_decide_eq_true_2; unfold in_i64; unfold_i64; unfold in_i64 in Hrev; lia. }
  rewrite dec_claims_printed by (cbn; unfold in_i64; unfold_i64; unfold in_i64 in Hrev; lia). cbn [res_bind].
  assert (Hb : badClaims v (payload_of s c) = false).
  { unfold badClaims. cbn. rewrite Hiss, Haud, !String.eqb_refl. apply String.eqb_neq in Hsub, Hjti. rewrite Hsub, Hjti.
    cbn. lia. }
  assert (Hm : badMembership v (payload_of s c) = false).
  { unfold badMembership. rewrite Hreq. cbn [payload_of jc_Role jc_Region jc_MembershipRevision]. destruct (String.eqb_spec (sg_audience s) Audience) as [E|]; [|done].
    destruct (Hmem E) as (-> & Hr & Hv). cbn. apply String.eqb_neq in Hr. rewrite Hr. cbn. lia. }
  rewrite Hb, Hm. cbn [orb]. rewrite (checkLifetime_ok now c) by done. unfold to_seconds. cbn.
  by rewrite !time_Unix_small by lia.
Qed.

(** a credential reads back: the token [Sign] makes is accepted by a verifier of the
    same issuer and audience that holds the signer's public key, as long as it lives, and
    yields the subject, role, region, revision and id that were signed, with the signer's
    audience and the two times cut to the second.  Strings may hold any valid UTF-8. *)
Theorem token_round_trip s c v pub now raw :
  key_pair (sg_privateKey s) pub -> counterpart s v pub -> claims_ok s c -> lifetime_ok now c ->
  Sign s c = Ok raw -> Verify v now raw = Ok (to_seconds (sg_audience s) c).
Proof. intros. by eapply Sign_verifies. Qed.

(** ** What is accepted *)
Definition signed_by (v : Verifier) (raw : string) (p : jwtClaims) : Prop :=
  exists p0 p1 p2 h pub sig, split_on "." (chars_of raw) = [p0; p1; p2] /\
    read_segment "nodecred: header decode: %w" "nodecred: header json: %w" dec_header zeroHeader p0 = Ok h /\
    jh_Alg h = "EdDSA"%string /\ vf_keys v !! jh_Kid h = Some pub /\ RawURL_DecodeString (text_of p2) = Ok sig /\
    ed25519_Verify pub (bytes_of_string (text_of p0 +:+ "." +:+ text_of p1)) sig = true /\
    read_segment "nodecred: payload decode: %w" "nodecred: payload json: %w" dec_claims zeroJwtClaims p1 = Ok p.

Lemma Verify_inv v now raw c : Verify v now raw = Ok c -> exists p, signed_by v raw p /\
  badClaims v p = false /\ badMembership v p = false /\ checkLifetime now p = None /\
  c = mkClaims (jc_Sub p) (jc_Aud p) (jc_Role p) (jc_Region p) (jc_MembershipRevision p) (jc_Jti p)
        (time_Unix (jc_Iat p)) (time_Unix (jc_Exp p)).
Proof.
  unfold Verify. destruct (split_on _ _) as [|p0 [|p1 [|p2 [|]]]] eqn:Es; try done. intros Hv.
  apply res_bind_Ok in Hv as (h & Hh & Hv). destruct (negb _) eqn:Halg; [done|].
  apply negb_false_iff, String.eqb_eq in Halg. destruct (vf_keys v !! jh_Kid h) as [pub|] eqn:Hk; [|done].
  destruct (RawURL_DecodeString _) as [sig|] eqn:Hsig; [|done].
  destruct (ed25519_Verify _ _ _) eqn:Hver; [|done]. cbn [negb] in Hv.
  apply res_bind_Ok in Hv as (p & Hp & Hv).
  destruct (badClaims v p) eqn:Hb, (badMembership v p) eqn:Hm; try done. cbn [orb] in Hv.
  destruct (checkLifetime now p) eqn:Hl; [done|]. injection Hv as <-. exists p.
  split; [|done]. by exists p0, p1, p2, h, pub, sig.
Qed.

Lemma badClaims_none v p : badClaims v p = false ->
  jc_Iss p = vf_issuer v /\ jc_Aud p = vf_audience v /\ jc_Sub p <> ""%string /\ jc_Jti p <> ""%string.
Proof.
  unfold badClaims. intros [[[[H1 H2]%orb_false_elim H3]%orb_false_elim H4]%orb_false_elim _]%orb_false_elim.
  apply negb_false_iff, String.eqb_eq in H1, H2. by apply String.eqb_neq in H3, H4.
Qed.
Lemma badMembership_none v p : badMembership v p = false -> vf_requireMembership v = true ->
  validNodeRole (jc_Role p) = true /\ jc_Region p <> ""%string /\ 0 < jc_MembershipRevision p.
Proof.
  unfold badMembership. intros Hm Hr. rewrite Hr in Hm. cbn [andb] in Hm.
  apply orb_false_elim in Hm as [[H1 H2]%orb_false_elim H3]. apply negb_false_iff in H1. apply String.eqb_neq in H2.
  split; [done|]. split; [done|lia].
Qed.

(** Two readings of one token are of one payload. *)
Lemma signed_by_unique v1 v2 raw p q : signed_by v1 raw p -> signed_by v2 raw q -> p = q.
Proof.
  intros (p0 & p1 & p2 & h & pub & sig & Hs & _ & _ & _ & _ & _ & Hp) (q0 & q1 & q2 & h' & pub' & sig' & Hs' & _ & _ & _ & _ & _ & Hq).
  congruence.
Qed.

(** C31: an accepted credential was signed: over exactly the header and the payload the
    token carries, by EdDSA under the verifier's key of the id in the header; the claims
    are the payload's, which names the verifier's own issuer and its own audience; it names a subject and an id, it has begun (within half a
    minute) and is not over, and it lasts a quarter of an hour at most; a credential for
    the access lists names a node role and a region too. *)
Theorem accepted_token_signed v now raw c :
  Verify v now raw = Ok c -> (exists p, signed_by v raw p /\ jc_Iss p = vf_issuer v /\
    c = mkClaims (jc_Sub p) (jc_Aud p) (jc_Role p) (jc_Region p) (jc_MembershipRevision p) (jc_Jti p)
          (time_Unix (jc_Iat p)) (time_Unix (jc_Exp p))) /\
  cl_Audience c = vf_audience v /\ cl_Subject c <> ""%string /\ cl_JTI c <> ""%string /\
  now < cl_ExpiresAt c /\ cl_IssuedAt c <= now + 30 * second /\
  cl_IssuedAt c < cl_ExpiresAt c <= cl_IssuedAt c + maxTokenTTL /\
  (vf_requireMembership v = true ->
    validNodeRole (cl_Role c) = true /\ cl_Region c <> ""%string /\ 0 < cl_MembershipRevision c).
Proof.
  intros Hv. apply Verify_inv in Hv as (p & Hs & Hb & Hm & Hl & ->). cbn.
  apply badClaims_none in Hb as (Hi & Ha & Hsub & Hj).
  unfold checkLifetime in Hl. destruct (_ || _) eqn:E1 in Hl; [done|]. apply orb_false_elim in E1 as [_ E1].
  apply negb_false_iff in E1. destruct (_ || _) eqn:E2 in Hl; [done|].
  apply orb_false_elim in E2 as [E2 E4]. apply orb_false_elim in E2 as [E2 E3]. apply negb_false_iff in E3.
  unfold Before, After, Sub in *. split; [by exists p|]. split; [done|]. split; [done|]. split; [done|].
  split; [lia|]. split; [lia|]. split; [unfold maxTokenTTL, second in *; unfold_i64; lia|].
  by apply badMembership_none.
Qed.

(** credentials do not cross: a token that a verifier of one audience accepts is
    refused by every verifier of another audience, whatever issuer and keys that one has;
    in particular a pricing credential opens no access list, and the other way round. *)
Theorem audiences_separate v1 v2 now1 now2 raw c :
  Verify v1 now1 raw = Ok c -> vf_audience v1 <> vf_audience v2 -> exists e, Verify v2 now2 raw = Err e.
Proof.
  intros H1 Hne. destruct (Verify v2 now2 raw) as [c2|e] eqn:H2; [|by exists e]. exfalso.
  apply Verify_inv in H1 as (p & Hs1 & Hb1 & _). apply Verify_inv in H2 as (q & Hs2 & Hb2 & _).
  assert (p = q) as <- by by eapply signed_by_unique.
  apply Hne. apply badClaims_none in Hb1 as (_ & <- & _). by apply badClaims_none in Hb2 as (_ & <- & _).
Qed.
End Specs.

(** ** Instances *)

(** A scheme that has the documented property: the tag is the public key and the text. *)
#[local] Instance toy : Ed25519 := {
  ed25519_NewKeyFromSeed seed := seed ++ seed;
  ed25519_Sign priv msg := drop 32 priv ++ msg;
  ed25519_Verify pub msg sig := bool_decide (sig = pub ++ msg) }.
Definition toy_seed : bytes := repeat Byte.x07 32.
Definition toy_signer : Signer := NewSigner "k1" "https://api" (ed25519_NewKeyFromSeed toy_seed).
Definition toy_verifier : Verifier := NewVerifier "https://api" {[ "k1"%string := toy_seed ]}.
Definition toy_pricing : Verifier := NewVerifierWithAudience "https://api" PricingAudience {[ "k1"%string := toy_seed ]}.
Definition toy_claims : Claims :=
  mkClaims "12D3<peer>" "" "worker" "eu-west" 3 "jti" 1700000000500000000 1700000900500000000.
Definition toy_now : time := 1700000001000000000.
Definition toy_token : string := Eval vm_compute in match Sign toy_signer toy_claims with Ok t => t | Err _ => ""%string end.

Lemma toy_key_pair : key_pair (sg_privateKey toy_signer) toy_seed.
Proof. intros msg. by apply bool_decide_eq_true_2. Qed.

Lemma token_round_trip_witness :
  Verify toy_verifier toy_now toy_token =
    Ok (mkClaims "12D3<peer>" Audience "worker" "eu-west" 3 "jti" 1700000000000000000 1700000900000000000).
Proof.
  apply (token_round_trip toy_signer toy_claims toy_verifier toy_seed toy_now toy_token toy_key_pair);
    [by vm_compute| | |by vm_compute].
  - unfold claims_ok, in_i64. split; [repeat constructor|]. split; [unfold two63; simpl; lia|]. by repeat split.
  - unfold lifetime_ok. vm_compute. repeat split; congruence.
Defined.

Lemma toy_accepted : exists c, Verify toy_verifier toy_now toy_token = Ok c.
Proof. eexists. vm_compute. reflexivity. Qed.
Lemma accepted_token_signed_witness : exists c, Verify toy_verifier toy_now toy_token = Ok c /\
  cl_Audience c = Audience /\ toy_now < cl_ExpiresAt c.
Proof.
  destruct toy_accepted as [c Hc]. exists c. split; [exact Hc|].
  pose proof (accepted_token_signed toy_verifier toy_now toy_token c Hc) as (_ & Ha & _ & _ & Hn & _). by split.
Defined.
Lemma audiences_separate_witness : exists e, Verify toy_pricing toy_now toy_token = Err e.
Proof.
  destruct toy_accepted as [c Hc].
  apply (audiences_separate toy_verifier toy_pricing toy_now toy_now toy_token c Hc). vm_compute. congruence.
Defined.
