(* ===== verification/Peers.v ===== *)
(** * internal/peers/peers.go: the table of live peers, filtered by policy

    The node's peer table is fetched over HTTP and every peer is paired with the
    instance that is registered for it; what a region or a service policy does not
    open to everyone is taken out.  A snapshot is kept for a while.  The exchange is a
    parameter: a failure, or a status and the value of the body's first JSON text, if
    there is one.  The cache, the directory and the pool of buffers are the state of
    the process. *)
From Stdlib Require Import ZArith Lia Strings.String.
From stdpp Require Import base gmap strings list fin_maps.
From S2P Require Import Prelude Tx Schema BillingStore Worker Json AclTypes Acl DirSchema Directory Gate.

Open Scope Z_scope.
Local Open Scope worker_scope.
Local Open Scope go_scope.

Record PeerService := mkPeerService { ps_Name : string; ps_IdentityGroup : list string }.
Record Peer := mkPeer { pe_Connected : bool; pe_Service : list PeerService }.
Record Entry := mkEntry { en_Peer : Peer; en_Instance : option InstanceInfo }.
Record Snapshot := mkSnapshot { sn_Entries : gmap string Entry; sn_Fetched : time }.

Definition zeroPeerService : PeerService := mkPeerService "" [].
Definition zeroPeer : Peer := mkPeer false [].

(** ** The upstream table *)
Definition dec_bool : decoder bool := fun cur j =>
  match j with JBool b => Ok b | JNull => Ok cur | _ => Err mismatch end.
Definition dec_peer_service : decoder PeerService := dec_struct [
  fld "name" ps_Name (fun v p => mkPeerService v (ps_IdentityGroup p)) dec_string;
  fld "identity_group" ps_IdentityGroup (fun v p => mkPeerService (ps_Name p) v) (dec_slice "" dec_string) ]%string.
Definition dec_peer : decoder Peer := dec_struct [
  fld "connected" pe_Connected (fun v p => mkPeer v (pe_Service p)) dec_bool;
  fld "service" pe_Service (fun v p => mkPeer (pe_Connected p) v) (dec_slice zeroPeerService dec_peer_service) ]%string.

(** A member of a map is decoded into a zero element. *)
Fixpoint dec_entries {A} (zero : A) (d : decoder A) (m : gmap string A) (l : list (string * json)) : res (gmap string A) :=
  match l with
  | [] => Ok m
  | (key, j) :: r => let? a := d zero j in dec_entries zero d (<[key := a]> m) r
  end.
Definition dec_map {A} (zero : A) (d : decoder A) : decoder (gmap string A) := fun cur j =>
  match j with
  | JNull => Ok ∅
  | JObj l => dec_entries zero d cur l
  | _ => Err mismatch
  end.

Definition errUpstream (status : Z) : err := Errorf "peers: upstream".
Definition ErrPolicyUnavailable : err := Sentinel "peers: policy unavailable".

Definition exchanged : Type := res (Z * option json).
Definition fetchTable (x : exchanged) : res (gmap string Peer) :=
  let? a := x in let '(status, body) := a in
  if negb (status =? 200) then Err (errUpstream status)
  else Unmarshal (dec_map zeroPeer dec_peer) ∅ body.

(** ** Policy *)
Fixpoint findPermissionlessService (services : list InstanceService) (name : string) : option InstanceService :=
  match services with
  | [] => None
  | svc :: r => if String.eqb (is_ServiceName svc) name && String.eqb (is_Exposure svc) ExposurePermissionless
                then Some svc else findPermissionlessService r name
  end.

Definition peerIDs (table : gmap string Peer) : list string := map fst (map_to_list table).

(** [managedByPeer] *)
Definition by_peer (managed : list InstanceInfo) : gmap string InstanceInfo :=
  fold_left (fun m i => <[in_PeerID i := i]> m) managed ∅.

Definition entry_of (peer : Peer) (inst : option InstanceInfo) : Entry :=
  match inst with
  | None => mkEntry peer None
  | Some i =>
    if String.eqb (in_PolicyScope i) PolicyScopeService then
      mkEntry (mkPeer (pe_Connected peer)
        (List.filter (fun svc => bool_decide (is_Some (findPermissionlessService (in_Services i) (ps_Name svc)))) (pe_Service peer)))
        inst
    else match in_Membership i with
         | None => mkEntry peer inst
         | Some _ => mkEntry (mkPeer (pe_Connected peer) []) inst
         end
  end.
Definition entries_of (table : gmap string Peer) (managed : list InstanceInfo) : gmap string Entry :=
  map_imap (fun id peer => Some (entry_of peer (by_peer managed !! id))) table.

(** ** The process *)
Record node := mkNode { n_mem : mem; n_dir : dir; n_cached : option Snapshot; n_fetched : time }.

(** What reaches the process from outside during one call: the upstream's answer and
    the directory's connection. *)
Record exchange_in := mkExchange { x_table : exchanged; x_dir : env }.

Definition callDirectory {A} (m : dstore A) (e : env) : W node A := callNode (fun n =>
  let '(r, d) := run m e (n_dir n) in (r, mkNode (n_mem n) d (n_cached n) (n_fetched n))).
Definition getNode : W node node := fun _ w => (Some (Ok (w_node w)), w).
Definition storeCache (snap : Snapshot) : W node unit := callNode (fun n =>
  (Ok tt, mkNode (n_mem n) (n_dir n) (Some snap) (sn_Fetched snap))).

Record PeersService := mkPeersService { pv_ttl : Z; pv_policy : bool }.

(** The fetch, and the whole of [Service.Snapshot]. *)
Definition refresh (s : PeersService) (x : exchange_in) : W node Snapshot :=
  let* table := wlift (fetchTable (x_table x)) in
  if negb (pv_policy s) then wfail ErrPolicyUnavailable else
  let*? r := callDirectory (ListManagedInstancesByPeerIDs (peerIDs table)) (x_dir x) in
  match r with
  | Err _ => wfail ErrPolicyUnavailable
  | Ok managed =>
    let* t := clock in
    let snap := mkSnapshot (entries_of table managed) t in
    do* storeCache snap in wret snap
  end.
Definition fetchSnapshot (s : PeersService) (x : exchange_in) : W node Snapshot :=
  let* n := getNode in
  let* t := clock in
  match n_cached n with
  | Some snap => if t - n_fetched n <? pv_ttl s then wret snap else refresh s x
  | None => refresh s x
  end.
