(* ===== verification/MarketGate.v ===== *)
(** * internal/billinggate/gate.go: the market gate before the inference proxy

    One request is inspected, priced against the live peers and asks, and reserved;
    then it is forwarded or rejected.  The iteration order of the snapshot's map and
    the random bytes of the reservation id are inputs; the handler behind the gate is
    not modelled, a forwarded request is the gate's last action. *)
From Stdlib Require Import ZArith Lia Strings.Ascii Strings.String.
From stdpp Require Import base gmap strings list fin_maps sorting.
From S2P Require Import Prelude Sha256 Base58 Billing Tx Schema BillingStore Market Worker GoText Json Base64 AclTypes DirSchema Directory Gate Peers.

Open Scope Z_scope.
Local Open Scope worker_scope.
Local Open Scope go_scope.

Definition maxAllowedPeers : nat := 128.
Definition allowedPeersHeader : string := "X-Otela-Allowed-Peers".

Inductive BillingMode := BillingOff | BillingObserve | BillingEnforce.
Record GateService := mkGate {
  sv_peers : PeersService; sv_mode : BillingMode; sv_output : Z; sv_feeBps : Z; sv_requirePricedPeer : bool }.

Inductive answer :=
  | Reject (status : Z) (typ : string)
  | Forward (rq : Request).

(** What a request meets: the buffer of its inspection, the upstream, the order in
    which a map is walked, the random source. *)
Record circumstances := mkCircumstances {
  ci_buffer : choice; ci_exchange : exchange_in;
  ci_order : list (string * Entry) -> list (string * Entry);
  ci_random : res (list Byte.byte) }.

(** ** Caps *)
Definition acctCaps (a : AccountCredit) : Caps := MaxCaps a.

Definition parseCap (r : Request) (name : string) : res (option Z) :=
  let v := TrimSpace (header_get name (rq_Header r)) in
  if String.eqb v "" then Ok None
  else match ParseInt v with
       | Err _ => Err (Errorf "%s: not an integer")
       | Ok n => if n <? 0 then Err (Errorf "%s: negative cap") else Ok (Some n)
       end.
Definition parseRequestCaps (r : Request) : res Caps :=
  let? i := parseCap r "X-Max-Input-Price-Per-Million" in
  let? c := parseCap r "X-Max-Cached-Input-Price-Per-Million" in
  let? o := parseCap r "X-Max-Output-Price-Per-Million" in
  Ok (mkCaps i c o).

Definition account_ID (r : Request) : string * bool :=
  match rq_Account r with Some a => (a, negb (String.eqb a "")) | None => ("", false) end.

Definition resolveCaps (buyer : string) (hasAccount : bool) (p : Plan) (reqCaps : Caps) : W node Caps :=
  if negb hasAccount then wfail ErrBillingAccountRequired else
  do* callStore (EnsureAccountCredit buyer) in
  let* acct := callStore (AccountCreditOf buyer) in
  let* rows := callStore (ModelCapsForAccount buyer) in
  wret (MergeCaps (Effective (acctCaps acct) rows (pl_Service p) (pl_Model p)) reqCaps).

(** ** Quotes *)
Definition before (q p : EligiblePeerQuote) : bool :=
  (q_InputPerMillion q <? q_InputPerMillion p) ||
  ((q_InputPerMillion q =? q_InputPerMillion p) && String.ltb (q_PeerID q) (q_PeerID p)).
(** The swaps of one element towards the front, over the reversed prefix. *)
Fixpoint sink (q : EligiblePeerQuote) (back : list EligiblePeerQuote) : list EligiblePeerQuote :=
  match back with
  | [] => [q]
  | p :: rest => if before q p then p :: sink q rest else q :: back
  end.
Definition sortQuotes (l : list EligiblePeerQuote) : list EligiblePeerQuote :=
  reverse (fold_left (fun back q => sink q back) l []).

Definition peerServesModel (p : Peer) (service model : string) : bool :=
  existsb (fun svc => String.eqb (ps_Name svc) service &&
    existsb (String.eqb ("model=" ++ model)) (ps_IdentityGroup svc)) (pe_Service p).

Definition askByPeer (l : list Ask) : gmap string Ask :=
  fold_left (fun m a => <[ak_PeerID a := a]> m) l ∅.

(** The quote of one entry, when it is eligible. *)
Definition quote_of (p : Plan) (requirePriced : bool) (byPeer : gmap string Ask) (anyAsk : bool)
    (e : string * Entry) : option EligiblePeerQuote :=
  let '(peerID, en) := e in
  if negb (peerServesModel (en_Peer en) (pl_Service p) (pl_Model p)) then None else
  let '(seller, owner) := match en_Instance en with
    | Some i => (in_AccountID i, in_OwnerWallet i)
    | None => (""%string, ""%string)
    end in
  if negb (BillableProvider seller owner) then None else
  match byPeer !! peerID with
  | Some a => Some (mkQuote peerID seller owner (ak_Revision a) (ak_InputPerMillion a)
                (ak_CachedInputPerMillion a) (ak_OutputPerMillion a))
  | None => if requirePriced && anyAsk then None else Some (mkQuote peerID seller owner 0 0 0 0)
  end.
Definition quotes_of (p : Plan) (requirePriced : bool) (l : list Ask) (entries : list (string * Entry))
    : list EligiblePeerQuote :=
  omap (quote_of p requirePriced (askByPeer l) (negb (bool_decide (l = [])))) entries.

Definition chooseQuotes (quotes : list EligiblePeerQuote) (caps : Caps) : res (list EligiblePeerQuote) :=
  let affordable := sortQuotes (List.filter (fun q => Affordable q caps) quotes) in
  if bool_decide (affordable = []) && negb (bool_decide (quotes = [])) then Err ErrPriceAboveMax
  else Ok (take maxAllowedPeers affordable).

Definition resolveQuotes (s : GateService) (x : circumstances) (p : Plan) (caps : Caps) : W node (list EligiblePeerQuote) :=
  let* snap := fetchSnapshot (sv_peers s) (ci_exchange x) in
  let* t := clock in
  let* l := callStore (LiveAsks (pl_Service p) (pl_Model p) t) in
  wlift (chooseQuotes (quotes_of p (sv_requirePricedPeer s) l (ci_order x (map_to_list (sn_Entries snap)))) caps).

(** ** Reservation *)
Definition requestID (random : res (list Byte.byte)) : res string :=
  match random with
  | Ok buf => Ok (RawURL_EncodeToString buf)
  | Err e => Err (Wrapf "billing gate: request id: %w" e)
  end.

Definition reservation (reqID buyer : string) (p : Plan) (caps : Caps) (quotes : list EligiblePeerQuote) : Reservation :=
  mkReservation reqID buyer (pl_Service p) (pl_Model p) caps quotes (pl_InputCeiling p) (pl_OutputCeiling p) zeroTime.
Definition reserve (x : circumstances) (buyer : string) (p : Plan) (caps : Caps) (quotes : list EligiblePeerQuote)
    : W node string :=
  let* reqID := wlift (requestID (ci_random x)) in
  do* callStore (ReserveBilling (reservation reqID buyer p caps quotes)) in
  wret reqID.

Fixpoint join (sep : string) (l : list string) : string :=
  match l with
  | [] => ""
  | [s] => s
  | s :: r => (s ++ sep ++ join sep r)%string
  end.
Definition setAllowedPeers (quotes : list EligiblePeerQuote) (r : Request) : Request :=
  mkRequest (rq_Method r) (rq_Path r)
    (if bool_decide (quotes = []) then delete allowedPeersHeader (rq_Header r)
     else header_set allowedPeersHeader (join "," (map q_PeerID quotes)) (rq_Header r))
    (rq_ContentLength r) (rq_Body r) (rq_Account r) (rq_BillingID r).
Definition WithRequestID (id : string) (r : Request) : Request :=
  mkRequest (rq_Method r) (rq_Path r) (rq_Header r) (rq_ContentLength r) (rq_Body r) (rq_Account r) (Some id).

(** ** The gate *)
Definition inspect (s : GateService) (x : circumstances) (r : Request) : W node (Plan * Request) := fun _ w =>
  let '(res, m) := Inspect (ci_buffer x) (mkOptions (sv_output s)) r (n_mem (w_node w)) in
  let n := w_node w in
  let w := mkWorld (w_db w) (mkNode m (n_dir n) (n_cached n) (n_fetched n)) (w_calls w) in
  match res with
  | Some pr => (Some (Ok pr), w)
  | None => (None, w)
  end.
Definition enforcing (s : GateService) : bool := match sv_mode s with BillingEnforce => true | _ => false end.
Definition quote_error (e : err) : answer :=
  if errors_is e ErrPriceAboveMax then Reject 402 "price_above_max" else Reject 503 "billing_unavailable".
Definition reserve_error (e : err) : answer :=
  if errors_is e ErrInsufficientCredit then Reject 402 "insufficient_credit"
  else if errors_is e ErrConflict then Reject 409 "billing_duplicate_request"
  else Reject 503 "billing_unavailable".

Definition serve (s : GateService) (x : circumstances) (r : Request) : W node answer :=
  let* pr := inspect s x r in
  let '(p, req) := pr in
  let '(buyer, hasAccount) := account_ID r in
  if negb (pl_Supported p) then
    wret (if enforcing s && pl_Generative p then Reject 400 "billing_unsupported_route" else Forward req)
  else
  match parseRequestCaps req with
  | Err _ => wret (Reject 400 "invalid_price_cap")
  | Ok reqCaps =>
    let*? rc := resolveCaps buyer hasAccount p reqCaps in
    match rc with
    | Err _ => wret (if enforcing s then Reject 402 "billing_account_required" else Forward req)
    | Ok caps =>
      let*? rq := resolveQuotes s x p caps in
      match rq with
      | Err e => wret (if enforcing s then quote_error e else Forward req)
      | Ok quotes =>
        if bool_decide (quotes = []) then wret (if enforcing s then Reject 503 "no_provider" else Forward req)
        else if enforcing s then
          if negb hasAccount then wret (Reject 402 "billing_account_required") else
          let*? rid := reserve x buyer p caps quotes in
          match rid with
          | Err e => wret (reserve_error e)
          | Ok reqID => wret (Forward (setAllowedPeers quotes (WithRequestID reqID req)))
          end
        else wret (Forward req)
      end
    end
  end.

Definition Middleware (s : GateService) (x : circumstances) (r : Request) : W node answer :=
  match sv_mode s with
  | BillingOff => wret (Forward r)
  | _ => serve s x r
  end.
