(* ===== verification/MarketSpec.v ===== *)
(** * What the market gate guarantees *)
From Stdlib Require Import ZArith Lia Strings.Ascii Strings.String Sorting.Sorted.
From stdpp Require Import base gmap strings list fin_maps sorting.
From S2P Require Import Prelude Sha256 Base58 Billing Tx Schema BillingStore Market Worker GoText Json Base64 AclTypes DirSchema Directory Gate Peers MarketGate.

Open Scope Z_scope.

(** ** The order of the quotes *)
(** Cheaper input first, then the peer. *)
Definition cheaper (p q : EligiblePeerQuote) : Prop := before q p = false.

Lemma ltb_leb s1 s2 : String.ltb s1 s2 = negb (String.leb s2 s1).
Proof. unfold String.ltb, String.leb. rewrite String.compare_antisym. by destruct (String.compare s2 s1). Qed.

Lemma cheaper_iff p q : cheaper p q <->
  q_InputPerMillion p < q_InputPerMillion q \/
  (q_InputPerMillion p = q_InputPerMillion q /\ strings.String.le (q_PeerID p) (q_PeerID q)).
Proof.
  unfold cheaper, before, strings.String.le. rewrite ltb_leb.
  destruct (Z.ltb_spec (q_InputPerMillion q) (q_InputPerMillion p)),
    (Z.eqb_spec (q_InputPerMillion q) (q_InputPerMillion p)), (String.leb (q_PeerID p) (q_PeerID q));
    simpl; split; intros Hc; try done; try (destruct Hc as [?|[? ?]]; done || lia); try (left; lia); right; split; done || lia.
Qed.

#[export] Instance cheaper_trans : Transitive cheaper.
Proof.
  intros p q r. rewrite !cheaper_iff. intros [?|[E1 H1]] [?|[E2 H2]]; try (left; lia).
  right. split; [lia|]. by etrans.
Qed.
Lemma cheaper_total p q : before q p = true -> cheaper q p.
Proof.
  intros H. destruct (before p q) eqn:E; [|done]. exfalso. revert H E. unfold before. rewrite !ltb_leb.
  destruct (strings.String.le_total (q_PeerID p) (q_PeerID q)) as [Hl|Hl]; unfold strings.String.le in Hl;
    apply Is_true_true in Hl; rewrite Hl; simpl; lia.
Qed.
Lemma cheaper_antisym p q : cheaper p q -> cheaper q p -> q_PeerID p = q_PeerID q.
Proof.
  rewrite !cheaper_iff. intros [?|[? H1]] [?|[? H2]]; try lia. by apply (anti_symm strings.String.le).
Qed.

Lemma sink_Permutation q back : sink q back ≡ₚ q :: back.
Proof.
  induction back as [|p back IH]; simpl; [done|]. destruct (before q p); [|done].
  rewrite IH. apply perm_swap.
Qed.

(** A reversed prefix: the last element first. *)
Lemma sink_sorted q back : StronglySorted (flip cheaper) back -> StronglySorted (flip cheaper) (sink q back).
Proof.
  induction 1 as [|p back Hs IH Hp]; simpl; [by repeat constructor|]. destruct (before q p) eqn:E.
  - constructor; [done|]. rewrite sink_Permutation. constructor; [by apply cheaper_total|done].
  - constructor; [by constructor|]. constructor; [done|]. eapply Forall_impl; [exact Hp|].
    intros r Hr. simpl in *. by etrans.
Qed.

Lemma StronglySorted_reverse {A} (R : relation A) l : StronglySorted (flip R) l -> StronglySorted R (reverse l).
Proof.
  induction 1 as [|x l Hs IH Hx]; [constructor|]. rewrite reverse_cons.
  apply StronglySorted_app_2; [|done|by repeat constructor].
  intros a b Ha Hb. apply list_elem_of_singleton in Hb as ->. rewrite Forall_forall in Hx. apply Hx.
  by apply elem_of_reverse.
Qed.

Lemma sortQuotes_Permutation l : sortQuotes l ≡ₚ l.
Proof.
  unfold sortQuotes. rewrite reverse_Permutation.
  assert (H : forall back, fold_left (fun b q => sink q b) l back ≡ₚ l ++ back).
  { induction l as [|q l IH]; intros back; simpl; [done|]. rewrite IH, sink_Permutation. by rewrite Permutation_middle. }
  rewrite H. by rewrite app_nil_r.
Qed.
Lemma sortQuotes_sorted l : StronglySorted cheaper (sortQuotes l).
Proof.
  apply StronglySorted_reverse.
  assert (H : forall back, StronglySorted (flip cheaper) back ->
    StronglySorted (flip cheaper) (fold_left (fun b q => sink q b) l back)).
  { induction l as [|q l IH]; intros back Hb; simpl; [done|]. apply IH. by apply sink_sorted. }
  apply H. constructor.
Qed.

(** With one quote per peer the sorted order is unique. *)
Lemma sortQuotes_unique l1 l2 : NoDup (map q_PeerID l1) -> l1 ≡ₚ l2 -> sortQuotes l1 = sortQuotes l2.
Proof.
  intros Hnd Hp. apply (StronglySorted_unique_strong cheaper); [|apply sortQuotes_sorted..|].
  - intros x y. rewrite !sortQuotes_Permutation, <- Hp. intros Hx Hy H1 H2.
    pose proof (cheaper_antisym _ _ H1 H2) as He.
    apply list_elem_of_lookup in Hx as [i Hx]. apply list_elem_of_lookup in Hy as [j Hy].
    assert (i = j) as ->; [|congruence]. eapply (NoDup_lookup (map q_PeerID l1)); [done|..].
    + by rewrite list_lookup_fmap, Hx.
    + rewrite list_lookup_fmap, Hy. simpl. by rewrite He.
  - by rewrite !sortQuotes_Permutation.
Qed.

(** ** The quotes a request is offered *)
(** What a peer of the snapshot quotes: it serves the model, its seller can be paid, and
    its price is its live ask, or nothing when it has none and need not have one. *)
Definition eligible (p : Plan) (requirePriced : bool) (l : list Ask) (entries : gmap string Entry)
    (q : EligiblePeerQuote) : Prop :=
  exists en i, entries !! q_PeerID q = Some en /\ en_Instance en = Some i /\
    peerServesModel (en_Peer en) (pl_Service p) (pl_Model p) = true /\
    BillableProvider (in_AccountID i) (in_OwnerWallet i) = true /\
    q_SellerAccountID q = in_AccountID i /\ q_OwnerWallet q = in_OwnerWallet i /\
    match askByPeer l !! q_PeerID q with
    | Some a => (q_Revision q, q_InputPerMillion q, q_CachedInputPerMillion q, q_OutputPerMillion q)
                = (ak_Revision a, ak_InputPerMillion a, ak_CachedInputPerMillion a, ak_OutputPerMillion a)
    | None => (requirePriced = true -> l = []) /\
              (q_Revision q, q_InputPerMillion q, q_CachedInputPerMillion q, q_OutputPerMillion q) = (0, 0, 0, 0)
    end.

Section Quotes.
Context (p : Plan) (requirePriced : bool) (l : list Ask) (entries : gmap string Entry).
Notation elig := (eligible p requirePriced l entries).
Notation quoted := (quote_of p requirePriced (askByPeer l) (negb (bool_decide (l = [])))).

Lemma quote_of_eligible id en q : entries !! id = Some en ->
  quoted (id, en) = Some q <-> q_PeerID q = id /\ elig q.
Proof.
  intros He. unfold quote_of, eligible. destruct q as [qp qs qo qr qi qc qx]. simpl. split.
  - destruct (peerServesModel _ _ _) eqn:Es; [|done]. destruct (en_Instance en) as [i|] eqn:Ei; simpl; [|done].
    destruct (BillableProvider _ _) eqn:Eb; simpl; [|done]. destruct (askByPeer l !! id) as [a|] eqn:Ea.
    + intros [= <- <- <- <- <- <- <-]. split; [done|]. exists en, i. by rewrite Ea.
    + destruct (requirePriced && _) eqn:Er; [done|]. intros [= <- <- <- <- <- <- <-].
      split; [done|]. exists en, i. rewrite Ea. do 6 (split; [done|]). split; [|done]. intros ->. simpl in Er.
      apply negb_false_iff in Er. by apply bool_decide_eq_true in Er.
  - intros [-> (en' & i & He' & Hi & Hs & Hb & -> & -> & Hp)]. assert (en' = en) as -> by congruence.
    rewrite Hs, Hi, Hb. simpl. destruct (askByPeer l !! id) as [a|]; [by simplify_eq/=|].
    destruct Hp as [Hp Hz]. simplify_eq/=. destruct requirePriced; simpl; [|done].
    by rewrite bool_decide_eq_true_2 by auto.
Qed.

Lemma elem_of_quotes order q : order ≡ₚ map_to_list entries ->
  q ∈ quotes_of p requirePriced l order <-> elig q.
Proof.
  intros Ho. unfold quotes_of. rewrite list_elem_of_omap. split.
  - intros ([id en] & Hin & Hq). rewrite Ho in Hin. apply elem_of_map_to_list in Hin.
    by apply quote_of_eligible in Hq as [_ ?].
  - intros He. destruct He as (en & i & Hen & Hrest). exists (q_PeerID q, en).
    rewrite Ho, elem_of_map_to_list. split; [done|]. apply quote_of_eligible; [done|]. split; [done|]. by exists en, i.
Qed.

Lemma quotes_of_NoDup order : order ≡ₚ map_to_list entries -> NoDup (map q_PeerID (quotes_of p requirePriced l order)).
Proof.
  intros Ho. assert (Hnd : NoDup (map fst order)) by (rewrite Ho; apply NoDup_fst_map_to_list).
  unfold quotes_of. assert (Hall : forall e, e ∈ order -> entries !! fst e = Some (snd e)).
  { intros [id en]. rewrite Ho. by intros ?%elem_of_map_to_list. }
  clear Ho. induction order as [|[id en] order IH]; [constructor|]. cbn [map fst] in Hnd.
  change (omap quoted ((id, en) :: order)) with
    (match quoted (id, en) with Some q => q :: omap quoted order | None => omap quoted order end).
  apply NoDup_cons in Hnd as [Hid Hnd].
  assert (IH' := IH Hnd ltac:(intros e ?; apply Hall; by right)). destruct (quoted (id, en)) as [q|] eqn:Eq; [|exact IH'].
  apply quote_of_eligible in Eq as [Hq _]; [|by apply (Hall (id, en)); left]. simpl. constructor; [|done].
  rewrite Hq. intros (q' & Hq' & Hin)%list_elem_of_fmap. apply list_elem_of_omap in Hin as ([id' en'] & Hin & Hq2).
  apply quote_of_eligible in Hq2 as [Hq2 _]; [|by apply (Hall (id', en')); right]. apply Hid.
  apply list_elem_of_fmap. exists (id', en'). split; [simpl; congruence|done].
Qed.
End Quotes.

Lemma quotes_of_order p requirePriced l o1 o2 : o1 ≡ₚ o2 ->
  quotes_of p requirePriced l o1 ≡ₚ quotes_of p requirePriced l o2.
Proof. intros H. unfold quotes_of. by rewrite H. Qed.

Lemma quotes_nil {A} (l1 l2 : list A) : l1 ≡ₚ l2 -> l1 = [] <-> l2 = [].
Proof. intros H. split; intros ->; [by apply Permutation_nil|by apply Permutation_nil_r]. Qed.
Lemma filter_perm {A} (f : A -> bool) l1 l2 : l1 ≡ₚ l2 -> List.filter f l1 ≡ₚ List.filter f l2.
Proof.
  induction 1; simpl; [done|by destruct (f _); [constructor|]| |by etrans].
  destruct (f x), (f y); try done. apply perm_swap.
Qed.
Lemma filter_NoDup {A B} (g : A -> B) (f : A -> bool) l : NoDup (map g l) -> NoDup (map g (List.filter f l)).
Proof.
  induction l as [|x l IH]; simpl; [done|]. intros [Hx Hl]%NoDup_cons. destruct (f x); [|auto].
  simpl. constructor; [|auto]. intros (y & Hy & Hin)%list_elem_of_fmap. apply Hx. apply list_elem_of_fmap.
  exists y. split; [done|]. by apply list_elem_of_In, filter_In, proj1, list_elem_of_In in Hin.
Qed.

(** The choice, from any list with one quote per peer. *)
Lemma chooseQuotes_spec (P : EligiblePeerQuote -> Prop) caps quotes0 :
  (forall q, q ∈ quotes0 <-> P q) -> NoDup (map q_PeerID quotes0) ->
  match chooseQuotes quotes0 caps with
  | Err e => e = ErrPriceAboveMax /\ (exists q, P q) /\ forall q, P q -> Affordable q caps = false
  | Ok quotes =>
    (exists rest, StronglySorted cheaper (quotes ++ rest) /\ NoDup (map q_PeerID (quotes ++ rest)) /\
      (forall q, q ∈ quotes ++ rest <-> P q /\ Affordable q caps = true) /\
      (length quotes <= maxAllowedPeers)%nat /\ (rest <> [] -> length quotes = maxAllowedPeers)) /\
    (quotes = [] -> forall q, ~ P q)
  end.
Proof.
  intros HP Hnd. unfold chooseQuotes. set (aff := List.filter (fun q => Affordable q caps) quotes0).
  assert (Haff : forall q, q ∈ aff <-> P q /\ Affordable q caps = true).
  { intros q. unfold aff. rewrite list_elem_of_In, filter_In, <- list_elem_of_In. by rewrite HP. }
  pose proof (sortQuotes_Permutation aff) as Hs. pose proof (sortQuotes_sorted aff) as Hsort.
  assert (Hnds : NoDup (map q_PeerID (sortQuotes aff))).
  { rewrite (Permutation_map q_PeerID Hs). by apply filter_NoDup. }
  destruct (bool_decide _ && _) eqn:E.
  - apply andb_prop in E as [E1 E2]. apply bool_decide_eq_true in E1. apply negb_true_iff, bool_decide_eq_false in E2.
    rewrite E1 in Hs. apply Permutation_nil in Hs. split; [done|]. split.
    + destruct quotes0 as [|q r]; [done|]. exists q. apply HP. by left.
    + intros q Hq. destruct (Affordable q caps) eqn:Ea; [|done].
      assert (q ∈ aff) as Hin by by apply Haff. rewrite Hs in Hin. by apply elem_of_nil in Hin.
  - split.
    + exists (drop maxAllowedPeers (sortQuotes aff)). rewrite take_drop. split; [done|]. split; [done|].
      split; [intros q; rewrite Hs; apply Haff|]. rewrite length_take. split; [lia|]. intros Hr.
      assert (length (drop maxAllowedPeers (sortQuotes aff)) <> 0)%nat by (by intros ?%length_zero_iff_nil).
      rewrite length_drop in *. lia.
    + intros Ht q Hq. assert (Hn : sortQuotes aff = []).
      { destruct (sortQuotes aff); [done|]. unfold maxAllowedPeers in Ht. done. }
      rewrite Hn, bool_decide_eq_true_2 in E by done. simpl in E. apply negb_false_iff, bool_decide_eq_true in E.
      apply HP in Hq. rewrite E in Hq. by apply elem_of_nil in Hq.
Qed.

(** C36: whatever order the snapshot's map is walked in, the quotes are the cheapest of
    the eligible peers that the caps afford: one per peer, cheaper input first and then
    by peer, all of them unless there are more than 128.  The price refusal is given
    exactly when some peer is eligible and none is affordable, and no quotes at all only
    when no peer is eligible. *)
Theorem quotes_cheapest p requirePriced l entries order caps :
  order ≡ₚ map_to_list entries ->
  (forall order', order' ≡ₚ map_to_list entries ->
    chooseQuotes (quotes_of p requirePriced l order') caps = chooseQuotes (quotes_of p requirePriced l order) caps) /\
  match chooseQuotes (quotes_of p requirePriced l order) caps with
  | Err e => e = ErrPriceAboveMax /\ (exists q, eligible p requirePriced l entries q) /\
             forall q, eligible p requirePriced l entries q -> Affordable q caps = false
  | Ok quotes =>
    (exists rest, StronglySorted cheaper (quotes ++ rest) /\ NoDup (map q_PeerID (quotes ++ rest)) /\
      (forall q, q ∈ quotes ++ rest <-> eligible p requirePriced l entries q /\ Affordable q caps = true) /\
      (length quotes <= maxAllowedPeers)%nat /\ (rest <> [] -> length quotes = maxAllowedPeers)) /\
    (quotes = [] -> forall q, ~ eligible p requirePriced l entries q)
  end.
Proof.
  intros Ho. split.
  - intros order' Ho'. assert (Hp : quotes_of p requirePriced l order' ≡ₚ quotes_of p requirePriced l order)
      by (apply quotes_of_order; by rewrite Ho, Ho').
    unfold chooseQuotes. rewrite (sortQuotes_unique _ (List.filter (fun q => Affordable q caps) (quotes_of p requirePriced l order))).
    + by rewrite (bool_decide_ext _ _ (quotes_nil _ _ Hp)).
    + apply filter_NoDup. by apply quotes_of_NoDup with entries.
    + by apply filter_perm.
  - apply chooseQuotes_spec; [intros q; by apply elem_of_quotes|by apply quotes_of_NoDup with entries].
Qed.

(** ** Successful runs *)
Section Successful.
Context {D : Type}.
Implicit Types c : conn D.
Lemma ok_bind {A B} (m : M D A) (k : A -> M D B) e c b c' : bind m k e c = (Ok b, c') ->
  exists a c1, m e c = (Ok a, c1) /\ k a e c1 = (Ok b, c').
Proof. unfold bind. destruct (m e c) as [[a|x] c1]; [by exists a, c1|done]. Qed.
Lemma ok_wrap {A} fmt (m : M D A) e c a c' : wrap fmt m e c = (Ok a, c') -> m e c = (Ok a, c').
Proof. unfold wrap. by destruct (m e c) as [[?|?] ?]. Qed.
Lemma ok_stmt {A} (s : stmt D A) e c a c' : tx_stmt s e c = (Ok a, c') ->
  exists w w', c_tx c = Some w /\ s w = Ok (a, w') /\ c_tx c' = Some w'.
Proof.
  unfold tx_stmt. destruct (c_tx c) as [w|]; [|done]. destruct (c_bad c); [done|].
  destruct (e_fault e (c_step c)); [|done..]. destruct (s w) as [[a' w']|x] eqn:Es; [|done].
  intros [= <- <-]. by exists w, w'.
Qed.
Lemma ok_commit e c u c' : commit e c = (Ok u, c') -> c_tx c = Some (c_db c').
Proof.
  unfold commit. destruct (c_tx c) as [w|]; [|done]. destruct (c_bad c); [done|].
  by destruct (e_fault e (c_step c)); intros [= <- <-].
Qed.
Lemma ok_with_tx {A} fmt (body : M D A) e c a c' : with_tx fmt body e c = (Ok a, c') ->
  exists c1 c2, body e c1 = (Ok a, c2) /\ c_db c' = c_db c2.
Proof.
  unfold with_tx. destruct (begin_tx e c) as [[u|x] c1]; [|done]. destruct (body e c1) as [r c2] eqn:Eb.
  simpl. intros [= -> <-]. by exists c1, c2.
Qed.
End Successful.

Lemma insert_request_ok id r d u d' : sql_insert_request id r d = Ok (u, d') -> requests d' !! id = Some r.
Proof.
  unfold sql_insert_request. destruct (requests d !! id); [done|]. unfold write_request.
  repeat case_match; try done; intros [= _ <-]; apply lookup_insert_eq.
Qed.
Lemma update_credit_requests a f d u d' : sql_update_credit a f d = Ok (u, d') -> requests d' = requests d.
Proof.
  unfold sql_update_credit. destruct (credits d !! a); [|by intros [= _ <-]]. unfold write_credit.
  repeat case_match; try done; by intros [= _ <-].
Qed.

(** A reservation that is reported as made is there. *)
Lemma ReserveBilling_ok req e d cr d' : run (ReserveBilling req) e d = (Ok cr, d') ->
  exists reserve t, ReserveAmount (rs_Quotes req) (rs_InputCeil req) (rs_OutputCeil req) = Ok reserve /\
    requests d' !! rs_RequestID req = Some (new_request_row req reserve t).
Proof.
  unfold run. destruct (ReserveBilling req e _) as [r c] eqn:E. intros [= -> <-]. revert E.
  unfold ReserveBilling. destruct (_ || _); [done|]. destruct (bool_decide _); [done|].
  destruct (checkReservationQuotes _); [done|].
  intros (reserve & c1 & Hr%ok_wrap & E)%ok_bind. injection Hr as Hr _.
  apply ok_bind in E as (t & c2 & _ & E). apply ok_with_tx in E as (c3 & c4 & E & ->).
  apply ok_bind in E as (? & c5 & _ & E). apply ok_bind in E as (cr0 & c6 & _ & E).
  apply ok_bind in E as (sum & c7 & _ & E). exists reserve, t. split; [done|].
  match type of E with (if ?b then _ else _) _ _ = _ => destruct b; [done|] end.
  unfold attempt in E. destruct (tx_stmt _ e c7) as [[u|er] c8] eqn:Ei; [|by destruct (isUniqueViolation er)].
  apply ok_stmt in Ei as (w & w' & _ & Hi%insert_request_ok & Hw).
  apply ok_bind in E as (u1 & c9 & Hb & E). apply ok_bind in E as (u2 & c10 & Hc%ok_wrap & E).
  injection E as _ <-. apply ok_commit in Hc.
  assert (Hreq : exists w9, c_tx c9 = Some w9 /\ requests w9 = requests w').
  { destruct (reserve >? 0); [|injection Hb as _ <-; by exists w'].
    apply ok_wrap, ok_stmt in Hb as (w8 & w9 & Hw8 & Hu%update_credit_requests & Hw9). exists w9.
    split; [done|]. congruence. }
  destruct Hreq as (w9 & Hw9 & Hreq). assert (w9 = c_db c10) as -> by congruence. by rewrite Hreq.
Qed.

Section Steps.
Context {N : Type}.
Lemma ok_wbind {A B} (m : W N A) (k : A -> W N B) o w b w' : wbind m k o w = (Some (Ok b), w') ->
  exists a w1, m o w = (Some (Ok a), w1) /\ k a o w1 = (Some (Ok b), w').
Proof. unfold wbind. destruct (m o w) as [[[a|x]|] w1]; [by exists a, w1|done..]. Qed.
Lemma ok_wattempt {A B} (m : W N A) (k : res A -> W N B) o w b w' : wattempt m k o w = (Some (Ok b), w') ->
  exists r w1, m o w = (Some r, w1) /\ k r o w1 = (Some (Ok b), w').
Proof. unfold wattempt. destruct (m o w) as [[r|] w1]; [by exists r, w1|done]. Qed.
Lemma ok_callStore {A} (m : store A) o w a (w' : world N) : callStore m o w = (Some (Ok a), w') ->
  exists e d, run m e d = (Ok a, w_db w').
Proof.
  unfold callStore. destruct (run _ _ _) as [r d] eqn:E. intros [= -> <-].
  by exists (o_env o (w_calls w)), (o_others o (w_calls w) (w_db w)).
Qed.
End Steps.

(** The memory that the inspection leaves. *)
Definition set_mem (m : mem) (n : node) : node := mkNode m (n_dir n) (n_cached n) (n_fetched n).
Lemma inspect_ok s x r o w pr w1 : inspect s x r o w = (Some (Ok pr), w1) ->
  exists m, Inspect (ci_buffer x) (mkOptions (sv_output s)) r (n_mem (w_node w)) = (Some pr, m) /\
    w1 = mkWorld (w_db w) (set_mem m (w_node w)) (w_calls w).
Proof.
  unfold inspect. destruct (Inspect _ _ _ _) as [[pr'|] m]; [|done]. intros [= <- <-]. by exists m.
Qed.
(** What the next call of the store finds, and the world when it has only read that. *)
Definition seen {N} (o : outside) (w : world N) : db := o_others o (w_calls w) (w_db w).
Definition after_read {N} (o : outside) (w : world N) : world N := mkWorld (seen o w) (w_node w) (S (w_calls w)).

Lemma ok_pool {A} (s : stmt db A) e c a c' : pool_stmt s e c = (Ok a, c') -> s (c_db c) = Ok (a, c_db c').
Proof.
  unfold pool_stmt. destruct (e_fault e (c_step c)); [|done|].
  - destruct (s (c_db c)) as [[a' d']|x]; by intros [= <- <-].
  - destruct (s (c_db c)) as [[a' d']|x]; by intros [= <- <-].
Qed.
Lemma read_ok {N A} fmt (f : db -> A) o (w : world N) a w' :
  callStore (wrap fmt (pool_stmt (query f))) o w = (Some (Ok a), w') -> a = f (seen o w) /\ w' = after_read o w.
Proof.
  unfold callStore, run. destruct (wrap _ _ _ _) as [r c] eqn:E. intros [= -> <-].
  apply ok_wrap, ok_pool in E. by injection E as <- <-.
Qed.
Lemma credit_ok {N} buyer o (w : world N) c w' :
  callStore (AccountCreditOf buyer) o w = (Some (Ok c), w') ->
  credit_of_row buyer <$> credits (seen o w) !! buyer = Some c /\ w' = after_read o w.
Proof.
  unfold callStore, run, AccountCreditOf, attempt. destruct (scan_row _ _ _) as [[c1|e] k] eqn:E.
  2: by destruct (errors_is _ _).
  intros [= <- <-]. unfold scan_row in E. apply ok_bind in E as (q & k1 & H%ok_pool & E).
  injection H as <- H. simpl in H. destruct (credits _ !! buyer); [|done]. injection E as <- <-.
  unfold after_read, seen. by rewrite H.
Qed.

(** [rows] are the account's rules. *)
Definition rules_read (a : string) (d : db) (rows : list ModelCaps) : Prop :=
  forall r, r ∈ rows <-> exists k, model_caps d !! k = Some r /\ fst (fst k) = a.

(** The caps of the account for the service and the model, merged with the request's:
    its row as the second call after [w] finds it, its rules as the third does. *)
Definition resolved_caps (o : outside) (buyer : string) (p : Plan) (reqCaps : Caps) (w : world node) (caps : Caps)
    (w' : world node) : Prop :=
  exists w1 row rows, callStore (EnsureAccountCredit buyer) o w = (Some (Ok tt), w1) /\
    credits (seen o w1) !! buyer = Some row /\ rules_read buyer (seen o (after_read o w1)) rows /\
    caps = MergeCaps (Effective (cr_caps row) rows (pl_Service p) (pl_Model p)) reqCaps /\
    w' = after_read o (after_read o w1).

(** [l] are the asks of the service and the model that live at [t]. *)
Definition live_now (p : Plan) (d : db) (t : time) (l : list Ask) : Prop :=
  forall a, a ∈ l <->
    (exists k, asks d !! k = Some a) /\ ak_Service a = pl_Service p /\ ak_Model a = pl_Model p /\ t < ak_ExpiresAt a.

(** [snap] is the snapshot that the request is served, [l] the asks found next. *)
Definition market_view (s : GateService) (x : circumstances) (o : outside) (p : Plan) (w : world node)
    (snap : Snapshot) (l : list Ask) (w' : world node) : Prop :=
  exists w1, fetchSnapshot (sv_peers s) (ci_exchange x) o w = (Some (Ok snap), w1) /\
    live_now p (seen o w1) (e_now (o_env o (w_calls w1))) l /\ w' = after_read o w1.

(** [quotes] are the cheapest of the eligible and affordable ones. *)
Definition cheapest (P : EligiblePeerQuote -> Prop) (quotes : list EligiblePeerQuote) : Prop :=
  exists rest, StronglySorted cheaper (quotes ++ rest) /\ NoDup (map q_PeerID (quotes ++ rest)) /\
    (forall q, q ∈ quotes ++ rest <-> P q) /\
    (length quotes <= maxAllowedPeers)%nat /\ (rest <> [] -> length quotes = maxAllowedPeers).

Lemma resolveCaps_ok buyer has p rc o w caps w1 : resolveCaps buyer has p rc o w = (Some (Ok caps), w1) ->
  has = true /\ resolved_caps o buyer p rc w caps w1.
Proof.
  unfold resolveCaps. destruct has; simpl negb; cbv iota; [|done].
  intros ([] & w2 & He & (c & w3 & Hc & (rows & w4 & Hr & E)%ok_wbind)%ok_wbind)%ok_wbind.
  injection E as <- <-. apply credit_ok in Hc as [Hc ->]. apply read_ok in Hr as [-> ->].
  split; [done|]. destruct (credits _ !! buyer) as [row|] eqn:Er; [|done]. injection Hc as <-.
  eexists w2, row, _. split; [done|]. split; [done|]. split; [|done]. intros r.
  rewrite list_elem_of_fmap. setoid_rewrite merge_sort_Permutation. split.
  - intros ([k r'] & -> & [Hin Hk]%list_elem_of_In%filter_In). apply list_elem_of_In, elem_of_map_to_list in Hin.
    exists k. split; [done|]. by apply String.eqb_eq.
  - intros (k & Hk & <-). exists (k, r). split; [done|]. apply list_elem_of_In, filter_In.
    split; [by apply list_elem_of_In, elem_of_map_to_list|]. apply String.eqb_refl.
Qed.
Lemma reserve_ok x buyer p caps quotes o w id w1 : reserve x buyer p caps quotes o w = (Some (Ok id), w1) ->
  exists reserve t, ReserveAmount quotes (pl_InputCeiling p) (pl_OutputCeiling p) = Ok reserve /\
    requests (w_db w1) !! id = Some (new_request_row (reservation id buyer p caps quotes) reserve t).
Proof.
  unfold MarketGate.reserve. intros (id' & w2 & Hid & (u & w3 & Hs & E)%ok_wbind)%ok_wbind.
  injection E as -> <-. apply ok_callStore in Hs as (e & d & Hs). by apply ReserveBilling_ok in Hs.
Qed.
Lemma live_now_ok p t o (w : world node) l w' :
  callStore (LiveAsks (pl_Service p) (pl_Model p) t) o w = (Some (Ok l), w') ->
  live_now p (seen o w) t l /\ w' = after_read o w.
Proof.
  intros [-> ->]%read_ok. split; [|done]. intros a. rewrite merge_sort_Permutation, list_elem_of_filter.
  rewrite list_elem_of_fmap. split.
  - intros [(? & ? & ?) ([k b] & -> & Hk%elem_of_map_to_list)]. repeat split; try done. by exists k.
  - intros [[k Hk] (? & ? & ?)]. split; [done|]. exists (k, a). split; [done|]. by apply elem_of_map_to_list.
Qed.
Lemma resolveQuotes_ok s x p caps o w quotes w1 :
  (forall l, ci_order x l ≡ₚ l) -> resolveQuotes s x p caps o w = (Some (Ok quotes), w1) ->
  exists snap l, market_view s x o p w snap l w1 /\
    cheapest (fun q => eligible p (sv_requirePricedPeer s) l (sn_Entries snap) q /\ Affordable q caps = true) quotes.
Proof.
  intros Ho. unfold resolveQuotes. intros (snap & w2 & Hs & (t & w3 & Ht & (l & w4 & Hl & E)%ok_wbind)%ok_wbind)%ok_wbind.
  injection Ht as <- <-. apply live_now_ok in Hl as [Hl ->]. injection E as E <-. exists snap, l.
  split; [by exists w2|]. set (entries := sn_Entries snap) in *.
  assert (Hp : ci_order x (map_to_list entries) ≡ₚ map_to_list entries) by done.
  pose proof (chooseQuotes_spec (eligible p (sv_requirePricedPeer s) l entries) caps _
    (fun q => elem_of_quotes _ _ _ _ _ q Hp) (quotes_of_NoDup _ _ _ _ _ Hp)) as H.
  rewrite E in H. apply H.
Qed.

(** A reservation of [req] by [buyer]. *)
Definition reserved_for (buyer : string) (p : Plan) (row : RequestRow) : Prop :=
  rr_state row = StateReserved /\ rr_buyer_account_id row = buyer /\
  rr_service row = pl_Service p /\ rr_model row = pl_Model p /\
  ReserveAmount (rr_eligible_peers row) (pl_InputCeiling p) (pl_OutputCeiling p) = Ok (rr_reserved_raw row).

(** C3: in enforce mode no metered request goes through unpaid.  If the gate forwards a
    request that it supports, whatever the stores, the upstream and the other clients
    do, an open reservation of the caller's account for the request's ceilings has been
    committed under the id that the request carries.  Its caps are the account's row and
    rules, as the request's own reads found them, merged with the request's headers; its
    quotes are the cheapest, one per peer and 128 at most, of the peers of the snapshot
    that this request was served which serve the model, can be paid and are within those
    caps, at the prices live in the asks table when the request read it; there is at
    least one; and the request names exactly these peers to the mesh, whatever its client
    asked for.  A request that is not supported is forwarded only if it generates
    nothing, unchanged, and touches no balance. *)
Theorem enforced_forward s x r o w rq' w' :
  sv_mode s = BillingEnforce -> (forall l, ci_order x l ≡ₚ l) ->
  Middleware s x r o w = (Some (Ok (Forward rq')), w') ->
  exists p req m, Inspect (ci_buffer x) (mkOptions (sv_output s)) r (n_mem (w_node w)) = (Some (p, req), m) /\
  if pl_Supported p then
    exists id row reqCaps snap l w2 w3, let w1 := mkWorld (w_db w) (set_mem m (w_node w)) (w_calls w) in
      rq_BillingID rq' = Some id /\ requests (w_db w') !! id = Some row /\
      rq_Account r = Some (rr_buyer_account_id row) /\ rr_buyer_account_id row <> ""%string /\
      reserved_for (rr_buyer_account_id row) p row /\
      parseRequestCaps req = Ok reqCaps /\
      resolved_caps o (rr_buyer_account_id row) p reqCaps w1 (rr_caps row) w2 /\
      market_view s x o p w2 snap l w3 /\
      cheapest (fun q => eligible p (sv_requirePricedPeer s) l (sn_Entries snap) q /\ Affordable q (rr_caps row) = true)
        (rr_eligible_peers row) /\
      rr_eligible_peers row <> [] /\
      header_get allowedPeersHeader (rq_Header rq') = join "," (map q_PeerID (rr_eligible_peers row))
  else pl_Generative p = false /\ rq' = req /\ w_db w' = w_db w.
Proof.
  intros Hmode Ho. unfold Middleware. rewrite Hmode. unfold serve.
  assert (He : enforcing s = true) by (unfold enforcing; by rewrite Hmode). rewrite He.
  intros ([p req] & w1 & Hi & E)%ok_wbind. apply inspect_ok in Hi as (m & Hi & ->). exists p, req, m. split; [done|].
  destruct (account_ID r) as [buyer has] eqn:Ea. destruct (pl_Supported p) eqn:Es; simpl negb in E; cbv iota in E.
  2: { destruct (pl_Generative p); simpl in E; [done|]. by injection E as <- <-. }
  destruct (parseRequestCaps req) as [reqCaps|] eqn:Erc; [|done].
  apply ok_wattempt in E as ([caps|e] & w2 & Hc & E); [|done]. apply resolveCaps_ok in Hc as [-> Hc].
  apply ok_wattempt in E as ([quotes|e] & w3 & Hq & E);
    [|injection E as E _; unfold quote_error in E; by destruct (errors_is _ _)].
  destruct (bool_decide (quotes = [])) eqn:En; [done|]. apply bool_decide_eq_false in En. simpl negb in E. cbv iota in E.
  apply resolveQuotes_ok in Hq as (snap & l & Hv & Hq); [|done].
  apply ok_wattempt in E as ([id|e] & w4 & Hr & E);
    [|injection E as E _; unfold reserve_error in E; by repeat destruct (errors_is _ _)].
  injection E as <- <-. apply reserve_ok in Hr as (amount & t & Hamt & Hrow).
  exists id, (new_request_row (reservation id buyer p caps quotes) amount t), reqCaps, snap, l, w2, w3.
  unfold account_ID in Ea. destruct (rq_Account r) as [a|]; [|done]. injection Ea as -> Hne.
  apply negb_true_iff, String.eqb_neq in Hne.
  do 10 (split; [done|]). simpl. rewrite bool_decide_eq_false_2 by done.
  unfold header_get, header_set. by rewrite lookup_insert_eq.
Qed.

(** ** Observing *)
(** Every balance, reservation, delegation and ledger row is as before. *)
Definition untouched (d d' : db) : Prop :=
  requests d' = requests d /\ ledger d' = ledger d /\ allowances d' = allowances d /\
  forall a, credit_of a d' = credit_of a d /\ reserved_of a d' = reserved_of a d.
#[export] Instance untouched_preorder : PreOrder untouched.
Proof.
  split; [done|]. intros d1 d2 d3 (H1 & H2 & H3 & H4) (K1 & K2 & K3 & K4). split; [congruence|].
  split; [congruence|]. split; [congruence|]. intros a. destruct (H4 a) as [E1 E2], (K4 a) as [F1 F2].
  split; congruence.
Qed.

Lemma ensure_untouched a t d u d' : sql_ensure_credit a t d = Ok (u, d') -> untouched d d'.
Proof.
  unfold sql_ensure_credit. destruct (credits d !! a) eqn:E; [by intros [= _ <-]|].
  unfold write_credit. repeat case_match; try done. intros [= _ <-]. repeat (split; [done|]). intros b.
  unfold credit_of, reserved_of. simpl. destruct (decide (a = b)) as [->|Hne];
    [rewrite lookup_insert_eq, E|rewrite lookup_insert_ne by done]; done.
Qed.
Lemma query_untouched {A} (f : db -> A) d a d' : query f d = Ok (a, d') -> untouched d d'.
Proof. by intros [= _ <-]. Qed.

Section Observe.
Context (o : outside) (Ho : forall n d, o_others o n d = d).

(** Nothing is touched and nothing panics. *)
Definition keeps {A} (m : W node A) : Prop :=
  forall w, untouched (w_db w) (w_db (snd (m o w))) /\ is_Some (fst (m o w)).

Lemma keeps_attempt {A B} (m : W node A) (k : res A -> W node B) : keeps m -> (forall r, keeps (k r)) -> keeps (wattempt m k).
Proof.
  intros Hm Hk w. unfold wattempt. destruct (Hm w) as [H [r Hr]]. destruct (m o w) as [r' w1]. simpl in *. subst r'.
  destruct (Hk r w1) as [H' Hs]. split; [|done]. by etrans.
Qed.
Lemma keeps_bind {A B} (m : W node A) (k : A -> W node B) : keeps m -> (forall a, keeps (k a)) -> keeps (wbind m k).
Proof.
  intros Hm Hk w. pose proof (keeps_attempt m (fun r => match r with Ok a => k a | Err e => wfail e end) Hm) as H.
  specialize (H ltac:(intros [a|e]; [apply Hk|intros w1; split; [done|by eexists]]) w).
  unfold wbind, wattempt in *. destruct (m o w) as [[[a|e]|] w1]; exact H.
Qed.
Lemma keeps_pure {A} (m : W node A) : (forall w, w_db (snd (m o w)) = w_db w /\ is_Some (fst (m o w))) -> keeps m.
Proof. intros H w. destruct (H w) as [E Hs]. by rewrite E. Qed.
Lemma keeps_now {A} (f : world node -> res A) : keeps (fun _ w => (Some (f w), w)).
Proof. by apply keeps_pure. Qed.
Lemma keeps_node {A} (f : node -> res A * node) : keeps (callNode f).
Proof. apply keeps_pure. intros w. unfold callNode. by destruct (f _). Qed.
Lemma keeps_store {A} (m : store A) : Moves untouched m -> keeps (callStore m).
Proof.
  intros Hm w. unfold callStore. rewrite Ho. pose proof (moves_run untouched m (o_env o (w_calls w)) (w_db w) Hm) as H.
  by destruct (run _ _ _).
Qed.

Lemma keeps_resolveCaps buyer has p rc : keeps (resolveCaps buyer has p rc).
Proof.
  unfold resolveCaps. destruct (negb has); [by apply keeps_pure|].
  apply keeps_bind; [|intros _; apply keeps_bind; [|intros c; apply keeps_bind; [|intros rows; by apply keeps_pure]]];
    apply keeps_store.
  - unfold EnsureAccountCredit. destruct (String.eqb _ _); [apply moves_fail|]. apply moves_bind; [apply moves_now|].
    intros t. apply moves_wrap, moves_pool; [typeclasses eauto|]. apply ensure_untouched.
  - unfold AccountCreditOf. apply moves_attempt; [|intros [?|?]; moves]. apply moves_scan, moves_pool; [typeclasses eauto|].
    apply query_untouched.
  - unfold ModelCapsForAccount. apply moves_wrap, moves_pool; [typeclasses eauto|]. apply query_untouched.
Qed.
Lemma keeps_snapshot s x : keeps (fetchSnapshot s x).
Proof.
  assert (Hr : keeps (refresh s x)).
  { unfold refresh. apply keeps_bind; [by apply keeps_pure|]. intros table. destruct (negb _); [by apply keeps_pure|].
    apply keeps_attempt; [apply keeps_node|]. intros [l|e]; [|by apply keeps_pure].
    apply keeps_bind; [by apply keeps_pure|]. intros t. apply keeps_bind; [apply keeps_node|]. intros _. by apply keeps_pure. }
  unfold fetchSnapshot. apply keeps_bind; [by apply keeps_pure|]. intros n. apply keeps_bind; [by apply keeps_pure|].
  intros t. destruct (n_cached n); [|done]. destruct (_ <? _); [by apply keeps_pure|done].
Qed.
Lemma keeps_resolveQuotes s x p caps : keeps (resolveQuotes s x p caps).
Proof.
  unfold resolveQuotes. apply keeps_bind; [apply keeps_snapshot|]. intros snap. apply keeps_bind; [by apply keeps_pure|].
  intros t. apply keeps_bind; [|intros l; by apply keeps_pure]. apply keeps_store. unfold LiveAsks.
  apply moves_wrap, moves_pool; [typeclasses eauto|]. apply query_untouched.
Qed.
End Observe.

(** in observe mode the gate moves nothing and turns nothing away.  Unless the
    inspection itself panics, every request is forwarded exactly as the inspection left
    it, or, when a price cap is malformed, refused with 400; and whatever happens,
    every reservation, ledger row, delegation and balance is as before. *)
Theorem observed_forward s x r o w :
  sv_mode s = BillingObserve -> (forall n d, o_others o n d = d) ->
  untouched (w_db w) (w_db (snd (Middleware s x r o w))) /\
  match fst (Inspect (ci_buffer x) (mkOptions (sv_output s)) r (n_mem (w_node w))) with
  | None => fst (Middleware s x r o w) = None
  | Some (p, req) =>
    fst (Middleware s x r o w) = Some (Ok (Forward req)) \/
    (pl_Supported p = true /\ (exists e, parseRequestCaps req = Err e) /\
     fst (Middleware s x r o w) = Some (Ok (Reject 400 "invalid_price_cap")))
  end.
Proof.
  intros Hm Ho. unfold Middleware. rewrite Hm. unfold serve, inspect, wbind.
  assert (He : enforcing s = false) by (unfold enforcing; by rewrite Hm). rewrite He.
  destruct (Inspect _ _ _ _) as [[[p req]|] m]; simpl; [|done]. set (w1 := mkWorld (w_db w) _ _).
  assert (Hw : w_db w = w_db w1) by done. rewrite Hw. clearbody w1. destruct (account_ID r) as [buyer has].
  destruct (pl_Supported p); simpl; [|split; [done|by left]].
  destruct (parseRequestCaps req) as [rc|e]; [|split; [done|right; repeat split; by exists e]].
  unfold wattempt. destruct (keeps_resolveCaps o Ho buyer has p rc w1) as [H1 [r1 E1]].
  destruct (resolveCaps _ _ _ _ _ _) as [r1' w2]. simpl in H1, E1. subst r1'.
  destruct r1 as [caps|e]; [|split; [exact H1|by left]].
  destruct (keeps_resolveQuotes o Ho s x p caps w2) as [H2 [r2 E2]].
  destruct (resolveQuotes _ _ _ _ _ _) as [r2' w3]. simpl in H2, E2. subst r2'.
  assert (H3 : untouched (w_db w1) (w_db w3)) by by etrans.
  destruct r2 as [quotes|e]; [|split; [exact H3|by left]].
  destruct (bool_decide _); (split; [exact H3|by left]).
Qed.

(** ** A concrete market *)
Definition demo_plan : Plan := mkPlan "llm" "chat/completions" "m" false false 30 100 true true.
Definition demo_instance (id : Z) (peer seller : string) : InstanceInfo :=
  mkInstance id seller peer "" "wallet" "" "" 0 "" None None zeroTime zeroTime [] None [].
Definition demo_entry (id : Z) (peer seller : string) : Entry :=
  mkEntry (mkPeer true [mkPeerService "llm" ["model=m"%string]]) (Some (demo_instance id peer seller)).
Definition demo_entries : gmap string Entry :=
  {[ "p1"%string := demo_entry 1 "p1" "s1"; "p2"%string := demo_entry 2 "p2" "s2" ]}.
Definition demo_ask (peer : string) (price : Z) : Ask := mkAsk peer "llm" "m" price price price 1 1000 0.

Lemma quotes_cheapest_witness :
  let l := [demo_ask "p1" 7; demo_ask "p2" 5] in
  chooseQuotes (quotes_of demo_plan true l (reverse (map_to_list demo_entries))) no_caps =
    chooseQuotes (quotes_of demo_plan true l (map_to_list demo_entries)) no_caps /\
  chooseQuotes (quotes_of demo_plan true l (map_to_list demo_entries)) no_caps =
    Ok [mkQuote "p2" "s2" "wallet" 1 5 5 5; mkQuote "p1" "s1" "wallet" 1 7 7 7].
Proof.
  split; [|reflexivity].
  apply (quotes_cheapest demo_plan true [demo_ask "p1" 7; demo_ask "p2" 5] demo_entries (map_to_list demo_entries) no_caps);
    [done|apply reverse_Permutation].
Defined.

Definition demo_service (mode : BillingMode) : GateService := mkGate (mkPeersService 100 true) mode 64 500 true.
Definition demo_circumstances : circumstances :=
  mkCircumstances (mkChoice None None) (mkExchange (Err mismatch) (fine_env 0)) (fun l => l)
    (Ok (repeat (byteZ 5) 16)).
Definition demo_world : world node :=
  mkWorld (set_asks {[("p1", "llm", "m")%string := demo_ask "p1" 5]}
      (set_credits {["buyer"%string := mkCredit 1000 0 no_caps 0]} empty_db))
    (mkNode (mkMem ∅ [] 0) empty_dir (Some (mkSnapshot demo_entries 0)) 0) 0.
Definition demo_outside : outside := mkOutside (fun _ => fine_env 1) (fun _ d => d) (fun _ => false).
Definition demo_body : chars :=
  map (fun c => if Ascii.eqb c "'" then "034"%char else c) (chars_of "{'model':'m','max_tokens':100}").
Definition demo_call : Request :=
  mkRequest "POST" "/v1/service/llm/v1/chat/completions" ∅ 30 (Some [Conn demo_body true]) (Some "buyer"%string) None.

Definition demo_outcome (mode : BillingMode) : option (res answer) * world node :=
  Middleware (demo_service mode) demo_circumstances demo_call demo_outside demo_world.

Definition forwarded (out : option (res answer) * world node) : option Request :=
  match fst out with Some (Ok (Forward rq)) => Some rq | _ => None end.
Lemma forwarded_inv out rq : forwarded out = Some rq -> exists w', out = (Some (Ok (Forward rq)), w').
Proof. destruct out as [[[[? ?|?]|?]|] w']; try done. intros [= ->]. by exists w'. Qed.

Lemma enforced_forward_witness : exists rq' w',
  demo_outcome BillingEnforce = (Some (Ok (Forward rq')), w') /\
  header_get allowedPeersHeader (rq_Header rq') = "p1"%string /\
  exists p req m, Inspect (mkChoice None None) (mkOptions 64) demo_call (mkMem ∅ [] 0) = (Some (p, req), m) /\
    (pl_Supported p = true -> exists id row, rq_BillingID rq' = Some id /\ requests (w_db w') !! id = Some row /\
      reserved_for "buyer" p row).
Proof.
  assert (E : (fun rq => header_get allowedPeersHeader (rq_Header rq)) <$> forwarded (demo_outcome BillingEnforce)
    = Some "p1"%string) by (vm_compute; reflexivity).
  apply fmap_Some in E as (rq' & E & Hh). apply forwarded_inv in E as (w' & Ho).
  exists rq', w'. split; [exact Ho|]. split; [by symmetry|].
  destruct (enforced_forward (demo_service BillingEnforce) demo_circumstances demo_call demo_outside demo_world rq' w'
    eq_refl (fun l => reflexivity l) Ho) as (p & req & m & Hi & H).
  exists p, req, m. split; [exact Hi|]. intros Hs. rewrite Hs in H.
  destruct H as (id & row & rc & snap & l & w2 & w3 & H1 & H2 & H3 & _ & H4 & _). exists id, row. split; [done|]. split; [done|].
  injection H3 as H3. rewrite <- H3 in H4. exact H4.
Defined.

Lemma observed_forward_witness :
  untouched (w_db demo_world) (w_db (snd (demo_outcome BillingObserve))) /\
  is_Some (forwarded (demo_outcome BillingObserve)).
Proof.
  split; [|by vm_compute; eexists].
  exact (proj1 (observed_forward (demo_service BillingObserve) demo_circumstances demo_call demo_outside demo_world
    eq_refl (fun _ _ => eq_refl))).
Defined.
