(* ===== verification/Response.v ===== *)
(** * internal/perf and internal/settlement: what a response costs

    The body of a proxied response is parsed as it streams past the client, for the
    usage record of either API dialect; when the body ends, the reservation of its
    request is settled with that usage or released.  Timings, the exported samples and
    the fingerprint of the peer are telemetry and left out. *)
From Stdlib Require Import ZArith Lia Strings.Ascii Strings.String.
From stdpp Require Import base gmap strings list.
From S2P Require Import Prelude Projection BillingSpec StoreSpec GateSpec MarketGate MarketSpec Sha256 Base58 Billing Tx Schema BillingStore Worker GoText Json Gate.

Open Scope Z_scope.
Local Open Scope worker_scope.

(** ** json.Unmarshal with its error discarded

    A value that does not fit its target leaves the target as it is and the decoding
    goes on; only a syntax error, found before the decoding starts, leaves everything
    zero.  A pointer is allocated before its value is looked at.  An element of a slice
    is decoded over the element that is there. *)
Notation lenient A := (A -> json -> A).
Definition len_string : lenient string := fun cur j => match j with JStr s => s | _ => cur end.
Definition len_int : lenient Z := fun cur j =>
  match j with JInt z => if bool_decide (in_i64 z) then z else cur | _ => cur end.
Definition len_ptr {A} (zero : A) (d : lenient A) : lenient (option A) := fun cur j =>
  match j with JNull => None | _ => Some (d (default zero cur) j) end.
Fixpoint len_elems {A} (zero : A) (d : lenient A) (cur : list A) (l : list json) : list A :=
  match l with
  | [] => []
  | j :: r => d (default zero (head cur)) j :: len_elems zero d (tail cur) r
  end.
Definition len_slice {A} (zero : A) (d : lenient A) : lenient (list A) := fun cur j =>
  match j with JNull => [] | JArr l => len_elems zero d cur l | _ => cur end.
Definition len_fields (A : Type) : Type := list (string * lenient A).
Fixpoint len_member {A} (fs : len_fields A) (cur : A) (key : string) (j : json) : A :=
  match fs with
  | [] => cur
  | (name, d) :: r => if same_key name key then d cur j else len_member r cur key j
  end.
Definition len_struct {A} (fs : len_fields A) : lenient A := fun cur j =>
  match j with JObj l => fold_left (fun a kv => len_member fs a (fst kv) (snd kv)) l cur | _ => cur end.
Definition lfld {A B} (name : string) (get : A -> B) (set : B -> A -> A) (d : lenient B) : string * lenient A :=
  (name, fun a j => set (d (get a) j) a).

(** ** perf/parser.go: the fields *)
Definition jsonCaptureCap : Z := 262144.
Definition sseLineCap : Z := 1048576.

Record usage := mkUsageRecord {
  us_InputTokens : Z; us_OutputTokens : Z; us_PromptTokens : Z; us_CompletionTokens : Z;
  us_CacheReadInputTokens : Z; us_CacheCreationInput : Z;
  us_PromptTokensDetails : option Z (* CachedTokens *) }.
Definition zero_usage : usage := mkUsageRecord 0 0 0 0 0 0 None.
Record message := mkMessage { me_Model : string; me_Usage : option usage }.
Record choice_delta := mkDelta { cd_Content : string; cd_ReasoningContent : string }.
Record probe := mkProbe {
  pr_Model : string; pr_Type : string; pr_Usage : option usage; pr_Message : option message;
  pr_Choices : list choice_delta; pr_DeltaType : string }.
Definition zero_probe : probe := mkProbe "" "" None None [] "".

Definition len_usage : lenient usage := len_struct [
  lfld "input_tokens" us_InputTokens (fun v u => mkUsageRecord v (us_OutputTokens u) (us_PromptTokens u)
    (us_CompletionTokens u) (us_CacheReadInputTokens u) (us_CacheCreationInput u) (us_PromptTokensDetails u)) len_int;
  lfld "output_tokens" us_OutputTokens (fun v u => mkUsageRecord (us_InputTokens u) v (us_PromptTokens u)
    (us_CompletionTokens u) (us_CacheReadInputTokens u) (us_CacheCreationInput u) (us_PromptTokensDetails u)) len_int;
  lfld "prompt_tokens" us_PromptTokens (fun v u => mkUsageRecord (us_InputTokens u) (us_OutputTokens u) v
    (us_CompletionTokens u) (us_CacheReadInputTokens u) (us_CacheCreationInput u) (us_PromptTokensDetails u)) len_int;
  lfld "completion_tokens" us_CompletionTokens (fun v u => mkUsageRecord (us_InputTokens u) (us_OutputTokens u)
    (us_PromptTokens u) v (us_CacheReadInputTokens u) (us_CacheCreationInput u) (us_PromptTokensDetails u)) len_int;
  lfld "cache_read_input_tokens" us_CacheReadInputTokens (fun v u => mkUsageRecord (us_InputTokens u) (us_OutputTokens u)
    (us_PromptTokens u) (us_CompletionTokens u) v (us_CacheCreationInput u) (us_PromptTokensDetails u)) len_int;
  lfld "cache_creation_input_tokens" us_CacheCreationInput (fun v u => mkUsageRecord (us_InputTokens u) (us_OutputTokens u)
    (us_PromptTokens u) (us_CompletionTokens u) (us_CacheReadInputTokens u) v (us_PromptTokensDetails u)) len_int;
  lfld "prompt_tokens_details" us_PromptTokensDetails (fun v u => mkUsageRecord (us_InputTokens u) (us_OutputTokens u)
    (us_PromptTokens u) (us_CompletionTokens u) (us_CacheReadInputTokens u) (us_CacheCreationInput u) v)
    (len_ptr 0 (len_struct [lfld "cached_tokens" id (fun v _ => v) len_int])) ]%string.
Definition len_message : lenient message := len_struct [
  lfld "model" me_Model (fun v m => mkMessage v (me_Usage m)) len_string;
  lfld "usage" me_Usage (fun v m => mkMessage (me_Model m) v) (len_ptr zero_usage len_usage) ]%string.
(** An element of choices: its delta. *)
Definition len_choice : lenient choice_delta := len_struct [
  lfld "delta" id (fun v _ => v) (len_struct [
    lfld "content" cd_Content (fun v d => mkDelta v (cd_ReasoningContent d)) len_string;
    lfld "reasoning_content" cd_ReasoningContent (fun v d => mkDelta (cd_Content d) v) len_string ]) ]%string.
Definition len_probe : lenient probe := len_struct [
  lfld "model" pr_Model (fun v p => mkProbe v (pr_Type p) (pr_Usage p) (pr_Message p) (pr_Choices p) (pr_DeltaType p)) len_string;
  lfld "type" pr_Type (fun v p => mkProbe (pr_Model p) v (pr_Usage p) (pr_Message p) (pr_Choices p) (pr_DeltaType p)) len_string;
  lfld "usage" pr_Usage (fun v p => mkProbe (pr_Model p) (pr_Type p) v (pr_Message p) (pr_Choices p) (pr_DeltaType p))
    (len_ptr zero_usage len_usage);
  lfld "message" pr_Message (fun v p => mkProbe (pr_Model p) (pr_Type p) (pr_Usage p) v (pr_Choices p) (pr_DeltaType p))
    (len_ptr (mkMessage "" None) len_message);
  lfld "choices" pr_Choices (fun v p => mkProbe (pr_Model p) (pr_Type p) (pr_Usage p) (pr_Message p) v (pr_DeltaType p))
    (len_slice (mkDelta "" "") len_choice);
  lfld "delta" pr_DeltaType (fun v p => mkProbe (pr_Model p) (pr_Type p) (pr_Usage p) (pr_Message p) (pr_Choices p) v)
    (len_struct [lfld "type" id (fun v _ => v) len_string]) ]%string.

Definition payloadProbe (payload : chars) : probe :=
  match parse payload with Some j => len_probe zero_probe j | None => zero_probe end.

(** ** The parser *)
Inductive parserKind := parserNone | parserSSE | parserJSON.
(** What was extracted so far. *)
Record observed := mkObserved {
  ob_model : string; ob_inputTokens : Z; ob_cachedInputTokens : Z; ob_outputTokens : Z;
  ob_sawToken : bool; ob_openAIAggregateInput : bool }.
Definition nothing_observed : observed := mkObserved "" 0 0 0 false false.
Record streamParser := mkParser {
  sp_kind : parserKind; sp_line : chars; sp_skipLine : bool; sp_body : chars; sp_parsed : bool; sp_obs : observed }.

Definition newStreamParser (contentType : string) : streamParser :=
  mkParser (if HasPrefix contentType "text/event-stream" then parserSSE
            else if HasPrefix contentType "application/json" then parserJSON else parserNone)
    [] false [] false nothing_observed.

Definition observeUsage (u : option usage) (o : observed) : observed :=
  match u with
  | None => o
  | Some u =>
    let '(inp, cached, agg) :=
      if us_PromptTokens u >? 0 then
        (Z.max (ob_inputTokens o) (us_PromptTokens u),
         match us_PromptTokensDetails u with Some c => Z.max (ob_cachedInputTokens o) c | None => ob_cachedInputTokens o end, true)
      else
        (Z.max (ob_inputTokens o) (i64 (us_InputTokens u + us_CacheCreationInput u)),
         Z.max (ob_cachedInputTokens o) (us_CacheReadInputTokens u), ob_openAIAggregateInput o) in
    mkObserved (ob_model o) inp cached
      (Z.max (Z.max (ob_outputTokens o) (us_OutputTokens u)) (us_CompletionTokens u)) (ob_sawToken o) agg
  end.
Definition with_model (m : string) (o : observed) : observed :=
  if String.eqb m "" then o
  else mkObserved m (ob_inputTokens o) (ob_cachedInputTokens o) (ob_outputTokens o) (ob_sawToken o) (ob_openAIAggregateInput o).
Definition saw_token (o : observed) : observed :=
  mkObserved (ob_model o) (ob_inputTokens o) (ob_cachedInputTokens o) (ob_outputTokens o) true (ob_openAIAggregateInput o).

Definition observe (k : parserKind) (pr : probe) (o : observed) : observed :=
  let o := match pr_Message pr with
           | Some m => observeUsage (me_Usage m) (with_model (me_Model m) o)
           | None => o
           end in
  let o := observeUsage (pr_Usage pr) (with_model (pr_Model pr) o) in
  let content := match pr_Choices pr with
                 | d :: _ => negb (String.eqb (cd_Content d) "") || negb (String.eqb (cd_ReasoningContent d) "")
                 | [] => false
                 end in
  if content then saw_token o
  else if String.eqb (pr_Type pr) "content_block_delta" &&
          (String.eqb (pr_DeltaType pr) "text_delta" || String.eqb (pr_DeltaType pr) "thinking_delta") then saw_token o
  else match k with
       | parserJSON => if ob_outputTokens o >? 0 then saw_token o else o
       | _ => o
       end.

Definition trim (l : chars) : chars := chars_of (TrimSpace (text_of l)).
Definition observeLine (k : parserKind) (line : chars) (o : observed) : observed :=
  if negb (has_prefix (chars_of "data:") line) then o
  else
    let payload := trim (drop 5 line) in
    if bool_decide (payload = []) || bool_decide (payload = chars_of "[DONE]") then o
    else observe k (payloadProbe payload) o.

Definition newline : ascii := "010"%char.
(** The pieces of the bytes up to each newline, and whether a newline ends them. *)
Fixpoint chunks (b : chars) : list (chars * bool) :=
  match b with
  | [] => []
  | c :: r =>
    if Ascii.eqb c newline then ([c], true) :: chunks r
    else match chunks r with
         | [] => [([c], false)]
         | (k, t) :: rest => (c :: k, t) :: rest
         end
  end.
Definition feed_chunk (p : streamParser) (ch : chars * bool) : streamParser :=
  let '(chunk, ended) := ch in
  if sp_skipLine p then
    if ended then mkParser (sp_kind p) [] false (sp_body p) (sp_parsed p) (sp_obs p) else p
  else if lenZ (sp_line p) + lenZ chunk >? sseLineCap then
    mkParser (sp_kind p) [] (negb ended) (sp_body p) (sp_parsed p) (sp_obs p)
  else
    let line := sp_line p ++ chunk in
    if ended then mkParser (sp_kind p) [] false (sp_body p) (sp_parsed p) (observeLine (sp_kind p) line (sp_obs p))
    else mkParser (sp_kind p) line false (sp_body p) (sp_parsed p) (sp_obs p).
Definition feedSSE (b : chars) (p : streamParser) : streamParser := fold_left feed_chunk (chunks b) p.

Definition feed (b : chars) (p : streamParser) : streamParser :=
  match sp_kind p with
  | parserSSE => feedSSE b p
  | parserJSON =>
    if lenZ (sp_body p) <? jsonCaptureCap then
      mkParser (sp_kind p) (sp_line p) (sp_skipLine p) (sp_body p ++ takeZ (jsonCaptureCap - lenZ (sp_body p)) b)
        (sp_parsed p) (sp_obs p)
    else p
  | parserNone => p
  end.

Definition finish (p : streamParser) : streamParser :=
  if sp_parsed p then p
  else
    let body := trim (sp_body p) in
    let o := match sp_kind p, last body with
             | parserJSON, Some "}"%char => observe parserJSON (payloadProbe body) (sp_obs p)
             | _, _ => sp_obs p
             end in
    mkParser (sp_kind p) (sp_line p) (sp_skipLine p) (sp_body p) true o.

Definition settleInputTokens (o : observed) : Z :=
  if ob_openAIAggregateInput o then Z.max 0 (i64 (ob_inputTokens o - ob_cachedInputTokens o)) else ob_inputTokens o.

(** ** perf/body.go: the measured body *)
Inductive readEnd := More | EOF | Broken.
Inductive bodyEvent := Read (b : chars) (e : readEnd) | Close.
Record measureBody := mkBody { mb_parser : streamParser; mb_eof : bool; mb_finished : bool }.
Definition wrapBody (contentType : string) : measureBody := mkBody (newStreamParser contentType) false false.

(** The new state, and whether [done] is called on it. *)
Definition finalize (m : measureBody) : measureBody * bool :=
  if mb_finished m then (m, false)
  else (mkBody (finish (mb_parser m)) (mb_eof m) true, true).
Definition body_event (m : measureBody) (ev : bodyEvent) : measureBody * bool :=
  match ev with
  | Close => finalize m
  | Read b e =>
    let p := if bool_decide (b = []) then mb_parser m else feed b (mb_parser m) in
    match e with
    | EOF => finalize (mkBody (finish p) true (mb_finished m))
    | _ => (mkBody p (mb_eof m) (mb_finished m), false)
    end
  end.
(** The states [done] is called on. *)
Fixpoint run_body (m : measureBody) (evs : list bodyEvent) : list measureBody :=
  match evs with
  | [] => []
  | ev :: r => let '(m, done) := body_event m ev in if done : bool then m :: run_body m r else run_body m r
  end.

(** ** perf/hook.go *)
Definition PeerHeader : string := "X-Computing-Node".
Record SettleUsage := mkSettleUsage {
  su_Service : string; su_Route : string; su_Model : string; su_ServedPeerID : string; su_Status : Z;
  su_ClientAbort : bool; su_InputTokens : Z; su_CachedInputTokens : Z; su_OutputTokens : Z; su_Complete : bool }.

(** A response: its request's path and reservation, and whether it has a body. *)
Record Response := mkResponse {
  rp_Status : Z; rp_Header : header; rp_Path : string; rp_RequestID : option string; rp_HasBody : bool }.

Definition splitServiceRoute (path : string) : string * string :=
  match CutPrefix path routePrefix with
  | None => (""%string, ""%string)
  | Some rest =>
    match cut "/" (chars_of rest) with
    | Some (svc, tail) =>
      if bool_decide (svc = []) then (""%string, ""%string)
      else (text_of svc, clip48 (TrimPrefix "v1/" (text_of tail)))
    | None => (""%string, ""%string)
    end
  end.

Definition bodyType (rp : Response) : string :=
  let enc := header_get "Content-Encoding" (rp_Header rp) in
  if negb (String.eqb enc "") && negb (String.eqb enc "identity") then ""
  else header_get "Content-Type" (rp_Header rp).
(** Whether the response is measured at all. *)
Definition measured (rp : Response) : bool :=
  negb (String.eqb (header_get PeerHeader (rp_Header rp)) "" ||
        String.eqb (fst (splitServiceRoute (rp_Path rp))) "" || negb (rp_HasBody rp)).

Definition settle_usage (rp : Response) (m : measureBody) : SettleUsage :=
  let o := sp_obs (mb_parser m) in
  let '(service, route) := splitServiceRoute (rp_Path rp) in
  mkSettleUsage service route (ob_model o) (header_get PeerHeader (rp_Header rp)) (rp_Status rp) (negb (mb_eof m))
    (settleInputTokens o) (ob_cachedInputTokens o) (ob_outputTokens o)
    ((200 <=? rp_Status rp) && (rp_Status rp <? 300) && mb_eof m &&
     ((ob_inputTokens o >? 0) || (ob_cachedInputTokens o >? 0) || (ob_outputTokens o >? 0))).

(** ** settlement/settle.go *)
Definition SetFeeBps (bps : Z) : Z := if bps <? 0 then 0 else if bps >? 10000 then 10000 else bps.

Definition releaseReason (u : SettleUsage) : string :=
  if su_ClientAbort u then "client_abort"
  else if su_Status u =? 0 then "no_response"
  else if su_Status u >=? 400 then "non_2xx"
  else "no_usage".

Section Settler.
Context {N : Type} (feeBps : Z).

(** An error of the store is logged and dropped. *)
Definition Callback (rp : Response) (u : SettleUsage) : W N unit :=
  match rp_RequestID rp with
  | None => wret tt
  | Some requestID =>
    if String.eqb requestID "" then wret tt else
    let* t := clock in
    if negb (su_Complete u) then
      let*? r := callStore (ReleaseBilling requestID (releaseReason u) t) in wret tt
    else
      let*? r := callStore (SettleBilling requestID (su_ServedPeerID u)
        (mkUsage (su_InputTokens u) (su_CachedInputTokens u) (su_OutputTokens u)) feeBps t) in wret tt
  end.

Fixpoint callbacks (rp : Response) (ms : list measureBody) : W N unit :=
  match ms with
  | [] => wret tt
  | m :: r => do* Callback rp (settle_usage rp m) in callbacks rp r
  end.
(** [HookWithSettle], and what happens to the body afterwards. *)
Definition HookWithSettle (rp : Response) (evs : list bodyEvent) : W N unit :=
  if measured rp then callbacks rp (run_body (wrapBody (bodyType rp)) evs) else wret tt.

(** ** The sweep *)
Record Sweeper := mkSweeper { sw_interval : Z; sw_age : Z; sw_limit : Z }.
Definition Minute : Z := 60000000000.
Definition NewSweeper (interval age limit : Z) : Sweeper :=
  mkSweeper (if interval <=? 0 then Minute else interval) (if age <=? 0 then 10 * Minute else age)
    (if limit <=? 0 then 100 else if limit >? 1000 then 1000 else limit).
Definition sweep_tick (s : Sweeper) : W N unit :=
  let* t := clock in
  let*? r := callStore (SweepStaleReservations (t - sw_age s) (sw_limit s)) in wret tt.
Fixpoint sweeper_run (s : Sweeper) (ticks : nat) : W N unit :=
  match ticks with
  | O => wret tt
  | S k => do* sweep_tick s in sweeper_run s k
  end.
End Settler.

(** * What the response path guarantees *)
(** ** Bytes, however they are cut *)
(** The parser byte by byte. *)
Definition feed_byte (p : streamParser) (c : ascii) : streamParser := feed_chunk p ([c], Ascii.eqb c newline).

Lemma feed_chunk_cons p c k t : Ascii.eqb c newline = false ->
  feed_chunk p (c :: k, t) = feed_chunk (feed_byte p c) (k, t).
Proof.
  intros Hc. unfold feed_byte. rewrite Hc. destruct p as [kind line skip body parsed obs]. unfold feed_chunk at 1 3.
  cbn [sp_skipLine sp_line sp_kind sp_body sp_parsed sp_obs]. destruct skip; [done|].
  rewrite !Z.gtb_ltb, !lenZ_cons. pose proof (lenZ_nonneg k). change (lenZ []) with 0.
  destruct (Z.ltb_spec sseLineCap (lenZ line + (1 + 0))).
  - destruct (Z.ltb_spec sseLineCap (lenZ line + (1 + lenZ k))); [|lia]. simpl. by destruct t.
  - simpl. rewrite !Z.gtb_ltb, lenZ_app. change (lenZ [c]) with 1. replace (lenZ line + (1 + lenZ k)) with (lenZ line + 1 + lenZ k) by lia.
    destruct (_ <? _); [done|]. rewrite <- app_assoc. by destruct t.
Qed.

Lemma feedSSE_bytes b p : feedSSE b p = fold_left feed_byte b p.
Proof.
  unfold feedSSE. revert p. induction b as [|c b IH]; intros p; [done|]. cbn [chunks fold_left].
  destruct (Ascii.eqb c newline) eqn:Ec.
  - cbn [fold_left]. rewrite IH. unfold feed_byte at 3. by rewrite Ec.
  - destruct (chunks b) as [|[k t] rest] eqn:Eb; cbn [fold_left].
    + assert (b = []) as -> by (destruct b as [|c' b']; [done|]; simpl in Eb;
        destruct (Ascii.eqb c' newline), (chunks b') as [|[? ?] ?]; done).
      cbn [fold_left]. unfold feed_byte. by rewrite Ec.
    + rewrite feed_chunk_cons by done. by rewrite <- IH.
Qed.

Lemma takeZ_app n l1 l2 : takeZ n (l1 ++ l2) = takeZ n l1 ++ takeZ (n - lenZ l1) l2.
Proof.
  revert n. induction l1 as [|c l1 IH]; intros n; simpl; [f_equal; unfold lenZ; simpl; lia|].
  rewrite lenZ_cons. pose proof (lenZ_nonneg l1). destruct (Z.leb_spec n 0).
  - destruct l2 as [|d l2]; simpl; [done|]. destruct (Z.leb_spec (n - (1 + lenZ l1)) 0); [done|lia].
  - rewrite IH. simpl. do 2 f_equal. f_equal. lia.
Qed.
Lemma takeZ_none n l : n <= 0 -> takeZ n l = [].
Proof. intros Hn. destruct l; simpl; [done|]. destruct (Z.leb_spec n 0); [done|lia]. Qed.

(** The capture of a JSON body is a prefix of what came. *)
Lemma feed_json b p : sp_kind p = parserJSON -> feed b p =
  mkParser parserJSON (sp_line p) (sp_skipLine p) (sp_body p ++ takeZ (jsonCaptureCap - lenZ (sp_body p)) b) (sp_parsed p) (sp_obs p).
Proof.
  intros Hk. unfold feed. rewrite Hk. destruct (Z.ltb_spec (lenZ (sp_body p)) jsonCaptureCap); [done|].
  rewrite takeZ_none by lia. rewrite app_nil_r. destruct p; simpl in *; by subst.
Qed.
Lemma feed_app b1 b2 p : feed (b1 ++ b2) p = feed b2 (feed b1 p).
Proof.
  assert (Hkind : forall b q, sp_kind (fold_left feed_byte b q) = sp_kind q).
  { intros b. induction b as [|c b IH]; intros q; simpl; [done|]. rewrite IH. unfold feed_byte, feed_chunk.
    destruct (sp_skipLine q), (lenZ (sp_line q) + lenZ [c] >? sseLineCap), (Ascii.eqb c newline); done. }
  destruct (sp_kind p) eqn:Hk.
  - unfold feed. by rewrite !Hk.
  - unfold feed at 1 3. rewrite Hk, !feedSSE_bytes, fold_left_app. unfold feed. rewrite Hkind, Hk. by rewrite feedSSE_bytes.
  - rewrite (feed_json _ p), (feed_json _ p) by done. rewrite feed_json by done. simpl. rewrite takeZ_app, lenZ_app, app_assoc.
    f_equal. f_equal. destruct (Z.le_gt_cases (lenZ b1) (jsonCaptureCap - lenZ (sp_body p))) as [Hle|Hgt].
    + rewrite (proj1 (takeZ_all _ b1 Hle)). f_equal. lia.
    + rewrite (takeZ_none _ b2) by lia. symmetry. apply takeZ_none.
      destruct (Z.lt_ge_cases (lenZ (takeZ (jsonCaptureCap - lenZ (sp_body p)) b1)) (jsonCaptureCap - lenZ (sp_body p))) as [Hs|Hs]; [|lia].
      destruct (takeZ_short _ _ Hs) as [_ Ht]. rewrite Ht in Hs. lia.
Qed.

(** ** The end of a body *)
Lemma feed_nil p : feed [] p = p.
Proof.
  unfold feed. destruct (sp_kind p) eqn:Hk; [done|done|].
  destruct (_ <? _); [|done]. rewrite app_nil_r. destruct p; simpl in *; by subst.
Qed.
Lemma finish_finish p : finish (finish p) = finish p.
Proof. unfold finish at 2 3. destruct (sp_parsed p) eqn:E; unfold finish; simpl; [by rewrite E|done]. Qed.

(** What a body delivers up to its end, and whether it ended by itself. *)
Fixpoint content (evs : list bodyEvent) : option (chars * bool) :=
  match evs with
  | [] => None
  | Close :: _ => Some ([], false)
  | Read b EOF :: _ => Some (b, true)
  | Read b _ :: r => match content r with Some (bytes, eof) => Some (b ++ bytes, eof) | None => None end
  end.

Lemma body_event_finished m ev : mb_finished m = true -> snd (body_event m ev) = false /\ mb_finished (fst (body_event m ev)) = true.
Proof. intros Hf. destruct ev as [b [| |]|]; simpl; unfold finalize; simpl; by rewrite ?Hf. Qed.
Lemma run_body_finished m evs : mb_finished m = true -> run_body m evs = [].
Proof.
  revert m. induction evs as [|ev evs IH]; intros m Hf; [done|]. cbn [run_body].
  destruct (body_event_finished m ev Hf) as [Hd Hf']. destruct (body_event m ev) as [m' d]. simpl in *. subst d. by apply IH.
Qed.

Lemma run_body_content p evs :
  run_body (mkBody p false false) evs =
  match content evs with
  | None => []
  | Some (bytes, eof) => [mkBody (finish (feed bytes p)) eof true]
  end.
Proof.
  revert p. induction evs as [|ev evs IH]; intros p; [done|].
  assert (Hfeed : forall b, (if bool_decide (b = []) then p else feed b p) = feed b p).
  { intros b. case_bool_decide as Hb; [|done]. by rewrite Hb, feed_nil. }
  destruct ev as [b [| |]|]; cbn [run_body body_event content mb_parser mb_eof mb_finished]; rewrite ?Hfeed.
  - rewrite IH. destruct (content evs) as [[bytes eof]|]; [by rewrite feed_app|done].
  - unfold finalize. cbn [mb_finished mb_parser mb_eof]. rewrite finish_finish. by rewrite run_body_finished.
  - rewrite IH. destruct (content evs) as [[bytes eof]|]; [by rewrite feed_app|done].
  - unfold finalize. cbn [mb_finished mb_parser mb_eof]. rewrite feed_nil. by rewrite run_body_finished.
Qed.

(** However the transport cuts the body into reads, whatever errors occur and
    however often it is closed, the observation is handed on exactly once, at the first
    end of file or close (and never without one), and is that of the bytes delivered up
    to then, parsed one byte at a time. *)
Theorem body_observed_once contentType evs :
  run_body (wrapBody contentType) evs =
    match content evs with
    | None => []
    | Some (bytes, eof) => [mkBody (finish (feed bytes (newStreamParser contentType))) eof true]
    end /\
  (forall bytes, sp_kind (newStreamParser contentType) = parserSSE ->
    feed bytes (newStreamParser contentType) = fold_left feed_byte bytes (newStreamParser contentType)).
Proof.
  split; [apply run_body_content|]. intros bytes Hk. unfold feed. rewrite Hk. apply feedSSE_bytes.
Qed.

(** ** Settling the response *)
(** The usage a response reports in the end. *)
Definition reported (rp : Response) (bytes : chars) (eof : bool) : SettleUsage :=
  settle_usage rp (mkBody (finish (feed bytes (newStreamParser (bodyType rp)))) eof true).
Definition billed (u : SettleUsage) : Usage := mkUsage (su_InputTokens u) (su_CachedInputTokens u) (su_OutputTokens u).

Section Settling.
Context {N : Type} (feeBps : Z) (o : outside) (w : world N) (t : time).
Context (Henv : o_env o (w_calls w) = fine_env t) (Hothers : forall n d, o_others o n d = d).

Lemma hook_run rp evs bytes eof id :
  measured rp = true -> content evs = Some (bytes, eof) -> rp_RequestID rp = Some id -> id <> ""%string ->
  let u := reported rp bytes eof in
  w_db (snd (HookWithSettle feeBps rp evs o w)) =
    snd (if su_Complete u then run (SettleBilling id (su_ServedPeerID u) (billed u) feeBps t) (fine_env t) (w_db w)
         else run (ReleaseBilling id (releaseReason u) t) (fine_env t) (w_db w)).
Proof using Henv Hothers.
  intros Hm Hc Hid Hne u. unfold HookWithSettle. rewrite Hm. unfold wrapBody. rewrite run_body_content, Hc.
  cbn [callbacks]. fold (reported rp bytes eof). fold u. unfold wbind, Callback. rewrite Hid.
  destruct (String.eqb_spec id ""); [done|]. unfold wbind, Worker.clock. cbv beta iota. rewrite Henv. cbn [e_now fine_env].
  destruct (su_Complete u); cbn [negb]; unfold wattempt, callStore; cbv beta iota; rewrite Henv, Hothers;
    fold (billed u); destruct (run _ _ _) as [r d']; done.
Qed.

Lemma hook_released x rp evs bytes eof id row :
  measured rp = true -> content evs = Some (bytes, eof) -> rp_RequestID rp = Some id -> id <> ""%string ->
  Inv x (w_db w) -> requests (w_db w) !! id = Some row -> rr_state row = StateReserved ->
  su_Complete (reported rp bytes eof) = false ->
  w_db (snd (HookWithSettle feeBps rp evs o w)) =
    release_db id row (releaseReason (reported rp bytes eof)) (BillingSpec.clock t t) (w_db w).
Proof using Henv Hothers.
  intros Hm Hc Hid Hne HI Hrow Hst Hco. rewrite (hook_run _ _ _ _ _ Hm Hc Hid Hne), Hco.
  destruct (release_frees_reservation x (w_db w) id row (releaseReason (reported rp bytes eof)) t t HI Hrow Hst) as [H _].
  by rewrite H.
Qed.

End Settling.

(** ** What a response costs *)
Lemma clock_same t : BillingSpec.clock t t = t.
Proof. unfold BillingSpec.clock. by destruct (IsZero t). Qed.

(** the end of a response decides its reservation.  For an open request of a
    consistent store and a response that carries its id: a response that is not a
    complete 2xx answer with a usage, or that comes from a peer outside the snapshot,
    or whose usage costs nothing, gives the reservation back, with the reason, and
    moves no credit; every other one that is chargeable is charged exactly its cost.
    Without an id, or before the body's end, nothing happens. *)
Theorem response_outcome {N} x feeBps o (w : world N) t rp evs bytes eof id row :
  o_env o (w_calls w) = fine_env t -> (forall n d, o_others o n d = d) ->
  measured rp = true -> content evs = Some (bytes, eof) -> rp_RequestID rp = Some id -> id <> ""%string ->
  Inv x (w_db w) -> requests (w_db w) !! id = Some row -> rr_state row = StateReserved ->
  let u := reported rp bytes eof in
  let d' := w_db (snd (HookWithSettle feeBps rp evs o w)) in
  (su_Complete u = false -> d' = release_db id row (releaseReason u) t (w_db w)) /\
  (su_Complete u = true -> findQuote (rr_eligible_peers row) (su_ServedPeerID u) = None ->
    d' = release_db id row "unknown_peer" t (w_db w)) /\
  (forall q, su_Complete u = true -> findQuote (rr_eligible_peers row) (su_ServedPeerID u) = Some q ->
    Cost (su_InputTokens u) (su_CachedInputTokens u) (su_OutputTokens u)
      (q_InputPerMillion q) (q_CachedInputPerMillion q) (q_OutputPerMillion q) = Ok 0 ->
    d' = release_db id row "zero_price" t (w_db w)) /\
  (forall q c f s, su_Complete u = true ->
    Chargeable x (w_db w) id row (su_ServedPeerID u) (billed u) feeBps q c f s ->
    d' = settle_db id row q (billed u) c f s t (w_db w)).
Proof.
  intros He Ho Hm Hc Hid Hne HI Hrow Hst u d'.
  pose proof (hook_run feeBps o w t He Ho rp evs bytes eof id Hm Hc Hid Hne) as Hrun. fold u d' in Hrun. cbv zeta in Hrun.
  destruct (release_frees_reservation x (w_db w) id row (releaseReason u) t t HI Hrow Hst) as (H1 & H2 & H3).
  rewrite clock_same in *. split; [|split; [|split]].
  - intros Hu. rewrite Hu in Hrun. by rewrite Hrun, H1.
  - intros Hu Hq. rewrite Hu in Hrun. by rewrite Hrun, H2.
  - intros q Hu Hq Hz. rewrite Hu in Hrun. by rewrite Hrun, (H3 _ _ _ q).
  - intros q c f s Hu HC. rewrite Hu in Hrun. rewrite Hrun. unfold SettleBilling. rewrite run_now_or, clock_same.
    erewrite run_with_tx; [done|]. eapply fe_bind; [apply fr_scanRequest, Hrow|]. by apply fe_settle with (x := x).
Qed.

(** The counts of a usage are never negative. *)
Definition counts_ok (ob : observed) : Prop :=
  0 <= ob_inputTokens ob /\ 0 <= ob_cachedInputTokens ob /\ 0 <= ob_outputTokens ob.
Lemma observeUsage_ok u ob : counts_ok ob -> counts_ok (observeUsage u ob).
Proof.
  intros (H1 & H2 & H3). destruct u as [u|]; simpl; [|done].
  destruct (_ >? 0); unfold counts_ok; simpl; [destruct (us_PromptTokensDetails u)|]; lia.
Qed.
Lemma with_model_ok m ob : counts_ok ob -> counts_ok (with_model m ob).
Proof. unfold with_model. by destruct (String.eqb m ""). Qed.
Lemma observe_ok k pr ob : counts_ok ob -> counts_ok (observe k pr ob).
Proof.
  intros H. unfold observe. cbv zeta.
  set (o1 := match pr_Message pr with Some m => _ | None => ob end).
  assert (H1 : counts_ok o1) by (unfold o1; destruct (pr_Message pr); [by apply observeUsage_ok, with_model_ok|done]).
  clearbody o1. pose proof (observeUsage_ok (pr_Usage pr) _ (with_model_ok (pr_Model pr) _ H1)) as H2.
  set (o2 := observeUsage _ _) in *. clearbody o2.
  assert (Hs : counts_ok (saw_token o2)) by done.
  destruct (match pr_Choices pr with [] => false | _ => _ end); [done|].
  destruct (_ && _); [done|]. destruct k; try done. by destruct (_ >? 0).
Qed.
Lemma observeLine_ok k line ob : counts_ok ob -> counts_ok (observeLine k line ob).
Proof.
  intros H. unfold observeLine. destruct (negb _); [done|]. destruct (_ || _); [done|]. by apply observe_ok.
Qed.
Lemma feed_byte_ok p c : counts_ok (sp_obs p) -> counts_ok (sp_obs (feed_byte p c)).
Proof.
  intros H. unfold feed_byte, feed_chunk. destruct (sp_skipLine p), (lenZ (sp_line p) + lenZ [c] >? sseLineCap), (Ascii.eqb c newline); simpl; try done.
  by apply observeLine_ok.
Qed.
Lemma feed_ok b p : counts_ok (sp_obs p) -> counts_ok (sp_obs (feed b p)).
Proof.
  intros H. unfold feed. destruct (sp_kind p); [done| |by destruct (_ <? _)]. rewrite feedSSE_bytes.
  revert p H. induction b as [|c b IH]; intros p H; simpl; [done|]. by apply IH, feed_byte_ok.
Qed.
Lemma finish_ok p : counts_ok (sp_obs p) -> counts_ok (sp_obs (finish p)).
Proof.
  intros H. unfold finish. destruct (sp_parsed p); [done|]. simpl. destruct (sp_kind p); try done.
  destruct (last _) as [[[] [] [] [] [] [] [] []]|]; try done. by apply observe_ok.
Qed.
Lemma reported_nonneg rp bytes eof :
  let u := reported rp bytes eof in 0 <= su_InputTokens u /\ 0 <= su_CachedInputTokens u /\ 0 <= su_OutputTokens u.
Proof.
  unfold reported, settle_usage. destruct (splitServiceRoute _). simpl.
  assert (H : counts_ok (sp_obs (finish (feed bytes (newStreamParser (bodyType rp)))))) by (apply finish_ok, feed_ok; done).
  destruct H as (H1 & H2 & H3). unfold settleInputTokens. destruct (ob_openAIAggregateInput _); lia.
Qed.

(** ** From the gate's reservation to the charge *)
Lemma findQuote_Some quotes peer q : findQuote quotes peer = Some q -> q ∈ quotes /\ q_PeerID q = peer.
Proof.
  induction quotes as [|q' quotes IH]; simpl; [done|]. destruct (String.eqb_spec (q_PeerID q') peer) as [He|He].
  - intros [= ->]. split; [by left|done].
  - intros H. destruct (IH H) as [? ?]. split; [by right|done].
Qed.
Lemma Fee_exists c bps : 0 <= c -> c * 10000 <= maxI64 -> exists f s, Fee c bps = Ok (f, s) /\ f + s = c.
Proof.
  intros Hc Hm. rewrite Fee_eq by (unfold nonneg64; lia). cbv zeta. set (b := Z.max 0 (Z.min 10000 bps)).
  assert (Hb : 0 <= b <= 10000) by lia. destruct (Z.ltb_spec maxI64 (c * b)); [nia|]. rewrite andb_false_r.
  exists (c * b / 10000), (c - c * b / 10000). split; [done|lia].
Qed.

(** C4: a request that the gate reserved and that is answered within its ceilings is
    paid for, and for no more than was reserved.  For an open reservation of the gate in
    a consistent store, a complete answer from one of its peers and a usage within the
    ceilings: the usage has a cost within the reserved amount; if it is zero the
    reservation is given back, and otherwise the buyer is charged exactly it, split into
    the seller's and the treasury's share. *)
Theorem gated_response_charged {N} x feeBps o (w : world N) t rp evs bytes eof id row buyer p q :
  o_env o (w_calls w) = fine_env t -> (forall n d, o_others o n d = d) ->
  measured rp = true -> content evs = Some (bytes, eof) -> rp_RequestID rp = Some id -> id <> ""%string ->
  Inv x (w_db w) -> requests (w_db w) !! id = Some row -> reserved_for buyer p row ->
  Forall quote_ok (rr_eligible_peers row) -> 0 <= pl_InputCeiling p < 2147483648 -> 0 <= pl_OutputCeiling p < 2147483648 ->
  rr_reserved_raw row * 10000 <= maxI64 -> (forall a, credit_of a (w_db w) + rr_reserved_raw row <= maxI64) ->
  let u := reported rp bytes eof in
  su_Complete u = true -> findQuote (rr_eligible_peers row) (su_ServedPeerID u) = Some q ->
  su_InputTokens u + su_CachedInputTokens u <= pl_InputCeiling p -> su_OutputTokens u <= pl_OutputCeiling p ->
  let d' := w_db (snd (HookWithSettle feeBps rp evs o w)) in
  exists c, Cost (su_InputTokens u) (su_CachedInputTokens u) (su_OutputTokens u)
      (q_InputPerMillion q) (q_CachedInputPerMillion q) (q_OutputPerMillion q) = Ok c /\
    0 <= c <= rr_reserved_raw row /\
    if c =? 0 then d' = release_db id row "zero_price" t (w_db w)
    else exists f s, Fee c feeBps = Ok (f, s) /\ f + s = c /\ d' = settle_db id row q (billed u) c f s t (w_db w).
Proof.
  intros He Ho Hm Hc Hid Hne HI Hrow (Hst & _ & _ & _ & Hamt) Hok Hic Hoc Hfee Hroom u Hu Hq Hin Hout d'.
  pose proof (hook_run feeBps o w t He Ho rp evs bytes eof id Hm Hc Hid Hne) as Hrun.
  fold u d' in Hrun. cbv zeta in Hrun. rewrite Hu in Hrun.
  destruct (reported_nonneg rp bytes eof) as (T1 & T2 & T3). fold u in T1, T2, T3.
  destruct (findQuote_Some _ _ _ Hq) as [Hel _]. apply reserveMax_ge in Hamt as [_ Hw].
  destruct (Hw q Hel) as (wc & Hwc & Hle). rewrite Forall_forall in Hok.
  destruct (charge_covered q (pl_InputCeiling p) (pl_OutputCeiling p) wc (su_InputTokens u) (su_CachedInputTokens u) (su_OutputTokens u))
    as (c & Hcost & Hc1); try done; [by apply Hok|unfold nonneg64; unfold_i64; lia..|].
  exists c. split; [done|]. split; [lia|]. destruct (Z.eqb_spec c 0) as [->|Hnz].
  - destruct (release_frees_reservation x (w_db w) id row "" t t HI Hrow Hst) as (_ & _ & H3).
    rewrite Hrun, (H3 _ _ _ q) by done. by rewrite clock_same.
  - destruct (Fee_exists c feeBps) as (f & s & Hf & Hfs); [lia|nia|]. exists f, s. split; [done|]. split; [done|].
    rewrite Hrun. unfold SettleBilling. rewrite run_now_or, clock_same. erewrite run_with_tx; [done|].
    eapply fe_bind; [apply fr_scanRequest, Hrow|]. apply fe_settle with (x := x). constructor; try done.
    + lia.
    + intros a. specialize (Hroom a). lia.
    + unfold in_i32. simpl. lia.
Qed.

(** ** Bodies that are not read *)
Lemma feed_none b p : sp_kind p = parserNone -> feed b p = p.
Proof. unfold feed. by intros ->. Qed.

(** an encoded body is free.  When the response's Content-Encoding is neither empty
    nor identity, which is what a client's own Accept-Encoding brings about, its body is
    not parsed: whatever it carries, and however it ends, the reservation is given back
    and nothing is charged. *)
Theorem encoded_body_is_free {N} x feeBps o (w : world N) t rp evs bytes eof id row :
  o_env o (w_calls w) = fine_env t -> (forall n d, o_others o n d = d) ->
  measured rp = true -> content evs = Some (bytes, eof) -> rp_RequestID rp = Some id -> id <> ""%string ->
  Inv x (w_db w) -> requests (w_db w) !! id = Some row -> rr_state row = StateReserved ->
  header_get "Content-Encoding" (rp_Header rp) <> ""%string ->
  header_get "Content-Encoding" (rp_Header rp) <> "identity"%string ->
  exists reason, w_db (snd (HookWithSettle feeBps rp evs o w)) = release_db id row reason t (w_db w).
Proof.
  intros He Ho Hm Hc Hid Hne HI Hrow Hst Hce1 Hce2. exists (releaseReason (reported rp bytes eof)).
  rewrite (hook_released feeBps o w t He Ho x rp evs bytes eof id row) by (done ||
    (unfold reported, bodyType; apply String.eqb_neq in Hce1, Hce2; rewrite Hce1, Hce2; cbn [negb andb];
     rewrite feed_none by done; unfold settle_usage; destruct (splitServiceRoute _); simpl; by rewrite andb_false_r)).
  by rewrite clock_same.
Qed.

(** ** A concrete response *)
Definition rsp_body : chars :=
  quotes "data: {'usage':{'prompt_tokens':90,'completion_tokens':20,'prompt_tokens_details':{'cached_tokens':30}}}"
    ++ [newline; newline].
Definition rsp_events : list bodyEvent :=
  [Read (take 40 rsp_body) More; Read (drop 40 rsp_body) More; Read [] EOF; Close].
Definition rsp_header (encoding : string) : header :=
  {[ "X-Computing-Node"%string := ["peer1"%string]; "Content-Type"%string := ["text/event-stream"%string];
     "Content-Encoding"%string := [encoding] ]}.
Definition rsp (encoding : string) : Response :=
  mkResponse 200 (rsp_header encoding) "/v1/service/llm/v1/chat/completions" (Some "r2"%string) true.
Definition rsp_outside : outside := mkOutside (fun _ => fine_env 50) (fun _ d => d) (fun _ => false).
Definition rsp_world : world unit := mkWorld demo_db tt 0.
Definition rsp_plan : Plan := mkPlan "llm" "chat/completions" "m" true true 100 50 true true.
Definition rsp_after (encoding : string) : db :=
  w_db (snd (HookWithSettle 250 (rsp encoding) rsp_events rsp_outside rsp_world)).

Example rsp_usage : reported (rsp "") rsp_body true =
  mkSettleUsage "llm" "chat/completions" "" "peer1" 200 false 60 30 20 true.
Proof. vm_compute. reflexivity. Qed.

Lemma response_outcome_witness : rsp_after "" = settle_db "r2" demo_row demo_quote demo_usage 115 2 113 50 demo_db.
Proof.
  destruct (response_outcome zero 250 rsp_outside rsp_world 50 (rsp "") rsp_events rsp_body true "r2" demo_row
    eq_refl (fun _ _ => eq_refl) eq_refl eq_refl eq_refl ltac:(discriminate) demo_Inv demo_r2 eq_refl) as (_ & _ & _ & H).
  rewrite rsp_usage in H. apply H; [reflexivity|]. split; [exact demo_Inv|exact demo_r2|reflexivity..| | | |].
  - split; [reflexivity|discriminate].
  - reflexivity.
  - apply room_of; [vm_compute; reflexivity|unfold_i64; lia].
  - unfold in_i32. simpl. lia.
Defined.

Lemma gated_response_charged_witness : exists f s, f + s = 115 /\
  rsp_after "" = settle_db "r2" demo_row demo_quote demo_usage 115 f s 50 demo_db.
Proof.
  pose proof (gated_response_charged zero 250 rsp_outside rsp_world 50 (rsp "") rsp_events rsp_body true "r2" demo_row
    "buyer" rsp_plan demo_quote eq_refl (fun _ _ => eq_refl) eq_refl eq_refl eq_refl ltac:(discriminate) demo_Inv demo_r2
    ltac:(repeat split) ltac:(repeat constructor; unfold_i64; simpl; lia) ltac:(simpl; lia) ltac:(simpl; lia)
    ltac:(unfold_i64; simpl; lia) (room_of demo_db 200 ltac:(vm_compute; reflexivity) ltac:(unfold_i64; lia))) as H.
  rewrite rsp_usage in H. specialize (H eq_refl eq_refl ltac:(simpl; lia) ltac:(simpl; lia)).
  destruct H as (c & Hc & _ & H). assert (c = 115) as -> by (vm_compute in Hc; congruence).
  destruct H as (f & s & _ & Hfs & Hd). exists f, s. split; [exact Hfs|exact Hd].
Defined.

Lemma encoded_body_is_free_witness : exists reason, rsp_after "gzip" = release_db "r2" demo_row reason 50 demo_db.
Proof.
  apply (encoded_body_is_free zero 250 rsp_outside rsp_world 50 (rsp "gzip") rsp_events rsp_body true "r2" demo_row);
    first [exact demo_Inv | exact demo_r2 | reflexivity | discriminate].
Defined.
