(* ===== verification/Http.v ===== *)
(** * Requests, replies and bodies of the HTTP handlers

    internal/httputil, internal/account and internal/principal, as the handlers use
    them: who asks, what the request carries, a body read by [DecodeStrict] and the
    answer a handler writes.  A handler that returns without writing lets net/http
    answer 200 with an empty body. *)
From Stdlib Require Import ZArith Lia Strings.Ascii Strings.String.
From stdpp Require Import base list strings.
From S2P Require Import Prelude Sha256 Base58 GoText Json Gate.

Open Scope Z_scope.
Local Open Scope go_scope.

(** ** Requests *)
Record request := mkHttp {
  h_Method : string;
  h_Principal : option string;       (* the subject the JWT middleware stored *)
  h_Account : option string;         (* the owner of the API key *)
  h_Header : string -> string;       (* Header.Get *)
  h_Query : string -> string;        (* URL.Query().Get *)
  h_PathValue : string -> string;
  h_Body : chars;
  h_BodyErr : bool }.                (* reading fails before the end *)

(** [principal.UserID] and [account.ID]: an empty name is none. *)
Definition named (o : option string) : option string :=
  match o with Some s => if String.eqb s "" then None else Some s | None => None end.
Definition principal_UserID (r : request) : option string := named (h_Principal r).
Definition keyOwner (r : request) : option string := named (h_Account r).

(** ** Replies *)
Inductive reply (A : Type) :=
  | HttpError (headers : list (string * string)) (status : Z) (text : string)
  | WriteJSON (status : Z) (v : A)
  | WriteHeader (status : Z)             (* nothing follows it *)
  | NoAnswer.
Arguments HttpError {A} _ _ _.
Arguments WriteJSON {A} _ _.
Arguments WriteHeader {A} _.
Arguments NoAnswer {A}.
Definition http_error {A} (status : Z) (text : string) : reply A := HttpError [] status text.
(** The status the client sees. *)
Definition status_of {A} (r : reply A) : Z :=
  match r with HttpError _ s _ => s | WriteJSON s _ => s | WriteHeader s => s | NoAnswer => 200 end.

(** ** Bearer credentials *)
Definition bearer_prefix : string := "Bearer ".
Definition bearerToken (header : string) : option string :=
  let l := chars_of header in
  if bool_decide (lower_chars (take 7 l) = lower_chars (chars_of bearer_prefix))
  then Some (TrimSpace (text_of (drop 7 l))) else None.

(** ** DecodeStrict

    The limit, one value and nothing after it, and no member the target does not have. *)
Fixpoint strict_members {A} (fs : fields A) (cur : A) (l : list (string * json)) : res A :=
  match l with
  | [] => Ok cur
  | (key, j) :: r =>
    match find_field fs key with
    | None => Err (Errorf "json: unknown field")
    | Some d => let? cur := d cur j in strict_members fs cur r
    end
  end.
Definition strict_struct {A} (fs : fields A) : decoder A := fun cur j =>
  match j with
  | JObj l => strict_members fs cur l
  | JNull => Ok cur
  | _ => Err mismatch
  end.

Definition DecodeStrict {A} (maxBytes : Z) (d : decoder A) (zero : A) (r : request) : res A :=
  if h_BodyErr r then Err (Errorf "http: body read")
  else if Z.of_nat (length (h_Body r)) >? maxBytes then Err (Errorf "http: request body too large")
  else match parse (h_Body r) with
       | Some j => d zero j
       | None => Err (Errorf "invalid JSON or multiple JSON values")
       end.

Lemma DecodeStrict_bound {A} maxBytes (d : decoder A) zero r a : DecodeStrict maxBytes d zero r = Ok a ->
  Z.of_nat (length (h_Body r)) <= maxBytes /\ exists j, parse (h_Body r) = Some j /\ d zero j = Ok a.
Proof.
  unfold DecodeStrict. destruct (h_BodyErr r); [done|]. destruct (Z.gtb_spec (Z.of_nat (length (h_Body r))) maxBytes); [done|].
  destruct (parse _) as [j|]; [|done]. intros Hd. split; [lia|]. by exists j.
Qed.

(** * time: RFC 3339

    The civil date of an instant, [t.UTC().Format(time.RFC3339)] and the strict reading
    that encoding/json makes of a [time.Time].  The reader works on the text between the
    quotes; a text with escapes is not one it accepts. *)
(** Days since 1970-01-01 and the proleptic Gregorian calendar; the year starts in March. *)
Definition civil (days : Z) : Z * Z * Z :=
  let z := days + 719468 in
  let era := z / 146097 in
  let doe := z mod 146097 in
  let yoe := (doe - doe / 1460 + doe / 36524 - doe / 146096) / 365 in
  let doy := doe - (365 * yoe + yoe / 4 - yoe / 100) in
  let mp := (5 * doy + 2) / 153 in
  let m := if mp <? 10 then mp + 3 else mp - 9 in
  (yoe + era * 400 + (if m <=? 2 then 1 else 0), m, doy - (153 * mp + 2) / 5 + 1).
Definition days_of (y m d : Z) : Z :=
  let y := if m <=? 2 then y - 1 else y in
  let era := y / 400 in
  let yoe := y mod 400 in
  let mp := if m >? 2 then m - 3 else m + 9 in
  let doe := yoe * 365 + yoe / 4 - yoe / 100 + ((153 * mp + 2) / 5 + d - 1) in
  era * 146097 + doe - 719468.

Definition pad (width : nat) (n : Z) : chars :=
  let d := Itoa n in repeat "0"%char (width - length d) ++ d.

(** [t.UTC().Format(time.RFC3339)], of a year that is not negative. *)
Definition FormatRFC3339 (t : time) : string :=
  let sec := t / 1000000000 in
  let '(y, m, d) := civil (sec / 86400) in
  let s := sec mod 86400 in
  text_of (pad 4 y ++ "-"%char :: pad 2 m ++ "-"%char :: pad 2 d ++ "T"%char ::
    pad 2 (s / 3600) ++ ":"%char :: pad 2 (s / 60 mod 60) ++ ":"%char :: pad 2 (s mod 60) ++ ["Z"%char]).

(** [parseUint(s, min, max)] of the next [n] digits. *)
Definition read_uint (n : nat) (lo hi : Z) (l : chars) : option (Z * chars) :=
  match parse_nat (take n l) with
  | Some v => if bool_decide (length (take n l) = n) && (lo <=? v) && (v <=? hi) then Some (v, drop n l) else None
  | None => None
  end.
Definition read_char (c : ascii) (l : chars) : option chars :=
  match l with a :: r => if Ascii.eqb a c then Some r else None | [] => None end.
Definition leap (y : Z) : bool := (y mod 4 =? 0) && (negb (y mod 100 =? 0) || (y mod 400 =? 0)).
Definition daysIn (m y : Z) : Z :=
  if m =? 2 then (if leap y then 29 else 28)
  else if (m =? 4) || (m =? 6) || (m =? 9) || (m =? 11) then 30 else 31.

(** Nine digits of a fraction count. *)
Definition read_fraction (l : chars) : Z * chars :=
  match l with
  | "."%char :: r =>
    let '(d, t) := digits r in
    if bool_decide (d = []) then (0, l)
    else (default 0 (parse_nat (take 9 (d ++ repeat "0"%char 9))), t)
  | _ => (0, l)
  end.
(** The offset in seconds. *)
Definition read_zone (l : chars) : option Z :=
  match l with
  | ["Z"%char] => Some 0
  | s :: r =>
    if negb (Ascii.eqb s "+" || Ascii.eqb s "-") then None else
    '(h, r) ← read_uint 2 0 23 r;
    r ← read_char ":" r;
    '(m, r) ← read_uint 2 0 59 r;
    let z := (h * 60 + m) * 60 in
    if bool_decide (r = []) then Some (if Ascii.eqb s "-" then - z else z) else None
  | [] => None
  end.

Definition ParseRFC3339 (s : string) : option time :=
  let l := chars_of s in
  '(y, l) ← read_uint 4 0 9999 l; l ← read_char "-" l;
  '(m, l) ← read_uint 2 1 12 l; l ← read_char "-" l;
  '(d, l) ← read_uint 2 1 (daysIn m y) l; l ← read_char "T" l;
  '(hh, l) ← read_uint 2 0 23 l; l ← read_char ":" l;
  '(mm, l) ← read_uint 2 0 59 l; l ← read_char ":" l;
  '(ss, l) ← read_uint 2 0 59 l;
  let '(nsec, l) := read_fraction l in
  z ← read_zone l;
  Some ((days_of y m d * 86400 + hh * 3600 + mm * 60 + ss - z) * 1000000000 + nsec).

Definition dec_time : decoder time := fun cur j =>
  match j with
  | JNull => Ok cur
  | JStr s => match ParseRFC3339 s with Some t => Ok t | None => Err (Errorf "parsing time") end
  | _ => Err (Errorf "Time.UnmarshalJSON: input is not a JSON string")
  end.

Example rfc3339_ex : FormatRFC3339 1700000000123000000 = "2023-11-14T22:13:20Z"%string /\
  ParseRFC3339 "2023-11-14T22:13:20.123Z" = Some 1700000000123000000 /\
  ParseRFC3339 "2024-02-29T23:59:59+02:00" = Some (1709251199 * 1000000000 - 7200 * 1000000000) /\
  ParseRFC3339 "2023-02-29T00:00:00Z" = None /\ FormatRFC3339 zeroTime = "0001-01-01T00:00:00Z"%string.
Proof. by vm_compute. Qed.
