(* ===== verification/Mesh.v ===== *)
(** * internal/mesh and the attestations of internal/solana: who is behind a peer

    The head's peer table, the identity every peer has signed and the observation that a
    verified peer gives.  A process talks to the directory, to the head and to the
    system's random source; what these answer is given by the number of the call. *)
From Stdlib Require Import ZArith Lia Strings.Ascii Strings.String.
From stdpp Require Import base gmap strings list fin_maps.
From S2P Require Import Prelude Sha256 Base58 Tx Schema BillingStore Worker GoText Json Base64 AclTypes Solana DirSchema Directory Gate Peers JsonPrint Jwt Http.

Open Scope Z_scope.
Local Open Scope worker_scope.
Local Open Scope go_scope.

(** ** internal/solana/solana.go: signatures *)
Record IdentityAttestation := mkAttestation {
  at_PeerID : string; at_WalletPubkey : string; at_Timestamp : Z; at_Signature : string }.
Definition zeroAttestation : IdentityAttestation := mkAttestation "" "" 0 "".

(** [json.Marshal] of the signed payload. *)
Definition identityPayload (peerID wallet : string) (timestamp : Z) : string :=
  text_of (MarshalStruct [("peer_id", JStr peerID); ("wallet_pubkey", JStr wallet); ("timestamp", JInt timestamp)]%string).

Section Signatures.
Context `{Ed25519}.

Definition VerifySignature (wallet message signature : string) : res unit :=
  match DecodeBase58 wallet PublicKeyBytes with
  | Err e => Err (Wrapf "wallet: %w" e)
  | Ok pub =>
    if negb (Z.of_nat (length pub) =? PublicKeyBytes) then Err (Errorf "wallet public key must decode to 32 bytes") else
    match DecodeSignature signature with
    | Err e => Err (Wrapf "signature: %w" e)
    | Ok sig => if ed25519_Verify pub (bytes_of_string message) sig then Ok tt
                else Err (Errorf "signature verification failed")
    end
  end.

Definition VerifyIdentity (att : IdentityAttestation) : res unit :=
  match NormalizeWallet (at_WalletPubkey att) with
  | Err e => Err (Wrapf "wallet pubkey: %w" e)
  | Ok wallet =>
    let payload := identityPayload (at_PeerID att) wallet (at_Timestamp att) in
    match DecodeString (at_Signature att) with
    | Err e => Err (Wrapf "signature encoding: %w" e)
    | Ok rawSig =>
      if negb (Z.of_nat (length rawSig) =? SignatureBytes) then Err (Errorf "signature must decode to 64 bytes") else
      let pub := match DecodeBase58 wallet PublicKeyBytes with Ok pub => pub | Err _ => [] end in
      if ed25519_Verify pub (bytes_of_string payload) rawSig then Ok tt
      else Err (Errorf "identity signature verification failed")
    end
  end.
End Signatures.

Definition newline : string := text_of ["010"%char].
Definition BuildChallengeMessage (accountID wallet nonce : string) (issuedAt expiresAt : time) : string :=
  "api.opentela.ai wallet-link v1" +:+ newline +:+ "sub:" +:+ accountID +:+ newline +:+ "wallet:" +:+ wallet +:+ newline +:+
  "nonce:" +:+ nonce +:+ newline +:+ "issued_at:" +:+ FormatRFC3339 issuedAt +:+ newline +:+
  "expires_at:" +:+ FormatRFC3339 expiresAt.

(** ** The peer table *)
Record serviceRecord := mkServiceRecord { sr_Name : string; sr_IdentityGroup : list string }.
Record peerRecord := mkPeerRecord {
  pr_Connected : bool; pr_Owner : string; pr_IdentityAttestation : option IdentityAttestation;
  pr_Service : list serviceRecord; pr_Capabilities : list string; pr_RuntimeCapabilities : list string }.
Definition zeroServiceRecord : serviceRecord := mkServiceRecord "" [].
Definition zeroPeerRecord : peerRecord := mkPeerRecord false "" None [] [] [].

Definition dec_attestation : decoder IdentityAttestation := dec_struct [
  fld "peer_id" at_PeerID (fun v a => mkAttestation v (at_WalletPubkey a) (at_Timestamp a) (at_Signature a)) dec_string;
  fld "wallet_pubkey" at_WalletPubkey (fun v a => mkAttestation (at_PeerID a) v (at_Timestamp a) (at_Signature a)) dec_string;
  fld "timestamp" at_Timestamp (fun v a => mkAttestation (at_PeerID a) (at_WalletPubkey a) v (at_Signature a)) dec_int64;
  fld "signature" at_Signature (fun v a => mkAttestation (at_PeerID a) (at_WalletPubkey a) (at_Timestamp a) v) dec_string ]%string.
Definition dec_service_record : decoder serviceRecord := dec_struct [
  fld "name" sr_Name (fun v s => mkServiceRecord v (sr_IdentityGroup s)) dec_string;
  fld "identity_group" sr_IdentityGroup (fun v s => mkServiceRecord (sr_Name s) v) (dec_slice "" dec_string) ]%string.
Definition dec_peer_record : decoder peerRecord := dec_struct [
  fld "connected" pr_Connected (fun v p => mkPeerRecord v (pr_Owner p) (pr_IdentityAttestation p) (pr_Service p) (pr_Capabilities p) (pr_RuntimeCapabilities p)) dec_bool;
  fld "owner" pr_Owner (fun v p => mkPeerRecord (pr_Connected p) v (pr_IdentityAttestation p) (pr_Service p) (pr_Capabilities p) (pr_RuntimeCapabilities p)) dec_string;
  fld "identity_attestation" pr_IdentityAttestation (fun v p => mkPeerRecord (pr_Connected p) (pr_Owner p) v (pr_Service p) (pr_Capabilities p) (pr_RuntimeCapabilities p)) (dec_ptr zeroAttestation dec_attestation);
  fld "service" pr_Service (fun v p => mkPeerRecord (pr_Connected p) (pr_Owner p) (pr_IdentityAttestation p) v (pr_Capabilities p) (pr_RuntimeCapabilities p)) (dec_slice zeroServiceRecord dec_service_record);
  fld "capabilities" pr_Capabilities (fun v p => mkPeerRecord (pr_Connected p) (pr_Owner p) (pr_IdentityAttestation p) (pr_Service p) v (pr_RuntimeCapabilities p)) (dec_slice "" dec_string);
  fld "runtime_capabilities" pr_RuntimeCapabilities (fun v p => mkPeerRecord (pr_Connected p) (pr_Owner p) (pr_IdentityAttestation p) (pr_Service p) (pr_Capabilities p) v) (dec_slice "" dec_string) ]%string.

Definition ErrPeerUnavailable : err := Sentinel "mesh: peer unavailable".
Definition ErrPeerUnverifiable : err := Sentinel "mesh: peer unverifiable".

(** The answer is a failure, or a status and the first JSON value of the body. *)
Definition fetchPeerTable (x : exchanged) : res (gmap string peerRecord) :=
  match x with
  | Err e => Err (Wrapf "mesh: fetch: %w" e)
  | Ok (status, body) =>
    if negb (status =? 200) then Err (Errorf "mesh: status")
    else match Unmarshal (dec_map zeroPeerRecord dec_peer_record) ∅ body with
         | Err e => Err (Wrapf "mesh: decode: %w" e)
         | Ok table => Ok table
         end
  end.

Definition observedServices (items : list serviceRecord) : list ServiceObservation :=
  map (fun i => mkServiceObservation (sr_Name i) (sr_IdentityGroup i))
    (List.filter (fun i => negb (String.eqb (sr_Name i) "")) items).
Definition capabilitySet (items : list string) : gset string :=
  list_to_set (List.filter (fun i => negb (String.eqb i "")) items).

(** ** The process and what surrounds it *)
Class surroundings := {
  dir_env : nat -> env; dir_others : nat -> dir -> dir;
  mesh_answer : nat -> exchanged;
  rand_Read : nat -> nat -> res bytes;
  site_now : nat -> time }.
Record site := mkSite { st_dir : dir; st_calls : nat }.

(** One step of a computation that returned. *)
Lemma wbind_inv {N A B} (m : W N A) (k : A -> W N B) o w b w' : wbind m k o w = (Some (Ok b), w') ->
  exists a w1, m o w = (Some (Ok a), w1) /\ k a o w1 = (Some (Ok b), w').
Proof. unfold wbind. destruct (m o w) as [[[a|e]|] w1]; intros Hk; [by exists a, w1|done..]. Qed.
Lemma wattempt_inv {N A B} (m : W N A) (k : res A -> W N B) o w b w' : wattempt m k o w = (Some b, w') ->
  exists r w1, m o w = (Some r, w1) /\ k r o w1 = (Some b, w').
Proof. unfold wattempt. destruct (m o w) as [[r|] w1]; intros Hk; [by exists r, w1|done]. Qed.

Section Process.
Context `{Ed25519} `{surroundings}.

Definition callDir {A} (m : dstore A) : W site A := callNode (fun n =>
  let '(r, d) := run m (dir_env (st_calls n)) (dir_others (st_calls n) (st_dir n)) in
  (r, mkSite d (S (st_calls n)))).
Definition asks_site {A} (f : nat -> res A) : W site A := callNode (fun n => (f (st_calls n), mkSite (st_dir n) (S (st_calls n)))).
Definition timeNow : W site time := asks_site (fun k => Ok (site_now k)).
Definition fetchTable : W site (gmap string peerRecord) := asks_site (fun k => fetchPeerTable (mesh_answer k)).
(** [randomString], [randomURLToken] *)
Definition randomString (n : nat) : W site string := asks_site (fun k =>
  match rand_Read k n with Ok buf => Ok (RawURL_EncodeToString buf) | Err e => Err e end).

(** The wallet of a connected peer. *)
Definition verifiedWallet (peerID : string) (peer : peerRecord) : res string :=
  match pr_IdentityAttestation peer with
  | None => Err ErrPeerUnverifiable
  | Some att =>
    match VerifyIdentity att with
    | Err _ => Err ErrPeerUnverifiable
    | Ok _ =>
      match NormalizeWallet (at_WalletPubkey att) with
      | Err _ => Err ErrPeerUnverifiable
      | Ok wallet =>
        if String.eqb (pr_Owner peer) "" || negb (String.eqb (pr_Owner peer) wallet) then Err ErrPeerUnverifiable
        else if negb (String.eqb (at_PeerID att) peerID) then Err ErrPeerUnverifiable
        else Ok wallet
      end
    end
  end.
Definition observation (peerID wallet : string) (t : time) (peer : peerRecord) : PeerObservation :=
  mkObservation peerID wallet t true (observedServices (pr_Service peer))
    (capabilitySet (pr_Capabilities peer ++ pr_RuntimeCapabilities peer)).

Fixpoint observePeers (table : gmap string peerRecord) (ids : list string) (out : gmap string PeerObservation)
    : W site (gmap string PeerObservation) :=
  match ids with
  | [] => wret out
  | id :: rest =>
    match table !! id with
    | Some peer =>
      if negb (pr_Connected peer) then observePeers table rest out else
      let* wallet := wlift (verifiedWallet id peer) in
      let* t := timeNow in
      observePeers table rest (<[id := observation id wallet t peer]> out)
    | None => observePeers table rest out
    end
  end.
Definition LookupPeers (ids : list string) : W site (gmap string PeerObservation) :=
  let* table := fetchTable in observePeers table ids ∅.
Definition LookupPeer (id : string) : W site PeerObservation :=
  let* observations := LookupPeers [id] in
  match observations !! id with Some obs => wret obs | None => wfail ErrPeerUnavailable end.
Definition OnlineStatus (ids : list string) : W site (gmap string bool) :=
  let* table := fetchTable in
  wret (fold_left (fun out id => <[id := pr_Connected (default zeroPeerRecord (table !! id))]> out) ids ∅).

(** The observations leave the database alone. *)
Lemma observePeers_moves (Rel : relation db) `{!PreOrder Rel} table ids : forall out, wmoves Rel (observePeers table ids out).
Proof using. induction ids as [|id ids IH]; intros out; simpl; wmoves; auto. Qed.
Lemma LookupPeers_moves (Rel : relation db) `{!PreOrder Rel} ids : wmoves Rel (LookupPeers ids).
Proof using. unfold LookupPeers, fetchTable. wmoves. by apply observePeers_moves. Qed.
Lemma LookupPeer_moves (Rel : relation db) `{!PreOrder Rel} id : wmoves Rel (LookupPeer id).
Proof using. unfold LookupPeer. wmoves. by apply LookupPeers_moves. Qed.

(** ** What an observation proves

    At its table's fetch the head listed the peer as connected, and the wallet's key had
    signed that the peer is its own. *)
Definition attested (peerID wallet : string) (peer : peerRecord) : Prop :=
  pr_Connected peer = true /\ pr_Owner peer = wallet /\ wallet <> ""%string /\
  exists att sig pub, pr_IdentityAttestation peer = Some att /\ at_PeerID att = peerID /\
    NormalizeWallet (at_WalletPubkey att) = Ok wallet /\ DecodeBase58 wallet PublicKeyBytes = Ok pub /\
    DecodeString (at_Signature att) = Ok sig /\ Z.of_nat (length sig) = SignatureBytes /\
    ed25519_Verify pub (bytes_of_string (identityPayload peerID wallet (at_Timestamp att))) sig = true.
Definition attested_at (k : nat) (peerID wallet : string) : Prop :=
  exists table peer, fetchPeerTable (mesh_answer k) = Ok table /\ table !! peerID = Some peer /\ attested peerID wallet peer.

Lemma verifiedWallet_attested peerID peer wallet : pr_Connected peer = true ->
  verifiedWallet peerID peer = Ok wallet -> attested peerID wallet peer.
Proof.
  intros Hc. unfold verifiedWallet. destruct (pr_IdentityAttestation peer) as [att|] eqn:Ea; [|done].
  destruct (VerifyIdentity att) as [u|] eqn:Ev; [|done].
  destruct (NormalizeWallet (at_WalletPubkey att)) as [w|] eqn:En; [|done].
  destruct (String.eqb_spec (pr_Owner peer) "") as [|Hne]; [done|].
  destruct (String.eqb_spec (pr_Owner peer) w) as [Ho|]; [|done]. cbn [orb negb].
  destruct (String.eqb_spec (at_PeerID att) peerID) as [Hp|]; [|done]. intros [= <-].
  unfold VerifyIdentity in Ev. rewrite En in Ev.
  destruct (DecodeString (at_Signature att)) as [sig|] eqn:Es; [|done].
  destruct (Z.eqb_spec (Z.of_nat (length sig)) SignatureBytes) as [Hl|]; [|done]. cbn [negb] in Ev.
  assert (Hpub : exists pub, DecodeBase58 w PublicKeyBytes = Ok pub).
  { unfold NormalizeWallet in En. apply res_bind_Ok in En as (d & _ & Hd).
    destruct (Z.eqb_spec (Z.of_nat (length d)) PublicKeyBytes) as [Hd2|]; [|done]. injection Hd as <-.
    exists d. apply decode_encode; [by intros ->|unfold PublicKeyBytes in *; lia]. }
  destruct Hpub as [pub Hpub]. rewrite Hpub in Ev. destruct (ed25519_Verify _ _ _) eqn:Hver; [|done].
  split; [done|]. split; [done|]. split; [congruence|]. exists att, sig, pub. rewrite <- Hp. done.
Qed.

Lemma LookupPeer_run id o w obs w' : LookupPeer id o w = (Some (Ok obs), w') ->
  attested_at (st_calls (w_node w)) id (ob_Wallet obs) /\ ob_PeerID obs = id /\
  ob_ObservedAt obs = site_now (S (st_calls (w_node w))).
Proof.
  unfold LookupPeer, LookupPeers, fetchTable, asks_site, callNode, wbind. cbn.
  destruct (fetchPeerTable _) as [table|] eqn:Ef; [|done]. cbn.
  destruct (table !! id) as [peer|] eqn:Ep; [|by cbn; rewrite lookup_empty].
  destruct (pr_Connected peer) eqn:Hc; cbn; [|by rewrite lookup_empty]. unfold wlift, wbind.
  destruct (verifiedWallet id peer) as [wallet|] eqn:Hv; [|done]. cbn. rewrite lookup_insert_eq. cbn.
  intros [= <- _]. split; [|done]. exists table, peer. split; [done|]. split; [done|]. by apply verifiedWallet_attested.
Qed.

(** An exchange with the head or the clock leaves both stores alone. *)
Lemma asks_site_run {A} (f : nat -> res A) o w r w' : asks_site f o w = (r, w') ->
  w_db w' = w_db w /\ st_dir (w_node w') = st_dir (w_node w) /\ r = Some (f (st_calls (w_node w))).
Proof. by intros [= <- <-]. Qed.
End Process.

(** ** A process to try things on

    One provider, [peerA], whose wallet is the key of zeros, and a signature scheme that
    takes the key's own bytes for a signature. *)
#[export] Hint Resolve LookupPeers_moves LookupPeer_moves : wmoves.

Module Demo.
Definition wallet : string := "11111111111111111111111111111111".
#[export] Instance scheme : Ed25519 := {
  ed25519_NewKeyFromSeed seed := seed ++ seed;
  ed25519_Sign priv msg := drop 32 priv ++ repeat Byte.x00 32;
  ed25519_Verify pub msg sig := bool_decide (take 32 sig = pub) }.
Definition table : json := JObj [("peerA", JObj [("connected", JBool true); ("owner", JStr wallet);
  ("identity_attestation", JObj [("peer_id", JStr "peerA"); ("wallet_pubkey", JStr wallet); ("timestamp", JInt 7);
     ("signature", JStr (EncodeToString (repeat Byte.x00 64)))]);
  ("service", JArr [JObj [("name", JStr "llm"); ("identity_group", JArr [JStr "model=m"; JStr "all"])]])])]%string.
Definition start : Z := 1700000000000000000.
#[export] Instance around : surroundings := {
  dir_env _ := fine_env start; dir_others _ d := d;
  mesh_answer _ := Ok (200, Some table);
  rand_Read _ n := Ok (repeat Byte.x01 n);
  site_now k := start + Z.of_nat k }.
Definition instance : InstanceRow :=
  mkInstanceRow "seller" "peerA" "gpu" wallet "public" "peer" 1 "verified" None None start start.
Definition directory : dir := set_instances {[ 1 := instance ]} empty_dir.
Definition world0 (d : dir) : world site := mkWorld empty_db (mkSite d 0) 0.
Definition outside0 : outside := mkOutside (fun _ => fine_env start) (fun _ d => d) (fun _ => false).

Example observed : fst (LookupPeer "peerA" outside0 (world0 directory)) =
  Some (Ok (mkObservation "peerA" wallet (start + 1) true [mkServiceObservation "llm" ["model=m"; "all"]%string] ∅)).
Proof. vm_compute. reflexivity. Qed.
End Demo.
