(* ===== verification/NodeCred.v ===== *)
(** * internal/nodecred/api.go: challenges and node credentials

    A node asks for a challenge, signs it with the key its peer id is made of and is
    given a credential: for the access lists when it is an active member of a region,
    for pricing when it is a provider that can be paid.  The keys of libp2p are a
    parameter. *)
From Stdlib Require Import ZArith Lia Strings.Ascii Strings.String.
From stdpp Require Import base gmap strings list.
From S2P Require Import Prelude Sha256 Base58 Billing Tx Schema BillingStore Worker GoText Json Base64 AclTypes DirSchema Directory Regions Keys Jwt Http Mesh.

Open Scope Z_scope.
Local Open Scope worker_scope.
Local Open Scope go_scope.

(** github.com/libp2p/go-libp2p/core: a public key of any type, by its protobuf bytes. *)
Class Libp2p := {
  PubKey : Type;
  crypto_UnmarshalPublicKey : bytes -> res PubKey;
  peer_IDFromPublicKey : PubKey -> res string;
  pub_Verify : PubKey -> bytes -> bytes -> res bool }.

Definition challengeTTL : Z := 2 * 60 * second.

Record CredService := mkCredService {
  cs_signer : Signer; cs_verifier : Verifier; cs_pricingSigner : option Signer;
  cs_ownershipMaxAge : Z; cs_internalDigest : bytes; cs_internalEnabled : bool }.
Definition NewService (signer : Signer) (verifier : Verifier) (ownershipMaxAge : Z) (internalToken : string) : CredService :=
  mkCredService signer verifier None ownershipMaxAge (sha256 (bytes_of_string internalToken))
    (negb (String.eqb (TrimSpace internalToken) "")).
Definition WithPricing (s : CredService) (signer : Signer) : CredService :=
  mkCredService (cs_signer s) (cs_verifier s) (Some signer) (cs_ownershipMaxAge s) (cs_internalDigest s) (cs_internalEnabled s).

(** ** Requests and answers *)
Definition dec_challengeRequest : decoder string := strict_struct [ ("peer_id"%string, dec_string) ].
Record challengeResponse := mkChallengeResponse {
  cr_ChallengeID : string; cr_PeerID : string; cr_Region : string; cr_Role : string; cr_Audience : string;
  cr_Nonce : string; cr_IssuedAt : time; cr_ExpiresAt : time; cr_Message : string }.
Record issueRequest := mkIssueRequest {
  iq_ChallengeID : string; iq_PeerID : string; iq_Nonce : string; iq_PublicKey : string; iq_Signature : string }.
Definition zeroIssueRequest : issueRequest := mkIssueRequest "" "" "" "" "".
Definition dec_issueRequest : decoder issueRequest := strict_struct [
  fld "challenge_id" iq_ChallengeID (fun v q => mkIssueRequest v (iq_PeerID q) (iq_Nonce q) (iq_PublicKey q) (iq_Signature q)) dec_string;
  fld "peer_id" iq_PeerID (fun v q => mkIssueRequest (iq_ChallengeID q) v (iq_Nonce q) (iq_PublicKey q) (iq_Signature q)) dec_string;
  fld "nonce" iq_Nonce (fun v q => mkIssueRequest (iq_ChallengeID q) (iq_PeerID q) v (iq_PublicKey q) (iq_Signature q)) dec_string;
  fld "public_key" iq_PublicKey (fun v q => mkIssueRequest (iq_ChallengeID q) (iq_PeerID q) (iq_Nonce q) v (iq_Signature q)) dec_string;
  fld "signature" iq_Signature (fun v q => mkIssueRequest (iq_ChallengeID q) (iq_PeerID q) (iq_Nonce q) (iq_PublicKey q) v) dec_string ]%string.
Record issueResponse := mkIssueResponse { ir_Token : string; ir_ExpiresAt : time; ir_KID : string }.

(** ** Helpers *)
Definition activeMembership (m : option RegionMembership) (now : time) : bool :=
  match m with
  | Some m => String.eqb (rm_Status m) "active" && String.eqb (rm_RegionStatus m) "active" &&
              match rm_ExpiresAt m with None => true | Some t => Before now t end
  | None => false
  end.

(** Both digests have the same length: the comparison is equality. *)
Definition authorized (s : CredService) (header : string) : bool :=
  cs_internalEnabled s &&
  match bearerToken header with
  | Some token => bool_decide (sha256 (bytes_of_string token) = cs_internalDigest s)
  | None => false
  end.

Definition canonicalChallengeMessage (audience challengeID peerID region role nonce : string) (issuedAt expiresAt : time) : string :=
  "opentela-node-credential-challenge" +:+ newline +:+ "challenge_id=" +:+ challengeID +:+ newline +:+
  "peer_id=" +:+ peerID +:+ newline +:+ "region=" +:+ region +:+ newline +:+ "role=" +:+ role +:+ newline +:+
  "audience=" +:+ audience +:+ newline +:+ "nonce=" +:+ nonce +:+ newline +:+
  "issued_at=" +:+ FormatRFC3339 issuedAt +:+ newline +:+ "expires_at=" +:+ FormatRFC3339 expiresAt +:+ newline.

Definition decodeRawBase64 (v : string) : res bytes :=
  match RawURL_DecodeString v with Ok raw => Ok raw | Err _ => DecodeString v end.

Section Handlers.
Context `{Ed25519} `{surroundings} `{Libp2p}.

Definition decodePeerProof (publicKeyB64 signatureB64 : string) : res (PubKey * bytes) :=
  let? pubRaw := decodeRawBase64 publicKeyB64 in
  let? pub := crypto_UnmarshalPublicKey pubRaw in
  let? sigRaw := decodeRawBase64 signatureB64 in
  Ok (pub, sigRaw).

(** The key is the peer's, and it signed the message. *)
Definition proves (req : issueRequest) (message : string) : bool :=
  match decodePeerProof (iq_PublicKey req) (iq_Signature req) with
  | Err _ => false
  | Ok (pub, sig) =>
    match peer_IDFromPublicKey pub with
    | Err _ => false
    | Ok derived =>
      String.eqb derived (iq_PeerID req) &&
      match pub_Verify pub (bytes_of_string message) sig with Ok ok => ok | Err _ => false end
    end
  end.

Definition observationFresh (s : CredService) (obs : PeerObservation) : W site bool :=
  if cs_ownershipMaxAge s <=? 0 then wret true
  else let* t := timeNow in wret (Sub t (ob_ObservedAt obs) <=? cs_ownershipMaxAge s).

(** The peer is live and the wallet it is seen with is its owner's. *)
Definition owned_live (s : CredService) (peer wallet : string) : W site bool :=
  let*? obs := LookupPeer peer in
  match obs with
  | Err _ => wret false
  | Ok obs =>
    let* fresh := observationFresh s obs in
    wret (fresh && String.eqb (ob_Wallet obs) wallet)
  end.

Definition unavailable {A} : W site (reply A) := wret (http_error 503 "service unavailable").
Definition method_not_allowed {A} : W site (reply A) := wret (http_error 405 "method not allowed").
Definition unauthorized {A} : W site (reply A) :=
  wret (HttpError [("X-Otela-Control-Auth-Failed", "true")]%string 401 "unauthorized").

(** The random parts of a challenge, its row and the answer. *)
Definition createChallenge (audience peer region role : string) (clock : W site time) : W site (reply challengeResponse) :=
  let*? nonce := randomString 24 in
  match nonce with
  | Err _ => unavailable
  | Ok nonce =>
    let*? challengeID := randomString 18 in
    match challengeID with
    | Err _ => unavailable
    | Ok challengeID =>
      let* issuedAt := clock in
      let expiresAt := issuedAt + challengeTTL in
      let message := canonicalChallengeMessage audience challengeID peer region role nonce issuedAt expiresAt in
      let*? created := callDir (CreateNodeCredentialChallenge
        (mkNodeChallenge challengeID peer region role audience (HashKey nonce) message issuedAt expiresAt None)) in
      match created with
      | Err e =>
        if errors_is e ErrStoreConflict
        then wret (HttpError [("Retry-After", "60")]%string 429 "too many pending challenges")
        else unavailable
      | Ok _ => wret (WriteJSON 201 (mkChallengeResponse challengeID peer region role audience nonce issuedAt expiresAt message))
      end
    end
  end.

Definition ChallengeHandler (s : CredService) (r : request) : W site (reply challengeResponse) :=
  if negb (String.eqb (h_Method r) "POST") then method_not_allowed
  else if negb (authorized s (h_Header r "Authorization")) then unauthorized
  else match DecodeStrict 8192 dec_challengeRequest "" r with
  | Err _ => wret (http_error 400 "invalid JSON body")
  | Ok peerID =>
    let*? inst := callDir (GetInstanceByPeerID (TrimSpace peerID)) in
    match inst with
    | Err _ => wret (http_error 404 "not found")
    | Ok inst =>
      let* now := timeNow in
      match in_Membership inst, activeMembership (in_Membership inst) now with
      | Some m, true =>
        let* live := owned_live s (in_PeerID inst) (in_OwnerWallet inst) in
        if negb live then wret (http_error 409 "trusted region unavailable")
        else createChallenge Audience (in_PeerID inst) (rm_RegionSlug m) (rm_NodeRole m) (wret now)
      | _, _ => wret (http_error 409 "trusted region unavailable")
      end
    end
  end.

(** The answer to a challenge that could not be taken. *)
Definition consume_refusal {A} (e : err) : W site (reply A) :=
  if errors_is e ErrStoreNotFound then wret (http_error 404 "not found")
  else if errors_is e ErrChallengeExpired || errors_is e ErrChallengeConsumed then wret (http_error 409 "challenge unavailable")
  else unavailable.

(** The token under a fresh id. *)
Definition issue (signer : Signer) (peer audience role region : string) (revision : Z) (now : time)
    : W site (reply issueResponse) :=
  let*? jti := randomString 18 in
  match jti with
  | Err _ => unavailable
  | Ok jti =>
    let expiresAt := now + maxTokenTTL in
    match Sign signer (mkClaims peer audience role region revision jti now expiresAt) with
    | Err _ => unavailable
    | Ok token => wret (WriteJSON 201 (mkIssueResponse token expiresAt (sg_kid signer)))
    end
  end.

Definition IssueHandler (s : CredService) (r : request) : W site (reply issueResponse) :=
  if negb (String.eqb (h_Method r) "POST") then method_not_allowed
  else if negb (authorized s (h_Header r "Authorization")) then unauthorized
  else match DecodeStrict 32768 dec_issueRequest zeroIssueRequest r with
  | Err _ => wret (http_error 400 "invalid JSON body")
  | Ok req =>
    let* now := timeNow in
    let*? ch := callDir (ConsumeNodeCredentialChallenge (iq_ChallengeID req) (iq_PeerID req) (iq_Nonce req) Audience now) in
    match ch with
    | Err e => consume_refusal e
    | Ok ch =>
      if negb (proves req (nd_ChallengeMessage ch)) then wret (http_error 400 "invalid proof") else
      let*? inst := callDir (GetInstanceByPeerID (iq_PeerID req)) in
      match inst with
      | Err _ => wret (http_error 409 "trusted region unavailable")
      | Ok inst =>
        match in_Membership inst with
        | None => wret (http_error 409 "trusted region unavailable")
        | Some m =>
          if negb (String.eqb (rm_RegionSlug m) (nd_RegionSlug ch)) || negb (String.eqb (rm_NodeRole m) (nd_NodeRole ch)) ||
             negb (activeMembership (Some m) now)
          then wret (http_error 409 "trusted region unavailable") else
          let* live := owned_live s (iq_PeerID req) (in_OwnerWallet inst) in
          if negb live then wret (http_error 409 "trusted region unavailable")
          else issue (cs_signer s) (iq_PeerID req) "" (rm_NodeRole m) (rm_RegionSlug m) (rm_MembershipRevision m) now
        end
      end
    end
  end.

(** ** Pricing *)
Definition PricingChallengeHandler (s : CredService) (r : request) : W site (reply challengeResponse) :=
  if negb (String.eqb (h_Method r) "POST") then method_not_allowed
  else if negb (authorized s (h_Header r "Authorization")) then unauthorized
  else match cs_pricingSigner s with
  | None => wret (http_error 503 "pricing credentials not configured")
  | Some _ =>
    match DecodeStrict 8192 dec_challengeRequest "" r with
    | Err _ => wret (http_error 400 "invalid JSON body")
    | Ok peerID =>
      let*? inst := callDir (GetInstanceByPeerID (TrimSpace peerID)) in
      match inst with
      | Err _ => wret (http_error 404 "not found")
      | Ok inst =>
        if negb (BillableProvider (in_AccountID inst) (in_OwnerWallet inst))
        then wret (http_error 409 "not a billable provider") else
        let* live := owned_live s (in_PeerID inst) (in_OwnerWallet inst) in
        if negb live then wret (http_error 409 "ownership unavailable")
        else createChallenge PricingAudience (in_PeerID inst) "" "" timeNow
      end
    end
  end.

Definition PricingIssueHandler (s : CredService) (r : request) : W site (reply issueResponse) :=
  if negb (String.eqb (h_Method r) "POST") then method_not_allowed
  else if negb (authorized s (h_Header r "Authorization")) then unauthorized
  else match cs_pricingSigner s with
  | None => wret (http_error 503 "pricing credentials not configured")
  | Some signer =>
    match DecodeStrict 32768 dec_issueRequest zeroIssueRequest r with
    | Err _ => wret (http_error 400 "invalid JSON body")
    | Ok req =>
      let* now := timeNow in
      let*? ch := callDir (ConsumeNodeCredentialChallenge (iq_ChallengeID req) (iq_PeerID req) (iq_Nonce req) PricingAudience now) in
      match ch with
      | Err e => consume_refusal e
      | Ok ch =>
        if negb (String.eqb (nd_Audience ch) PricingAudience) then wret (http_error 404 "not found")
        else if negb (proves req (nd_ChallengeMessage ch)) then wret (http_error 400 "invalid proof") else
        let*? inst := callDir (GetInstanceByPeerID (iq_PeerID req)) in
        match inst with
        | Err _ => wret (http_error 409 "not a billable provider")
        | Ok inst =>
          if negb (BillableProvider (in_AccountID inst) (in_OwnerWallet inst))
          then wret (http_error 409 "not a billable provider") else
          let* live := owned_live s (iq_PeerID req) (in_OwnerWallet inst) in
          if negb live then wret (http_error 409 "ownership unavailable")
          else issue signer (iq_PeerID req) PricingAudience "" "" 0 now
        end
      end
    end
  end.
End Handlers.
