(* ===== verification/NodeCredSpec.v ===== *)
(** * Who is given a node credential *)
From Stdlib Require Import ZArith Lia Strings.Ascii Strings.String.
From stdpp Require Import base gmap strings list.
From S2P Require Import Prelude Sha256 Base58 Billing Tx Schema BillingStore Worker GoText Json Base64 AclTypes DirSchema Directory Regions Keys JsonPrint Jwt Http Mesh NodeCred.

Open Scope Z_scope.

(** ** The challenge that is taken *)
Definition takes (t : time) (id peer nonce audience : string) (d d' : dir) (c : NodeCredentialChallenge) : Prop :=
  exists r, node_challenges d !! id = Some r /\ nc_peer_id r = peer /\ nc_audience r = audience /\
    nc_consumed_at r = None /\ hashSecret nonce = nc_nonce_hash r /\ t <= nc_expires_at r /\
    nd_ChallengeMessage c = nc_challenge_message r /\ nd_RegionSlug c = nc_region_slug r /\
    nd_NodeRole c = nc_node_role r /\ d' = set_node_challenges (alter (consume_row t) id (node_challenges d)) d.

Lemma consume_takes id peer nonce audience t e d c d' : audience <> ""%string ->
  run (ConsumeNodeCredentialChallenge id peer nonce audience t) e d = (Ok c, d') ->
  takes t id peer nonce audience d d' c.
Proof.
  intros Haud. unfold takes, ConsumeNodeCredentialChallenge. generalize (hashSecret nonce) as h. intros h.
  unfold run, with_tx, begin_tx. cbn [c_step c_db c_tx c_bad].
  destruct (e_fault e 0); cbn; try done.
  unfold bind at 1, found, attempt at 1, scan_row at 1, bind at 1, tx_stmt at 1. cbn.
  destruct (e_fault e 1); cbn; try done.
  unfold node_challenge, select. destruct (node_challenges d !! id) as [r|] eqn:Er; cbn; [|done].
  destruct (String.eqb_spec (nc_peer_id r) peer) as [Hp|]; cbn; [|done].
  unfold audFor. rewrite (proj2 (String.eqb_neq audience "") Haud).
  destruct (String.eqb_spec (nc_audience r) audience) as [Ha|]; cbn; [|done].
  destruct (nc_consumed_at r) eqn:Ec; cbn; [done|].
  destruct (String.eqb_spec h (nc_nonce_hash r)) as [Hn|]; cbn; [|done].
  unfold After. destruct (Z.ltb_spec (nc_expires_at r) t) as [|Ht]; cbn; [done|].
  unfold bind, wrap, tx_stmt, commit. cbn. destruct (e_fault e 2); cbn; try done.
  destruct (e_fault e 3); cbn; try done. intros [= <- <-]. exists r. done.
Qed.

Section Specs.
Context `{Ed25519} `{surroundings} `{Libp2p}.

Lemma owned_live_true s peer wallet o w w' : owned_live s peer wallet o w = (Some (Ok true), w') ->
  attested_at (st_calls (w_node w)) peer wallet.
Proof.
  unfold owned_live. intros Hl. apply wattempt_inv in Hl as ([obs|e] & w1 & Hobs & Hl); [|done].
  apply LookupPeer_run in Hobs as (Ha & _ & _). apply wbind_inv in Hl as (fresh & w2 & _ & Hl).
  injection Hl as Hf _. apply andb_prop in Hf as [_ Hf]. apply String.eqb_eq in Hf. by rewrite <- Hf.
Qed.

Lemma issue_written signer peer audience role region revision now o w rep w' :
  issue signer peer audience role region revision now o w = (Some (Ok (WriteJSON 201 rep)), w') ->
  exists jti, Sign signer (mkClaims peer audience role region revision jti now (now + maxTokenTTL)) = Ok (ir_Token rep) /\
    ir_ExpiresAt rep = now + maxTokenTTL /\ ir_KID rep = sg_kid signer.
Proof.
  unfold issue. intros Hi. apply wattempt_inv in Hi as ([jti|e] & w1 & _ & Hi); [|done]. exists jti.
  unfold Sign in *. by injection Hi as <- _.
Qed.

(** ** The two flows *)
Inductive flow := ForLists | ForPricing.
Definition issuing (f : flow) : CredService -> request -> W site (reply issueResponse) :=
  match f with ForLists => IssueHandler | ForPricing => PricingIssueHandler end.
Definition audience_of (f : flow) : string := match f with ForLists => Audience | ForPricing => PricingAudience end.
Definition signer_of (f : flow) (s : CredService) : option Signer :=
  match f with ForLists => Some (cs_signer s) | ForPricing => cs_pricingSigner s end.

(** The instance may hold the credential, and what the credential says of it. *)
Definition entitled (f : flow) (ch : NodeCredentialChallenge) (inst : InstanceInfo) (now : time) (role region : string) (rev : Z) : Prop :=
  match f with
  | ForLists => exists m, in_Membership inst = Some m /\ activeMembership (Some m) now = true /\
      role = rm_NodeRole m /\ region = rm_RegionSlug m /\ rev = rm_MembershipRevision m /\
      nd_NodeRole ch = rm_NodeRole m /\ nd_RegionSlug ch = rm_RegionSlug m
  | ForPricing => BillableProvider (in_AccountID inst) (in_OwnerWallet inst) = true /\
      role = ""%string /\ region = ""%string /\ rev = 0
  end.

(** Everything that was checked when a token goes out, in the order it was; [k] is the
    number of the call that read the clock. *)
Definition earned (f : flow) (s : CredService) (r : request) (d0 : dir) (k : nat) (rep : issueResponse) : Prop :=
  exists req ch d1 inst signer role region rev jti,
    authorized s (h_Header r "Authorization") = true /\
    DecodeStrict 32768 dec_issueRequest zeroIssueRequest r = Ok req /\
    takes (site_now k) (iq_ChallengeID req) (iq_PeerID req) (iq_Nonce req) (audience_of f) (dir_others (S k) d0) d1 ch /\
    proves req (nd_ChallengeMessage ch) = true /\
    fst (run (GetInstanceByPeerID (iq_PeerID req)) (dir_env (2 + k)) (dir_others (2 + k) d1)) = Ok inst /\
    entitled f ch inst (site_now k) role region rev /\
    attested_at (3 + k) (iq_PeerID req) (in_OwnerWallet inst) /\
    signer_of f s = Some signer /\ ir_KID rep = sg_kid signer /\ ir_ExpiresAt rep = site_now k + maxTokenTTL /\
    Sign signer (mkClaims (iq_PeerID req) (match f with ForLists => ""%string | ForPricing => PricingAudience end)
      role region rev jti (site_now k) (site_now k + maxTokenTTL)) = Ok (ir_Token rep).

Lemma callDir_inv {A} (m : dstore A) o w r w' : callDir m o w = (Some r, w') ->
  run m (dir_env (st_calls (w_node w))) (dir_others (st_calls (w_node w)) (st_dir (w_node w))) = (r, st_dir (w_node w')) /\
  st_calls (w_node w') = S (st_calls (w_node w)).
Proof.
  unfold callDir, callNode. destruct (run m _ _) as [r1 d] eqn:E. intros [= <- <-]. by split.
Qed.

(** C15: a node credential, of either kind, is given only for a challenge that was open,
    was made for this peer and this kind of credential and is taken in the same step; to
    a caller that knows the challenge's nonce and whose key is the one the peer id is
    made of and has signed the challenge; about a registered instance that is an active
    member in the challenge's role and region (or, for pricing, can be paid); and while
    the peer is live under a signed identity of the instance's own wallet.  The token
    says exactly that, for a quarter of an hour. *)
Theorem credential_needs_proof f s r o w rep w' :
  issuing f s r o w = (Some (Ok (WriteJSON 201 rep)), w') ->
  earned f s r (st_dir (w_node w)) (st_calls (w_node w)) rep.
Proof.
  destruct f; cbn [issuing]; [unfold IssueHandler|unfold PricingIssueHandler].
  all: destruct (negb (String.eqb (h_Method r) "POST")); [done|].
  all: destruct (authorized s _) eqn:Hauth; [|done]; cbn [negb].
  2: destruct (cs_pricingSigner s) as [signer|] eqn:Hsigner; [|done].
  all: destruct (DecodeStrict _ _ _ r) as [req|] eqn:Hreq; [|done].
  all: intros Hi; apply wbind_inv in Hi as (now & w1 & Hnow & Hi).
  all: injection Hnow as <- <-.
  all: apply wattempt_inv in Hi as ([ch|e] & w2 & Hch & Hi);
    [|unfold consume_refusal in Hi; destruct (errors_is e _); [done|]; by destruct (_ || _)].
  all: apply callDir_inv in Hch as [Hch Hk2]; cbn in Hch, Hk2.
  all: apply consume_takes in Hch; [|done].
  2: destruct (negb (String.eqb (nd_Audience ch) _)); [done|].
  all: destruct (proves req _) eqn:Hp; [|done]; cbn [negb] in Hi.
  all: apply wattempt_inv in Hi as ([inst|e] & w3 & Hinst & Hi); [|done].
  all: apply callDir_inv in Hinst as [Hinst Hk3]; rewrite Hk2 in *.
  - destruct (in_Membership inst) as [m|] eqn:Hm; [|done].
    destruct (String.eqb_spec (rm_RegionSlug m) (nd_RegionSlug ch)) as [Hreg|]; [|done].
    destruct (String.eqb_spec (rm_NodeRole m) (nd_NodeRole ch)) as [Hrole|]; [|done].
    destruct (activeMembership (Some m) _) eqn:Hact; [|done]. cbn [orb negb] in Hi.
    apply wbind_inv in Hi as (live & w4 & Hlive & Hi). destruct live; [|done].
    apply owned_live_true in Hlive. rewrite Hk3 in Hlive. apply issue_written in Hi as (jti & Hs & Hx & Hkid).
    exists req, ch, (st_dir (w_node w2)), inst, (cs_signer s), (rm_NodeRole m), (rm_RegionSlug m), (rm_MembershipRevision m), jti.
    repeat (split; [done|]). split; [exact (f_equal fst Hinst)|]. split; [by exists m|]. done.
  - destruct (BillableProvider _ _) eqn:Hb; [|done]. cbn [negb] in Hi.
    apply wbind_inv in Hi as (live & w4 & Hlive & Hi). destruct live; [|done].
    apply owned_live_true in Hlive. rewrite Hk3 in Hlive. apply issue_written in Hi as (jti & Hs & Hx & Hkid).
    exists req, ch, (st_dir (w_node w2)), inst, signer, ""%string, ""%string, 0, jti.
    repeat (split; [done|]). split; [exact (f_equal fst Hinst)|]. done.
Qed.

(** A challenge that was taken is refused from then on. *)
Lemma taken_refused id peer nonce audience t e d r : audience <> ""%string ->
  node_challenges d !! id = Some r -> is_Some (nc_consumed_at r) ->
  forall c d', run (ConsumeNodeCredentialChallenge id peer nonce audience t) e d <> (Ok c, d').
Proof.
  intros Haud Hr Hc c d' Hrun. apply consume_takes in Hrun as (r' & Hr' & _ & _ & Hn & _); [|done].
  assert (r' = r) as -> by congruence. rewrite Hn in Hc. by destruct Hc.
Qed.
End Specs.

(** ** An issue *)
#[local] Existing Instance Demo.scheme.
#[local] Existing Instance Demo.around.
#[local] Instance demo_libp2p : Libp2p := {
  PubKey := bytes; crypto_UnmarshalPublicKey b := Ok b; peer_IDFromPublicKey _ := Ok "peerA"%string;
  pub_Verify _ _ _ := Ok true }.
Definition demo_service : CredService :=
  WithPricing (NewService (NewSigner "k1" "https://api" []) (NewVerifier "https://api" ∅) 0 "tok")
    (NewSignerWithAudience "p1" "https://api" PricingAudience (repeat Byte.x07 64)).
Definition demo_challenged : dir := set_node_challenges
  {[ "c1"%string := mkNodeChallengeRow "peerA" "" "" PricingAudience (hashSecret "n") "message" Demo.start
       (Demo.start + challengeTTL) None ]} Demo.directory.
Definition demo_body : chars := print_fields [("challenge_id", JStr "c1"); ("peer_id", JStr "peerA"); ("nonce", JStr "n");
  ("public_key", JStr "AA"); ("signature", JStr "AA")]%string.
Definition demo_request : request :=
  mkHttp "POST" None None (fun k => if String.eqb k "Authorization" then "Bearer tok"%string else ""%string)
    (fun _ => ""%string) (fun _ => ""%string) ("{"%char :: demo_body ++ ["}"%char]) false.
Definition demo_issued : option (res (reply issueResponse)) * world site :=
  issuing ForPricing demo_service demo_request Demo.outside0 (Demo.world0 demo_challenged).

Lemma demo_issued_ok : exists rep w', demo_issued = (Some (Ok (WriteJSON 201 rep)), w').
Proof. do 2 eexists. vm_compute. reflexivity. Qed.
Lemma credential_needs_proof_witness : exists rep w', demo_issued = (Some (Ok (WriteJSON 201 rep)), w') /\
  earned ForPricing demo_service demo_request demo_challenged 0 rep.
Proof.
  destruct demo_issued_ok as (rep & w1 & He). exists rep, w1. split; [exact He|]. unfold demo_issued in He.
  exact (credential_needs_proof ForPricing demo_service demo_request Demo.outside0 (Demo.world0 demo_challenged) rep w1 He).
Defined.
