(* ===== verification/Pricing.v ===== *)
(** * How asks get onto the market

    internal/pricingapi (the seller's own publication), the console's publication in
    internal/billingapi/model_pricing.go and the refresher of internal/askrefresh.  The
    order in which a Go map is walked is a parameter. *)
From Stdlib Require Import ZArith Lia Strings.Ascii Strings.String.
From stdpp Require Import base gmap strings list fin_maps.
From S2P Require Import Prelude Base58 Billing Tx Schema BillingStore Market Worker GoText Json AclTypes DirSchema Directory Jwt Http Mesh.

Open Scope Z_scope.
Local Open Scope worker_scope.
Local Open Scope go_scope.

Definition minute : Z := 60 * second.
Definition askTTL : Z := 5 * minute.
Definition maxBody : Z := 262144.

(** ** What a peer advertises *)
Definition modelPrefix : string := "model=".
Definition advertised_model (group : string) : option string :=
  let l := chars_of group in
  if (length l <=? 6)%nat || negb (bool_decide (take 6 l = chars_of modelPrefix)) then None
  else Some (text_of (drop 6 l)).
Definition AdvertisedModelsByService (services : list ServiceObservation) : gmap string (gset string) :=
  fold_left (fun known svc =>
    if String.eqb (so_Name svc) "" then known
    else <[so_Name svc := default ∅ (known !! so_Name svc) ∪ list_to_set (omap advertised_model (so_IdentityGroups svc))]> known)
    services ∅.
Definition advertises (services : list ServiceObservation) (service model : string) : bool :=
  match AdvertisedModelsByService services !! service with
  | Some models => bool_decide (model ∈ models)
  | None => false
  end.

(** ** Publication rules *)
Definition NUL : string := text_of ["000"%char].
Definition route_key (a : Ask) : string := ak_Service a +:+ NUL +:+ ak_Model a.
Definition negative_rate (a : Ask) : bool :=
  (ak_InputPerMillion a <? 0) || (ak_CachedInputPerMillion a <? 0) || (ak_OutputPerMillion a <? 0).

(** The loop both sets of rules share: [known] is what is required of a route, the three
    texts are the failures; the advertisement's failure and a duplicate name the route. *)
Fixpoint check_asks (known : Ask -> option err) (empty : err) (duplicate : Ask -> err) (negative : err)
    (seen : gset string) (asks : list Ask) : res unit :=
  match asks with
  | [] => Ok tt
  | a :: rest =>
    if String.eqb (ak_Service a) "" || String.eqb (ak_Model a) "" then Err empty
    else if bool_decide (route_key a ∈ seen) then Err (duplicate a)
    else if negative_rate a then Err negative
    else match known a with
         | Some e => Err e
         | None => check_asks known empty duplicate negative ({[ route_key a ]} ∪ seen) rest
         end
  end.

Definition ValidateAsksAgainstAdvertisement (asks : list Ask) (services : list ServiceObservation) : res unit :=
  if Z.of_nat (length asks) >? 256 then Err (Errorf "too many asks (max 256)")
  else check_asks
    (fun a => if advertises services (ak_Service a) (ak_Model a) then None
              else Some (Errorf ("unknown service or model: " +:+ ak_Service a +:+ "/" +:+ ak_Model a)))
    (Errorf "empty service or model")
    (fun a => Errorf ("duplicate ask: " +:+ ak_Service a +:+ "/" +:+ ak_Model a))
    (Errorf "negative rate") ∅ asks.

Definition maxAskConfig : Z := 256.
Definition validateAskConfig (asks : list Ask) : res unit :=
  if Z.of_nat (length asks) >? maxAskConfig then Err (Errorf "too_many_asks")
  else check_asks (fun _ => None) (Errorf "empty_service_or_model") (fun _ => Errorf "duplicate_ask")
    (Errorf "negative_rate") ∅ asks.

(** ** The body of POST /internal/pricing *)
Definition ask_fields : fields Ask := [
  fld "peer_id" ak_PeerID (fun v a => mkAsk v (ak_Service a) (ak_Model a) (ak_InputPerMillion a) (ak_CachedInputPerMillion a) (ak_OutputPerMillion a) (ak_Revision a) (ak_ExpiresAt a) (ak_UpdatedAt a)) dec_string;
  fld "service" ak_Service (fun v a => mkAsk (ak_PeerID a) v (ak_Model a) (ak_InputPerMillion a) (ak_CachedInputPerMillion a) (ak_OutputPerMillion a) (ak_Revision a) (ak_ExpiresAt a) (ak_UpdatedAt a)) dec_string;
  fld "model" ak_Model (fun v a => mkAsk (ak_PeerID a) (ak_Service a) v (ak_InputPerMillion a) (ak_CachedInputPerMillion a) (ak_OutputPerMillion a) (ak_Revision a) (ak_ExpiresAt a) (ak_UpdatedAt a)) dec_string;
  fld "input_per_million" ak_InputPerMillion (fun v a => mkAsk (ak_PeerID a) (ak_Service a) (ak_Model a) v (ak_CachedInputPerMillion a) (ak_OutputPerMillion a) (ak_Revision a) (ak_ExpiresAt a) (ak_UpdatedAt a)) dec_int64;
  fld "cached_input_per_million" ak_CachedInputPerMillion (fun v a => mkAsk (ak_PeerID a) (ak_Service a) (ak_Model a) (ak_InputPerMillion a) v (ak_OutputPerMillion a) (ak_Revision a) (ak_ExpiresAt a) (ak_UpdatedAt a)) dec_int64;
  fld "output_per_million" ak_OutputPerMillion (fun v a => mkAsk (ak_PeerID a) (ak_Service a) (ak_Model a) (ak_InputPerMillion a) (ak_CachedInputPerMillion a) v (ak_Revision a) (ak_ExpiresAt a) (ak_UpdatedAt a)) dec_int64;
  fld "revision" ak_Revision (fun v a => mkAsk (ak_PeerID a) (ak_Service a) (ak_Model a) (ak_InputPerMillion a) (ak_CachedInputPerMillion a) (ak_OutputPerMillion a) v (ak_ExpiresAt a) (ak_UpdatedAt a)) dec_int64;
  fld "expires_at" ak_ExpiresAt (fun v a => mkAsk (ak_PeerID a) (ak_Service a) (ak_Model a) (ak_InputPerMillion a) (ak_CachedInputPerMillion a) (ak_OutputPerMillion a) (ak_Revision a) v (ak_UpdatedAt a)) dec_time;
  fld "updated_at" ak_UpdatedAt (fun v a => mkAsk (ak_PeerID a) (ak_Service a) (ak_Model a) (ak_InputPerMillion a) (ak_CachedInputPerMillion a) (ak_OutputPerMillion a) (ak_Revision a) (ak_ExpiresAt a) v) dec_time ]%string.
Definition dec_ask : decoder Ask := strict_struct ask_fields.
Definition zeroAsk : Ask := mkAsk "" "" "" 0 0 0 0 zeroTime zeroTime.
Definition dec_askRequest : decoder (list Ask) := strict_struct [ ("asks"%string, dec_slice zeroAsk dec_ask) ].

Record askResponse := mkAskResponse { kr_Revision : Z; kr_ExpiresAt : time }.
(** The one endpoint answers both a published revision and a named error as JSON. *)
Inductive pricing_json := Published (r : askResponse) | PricingError (text : string).

Record PricingService := mkPricing { px_verifier : Verifier; px_ownershipMaxAge : Z }.
Record Refresher := mkRefresher { rf_ttl : Z; rf_ownershipMaxAge : Z }.
Definition DefaultTTL : Z := 5 * minute.
Definition NewRefresher : Refresher := mkRefresher DefaultTTL 0.
Definition SetOwnershipMaxAge (d : Z) (s : Refresher) : Refresher := mkRefresher (rf_ttl s) d.

Section Publishing.
Context `{Ed25519} `{surroundings}.

Definition observationFresh (maxAge : Z) (obs : PeerObservation) : W site bool :=
  if maxAge <=? 0 then wret true else let* t := timeNow in wret (Sub t (ob_ObservedAt obs) <=? maxAge).

(** ** internal/pricingapi *)
Definition authenticate (s : PricingService) (r : request) : W site (option Claims) :=
  match bearerToken (h_Header r "Authorization") with
  | None => wret None
  | Some token =>
    let* t := timeNow in
    wret (match Verify (px_verifier s) t token with
          | Ok claims => if String.eqb (cl_Audience claims) PricingAudience then Some claims else None
          | Err _ => None
          end)
  end.

(** The observation, or the status of the refusal. *)
Definition resolveSeller (s : PricingService) (peerID : string) : W site (PeerObservation + Z) :=
  let*? inst := callDir (GetInstanceByPeerID peerID) in
  match inst with
  | Err e => wret (inr (if errors_is e ErrStoreNotFound then 404 else 503))
  | Ok inst =>
    if negb (BillableProvider (in_AccountID inst) (in_OwnerWallet inst)) then wret (inr 409) else
    let*? obs := LookupPeer peerID in
    match obs with
    | Err _ => wret (inr 503)
    | Ok obs =>
      let* fresh := observationFresh (px_ownershipMaxAge s) obs in
      if negb fresh || negb (String.eqb (ob_Wallet obs) (in_OwnerWallet inst)) then wret (inr 409) else wret (inl obs)
    end
  end.

Definition classifyStoreErr (e : err) : Z * string :=
  if errors_is e ErrConflict then (409, "invalid asks"%string) else (503, "service unavailable"%string).

(** The text of an error made by [errors.New]. *)
Definition error_text (e : err) : string := match e with Errorf t => t | Sentinel t => t | _ => "" end.

Definition Handler (s : PricingService) (r : request) : W site (reply pricing_json) :=
  if negb (String.eqb (h_Method r) "POST") then wret (http_error 405 "method not allowed") else
  let* claims := authenticate s r in
  match claims with
  | None => wret (HttpError [("X-Otela-Control-Auth-Failed", "true")]%string 401 "unauthorized")
  | Some claims =>
    match DecodeStrict maxBody dec_askRequest [] r with
    | Err _ => wret (http_error 400 "invalid JSON body")
    | Ok asks =>
      let* seller := resolveSeller s (cl_Subject claims) in
      match seller with
      | inr status => wret (http_error status "trusted region unavailable")
      | inl obs =>
        match ValidateAsksAgainstAdvertisement asks (ob_Services obs) with
        | Err e => wret (WriteJSON 400 (PricingError (error_text e)))
        | Ok _ =>
          let*? revision := callStore (ReplaceAsks (cl_Subject claims) asks askTTL) in
          match revision with
          | Err e => let '(status, msg) := classifyStoreErr e in wret (WriteJSON status (PricingError msg))
          | Ok revision =>
            let* t := timeNow in
            wret (WriteJSON 200 (Published (mkAskResponse revision (t + askTTL))))
          end
        end
      end
    end
  end.

(** ** internal/billingapi/model_pricing.go: the console's immediate publish *)
Definition sellerAskTTLDuration : Z := 5 * minute.
(** [mesh]: whether the service was given a mesh client; without one the lookup panics. *)
Definition publishAskConfig (mesh : bool) (accountID peerID : string) (asks : list Ask) : W site unit :=
  let*? inst := callDir (GetInstanceByPeerID peerID) in
  match inst with
  | Err _ => wfail (Errorf "instance not found")
  | Ok inst =>
    if negb (String.eqb (in_AccountID inst) accountID) then wfail (Errorf "not your instance")
    else if negb (BillableProvider (in_AccountID inst) (in_OwnerWallet inst)) then wfail (Errorf "instance not billable")
    else if negb mesh then panic else
    let*? obs := LookupPeer peerID in
    match obs with
    | Err _ => wfail (Errorf "peer not observed")
    | Ok obs =>
      if negb (String.eqb (ob_Wallet obs) (in_OwnerWallet inst)) then wfail (Errorf "observed wallet mismatch") else
      do* wlift (ValidateAsksAgainstAdvertisement asks (ob_Services obs)) in
      do* callStore (ReplaceAsks peerID asks sellerAskTTLDuration) in
      wret tt
    end
  end.

(** ** internal/askrefresh *)
Fixpoint refreshEach (s : Refresher) (configs : list (string * list Ask)) : W site unit :=
  match configs with
  | [] => wret tt
  | (peerID, asks) :: rest =>
    if bool_decide (asks = []) then refreshEach s rest else
    let*? inst := callDir (GetInstanceByPeerID peerID) in
    match inst with
    | Err _ => refreshEach s rest
    | Ok inst =>
      if negb (BillableProvider (in_AccountID inst) (in_OwnerWallet inst)) then refreshEach s rest else
      let*? obs := LookupPeer peerID in
      match obs with
      | Err _ => refreshEach s rest
      | Ok obs =>
        let* fresh := observationFresh (rf_ownershipMaxAge s) obs in
        if negb fresh || negb (String.eqb (ob_Wallet obs) (in_OwnerWallet inst)) then refreshEach s rest else
        let*? _r := callStore (ReplaceAsks peerID asks (rf_ttl s)) in
        refreshEach s rest
      end
    end
  end.
Definition refreshOnce (s : Refresher) (order : list (string * list Ask) -> list (string * list Ask)) : W site unit :=
  let*? configs := callStore AllAskConfigs in
  match configs with
  | Err _ => wret tt
  | Ok configs => refreshEach s (order (map_to_list configs))
  end.
End Publishing.
