(* ===== verification/PricingSpec.v ===== *)
(** * What gets onto the market *)
From Stdlib Require Import ZArith Lia Strings.Ascii Strings.String.
From stdpp Require Import base gmap strings list fin_maps.
From S2P Require Import Prelude Base58 Billing Tx Schema BillingStore Projection Reachable Market Worker GoText Json AclTypes DirSchema Directory Jwt Http Mesh Pricing.

Open Scope Z_scope.

(** ** Reads of the directory *)
Lemma mbind_inv {D A B} (m : M D A) (k : A -> M D B) e c b c' : bind m k e c = (Ok b, c') ->
  exists a c1, m e c = (Ok a, c1) /\ k a e c1 = (Ok b, c').
Proof. unfold bind. destruct (m e c) as [[a|x] c1]; [by exists a, c1|done]. Qed.
Lemma moves_select {A} (f : dir -> A) : Moves (=) (pool_stmt (select f)).
Proof. apply moves_pool; [typeclasses eauto|]. by intros w a w' [= _ <-]. Qed.

Lemma loadInstance_read q : Moves (=) (loadInstance q).
Proof.
  unfold loadInstance, getInstance, enrichInstance, enrichInstances, ListInstanceRules, listMemberships,
    listInstanceServices, listServiceRulesByServiceIDs, sql_rules, found. cbv zeta.
  moves; by intros ? ? ? [= _ <-].
Qed.

(** The account and the wallet an instance is read with are its row's. *)
Lemma loadInstance_row q e c inst c' : loadInstance q e c = (Ok inst, c') ->
  exists kr, q (c_db c) = Some kr /\ in_AccountID inst = ir_account_id (snd kr) /\
    in_OwnerWallet inst = ir_owner_wallet (snd kr).
Proof.
  unfold loadInstance. intros Hl. apply mbind_inv in Hl as (i & c1 & Hi & Hl).
  apply mbind_inv in Hl as (j & c2 & Hj & Hl). apply mbind_inv in Hl as (rules & c3 & _ & Hl). injection Hl as <- _.
  unfold getInstance in Hi. apply mbind_inv in Hi as (kr & c4 & Hk & Hi). injection Hi as <- _.
  exists kr. unfold found, attempt, scan_row in Hk. split.
  - unfold bind in Hk. destruct (pool_stmt (select q) e c) as [r c5] eqn:Ep. unfold pool_stmt, select in Ep.
    destruct (q (c_db c)) as [kr'|]; destruct (e_fault e (c_step c)); simplify_eq; by inversion Hk.
  - unfold enrichInstance in Hj. apply mbind_inv in Hj as (l & c5 & Hl & Hj). injection Hj as <- _.
    unfold enrichInstances in Hl. rewrite bool_decide_eq_false_2 in Hl by done.
    apply mbind_inv in Hl as (ms & c6 & _ & Hl). apply mbind_inv in Hl as (svcs & c7 & _ & Hl). by injection Hl as <- _.
Qed.

Definition owned_row (peer account wallet : string) (d : dir) : Prop :=
  exists kr, by_peer peer d = Some kr /\ ir_account_id (snd kr) = account /\ ir_owner_wallet (snd kr) = wallet.

(** ** The asks of one peer *)
Definition asks_of (p : string) (d : db) : gmap (string * string * string) Ask :=
  filter (fun ka => fst (fst (fst ka)) = p) (asks d).
Definition same_asks (p : string) : relation db := fun d d' => asks_of p d = asks_of p d'.
#[export] Instance same_asks_preorder p : PreOrder (same_asks p).
Proof. split; [done|]. unfold same_asks. intros x y z. congruence. Qed.

Lemma delete_asks_elsewhere p peer w u w' : p <> peer -> sql_delete_asks peer w = Ok (u, w') -> same_asks p w w'.
Proof.
  intros Hne [= _ <-]. unfold same_asks, asks_of. simpl. rewrite map_filter_filter. apply map_filter_ext.
  intros k a _. simpl. split; [intros ->; by split|by intros [? _]].
Qed.
Lemma insert_ask_elsewhere p a w u w' : p <> ak_PeerID a -> sql_insert_ask a w = Ok (u, w') -> same_asks p w w'.
Proof.
  unfold sql_insert_ask. intros Hne. destruct (negb _); [done|]. destruct (asks w !! _); [done|]. intros [= _ <-].
  unfold same_asks, asks_of. simpl. by rewrite map_filter_insert_not.
Qed.
Lemma ReplaceAsks_elsewhere p peer l ttl : p <> peer -> Moves (same_asks p) (ReplaceAsks peer l ttl).
Proof.
  intros Hne.
  assert (Hins : forall rev ex t, Moves (same_asks p) (insertAsks peer rev ex t l)).
  { intros rev ex t. induction l as [|a l' IH]; simpl; [apply moves_ret|]. moves.
    intros w u w'. by apply insert_ask_elsewhere. }
  unfold ReplaceAsks. moves; eauto using delete_asks_elsewhere; try (intros ? ? ? [= _ <-]; done).
  unfold scan_int64. moves. by intros ? ? ? [= _ <-].
Qed.

Section Specs.
Context `{Ed25519} `{surroundings}.

(** ** The three ways onto the market *)
Inductive publisher :=
  | ByNode (s : PricingService) (r : request)
  | ByConsole (account peer : string) (l : list Ask)
  | ByRefresher (s : Refresher) (order : list (string * list Ask) -> list (string * list Ask)).
Definition quietly {A} (m : W site A) : W site unit := wattempt m (fun _ => wret tt).
Definition publish (p : publisher) : W site unit :=
  match p with
  | ByNode s r => quietly (Handler s r)
  | ByConsole account peer l => quietly (publishAskConfig true account peer l)
  | ByRefresher s order => quietly (refreshOnce s order)
  end.

(** Who asked for it: the holder of a pricing credential for the peer, the console of the
    account that owns the instance, or nobody, for prices that are already on file. *)
Definition on_behalf (pb : publisher) (peer account : string) : Prop :=
  match pb with
  | ByNode s r => exists raw t c, bearerToken (h_Header r "Authorization") = Some raw /\
      Verify (px_verifier s) t raw = Ok c /\ cl_Audience c = PricingAudience /\ cl_Subject c = peer
  | ByConsole a q _ => q = peer /\ a = account
  | ByRefresher _ _ => True
  end.

(** A registered instance that can be paid, live under its own wallet's signature at one
    of the calls from [k] to [k']. *)
Definition honoured (pb : publisher) (peer : string) (d : dir) (k k' : nat) : Prop :=
  exists account wallet j, owned_row peer account wallet d /\ BillableProvider account wallet = true /\
    on_behalf pb peer account /\ (k <= j < k')%nat /\ attested_at j peer wallet.

(** Nobody else touches the asks of [p] or the instances while the call runs. *)
Definition undisturbed (p : string) (o : outside) : Prop :=
  (forall k d, same_asks p d (o_others o k d)) /\
  (forall k d q, by_peer q (dir_others k d) = by_peer q d).

(** ** Steps that publish nothing *)
Definition frame (p : string) (w w' : world site) : Prop :=
  same_asks p (w_db w) (w_db w') /\ (forall q, by_peer q (st_dir (w_node w')) = by_peer q (st_dir (w_node w))) /\
  (st_calls (w_node w) <= st_calls (w_node w'))%nat.
#[local] Instance frame_preorder p : PreOrder (frame p).
Proof.
  split; [by intros w|]. intros w1 w2 w3 (H11 & H12 & H13) (H21 & H22 & H23).
  split; [by etrans|]. split; [intros q; by rewrite H22|lia].
Qed.

Lemma asks_site_frame {A} p (f : nat -> res A) o w r w' : asks_site f o w = (r, w') ->
  frame p w w' /\ st_calls (w_node w') = S (st_calls (w_node w)).
Proof. intros [= <- <-]. unfold frame. simpl. repeat split; lia. Qed.

Lemma read_frame {A} p (m : dstore A) o w r w' : undisturbed p o -> Moves (=) m -> callDir m o w = (Some r, w') -> frame p w w'.
Proof.
  intros [_ Hd] Hm. unfold callDir, callNode.
  pose proof (moves_run (=) m (dir_env (st_calls (w_node w))) (dir_others (st_calls (w_node w)) (st_dir (w_node w))) Hm) as Hr.
  destruct (run m _ _) as [r1 d]. simpl in Hr. intros [= _ <-]. subst d. unfold frame. simpl.
  split; [done|]. split; [intros q; apply Hd|lia].
Qed.

(** The instance that was read, with its wallet, is registered. *)
Lemma instance_frame p peer o w inst w' : undisturbed p o ->
  callDir (GetInstanceByPeerID peer) o w = (Some (Ok inst), w') ->
  frame p w w' /\ owned_row peer (in_AccountID inst) (in_OwnerWallet inst) (st_dir (w_node w')).
Proof.
  intros Hu Hc. assert (Hf : frame p w w') by (eapply read_frame; [done|apply loadInstance_read|exact Hc]).
  split; [done|]. unfold callDir, callNode, run in Hc.
  destruct (GetInstanceByPeerID peer _ _) as [r c1] eqn:Eg. injection Hc as -> <-.
  pose proof Eg as Hrow. apply loadInstance_row in Hrow as (kr & Hq & Ha & Hw). simpl in *.
  assert (Hdir : c_db c1 = dir_others (st_calls (w_node w)) (st_dir (w_node w))).
  { pose proof (moves_run (=) (GetInstanceByPeerID peer) (dir_env (st_calls (w_node w)))
      (dir_others (st_calls (w_node w)) (st_dir (w_node w))) (loadInstance_read _)) as Hr.
    unfold run in Hr. rewrite Eg in Hr. done. }
  exists kr. by rewrite Hdir.
Qed.

Lemma observePeers_frame p table ids : forall out o w r w', observePeers table ids out o w = (r, w') -> frame p w w'.
Proof.
  induction ids as [|id ids IH]; intros out o w r w'; simpl; [by intros [= _ <-]|].
  destruct (table !! id) as [peer|]; [|apply IH]. destruct (pr_Connected peer); [|apply IH]. simpl.
  unfold wbind at 1, wlift. destruct (verifiedWallet id peer) as [wallet|]; [|by intros [= _ <-]].
  unfold wbind, timeNow. destruct (asks_site _ o w) as [[[t|e]|] w1] eqn:Et; [|by injection Et|by injection Et].
  intros Ho. apply IH in Ho. etrans; [by apply (asks_site_frame p) in Et as [? _]|done].
Qed.
Lemma LookupPeer_frame p id o w r w' : LookupPeer id o w = (r, w') -> frame p w w' /\ (st_calls (w_node w) < st_calls (w_node w'))%nat.
Proof.
  unfold LookupPeer, LookupPeers, fetchTable. unfold wbind at 1 2.
  destruct (asks_site _ o w) as [[[table|e]|] w1] eqn:Et; apply (asks_site_frame p) in Et as [Hf Hk].
  - destruct (observePeers table [id] ∅ o w1) as [[[obs|e]|] w2] eqn:Eo; apply (observePeers_frame p) in Eo as Ho;
      [destruct (obs !! id)| |]; intros [= _ <-]; (split; [by etrans|destruct Ho as (_ & _ & Ho); lia]).
  - intros [= _ <-]. split; [done|lia].
  - intros [= _ <-]. split; [done|lia].
Qed.

(** ** Steps that may publish *)
Definition licensed (pb : publisher) (p : string) (w w' : world site) : Prop :=
  (forall q, by_peer q (st_dir (w_node w')) = by_peer q (st_dir (w_node w))) /\
  (st_calls (w_node w) <= st_calls (w_node w'))%nat /\
  (same_asks p (w_db w) (w_db w') \/
   honoured pb p (st_dir (w_node w)) (st_calls (w_node w)) (st_calls (w_node w'))).

Lemma frame_licensed pb p w w' : frame p w w' -> licensed pb p w w'.
Proof. intros (H1 & H2 & H3). split; [done|]. split; [done|]. by left. Qed.
Lemma licensed_trans pb p w1 w2 w3 : licensed pb p w1 w2 -> licensed pb p w2 w3 -> licensed pb p w1 w3.
Proof.
  intros (Hd1 & Hk1 & H1) (Hd2 & Hk2 & H2). split; [intros q; by rewrite Hd2|]. split; [lia|].
  destruct H1 as [H1|(a & x & j & H1 & Hb & Ho & Hj & Ha)].
  - destruct H2 as [H2|(a & x & j & (kr & Hr & Hkr) & Hb & Ho & Hj & Ha)]; [left; by etrans|right].
    exists a, x, j. split; [exists kr; by rewrite <- Hd1|]. split; [done|]. split; [done|]. split; [lia|done].
  - right. exists a, x, j. split; [done|]. split; [done|]. split; [done|]. split; [lia|done].
Qed.

(** A replacement of the asks of [peer] after its instance was read and its wallet seen:
    [j] is the exchange with the head, [w0] the world before it all. *)
Lemma store_licensed pb p peer l ttl o w r w' account wallet j (w0 : world site) : undisturbed p o ->
  frame p w0 w -> owned_row peer account wallet (st_dir (w_node w0)) -> BillableProvider account wallet = true ->
  on_behalf pb peer account -> (st_calls (w_node w0) <= j < st_calls (w_node w))%nat -> attested_at j peer wallet ->
  callStore (ReplaceAsks peer l ttl) o w = (r, w') -> licensed pb p w0 w'.
Proof.
  intros [Ho _] (Hf1 & Hf2 & Hf3) Hrow Hb Hon Hj Hatt. unfold callStore.
  destruct (run (ReplaceAsks peer l ttl) _ _) as [r1 d] eqn:Er. intros [= _ <-].
  split; [done|]. split; [done|]. simpl. destruct (decide (p = peer)) as [->|Hne].
  - right. by exists account, wallet, j.
  - left. etrans; [exact Hf1|]. etrans; [apply Ho|].
    pose proof (moves_run _ _ (o_env o (w_calls w)) (o_others o (w_calls w) (w_db w)) (ReplaceAsks_elsewhere p peer l ttl Hne)) as Hm.
    by rewrite Er in Hm.
Qed.

Lemma fresh_frame p age obs o w r w' : observationFresh age obs o w = (r, w') -> frame p w w'.
Proof.
  unfold observationFresh. destruct (age <=? 0); [by intros [= _ <-]|]. unfold wbind, timeNow.
  destruct (asks_site _ o w) as [[[t|e]|] w1] eqn:Et; apply (asks_site_frame p) in Et as [Hf _]; by intros [= _ <-].
Qed.

Lemma dir_total {A} (m : dstore A) o w r w' : callDir m o w = (r, w') -> exists r1, r = Some r1.
Proof. unfold callDir, callNode. destruct (run m _ _) as [r1 d]. intros [= <- _]. by exists r1. Qed.

(** The instance was read, then the wallet was seen. *)
Lemma seller_seen p peer o w inst w1 obs w2 : undisturbed p o ->
  callDir (GetInstanceByPeerID peer) o w = (Some (Ok inst), w1) -> LookupPeer peer o w1 = (Some (Ok obs), w2) ->
  ob_Wallet obs = in_OwnerWallet inst ->
  frame p w w2 /\ owned_row peer (in_AccountID inst) (in_OwnerWallet inst) (st_dir (w_node w)) /\
  (st_calls (w_node w) <= st_calls (w_node w1) < st_calls (w_node w2))%nat /\
  attested_at (st_calls (w_node w1)) peer (in_OwnerWallet inst).
Proof.
  intros Hu Hi Hl Hw. apply (instance_frame p) in Hi as [Hf1 (kr & Hr & Hkr)]; [|done].
  pose proof Hl as Ha. apply LookupPeer_run in Ha as (Ha & _ & _). rewrite Hw in Ha.
  apply (LookupPeer_frame p) in Hl as [Hf2 Hk]. pose proof Hf1 as (_ & Hd & Hk1).
  split; [by etrans|]. split; [exists kr; by rewrite <- Hd|]. split; [lia|done].
Qed.

Lemma authenticate_inv p s r o w x w1 : authenticate s r o w = (x, w1) -> frame p w w1 /\
  forall c, x = Some (Ok (Some c)) -> exists raw t, bearerToken (h_Header r "Authorization") = Some raw /\
    Verify (px_verifier s) t raw = Ok c /\ cl_Audience c = PricingAudience.
Proof.
  unfold authenticate. destruct (bearerToken _) as [raw|]; [|by intros [= <- <-]].
  unfold wbind, timeNow, asks_site, callNode, wret. intros [= <- <-].
  split; [unfold frame; simpl; repeat split; lia|]. intros c [= Hc]. exists raw, (site_now (st_calls (w_node w))).
  destruct (Verify _ _ _) as [c'|]; [|done]. destruct (String.eqb_spec (cl_Audience c') PricingAudience); [|done].
  by injection Hc as ->.
Qed.

Lemma resolveSeller_inv p s peer o w x w1 : undisturbed p o -> resolveSeller s peer o w = (x, w1) -> frame p w w1 /\
  forall obs, x = Some (Ok (inl obs)) -> exists account wallet j, owned_row peer account wallet (st_dir (w_node w)) /\
    BillableProvider account wallet = true /\ (st_calls (w_node w) <= j < st_calls (w_node w1))%nat /\ attested_at j peer wallet.
Proof.
  intros Hu. unfold resolveSeller. unfold wattempt at 1.
  destruct (callDir _ o w) as [r1 wa] eqn:Ei. pose proof (dir_total _ _ _ _ _ Ei) as [[inst|e] ->].
  2: { intros [= <- <-]. split; [eapply read_frame; [done|apply loadInstance_read|exact Ei]|done]. }
  pose proof (instance_frame p peer o w inst wa Hu Ei) as [Hfa _].
  destruct (BillableProvider _ _) eqn:Hb; [|by intros [= <- <-]]. cbn [negb]. unfold wattempt.
  destruct (LookupPeer peer o wa) as [[[obs|e]|] wb] eqn:El.
  all: pose proof El as Hfb; apply (LookupPeer_frame p) in Hfb as [Hfb _].
  2, 3: by intros [= <- <-]; (split; [by etrans|]).
  unfold wbind.
  destruct (observationFresh _ obs o wb) as [[[fresh|e]|] wc] eqn:Ef; pose proof Ef as Hfc; apply (fresh_frame p) in Hfc.
  2, 3: by intros [= <- <-]; (split; [do 2 (etrans; [done|])|]).
  destruct fresh; cbn [negb orb]; [|intros [= <- <-]; split; [by do 2 (etrans; [done|])|done]].
  destruct (String.eqb_spec (ob_Wallet obs) (in_OwnerWallet inst)) as [Hw|]; intros [= <- <-];
    (split; [by do 2 (etrans; [done|])|]); [|done].
  intros obs' _. destruct (seller_seen p peer o w inst wa obs wb Hu Ei El Hw) as (_ & Hr & Hj & Ha).
  exists (in_AccountID inst), (in_OwnerWallet inst), (st_calls (w_node wa)).
  destruct Hfc as (_ & _ & Hk). repeat (split; [done || lia|]). done.
Qed.

Lemma frame_refl p w : frame p w w.
Proof. reflexivity. Qed.
Hint Resolve frame_licensed frame_refl : core.

Lemma handler_licensed p s r o w x w' : undisturbed p o -> Handler s r o w = (x, w') -> licensed (ByNode s r) p w w'.
Proof.
  intros Hu. unfold Handler. destruct (negb _); [intros [= _ <-]; eauto|]. unfold wbind at 1.
  destruct (authenticate s r o w) as [[[cl|e]|] w1] eqn:Ea; apply (authenticate_inv p) in Ea as [Hf1 Hau];
    [|intros [= _ <-]; eauto..].
  destruct cl as [c|]; [|intros [= _ <-]; eauto]. destruct (Hau c eq_refl) as (raw & t & Hb & Hv & Hc).
  destruct (DecodeStrict _ _ _ r) as [asks|]; [|intros [= _ <-]; eauto]. unfold wbind at 1.
  destruct (resolveSeller s (cl_Subject c) o w1) as [[[sel|e]|] w2] eqn:Es;
    apply (resolveSeller_inv p) in Es as [Hf2 Hsel]; [|done|intros [= _ <-]; apply frame_licensed; by etrans|done|
      intros [= _ <-]; apply frame_licensed; by etrans|done].
  destruct sel as [obs|status]; [|intros [= _ <-]; apply frame_licensed; by etrans].
  destruct (Hsel obs eq_refl) as (a & wl & j & (kr & Hr & Hkr) & Hbill & Hj & Hatt).
  destruct (ValidateAsksAgainstAdvertisement asks _); [|intros [= _ <-]; apply frame_licensed; by etrans].
  unfold wattempt. destruct (callStore _ o w2) as [[r3|] w3] eqn:Ec.
  - apply (store_licensed (ByNode s r) p (cl_Subject c) asks askTTL o w2 _ w3 a wl j w) in Ec; try done.
    + destruct r3 as [rev|e]; [|unfold classifyStoreErr; destruct (errors_is e _); by intros [= _ <-]].
      unfold wbind, timeNow. destruct (asks_site _ o w3) as [[[t3|e]|] w4] eqn:Et;
        apply (asks_site_frame p) in Et as [Hf4 _]; intros [= _ <-]; (eapply licensed_trans; [exact Ec|eauto]).
    + by etrans.
    + exists kr. destruct Hf1 as (_ & Hd & _). by rewrite <- Hd.
    + by exists raw, t, c.
    + destruct Hf1 as (_ & _ & Hk). lia.
  - unfold callStore in Ec. by destruct (run _ _ _).
Qed.

Lemma console_licensed p mesh account peer l o w x w' : undisturbed p o -> publishAskConfig mesh account peer l o w = (x, w') ->
  licensed (ByConsole account peer l) p w w'.
Proof.
  intros Hu. unfold publishAskConfig. unfold wattempt at 1.
  destruct (callDir _ o w) as [r1 wa] eqn:Ei. pose proof (dir_total _ _ _ _ _ Ei) as [[inst|e] ->].
  2: { intros [= _ <-]. apply frame_licensed. eapply read_frame; [done|apply loadInstance_read|exact Ei]. }
  pose proof (instance_frame p peer o w inst wa Hu Ei) as [Hfa _].
  destruct (String.eqb_spec (in_AccountID inst) account) as [Hacc|]; [|intros [= _ <-]; eauto]. cbn [negb].
  destruct (BillableProvider _ _) eqn:Hb; [|intros [= _ <-]; eauto]. cbn [negb].
  destruct mesh; [|intros [= _ <-]; eauto]. cbn [negb]. unfold wattempt.
  destruct (LookupPeer peer o wa) as [[[obs|e]|] wb] eqn:El; pose proof El as Hfb; apply (LookupPeer_frame p) in Hfb as [Hfb _];
    [|intros [= _ <-]; apply frame_licensed; by etrans..].
  destruct (String.eqb_spec (ob_Wallet obs) (in_OwnerWallet inst)) as [Hw|]; [|intros [= _ <-]; apply frame_licensed; by etrans].
  cbn [negb]. unfold wbind, wlift. destruct (ValidateAsksAgainstAdvertisement l _); [|intros [= _ <-]; apply frame_licensed; by etrans].
  destruct (seller_seen p peer o w inst wa obs wb Hu Ei El Hw) as (Hf & Hr & Hj & Hatt).
  destruct (callStore _ o wb) as [[[rev|e]|] wc] eqn:Ec;
    (eapply (store_licensed (ByConsole account peer l)) in Ec; [|done|exact Hf|exact Hr|exact Hb|done|exact Hj|exact Hatt]);
    by intros [= _ <-].
Qed.

Lemma refreshEach_licensed p s order l o : undisturbed p o -> forall w x w', refreshEach s l o w = (x, w') ->
  licensed (ByRefresher s order) p w w'.
Proof.
  intros Hu. induction l as [|[peer asks] l IH]; intros w x w'; cbn [refreshEach]; [intros [= _ <-]; eauto|].
  destruct (bool_decide _); [apply IH|]. unfold wattempt at 1.
  destruct (callDir _ o w) as [r1 wa] eqn:Ei. pose proof (dir_total _ _ _ _ _ Ei) as [[inst|e] ->].
  2: { intros Hx. eapply licensed_trans; [|by eapply IH]. apply frame_licensed.
       eapply read_frame; [done|apply loadInstance_read|exact Ei]. }
  pose proof (instance_frame p peer o w inst wa Hu Ei) as [Hfa _].
  destruct (BillableProvider _ _) eqn:Hb; cbn [negb]; [|intros Hx; eapply licensed_trans; [by apply frame_licensed|by eapply IH]].
  unfold wattempt at 1.
  destruct (LookupPeer peer o wa) as [[[obs|e]|] wb] eqn:El; pose proof El as Hfb; apply (LookupPeer_frame p) in Hfb as [Hfb _].
  2: { intros Hx. eapply licensed_trans; [apply frame_licensed; by etrans|by eapply IH]. }
  2: { intros [= _ <-]. apply frame_licensed. by etrans. }
  unfold wbind. destruct (observationFresh _ obs o wb) as [[[fresh|e]|] wc] eqn:Ef; pose proof Ef as Hfc; apply (fresh_frame p) in Hfc.
  2, 3: intros [= _ <-]; apply frame_licensed; etrans; [exact Hfa|by etrans].
  destruct fresh; cbn [negb orb]; [|intros Hx; eapply licensed_trans; [|by eapply IH]; apply frame_licensed; etrans; [exact Hfa|by etrans]].
  destruct (String.eqb_spec (ob_Wallet obs) (in_OwnerWallet inst)) as [Hw|]; cbn [negb];
    [|intros Hx; eapply licensed_trans; [|by eapply IH]; apply frame_licensed; etrans; [exact Hfa|by etrans]].
  destruct (seller_seen p peer o w inst wa obs wb Hu Ei El Hw) as (Hf & Hr & Hj & Hatt).
  assert (Hf2 : frame p w wc) by by etrans. pose proof Hfc as (_ & _ & Hk). unfold wattempt.
  destruct (callStore _ o wc) as [[r3|] wd] eqn:Ec;
    (eapply (store_licensed (ByRefresher s order)) in Ec; [|done|exact Hf2|exact Hr|exact Hb|done|split; [apply Hj|]|exact Hatt];
     [|destruct Hj; lia]).
  - intros Hx. eapply licensed_trans; [exact Ec|by eapply IH].
  - by intros [= _ <-].
Qed.

Lemma AllAskConfigs_read : Moves (=) AllAskConfigs.
Proof. unfold AllAskConfigs. moves. by intros ? ? ? [= _ <-]. Qed.
Lemma store_read_frame {A} p (m : store A) o w x w' : undisturbed p o -> Moves (=) m -> callStore m o w = (x, w') -> frame p w w'.
Proof.
  intros [Ho _] Hm. unfold callStore.
  pose proof (moves_run (=) m (o_env o (w_calls w)) (o_others o (w_calls w) (w_db w)) Hm) as Hr.
  destruct (run m _ _) as [r1 d]. simpl in Hr. intros [= _ <-]. subst d. unfold frame. simpl. split; [apply Ho|]. split; [done|lia].
Qed.

Lemma publish_licensed pb p o w x w' : undisturbed p o -> publish pb o w = (x, w') -> licensed pb p w w'.
Proof.
  intros Hu. destruct pb as [s r|account peer l|s order]; cbn [publish]; unfold quietly, wattempt at 1.
  - destruct (Handler s r o w) as [[r1|] w1] eqn:E; apply (handler_licensed p) in E; try done; by intros [= _ <-].
  - destruct (publishAskConfig true account peer l o w) as [[r1|] w1] eqn:E; apply (console_licensed p) in E; try done; by intros [= _ <-].
  - unfold refreshOnce, wattempt. destruct (callStore AllAskConfigs o w) as [[r1|] w1] eqn:E;
      apply (store_read_frame p) in E; try done; [|apply AllAskConfigs_read|intros [= _ <-]; eauto|apply AllAskConfigs_read].
    destruct r1 as [configs|e]; [|intros [= _ <-]; eauto].
    destruct (refreshEach s _ o w1) as [[r2|] w2] eqn:E2; apply (refreshEach_licensed p s order) in E2; try done;
      intros [= _ <-]; (eapply licensed_trans; [by apply frame_licensed|done]).
Qed.

(** C16: nothing is priced for a seller that was not seen: whichever way asks come (the
    seller's own credential, the console, the refresher) and whatever fails on the way,
    if the asks of a peer change then the peer has a registered instance that can be
    paid, and during the call the head listed it as live under an identity signed by the
    key of the instance's own wallet; the seller's own way needs a pricing credential for
    that very peer, the console's the account that owns the instance. *)
Theorem publication_verified pb p o w x w' : undisturbed p o -> publish pb o w = (x, w') ->
  asks_of p (w_db w') <> asks_of p (w_db w) ->
  honoured pb p (st_dir (w_node w)) (st_calls (w_node w)) (st_calls (w_node w')).
Proof.
  intros Hu Hp Hne. destruct (publish_licensed pb p o w x w' Hu Hp) as (_ & _ & [Hs|Hh]); [|done]. by destruct Hne.
Qed.
End Specs.

(** ** A publication *)
#[local] Existing Instance Demo.scheme.
#[local] Existing Instance Demo.around.
Definition demo_ask : Ask := mkAsk "" "llm" "m" 10 5 20 0 zeroTime zeroTime.
Definition demo_published : option (res unit) * world site :=
  publish (ByConsole "seller" "peerA" [demo_ask]) Demo.outside0 (Demo.world0 Demo.directory).
Definition demo_key : string * string * string := ("peerA", "llm", "m")%string.

Lemma demo_undisturbed p : undisturbed p Demo.outside0.
Proof. by split. Qed.
Lemma demo_changed : asks_of "peerA" (w_db (snd demo_published)) <> asks_of "peerA" (w_db (Demo.world0 Demo.directory)).
Proof. intros E. apply (f_equal (lookup demo_key)) in E. vm_compute in E. discriminate. Qed.
Lemma publication_verified_witness :
  asks_of "peerA" (w_db (snd demo_published)) <> asks_of "peerA" (w_db (Demo.world0 Demo.directory)) /\
  honoured (ByConsole "seller" "peerA" [demo_ask]) "peerA" Demo.directory 0 (st_calls (w_node (snd demo_published))).
Proof.
  split; [exact demo_changed|].
  exact (publication_verified (ByConsole "seller" "peerA" [demo_ask]) "peerA" Demo.outside0 (Demo.world0 Demo.directory)
    (fst demo_published) (snd demo_published) (demo_undisturbed "peerA") (surjective_pairing _) demo_changed).
Defined.
