(* ===== verification/Pages.v ===== *)
(** * Keyset pagination

    A list is shown newest first, a page at a time; a page that is full ends with the key
    of its last row, and the next one starts strictly after that key.  What any store
    method that pages like this promises is proved once, for an interface that names the
    key and its order: a client that follows the keys sees every row, once, in order. *)
From Stdlib Require Import ZArith Lia.
From stdpp Require Import base list sorting sets.
From S2P Require Import Prelude.

(** A row's key, and the strict total order of keys. *)
Class Keyset (E C : Type) := {
  key : E -> C;
  older : C -> C -> bool;
  older_irrefl x : older x x = false;
  older_trans x y z : older x y = true -> older y z = true -> older x z = true;
  older_total x y : older x y = true \/ x = y \/ older y x = true }.

Section Pages.
Context {E C : Type} `{Keyset E C}.

Definition newest_first (x y : E) : Prop := older (key x) (key y) = false.
#[export] Instance newest_first_dec : RelDecision newest_first.
Proof. intros x y. unfold newest_first. apply _. Defined.

Definition after (c : option C) (x : E) : bool := match c with None => true | Some c => older (key x) c end.
Definition page_rows (n : nat) (c : option C) (l : list E) : list E :=
  take n (merge_sort newest_first (filter (fun x => after c x = true) l)).
Definition next_key (n : nat) (p : list E) : option C :=
  if bool_decide (length p = n) then key <$> last p else None.

(** A client that asks until no key is given. *)
Fixpoint walk (fuel n : nat) (c : option C) (l : list E) : option (list E) :=
  match fuel with
  | O => None
  | S k =>
    let p := page_rows n c l in
    match next_key n p with
    | None => Some p
    | Some c' => app p <$> walk k n (Some c') l
    end
  end.

#[export] Instance newest_first_trans : Transitive newest_first.
Proof.
  unfold newest_first. intros x y z Hxy Hyz. destruct (older (key x) (key z)) eqn:Hxz; [|done].
  destruct (older_total (key y) (key z)) as [Hc|[Hc|Hc]]; [congruence|rewrite Hc in *; congruence|].
  by rewrite (older_trans _ _ _ Hxz Hc) in Hxy.
Qed.
#[export] Instance newest_first_total : Total newest_first.
Proof.
  intros x y. unfold newest_first. destruct (older (key x) (key y)) eqn:Hxy; [|by left]. right.
  destruct (older (key y) (key x)) eqn:Hyx; [|done]. by rewrite <- (older_irrefl (key x)), (older_trans _ _ _ Hxy Hyx).
Qed.

(** No two rows have one key. *)
Definition keyed (l : list E) : Prop := NoDup (key <$> l).
Lemma keyed_inj l x y : keyed l -> x ∈ l -> y ∈ l -> key x = key y -> x = y.
Proof.
  intros Hl [i Hi]%list_elem_of_lookup [j Hj]%list_elem_of_lookup Hk.
  assert (i = j) as ->; [|congruence].
  eapply NoDup_lookup; [exact Hl|rewrite list_lookup_fmap, Hi; reflexivity|rewrite list_lookup_fmap, Hj; simpl; by rewrite Hk].
Qed.
Lemma keyed_filter (P : E -> Prop) `{!forall x, Decision (P x)} l : keyed l -> keyed (filter P l).
Proof. unfold keyed. intros Hl. eapply sublist_NoDup; [exact Hl|]. apply fmap_sublist. apply sublist_filter. Qed.

Lemma sorted_unique l1 l2 : keyed l1 ->
  StronglySorted newest_first l1 -> StronglySorted newest_first l2 -> l1 ≡ₚ l2 -> l1 = l2.
Proof.
  intros Hk H1 H2 Hp. refine (StronglySorted_unique_strong _ l1 l2 _ H1 H2 Hp). unfold newest_first.
  intros x y Hx Hy Hxy Hyx. apply (keyed_inj l1); [done..|by rewrite Hp|].
  destruct (older_total (key x) (key y)) as [?|[?|?]]; congruence.
Qed.
Lemma sort_sorted l : StronglySorted newest_first (merge_sort newest_first l).
Proof. apply StronglySorted_merge_sort; typeclasses eauto. Qed.
Lemma filter_sorted (P : E -> Prop) `{!forall x, Decision (P x)} l :
  StronglySorted newest_first l -> StronglySorted newest_first (filter P l).
Proof.
  induction 1 as [|x l Hl IH Hx]; [constructor|]. rewrite filter_cons. case_decide; [|done]. constructor; [done|].
  rewrite Forall_forall in *. intros y [_ Hy]%list_elem_of_filter. auto.
Qed.
(** Sorting and leaving out commute. *)
Lemma sort_filter (P : E -> Prop) `{!forall x, Decision (P x)} l : keyed l ->
  merge_sort newest_first (filter P l) = filter P (merge_sort newest_first l).
Proof.
  intros Hk. apply sorted_unique.
  - unfold keyed. rewrite merge_sort_Permutation. by apply keyed_filter.
  - apply sort_sorted.
  - apply filter_sorted, sort_sorted.
  - by rewrite !merge_sort_Permutation.
Qed.

(** What is after the last row of a sorted list's start is its rest. *)
Lemma after_last (p rest : list E) x : keyed (p ++ x :: rest) -> StronglySorted newest_first (p ++ x :: rest) ->
  filter (fun y => after (Some (key x)) y = true) (p ++ x :: rest) = rest.
Proof.
  intros Hk Hs. rewrite filter_app, filter_cons_False by (cbn; by rewrite older_irrefl).
  rewrite filter_none.
  - cbn. apply filter_every. apply StronglySorted_app_1_r, StronglySorted_inv in Hs as [_ Hx].
    unfold keyed in Hk. rewrite fmap_app, fmap_cons in Hk. apply NoDup_app in Hk as (_ & _ & Hk). apply NoDup_cons in Hk as [Hn _].
    rewrite Forall_forall in *. intros y Hy. specialize (Hx y Hy). unfold newest_first in Hx.
    destruct (older_total (key x) (key y)) as [?|[Hxy|?]]; [congruence| |done].
    destruct Hn. rewrite Hxy. by apply list_elem_of_fmap_2.
  - apply Forall_forall. intros y Hy. cbn. rewrite (StronglySorted_app_1_elem_of _ _ _ y x Hs Hy); [by intros|by left].
Qed.

Lemma after_after c c' x : older c' c = true -> after (Some c') x = true -> after (Some c) x = true.
Proof. cbn. eauto using older_trans. Qed.

Lemma walk_from fuel n c l : (0 < n)%nat -> keyed l ->
  let s := filter (fun x => after c x = true) (merge_sort newest_first l) in
  (length s < fuel)%nat -> walk fuel n c l = Some s.
Proof.
  intros Hn Hk. revert c. induction fuel as [|fuel IH]; intros c s Hf; [lia|]. cbn [walk].
  unfold page_rows. rewrite sort_filter by done. fold s. unfold next_key. case_bool_decide as Hl.
  2: { rewrite take_ge; [done|]. rewrite length_take in Hl. lia. }
  assert (Hs : StronglySorted newest_first s) by apply filter_sorted, sort_sorted.
  assert (Hsk : keyed s) by (unfold s; apply keyed_filter; unfold keyed; by rewrite merge_sort_Permutation).
  destruct (last (take n s)) as [x|] eqn:Hx; cbn.
  2: { apply last_None in Hx. rewrite Hx in Hl. cbn in Hl. lia. }
  apply last_Some in Hx as [p Hx].
  assert (Hsplit : s = p ++ x :: drop n s) by (rewrite <- (take_drop n s) at 1; rewrite Hx, <- app_assoc; done).
  assert (Hrest : filter (fun y => after (Some (key x)) y = true) (merge_sort newest_first l) = drop n s).
  { rewrite Hsplit in Hs, Hsk. rewrite <- (after_last p (drop n s) x Hsk Hs), <- Hsplit. unfold s. rewrite list_filter_filter.
    apply list_filter_iff. intros y. split; [|by intros [? _]]. intros Hy. split; [done|].
    assert (Hxs : x ∈ s) by (rewrite Hsplit; set_solver). apply list_elem_of_filter in Hxs as [Hxc _].
    destruct c as [c|]; [|done]. by eapply after_after. }
  rewrite IH; rewrite Hrest; cbn; [by rewrite take_drop|]. rewrite length_take in Hl. rewrite length_drop. fold s in Hf. lia.
Qed.

(** Following the keys from the start shows every row, once, in order. *)
Lemma walk_all fuel n l : (0 < n)%nat -> keyed l -> (length l < fuel)%nat ->
  walk fuel n None l = Some (merge_sort newest_first l).
Proof.
  intros Hn Hk Hf. rewrite walk_from; [|done..|].
  - cbn. f_equal. apply filter_every. by apply Forall_forall.
  - cbn. rewrite filter_every by (by apply Forall_forall). by rewrite merge_sort_Permutation.
Qed.
End Pages.
