(* ===== verification/BillingApi.v ===== *)
(** * internal/billingapi: the account's billing endpoints

    One definition per handler, over the billing store, the directory and the head.  A
    reply's value is the response struct: null is [None], and how a struct is written as
    JSON (a field left out when it is empty, a raw amount as a string) is not modelled.
    The middleware has put the caller's identity into the request. *)
From Stdlib Require Import ZArith Lia Strings.Ascii Strings.String.
From stdpp Require Import base gmap strings list fin_maps sorting.
From S2P Require Import Prelude Sha256 Base58 Billing Tx Schema BillingStore WithdrawalStore DepositStore AllowanceStore Market Recon Worker GoText Json Base64 AclTypes Solana DirSchema Directory Regions Delegations Peers MarketGate Jwt Http Mesh Pricing.

Open Scope Z_scope.
Local Open Scope worker_scope.
Local Open Scope go_scope.

Record BillingService := mkBillingService {
  bs_mode : BillingMode; bs_treasuryATA : string; bs_treasuryWallet : string; bs_mint : string;
  bs_tokenProgram : string; bs_decimals : Z; bs_withdrawalsEnabled : bool; bs_mesh : bool;
  bs_ledgerLimit : Z; bs_depositLimit : Z; bs_reconciler : option poller }.
(** The treasury wallet it is given is not kept. *)
Definition NewBilling (mode : BillingMode) (treasuryATA treasuryWallet mint tokenProgram : string) (decimals : Z)
    (withdrawalsEnabled mesh : bool) : BillingService :=
  mkBillingService mode treasuryATA "" mint tokenProgram decimals withdrawalsEnabled mesh 50 50 None.
Definition SetReconciler (rec : poller) (s : BillingService) : BillingService :=
  mkBillingService (bs_mode s) (bs_treasuryATA s) (bs_treasuryWallet s) (bs_mint s) (bs_tokenProgram s) (bs_decimals s)
    (bs_withdrawalsEnabled s) (bs_mesh s) (bs_ledgerLimit s) (bs_depositLimit s) (Some rec).
Definition off (s : BillingService) : bool := match bs_mode s with BillingOff => true | _ => false end.

(** ** Who asks *)
Definition accountID (r : request) : option string :=
  match principal_UserID r with Some id => Some id | None => keyOwner r end.
Definition requireAccount {A} (r : request) (k : string -> W site (reply A)) : W site (reply A) :=
  match accountID r with Some id => k id | None => wret (http_error 401 "billing account required") end.

Definition service_unavailable {A} : W site (reply A) := wret (http_error 503 "service unavailable").
(** A store call whose failure is a 503. *)
Definition or_unavailable {A B} (m : W site A) (k : A -> W site (reply B)) : W site (reply B) :=
  let*? r := m in match r with Ok a => k a | Err _ => service_unavailable end.

(** ** Decoders *)
(** [rawInt64]: a decimal string or an integer; null is an error. *)
Definition dec_rawInt64 : decoder Z := fun _ j =>
  match j with JStr s => ParseInt s | JInt z => if bool_decide (in_i64 z) then Ok z else Err mismatch | _ => Err mismatch end.
(** [nullableInt]: an integer or null. *)
Definition dec_nullableInt : decoder (option Z) := fun _ j =>
  match j with JNull => Ok None | JInt z => if bool_decide (in_i64 z) then Ok (Some z) else Err mismatch | _ => Err mismatch end.

Definition dec_preferences : decoder Caps := strict_struct [
  fld "max_input_per_million" InputPerMillion (fun v c => mkCaps v (CachedInputPerMillion c) (OutputPerMillion c)) (dec_ptr 0 dec_int64);
  fld "max_cached_input_per_million" CachedInputPerMillion (fun v c => mkCaps (InputPerMillion c) v (OutputPerMillion c)) (dec_ptr 0 dec_int64);
  fld "max_output_per_million" OutputPerMillion (fun v c => mkCaps (InputPerMillion c) (CachedInputPerMillion c) v) (dec_ptr 0 dec_int64) ]%string.
Definition zeroModelCaps : ModelCaps := mkModelCaps "" "" None None None.
Definition dec_modelCaps : decoder ModelCaps := strict_struct [
  fld "service" mc_Service (fun v m => mkModelCaps v (mc_Model m) (mc_InputPerMillion m) (mc_CachedInputPerMillion m) (mc_OutputPerMillion m)) dec_string;
  fld "model" mc_Model (fun v m => mkModelCaps (mc_Service m) v (mc_InputPerMillion m) (mc_CachedInputPerMillion m) (mc_OutputPerMillion m)) dec_string;
  fld "input_per_million" mc_InputPerMillion (fun v m => mkModelCaps (mc_Service m) (mc_Model m) v (mc_CachedInputPerMillion m) (mc_OutputPerMillion m)) dec_nullableInt;
  fld "cached_input_per_million" mc_CachedInputPerMillion (fun v m => mkModelCaps (mc_Service m) (mc_Model m) (mc_InputPerMillion m) v (mc_OutputPerMillion m)) dec_nullableInt;
  fld "output_per_million" mc_OutputPerMillion (fun v m => mkModelCaps (mc_Service m) (mc_Model m) (mc_InputPerMillion m) (mc_CachedInputPerMillion m) v) dec_nullableInt ]%string.
Definition dec_sheet : decoder (list ModelCaps) := strict_struct [ ("models"%string, dec_slice zeroModelCaps dec_modelCaps) ].
Definition dec_configAsk : decoder Ask := strict_struct [
  fld "service" ak_Service (fun v a => mkAsk "" v (ak_Model a) (ak_InputPerMillion a) (ak_CachedInputPerMillion a) (ak_OutputPerMillion a) 0 zeroTime zeroTime) dec_string;
  fld "model" ak_Model (fun v a => mkAsk "" (ak_Service a) v (ak_InputPerMillion a) (ak_CachedInputPerMillion a) (ak_OutputPerMillion a) 0 zeroTime zeroTime) dec_string;
  fld "input_per_million" ak_InputPerMillion (fun v a => mkAsk "" (ak_Service a) (ak_Model a) v (ak_CachedInputPerMillion a) (ak_OutputPerMillion a) 0 zeroTime zeroTime) dec_int64;
  fld "cached_input_per_million" ak_CachedInputPerMillion (fun v a => mkAsk "" (ak_Service a) (ak_Model a) (ak_InputPerMillion a) v (ak_OutputPerMillion a) 0 zeroTime zeroTime) dec_int64;
  fld "output_per_million" ak_OutputPerMillion (fun v a => mkAsk "" (ak_Service a) (ak_Model a) (ak_InputPerMillion a) (ak_CachedInputPerMillion a) v 0 zeroTime zeroTime) dec_int64 ]%string.
Definition dec_askConfig : decoder (list Ask) := strict_struct [ ("asks"%string, dec_slice zeroAsk dec_configAsk) ].
Record withdrawalCreateRequest := mkCreate { wn_DestinationWallet : string; wn_AmountRaw : Z; wn_IdempotencyKey : string }.
Definition dec_create : decoder withdrawalCreateRequest := strict_struct [
  fld "destination_wallet" wn_DestinationWallet (fun v q => mkCreate v (wn_AmountRaw q) (wn_IdempotencyKey q)) dec_string;
  fld "amount_raw" wn_AmountRaw (fun v q => mkCreate (wn_DestinationWallet q) v (wn_IdempotencyKey q)) dec_rawInt64;
  fld "idempotency_key" wn_IdempotencyKey (fun v q => mkCreate (wn_DestinationWallet q) (wn_AmountRaw q) v) dec_string ]%string.

(** ** Limits and cursors *)
Definition maxBodyBytes : Z := 4096.
Definition limit_of (raw : string) (def : Z) : Z :=
  if String.eqb raw "" then def else
  match ParseInt raw with
  | Err _ => def
  | Ok n => if n <=? 0 then def else if n >? 200 then 200 else n
  end.

(** Eight bytes, big-endian, of an int64; and back by shifts. *)
Definition be8 (z : Z) : bytes := putBE 8 z.
Definition shift_in (acc : Z) (b : Byte.byte) : Z := i64 (Z.lor (Z.shiftl acc 8) (Zbyte b)).
Definition un_be8 (l : bytes) : Z := fold_left shift_in l 0.
Definition UnixNano (t : time) : Z := i64 t.

Definition encode16 (t : time) (id : Z) : string := RawURL_EncodeToString (be8 (UnixNano t) ++ be8 id).
Definition decode16 {C} (mk : time -> Z -> C) (what raw : string) : res (option C) :=
  if String.eqb raw "" then Ok None else
  match RawURL_DecodeString raw with
  | Ok buf => if bool_decide (length buf = 16%nat)
              then Ok (Some (mk (un_be8 (take 8 buf)) (un_be8 (drop 8 buf)))) else Err (Errorf what)
  | Err _ => Err (Errorf what)
  end.
Definition encodeLedgerCursor (c : LedgerCursor) : string := encode16 (lc_CreatedAt c) (lc_ID c).
Definition decodeLedgerCursor : string -> res (option LedgerCursor) := decode16 mkLedgerCursor "malformed ledger cursor".
Definition encodeWithdrawalCursor (c : WithdrawalCursor) : string := encode16 (wc_ReservedAt c) (wc_ID c).
Definition decodeWithdrawalCursor : string -> res (option WithdrawalCursor) := decode16 mkWithdrawalCursor "malformed withdrawal cursor".

Definition encodeDepositCursor (c : DepositListCursor) : string :=
  RawURL_EncodeToString (bytes_of_string (dc_TransactionSignature c) ++ [Byte.x00] ++ be8 (UnixNano (dc_SeenAt c)) ++
    putBE 4 (u32 (dc_InstructionIndex c))).
Fixpoint nul_index (l : bytes) : option nat :=
  match l with
  | [] => None
  | b :: r => if Byte.eqb b Byte.x00 then Some 0%nat else match nul_index r with Some i => Some (S i) | None => None end
  end.
Definition decodeDepositCursor (raw : string) : res (option DepositListCursor) :=
  let bad := Err (Errorf "malformed deposit cursor") in
  if String.eqb raw "" then Ok None else
  match RawURL_DecodeString raw with
  | Err _ => bad
  | Ok buf =>
    if (length buf <? 13)%nat then bad else
    match nul_index buf with
    | None => bad
    | Some sep =>
      if (length buf <? sep + 1 + 12)%nat then bad
      else Ok (Some (mkDepositListCursor (un_be8 (take 8 (drop (sep + 1) buf)))
                (String.string_of_list_byte (take sep buf)) (getBE (take 4 (drop (sep + 9) buf)))))
    end
  end.

(** ** Answers *)
Record balanceJSON := mkBalance { bj_CreditRaw : Z; bj_ReservedRaw : Z; bj_AvailableRaw : Z; bj_UpdatedAt : time }.
Record depositInstr := mkDepositInstr {
  di_Enabled : bool; di_TreasuryATA : string; di_TreasuryWallet : string; di_Mint : string; di_TokenProgram : string;
  di_Decimals : Z }.
Record stateResponse := mkStateResponse {
  se_Mode : BillingMode; se_Balance : balanceJSON; se_Caps : Caps; se_Deposits : depositInstr; se_WithdrawalsEnabled : bool;
  se_PrimaryLinkedWallet : option string; se_Allowances : list Allowance }.
Record page (E : Type) := mkPage { pg_Entries : list E; pg_Next : string }.
Arguments mkPage {E} _ _.
Arguments pg_Entries {E} _.
Arguments pg_Next {E} _.
(** What a withdrawal shows: not its signed wire. *)
Record withdrawalJSON := mkWithdrawalJSON {
  wj_ID : Z; wj_DestinationWallet : string; wj_AmountRaw : Z; wj_State : WithdrawalState; wj_Signature : string;
  wj_Error : string; wj_ReservedAt : time; wj_BlockhashExpiresAt : option time; wj_SignedAt : option time;
  wj_BroadcastAt : option time; wj_FinalizedAt : option time }.
Definition withdrawalToJSON (w : Withdrawal) : withdrawalJSON :=
  mkWithdrawalJSON (wd_ID w) (wd_DestinationWallet w) (wd_AmountRaw w) (wd_State w) (wd_Signature w) (wd_Error w)
    (wd_ReservedAt w) (wd_BlockhashExpiresAt w) (wd_SignedAt w) (wd_BroadcastAt w) (wd_FinalizedAt w).
Record instancePricing := mkInstancePricing {
  ip_PeerID : string; ip_Label : string; ip_OwnerWallet : string; ip_Billable : bool; ip_Online : bool;
  ip_ObservedAt : option time; ip_AdvertisementKnown : bool; ip_Asks : list Ask; ip_UnpricedRoutes : list (string * string) }.
Record asksResponse := mkAsksResponse { aj_Now : time; aj_Instances : list instancePricing }.
Record askConfigResponse := mkAskConfigResponse { aq_PeerID : string; aq_Asks : list Ask; aq_UpdatedAt : option time }.
Record askConfigPutResponse := mkPutResponse { ap_Config : askConfigResponse; ap_Published : bool; ap_PublishError : option err }.
Record reconciliationResponse := mkReconciliationResponse {
  re_Report : ReconciliationReport; re_Root : string; re_GeneratedAt : time; re_ChainAudited : bool }.
Record merkleProofResponse := mkProofResponse {
  mp_AccountID : string; mp_Root : string; mp_LeafCount : Z; mp_Index : Z; mp_Leaf : string; mp_Path : list string }.

(** ** Checks *)
Definition capMax : Z := 4611686018427387904.
Fixpoint check_caps (l : list (option Z)) : res unit :=
  match l with
  | [] => Ok tt
  | None :: r => check_caps r
  | Some p :: r => if p <? 0 then Err (Errorf "caps must not be negative")
                   else if p >? capMax then Err (Errorf "caps must not exceed 4611686018427387904") else check_caps r
  end.
Definition validateCaps (c : Caps) : res unit := check_caps [InputPerMillion c; CachedInputPerMillion c; OutputPerMillion c].
Definition validateDestinationWallet (s : string) : bool :=
  match DecodeBase58 s PublicKeyBytes with Ok b => Z.of_nat (length b) =? PublicKeyBytes | Err _ => false end.
Definition withdrawalIdempotencyKey (r : request) (body : string) : res string :=
  let header := TrimSpace (h_Header r "Idempotency-Key") in
  let body := TrimSpace body in
  if negb (String.eqb header "") && negb (String.eqb body "") && negb (String.eqb header body)
  then Err (Errorf "Idempotency-Key header does not match idempotency_key body")
  else Ok (if String.eqb header "" then body else header).

(** The sheet with its names trimmed, or the text of the refusal. *)
Definition maxModelCaps : Z := 128.
Fixpoint sheet_rows (seen : gset string) (l : list ModelCaps) : list ModelCaps + string :=
  match l with
  | [] => inl []
  | m :: rest =>
    let service := TrimSpace (mc_Service m) in
    let model := TrimSpace (mc_Model m) in
    if String.eqb service "" || String.eqb model "" then inr "empty_service_or_model"%string else
    let key := service +:+ NUL +:+ model in
    if bool_decide (key ∈ seen) then inr "duplicate_model"%string else
    match sheet_rows ({[ key ]} ∪ seen) rest with
    | inl rows => inl (mkModelCaps service model (mc_InputPerMillion m) (mc_CachedInputPerMillion m) (mc_OutputPerMillion m) :: rows)
    | inr text => inr text
    end
  end.
Definition trim_ask (a : Ask) : Ask :=
  mkAsk "" (TrimSpace (ak_Service a)) (TrimSpace (ak_Model a)) (ak_InputPerMillion a) (ak_CachedInputPerMillion a)
    (ak_OutputPerMillion a) 0 zeroTime zeroTime.
Definition latestUpdatedAt (l : list Ask) : option time :=
  let latest := fold_left (fun m a => if After (ak_UpdatedAt a) m then ak_UpdatedAt a else m) l zeroTime in
  if IsZero latest then None else Some latest.

(** ** Unpriced routes *)
Definition route_before (x y : string * string) : Prop :=
  (if String.eqb (fst x) (fst y) then String.leb (snd x) (snd y) else String.leb (fst x) (fst y)) = true.
#[export] Instance route_before_dec : RelDecision route_before.
Proof. intros x y. unfold route_before. apply _. Defined.
Definition unpricedRoutes (services : list ServiceObservation) (l : list Ask) : list (string * string) :=
  let asked := list_to_set (map route_key l) : gset string in
  merge_sort route_before
    (List.filter (fun sm => negb (bool_decide (fst sm +:+ NUL +:+ snd sm ∈ asked)))
      (concat (map (fun km => map (pair (fst km)) (elements (snd km))) (map_to_list (AdvertisedModelsByService services))))).

Definition maxPricedInstances : nat := 50.
Definition ErrDeadlineExceeded : err := Sentinel "context deadline exceeded".

Section Handlers.
Context `{Ed25519} `{surroundings} `{chainReader site}.
Implicit Types (s : BillingService) (r : request).

(** ** State and preferences *)
Definition allowances s (a : string) : W site (list Allowance) :=
  let*? rows := callStore (AccountAllowances a) in wret (match rows with Ok rows => rows | Err _ => [] end).

Definition handleState s r : W site (reply stateResponse) := requireAccount r (fun a =>
  if off s then
    let* t := timeNow in
    wret (WriteJSON 200 (mkStateResponse (bs_mode s) (mkBalance 0 0 0 t) no_caps (mkDepositInstr false "" "" "" "" 0) false None []))
  else
    or_unavailable (callStore (EnsureAccountCredit a)) (fun _ =>
    or_unavailable (callStore (AccountCreditOf a)) (fun ac =>
    or_unavailable (callStore (PrimaryWalletForAccount a)) (fun wk =>
    let primary := if snd wk && negb (String.eqb (fst wk) "") then Some (fst wk) else None in
    let* al := allowances s a in
    wret (WriteJSON 200 (mkStateResponse (bs_mode s)
      (mkBalance (CreditRaw ac) (ReservedRaw ac) (Available ac) (ac_UpdatedAt ac)) (MaxCaps ac)
      (mkDepositInstr (negb (String.eqb (bs_treasuryATA s) "")) (bs_treasuryATA s) (bs_treasuryWallet s) (bs_mint s)
         (bs_tokenProgram s) (bs_decimals s))
      (bs_withdrawalsEnabled s) primary al)))))).

Definition handlePreferences s r : W site (reply Caps) := requireAccount r (fun a =>
  match DecodeStrict maxBodyBytes dec_preferences no_caps r with
  | Err _ => wret (http_error 400 "invalid JSON body")
  | Ok caps =>
    match validateCaps caps with
    | Err e => wret (http_error 400 (error_text e))
    | Ok _ =>
      or_unavailable (callStore (EnsureAccountCredit a)) (fun _ =>
      or_unavailable (callStore (SetAccountCaps a caps)) (fun ac => wret (WriteJSON 200 (MaxCaps ac))))
    end
  end).

(** ** Pages *)
Definition handleLedger s r : W site (reply (page LedgerRow)) := requireAccount r (fun a =>
  let limit := limit_of (h_Query r "limit") (bs_ledgerLimit s) in
  match decodeLedgerCursor (h_Query r "cursor") with
  | Err _ => wret (http_error 400 "invalid cursor")
  | Ok cursor =>
    or_unavailable (callStore (ListLedger a cursor limit)) (fun en =>
    wret (WriteJSON 200 (mkPage (fst en) (match snd en with Some c => encodeLedgerCursor c | None => "" end))))
  end).
Definition handleDeposits s r : W site (reply (page DepositEvent)) := requireAccount r (fun a =>
  let limit := limit_of (h_Query r "limit") (bs_depositLimit s) in
  match decodeDepositCursor (h_Query r "cursor") with
  | Err _ => wret (http_error 400 "invalid cursor")
  | Ok cursor =>
    or_unavailable (callStore (ListDepositEvents a cursor limit)) (fun en =>
    wret (WriteJSON 200 (mkPage (fst en) (match snd en with Some c => encodeDepositCursor c | None => "" end))))
  end).
Definition handleWithdrawalsList s r : W site (reply (page withdrawalJSON)) := requireAccount r (fun a =>
  let limit := limit_of (h_Query r "limit") (bs_depositLimit s) in
  match decodeWithdrawalCursor (h_Query r "cursor") with
  | Err _ => wret (http_error 400 "invalid cursor")
  | Ok cursor =>
    or_unavailable (callStore (ListWithdrawals a cursor limit)) (fun en =>
    wret (WriteJSON 200 (mkPage (map withdrawalToJSON (fst en))
      (match snd en with Some c => encodeWithdrawalCursor c | None => "" end))))
  end).

(** ** Withdrawals *)
Definition reserve_refusal {A} (e : err) : W site (reply A) :=
  if errors_is e ErrInsufficientCredit then wret (http_error 402 "insufficient available credit")
  else if errors_is e ErrConflict then wret (http_error 409 "idempotency key in use")
  else if errors_is e ErrInvalid then wret (http_error 400 "invalid withdrawal request")
  else service_unavailable.

Definition handleWithdrawalsCreate s r : W site (reply withdrawalJSON) := requireAccount r (fun a =>
  match DecodeStrict maxBodyBytes dec_create (mkCreate "" 0 "") r with
  | Err _ => wret (http_error 400 "invalid JSON body")
  | Ok req =>
    match withdrawalIdempotencyKey r (wn_IdempotencyKey req) with
    | Err e => wret (http_error 400 (error_text e))
    | Ok key =>
      if String.eqb key "" then wret (http_error 400 "idempotency_key is required")
      else if negb (bs_withdrawalsEnabled s) then wret (http_error 503 "withdrawals are disabled") else
      or_unavailable (callStore (PrimaryWalletForAccount a)) (fun wk =>
      let '(wallet, ok) := wk in
      if negb ok || String.eqb wallet "" then wret (http_error 409 "primary linked wallet required")
      else if negb (validateDestinationWallet wallet)
      then wret (http_error 409 "primary linked wallet is not a valid 32-byte base58 pubkey")
      else if negb (String.eqb (wn_DestinationWallet req) "") && negb (String.eqb (wn_DestinationWallet req) wallet)
      then wret (http_error 409 "destination_wallet must match the primary linked wallet")
      else if wn_AmountRaw req <=? 0 then wret (http_error 400 "amount_raw must be positive") else
      or_unavailable (callStore (AccountCreditOf a)) (fun ac =>
      if Available ac <? wn_AmountRaw req then wret (http_error 402 "insufficient available credit") else
      let* t := timeNow in
      let*? wd := callStore (ReserveWithdrawal (mkWithdrawalRequest a key wallet (wn_AmountRaw req)) t) in
      match wd with
      | Err e => reserve_refusal e
      | Ok wd => wret (WriteJSON 202 (withdrawalToJSON wd))
      end))
    end
  end).

Definition handleWithdrawal s r : W site (reply withdrawalJSON) := requireAccount r (fun a =>
  match ParseInt (h_PathValue r "id") with
  | Ok id =>
    if id <=? 0 then wret (http_error 400 "invalid withdrawal id") else
    let*? wd := callStore (WithdrawalOf a id) in
    match wd with
    | Err e => if errors_is e ErrNotFound then wret (http_error 404 "withdrawal not found") else service_unavailable
    | Ok wd => wret (WriteJSON 200 (withdrawalToJSON wd))
    end
  | Err _ => wret (http_error 400 "invalid withdrawal id")
  end).

(** ** Asks *)
Definition by_peer_asks (l : list Ask) : gmap string (list Ask) :=
  fold_left (fun m a => <[ak_PeerID a := default [] (m !! ak_PeerID a) ++ [a]]> m) l ∅.
Definition pricing_of s (byPeer : gmap string (list Ask)) (i : InstanceInfo) : W site instancePricing :=
  let l := default [] (byPeer !! in_PeerID i) in
  let unseen := mkInstancePricing (in_PeerID i) (in_Label i) (in_OwnerWallet i)
    (BillableProvider (in_AccountID i) (in_OwnerWallet i)) false None false l [] in
  if negb (bs_mesh s) then wret unseen else
  let*? obs := LookupPeer (in_PeerID i) in
  wret (match obs with
        | Ok obs => mkInstancePricing (in_PeerID i) (in_Label i) (in_OwnerWallet i)
            (BillableProvider (in_AccountID i) (in_OwnerWallet i)) (ob_Online obs) (Some (ob_ObservedAt obs)) true l
            (unpricedRoutes (ob_Services obs) l)
        | Err _ => unseen
        end).
Fixpoint pricing_all s (byPeer : gmap string (list Ask)) (l : list InstanceInfo) : W site (list instancePricing) :=
  match l with
  | [] => wret []
  | i :: rest => let* p := pricing_of s byPeer i in let* ps := pricing_all s byPeer rest in wret (p :: ps)
  end.
Definition live_asks (peers : list string) : W site (list Ask) :=
  if bool_decide (peers = []) then wret [] else let* t := timeNow in callStore (LiveAsksByPeers peers t).

Definition handleAsks s r : W site (reply asksResponse) := requireAccount r (fun a =>
  let* now := timeNow in
  if off s then wret (WriteJSON 200 (mkAsksResponse now [])) else
  or_unavailable (callDir (ListInstancesByUser a)) (fun owned =>
  let owned := take maxPricedInstances owned in
  or_unavailable (live_asks (map in_PeerID owned)) (fun l =>
  let* ps := pricing_all s (by_peer_asks l) owned in
  wret (WriteJSON 200 (mkAsksResponse now ps))))).

(** ** The cap sheet *)
Definition handleModelCapsGet s r : W site (reply (list ModelCaps)) := requireAccount r (fun a =>
  or_unavailable (callStore (ModelCapsForAccount a)) (fun rows => wret (WriteJSON 200 rows))).

(** A body that cannot be read is not answered. *)
Definition handleModelCapsPut s r : W site (reply (list ModelCaps)) := requireAccount r (fun a =>
  if off s then wret (http_error 409 "billing disabled") else
  match DecodeStrict maxBodyBytes dec_sheet [] r with
  | Err _ => wret NoAnswer
  | Ok sheet =>
    if Z.of_nat (length sheet) >? maxModelCaps then wret (http_error 400 "too_many_model_caps") else
    match sheet_rows ∅ sheet with
    | inr text => wret (http_error 400 text)
    | inl rows =>
      or_unavailable (callStore (ReplaceModelCaps a rows)) (fun _ =>
      or_unavailable (callStore (ModelCapsForAccount a)) (fun saved => wret (WriteJSON 200 saved)))
    end
  end).

(** ** The durable asks *)
Definition handleAsksConfigList s r : W site (reply (list askConfigResponse)) := requireAccount r (fun a =>
  if off s then wret (WriteJSON 200 []) else
  or_unavailable (callDir (ListInstancesByUser a)) (fun owned =>
  or_unavailable (callStore (AskConfigForPeers (map in_PeerID owned))) (fun cfg =>
  wret (WriteJSON 200 (omap (fun i => match cfg !! in_PeerID i with
    | Some l => Some (mkAskConfigResponse (in_PeerID i) l (latestUpdatedAt l)) | None => None end) owned))))).

Definition not_found {A} : W site (reply A) := wret (http_error 404 "not found").
(** The immediate publication and what it says. *)
Definition publish_now s (a peerID : string) (l : list Ask) : W site (bool * option err) :=
  if bool_decide (l = []) then wret (true, None) else
  let*? p := publishAskConfig (bs_mesh s) a peerID l in wret (match p with Ok _ => (true, None) | Err e => (false, Some e) end).

Definition handleAsksConfigPut s r : W site (reply askConfigPutResponse) := requireAccount r (fun a =>
  if off s then wret (http_error 409 "billing disabled") else
  let peerID := h_PathValue r "peerID" in
  if String.eqb peerID "" then wret (http_error 400 "missing peer") else
  match DecodeStrict maxBodyBytes dec_askConfig [] r with
  | Err _ => wret NoAnswer
  | Ok body =>
    let l := map trim_ask body in
    match validateAskConfig l with
    | Err e => wret (http_error 400 (error_text e))
    | Ok _ =>
      let*? inst := callDir (GetInstanceByPeerID peerID) in
      match inst with
      | Err _ => not_found
      | Ok inst =>
        if negb (String.eqb (in_AccountID inst) a) then not_found else
        or_unavailable (callStore (ReplaceAskConfig peerID l)) (fun _ =>
        let* pub := publish_now s a peerID l in
        or_unavailable (callStore (AskConfigForPeers [peerID])) (fun saved =>
        let cfg := match saved !! peerID with
                   | Some l => mkAskConfigResponse peerID l (latestUpdatedAt l)
                   | None => mkAskConfigResponse peerID [] None end in
        wret (WriteJSON 200 (mkPutResponse cfg (fst pub) (snd pub)))))
      end
    end
  end).

Definition handleAsksConfigDelete s r : W site (reply askConfigResponse) := requireAccount r (fun a =>
  if off s then wret (http_error 409 "billing disabled") else
  let peerID := h_PathValue r "peerID" in
  let*? inst := callDir (GetInstanceByPeerID peerID) in
  match inst with
  | Err _ => not_found
  | Ok inst =>
    if negb (String.eqb (in_AccountID inst) a) then not_found else
    or_unavailable (callStore (ReplaceAskConfig peerID [])) (fun _ =>
    wret (WriteJSON 200 (mkAskConfigResponse peerID [] None)))
  end).

(** ** Audit *)
Definition reconciliationResponseFrom (rep : ReconciliationReport) (generatedAt : time) (chainAudited : bool)
    : reconciliationResponse :=
  mkReconciliationResponse rep (EncodeHex (ms_Root (rp_Merkle rep))) generatedAt chainAudited.
(** The reconciler's rows are never a nil slice; without it there are none. *)
Definition handleReconciliation s r : W site (reply reconciliationResponse) := requireAccount r (fun a =>
  or_unavailable (callStore (ReconcileAccount a)) (fun ledger =>
  or_unavailable (callStore (AccountMerkleSummary a)) (fun merkle =>
  let answer report audited := let* t := timeNow in wret (WriteJSON 200 (reconciliationResponseFrom report t audited)) in
  match bs_reconciler s with
  | None => answer (mkReport a ledger merkle [] (mkExposure 0 0)) false
  | Some rec =>
    let*? full := Report rec a in
    match full with
    | Ok full => answer full true
    | Err e => if errors_is e ErrDeadlineExceeded then wret (http_error 504 "gateway timeout") else service_unavailable
    end
  end))).

Definition handleMerkleProof s r : W site (reply merkleProofResponse) := requireAccount r (fun a =>
  match ParseInt (h_Query r "leaf_id") with
  | Err _ => wret (http_error 400 "leaf_id must be a positive ledger row id")
  | Ok leafID =>
    if leafID <=? 0 then wret (http_error 400 "leaf_id must be a positive ledger row id") else
    let*? proof := callStore (MerkleProofForLedgerRow a leafID) in
    match proof with
    | Err e => if errors_is e ErrNotFound then wret (http_error 404 "no such ledger row") else service_unavailable
    | Ok (leaf, path, root, leafCount) =>
      or_unavailable (callStore (LedgerLeafIndex a leafID)) (fun ix =>
      wret (WriteJSON 200 (mkProofResponse a (EncodeHex root) leafCount (fst ix) (EncodeHex leaf) (map EncodeHex path))))
    end
  end).
End Handlers.
