(* ===== verification/Inputs.v ===== *)
(** * Names, rules and numbers out of the clients' requests

    internal/identity/domain.go and the normalisations of internal/instancesapi and
    internal/regionsapi: what a name may look like before it goes into the directory.
    The loops over runes are loops over bytes here: a byte of a rune outside ASCII is no
    letter, digit or sign, and fails the same way. *)
From Stdlib Require Import ZArith Lia Strings.Ascii Strings.String.
From stdpp Require Import base gmap strings list fin_maps sorting.
From S2P Require Import Prelude Sha256 Base58 GoText Json AclTypes Tx Schema Solana DirSchema Pricing Jwt.

Open Scope Z_scope.
Local Open Scope go_scope.

(** ** Ranges of characters *)
Definition in_range (lo hi : Z) (c : ascii) : bool := (lo <=? ascii_Z c) && (ascii_Z c <=? hi).
Definition is_lower : ascii -> bool := in_range 97 122.
Definition is_upper : ascii -> bool := in_range 65 90.
Definition is_digit : ascii -> bool := in_range 48 57.
Definition is_char (z : Z) (c : ascii) : bool := ascii_Z c =? z.

(** ** internal/identity/domain.go *)
Definition maxDomainLen : Z := 253.
Definition slen (s : string) : Z := Z.of_nat (length (chars_of s)).

Definition domain_char (c : ascii) : bool := is_lower c || is_digit c || is_char 45 c.
Definition check_label (label : chars) : res unit :=
  if bool_decide (label = []) then Err (Errorf "domain contains empty label")
  else if (63 <? length label)%nat then Err (Errorf "domain label too long")
  else if negb (forallb domain_char label) then Err (Errorf "domain must be ASCII only")
  else if match head label with Some c => is_char 45 c | None => false end ||
          match last label with Some c => is_char 45 c | None => false end
  then Err (Errorf "domain labels cannot start or end with hyphen")
  else Ok tt.
Fixpoint check_labels (l : list chars) : res unit :=
  match l with [] => Ok tt | label :: rest => let? _ := check_label label in check_labels rest end.

Definition dot : ascii := "."%char.
Definition NormalizeRuleDomain (v : string) : res string :=
  let domain := ToLower (TrimSpace v) in
  let l := chars_of domain in
  if String.eqb domain "" then Err (Errorf "domain is required")
  else if slen domain >? maxDomainLen then Err (Errorf "domain too long")
  else if existsb (fun c => is_char 32 c || is_char 9 c || is_char 13 c || is_char 10 c) l
  then Err (Errorf "domain contains whitespace")
  else if match head l with Some c => Ascii.eqb c dot | None => false end ||
          match last l with Some c => Ascii.eqb c dot | None => false end
  then Err (Errorf "domain cannot start or end with dot")
  else if contains [dot; dot] l then Err (Errorf "domain cannot contain consecutive dots")
  else let? _ := check_labels (split_on dot l) in Ok domain.

(** What follows the last @, with what is before it. *)
Fixpoint last_at (l : chars) : option (chars * chars) :=
  match l with
  | [] => None
  | c :: r =>
    match last_at r with
    | Some (a, b) => Some (c :: a, b)
    | None => if Ascii.eqb c "@"%char then Some ([], r) else None
    end
  end.
Definition DomainFromVerifiedEmail (email : string) : option string :=
  match last_at (chars_of (TrimSpace email)) with
  | Some (local, rest) =>
    if bool_decide (local = []) || bool_decide (rest = []) then None
    else match NormalizeRuleDomain (text_of rest) with Ok domain => Some domain | Err _ => None end
  | None => None
  end.

(** ** Rules *)
Definition maxRules : nat := 100.
Definition lower_hex (c : ascii) : bool := is_digit c || in_range 97 102 c.
Definition isLowerHex (l : chars) : bool := forallb lower_hex l.
Definition normalizeKeyPrefix (v : string) : res string :=
  let l := chars_of (ToLower v) in
  if negb (length l =? 11)%nat || negb (has_prefix (chars_of "sk-") l) || negb (isLowerHex (drop 3 l))
  then Err (Errorf "api_key rules must be the non-secret key prefix: sk- plus 8 hex characters")
  else Ok (text_of l).

Definition normalizeRule (rule : ACLRule) : res ACLRule :=
  let kind := TrimSpace (Kind rule) in
  let value := TrimSpace (Value rule) in
  if String.eqb kind "email_domain" then let? v := NormalizeRuleDomain value in Ok (mkRule kind v)
  else if String.eqb kind "wallet" then let? v := NormalizeWallet value in Ok (mkRule kind v)
  else if String.eqb kind "api_key" then let? v := normalizeKeyPrefix value in Ok (mkRule kind v)
  else Err (Errorf "invalid rule kind").
Definition rule_key (r : ACLRule) : string := Kind r +:+ NUL +:+ Value r.
Fixpoint normalize_rules (seen : gset string) (l : list ACLRule) : res (list ACLRule) :=
  match l with
  | [] => Ok []
  | rule :: rest =>
    let? r := normalizeRule rule in
    if bool_decide (rule_key r ∈ seen) then normalize_rules seen rest
    else let? out := normalize_rules ({[ rule_key r ]} ∪ seen) rest in Ok (r :: out)
  end.
Definition normalizeRules (l : list ACLRule) : res (list ACLRule) :=
  if (maxRules <? length l)%nat then Err (Errorf "too many rules")
  else let? out := normalize_rules ∅ l in Ok (merge_sort rule_le out).

(** ** Modes, scopes and roles: one of the names, up to case and space around it *)
Definition folded (v : string) : string := ToLower (TrimSpace v).
Definition one_name (names : list string) (v : string) : string :=
  if one_of (folded v) names then folded v else "".
Definition normalizeMode : string -> string := one_name ["public"; "restricted"]%string.
Definition normalizePolicyScope : string -> string := one_name [PolicyScopePeer; PolicyScopeService].
Definition normalizeServiceAccessMode : string -> string :=
  one_name [AccessModeInherit; AccessModePublic; AccessModeRestricted].
Definition normalizeNodeRole : string -> string := one_name ["worker"; "head"; "combined"]%string.
Definition normalizeManagedMembershipStatus : string -> string := one_name ["active"; "suspended"; "revoked"]%string.

(** ** Names *)
Definition validServiceName (v : string) : bool :=
  let l := chars_of v in
  let plain := fun c => is_upper c || is_lower c || is_digit c in
  let inside := fun c => plain c || is_char 46 c || is_char 95 c || is_char 45 c in
  negb (String.eqb v "") && (length l <=? 80)%nat &&
  match l with [] => true | c :: r => plain c && forallb inside r end.

(** A hyphen at the index [i] is neither the first nor the last character. *)
Fixpoint slug_chars (i : nat) (n : nat) (l : chars) : bool :=
  match l with
  | [] => true
  | c :: r => (is_lower c || is_digit c || (is_char 45 c && (0 <? i)%nat && (i <? n - 1)%nat)) && slug_chars (S i) n r
  end.
Definition normalizeSlug (v : string) : string :=
  let v := folded v in
  let l := chars_of v in
  if (length l =? 0)%nat || (64 <? length l)%nat then ""
  else if slug_chars 0 (length l) l then v else "".

(** ** Peer ids *)
Definition maxPeerIDLen : Z := 128.
(** [binary.Uvarint]: the value and how many bytes it took, none when there are too few
    and a negative number when it does not fit 64 bits. *)
Fixpoint uvarint (i : Z) (x s : Z) (l : bytes) : Z * Z :=
  match l with
  | [] => (0, 0)
  | b :: r =>
    if i =? 10 then (0, - (i + 1))
    else if Zbyte b <? 128 then
      if (i =? 9) && (Zbyte b >? 1) then (0, - (i + 1)) else (Z.lor x (u64 (Z.shiftl (Zbyte b) s)), i + 1)
    else uvarint (i + 1) (Z.lor x (u64 (Z.shiftl (Z.land (Zbyte b) 127) s))) (s + 7) r
  end.
Definition Uvarint (l : bytes) : Z * Z := uvarint 0 0 0 l.

Definition ValidPeerID (v : string) : bool :=
  if String.eqb v "" || (slen v >? maxPeerIDLen) then false else
  match DecodeBase58 v maxPeerIDLen with
  | Err _ => false
  | Ok raw =>
    let n := Z.of_nat (length raw) in
    let codeBytes := snd (Uvarint raw) in
    if (codeBytes <=? 0) || (codeBytes >=? n) then false else
    let '(digestLen, lengthBytes) := Uvarint (drop (Z.to_nat codeBytes) raw) in
    if (lengthBytes <=? 0) || (digestLen =? 0) then false
    else i64 digestLen =? n - codeBytes - lengthBytes
  end.

Example domain_ex : NormalizeRuleDomain " Example.COM " = Ok "example.com"%string /\
  NormalizeRuleDomain "exa..mple.com" = Err (Errorf "domain cannot contain consecutive dots") /\
  NormalizeRuleDomain "a.-b" = Err (Errorf "domain labels cannot start or end with hyphen") /\
  DomainFromVerifiedEmail "User@Sub.Example.COM" = Some "sub.example.com"%string /\
  DomainFromVerifiedEmail "@x.com" = None.
Proof. by vm_compute. Qed.
Example names_ex : normalizeSlug " EU-west-1 " = "eu-west-1"%string /\ normalizeSlug "-a" = ""%string /\
  validServiceName "llm.v1" = true /\ validServiceName ".llm" = false /\
  ValidPeerID "12D3KooWQgHcDzv1UEUGDQAWYFJqeHHVfdCFmJx8jvVBPLVnmSXp" = true /\ ValidPeerID "abc" = false.
Proof. by vm_compute. Qed.
