(* ===== verification/InputsSpec.v ===== *)
(** * What the handlers accept is what the tables take *)
From Stdlib Require Import ZArith Lia Strings.Ascii Strings.String.
From stdpp Require Import base gmap strings list fin_maps sorting.
From S2P Require Import Prelude Sha256 Base58 GoText Json AclTypes Tx Schema Solana DirSchema Directory Pricing Jwt Inputs.

Open Scope Z_scope.
Local Open Scope go_scope.

(** ** The order of rules *)
Lemma ascii_compare_trans a b c : Ascii.compare a b = Lt -> Ascii.compare b c = Lt -> Ascii.compare a c = Lt.
Proof. unfold Ascii.compare. rewrite !N.compare_lt_iff. lia. Qed.
Lemma string_leb_trans : Transitive (fun a b => String.leb a b = true).
Proof.
  intros a. induction a as [|x a IH]; intros [|y b] [|z c]; try done. unfold String.leb in *. simpl.
  destruct (Ascii.compare x y) eqn:Exy; [|destruct (Ascii.compare y z) eqn:Eyz|done].
  - apply Ascii.compare_eq_iff in Exy as ->. destruct (Ascii.compare y z); [apply IH|done|done].
  - apply Ascii.compare_eq_iff in Eyz as ->. by rewrite Exy.
  - by rewrite (ascii_compare_trans x y z).
  - done.
Qed.

#[export] Instance rule_le_trans : Transitive rule_le.
Proof.
  intros [k1 v1] [k2 v2] [k3 v3]. unfold rule_le. simpl. pose proof string_leb_trans as Ht.
  destruct (String.eqb_spec k1 k2) as [->|N12], (String.eqb_spec k2 k3) as [->|N23]; try rewrite String.eqb_refl;
    try (destruct (String.eqb_spec k1 k3) as [->|N13]); try (destruct (String.eqb_spec k2 k3) as [->|]); try done; eauto.
  all: try (intros Ha Hb; by apply (Ht _ _ _ Ha Hb)). intros Ha Hb. destruct N12. by apply String.leb_antisym.
Qed.
#[export] Instance rule_le_total : Total rule_le.
Proof.
  intros [k1 v1] [k2 v2]. unfold rule_le. simpl. rewrite (String.eqb_sym k2 k1).
  destruct (String.eqb k1 k2); apply String.leb_total.
Qed.
#[export] Instance rule_le_antisym : AntiSymm (=) rule_le.
Proof.
  intros [k1 v1] [k2 v2]. unfold rule_le. simpl. rewrite (String.eqb_sym k2 k1).
  destruct (String.eqb_spec k1 k2) as [->|N]; intros Ha Hb; [f_equal; by apply String.leb_antisym|].
  destruct N. by apply String.leb_antisym.
Qed.

(** ** Normal rules *)
Definition known (r : ACLRule) : Prop := one_of (Kind r) rule_kinds = true.
Lemma normalizeRule_known r r' : normalizeRule r = Ok r' -> known r'.
Proof.
  unfold normalizeRule, known. generalize (TrimSpace (Value r)) as v. intros v.
  destruct (String.eqb_spec (TrimSpace (Kind r)) "email_domain") as [->|];
    [intros (x & _ & [= <-])%res_bind_Ok; done|].
  destruct (String.eqb_spec (TrimSpace (Kind r)) "wallet") as [->|];
    [intros (x & _ & [= <-])%res_bind_Ok; done|].
  destruct (String.eqb_spec (TrimSpace (Kind r)) "api_key") as [->|]; [|done].
  intros (x & _ & [= <-])%res_bind_Ok. done.
Qed.
Lemma normalize_rules_spec l : forall seen out, normalize_rules seen l = Ok out ->
  Forall known out /\ NoDup (map rule_key out) /\ forall r, r ∈ out -> rule_key r ∉ seen.
Proof.
  induction l as [|r l IH]; intros seen out; simpl.
  - intros [= <-]. split; [constructor|]. split; [constructor|]. intros r. by rewrite elem_of_nil.
  - intros (r' & Hr & H)%res_bind_Ok. case_bool_decide as Hs; [by apply IH|].
    apply res_bind_Ok in H as (o & Ho & [= <-]). apply IH in Ho as (Hk & Hn & Hd).
    split; [constructor; [by eapply normalizeRule_known|done]|]. split.
    + simpl. constructor; [|done]. intros (q & Hq & Hin)%list_elem_of_In%in_map_iff. apply list_elem_of_In in Hin.
      apply (Hd q Hin). rewrite Hq. set_solver.
    + intros q [->|Hq]%elem_of_cons; [done|]. specialize (Hd q Hq). set_solver.
Qed.

Lemma normalizeRules_spec l rules : normalizeRules l = Ok rules ->
  Forall known rules /\ NoDup rules /\ StronglySorted rule_le rules /\ (length rules <= maxRules)%nat.
Proof.
  unfold normalizeRules. destruct (Nat.ltb_spec maxRules (length l)) as [|Hl]; [done|].
  intros (out & Ho & [= <-])%res_bind_Ok. pose proof (normalize_rules_spec _ _ _ Ho) as (Hk & Hn & _).
  pose proof (merge_sort_Permutation rule_le out) as Hp.
  split; [by rewrite Hp|]. split; [rewrite Hp; by apply (NoDup_fmap_1 rule_key)|].
  split; [apply StronglySorted_merge_sort; apply _|]. rewrite Hp.
  assert (Hle : forall l seen out, normalize_rules seen l = Ok out -> (length out <= length l)%nat); [|by etrans; [eapply Hle|]].
  clear. induction l as [|r l IH]; intros seen out; simpl; [by intros [= <-]|].
  intros (r' & _ & H)%res_bind_Ok. case_bool_decide; [apply IH in H; lia|].
  apply res_bind_Ok in H as (o & Ho & [= <-]). apply IH in Ho. simpl. lia.
Qed.

(** ** Filing them *)
Definition row_of (id : Z) (r : ACLRule) : rule_row := (id, Kind r, Value r).
Lemma row_of_inj id r s : row_of id r = row_of id s -> r = s.
Proof. destruct r, s. by intros [= -> ->]. Qed.

(** The batch of a replacement: the old rules go, the new ones are inserted one by one. *)
Fixpoint file_rules (id : Z) (rules : list ACLRule) (d : dir) : res dir :=
  match rules with
  | [] => Ok d
  | r :: rest => res_bind (sql_insert_rule id r d) (fun x => file_rules id rest (snd x))
  end.

Lemma file_rules_ok id rules : forall d, is_Some (instances d !! id) -> Forall known rules -> NoDup rules ->
  (forall r, r ∈ rules -> row_of id r ∉ acl_rules d) ->
  exists d', file_rules id rules d = Ok d' /\ acl_rules d' = list_to_set (map (row_of id) rules) ∪ acl_rules d /\
    instances d' = instances d.
Proof.
  induction rules as [|r rules IH]; intros d Hi Hk Hn Hd; simpl.
  { exists d. split; [done|]. split; [set_solver|done]. }
  apply Forall_cons in Hk as [Hkr Hk]. apply NoDup_cons in Hn as [Hr Hn]. unfold known in Hkr.
  assert (Hins : sql_insert_rule id r d = Ok (tt, set_acl_rules ({[ row_of id r ]} ∪ acl_rules d) d)).
  { unfold sql_insert_rule, insert_rule. rewrite Hkr. cbn [negb].
    rewrite bool_decide_eq_false_2 by (apply (Hd r); set_solver). by rewrite (bool_decide_eq_true_2 _ Hi). }
  rewrite Hins. cbn [res_bind snd].
  destruct (IH (set_acl_rules ({[ row_of id r ]} ∪ acl_rules d) d)) as (d' & Hf & Ha & He); [done..| |].
  - intros s Hs. cbn. rewrite elem_of_union, elem_of_singleton. intros [E|E]; [|apply (Hd s); set_solver].
    apply row_of_inj in E as ->. done.
  - exists d'. split; [done|]. rewrite Ha, He. cbn. split; [set_solver|done].
Qed.

(** Rows come back as the rules they were, in order. *)
Lemma rules_of_rows (id : Z) (rules : list ACLRule) (s : gset rule_row) : NoDup rules -> StronglySorted rule_le rules ->
  (forall k v, (id, k, v) ∈ s <-> mkRule k v ∈ rules) -> rules_of id s = rules.
Proof.
  intros Hn Hs Hin. unfold rules_of. apply (StronglySorted_unique rule_le); [|done|].
  { apply StronglySorted_merge_sort; apply _. }
  rewrite merge_sort_Permutation. apply NoDup_Permutation; [|done|].
  - apply NoDup_fmap_2_strong; [|apply NoDup_ListNoDup, List.NoDup_filter, NoDup_ListNoDup, NoDup_elements].
    intros [[i k] v] [[j k'] v'] [_ Hi]%list_elem_of_In%filter_In [_ Hj]%list_elem_of_In%filter_In.
    simpl in *. apply Z.eqb_eq in Hi as ->, Hj as ->. by intros [= -> ->].
  - intros [k v]. rewrite <- Hin, list_elem_of_fmap. split.
    + intros ([[i k'] v'] & [= -> ->] & [Hx Hi]%list_elem_of_In%filter_In). simpl in Hi. apply Z.eqb_eq in Hi as ->.
      by apply list_elem_of_In, elem_of_elements in Hx.
    + intros Hx. exists (id, k, v). split; [done|]. apply list_elem_of_In, filter_In. simpl. rewrite Z.eqb_refl.
      split; [by apply list_elem_of_In, elem_of_elements|done].
Qed.

(** ** Reads on the pool without failures *)
Section FineReads.
Context {D : Type} (t : time).
Definition fine_read {A} (m : M D A) (d : D) (a : A) : Prop :=
  forall n, exists n', m (fine_env t) (mkConn d None false n) = (Ok a, mkConn d None false n').

Lemma rd_ret {A} (a : A) d : fine_read (ret a) d a.
Proof. intros n. by eexists. Qed.
Lemma rd_bind {A B} (m : M D A) (k : A -> M D B) d a b : fine_read m d a -> fine_read (k a) d b -> fine_read (bind m k) d b.
Proof. intros Hm Hk n. destruct (Hm n) as [n1 H]. unfold bind. rewrite H. apply Hk. Qed.
Lemma rd_wrap {A} fmt (m : M D A) d a : fine_read m d a -> fine_read (wrap fmt m) d a.
Proof. intros Hm n. destruct (Hm n) as [n1 H]. unfold wrap. rewrite H. by eexists. Qed.
Lemma rd_pool {A} (s : stmt D A) d a : s d = Ok (a, d) -> fine_read (pool_stmt s) d a.
Proof. intros Hs n. unfold pool_stmt. simpl. rewrite Hs. by eexists. Qed.
Lemma rd_if {A} (b : bool) (m1 m2 : M D A) d a1 a2 :
  fine_read m1 d a1 -> fine_read m2 d a2 -> fine_read (if b then m1 else m2) d (if b then a1 else a2).
Proof. by destruct b. Qed.
End FineReads.

Lemma rd_found {A} t missing fmt (m : dstore A) d a : fine_read t m d a -> fine_read t (found missing fmt m) d a.
Proof. intros Hm n. destruct (Hm n) as [n1 H]. unfold found, attempt. rewrite H. by eexists. Qed.
Lemma rd_row {A} t (q : dir -> option A) d a : q d = Some a -> fine_read t (scan_row (pool_stmt (select q))) d a.
Proof.
  intros Hq. eapply rd_bind; [by apply rd_pool|]. rewrite Hq. apply rd_ret.
Qed.

Lemma with_tx_end {D A} t fmt (m : M D A) d r d' : fine_end t m d d r d' ->
  forall n, exists n', with_tx fmt m (fine_env t) (mkConn d None false n) = (r, mkConn d' None false n').
Proof.
  intros Hm n. unfold with_tx. simpl. destruct (Hm (S n)) as (c & -> & <-). by eexists.
Qed.

Lemma run_tx_read {D A B} t fmt (m : M D A) (k : A -> M D B) d a d' b : fine_end t m d d (Ok a) d' ->
  fine_read t (k a) d' b -> run (bind (with_tx fmt m) k) (fine_env t) d = (Ok b, d').
Proof.
  intros Hm Hk. unfold run, bind. destruct (with_tx_end t fmt m d _ d' Hm 0%nat) as [n ->].
  by destruct (Hk n) as [n' ->].
Qed.

(** The memberships and services an instance is shown with leave its rules alone. *)
Lemma services_read t ids d : exists l, fine_read t (listInstanceServices ids) d l.
Proof.
  unfold listInstanceServices. destruct (bool_decide (ids = [])); [by eexists; apply rd_ret|].
  eexists. eapply rd_bind; [by apply rd_wrap, rd_pool|]. eapply rd_bind; [|apply rd_ret].
  unfold listServiceRulesByServiceIDs. apply rd_if; [apply rd_ret|by apply rd_wrap, rd_pool].
Qed.
Lemma enrichInstance_read t i d : exists i', fine_read t (enrichInstance i) d i' /\ in_Rules i' = in_Rules i /\ in_ID i' = in_ID i.
Proof.
  unfold enrichInstance, enrichInstances. destruct (services_read t (map in_ID [i]) d) as [l Hl]. eexists. split.
  - eapply rd_bind; [|apply rd_ret]. rewrite bool_decide_eq_false_2 by done.
    eapply rd_bind; [by apply rd_wrap, rd_pool|]. eapply rd_bind; [exact Hl|apply rd_ret].
  - done.
Qed.

(** ** Replacing the rules of an instance *)
Lemma insertRules_files t id rules : forall w w', file_rules id rules w = Ok w' ->
  fine_run t (insertRules id rules) w (Ok tt) w'.
Proof.
  induction rules as [|r rules IH]; intros w w'; simpl; [intros [= ->]; apply fr_ret|].
  intros ([[] w1] & Hr & Hw)%res_bind_Ok. eapply fr_bind; [by apply fr_wrap, fr_stmt|by apply IH].
Qed.

Definition keeps_other_rules (id : Z) (d d' : dir) : Prop :=
  forall j k v, j <> id -> ((j, k, v) ∈ acl_rules d' <-> (j, k, v) ∈ acl_rules d).

Section Replace.
Context (t : time) (a : string) (id : Z) (mode status : string) (w : option string) (seen : option time).
Context (rules : list ACLRule) (d d1 : dir) (r : InstanceRow).
Hypothesis Hrow : sql_update_instance id (Some a) (row_acl mode status w seen t) d = Ok (Some r, d1).
Hypothesis Hknown : Forall known rules.
Hypothesis Hdup : NoDup rules.
Hypothesis Hsort : StronglySorted rule_le rules.

Lemma replaced_row : instances d1 !! id = Some r /\ acl_rules d1 = acl_rules d /\ ir_account_id r = a.
Proof.
  revert Hrow. unfold sql_update_instance. destruct (instances d !! id) as [r0|]; [|done].
  destruct (String.eqb_spec (ir_account_id r0) a) as [Ha|]; [|done]. cbn [negb].
  intros (x & Hx & [= <- <-])%res_bind_Ok. unfold write_instance in Hx.
  destruct (negb _); [done|]. destruct (negb _); [done|]. destruct (negb _); [done|]. injection Hx as <-. cbn.
  by rewrite lookup_insert_eq.
Qed.

Lemma replaced_end : exists d',
  fine_end t (
    let! t := now in
    let! r := found ErrStoreNotFound "store: update instance acl: %w"
      (scan_row (tx_stmt (sql_update_instance id (Some a) (row_acl mode status w seen t)))) in
    do! wrap "store: delete instance rules: %w" (tx_stmt (sql_delete_rules id)) in
    do! insertRules id rules in
    do! wrap "store: commit replace acl: %w" commit in
    ret (instance_info (id, r))) d d (Ok (instance_info (id, r))) d' /\
  rules_of id (acl_rules d') = rules /\ keeps_other_rules id d d' /\ instances d' !! id = Some r.
Proof.
  destruct replaced_row as (Hi & Ha & _).
  destruct (file_rules_ok id rules (set_acl_rules (drop_rules (Z.eqb id) (acl_rules d1)) d1)) as (d' & Hf & Hd' & He); [done|done|done| |].
  { intros q _. cbn. unfold drop_rules. rewrite elem_of_filter. cbn. rewrite Z.eqb_refl. by intros [? _]. }
  exists d'. split; [|split; [|split]].
  - eapply fe_bind; [apply fr_now|]. eapply fe_bind.
    { unfold found. eapply fr_attempt; [by apply fr_scan, fr_stmt|]. apply fr_ret. }
    eapply fe_bind; [by apply fr_wrap, fr_stmt|]. eapply fe_bind; [by apply insertRules_files|]. apply fe_commit.
  - apply rules_of_rows; [done..|]. intros k v. rewrite Hd'. cbn. unfold drop_rules.
    rewrite elem_of_union, elem_of_list_to_set, list_elem_of_fmap, elem_of_filter. cbn. rewrite Z.eqb_refl. split.
    + intros [([k' v'] & [= -> ->] & Hin)|[? _]]; done.
    + intros Hin. left. by exists (mkRule k v).
  - intros j k v Hj. rewrite Hd'. cbn. unfold drop_rules.
    rewrite elem_of_union, elem_of_list_to_set, list_elem_of_fmap, elem_of_filter, Ha. cbn. split.
    + intros [([k' v'] & [= -> _ _] & _)|[_ ?]]; done.
    + intros Hin. right. split; [|done]. by apply Z.eqb_neq.
  - by rewrite He.
Qed.
End Replace.

Lemma loadInstance_shows t (q : dir -> option (Z * InstanceRow)) d kr : q d = Some kr ->
  exists i, fine_read t (loadInstance q) d i /\ in_Rules i = rules_of (fst kr) (acl_rules d).
Proof.
  intros Hq. destruct (enrichInstance_read t (instance_info kr) d) as (i & Hi & _ & Hid).
  exists (with_rules (rules_of (in_ID i) (acl_rules d)) i). split.
  - unfold loadInstance. eapply rd_bind.
    { unfold getInstance. eapply rd_bind; [by apply rd_found, rd_row|apply rd_ret]. }
    eapply rd_bind; [exact Hi|]. eapply rd_bind; [by apply rd_wrap, rd_pool|apply rd_ret].
  - cbn. by rewrite Hid.
Qed.

(** C33: rules a client may file, in whatever form it wrote them, are filed as a whole and
    read back as the handler normalised them, duplicates once and in order, and the rules
    of other instances stay: when the row of the caller's instance can be written at all,
    no rule that passed the normalisation makes the tables refuse the replacement. *)
Theorem accepted_rules_read_back t t' a (id : Z) mode status w seen l rules d d1 r :
  normalizeRules l = Ok rules ->
  sql_update_instance id (Some a) (row_acl mode status w seen t) d = Ok (Some r, d1) ->
  exists info back d',
    run (ReplaceInstanceACL a id mode status w seen rules) (fine_env t) d = (Ok info, d') /\
    run (GetInstanceByIDForUser a id) (fine_env t') d' = (Ok back, d') /\
    in_Rules info = rules /\ in_Rules back = rules /\ keeps_other_rules id d d'.
Proof.
  intros (Hk & Hn & Hs & _)%normalizeRules_spec Hrow.
  destruct (replaced_end _ _ _ _ _ _ _ _ _ _ _ Hrow Hk Hn Hs) as (d' & Hend & Hr & Ho & Hi).
  pose proof (replaced_row _ _ _ _ _ _ _ _ _ _ Hrow) as (_ & _ & Ha).
  destruct (enrichInstance_read t (with_rules rules (instance_info (id, r))) d') as (info & Hinfo & Hir & _).
  destruct (loadInstance_shows t' (by_id_owned a id) d' (id, r)) as (back & Hback & Hbr).
  { unfold by_id_owned. by rewrite Hi, Ha, String.eqb_refl. }
  cbn in Hir, Hbr. exists info, back, d'. rewrite Hir, Hbr, Hr. split; [|split; [|done]].
  - by eapply run_tx_read; [exact Hend|].
  - unfold run, GetInstanceByIDForUser. by destruct (Hback 0%nat) as [n' ->].
Qed.

Definition demo_rules : list ACLRule :=
  [mkRule "email_domain" "Example.COM "; mkRule " api_key" "SK-0123abcd"; mkRule "email_domain" "example.com"].
Definition demo_filed : list ACLRule := [mkRule "api_key" "sk-0123abcd"; mkRule "email_domain" "example.com"].
Definition demo_instance : InstanceRow :=
  mkInstanceRow "a1" "peer" "box" "W1" "public" "peer" 1 "active" (Some "W1"%string) (Some 5) 5 5.
Definition demo_home : dir :=
  set_acl_rules {[ (7, "wallet"%string, "W9"%string); (8, "wallet"%string, "W9"%string) ]}
    (set_instances {[ 7 := demo_instance ]} (set_user_wallets {[ 1 := mkWalletRow "a1" "W1" true 5 ]} empty_dir)).
Lemma accepted_rules_read_back_witness : exists info back d',
  run (ReplaceInstanceACL "a1" 7 "restricted" "active" (Some "W1"%string) (Some 9) demo_filed) (fine_env 9) demo_home
    = (Ok info, d') /\
  run (GetInstanceByIDForUser "a1" 7) (fine_env 10) d' = (Ok back, d') /\
  in_Rules info = demo_filed /\ in_Rules back = demo_filed /\ keeps_other_rules 7 demo_home d'.
Proof.
  eapply (accepted_rules_read_back 9 10 "a1" 7 "restricted" "active" (Some "W1"%string) (Some 9) demo_rules demo_filed demo_home);
    vm_compute; reflexivity.
Defined.

(** ** Names *)
Lemma slug_chars_spec n l : forall i, (i + length l = n)%nat -> l <> [] ->
  slug_chars i n l =
  forallb (fun c => slug_char c || is_char 45 c) l &&
  (if (i =? 0)%nat then match l with c :: _ => slug_char c | [] => false end else true) &&
  match last l with Some c => slug_char c | None => false end.
Proof.
  assert (Hs : forall c, is_lower c || is_digit c = slug_char c) by done.
  assert (Hd : forall c, slug_char c = true -> is_char 45 c = false).
  { intros c. unfold slug_char, is_char. intros H. apply Z.eqb_neq. intros E. rewrite E in H. done. }
  induction l as [|c l IH]; intros i Hi Hl; [done|]. simpl in Hi. cbn [slug_chars forallb last].
  rewrite Hs. destruct l as [|c2 l].
  - simpl in *. replace (i <? n - 1)%nat with false by (symmetry; apply Nat.ltb_ge; lia).
    destruct (slug_char c), (is_char 45 c), (i =? 0)%nat; simpl; by rewrite ?andb_false_r.
  - rewrite (IH (S i)) by (simpl in *; lia || done). simpl in Hi. cbn [Nat.eqb].
    replace (i <? n - 1)%nat with true by (symmetry; apply Nat.ltb_lt; lia).
    destruct (Nat.eqb_spec i 0) as [->|Hn].
    + simpl. destruct (slug_char c), (is_char 45 c); simpl; rewrite ?andb_true_r, ?andb_false_r; done.
    + replace (0 <? i)%nat with true by (symmetry; apply Nat.ltb_lt; lia). rewrite !andb_true_r. by rewrite andb_assoc.
Qed.
Lemma slug_ok_chars s : (1 <=? length (chars_of s))%nat && (length (chars_of s) <=? 64)%nat &&
  slug_chars 0 (length (chars_of s)) (chars_of s) = slug_ok s.
Proof.
  unfold slug_ok. destruct (chars_of s) as [|c l] eqn:E; [done|]. rewrite <- E.
  rewrite slug_chars_spec by (rewrite ?E; done). rewrite !E. cbn [Nat.eqb].
  change (fun c0 => slug_char c0 || (ascii_Z c0 =? 45)) with (fun c0 => slug_char c0 || is_char 45 c0).
  destruct (forallb _ _), (slug_char c), (match last _ with Some _ => _ | None => _ end); by rewrite ?andb_true_r, ?andb_false_r.
Qed.
Lemma normalizeSlug_fits v : normalizeSlug v = if slug_ok (folded v) then folded v else ""%string.
Proof.
  unfold normalizeSlug. rewrite <- slug_ok_chars.
  generalize (chars_of (folded v)) as l. intros l.
  destruct (Nat.eqb_spec (length l) 0), (Nat.ltb_spec 64 (length l)), (Nat.leb_spec 1 (length l)),
    (Nat.leb_spec (length l) 64); try lia; done.
Qed.

Lemma service_chars c : (is_upper c || is_lower c || is_digit c) || is_char 46 c || is_char 95 c || is_char 45 c =
  service_char c || one_of (text_of [c]) ["."; "_"; "-"]%string.
Proof. destruct c as [[] [] [] [] [] [] [] []]; vm_compute; reflexivity. Qed.
Lemma forallb_ext_all {A} (f g : A -> bool) l : (forall x, f x = g x) -> forallb f l = forallb g l.
Proof. intros H. induction l as [|x l IH]; [done|]. simpl. by rewrite H, IH. Qed.
Lemma validServiceName_fits v : validServiceName v = service_name_ok v.
Proof.
  unfold validServiceName, service_name_ok.
  assert (Hp : forall c, is_upper c || is_lower c || is_digit c = service_char c) by done.
  destruct (String.eqb_spec v "") as [->|Hv]; [done|].
  destruct (chars_of v) as [|c l] eqn:E; [by destruct v|]. cbn [negb andb forallb]. rewrite Hp.
  destruct (service_char c); [|by rewrite ?andb_false_r]. cbn [orb andb]. rewrite andb_true_r. f_equal. clear E.
  by apply forallb_ext_all, service_chars.
Qed.

Lemma one_name_of names v : one_name names v = ""%string \/ one_of (one_name names v) names = true.
Proof. unfold one_name. destruct (one_of (folded v) names) eqn:E; auto. Qed.

(** the names, modes and roles the handlers let through are those the tables' CHECK
    constraints let in: a service name exactly when the constraint holds of it, a region's
    slug exactly when it holds of the trimmed, lower-case text, and an access mode, a
    policy scope, a service's access mode or a role only as one of the constraint's values. *)
Theorem accepted_names_fit v :
  validServiceName v = service_name_ok v /\
  normalizeSlug v = (if slug_ok (folded v) then folded v else ""%string) /\
  (normalizeMode v = ""%string \/ one_of (normalizeMode v) ["public"; "restricted"]%string = true) /\
  (normalizePolicyScope v = ""%string \/ one_of (normalizePolicyScope v) ["peer"; "service"]%string = true) /\
  (normalizeServiceAccessMode v = ""%string \/
    one_of (normalizeServiceAccessMode v) [AccessModeInherit; AccessModePublic; AccessModeRestricted] = true) /\
  (normalizeNodeRole v = ""%string \/ one_of (normalizeNodeRole v) node_roles = true) /\
  (normalizeManagedMembershipStatus v = ""%string \/
    one_of (normalizeManagedMembershipStatus v) membership_statuses = true).
Proof.
  split; [apply validServiceName_fits|]. split; [apply normalizeSlug_fits|].
  repeat (split; [apply one_name_of|]).
  unfold normalizeManagedMembershipStatus, one_name.
  destruct (one_of (folded v) _) eqn:E; [right|by left].
  unfold one_of, membership_statuses in *. rewrite bool_decide_eq_true in E |- *. set_solver.
Qed.
