(* ===== verification/WalletsApi.v ===== *)
(** * internal/walletsapi: the account's wallet

    A wallet is linked by signing a challenge that was made for the account; the deposits
    that it had sent before are then credited.  The adapter between the deposit store and
    the handler is cmd/server's [depositReconciler]. *)
From Stdlib Require Import ZArith Lia Strings.Ascii Strings.String.
From stdpp Require Import base gmap strings list.
From S2P Require Import Prelude Sha256 Base58 Tx Schema BillingStore DepositStore Worker GoText Json Base64 AclTypes Solana DirSchema Directory Jwt Http Mesh BillingApi.

Open Scope Z_scope.
Local Open Scope worker_scope.
Local Open Scope go_scope.

Module WalletsApi.
Definition maxBodyBytes : Z := 4096.
Definition challengeTTL : Z := 5 * 60 * second.

Record WalletService := mkWalletService { ws_reconciler : bool; ws_identityMaxAge : Z }.
Definition New (identityMaxAge : Z) : WalletService := mkWalletService false identityMaxAge.
(** With a nil reconciler it changes nothing. *)
Definition WithReconciler (r : bool) (s : WalletService) : WalletService := mkWalletService r (ws_identityMaxAge s).

(** ** Requests and answers *)
Record walletResponse := mkWalletResponse { wr_ID : Z; wr_Wallet : string; wr_Primary : bool; wr_CreatedAt : time }.
Definition wallet_response (i : WalletInfo) : walletResponse :=
  mkWalletResponse (wi_ID i) (wi_Wallet i) (wi_Primary i) (wi_CreatedAt i).
Record identitySnapshot := mkIdentitySnapshot {
  si_Email : string; si_EmailDomain : string; si_EmailVerified : bool; si_LastVerifiedAt : option time;
  si_ExpiresAt : option time; si_MaxAgeSeconds : Z }.
Record listResponse := mkListResponse { lr_Wallets : list walletResponse; lr_Identity : identitySnapshot }.
Definition dec_challengeRequest : decoder string := strict_struct [ ("wallet"%string, dec_string) ].
Record challengeResponse := mkChallenge { cn_ID : string; cn_Message : string; cn_ExpiresAt : time }.
Record linkRequest := mkLink { lq_ChallengeID : string; lq_Signature : string }.
Definition dec_linkRequest : decoder linkRequest := strict_struct [
  fld "challenge_id" lq_ChallengeID (fun v q => mkLink v (lq_Signature q)) dec_string;
  fld "signature" lq_Signature (fun v q => mkLink (lq_ChallengeID q) v) dec_string ]%string.

(** Who asks: the empty name when the middleware stored none. *)
Definition userID (r : request) : string := default ""%string (principal_UserID r).

Section Handlers.
Context `{Ed25519} `{surroundings}.
Implicit Types (s : WalletService) (r : request).

(** [identitySnapshot] *)
Definition identity_snapshot (maxAge : Z) (accountID : string) : W site identitySnapshot :=
  let none := mkIdentitySnapshot "" "" false None None (Z.quot maxAge second) in
  let*? info := callDir (GetIdentity accountID) in
  wret match info with
  | Err _ => none
  | Ok i => mkIdentitySnapshot (id_Email i) (id_EmailDomain i) (id_EmailVerified i) (Some (id_LastVerifiedAt i))
      (if maxAge >? 0 then Some (id_LastVerifiedAt i + maxAge) else None) (Z.quot maxAge second)
  end.

Definition handleList s r : W site (reply listResponse) :=
  or_unavailable (callDir (ListWalletsByUser (userID r))) (fun wallets =>
  let* identity := identity_snapshot (ws_identityMaxAge s) (userID r) in
  wret (WriteJSON 200 (mkListResponse (map wallet_response wallets) identity))).

Definition handleChallenge s r : W site (reply challengeResponse) :=
  match DecodeStrict maxBodyBytes dec_challengeRequest "" r with
  | Err _ => wret (http_error 400 "invalid JSON body")
  | Ok w =>
    match NormalizeWallet w with
    | Err _ => wret (http_error 400 "invalid wallet")
    | Ok wallet =>
      let* now := timeNow in
      or_unavailable (randomString 18) (fun id =>
      or_unavailable (randomString 24) (fun nonce =>
      let expiresAt := now + challengeTTL in
      let message := BuildChallengeMessage (userID r) wallet nonce now expiresAt in
      or_unavailable (callDir (CreateWalletChallenge (mkWalletChallenge id (userID r) wallet nonce message now expiresAt)))
        (fun _ => wret (WriteJSON 200 (mkChallenge id message expiresAt)))))
    end
  end.

(** The answers to a challenge, and to a link, that are refused. *)
Definition consume_refusal {A} (e : err) : W site (reply A) :=
  if errors_is e ErrChallengeExpired then wret (http_error 409 "challenge expired")
  else if errors_is e ErrChallengeConsumed then wret (http_error 409 "challenge already used")
  else if errors_is e ErrStoreNotFound then wret (http_error 404 "challenge not found")
  else service_unavailable.
Definition link_refusal {A} (e : err) : W site (reply A) :=
  if errors_is e ErrWalletAlreadyLinked then wret (http_error 409
    "account already has a linked wallet; one account operates a single wallet for all its peers")
  else if errors_is e ErrWalletOtherAccount then wret (http_error 409 "wallet already linked to another account")
  else if errors_is e ErrStoreConflict then wret (http_error 409 "wallet already linked")
  else service_unavailable.

(** [depositReconciler.ReconcileDepositsForWallet], its result logged. *)
Definition reconcile_deposits s (wallet account : string) : W site unit :=
  if ws_reconciler s then
    let* now := timeNow in
    let*? _ := callStore (ReconcileDepositsForWallet wallet account now) in wret tt
  else wret tt.

Definition handleLink s r : W site (reply walletResponse) :=
  match DecodeStrict maxBodyBytes dec_linkRequest (mkLink "" "") r with
  | Err _ => wret (http_error 400 "invalid JSON body")
  | Ok req =>
    if String.eqb (lq_ChallengeID req) "" || String.eqb (lq_Signature req) ""
    then wret (http_error 400 "invalid JSON body") else
    let*? ch := callDir (GetWalletChallenge (userID r) (lq_ChallengeID req)) in
    match ch with
    | Err e => if errors_is e ErrStoreNotFound then wret (http_error 404 "challenge not found") else service_unavailable
    | Ok ch =>
      match VerifySignature (wh_Wallet ch) (wh_Message ch) (lq_Signature req) with
      | Err _ => wret (http_error 422 "signature verification failed")
      | Ok _ =>
        let* now := timeNow in
        let*? consumed := callDir (ConsumeWalletChallenge (userID r) (lq_ChallengeID req) now) in
        match consumed with
        | Err e => consume_refusal e
        | Ok _ =>
          let*? info := callDir (LinkWallet (userID r) (wh_Wallet ch)) in
          match info with
          | Err e => link_refusal e
          | Ok info =>
            let* _ := reconcile_deposits s (wh_Wallet ch) (userID r) in
            wret (WriteJSON 201 (wallet_response info))
          end
        end
      end
    end
  end.

Definition handleDelete s r : W site (reply unit) :=
  match ParseInt (h_PathValue r "id") with
  | Err _ => wret (http_error 400 "invalid wallet id")
  | Ok id =>
    let*? changed := callDir (DeleteWalletByIDForUser (userID r) id) in
    match changed with
    | Err e =>
      if errors_is e ErrWalletInUse then wret (http_error 409 "wallet is still proving an active instance")
      else service_unavailable
    | Ok changed => if negb changed then wret (http_error 404 "not found") else wret (WriteHeader 204)
    end
  end.

(** [UserWalletSet]: the wallets as a set. *)
Definition UserWalletSet (accountID : string) : W site (gset string) :=
  let* wallets := callDir (GetUserWalletSet accountID) in wret (list_to_set wallets).
End Handlers.
End WalletsApi.
