(* ===== verification/InstancesApi.v ===== *)
(** * internal/instancesapi: the account's instances and their policies

    api.go: registering a peer, taking it over, its label, mode and rules.  services.go:
    the policy of each of its services.  Whatever changes an instance that has been seen
    with a wallet first looks the peer up again. *)
From Stdlib Require Import ZArith Lia Strings.Ascii Strings.String.
From stdpp Require Import base gmap strings list fin_maps.
From S2P Require Import Prelude Sha256 Base58 Tx Schema BillingStore Worker GoText Json Base64 AclTypes Solana DirSchema Directory Regions Pricing Jwt Http Mesh BillingApi Inputs WalletsApi.

Open Scope Z_scope.
Local Open Scope worker_scope.
Local Open Scope go_scope.

Module InstancesApi.
Import WalletsApi.
Definition maxBodyBytes : Z := 16384.
Definition maxLabelLen : Z := 200.

Record InstanceService := mkInstanceService { xs_identityMaxAge : Z; xs_ownershipMaxAge : Z }.

(** ** Requests *)
Record createRequest := mkCreateRequest { cq_PeerID : string; cq_Label : string }.
Definition dec_createRequest : decoder createRequest := strict_struct [
  fld "peer_id" cq_PeerID (fun v q => mkCreateRequest v (cq_Label q)) dec_string;
  fld "label" cq_Label (fun v q => mkCreateRequest (cq_PeerID q) v) dec_string ]%string.
Record patchRequest := mkPatchRequest { pq_Label : option string; pq_Mode : string }.
Definition dec_patchRequest : decoder patchRequest := strict_struct [
  fld "label" pq_Label (fun v q => mkPatchRequest v (pq_Mode q)) (dec_ptr ""%string dec_string);
  fld "mode" pq_Mode (fun v q => mkPatchRequest (pq_Label q) v) dec_string ]%string.
Definition dec_rule : decoder ACLRule := strict_struct [
  fld "Kind" Kind (fun v r => mkRule v (Value r)) dec_string;
  fld "Value" Value (fun v r => mkRule (Kind r) v) dec_string ]%string.
Definition dec_rules : decoder (list ACLRule) := dec_slice (mkRule "" "") dec_rule.
Record aclRequest := mkAclRequest { lq_Mode : string; lq_Rules : list ACLRule }.
Definition dec_aclRequest : decoder aclRequest := strict_struct [
  fld "mode" lq_Mode (fun v q => mkAclRequest v (lq_Rules q)) dec_string;
  fld "rules" lq_Rules (fun v q => mkAclRequest (lq_Mode q) v) dec_rules ]%string.
(** [replaceServiceACLRequest] *)
Definition dec_serviceACLRequest : decoder aclRequest := strict_struct [
  fld "access_mode" lq_Mode (fun v q => mkAclRequest v (lq_Rules q)) dec_string;
  fld "rules" lq_Rules (fun v q => mkAclRequest (lq_Mode q) v) dec_rules ]%string.
Record replaceServicePolicyEntry := mkPolicyEntry {
  pe_ServiceName : string; pe_Exposure : string; pe_RegionID : option Z; pe_AccessMode : string; pe_Rules : list ACLRule }.
Definition zeroPolicyEntry : replaceServicePolicyEntry := mkPolicyEntry "" "" None "" [].
Definition dec_policyEntry : decoder replaceServicePolicyEntry := strict_struct [
  fld "service_name" pe_ServiceName (fun v e => mkPolicyEntry v (pe_Exposure e) (pe_RegionID e) (pe_AccessMode e) (pe_Rules e)) dec_string;
  fld "exposure" pe_Exposure (fun v e => mkPolicyEntry (pe_ServiceName e) v (pe_RegionID e) (pe_AccessMode e) (pe_Rules e)) dec_string;
  fld "region_id" pe_RegionID (fun v e => mkPolicyEntry (pe_ServiceName e) (pe_Exposure e) v (pe_AccessMode e) (pe_Rules e)) (dec_ptr 0 dec_int64);
  fld "access_mode" pe_AccessMode (fun v e => mkPolicyEntry (pe_ServiceName e) (pe_Exposure e) (pe_RegionID e) v (pe_Rules e)) dec_string;
  fld "rules" pe_Rules (fun v e => mkPolicyEntry (pe_ServiceName e) (pe_Exposure e) (pe_RegionID e) (pe_AccessMode e) v) dec_rules ]%string.
Record replaceServicesRequest := mkServicesRequest {
  vq_PolicyScope : string; vq_AcknowledgeScopeReset : bool; vq_Services : list replaceServicePolicyEntry }.
Definition dec_replaceServicesRequest : decoder replaceServicesRequest := strict_struct [
  fld "policy_scope" vq_PolicyScope (fun v q => mkServicesRequest v (vq_AcknowledgeScopeReset q) (vq_Services q)) dec_string;
  fld "acknowledge_scope_reset" vq_AcknowledgeScopeReset (fun v q => mkServicesRequest (vq_PolicyScope q) v (vq_Services q)) Peers.dec_bool;
  fld "services" vq_Services (fun v q => mkServicesRequest (vq_PolicyScope q) (vq_AcknowledgeScopeReset q) v) (dec_slice zeroPolicyEntry dec_policyEntry) ]%string.

(** ** Answers *)
Record instanceResponse := mkInstanceResponse {
  nr_ID : Z; nr_PeerID : string; nr_Label : string; nr_OwnerWallet : string; nr_Mode : string; nr_PolicyScope : string;
  nr_PolicyRevision : Z; nr_OwnershipStatus : string; nr_OwnershipObservedAt : option time; nr_Online : bool;
  nr_Rules : list ACLRule; nr_CreatedAt : time; nr_UpdatedAt : time }.
Definition instanceToResponse (i : InstanceInfo) (online : bool) : instanceResponse :=
  mkInstanceResponse (in_ID i) (in_PeerID i) (in_Label i) (in_OwnerWallet i) (in_AccessMode i) (in_PolicyScope i)
    (in_PolicyRevision i) (in_OwnershipStatus i) (in_OwnershipObservedAt i) online (in_Rules i) (in_CreatedAt i) (in_UpdatedAt i).
Record listResponse := mkInstanceList { nl_Instances : list instanceResponse; nl_Identity : identitySnapshot }.
Record servicePolicyResponse := mkServicePolicyResponse {
  vr_ID : Z; vr_ServiceName : string; vr_Exposure : string; vr_RegionID : option Z; vr_RegionSlug : option string;
  vr_AccessMode : string; vr_ServicePolicyRevision : Z; vr_ObservedPresent : bool; vr_ObservedLastSeenAt : option time;
  vr_Rules : list ACLRule }.
Definition servicePolicyToResponse (s : AclTypes.InstanceService) : servicePolicyResponse :=
  mkServicePolicyResponse (is_ID s) (is_ServiceName s) (is_Exposure s) (is_RegionID s) (is_RegionSlug s) (is_AccessMode s)
    (is_ServicePolicyRevision s) (is_ObservedPresent s) (is_ObservedLastSeenAt s) (is_Rules s).
Record servicePolicyListResponse := mkServicePolicyList {
  vl_InstanceID : Z; vl_PolicyScope : string; vl_PolicyRevision : Z; vl_SupportsServicePolicyV2 : bool;
  vl_ObservedAt : option time; vl_Services : list servicePolicyResponse }.

(** ** What the peer advertises *)
Definition servicePolicyCapability : string := "service-policy-v2".
Definition count_service (m : gmap string Z) (s : ServiceObservation) : gmap string Z :=
  <[so_Name s := default 0 (m !! so_Name s) + 1]> m.
(** The services in the order of the map. *)
Definition buildInventory (obs : PeerObservation) : ServiceInventory :=
  if IsZero (ob_ObservedAt obs) then mkInventory zeroTime false [] else
  mkInventory (ob_ObservedAt obs) (bool_decide (servicePolicyCapability ∈ ob_Capabilities obs))
    (map (fun kv => mkObserved (fst kv) (snd kv)) (map_to_list (fold_left count_service (ob_Services obs) ∅))).
Definition observedAtPtr (inv : ServiceInventory) : option time :=
  if IsZero (iy_ObservedAt inv) then None else Some (iy_ObservedAt inv).
Definition policy_list (i : InstanceInfo) (inv : ServiceInventory) : servicePolicyListResponse :=
  mkServicePolicyList (in_ID i) (in_PolicyScope i) (in_PolicyRevision i) (iy_SupportsPolicyV2 inv) (observedAtPtr inv)
    (map servicePolicyToResponse (in_Services i)).

(** ** What the owner wants *)
Definition service_entry (item : replaceServicePolicyEntry) (seen : gset string) : res AclTypes.InstanceService :=
  let name := TrimSpace (pe_ServiceName item) in
  let exposure := folded (pe_Exposure item) in
  let accessMode := normalizeServiceAccessMode (pe_AccessMode item) in
  let trusted := String.eqb exposure ExposureTrustedRegion in
  if negb (validServiceName name) then Err (Errorf "invalid service_name")
  else if bool_decide (name ∈ seen) then Err (Errorf "duplicate service_name")
  else if negb (one_of exposure [ExposurePermissionless; ExposureTrustedRegion; ExposureDisabled])
  then Err (Errorf "invalid exposure")
  else if String.eqb accessMode "" then Err (Errorf "invalid access_mode")
  else if trusted && bool_decide (pe_RegionID item = None)
  then Err (Errorf "trusted_region exposure requires region_id")
  else if negb trusted && negb (bool_decide (pe_RegionID item = None))
  then Err (Errorf "region_id is only allowed for trusted_region exposure")
  else
    let? rules := normalizeRules (pe_Rules item) in
    Ok (mkService 0 0 name exposure (pe_RegionID item) None accessMode 0 false None zeroTime zeroTime rules).
Fixpoint service_entries (seen : gset string) (l : list replaceServicePolicyEntry) : res (list AclTypes.InstanceService) :=
  match l with
  | [] => Ok []
  | item :: rest =>
    let? s := service_entry item seen in
    let? out := service_entries ({[ is_ServiceName s ]} ∪ seen) rest in Ok (s :: out)
  end.
Definition normalizeServiceEntries : list replaceServicePolicyEntry -> res (list AclTypes.InstanceService) := service_entries ∅.

Section Handlers.
Context `{Ed25519} `{surroundings}.
Implicit Types (s : InstanceService) (r : request).

Definition observationFresh (maxAge : Z) (obs : PeerObservation) : W site bool :=
  if maxAge <=? 0 then wret true else let* t := timeNow in wret (Sub t (ob_ObservedAt obs) <=? maxAge).
Definition not_found {A} : W site (reply A) := wret (http_error 404 "not found").
(** The answer to a store error: [store.ErrNotFound], or any other. *)
Definition store_refusal {A} (e : err) : W site (reply A) :=
  if errors_is e ErrStoreNotFound then not_found else service_unavailable.
Definition or_refused {A B} (m : W site A) (k : A -> W site (reply B)) : W site (reply B) :=
  let*? x := m in match x with Ok a => k a | Err e => store_refusal e end.
Definition parseInstanceID {B} r (k : Z -> W site (reply B)) : W site (reply B) :=
  match ParseInt (h_PathValue r "id") with Ok id => k id | Err _ => wret (http_error 400 "invalid instance id") end.

(** ** The owner is still the owner *)
Definition with_ownership (status : string) (obs : PeerObservation) (i : InstanceInfo) : InstanceInfo :=
  mkInstance (in_ID i) (in_AccountID i) (in_PeerID i) (in_Label i) (in_OwnerWallet i) (in_AccessMode i) (in_PolicyScope i)
    (in_PolicyRevision i) status (Some (ob_Wallet obs)) (Some (ob_ObservedAt obs)) (in_CreatedAt i) (in_UpdatedAt i)
    (in_Rules i) (in_Membership i) (in_Services i).
(** The refusal, once the status has been written down, whatever becomes of it. *)
Definition noted {B} (userID : string) (id : Z) (i : InstanceInfo) (status : string) (obs : option PeerObservation) (text : string)
    : W site (reply B) :=
  let*? _ := callDir (UpdateInstanceMetadata userID id (in_Label i) (in_AccessMode i) status
    (ob_Wallet <$> obs) (ob_ObservedAt <$> obs)) in
  wret (http_error 409 text).
Definition requireCurrentOwnership {B} s (userID : string) (id : Z) (k : InstanceInfo -> W site (reply B)) : W site (reply B) :=
  or_refused (callDir (GetInstanceByIDForUser userID id)) (fun inst =>
  match in_ObservedWallet inst with
  | None => k inst
  | Some _ =>
    let*? obs := LookupPeer (in_PeerID inst) in
    match obs with
    | Err _ => noted userID id inst "unavailable" None "peer ownership currently unavailable"
    | Ok obs =>
      if negb (String.eqb (ob_Wallet obs) (in_OwnerWallet inst))
      then noted userID id inst "mismatch" (Some obs) "peer ownership no longer matches"
      else
        let* fresh := observationFresh (xs_ownershipMaxAge s) obs in
        if negb fresh then noted userID id inst "unavailable" (Some obs) "peer ownership currently unavailable"
        else k (with_ownership "active" obs inst)
    end
  end).

(** ** api.go *)
Definition unverified {A} (status : Z) : W site (reply A) := wret (http_error status "peer ownership could not be verified").
Definition claimed {A} : W site (reply A) := wret (http_error 409 "peer already claimed").
Definition new_instance (userID peerID label : string) (obs : PeerObservation) : InstanceInfo :=
  mkInstance 0 userID peerID label (ob_Wallet obs) "restricted" "" 0 "active" (Some (ob_Wallet obs)) (Some (ob_ObservedAt obs))
    zeroTime zeroTime [] None [].
(** The instance of the peer: taken over under its new wallet, or made. *)
Definition register (userID peerID label : string) (obs : PeerObservation) : W site (reply instanceResponse) :=
  let*? existing := callDir (GetInstanceByPeerID peerID) in
  match existing with
  | Ok existing =>
    if String.eqb (in_OwnerWallet existing) (ob_Wallet obs) then claimed else
    or_unavailable (callDir (ReclaimInstance (in_ID existing) userID (ob_Wallet obs) (Some (ob_Wallet obs)) (Some (ob_ObservedAt obs))))
      (fun reclaimed => wret (WriteJSON 201 (instanceToResponse reclaimed true)))
  | Err e =>
    if negb (errors_is e ErrStoreNotFound) then service_unavailable else
    let*? created := callDir (CreateInstance (new_instance userID peerID label obs)) in
    match created with
    | Err e => if errors_is e ErrStoreConflict then claimed else service_unavailable
    | Ok created => wret (WriteJSON 201 (instanceToResponse created true))
    end
  end.
Definition handleCreate s r : W site (reply instanceResponse) :=
  match DecodeStrict maxBodyBytes dec_createRequest (mkCreateRequest "" "") r with
  | Err _ => wret (http_error 400 "invalid JSON body")
  | Ok req =>
    let peerID := TrimSpace (cq_PeerID req) in
    if negb (ValidPeerID peerID) then wret (http_error 400 "invalid peer_id")
    else if slen (cq_Label req) >? maxLabelLen then wret (http_error 400 "label too long") else
    let*? obs := LookupPeer peerID in
    match obs with
    | Err e => unverified (if negb (errors_is e ErrPeerUnavailable) && negb (errors_is e ErrPeerUnverifiable) then 503 else 422)
    | Ok obs =>
      let* fresh := observationFresh (xs_ownershipMaxAge s) obs in
      if negb fresh then unverified 422 else
      or_unavailable (UserWalletSet (userID r)) (fun wallets =>
      if negb (bool_decide (ob_Wallet obs ∈ wallets)) then wret (http_error 422 "peer wallet is not linked")
      else register (userID r) peerID (cq_Label req) obs)
    end
  end.

Definition handleList s r : W site (reply listResponse) :=
  or_unavailable (callDir (ListInstancesByUser (userID r))) (fun l =>
  or_unavailable (if bool_decide (l = []) then wret ∅ else OnlineStatus (map in_PeerID l)) (fun statuses =>
  let* identity := identity_snapshot (xs_identityMaxAge s) (userID r) in
  wret (WriteJSON 200 (mkInstanceList
    (map (fun i => instanceToResponse i (default false (statuses !! in_PeerID i))) l) identity)))).

Definition handlePatch s r : W site (reply instanceResponse) := parseInstanceID r (fun id =>
  match DecodeStrict maxBodyBytes dec_patchRequest (mkPatchRequest None "") r with
  | Err _ => wret (http_error 400 "invalid JSON body")
  | Ok req =>
    let given := negb (String.eqb (TrimSpace (pq_Mode req)) "") in
    let mode := if given then normalizeMode (pq_Mode req) else ""%string in
    if given && String.eqb mode "" then wret (http_error 400 "invalid mode")
    else if match pq_Label req with Some l => slen l >? maxLabelLen | None => false end
    then wret (http_error 400 "label too long") else
    requireCurrentOwnership s (userID r) id (fun inst =>
    let mode := if String.eqb mode "" then in_AccessMode inst else mode in
    let label := match pq_Label req with Some l => l | None => in_Label inst end in
    or_refused (callDir (UpdateInstanceMetadata (userID r) id label mode (in_OwnershipStatus inst) (in_ObservedWallet inst)
      (in_OwnershipObservedAt inst))) (fun updated => wret (WriteJSON 200 (instanceToResponse updated true))))
  end).

Definition handleReplaceACL s r : W site (reply instanceResponse) := parseInstanceID r (fun id =>
  match DecodeStrict maxBodyBytes dec_aclRequest (mkAclRequest "" []) r with
  | Err _ => wret (http_error 400 "invalid JSON body")
  | Ok req =>
    let mode := normalizeMode (lq_Mode req) in
    if String.eqb mode "" then wret (http_error 400 "invalid mode") else
    match normalizeRules (lq_Rules req) with
    | Err e => wret (http_error 400 (error_text e))
    | Ok rules =>
      requireCurrentOwnership s (userID r) id (fun inst =>
      or_refused (callDir (ReplaceInstanceACL (userID r) id mode (in_OwnershipStatus inst) (in_ObservedWallet inst)
        (in_OwnershipObservedAt inst) rules)) (fun updated => wret (WriteJSON 200 (instanceToResponse updated true))))
    end
  end).

Definition handleDelete r : W site (reply unit) := parseInstanceID r (fun id =>
  or_unavailable (callDir (DeleteInstanceByIDForUser (userID r) id)) (fun changed =>
  if negb changed then not_found else wret (WriteHeader 204))).

(** ** services.go *)
Definition handleListServices s r : W site (reply servicePolicyListResponse) := parseInstanceID r (fun id =>
  requireCurrentOwnership s (userID r) id (fun inst =>
  or_refused (callDir (GetInstanceServicesForUser (userID r) (in_ID inst))) (fun loaded =>
  or_unavailable (LookupPeer (in_PeerID inst)) (fun obs =>
  wret (WriteJSON 200 (policy_list loaded (buildInventory obs))))))).

Definition handleReplaceServices s r : W site (reply servicePolicyListResponse) := parseInstanceID r (fun id =>
  requireCurrentOwnership s (userID r) id (fun inst =>
  match DecodeStrict maxBodyBytes dec_replaceServicesRequest (mkServicesRequest "" false []) r with
  | Err _ => wret (http_error 400 "invalid JSON body")
  | Ok req =>
    let scope := normalizePolicyScope (vq_PolicyScope req) in
    if String.eqb scope "" then wret (http_error 400 "invalid policy_scope") else
    match normalizeServiceEntries (vq_Services req) with
    | Err e => wret (http_error 400 (error_text e))
    | Ok services =>
      or_unavailable (LookupPeer (in_PeerID inst)) (fun obs =>
      let inventory := buildInventory obs in
      if String.eqb scope PolicyScopeService && negb (iy_SupportsPolicyV2 inventory)
      then wret (http_error 409 "peer does not advertise service-policy-v2 capability")
      else if existsb (fun o => os_Count o >? 1) (iy_Services inventory)
      then wret (http_error 409 "duplicate live service names must be resolved first") else
      let*? updated := callDir (ReplaceInstanceServicePolicy (userID r) id
        (mkReplaceInput scope (vq_AcknowledgeScopeReset req) inventory services)) in
      match updated with
      | Err e =>
        if errors_is e ErrStoreNotFound then not_found
        else if errors_is e ErrStoreConflict then wret (http_error 409 "service policy transition rejected")
        else service_unavailable
      | Ok updated => wret (WriteJSON 200 (policy_list updated inventory))
      end)
    end
  end)).

Definition handleReplaceServiceACL s r : W site (reply servicePolicyResponse) := parseInstanceID r (fun id =>
  requireCurrentOwnership s (userID r) id (fun _ =>
  match ParseInt (h_PathValue r "service_id") with
  | Err _ => wret (http_error 400 "invalid service id")
  | Ok serviceID =>
    if serviceID <=? 0 then wret (http_error 400 "invalid service id") else
    match DecodeStrict maxBodyBytes dec_serviceACLRequest (mkAclRequest "" []) r with
    | Err _ => wret (http_error 400 "invalid JSON body")
    | Ok req =>
      let accessMode := normalizeServiceAccessMode (lq_Mode req) in
      if String.eqb accessMode "" then wret (http_error 400 "invalid access_mode") else
      match normalizeRules (lq_Rules req) with
      | Err e => wret (http_error 400 (error_text e))
      | Ok rules =>
        or_refused (callDir (ReplaceInstanceServiceACL (userID r) id serviceID accessMode rules))
          (fun updated => wret (WriteJSON 200 (servicePolicyToResponse updated)))
      end
    end
  end)).
End Handlers.
End InstancesApi.
