(* ===== verification/RegionsApi.v ===== *)
(** * internal/regionsapi: trusted regions, their members and invitations

    A region's owner makes regions and invitations; the owner of an instance accepts one
    with its token, while the peer is seen under the instance's wallet.  An error's text
    is its format. *)
From Stdlib Require Import ZArith Lia Strings.Ascii Strings.String.
From stdpp Require Import base gmap strings list.
From S2P Require Import Prelude Sha256 Base58 Tx Schema BillingStore Worker GoText Json Base64 AclTypes Solana DirSchema Directory Regions Jwt Http Mesh BillingApi Inputs WalletsApi InstancesApi.

Open Scope Z_scope.
Local Open Scope worker_scope.
Local Open Scope go_scope.

Module RegionsApi.
Import WalletsApi.
Definition maxBodyBytes : Z := 16384.
Definition defaultInviteTTL : Z := 15 * 60 * second.
Definition maxAdmissionNote : Z := 256.

Record RegionService := mkRegionService { xr_ownershipMaxAge : Z }.

(** ** Requests *)
Record createRegionRequest := mkCreateRegion { cg_Slug : string; cg_Name : string }.
Definition dec_createRegion : decoder createRegionRequest := strict_struct [
  fld "slug" cg_Slug (fun v q => mkCreateRegion v (cg_Name q)) dec_string;
  fld "name" cg_Name (fun v q => mkCreateRegion (cg_Slug q) v) dec_string ]%string.
Record patchRegionRequest := mkPatchRegion { pg_Name : option string; pg_Status : option string }.
Definition dec_patchRegion : decoder patchRegionRequest := strict_struct [
  fld "name" pg_Name (fun v q => mkPatchRegion v (pg_Status q)) (dec_ptr ""%string dec_string);
  fld "status" pg_Status (fun v q => mkPatchRegion (pg_Name q) v) (dec_ptr ""%string dec_string) ]%string.
Record createMemberRequest := mkCreateMember {
  cm_InstanceID : Z; cm_NodeRole : string; cm_ExpiresAt : option time; cm_AdmissionReason : string; cm_AutoAccept : bool }.
Definition zeroCreateMember : createMemberRequest := mkCreateMember 0 "" None "" false.
Definition dec_createMember : decoder createMemberRequest := strict_struct [
  fld "instance_id" cm_InstanceID (fun v q => mkCreateMember v (cm_NodeRole q) (cm_ExpiresAt q) (cm_AdmissionReason q) (cm_AutoAccept q)) dec_int64;
  fld "node_role" cm_NodeRole (fun v q => mkCreateMember (cm_InstanceID q) v (cm_ExpiresAt q) (cm_AdmissionReason q) (cm_AutoAccept q)) dec_string;
  fld "expires_at" cm_ExpiresAt (fun v q => mkCreateMember (cm_InstanceID q) (cm_NodeRole q) v (cm_AdmissionReason q) (cm_AutoAccept q)) (dec_ptr zeroTime dec_time);
  fld "admission_reason" cm_AdmissionReason (fun v q => mkCreateMember (cm_InstanceID q) (cm_NodeRole q) (cm_ExpiresAt q) v (cm_AutoAccept q)) dec_string;
  fld "auto_accept" cm_AutoAccept (fun v q => mkCreateMember (cm_InstanceID q) (cm_NodeRole q) (cm_ExpiresAt q) (cm_AdmissionReason q) v) Peers.dec_bool ]%string.
Record patchMemberRequest := mkPatchMember {
  pm_Action : string; pm_NodeRole : option string; pm_Status : option string; pm_ExpiresAt : option time;
  pm_AcceptanceToken : string }.
Definition zeroPatchMember : patchMemberRequest := mkPatchMember "" None None None "".
Definition dec_patchMember : decoder patchMemberRequest := strict_struct [
  fld "action" pm_Action (fun v q => mkPatchMember v (pm_NodeRole q) (pm_Status q) (pm_ExpiresAt q) (pm_AcceptanceToken q)) dec_string;
  fld "node_role" pm_NodeRole (fun v q => mkPatchMember (pm_Action q) v (pm_Status q) (pm_ExpiresAt q) (pm_AcceptanceToken q)) (dec_ptr ""%string dec_string);
  fld "status" pm_Status (fun v q => mkPatchMember (pm_Action q) (pm_NodeRole q) v (pm_ExpiresAt q) (pm_AcceptanceToken q)) (dec_ptr ""%string dec_string);
  fld "expires_at" pm_ExpiresAt (fun v q => mkPatchMember (pm_Action q) (pm_NodeRole q) (pm_Status q) v (pm_AcceptanceToken q)) (dec_ptr zeroTime dec_time);
  fld "acceptance_token" pm_AcceptanceToken (fun v q => mkPatchMember (pm_Action q) (pm_NodeRole q) (pm_Status q) (pm_ExpiresAt q) v) dec_string ]%string.

(** ** Answers *)
Record membershipResponse := mkMembershipResponse {
  hr_InstanceID : Z; hr_PeerID : string; hr_Label : string; hr_RegionID : Z; hr_RegionSlug : string; hr_RegionStatus : string;
  hr_NodeRole : string; hr_Status : string; hr_ExpiresAt : option time; hr_OwnershipVerifiedAt : option time;
  hr_MembershipRevision : Z; hr_TrustedServiceCount : Z; hr_CreatedAt : time; hr_UpdatedAt : time }.
Definition membershipToResponse (m : RegionMembership) : membershipResponse :=
  mkMembershipResponse (rm_InstanceID m) (rm_PeerID m) (rm_Label m) (rm_RegionID m) (rm_RegionSlug m) (rm_RegionStatus m)
    (rm_NodeRole m) (rm_Status m) (rm_ExpiresAt m) (rm_OwnershipVerifiedAt m) (rm_MembershipRevision m)
    (rm_TrustedServiceCount m) (rm_CreatedAt m) (rm_UpdatedAt m).
Record invitationResponse := mkInvitationResponse {
  jr_ID : Z; jr_RegionID : Z; jr_RegionSlug : string; jr_InstanceID : Z; jr_PeerID : string; jr_Label : string;
  jr_Status : string; jr_NodeRole : string; jr_ExpiresAt : time; jr_AcceptedAt : option time; jr_CancelledAt : option time;
  jr_CreatedAt : time; jr_UpdatedAt : time; jr_Token : string }.
(** Its token is empty; [handleCreateMember] fills it in. *)
Definition invitationToResponse (i : RegionInvitation) (token : string) : invitationResponse :=
  mkInvitationResponse (vi_ID i) (vi_RegionID i) (vi_RegionSlug i) (vi_InstanceID i) (vi_PeerID i) (vi_Label i) (vi_Status i)
    (vi_NodeRole i) (vi_ExpiresAt i) (vi_AcceptedAt i) (vi_CancelledAt i) (vi_CreatedAt i) (vi_UpdatedAt i) token.
Record regionResponse := mkRegionResponse {
  gr_ID : Z; gr_Slug : string; gr_Name : string; gr_Status : string; gr_RegionRevision : Z;
  gr_Members : list membershipResponse; gr_Invitations : list invitationResponse; gr_CreatedAt : time; gr_UpdatedAt : time }.
Definition region_with (ms : list RegionMembership) (vs : list RegionInvitation) (i : RegionInfo) : regionResponse :=
  mkRegionResponse (ri_ID i) (ri_Slug i) (ri_Name i) (ri_Status i) (ri_RegionRevision i) (map membershipToResponse ms)
    (map (fun v => invitationToResponse v "") vs) (ri_CreatedAt i) (ri_UpdatedAt i).
Definition regionToResponse : RegionInfo -> regionResponse := region_with [] [].
(** A created member is a membership or an invitation. *)
Inductive memberResponse := Member (m : membershipResponse) | Invited (i : invitationResponse).

Fixpoint findMembership (l : list RegionMembership) (instanceID : Z) : option RegionMembership :=
  match l with
  | [] => None
  | m :: rest => if rm_InstanceID m =? instanceID then Some m else findMembership rest instanceID
  end.

Section Handlers.
Context `{Ed25519} `{surroundings}.
Implicit Types (s : RegionService) (r : request).

Definition not_found {A} : W site (reply A) := wret (http_error 404 "not found").
Definition writeStoreErr {A} (e : err) : W site (reply A) :=
  if errors_is e ErrStoreNotFound then not_found
  else if errors_is e ErrStoreConflict then wret (http_error 409 "conflict")
  else service_unavailable.
Definition or_store_err {A B} (m : W site A) (k : A -> W site (reply B)) : W site (reply B) :=
  let*? x := m in match x with Ok a => k a | Err e => writeStoreErr e end.
Definition parseRegionID {B} r (k : Z -> W site (reply B)) : W site (reply B) :=
  match ParseInt (h_PathValue r "region_id") with
  | Ok id => if id <=? 0 then wret (http_error 400 "invalid region id") else k id
  | Err _ => wret (http_error 400 "invalid region id")
  end.
Definition parseRegionAndInstanceID {B} r (k : Z -> Z -> W site (reply B)) : W site (reply B) := parseRegionID r (fun region =>
  match ParseInt (h_PathValue r "instance_id") with
  | Ok id => if id <=? 0 then wret (http_error 400 "invalid instance id") else k region id
  | Err _ => wret (http_error 400 "invalid instance id")
  end).

(** ** Regions *)
Definition handleCreateRegion r : W site (reply regionResponse) :=
  match DecodeStrict maxBodyBytes dec_createRegion (mkCreateRegion "" "") r with
  | Err _ => wret (http_error 400 "invalid JSON body")
  | Ok req =>
    let slug := normalizeSlug (cg_Slug req) in
    if String.eqb slug "" || String.eqb (TrimSpace (cg_Name req)) "" then wret (http_error 400 "invalid region payload") else
    let*? created := callDir (CreateRegion
      (mkRegion 0 slug (TrimSpace (cg_Name req)) (userID r) "active" 0 zeroTime zeroTime)) in
    match created with
    | Err e => if errors_is e ErrStoreConflict then wret (http_error 409 "region slug already exists") else service_unavailable
    | Ok created => wret (WriteJSON 201 (regionToResponse created))
    end
  end.

Fixpoint with_members (owner : string) (l : list RegionInfo) (k : list regionResponse -> W site (reply (list regionResponse)))
    : W site (reply (list regionResponse)) :=
  match l with
  | [] => k []
  | i :: rest =>
    or_store_err (callDir (ListRegionMembershipsByOwner owner (ri_ID i))) (fun mi =>
    with_members owner rest (fun out => k (region_with (fst mi) (snd mi) i :: out)))
  end.
Definition handleListRegions r : W site (reply (list regionResponse)) :=
  or_unavailable (callDir (ListRegionsByOwner (userID r))) (fun items =>
  with_members (userID r) items (fun out => wret (WriteJSON 200 out))).

Definition handleGetRegion r : W site (reply regionResponse) := parseRegionID r (fun id =>
  or_store_err (callDir (GetRegionByIDForOwner (userID r) id)) (fun item => wret (WriteJSON 200 (regionToResponse item)))).

Definition region_statuses : list string := ["active"; "disabled"]%string.
Definition handlePatchRegion r : W site (reply regionResponse) := parseRegionID r (fun id =>
  or_store_err (callDir (GetRegionByIDForOwner (userID r) id)) (fun current =>
  match DecodeStrict maxBodyBytes dec_patchRegion (mkPatchRegion None None) r with
  | Err _ => wret (http_error 400 "invalid JSON body")
  | Ok req =>
    let name := match pg_Name req with Some n => TrimSpace n | None => ri_Name current end in
    if match pg_Name req with Some n => String.eqb (TrimSpace n) "" | None => false end
    then wret (http_error 400 "invalid name")
    else if match pg_Status req with Some st => negb (one_of (folded st) region_statuses) | None => false end
    then wret (http_error 400 "invalid status") else
    let status := match pg_Status req with Some st => folded st | None => ri_Status current end in
    or_store_err (callDir (UpdateRegion (userID r) id name status)) (fun updated =>
    wret (WriteJSON 200 (regionToResponse updated)))
  end)).

Definition handleDeleteRegion r : W site (reply unit) := parseRegionID r (fun id =>
  let*? changed := callDir (DeleteRegion (userID r) id) in
  match changed with
  | Err e =>
    if errors_is e ErrStoreConflict then wret (http_error 409 "region still has memberships or bindings") else service_unavailable
  | Ok changed => if negb changed then not_found else wret (WriteHeader 204)
  end).

(** ** Members *)
Definition observed_owner s (inst : InstanceInfo) : W site (option PeerObservation) :=
  let*? obs := LookupPeer (in_PeerID inst) in
  match obs with
  | Err _ => wret None
  | Ok obs =>
    let* fresh := InstancesApi.observationFresh (xr_ownershipMaxAge s) obs in
    wret (if negb fresh || negb (String.eqb (ob_Wallet obs) (in_OwnerWallet inst)) then None else Some obs)
  end.

Definition invitation_expiry (given : option time) : W site time :=
  let* now := timeNow in wret (match given with Some t => t | None => now + defaultInviteTTL end).

Definition acceptMembership s (userID : string) (regionID : Z) (inst : InstanceInfo) (nodeRole : string) (expiresAt : option time)
    : W site RegionMembership :=
  let* obs := LookupPeer (in_PeerID inst) in
  let* fresh := InstancesApi.observationFresh (xr_ownershipMaxAge s) obs in
  if negb fresh || negb (String.eqb (ob_Wallet obs) (in_OwnerWallet inst)) then wfail ErrStoreConflict else
  let* token := randomString 24 in
  let* expiry := invitation_expiry expiresAt in
  let*? invited := callDir (CreateRegionInvitation userID regionID (in_ID inst) nodeRole token expiry) in
  match invited with
  | Err e => if negb (errors_is e ErrStoreConflict) then wfail e
             else callDir (AcceptRegionInvitation userID regionID (in_ID inst) token (ob_ObservedAt obs))
  | Ok _ => callDir (AcceptRegionInvitation userID regionID (in_ID inst) token (ob_ObservedAt obs))
  end.

Definition invite r (regionID : Z) (nodeRole : string) (req : createMemberRequest) : W site (reply memberResponse) :=
  or_unavailable (randomString 24) (fun token =>
  let* expiresAt := invitation_expiry (cm_ExpiresAt req) in
  or_store_err (callDir (CreateRegionInvitation (userID r) regionID (cm_InstanceID req) nodeRole token expiresAt)) (fun invitation =>
  wret (WriteJSON 201 (Invited (invitationToResponse invitation token))))).

Definition handleCreateMember s r : W site (reply memberResponse) := parseRegionID r (fun regionID =>
  match DecodeStrict maxBodyBytes dec_createMember zeroCreateMember r with
  | Err _ => wret (http_error 400 "invalid JSON body")
  | Ok req =>
    let nodeRole := normalizeNodeRole (cm_NodeRole req) in
    if String.eqb nodeRole "" || (cm_InstanceID req <=? 0) || (slen (cm_AdmissionReason req) >? maxAdmissionNote)
    then wret (http_error 400 "invalid member payload") else
    let*? inst := callDir (GetInstanceByIDForUser (userID r) (cm_InstanceID req)) in
    match inst, cm_AutoAccept req with
    | Ok inst, true =>
      let*? accepted := acceptMembership s (userID r) regionID inst nodeRole (cm_ExpiresAt req) in
      match accepted with
      | Ok membership => wret (WriteJSON 201 (Member (membershipToResponse membership)))
      | Err e =>
        if errors_is e ErrStoreNotFound then invite r regionID nodeRole req
        else if errors_is e ErrStoreConflict then wret (http_error 409 "membership rejected")
        else service_unavailable
      end
    | _, _ => invite r regionID nodeRole req
    end
  end).

Definition handleListMembers r : W site (reply (list membershipResponse * list invitationResponse)) := parseRegionID r (fun id =>
  or_store_err (callDir (ListRegionMembershipsByOwner (userID r) id)) (fun mi =>
  wret (WriteJSON 200 (map membershipToResponse (fst mi), map (fun v => invitationToResponse v "") (snd mi))))).

Definition ownership_unavailable {A} : W site (reply A) := wret (http_error 409 "peer ownership currently unavailable").
Definition acceptance_refusal {A} (e : err) : W site (reply A) :=
  if errors_is e ErrStoreNotFound then not_found
  else if errors_is e ErrChallengeExpired then wret (http_error 409 "invitation expired")
  else if errors_is e ErrRegionMigrationConflict
  then wret (http_error 409 "remove trusted service bindings from the current region before migrating")
  else service_unavailable.
(** PATCH with the action accept *)
Definition accept_member s r (regionID instanceID : Z) (token : string) : W site (reply membershipResponse) :=
  or_store_err (callDir (GetInstanceByIDForUser (userID r) instanceID)) (fun inst =>
  let* obs := observed_owner s inst in
  match obs with
  | None => ownership_unavailable
  | Some obs =>
    let*? accepted := callDir (AcceptRegionInvitation (userID r) regionID instanceID token (ob_ObservedAt obs)) in
    match accepted with
    | Err e => acceptance_refusal e
    | Ok membership => wret (WriteJSON 200 (membershipToResponse membership))
    end
  end).

(** The role, status and expiry that a PATCH asks for; otherwise the text of its refusal. *)
Definition patched_status (action : string) (req : patchMemberRequest) (current : RegionMembership) : string + string :=
  match pm_Status req with
  | Some st => let status := normalizeManagedMembershipStatus st in
    if String.eqb status "" then inr "invalid status"%string else inl status
  | None =>
    if String.eqb action "suspend" then inl "suspended"%string
    else if String.eqb action "reactivate" then inl "active"%string
    else if String.eqb action "revoke" then inl "revoked"%string
    else if String.eqb action "" then
      match pm_NodeRole req, pm_ExpiresAt req with None, None => inr "invalid action"%string | _, _ => inl (rm_Status current) end
    else inr "invalid action"%string
  end.
Definition patched_expiry (status : string) (req : patchMemberRequest) (current : RegionMembership) : option time :=
  match pm_ExpiresAt req with
  | Some t => Some t
  | None => if String.eqb status "active" && String.eqb (rm_Status current) "expired" then None else rm_ExpiresAt current
  end.

(** An active membership comes back only while its peer is seen under its wallet. *)
Definition verify_again {B} s (instanceID : Z) (again : bool) (k : option time -> W site (reply B)) : W site (reply B) :=
  if negb again then k None else
  or_store_err (callDir (GetInstanceByID instanceID)) (fun inst =>
  let* obs := observed_owner s inst in
  match obs with None => ownership_unavailable | Some obs => k (Some (ob_ObservedAt obs)) end).

Definition update_member s r (regionID instanceID : Z) (action : string) (req : patchMemberRequest) : W site (reply membershipResponse) :=
  or_store_err (callDir (ListRegionMembershipsByOwner (userID r) regionID)) (fun mi =>
  match findMembership (fst mi) instanceID with
  | None => not_found
  | Some current =>
    let role := match pm_NodeRole req with Some v => normalizeNodeRole v | None => rm_NodeRole current end in
    if match pm_NodeRole req with Some v => String.eqb (normalizeNodeRole v) "" | None => false end
    then wret (http_error 400 "invalid node_role") else
    match patched_status action req current with
    | inr text => wret (http_error 400 text)
    | inl status =>
      let expiresAt := patched_expiry status req current in
      (* the clock is read when there is an expiry *)
      let* late := match expiresAt with
                   | Some t => let* now := timeNow in wret (negb (Before now t) && String.eqb status "active")
                   | None => wret false
                   end in
      if late then wret (http_error 400 "active membership expiry must be in the future") else
      verify_again s instanceID (String.eqb status "active" && negb (String.eqb (rm_Status current) "active")) (fun verifiedAt =>
      or_store_err (callDir (UpdateMembershipState (userID r) regionID instanceID role status expiresAt verifiedAt)) (fun updated =>
      wret (WriteJSON 200 (membershipToResponse updated))))
    end
  end).

Definition handlePatchMember s r : W site (reply membershipResponse) := parseRegionAndInstanceID r (fun regionID instanceID =>
  match DecodeStrict maxBodyBytes dec_patchMember zeroPatchMember r with
  | Err _ => wret (http_error 400 "invalid JSON body")
  | Ok req =>
    let action := folded (pm_Action req) in
    if String.eqb action "accept" then accept_member s r regionID instanceID (pm_AcceptanceToken req)
    else update_member s r regionID instanceID action req
  end).

(** The caller's own membership, of whatever region, or the region's invitation. *)
Definition handleDeleteMember r : W site (reply unit) := parseRegionAndInstanceID r (fun regionID instanceID =>
  let cancel := or_unavailable (callDir (CancelInvitationForOwner (userID r) regionID instanceID)) (fun changed =>
    if negb changed then not_found else wret (WriteHeader 204)) in
  let*? released := callDir (ReleaseMembership (userID r) instanceID) in
  match released with
  | Ok changed => if changed then wret (WriteHeader 204) else cancel
  | Err e =>
    if negb (errors_is e ErrStoreNotFound) && negb (errors_is e ErrStoreConflict) then service_unavailable
    else if errors_is e ErrStoreConflict then wret (http_error 409 "trusted service bindings must be removed first")
    else cancel
  end).
End Handlers.
End RegionsApi.
