(* ===== verification/Access.v ===== *)
(** * Who may come in: internal/cache, auth, neonauth, principal and keysvc

    The middlewares in front of the handlers and the service that mints and revokes API
    keys.  Beside its directory a process keeps the verdicts on the keys it has seen and
    the keys of the identity provider; a computation runs on these three. *)
From Stdlib Require Import ZArith Lia Strings.Ascii Strings.String.
From stdpp Require Import base gmap strings list fin_maps.
From S2P Require Import Prelude Sha256 Base58 Tx Schema BillingStore Worker GoText Json Base64 AclTypes DirSchema Directory Regions Keys Peers Jwt Http Mesh BillingApi Inputs WalletsApi InstancesApi.

Open Scope Z_scope.
Local Open Scope worker_scope.
Local Open Scope go_scope.

(** ** internal/cache/cache.go

    The clock's readings are arguments; [Get] reads it again before it removes an entry.
    The janitor runs [deleteExpired] now and then. *)
Module Cache.
Record entry (T : Type) := mkEntry { val : T; expiresAt : time }.
Arguments mkEntry {T} _ _.
Arguments val {T} _.
Arguments expiresAt {T} _.

Section Operations.
Context {T : Type}.
Notation cache := (gmap string (entry T)).
Definition Get (now again : time) (key : string) (c : cache) : option T * cache :=
  match c !! key with
  | None => (None, c)
  | Some e =>
    if After now (expiresAt e)
    then (None, if After again (expiresAt e) then delete key c else c)
    else (Some (val e), c)
  end.
Definition Set_ (now : time) (key : string) (v : T) (ttl : Z) (c : cache) : cache := <[key := mkEntry v (now + ttl)]> c.
Definition Delete (key : string) (c : cache) : cache := delete key c.
Definition Len (c : cache) : Z := Z.of_nat (size c).
Definition deleteExpired (now : time) (c : cache) : cache := filter (fun kv => After now (expiresAt (snd kv)) = false) c.
End Operations.
End Cache.

(** ** internal/auth: verdicts *)
Record Verdict := mkVerdict { vd_Valid : bool; vd_AccountID : string }.
Notation verdicts := (gmap string (Cache.entry Verdict)).

(** ** internal/neonauth/verifier.go: the identity provider's keys *)
Record jwks := mkJwks { jk_keys : option (gmap string bytes); jk_fetchedAt : time; jk_lastRefresh : time }.
Definition no_jwks : jwks := mkJwks None zeroTime zeroTime.

(** ** The process behind the door *)
Record door := mkDoor { dr_site : site; dr_cache : verdicts; dr_jwks : jwks }.
Definition on_site {A} (m : W site A) : W door A := fun o w =>
  let n := w_node w in
  let '(r, w') := m o (mkWorld (w_db w) (dr_site n) (w_calls w)) in
  (r, mkWorld (w_db w') (mkDoor (w_node w') (dr_cache n) (dr_jwks n)) (w_calls w')).
Definition on_cache {A} (f : verdicts -> A * verdicts) : W door A := callNode (fun n =>
  let '(a, c) := f (dr_cache n) in (Ok a, mkDoor (dr_site n) c (dr_jwks n))).
Definition get_jwks : W door jwks := callNode (fun n => (Ok (dr_jwks n), n)).
Definition set_jwks (k : jwks) : W door unit := callNode (fun n => (Ok tt, mkDoor (dr_site n) (dr_cache n) k)).

Record ValidatorConfig := mkValidator { va_posTTL : Z; va_negTTL : Z }.
Definition auth_bearer (header : string) : option string := named (bearerToken header).
(** [credential]: a bearer token wins over x-api-key. *)
Definition credential (r : request) : option string :=
  match auth_bearer (h_Header r "Authorization") with
  | Some token => Some token
  | None => named (Some (TrimSpace (h_Header r "X-Api-Key")))
  end.
(** [account.WithID] *)
Definition with_account (id : string) (r : request) : request :=
  mkHttp (h_Method r) (h_Principal r) (Some id) (h_Header r) (h_Query r) (h_PathValue r) (h_Body r) (h_BodyErr r).
Definition verdict_ttl (v : ValidatorConfig) (valid : bool) : Z := if valid then va_posTTL v else va_negTTL v.

(** ** internal/neonauth: tokens *)
Record NeonClaims := mkNeonClaims { ne_Subject : string; ne_Email : string; ne_EmailVerified : bool }.
Record neonPayload := mkPayload {
  np_Iss : string; np_Sub : string; np_Email : string; np_EmailVerified : bool; np_Aud : list string; np_Exp : Z; np_Nbf : Z }.
Definition zeroPayload : neonPayload := mkPayload "" "" "" false [] 0 0.
Definition leeway : Z := 60.
(** A string, null for the empty one, or a list of strings. *)
Definition dec_audience : decoder (list string) := fun _ j =>
  match dec_string "" j with
  | Ok s => Ok [s]
  | Err _ => match dec_slice "" dec_string [] j with
             | Ok l => Ok l
             | Err _ => Err (Errorf "aud: not a string or array")
             end
  end.
Definition dec_neonHeader : decoder (string * string) := dec_struct [
  fld "alg" fst (fun v h => (v, snd h)) dec_string; fld "kid" snd (fun v h => (fst h, v)) dec_string ]%string.
Definition dec_neonPayload : decoder neonPayload := dec_struct [
  fld "iss" np_Iss (fun v c => mkPayload v (np_Sub c) (np_Email c) (np_EmailVerified c) (np_Aud c) (np_Exp c) (np_Nbf c)) dec_string;
  fld "sub" np_Sub (fun v c => mkPayload (np_Iss c) v (np_Email c) (np_EmailVerified c) (np_Aud c) (np_Exp c) (np_Nbf c)) dec_string;
  fld "email" np_Email (fun v c => mkPayload (np_Iss c) (np_Sub c) v (np_EmailVerified c) (np_Aud c) (np_Exp c) (np_Nbf c)) dec_string;
  fld "emailVerified" np_EmailVerified (fun v c => mkPayload (np_Iss c) (np_Sub c) (np_Email c) v (np_Aud c) (np_Exp c) (np_Nbf c)) Peers.dec_bool;
  fld "aud" np_Aud (fun v c => mkPayload (np_Iss c) (np_Sub c) (np_Email c) (np_EmailVerified c) v (np_Exp c) (np_Nbf c)) dec_audience;
  fld "exp" np_Exp (fun v c => mkPayload (np_Iss c) (np_Sub c) (np_Email c) (np_EmailVerified c) (np_Aud c) v (np_Nbf c)) dec_int64;
  fld "nbf" np_Nbf (fun v c => mkPayload (np_Iss c) (np_Sub c) (np_Email c) (np_EmailVerified c) (np_Aud c) (np_Exp c) v) dec_int64 ]%string.

(** [time.Unix(sec, 0).Add(d)] of whole seconds: the first sum wraps, the second stops at
    the ends of int64. *)
Definition unix_plus (sec d : Z) : time :=
  (Z.max (- maxI64) (Z.min maxI64 (i64 (sec + unixToInternal) + d)) - unixToInternal) * second.

Record NeonVerifier := mkNeon { nv_issuer : string; nv_audience : string; nv_cacheTTL : Z; nv_minRefresh : Z }.
(** [neonauth.New] *)
Definition NewNeon (issuer audience : string) (cacheTTL : Z) : NeonVerifier := mkNeon issuer audience cacheTTL (60 * second).
Definition validateClaims (v : NeonVerifier) (now : time) (c : neonPayload) : res unit :=
  if np_Exp c =? 0 then Err (Errorf "neonauth: missing exp")
  else if After now (unix_plus (np_Exp c) leeway) then Err (Errorf "neonauth: token expired")
  else if negb (np_Nbf c =? 0) && Before now (unix_plus (np_Nbf c) (- leeway)) then Err (Errorf "neonauth: token not yet valid")
  else if negb (String.eqb (np_Iss c) (nv_issuer v)) then Err (Errorf "neonauth: unexpected issuer %q")
  else if String.eqb (np_Sub c) "" then Err (Errorf "neonauth: missing sub")
  else if negb (String.eqb (nv_audience v) "") && negb (bool_decide (nv_audience v ∈ np_Aud c))
  then Err (Errorf "neonauth: audience mismatch") else Ok tt.

(** The usable keys of a key set; the last of a name counts. *)
Record jwk := mkJwk { jw_Kty : string; jw_Crv : string; jw_Kid : string; jw_X : string }.
Definition zeroJwk : jwk := mkJwk "" "" "" "".
Definition dec_jwk : decoder jwk := dec_struct [
  fld "kty" jw_Kty (fun v k => mkJwk v (jw_Crv k) (jw_Kid k) (jw_X k)) dec_string;
  fld "crv" jw_Crv (fun v k => mkJwk (jw_Kty k) v (jw_Kid k) (jw_X k)) dec_string;
  fld "kid" jw_Kid (fun v k => mkJwk (jw_Kty k) (jw_Crv k) v (jw_X k)) dec_string;
  fld "x" jw_X (fun v k => mkJwk (jw_Kty k) (jw_Crv k) (jw_Kid k) v) dec_string ]%string.
Definition dec_jwksDoc : decoder (list jwk) := dec_struct [ ("keys"%string, dec_slice zeroJwk dec_jwk) ].
Definition usable_key (k : jwk) : option (string * bytes) :=
  if negb (String.eqb (jw_Kty k) "OKP") || negb (String.eqb (jw_Crv k) "Ed25519") || String.eqb (jw_Kid k) "" then None else
  match RawURL_DecodeString (jw_X k) with
  | Ok raw => if bool_decide (length raw = PublicKeySize) then Some (jw_Kid k, raw) else None
  | Err _ => None
  end.
Definition usable_keys (l : list jwk) : gmap string bytes :=
  fold_left (fun m k => match usable_key k with Some (kid, raw) => <[kid := raw]> m | None => m end) l ∅.
Definition read_jwks (x : exchanged) : res (gmap string bytes) :=
  match x with
  | Err e => Err (Wrapf "neonauth: jwks fetch: %w" e)
  | Ok (status, body) =>
    if negb (status =? 200) then Err (Errorf "neonauth: jwks status") else
    match Unmarshal dec_jwksDoc [] body with
    | Err e => Err (Wrapf "neonauth: jwks decode: %w" e)
    | Ok l => if bool_decide (usable_keys l = ∅) then Err (Errorf "neonauth: jwks contained no usable Ed25519 keys")
              else Ok (usable_keys l)
    end
  end.

(** What the identity provider answers, by the number of the call. *)
Class provider := { provider_answer : nat -> exchanged }.

Section Process.
Context `{Ed25519} `{surroundings} `{provider}.

(** *** internal/auth/validator.go, middleware.go *)
Definition cache_Get (key : string) : W door (option Verdict) :=
  let* now := on_site timeNow in
  let* again := on_site timeNow in
  on_cache (Cache.Get now again key).
Definition cache_Set (key : string) (v : Verdict) (ttl : Z) : W door unit :=
  let* now := on_site timeNow in on_cache (fun c => (tt, Cache.Set_ now key v ttl c)).
Definition cache_Delete (key : string) : W door unit := on_cache (fun c => (tt, Cache.Delete key c)).

(** [Validator.Valid]: the account and whether the key is good. *)
Definition Valid (v : ValidatorConfig) (token : string) : W door (string * bool) :=
  let h := HashKey token in
  let* hit := cache_Get h in
  match hit with
  | Some vd => wret (vd_AccountID vd, vd_Valid vd)
  | None =>
    let* iv := on_site (callDir (Keys.Validate h)) in
    let* _ := cache_Set h (mkVerdict (snd iv) (fst iv)) (verdict_ttl v (snd iv)) in
    wret iv
  end.

Definition auth_Middleware {A} (v : ValidatorConfig) (enforceAccount : bool) (next : request -> W door (reply A)) (r : request)
    : W door (reply A) :=
  match credential r with
  | None => wret (http_error 401 "unauthorized")
  | Some token =>
    let*? verdict := Valid v token in
    match verdict with
    | Err _ => wret (http_error 503 "service unavailable")
    | Ok (accountID, valid) =>
      if negb valid then wret (http_error 401 "unauthorized")
      else if enforceAccount && String.eqb accountID "" then wret (http_error 402 "billing_account_required")
      else next (with_account accountID r)
    end
  end.

(** *** internal/neonauth *)
Definition door_now : W door time := on_site timeNow.
Definition refreshLocked : W door unit :=
  let* keys := on_site (asks_site (fun k => read_jwks (provider_answer k))) in
  let* t := door_now in
  let* old := get_jwks in
  set_jwks (mkJwks (Some keys) t (jk_lastRefresh old)).
Definition lookup_key (k : jwks) (kid : string) : option bytes := match jk_keys k with Some m => m !! kid | None => None end.
Definition keyFor (v : NeonVerifier) (kid : string) : W door bytes :=
  let* now := door_now in
  let* j := get_jwks in
  let have := bool_decide (is_Some (lookup_key j kid)) in
  let stale := bool_decide (jk_keys j = None) || (Sub now (jk_fetchedAt j) >? nv_cacheTTL v) in
  let serve := let* j := get_jwks in
    match lookup_key j kid with Some k => wret k | None => wfail (Errorf "neonauth: no key for kid %q") end in
  if stale || (negb have && (Sub now (jk_lastRefresh j) >=? nv_minRefresh v)) then
    let* _ := set_jwks (mkJwks (jk_keys j) (jk_fetchedAt j) now) in
    let*? refreshed := refreshLocked in
    match refreshed with
    | Ok _ => serve
    | Err e => let* j := get_jwks in match lookup_key j kid with Some k => wret k | None => wfail e end
    end
  else serve.

Definition neon_Verify (v : NeonVerifier) (raw : string) : W door NeonClaims :=
  match Jwt.split_on "." (chars_of raw) with
  | [p0; p1; p2] =>
    let* header := wlift (read_segment "neonauth: header: %w" "neonauth: header json: %w" dec_neonHeader (""%string, ""%string) p0) in
    if negb (String.eqb (fst header) "EdDSA") then wfail (Errorf "neonauth: unexpected alg %q") else
    let* pub := keyFor v (snd header) in
    match RawURL_DecodeString (text_of p2) with
    | Err e => wfail (Wrapf "neonauth: signature: %w" e)
    | Ok sig =>
      if negb (ed25519_Verify pub (bytes_of_string (text_of p0 +:+ "." +:+ text_of p1)) sig)
      then wfail (Errorf "neonauth: signature mismatch") else
      let* c := wlift (read_segment "neonauth: payload: %w" "neonauth: payload json: %w" dec_neonPayload zeroPayload p1) in
      let* now := door_now in
      let* _ := wlift (validateClaims v now c) in
      wret (mkNeonClaims (np_Sub c) (np_Email c) (np_EmailVerified c))
    end
  | _ => wfail (Errorf "neonauth: token is not a compact JWT")
  end.

(** *** internal/principal and the refresher of internal/manageapi *)
Definition with_principal (id : string) (r : request) : request :=
  mkHttp (h_Method r) (Some id) (h_Account r) (h_Header r) (h_Query r) (h_PathValue r) (h_Body r) (h_BodyErr r).
Definition principal_of (c : NeonClaims) (t : time) : IdentityInfo :=
  match (if ne_EmailVerified c then DomainFromVerifiedEmail (ne_Email c) else None) with
  | Some domain => mkIdentity (ne_Subject c) (ne_Email c) domain true t
  | None => mkIdentity (ne_Subject c) (ne_Email c) "" false t
  end.
Definition principal_Middleware {A} (v : NeonVerifier) (refresher : bool) (next : IdentityInfo -> request -> W door (reply A)) (r : request)
    : W door (reply A) :=
  match auth_bearer (h_Header r "Authorization") with
  | None => wret (http_error 401 "unauthorized")
  | Some token =>
    let*? claims := neon_Verify v token in
    match claims with
    | Err _ => wret (http_error 401 "unauthorized")
    | Ok c =>
      if String.eqb (ne_Subject c) "" then wret (http_error 401 "unauthorized") else
      let* t := door_now in
      let p := principal_of c t in
      let*? refreshed := (if refresher then on_site (callDir (RefreshIdentity p)) else wret tt) in
      match refreshed with
      | Err _ => wret (http_error 503 "service unavailable")
      | Ok _ => next p (with_principal (ne_Subject c) r)
      end
    end
  end.

(** *** internal/keysvc *)
Definition ErrTooManyKeys : err := Sentinel "keysvc: key limit reached".
(** 24 random bytes in hex. *)
Definition GenerateToken (prefix : string) : W site string := asks_site (fun k =>
  match rand_Read k 24 with Ok b => Ok (prefix +:+ EncodeHex b) | Err e => Err e end).
Definition key_prefix (n : nat) (token : string) : string := text_of (take n (chars_of token)).
Definition Prefix : string -> string := key_prefix 11.
Record KeyService := mkKeyService { kv_maxPerUser : Z; kv_revokeCache : bool }.
Definition key_Create (s : KeyService) (userID name : string) : W door (string * KeyInfo) :=
  let* n := on_site (callDir (CountActiveByUser userID)) in
  if n >=? kv_maxPerUser s then wfail ErrTooManyKeys else
  let* token := on_site (GenerateToken "sk-") in
  let* info := on_site (callDir (InsertUserKey userID (HashKey token) name (Prefix token))) in
  wret (token, info).
Definition key_Revoke (s : KeyService) (userID : string) (id : Z) : W door bool :=
  let* hc := on_site (callDir (RevokeByIDForUser userID id)) in
  if negb (snd hc) then wret false else
  let* _ := (if kv_revokeCache s then cache_Delete (fst hc) else wret tt) in wret true.

(** *** internal/keysapi/handlers.go *)
Definition maxNameLen : Z := 100.
Definition dec_createKey : decoder string := strict_struct [ ("name"%string, dec_string) ].
Record createKeyResponse := mkCreateKeyResponse {
  kr_ID : Z; kr_Key : string; kr_Prefix : string; kr_Name : string; kr_CreatedAt : time }.
Record keyResponse := mkKeyResponse {
  yr_ID : Z; yr_Name : string; yr_Prefix : string; yr_CreatedAt : time; yr_RevokedAt : option time }.
Definition door_unavailable {A} : W door (reply A) := wret (http_error 503 "service unavailable").
Definition handleCreateKey (s : KeyService) (r : request) : W door (reply createKeyResponse) :=
  match DecodeStrict 4096 dec_createKey "" r with
  | Err _ => wret (http_error 400 "invalid JSON body")
  | Ok name =>
    if slen name >? maxNameLen then wret (http_error 400 "name too long") else
    let*? created := key_Create s (WalletsApi.userID r) name in
    match created with
    | Err e => if errors_is e ErrTooManyKeys then wret (http_error 409 "key limit reached") else door_unavailable
    | Ok (token, info) =>
      wret (WriteJSON 201 (mkCreateKeyResponse (ki_ID info) token (ki_Prefix info) (ki_Name info) (ki_CreatedAt info)))
    end
  end.
Definition handleListKeys (r : request) : W door (reply (list keyResponse)) :=
  let*? keys := on_site (callDir (ListByUser (WalletsApi.userID r))) in
  match keys with
  | Err _ => door_unavailable
  | Ok keys => wret (WriteJSON 200
      (map (fun k => mkKeyResponse (ki_ID k) (ki_Name k) (ki_Prefix k) (ki_CreatedAt k) (ki_RevokedAt k)) keys))
  end.
Definition handleRevokeKey (s : KeyService) (r : request) : W door (reply unit) :=
  match ParseInt (h_PathValue r "id") with
  | Err _ => wret (http_error 400 "invalid key id")
  | Ok id =>
    let*? changed := key_Revoke s (WalletsApi.userID r) id in
    match changed with
    | Err _ => door_unavailable
    | Ok changed => if negb changed then wret (http_error 404 "not found") else wret (WriteHeader 204)
    end
  end.
End Process.
