(* ===== verification/AccessSpec.v ===== *)
(** * A revoked key stays out, a session is a signed token

    The validator's verdicts in a process where requests, revocations, the janitor and
    the other processes interleave; and what the sign-in of the console rests on. *)
From Stdlib Require Import ZArith Lia Strings.Ascii Strings.String.
From stdpp Require Import base gmap strings list relations.
From S2P Require Import Prelude Sha256 Base58 Tx Schema BillingStore Worker GoText Json Base64 AclTypes DirSchema Directory Regions DirInv Keys DirReach DirSpec Gate JsonPrint Peers Jwt Http Mesh NodeCred NodeCredSpec BillingApi Inputs WalletsApi InstancesApi Access.

Open Scope Z_scope.

(** ** A process with its cache, in steps

    A validation that missed the cache is in flight between its read of the store and its
    write to the cache; a revocation writes the store and then purges the cache. *)
Record gateway := mkGateway {
  gw_now : time; gw_dir : dir; gw_cache : verdicts; gw_flight : list (string * (string * bool)) }.

Section Gateway.
Context (v : ValidatorConfig).
Inductive gstep : gateway -> gateway -> Prop :=
  | g_wait t' t d c f : t <= t' -> gstep (mkGateway t d c f) (mkGateway t' d c f)
  | g_store t d d' c f : rtc dstep d d' -> gstep (mkGateway t d c f) (mkGateway t d' c f)
  | g_get t again key d c f : t <= again ->
      gstep (mkGateway t d c f) (mkGateway again d (snd (Cache.Get t again key c)) f)
  | g_read h e iv t d d' c f : run (Keys.Validate h) e d = (Ok iv, d') ->
      gstep (mkGateway t d c f) (mkGateway t d' c ((h, iv) :: f))
  | g_put h iv t d c f1 f2 :
      gstep (mkGateway t d c (f1 ++ (h, iv) :: f2))
        (mkGateway t d (Cache.Set_ t h (mkVerdict (snd iv) (fst iv)) (verdict_ttl v (snd iv)) c) (f1 ++ f2))
  | g_purge key t d c f : gstep (mkGateway t d c f) (mkGateway t d (Cache.Delete key c) f)
  | g_janitor t d c f : gstep (mkGateway t d c f) (mkGateway t d (Cache.deleteExpired t c) f).

(** A verdict the process would act on now: one the cache gives out, or one just read. *)
Definition admits (s : gateway) (h : string) : Prop :=
  (exists again vd, fst (Cache.Get (gw_now s) again h (gw_cache s)) = Some vd /\ vd_Valid vd = true) \/
  (exists a, (h, (a, true)) ∈ gw_flight s).

Definition revoked (h : string) (d : dir) : Prop :=
  exists id r, api_keys d !! id = Some r /\ ak_key_hash r = h /\ ak_active r = false.
(** Every positive verdict on [h] in the cache is of the kind [Q]. *)
Definition positives (Q : Cache.entry Verdict -> Prop) (h : string) (c : verdicts) : Prop :=
  forall e, c !! h = Some e -> vd_Valid (Cache.val e) = true -> Q e.
Definition landed (h : string) (f : list (string * (string * bool))) : Prop := forall a, (h, (a, true)) ∉ f.

Lemma Validate_reads h e d x d' : run (Keys.Validate h) e d = (x, d') -> d' = d.
Proof. unfold Keys.Validate, select. intros E. run_all; done. Qed.

Lemma revoked_steps h d d' : DReachable d -> rtc dstep d d' -> revoked h d -> revoked h d'.
Proof.
  intros Hr Hs (id & r & Hk & Hh & Ha). destruct (sp_key _ _ (dsteps_spent _ _ Hr Hs) id r Hk) as (q & Hq & Hh' & Hn).
  exists id, q. rewrite Hh'. auto.
Qed.
Lemma positives_subset (Q : Cache.entry Verdict -> Prop) h (c c' : verdicts) : c' ⊆ c -> positives Q h c -> positives Q h c'.
Proof. intros Hs Hp e He. apply Hp. by eapply lookup_weaken. Qed.
Lemma Get_subset {T} t again key (c : gmap string (Cache.entry T)) : snd (Cache.Get t again key c) ⊆ c.
Proof.
  unfold Cache.Get. destruct (c !! key); [|done]. destruct (After t _); [|done]. simpl.
  destruct (After again _); [apply delete_subseteq|done].
Qed.

(** A key revoked in the store, of which no positive verdict is in flight: nothing new is
    cached about it. *)
Definition shut (Q : Cache.entry Verdict -> Prop) (h : string) (s : gateway) : Prop :=
  DReachable (gw_dir s) /\ revoked h (gw_dir s) /\ landed h (gw_flight s) /\ positives Q h (gw_cache s).

Lemma shut_step Q h s s' : gstep s s' -> shut Q h s -> shut Q h s' /\ gw_now s <= gw_now s'.
Proof.
  intros Hs (Hr & Hv & Hf & Hp). destruct Hs; cbn in *; (split; [|lia || done]); unfold shut; cbn.
  - done.
  - split; [by eapply DReachable_steps|]. split; [by eapply revoked_steps|done].
  - do 3 (split; [done|]). eapply positives_subset; [apply Get_subset|done].
  - pose proof (Validate_reads _ _ _ _ _ H) as ->. do 2 (split; [done|]). split; [|done].
    intros a [E|E]%elem_of_cons; [|by apply (Hf a)]. injection E as <- <-.
    destruct Hv as (id & r & Hk & Hh & Ha). apply (validate_inactive h e d id r a (DReachable_keys _ Hr) Hk Hh Ha).
    by rewrite H.
  - do 2 (split; [done|]). split; [intros a Ha; apply (Hf a); set_solver|].
    intros en He Hval. unfold Cache.Set_ in He. apply lookup_insert_Some in He as [[-> <-]|[_ He]]; [|by apply Hp].
    destruct iv as [a b]. simpl in Hval. subst b. destruct (Hf a). set_solver.
  - do 3 (split; [done|]). eapply positives_subset; [apply delete_subseteq|done].
  - do 3 (split; [done|]). eapply positives_subset; [apply map_filter_subseteq|done].
Qed.
Lemma shut_steps Q h s s' : rtc gstep s s' -> shut Q h s -> shut Q h s' /\ gw_now s <= gw_now s'.
Proof.
  induction 1 as [s|s1 s2 s3 H1 _ IH]; [intros Hs; split; [done|lia]|]. intros Hs.
  destruct (shut_step _ _ _ _ H1 Hs) as [Hs2 Ht]. destruct (IH Hs2). split; [done|lia].
Qed.
Lemma shut_admits Q h s : shut Q h s -> admits s h ->
  exists e, Q e /\ gw_now s <= Cache.expiresAt e.
Proof.
  intros (_ & _ & Hf & Hp) [(again & vd & Hg & Hv)|(a & Ha)]; [|by destruct (Hf a)].
  unfold Cache.Get in Hg. destruct (gw_cache s !! h) as [e|] eqn:E; [|done].
  unfold After in Hg. destruct (Z.ltb_spec (Cache.expiresAt e) (gw_now s)); [done|]. injection Hg as <-.
  exists e. split; [by apply Hp|lia].
Qed.

(** Whatever is cached was cached by now, for the positive lifetime. *)
Definition fresh_cache (s : gateway) : Prop :=
  forall h, positives (fun e => Cache.expiresAt e <= gw_now s + va_posTTL v) h (gw_cache s).
Lemma fresh_step s s' : gstep s s' -> fresh_cache s -> fresh_cache s'.
Proof.
  assert (Hmono : forall c c' t t', t <= t' -> c' ⊆ c ->
    (forall h, positives (fun e => Cache.expiresAt e <= t + va_posTTL v) h c) ->
    forall h, positives (fun e => Cache.expiresAt e <= t' + va_posTTL v) h c').
  { intros c c' t t' Ht Hc Hp h e He Hv. specialize (Hp h e (lookup_weaken _ _ _ _ He Hc) Hv). simpl in Hp. lia. }
  intros Hs Hf. destruct Hs; unfold fresh_cache in *; cbn in *; try (eapply Hmono; [| |exact Hf]; [lia|done]).
  - eapply Hmono; [|apply Get_subset|exact Hf]. lia.
  - intros k e He Hv. unfold Cache.Set_ in He. apply lookup_insert_Some in He as [[-> <-]|[_ He]]; [|by apply (Hf k)].
    simpl in *. rewrite Hv. simpl. lia.
  - eapply Hmono; [|apply delete_subseteq|exact Hf]. lia.
  - eapply Hmono; [|apply map_filter_subseteq|exact Hf]. lia.
Qed.
End Gateway.

(** ** The validator takes these steps *)
Section Specs.
Context `{Ed25519} `{surroundings} `{provider}.
Hypothesis clock_runs : forall k, site_now k <= site_now (S k).
Hypothesis others_step : forall k d, rtc dstep d (dir_others k d).

Definition gateway_of (w : world door) (f : list (string * (string * bool))) : gateway :=
  let s := dr_site (w_node w) in mkGateway (site_now (st_calls s)) (st_dir s) (dr_cache (w_node w)) f.

Lemma Valid_steps v token f o w a w' : Valid v token o w = (Some (Ok a), w') ->
  exists s, rtc (gstep v) (gateway_of w f) s /\ rtc (gstep v) s (gateway_of w' f) /\
    (snd a = true -> admits s (HashKey token)).
Proof.
  destruct w as [db [[d n] c j] k]. unfold Valid. generalize (HashKey token) as h. intros h.
  unfold cache_Get, cache_Set, on_cache, on_site, timeNow, asks_site, callDir, callNode, wbind, wret. cbn.
  pose proof (clock_runs n) as T1. pose proof (clock_runs (S n)) as T2.
  destruct (Cache.Get (site_now n) (site_now (S n)) h c) as [[vd|] c1] eqn:Eg; cbn.
  - intros E. injection E as Ea Ew. subst a w'. exists (mkGateway (site_now n) d c f). split; [apply rtc_refl|]. split.
    + unfold gateway_of. cbn. eapply rtc_l; [eapply (g_get v _ (site_now (S n)) h); lia|]. rewrite Eg. cbn.
      apply rtc_once, g_wait. lia.
    + cbn. intros Hv. left. exists (site_now (S n)), vd. cbn. by rewrite Eg.
  - destruct (run (Validate h) _ _) as [[iv|e] d1] eqn:Er; cbn; [|done]. intros E. injection E as Ea Ew. subst a w'.
    pose proof (clock_runs (S (S n))) as T3. pose proof (clock_runs (S (S (S n)))) as T4.
    exists (mkGateway (site_now (3 + n)) d1 c1 ((h, iv) :: f)). split; [|split].
    + unfold gateway_of. cbn. eapply rtc_l; [eapply (g_get v _ (site_now (S n)) h); lia|]. rewrite Eg. cbn.
      eapply rtc_l; [apply g_store, (others_step (S (S n)))|]. eapply rtc_l; [by eapply g_read|].
      apply rtc_once, g_wait. cbn. lia.
    + eapply rtc_l; [apply (g_put v h iv _ _ _ [] f)|]. apply rtc_once. unfold gateway_of. cbn. apply g_wait. cbn. lia.
    + cbn. intros Hv. right. destruct iv as [x b]. cbn in Hv. subst b. exists x. set_solver.
Qed.

(** C14: a revoked key stays out.  From a state in which the store has the key revoked and
    no validation that read it before is still to write its verdict, in whatever order
    validations, revocations of this and other keys, the janitor, other processes and the
    clock go on, no validation finds the key valid: at once when its positive verdict has
    been purged from the cache, and in any case once the positive lifetime has passed. *)
Theorem revoked_key_stays_out v token s w f o a w' :
  DReachable (gw_dir s) -> revoked (HashKey token) (gw_dir s) -> landed (HashKey token) (gw_flight s) ->
  rtc (gstep v) s (gateway_of w f) ->
  positives (fun _ => False) (HashKey token) (gw_cache s) \/
    fresh_cache v s /\ gw_now s + va_posTTL v < gw_now (gateway_of w f) ->
  Valid v token o w <> (Some (Ok (a, true)), w').
Proof.
  intros Hr Hv Hf Hs Hor HV. destruct (Valid_steps v token f o w _ w' HV) as (mid & Hm & _ & Ha). specialize (Ha eq_refl).
  destruct Hor as [Hp|[Hp Ht]].
  - assert (Hshut : shut (fun _ => False) (HashKey token) mid).
    { eapply (shut_steps v); [|by split]. by etrans. }
    by destruct (shut_admits _ _ _ Hshut Ha) as (e & [] & _).
  - pose (Q := fun e : Cache.entry Verdict => Cache.expiresAt e <= gw_now s + va_posTTL v).
    assert (Hshut : shut Q (HashKey token) (gateway_of w f)) by (eapply (shut_steps v); [exact Hs|by split; [|split; [|split]]]).
    destruct (shut_steps v _ _ _ _ Hm Hshut) as [Hshut' Ht'].
    destruct (shut_admits _ _ _ Hshut' Ha) as (e & He & Hn). unfold Q in He. lia.
Qed.
End Specs.

(** ** Sessions of the console *)
Section Sessions.
Context `{Ed25519} `{surroundings} `{provider}.

(** The key set in hand is one the identity provider published. *)
Definition published (m : gmap string bytes) : Prop := exists k, read_jwks (provider_answer k) = Ok m.
Definition from_provider (w : world door) : Prop := forall m, jk_keys (dr_jwks (w_node w)) = Some m -> published m.

Lemma on_site_jwks {A} (m : W site A) o w r w' : on_site m o w = (r, w') ->
  dr_jwks (w_node w') = dr_jwks (w_node w) /\ m o (mkWorld (w_db w) (dr_site (w_node w)) (w_calls w)) = (r, mkWorld (w_db w') (dr_site (w_node w')) (w_calls w')).
Proof. unfold on_site. destruct (m o _) as [x [db st n]] eqn:E. intros [= <- <-]. by split. Qed.
Lemma door_now_jwks o w t w' : door_now o w = (Some (Ok t), w') ->
  dr_jwks (w_node w') = dr_jwks (w_node w) /\ exists k, t = site_now k.
Proof. intros (Hj & E)%on_site_jwks. split; [done|]. injection E as <- _. by eexists. Qed.
Lemma get_jwks_run o w j w' : get_jwks o w = (Some (Ok j), w') -> w' = w /\ j = dr_jwks (w_node w).
Proof. destruct w as [db [st c jw] n]. by intros [= <- <-]. Qed.

Lemma refreshLocked_published o w r w' : refreshLocked o w = (Some r, w') -> from_provider w -> from_provider w'.
Proof.
  unfold refreshLocked, on_site, door_now, timeNow, asks_site, get_jwks, set_jwks, callNode, wbind, from_provider. cbn.
  destruct (read_jwks _) as [keys|e] eqn:E; intros [= <- <-] Hp; cbn; [|done].
  intros m [= <-]. by eexists.
Qed.

Lemma serve_published kid o w pub w' :
  (wbind get_jwks (fun j => match lookup_key j kid with Some k => wret k | None => wfail (Errorf "neonauth: no key for kid %q") end)) o w
    = (Some (Ok pub), w') -> from_provider w ->
  from_provider w' /\ exists m, published m /\ m !! kid = Some pub.
Proof.
  intros (j & w1 & (-> & ->)%get_jwks_run & Hk)%wbind_inv Hp. unfold lookup_key in Hk.
  destruct (jk_keys _) as [m|] eqn:Em; [|done]. destruct (m !! kid) as [k|] eqn:Ek; [|done].
  injection Hk as -> <-. split; [done|]. exists m. split; [by apply Hp|done].
Qed.

Lemma keyFor_published v kid o w pub w' : keyFor v kid o w = (Some (Ok pub), w') -> from_provider w ->
  from_provider w' /\ exists m, published m /\ m !! kid = Some pub.
Proof.
  unfold keyFor. intros (t & w1 & [Hj _]%door_now_jwks & Hk)%wbind_inv Hp.
  apply wbind_inv in Hk as (j & w2 & (-> & ->)%get_jwks_run & Hk).
  assert (Hp1 : from_provider w1) by (unfold from_provider in *; by rewrite Hj).
  destruct (_ || _); [|by eapply serve_published].
  apply wbind_inv in Hk as ([] & w2 & Hset & Hk). injection Hset as <-.
  apply wattempt_inv in Hk as ([r|e] & w3 & Hr & Hk); (apply refreshLocked_published in Hr; [|done]);
    [by eapply serve_published|].
  apply wbind_inv in Hk as (j & w4 & (-> & ->)%get_jwks_run & Hk). unfold lookup_key in Hk.
  destruct (jk_keys _) as [m|] eqn:Em; [|done]. destruct (m !! kid) as [k|] eqn:Ek; [|done].
  injection Hk as -> <-. split; [done|]. exists m. split; [by apply Hr|done].
Qed.

(** What a token that is accepted is. *)
Definition session (v : NeonVerifier) (raw : string) (c : NeonClaims) : Prop :=
  exists p0 p1 p2 kid m pub sig payload k,
    Jwt.split_on "." (chars_of raw) = [p0; p1; p2] /\
    read_segment "neonauth: header: %w" "neonauth: header json: %w" dec_neonHeader (""%string, ""%string) p0 = Ok ("EdDSA"%string, kid) /\
    published m /\ m !! kid = Some pub /\ RawURL_DecodeString (text_of p2) = Ok sig /\
    ed25519_Verify pub (bytes_of_string (text_of p0 +:+ "." +:+ text_of p1)) sig = true /\
    read_segment "neonauth: payload: %w" "neonauth: payload json: %w" dec_neonPayload zeroPayload p1 = Ok payload /\
    c = mkNeonClaims (np_Sub payload) (np_Email payload) (np_EmailVerified payload) /\
    np_Iss payload = nv_issuer v /\ np_Sub payload <> ""%string /\
    (nv_audience v = ""%string \/ nv_audience v ∈ np_Aud payload) /\
    np_Exp payload <> 0 /\ site_now k <= unix_plus (np_Exp payload) leeway /\
    (np_Nbf payload = 0 \/ unix_plus (np_Nbf payload) (- leeway) <= site_now k).

Lemma validateClaims_inv v t c : validateClaims v t c = Ok tt ->
  np_Iss c = nv_issuer v /\ np_Sub c <> ""%string /\ (nv_audience v = ""%string \/ nv_audience v ∈ np_Aud c) /\
  np_Exp c <> 0 /\ t <= unix_plus (np_Exp c) leeway /\ (np_Nbf c = 0 \/ unix_plus (np_Nbf c) (- leeway) <= t).
Proof.
  unfold validateClaims, After, Before.
  destruct (Z.eqb_spec (np_Exp c) 0); [done|]. destruct (Z.ltb_spec (unix_plus (np_Exp c) leeway) t); [done|].
  destruct (Z.eqb_spec (np_Nbf c) 0), (Z.ltb_spec t (unix_plus (np_Nbf c) (- leeway))); cbn [negb andb]; try done.
  all: destruct (String.eqb_spec (np_Iss c) (nv_issuer v)); [|done].
  all: destruct (String.eqb_spec (np_Sub c) ""); [done|]; cbn [negb andb].
  all: destruct (String.eqb_spec (nv_audience v) ""); cbn [negb andb]; [auto 10|].
  all: case_bool_decide; cbn [negb]; [auto 10|done].
Qed.

Lemma neon_Verify_session v raw o w c w' : neon_Verify v raw o w = (Some (Ok c), w') -> from_provider w ->
  from_provider w' /\ session v raw c.
Proof.
  unfold neon_Verify. destruct (Jwt.split_on _ _) as [|p0 [|p1 [|p2 [|]]]] eqn:Es; try done.
  intros ([alg kid] & w1 & Hh & Hk)%wbind_inv Hp. unfold wlift in Hh. injection Hh as Hh <-.
  cbn [fst snd] in Hk. destruct (String.eqb_spec alg "EdDSA") as [->|]; [|done]. cbn [negb] in Hk.
  apply wbind_inv in Hk as (pub & w2 & (Hp2 & m & Hm & Hpub)%keyFor_published & Hk); [|done].
  destruct (RawURL_DecodeString _) as [sig|] eqn:Esig; [|done].
  destruct (ed25519_Verify _ _ _) eqn:Ev; [|done]. cbn [negb] in Hk.
  apply wbind_inv in Hk as (payload & w3 & Hpl & Hk). injection Hpl as Hpl <-.
  apply wbind_inv in Hk as (t & w4 & [Hj (k & ->)]%door_now_jwks & Hk).
  apply wbind_inv in Hk as ([] & w5 & Hc & Hk). injection Hc as Hc <-. injection Hk as <- <-.
  split; [unfold from_provider in *; by rewrite Hj|]. apply validateClaims_inv in Hc as (? & ? & ? & ? & ? & ?).
  exists p0, p1, p2, kid, m, pub, sig, payload, k. done.
Qed.

Lemma refreshed_identity i e d d' : run (RefreshIdentity i) e d = (Ok tt, d') -> identities d' !! id_AccountID i = Some i.
Proof. unfold RefreshIdentity. intros E. run_all. apply lookup_insert_eq. Qed.

Lemma principal_of_id c t : id_AccountID (principal_of c t) = ne_Subject c.
Proof. unfold principal_of. destruct (ne_EmailVerified c); [|done]. by destruct (DomainFromVerifiedEmail _). Qed.

(** the console acts for someone only on a token of theirs.  Whatever the handler
    behind the sign-in answers, it was called for the subject of a bearer token that an
    Ed25519 key published by the identity provider has signed over exactly its header and
    payload, that names the configured issuer and audience, has a subject and has not
    expired, give or take a minute, with the identity that the directory holds by then;
    every other answer is 401 or 503 and the handler is not called. *)
Theorem session_token_signed {A} v (next : IdentityInfo -> request -> W door (reply A)) r o w res w' :
  principal_Middleware v true next r o w = (Some (Ok res), w') -> from_provider w ->
  res = http_error 401 "unauthorized" \/ res = http_error 503 "service unavailable" \/
  exists token c t w1,
    auth_bearer (h_Header r "Authorization") = Some token /\ session v token c /\
    identities (st_dir (dr_site (w_node w1))) !! ne_Subject c = Some (principal_of c t) /\
    next (principal_of c t) (with_principal (ne_Subject c) r) o w1 = (Some (Ok res), w').
Proof.
  unfold principal_Middleware. destruct (auth_bearer _) as [token|]; [|by intros [= <- _]; left].
  intros ([c|e] & w1 & Hv & Hk)%wattempt_inv Hp; [|by injection Hk as <- _; left].
  apply neon_Verify_session in Hv as [Hp1 Hs]; [|done].
  destruct (String.eqb_spec (ne_Subject c) ""); [by injection Hk as <- _; left|].
  apply wbind_inv in Hk as (t & w2 & _ & Hk). apply wattempt_inv in Hk as ([[]|e] & w3 & Hi & Hk);
    [|injection Hk as <- _; by right; left].
  right. right. exists token, c, t, w3. split; [done|]. split; [done|]. split; [|done].
  apply on_site_jwks in Hi as [_ Hi]. apply callDir_inv in Hi as [Hi _]. cbn in Hi.
  apply refreshed_identity in Hi. by rewrite principal_of_id in Hi.
Qed.
End Sessions.

(** ** A verdict in flight outlives the purge

    The purge that follows a revocation does not reach a validation that read the store
    before it: its verdict lands in the cache afterwards, and the key is let in for the
    positive lifetime. *)
#[local] Existing Instance Demo.scheme.
#[local] Existing Instance Demo.around.
#[local] Instance demo_provider : provider := { provider_answer _ := Err (Errorf "down") }.
Definition demo_validator : ValidatorConfig := mkValidator (60 * second) (5 * second).
Definition demo_token : string := "sk-1".
Definition demo_hash : string := Eval vm_compute in HashKey demo_token.
Definition demo_keyed : dir := dplay [(DInsertUserKey "alice" demo_hash "k" "sk-1", Demo.start)] empty_dir.
Definition demo_shut : dir := dplay [(DRevokeByID "alice" 1, Demo.start)] demo_keyed.
Definition demo_door (d : dir) (c : verdicts) : world door := mkWorld empty_db (mkDoor (mkSite d 0) c no_jwks) 0.

Lemma demo_hashed : HashKey demo_token = demo_hash.
Proof. vm_compute. reflexivity. Qed.
Lemma demo_shut_revoked : revoked demo_hash demo_shut.
Proof. exists 1. eexists. split; [vm_compute; reflexivity|]. split; vm_compute; reflexivity. Qed.
Lemma demo_shut_reachable : DReachable demo_shut.
Proof. unfold DReachable. etrans; apply dplay_steps. Qed.

Lemma in_flight_survives_purge :
  exists s, rtc (gstep demo_validator) (gateway_of (demo_door demo_keyed ∅) []) s /\
    revoked (HashKey demo_token) (gw_dir s) /\ gw_flight s = [] /\
    fst (Valid demo_validator demo_token Demo.outside0 (demo_door (gw_dir s) (gw_cache s))) = Some (Ok ("alice"%string, true)).
Proof.
  rewrite demo_hashed.
  exists (mkGateway (gw_now (gateway_of (demo_door demo_keyed ∅) [])) demo_shut
    (Cache.Set_ Demo.start demo_hash (mkVerdict true "alice") (verdict_ttl demo_validator true) (Cache.Delete demo_hash ∅)) []).
  split; [|split; [exact demo_shut_revoked|split; [done|vm_compute; reflexivity]]].
  eapply rtc_l; [apply (g_read _ demo_hash (fine_env Demo.start) ("alice"%string, true) _ _ demo_keyed); vm_compute; reflexivity|].
  eapply rtc_l; [apply g_store, (dplay_steps [(DRevokeByID "alice" 1, Demo.start)])|].
  eapply rtc_l; [apply (g_purge _ demo_hash)|].
  eapply rtc_l; [apply (g_put _ demo_hash _ _ _ _ [] [])|]. apply rtc_refl.
Qed.

Lemma demo_clock_runs k : site_now k <= site_now (S k).
Proof. change (Demo.start + Z.of_nat k <= Demo.start + Z.of_nat (S k)). lia. Qed.
Lemma revoked_key_stays_out_witness : exists w',
  Valid demo_validator demo_token Demo.outside0 (demo_door demo_shut ∅) = (Some (Ok (""%string, false)), w') /\
  Valid demo_validator demo_token Demo.outside0 (demo_door demo_shut ∅) <> (Some (Ok (""%string, true)), w').
Proof.
  eexists. split; [vm_compute; reflexivity|].
  eapply (revoked_key_stays_out demo_clock_runs (fun k d => rtc_refl dstep d) demo_validator demo_token
    (gateway_of (demo_door demo_shut ∅) []) (demo_door demo_shut ∅) []).
  - exact demo_shut_reachable.
  - rewrite demo_hashed. exact demo_shut_revoked.
  - intros a. apply not_elem_of_nil.
  - apply rtc_refl.
  - left. intros e He _. exact (lookup_empty_Some _ _ He).
Defined.

(** *** A sign-in *)
Definition demo_published : provider := {| provider_answer _ := Ok (200, Some (JObj [("keys", JArr [JObj [
  ("kty", JStr "OKP"); ("crv", JStr "Ed25519"); ("kid", JStr "k1");
  ("x", JStr (RawURL_EncodeToString (repeat Byte.x07 32)))]])]%string)) |}.
Definition demo_segment (l : list (string * json)) : string :=
  RawURL_EncodeToString (bytes_of_string (text_of ("{"%char :: print_fields l ++ ["}"%char]))).
Definition demo_session_token : string :=
  demo_segment [("alg", JStr "EdDSA"); ("kid", JStr "k1")]%string +:+ "." +:+
  demo_segment [("iss", JStr "https://id"); ("sub", JStr "alice"); ("email", JStr "a@example.com");
    ("emailVerified", JBool true); ("exp", JInt 1800000000)]%string +:+ "." +:+
  RawURL_EncodeToString (repeat Byte.x07 32).
Definition demo_neon : NeonVerifier := NewNeon "https://id" "" (300 * second).
Definition demo_signed_in : request := mkHttp "GET" None None
  (fun k => if String.eqb k "Authorization" then "Bearer " +:+ demo_session_token else ""%string)
  (fun _ => ""%string) (fun _ => ""%string) [] false.
Definition demo_console (p : IdentityInfo) (r : request) : W door (reply string) := wret (WriteJSON 200 (id_AccountID p)).
Definition demo_answer : option (res (reply string)) * world door :=
  @principal_Middleware Demo.scheme Demo.around demo_published _ demo_neon true demo_console demo_signed_in Demo.outside0
    (demo_door empty_dir ∅).
Lemma demo_signs_in : fst demo_answer = Some (Ok (WriteJSON 200 "alice"%string)).
Proof. vm_compute. reflexivity. Qed.
Lemma demo_door_clean : @from_provider demo_published (demo_door empty_dir ∅).
Proof. done. Qed.
Lemma session_token_signed_witness : fst demo_answer = Some (Ok (WriteJSON 200 "alice"%string)) /\
  exists token c, auth_bearer (h_Header demo_signed_in "Authorization") = Some token /\
    @session Demo.scheme Demo.around demo_published demo_neon token c.
Proof.
  split; [exact demo_signs_in|]. pose proof demo_signs_in as Ha.
  destruct demo_answer as [x w'] eqn:E. cbn [fst] in Ha. subst x. unfold demo_answer in E.
  destruct (@session_token_signed Demo.scheme Demo.around demo_published _ demo_neon demo_console demo_signed_in
    Demo.outside0 (demo_door empty_dir ∅) _ w' E demo_door_clean) as [He|[He|(token & c & t & w1 & Ht & Hs & _)]];
    [discriminate He|discriminate He|].
  exists token, c. split; [exact Ht|exact Hs].
Defined.
