(* ===== verification/DeployLink.v ===== *)
(** * internal/deploykeys: minting deploy keys and linking a peer with one

    svc.go: a key's budget and life are bounded.  api.go: the bearer of a key proves that
    it holds the peer's private key, and the peer becomes an instance of the key's
    account.  The keys of libp2p are the parameter of [NodeCred]. *)
From Stdlib Require Import ZArith Lia Strings.Ascii Strings.String.
From stdpp Require Import base gmap strings list.
From S2P Require Import Prelude Sha256 Base58 Tx Schema BillingStore Worker GoText Json Base64 AclTypes Solana DirSchema Directory Regions Keys Pricing Jwt Http Mesh NodeCred BillingApi Inputs WalletsApi InstancesApi Access.

Open Scope Z_scope.
Local Open Scope worker_scope.
Local Open Scope go_scope.

Module DeployKeys.
Definition Audience : string := "api.opentela.ai/internal/instances/link".
Definition maxBodyBytes : Z := 8192.
Definition challengeMaxBody : Z := 4096.
Definition maxLabelLen : Z := 200.
Definition maxNameLen : Z := 100.
Definition challengeTTL : Z := 2 * 60 * second.
Definition defaultMaxUses : Z := 1.

Definition ErrTooManyKeys : err := Sentinel "deploykeys: key limit reached".
Definition ErrInvalidTTL : err := Sentinel "deploykeys: invalid ttl".
Definition ErrInvalidMaxUses : err := Sentinel "deploykeys: invalid max_uses".
Definition MinTTL : Z := 5 * 60 * second.
Definition MaxTTL : Z := 90 * 24 * 3600 * second.
Definition MinMaxUses : Z := 1.
Definition MaxMaxUses : Z := 100.
Definition Prefix : string -> string := key_prefix 12.

(** The parameters of a key that is minted; a life of 0 is no end, a budget of 0 no limit. *)
Definition check_mint (maxUses ttl : Z) : res unit :=
  if (maxUses <? 0) || ((maxUses >? 0) && ((maxUses <? MinMaxUses) || (maxUses >? MaxMaxUses))) then Err ErrInvalidMaxUses
  else if (ttl <? 0) || (negb (ttl =? 0) && (ttl <? MinTTL)) || (ttl >? MaxTTL) then Err ErrInvalidTTL
  else Ok tt.
(** [time.Duration(n) * time.Second] *)
Definition seconds (n : Z) : Z := i64 (n * second).

Record LinkService := mkLinkService { ls_ownershipMaxAge : Z; ls_maxPerUser : Z }.

(** ** Requests and answers *)
Definition dec_challengeRequest : decoder string := strict_struct [ ("peer_id"%string, dec_string) ].
Record challengeResponse := mkLinkChallenge {
  lc_ChallengeID : string; lc_PeerID : string; lc_Audience : string; lc_Nonce : string; lc_IssuedAt : time;
  lc_ExpiresAt : time; lc_Message : string }.
Record linkRequest := mkLinkRequest { kq_proof : issueRequest; kq_Label : string }.
Definition zeroLinkRequest : linkRequest := mkLinkRequest zeroIssueRequest "".
(** The proof's fields are those of a node credential's request. *)
Definition dec_linkRequest : decoder linkRequest := strict_struct [
  fld "peer_id" kq_proof (fun v q => mkLinkRequest v (kq_Label q)) (fun p j => let? s := dec_string (iq_PeerID p) j in Ok (mkIssueRequest (iq_ChallengeID p) s (iq_Nonce p) (iq_PublicKey p) (iq_Signature p)));
  fld "challenge_id" kq_proof (fun v q => mkLinkRequest v (kq_Label q)) (fun p j => let? s := dec_string (iq_ChallengeID p) j in Ok (mkIssueRequest s (iq_PeerID p) (iq_Nonce p) (iq_PublicKey p) (iq_Signature p)));
  fld "nonce" kq_proof (fun v q => mkLinkRequest v (kq_Label q)) (fun p j => let? s := dec_string (iq_Nonce p) j in Ok (mkIssueRequest (iq_ChallengeID p) (iq_PeerID p) s (iq_PublicKey p) (iq_Signature p)));
  fld "public_key" kq_proof (fun v q => mkLinkRequest v (kq_Label q)) (fun p j => let? s := dec_string (iq_PublicKey p) j in Ok (mkIssueRequest (iq_ChallengeID p) (iq_PeerID p) (iq_Nonce p) s (iq_Signature p)));
  fld "signature" kq_proof (fun v q => mkLinkRequest v (kq_Label q)) (fun p j => let? s := dec_string (iq_Signature p) j in Ok (mkIssueRequest (iq_ChallengeID p) (iq_PeerID p) (iq_Nonce p) (iq_PublicKey p) s));
  fld "label" kq_Label (fun v q => mkLinkRequest (kq_proof q) v) dec_string ]%string.
Record linkResponse := mkLinkResponse {
  ka_ID : Z; ka_PeerID : string; ka_Label : string; ka_OwnerWallet : string; ka_Mode : string; ka_OwnershipStatus : string;
  ka_Relinked : bool; ka_CreatedAt : time; ka_UpdatedAt : option time }.
Definition link_response (i : InstanceInfo) (relinked : bool) : linkResponse :=
  mkLinkResponse (in_ID i) (in_PeerID i) (in_Label i) (in_OwnerWallet i) (in_AccessMode i) (in_OwnershipStatus i) relinked
    (in_CreatedAt i) (if relinked then Some (in_UpdatedAt i) else None).
Record createRequest := mkMint { mq_Name : string; mq_MaxUses : option Z; mq_TTLSeconds : Z }.
Definition dec_createRequest : decoder createRequest := strict_struct [
  fld "name" mq_Name (fun v q => mkMint v (mq_MaxUses q) (mq_TTLSeconds q)) dec_string;
  fld "max_uses" mq_MaxUses (fun v q => mkMint (mq_Name q) v (mq_TTLSeconds q)) (dec_ptr 0 dec_int64);
  fld "ttl_seconds" mq_TTLSeconds (fun v q => mkMint (mq_Name q) (mq_MaxUses q) v) dec_int64 ]%string.
Record createResponse := mkMinted {
  ma_ID : Z; ma_Key : string; ma_Prefix : string; ma_Name : string; ma_MaxUses : Z; ma_ExpiresAt : option time; ma_CreatedAt : time }.
Record deployKeyResponse := mkDeployKeyResponse {
  da_ID : Z; da_Name : string; da_Prefix : string; da_MaxUses : Z; da_UseCount : Z; da_UsesLeft : Z;
  da_ExpiresAt : option time; da_LastUsedAt : option time; da_CreatedAt : time; da_RevokedAt : option time }.
Definition deploy_key_response (k : DeployKeyInfo) : deployKeyResponse :=
  mkDeployKeyResponse (dy_ID k) (dy_Name k) (dy_KeyPrefix k) (dy_MaxUses k) (dy_UseCount k) (UsesLeft k) (dy_ExpiresAt k)
    (dy_LastUsedAt k) (dy_CreatedAt k) (dy_RevokedAt k).

Definition canonicalChallengeMessage (audience challengeID peerID nonce : string) (issuedAt expiresAt : time) : string :=
  "opentela-instance-link-challenge" +:+ newline +:+ "challenge_id=" +:+ challengeID +:+ newline +:+
  "peer_id=" +:+ peerID +:+ newline +:+ "region=" +:+ newline +:+ "role=" +:+ newline +:+
  "audience=" +:+ audience +:+ newline +:+ "nonce=" +:+ nonce +:+ newline +:+
  "issued_at=" +:+ FormatRFC3339 issuedAt +:+ newline +:+ "expires_at=" +:+ FormatRFC3339 expiresAt +:+ newline.

Section Handlers.
Context `{Ed25519} `{surroundings} `{Libp2p}.
Implicit Types (s : LinkService) (r : request).

(** ** svc.go *)
Definition Create (maxPerUser : Z) (userID name : string) (maxUses ttl : Z) : W site (string * DeployKeyInfo) :=
  let* _ := wlift (check_mint maxUses ttl) in
  let* n := callDir (CountActiveDeployKeysByUser userID) in
  if n >=? maxPerUser then wfail ErrTooManyKeys else
  let* token := GenerateToken "otd-" in
  let* expiresAt := (if ttl >? 0 then let* t := timeNow in wret (Some (t + ttl)) else wret None) in
  let* info := callDir (InsertDeployKey userID (HashKey token) (Prefix token) name maxUses expiresAt) in
  wret (token, info).

(** ** api.go: the console *)
Definition handleMint s r : W site (reply createResponse) :=
  match DecodeStrict maxBodyBytes dec_createRequest (mkMint "" None 0) r with
  | Err _ => wret (http_error 400 "invalid JSON body")
  | Ok req =>
    if slen (mq_Name req) >? maxNameLen then wret (http_error 400 "name too long") else
    let maxUses := default defaultMaxUses (mq_MaxUses req) in
    let ttl := if mq_TTLSeconds req =? 0 then 0 else seconds (mq_TTLSeconds req) in
    let*? created := Create (ls_maxPerUser s) (WalletsApi.userID r) (mq_Name req) maxUses ttl in
    match created with
    | Err e =>
      if errors_is e ErrTooManyKeys then wret (http_error 409 "deploy key limit reached")
      else if errors_is e ErrInvalidTTL || errors_is e ErrInvalidMaxUses then wret (http_error 400 (error_text e))
      else service_unavailable
    | Ok (token, info) =>
      wret (WriteJSON 201 (mkMinted (dy_ID info) token (dy_KeyPrefix info) (dy_Name info) (dy_MaxUses info) (dy_ExpiresAt info)
        (dy_CreatedAt info)))
    end
  end.
Definition handleListKeys r : W site (reply (list deployKeyResponse)) :=
  or_unavailable (callDir (ListDeployKeysByUser (WalletsApi.userID r))) (fun keys =>
  wret (WriteJSON 200 (map deploy_key_response keys))).
Definition handleRevoke r : W site (reply unit) :=
  match ParseInt (h_PathValue r "id") with
  | Err _ => wret (http_error 400 "invalid key id")
  | Ok id =>
    or_unavailable (callDir (RevokeDeployKeyByIDForUser (WalletsApi.userID r) id)) (fun hc =>
    if negb (snd hc) then wret (http_error 404 "not found") else wret (WriteHeader 204))
  end.

(** ** api.go: the nodes *)
Definition deploy_token (header : string) : string := TrimSpace (TrimPrefix "Bearer " header).
Definition challenge_header (text : string) {A} : W site (reply A) :=
  wret (HttpError [("WWW-Authenticate", text)]%string 401 "unauthorized").
Definition quote : string := text_of ["034"%char].
Definition realm : string := "Bearer realm=" +:+ quote +:+ "deploy-key" +:+ quote.
Definition authorized {A} r (k : DeployKeyInfo -> W site (reply A)) : W site (reply A) :=
  let token := deploy_token (h_Header r "Authorization") in
  if String.eqb token "" || negb (HasPrefix token "otd-") then challenge_header realm else
  let* now := timeNow in
  let*? key := callDir (FindActiveDeployKey (HashKey token) now) in
  match key with
  | Ok key => k key
  | Err _ => challenge_header (realm +:+ ", error=" +:+ quote +:+ "invalid_token" +:+ quote)
  end.

Definition LinkChallengeHandler r : W site (reply challengeResponse) :=
  if negb (String.eqb (h_Method r) "POST") then method_not_allowed else
  authorized r (fun _ =>
  match DecodeStrict challengeMaxBody dec_challengeRequest "" r with
  | Err _ => wret (http_error 400 "invalid JSON body")
  | Ok peer =>
    let peerID := TrimSpace peer in
    if negb (ValidPeerID peerID) then wret (http_error 400 "invalid peer_id") else
    let* now := timeNow in
    or_unavailable (randomString 24) (fun nonce =>
    or_unavailable (randomString 18) (fun challengeID =>
    let expiresAt := now + challengeTTL in
    let message := canonicalChallengeMessage Audience challengeID peerID nonce now expiresAt in
    let*? created := callDir (CreateInstanceLinkChallenge
      (mkNodeChallenge challengeID peerID "" "" Audience (HashKey nonce) message now expiresAt None)) in
    match created with
    | Err e =>
      if errors_is e ErrStoreConflict
      then wret (HttpError [("Retry-After", "60")]%string 429 "too many pending challenges") else service_unavailable
    | Ok _ => wret (WriteJSON 201 (mkLinkChallenge challengeID peerID Audience nonce now expiresAt message))
    end))
  end).

Definition consume_refusal {A} (e : err) : W site (reply A) :=
  if errors_is e ErrStoreNotFound then wret (http_error 404 "challenge not found")
  else if errors_is e ErrChallengeExpired || errors_is e ErrChallengeConsumed then wret (http_error 409 "challenge unavailable")
  else service_unavailable.
Definition new_linked (userID peerID label wallet : string) : InstanceInfo :=
  mkInstance 0 userID peerID label wallet "restricted" "" 0 "active" None None zeroTime zeroTime [] None [].

(** The peer is seen, of late, with another wallet. *)
Definition of_another_wallet s (peerID wallet : string) : W site bool :=
  let*? obs := LookupPeer peerID in
  match obs with
  | Err _ => wret false
  | Ok obs =>
    let* fresh := InstancesApi.observationFresh (ls_ownershipMaxAge s) obs in
    wret (fresh && negb (String.eqb (ob_Wallet obs) wallet))
  end.

Definition exhausted {A} : W site (reply A) := wret (http_error 403 "deploy key exhausted or expired").
(** A new instance of the key's account, for one use of the key. *)
Definition link_new s (key : DeployKeyInfo) (peerID label : string) (now : time) : W site (reply linkResponse) :=
  if negb (Usable key now) then exhausted else
  or_unavailable (callDir (GetUserWalletSet (dy_UserID key))) (fun wallets =>
  match wallets with
  | [] => wret (http_error 422 "link a wallet to your account first (billing requires one)")
  | ownerWallet :: _ =>
    let* other := of_another_wallet s peerID ownerWallet in
    if other then wret (http_error 409 "peer belongs to a different wallet") else
    let*? userID := callDir (ConsumeDeployKeyUse (dy_KeyHash key) now) in
    match userID with
    | Err e => if errors_is e ErrStoreNotFound then exhausted else service_unavailable
    | Ok userID =>
      let*? created := callDir (CreateInstance (new_linked userID peerID label ownerWallet)) in
      match created with
      | Err e => if errors_is e ErrStoreConflict then InstancesApi.claimed else service_unavailable
      | Ok created => wret (WriteJSON 201 (link_response created false))
      end
    end
  end).

Definition LinkHandler s r : W site (reply linkResponse) :=
  if negb (String.eqb (h_Method r) "POST") then method_not_allowed else
  authorized r (fun key =>
  match DecodeStrict maxBodyBytes dec_linkRequest zeroLinkRequest r with
  | Err _ => wret (http_error 400 "invalid JSON body")
  | Ok req =>
    let p := kq_proof req in
    let peerID := TrimSpace (iq_PeerID p) in
    let p := mkIssueRequest (iq_ChallengeID p) peerID (iq_Nonce p) (iq_PublicKey p) (iq_Signature p) in
    if negb (ValidPeerID peerID) then wret (http_error 400 "invalid peer_id")
    else if slen (kq_Label req) >? maxLabelLen then wret (http_error 400 "label too long") else
    let* now := timeNow in
    let*? challenge := callDir (ConsumeNodeCredentialChallenge (iq_ChallengeID p) peerID (iq_Nonce p) Audience now) in
    match challenge with
    | Err e => consume_refusal e
    | Ok challenge =>
      if negb (proves p (nd_ChallengeMessage challenge)) then wret (http_error 400 "invalid proof") else
      let*? existing := callDir (GetInstanceByPeerID peerID) in
      match existing with
      | Ok existing =>
        if String.eqb (in_AccountID existing) (dy_UserID key) then wret (WriteJSON 200 (link_response existing true))
        else InstancesApi.claimed
      | Err e =>
        if negb (errors_is e ErrStoreNotFound) then service_unavailable
        else link_new s key peerID (kq_Label req) now
      end
    end
  end).
End Handlers.
End DeployKeys.
