(* ===== verification/ManageSpec.v ===== *)
(** * Linking a wallet, registering a peer, joining with a deploy key

    What has been checked by the time each of them is answered with 201. *)
From Stdlib Require Import ZArith Lia Strings.Ascii Strings.String.
From stdpp Require Import base gmap strings list sorting relations.
From S2P Require Import Prelude Sha256 Base58 Tx Schema BillingStore DepositStore Worker GoText Json Base64 AclTypes Solana DirSchema Directory Regions DirInv Keys DirReach DirSpec JsonPrint Pricing PricingSpec Jwt Http Mesh NodeCred NodeCredSpec BillingApi Inputs InputsSpec WalletsApi InstancesApi Access DeployLink.

Open Scope Z_scope.

(** ** The store's part *)
Definition spends (a id : string) (t : time) (d d' : dir) : Prop :=
  exists r, wallet_challenges d !! id = Some r /\ wc_account_id r = a /\ wc_used_at r = None /\ t <= wc_expires_at r /\
    d' = set_wallet_challenges (<[id := use_wallet_challenge t r]> (wallet_challenges d)) d.
Definition links_up (a wallet : string) (d d' : dir) (i : WalletInfo) : Prop :=
  wi_Wallet i = wallet /\ user_wallets d' = <[wi_ID i := mkWalletRow a wallet true (wi_CreatedAt i)]> (user_wallets d) /\
  forall k r, user_wallets d !! k = Some r -> wl_wallet r <> wallet /\ wl_account_id r <> a.

Lemma wallet_challenge_own a id d r : wallet_challenge a id d = Some r ->
  wallet_challenges d !! id = Some r /\ wc_account_id r = a.
Proof.
  unfold wallet_challenge. destruct (wallet_challenges d !! id) as [q|]; [|done].
  destruct (String.eqb_spec (wc_account_id q) a); [|done]. by intros [= <-].
Qed.
Lemma get_challenge_ok a id e d c d' : run (GetWalletChallenge a id) e d = (Ok c, d') ->
  d' = d /\ exists r, wallet_challenges d !! id = Some r /\ wc_account_id r = a /\ wh_Wallet c = wc_wallet r /\
    wh_Message c = wc_message r.
Proof.
  unfold GetWalletChallenge, select. intros E. run_all. split; [done|].
  match goal with F : wallet_challenge _ _ _ = Some ?r |- _ => apply wallet_challenge_own in F as [? ?]; by exists r end.
Qed.
Lemma consume_spends a id t e d d' : run (ConsumeWalletChallenge a id t) e d = (Ok tt, d') -> spends a id t d d'.
Proof.
  unfold ConsumeWalletChallenge, sql_use_wallet_challenge, select. intros E. run_all.
  match goal with F : wallet_challenge _ _ _ = Some ?r, G : After _ _ = false |- _ =>
    apply wallet_challenge_own in F as [? ?]; exists r; unfold After in G; apply Z.ltb_ge in G; done end.
Qed.
Lemma link_links a wallet e d i d' : run (LinkWallet a wallet) e d = (Ok i, d') -> links_up a wallet d d' i.
Proof.
  unfold LinkWallet, advisory_lock, sql_wallet_owner, sql_account_wallet, sql_insert_wallet, select. intros E. run_all.
  split; [done|]. split; [done|]. intros k r Hk.
  repeat match goal with F : find_row _ _ = None |- _ => apply (find_row_None _ _ _ _ F) in Hk as ?; clear F end.
  split; by apply String.eqb_neq.
Qed.

Lemma VerifySignature_inv `{Ed25519} wallet message signature : VerifySignature wallet message signature = Ok tt ->
  exists pub sig, DecodeBase58 wallet PublicKeyBytes = Ok pub /\ Z.of_nat (length pub) = PublicKeyBytes /\
    DecodeSignature signature = Ok sig /\ ed25519_Verify pub (bytes_of_string message) sig = true.
Proof.
  unfold VerifySignature. destruct (DecodeBase58 _ _) as [pub|]; [|done].
  destruct (Z.eqb_spec (Z.of_nat (length pub)) PublicKeyBytes); [|done]. cbn [negb].
  destruct (DecodeSignature _) as [sig|]; [|done]. destruct (ed25519_Verify _ _ _) eqn:E; [|done]. by exists pub, sig.
Qed.

Section Specs.
Context `{Ed25519} `{surroundings}.

Lemma timeNow_inv o w t w' : timeNow o w = (Some (Ok t), w') ->
  t = site_now (st_calls (w_node w)) /\ st_dir (w_node w') = st_dir (w_node w) /\ st_calls (w_node w') = S (st_calls (w_node w)).
Proof. by intros [= <- <-]. Qed.
Lemma reconcile_same s wallet account o w r w' : WalletsApi.reconcile_deposits s wallet account o w = (r, w') ->
  st_dir (w_node w') = st_dir (w_node w).
Proof.
  unfold WalletsApi.reconcile_deposits. destruct (WalletsApi.ws_reconciler s); [|by intros [= _ <-]].
  unfold wbind, wattempt, timeNow, asks_site, callNode, callStore, wret. cbn.
  destruct (run _ _ _) as [x d]. by intros [= _ <-].
Qed.

(** Everything a link has been checked for, call by call from the [k]-th on. *)
Definition link_earned (r : request) (d0 : dir) (k : nat) (rep : WalletsApi.walletResponse) (d3 : dir) : Prop :=
  exists req row pub sig d2 info,
    let user := WalletsApi.userID r in let id := WalletsApi.lq_ChallengeID req in let d1 := dir_others k d0 in
    DecodeStrict WalletsApi.maxBodyBytes WalletsApi.dec_linkRequest (WalletsApi.mkLink "" "") r = Ok req /\
    wallet_challenges d1 !! id = Some row /\ wc_account_id row = user /\
    DecodeBase58 (wc_wallet row) PublicKeyBytes = Ok pub /\ Z.of_nat (length pub) = PublicKeyBytes /\
    DecodeSignature (WalletsApi.lq_Signature req) = Ok sig /\
    ed25519_Verify pub (bytes_of_string (wc_message row)) sig = true /\
    spends user id (site_now (S k)) (dir_others (2 + k) d1) d2 /\
    links_up user (wc_wallet row) (dir_others (3 + k) d2) d3 info /\
    rep = WalletsApi.wallet_response info.

(** C9: a wallet is linked to an account only by its key: whenever the link is answered
    with 201, the caller named a challenge of its own account, the wallet's Ed25519 key
    has signed that challenge's very message, the challenge was open and unexpired and is
    used up, the wallet had no account and the account no wallet, and the link that was
    written is the one answered. *)
Theorem wallet_link_needs_signature s r o w rep w' :
  WalletsApi.handleLink s r o w = (Some (Ok (WriteJSON 201 rep)), w') ->
  link_earned r (st_dir (w_node w)) (st_calls (w_node w)) rep (st_dir (w_node w')).
Proof.
  unfold WalletsApi.handleLink. destruct (DecodeStrict _ _ _ r) as [req|] eqn:Hreq; [|done].
  destruct (_ || _); [done|]. intros Hi.
  apply wattempt_inv in Hi as ([ch|e] & w1 & Hch & Hi); [|by destruct (errors_is e _)].
  apply callDir_inv in Hch as [Hch Hk1]. apply get_challenge_ok in Hch as (Hd1 & row & Hrow & Hacc & Hwal & Hmsg).
  destruct (VerifySignature _ _ _) as [[]|] eqn:Hv; [|done]. rewrite Hwal, Hmsg in Hv.
  apply VerifySignature_inv in Hv as (pub & sig & Hpub & Hlen & Hsig & Hver).
  apply wbind_inv in Hi as (t & w2 & (-> & Hd2 & Hk2)%timeNow_inv & Hi).
  apply wattempt_inv in Hi as ([[]|e] & w3 & Hc & Hi);
    [|unfold WalletsApi.consume_refusal in Hi; by repeat (destruct (errors_is e _) in Hi; [done|])].
  apply callDir_inv in Hc as [Hc Hk3]. apply consume_spends in Hc.
  apply wattempt_inv in Hi as ([info|e] & w4 & Hl & Hi);
    [|unfold WalletsApi.link_refusal in Hi; by repeat (destruct (errors_is e _) in Hi; [done|])].
  apply callDir_inv in Hl as [Hl _]. apply link_links in Hl.
  apply wbind_inv in Hi as (u & w5 & Hr & Hi). injection Hi as <- <-. apply reconcile_same in Hr.
  rewrite Hk3, Hk2, Hk1, Hwal in Hl. rewrite Hk2, Hd2, Hd1, Hk1 in Hc. rewrite <- Hr in Hl.
  by exists req, row, pub, sig, (st_dir (w_node w3)), info.
Qed.
End Specs.

(** ** Registering a peer *)
Lemma enrichInstance_fields i e c j c' : enrichInstance i e c = (Ok j, c') -> c_tx c = None ->
  c_db c' = c_db c /\ in_ID j = in_ID i /\ in_AccountID j = in_AccountID i /\ in_PeerID j = in_PeerID i /\
  in_OwnerWallet j = in_OwnerWallet i /\ in_AccessMode j = in_AccessMode i.
Proof.
  intros He Ht. split.
  - assert (Hm : Moves (=) (enrichInstance i)).
    { unfold enrichInstance, enrichInstances, listMemberships, listInstanceServices, listServiceRulesByServiceIDs.
      cbv zeta. moves; by intros ? ? ? [= _ <-]. }
    destruct (Hm e c (c_db c) eq_refl) as [H _]; [by rewrite Ht|]. by rewrite He in H.
  - unfold enrichInstance in He. apply mbind_inv in He as (l & c5 & Hl & Hj). injection Hj as <- _.
    unfold enrichInstances in Hl. rewrite bool_decide_eq_false_2 in Hl by done.
    apply mbind_inv in Hl as (ms & c6 & _ & Hl). apply mbind_inv in Hl as (svcs & c7 & _ & Hl). by injection Hl as <- _.
Qed.
Lemma with_tx_closed {A} fmt (m : dstore A) e d r c : with_tx fmt m e (mkConn d None false 0) = (r, c) -> c_tx c = None.
Proof.
  unfold with_tx, begin_tx. cbn. destruct (e_fault e 0); [|by intros [= _ <-]..].
  destruct (m e _) as [x c1]. by intros [= _ <-].
Qed.

Lemma create_ok i e d j d' : run (CreateInstance i) e d = (Ok j, d') ->
  exists id t, j = instance_info (id, new_instance_row i t) /\
    instances d' = <[id := new_instance_row i t]> (instances d) /\
    forall k r, instances d !! k = Some r -> ir_peer_id r <> in_PeerID i.
Proof.
  unfold CreateInstance, sql_insert_instance, write_instance. intros E. run_all.
  exists (nextval "instances" d), (e_now e). split; [done|]. split; [done|].
  intros k r Hk. match goal with F : find_row _ _ = None |- _ => apply (find_row_None _ _ _ _ F) in Hk end.
  by apply String.eqb_neq.
Qed.
Lemma reclaim_ok id a ow w0 seen e d j d' : run (ReclaimInstance id a ow w0 seen) e d = (Ok j, d') ->
  exists r t, instances d !! id = Some r /\ instances d' = <[id := row_reclaimed a ow w0 seen t r]> (instances d) /\
    acl_rules d' = drop_rules (Z.eqb id) (acl_rules d) /\
    in_ID j = id /\ in_OwnerWallet j = ow /\ in_PeerID j = ir_peer_id r /\ in_AccessMode j = "restricted"%string.
Proof.
  unfold ReclaimInstance, run. unfold bind at 1. destruct (with_tx _ _ e _) as [[out|x] c] eqn:E; [|done].
  destruct (enrichInstance out e c) as [[j1|x] c1] eqn:Ee; [|done]. intros [= -> <-].
  apply enrichInstance_fields in Ee as (-> & -> & _ & -> & -> & ->); [|by eapply with_tx_closed].
  unfold sql_delete_rules, sql_update_instance, write_instance in E. run_all.
  by exists i, (e_now e).
Qed.

Lemma wallet_set_own a e d l d' w : run (GetUserWalletSet a) e d = (Ok l, d') -> w ∈ l ->
  d' = d /\ exists k r, user_wallets d !! k = Some r /\ wl_account_id r = a /\ wl_wallet r = w.
Proof.
  unfold GetUserWalletSet, select. intros E. run_all. intros ([k r] & -> & Hin)%list_elem_of_fmap. split; [done|].
  unfold account_wallets in Hin. rewrite merge_sort_Permutation in Hin.
  apply list_elem_of_In, filter_In in Hin as [Hin Ha]. apply list_elem_of_In, elem_of_map_to_list in Hin.
  exists k, r. split; [done|]. by apply String.eqb_eq in Ha.
Qed.

(** An instance keeps its peer as long as it lives, and its number is not given again. *)
Definition keeps_peer (d d' : dir) : Prop :=
  nextval "instances" d <= nextval "instances" d' /\
  forall id r', instances d' !! id = Some r' ->
    (exists r, instances d !! id = Some r /\ ir_peer_id r = ir_peer_id r') \/ nextval "instances" d <= id.
#[export] Instance keeps_peer_preorder : PreOrder keeps_peer.
Proof.
  split; [intros d; split; [lia|]; intros id r Hr; left; by exists r|].
  intros d1 d2 d3 [H1 K1] [H2 K2]. split; [lia|]. intros id r3 H3.
  destruct (K2 id r3 H3) as [(r2 & Hr2 & E2)|?]; [|right; lia].
  destruct (K1 id r2 Hr2) as [(r1 & Hr1 & E1)|?]; [|by right]. left. exists r1. split; [done|congruence].
Qed.
Lemma keeps_peer_same d d' : instances d' = instances d -> nextval "instances" d' = nextval "instances" d -> keeps_peer d d'.
Proof. intros E1 E2. split; [by rewrite E2|]. rewrite E1. intros id r Hr. left. by exists r. Qed.
Lemma keeps_peer_insert d id r f : instances d !! id = Some r -> row_update f ->
  keeps_peer d (set_instances (<[id := f r]> (instances d)) d).
Proof.
  intros Hr Hf. split; [done|]. cbn. intros j q Hq. left.
  apply lookup_insert_Some in Hq as [[<- <-]|[_ Hq]]; [|by exists q].
  exists r. split; [done|]. symmetry. apply Hf.
Qed.
Lemma effect_keeps_peer d d' : effect d d' -> keeps_peer d d'.
Proof.
  destruct 1; subst; try reflexivity; open_effect; try reflexivity;
    try (apply keeps_peer_same; try reflexivity; unfold nextval; simpl; by rewrite lookup_insert_ne by discriminate).
  - split; [change (nextval "instances" d <= default 1 (<["instances"%string := nextval "instances" d + 1]> (seqs d) !! "instances"%string));
      rewrite lookup_insert_eq; cbn; lia|]. cbn. intros id q Hq.
    apply lookup_insert_Some in Hq as [[<- _]|[_ Hq]]; [right; lia|left; by exists q].
  - apply keeps_peer_insert; done.
  - apply keeps_peer_insert; done.
  - split; [done|]. cbn. intros j q Hq. apply lookup_delete_Some in Hq as [_ Hq]. left. by exists q.
Qed.
Lemma peer_constant d d' id r r' : DReachable d -> rtc dstep d d' ->
  instances d !! id = Some r -> instances d' !! id = Some r' -> ir_peer_id r' = ir_peer_id r.
Proof.
  intros Hd Hs Hr Hr'. destruct (dsteps_rel keeps_peer effect_keeps_peer _ _ Hs) as [_ Hk].
  destruct (Hk id r' Hr') as [(q & Hq & E)|Hlt]; [congruence|].
  pose proof (proj1 (so_instances d (DReachable_sound _ Hd)) id ltac:(by exists r)). lia.
Qed.

(** The row of the peer: taken over from another wallet, its rules gone, or made for a
    peer that had none. *)
Definition registers (user peer wallet : string) (d d' : dir) (id : Z) : Prop :=
  exists row, instances d' = <[id := row]> (instances d) /\ ir_account_id row = user /\ ir_peer_id row = peer /\
    ir_owner_wallet row = wallet /\ ir_access_mode row = "restricted"%string /\ ir_policy_scope row = "peer"%string /\
    ((exists r, instances d !! id = Some r /\ ir_peer_id r = peer /\ acl_rules d' = drop_rules (Z.eqb id) (acl_rules d)) \/
     (forall k r, instances d !! k = Some r -> ir_peer_id r <> peer)).

Section Registration.
Context `{Ed25519} `{surroundings}.

Lemma LookupPeer_calls id o w obs w' : LookupPeer id o w = (Some (Ok obs), w') ->
  st_calls (w_node w') = (2 + st_calls (w_node w))%nat /\ st_dir (w_node w') = st_dir (w_node w).
Proof.
  unfold LookupPeer, LookupPeers, fetchTable, asks_site, callNode, wbind. cbn.
  destruct (fetchPeerTable _) as [table|] eqn:Ef; [|done]. cbn.
  destruct (table !! id) as [peer|] eqn:Ep; [|by cbn; rewrite lookup_empty].
  destruct (pr_Connected peer) eqn:Hc; cbn; [|by rewrite lookup_empty]. unfold wlift, wbind.
  destruct (verifiedWallet id peer) as [wallet|] eqn:Hv; [|done]. cbn. rewrite lookup_insert_eq. cbn.
  by intros [= _ <-].
Qed.
Lemma fresh_inv maxAge obs o w b w' : InstancesApi.observationFresh maxAge obs o w = (Some (Ok b), w') ->
  st_dir (w_node w') = st_dir (w_node w) /\
  (st_calls (w_node w') = st_calls (w_node w) \/ st_calls (w_node w') = S (st_calls (w_node w))) /\
  (b = true -> maxAge <= 0 \/ Sub (site_now (st_calls (w_node w))) (ob_ObservedAt obs) <= maxAge).
Proof.
  unfold InstancesApi.observationFresh. destruct (Z.leb_spec maxAge 0).
  - intros [= <- <-]. auto.
  - unfold wbind, timeNow, asks_site, callNode, wret. cbn. intros [= <- <-]. cbn. split; [done|]. split; [by right|].
    intros Hb. apply Z.leb_le in Hb. by right.
Qed.
Lemma or_unavailable_inv {A B} (m : W site A) (k : A -> W site (reply B)) o w status rep w' :
  or_unavailable m k o w = (Some (Ok (WriteJSON status rep)), w') ->
  exists a w1, m o w = (Some (Ok a), w1) /\ k a o w1 = (Some (Ok (WriteJSON status rep)), w').
Proof.
  unfold or_unavailable. intros ([a|e] & w1 & Hm & Hk)%wattempt_inv; [by exists a, w1|done].
Qed.

Hypothesis others_step : forall k d, rtc dstep d (dir_others k d).

(** Everything a registration has been checked for, call by call from the [k]-th on. *)
Definition registration_earned (s : InstancesApi.InstanceService) (r : request) (d0 : dir) (k : nat)
    (rep : InstancesApi.instanceResponse) (d' : dir) : Prop :=
  exists req wallet k1,
    let user := WalletsApi.userID r in let peer := TrimSpace (InstancesApi.cq_PeerID req) in
    let d1 := dir_others k1 d0 in
    DecodeStrict InstancesApi.maxBodyBytes InstancesApi.dec_createRequest (InstancesApi.mkCreateRequest "" "") r = Ok req /\
    ValidPeerID peer = true /\ attested_at k peer wallet /\
    (InstancesApi.xs_ownershipMaxAge s <= 0 \/
     Sub (site_now (2 + k)) (site_now (S k)) <= InstancesApi.xs_ownershipMaxAge s) /\
    (k1 = (2 + k)%nat \/ k1 = (3 + k)%nat) /\
    (exists i row, user_wallets d1 !! i = Some row /\ wl_account_id row = user /\ wl_wallet row = wallet) /\
    registers user peer wallet (dir_others (2 + k1) (dir_others (S k1) d1)) d' (InstancesApi.nr_ID rep) /\
    InstancesApi.nr_OwnerWallet rep = wallet /\ InstancesApi.nr_PeerID rep = peer /\ InstancesApi.nr_Mode rep = "restricted"%string.

Lemma by_peer_own peer d kr : by_peer peer d = Some kr -> instances d !! fst kr = Some (snd kr) /\ ir_peer_id (snd kr) = peer.
Proof.
  unfold by_peer. destruct kr as [i q]. intros [Hq Ha]%find_row_Some. split; [done|]. by apply String.eqb_eq in Ha.
Qed.
Lemma loadInstance_id q e d i d' : run (loadInstance q) e d = (Ok i, d') -> d' = d /\ exists kr, q d = Some kr /\ in_ID i = fst kr.
Proof.
  intros Hl. pose proof (moves_run (=) (loadInstance q) e d (loadInstance_read q)) as Hd. rewrite Hl in Hd. simpl in Hd.
  split; [done|]. unfold run, loadInstance in Hl. destruct (bind _ _ e _) as [x c] eqn:E; injection Hl as -> <-.
  apply mbind_inv in E as (i0 & c0 & Hi & E). apply mbind_inv in E as (j & c1 & Hj & E).
  apply mbind_inv in E as (rules & c2 & _ & E). injection E as <- _.
  unfold getInstance in Hi. apply mbind_inv in Hi as (kr & c4 & Hk & Hi). injection Hi as <- <-.
  exists kr. unfold found, attempt, scan_row, bind in Hk.
  unfold pool_stmt, select in Hk. cbn in Hk. destruct (q d) as [kr'|], (e_fault e 0); simplify_eq/=; try done.
  all: split; [by inversion Hk|]. all: apply enrichInstance_fields in Hj as (_ & Hid & _); [|by inversion Hk]; cbn; by rewrite Hid.
Qed.

Lemma register_registers user peer label obs o w rep w' :
  DReachable (st_dir (w_node w)) -> ob_PeerID obs = peer ->
  InstancesApi.register user peer label obs o w = (Some (Ok (WriteJSON 201 rep)), w') ->
  let k := st_calls (w_node w) in
  registers user peer (ob_Wallet obs) (dir_others (S k) (dir_others k (st_dir (w_node w)))) (st_dir (w_node w')) (InstancesApi.nr_ID rep) /\
  InstancesApi.nr_OwnerWallet rep = ob_Wallet obs /\ InstancesApi.nr_PeerID rep = peer /\ InstancesApi.nr_Mode rep = "restricted"%string.
Proof.
  intros Hr Hp. unfold InstancesApi.register. intros ([old|e] & w1 & Hold & Hi)%wattempt_inv; cbv zeta.
  - apply callDir_inv in Hold as [Hold Hk]. apply loadInstance_id in Hold as (Hd & kr & Hkr & Hid).
    destruct (String.eqb _ _); [done|]. apply or_unavailable_inv in Hi as (j & w2 & Hj & Hi). injection Hi as <- <-.
    apply callDir_inv in Hj as [Hj _]. rewrite Hk, Hd, Hid in Hj.
    apply reclaim_ok in Hj as (q & t & Hq & Hi & Ha & Hj1 & Hj2 & Hj3 & Hj4).
    apply by_peer_own in Hkr as [Hrow Hpeer].
    assert (ir_peer_id q = peer) as Hqp.
    { rewrite <- Hpeer. eapply peer_constant; [|apply (others_step (S (st_calls (w_node w))))|exact Hrow|exact Hq].
      eapply DReachable_steps; [exact Hr|apply others_step]. }
    cbn. rewrite Hj1, Hj2, Hj3, Hj4, Hqp. split; [|done].
    eexists. split; [exact Hi|]. do 5 (split; [done|]). left. by exists q.
  - destruct (negb _); [done|]. apply callDir_inv in Hold as [Hold Hk].
    pose proof (moves_run (=) (GetInstanceByPeerID peer) (dir_env (st_calls (w_node w)))
      (dir_others (st_calls (w_node w)) (st_dir (w_node w))) (loadInstance_read _)) as Hd. rewrite Hold in Hd. simpl in Hd.
    apply wattempt_inv in Hi as ([j|x] & w2 & Hj & Hi); [|by destruct (errors_is x _)]. injection Hi as <- <-.
    apply callDir_inv in Hj as [Hj _]. rewrite Hk, <- Hd in Hj. apply create_ok in Hj as (id & t & -> & Hi & Hn).
    cbn. split; [|done]. eexists. split; [exact Hi|]. do 5 (split; [done|]). right. exact Hn.
Qed.

(** C17: a peer is registered only by the account of its wallet, while it is live: whenever
    the registration is answered with 201, the mesh showed the peer connected under an
    identity that the wallet's key has signed, recently enough, the wallet was linked to
    the caller's account, and the row written is the caller's, under that wallet and
    restricted; the peer had no row, or the row is taken over without its rules. *)
Theorem registration_needs_live_wallet s r o w rep w' :
  DReachable (st_dir (w_node w)) ->
  InstancesApi.handleCreate s r o w = (Some (Ok (WriteJSON 201 rep)), w') ->
  registration_earned s r (st_dir (w_node w)) (st_calls (w_node w)) rep (st_dir (w_node w')).
Proof.
  intros Hr. unfold InstancesApi.handleCreate. destruct (DecodeStrict _ _ _ r) as [req|] eqn:Hreq; [|done]. cbv zeta.
  destruct (ValidPeerID _) eqn:Hvalid; [|done]. destruct (_ >? _); [done|]. cbn [negb].
  intros ([obs|e] & w1 & Hobs & Hi)%wattempt_inv; [|by destruct (_ && _)].
  pose proof (LookupPeer_calls _ _ _ _ _ Hobs) as [Hk1 Hd1]. apply LookupPeer_run in Hobs as (Hatt & Hpeer & Hat).
  apply wbind_inv in Hi as (fresh & w2 & (Hd2 & Hk2 & Hf)%fresh_inv & Hi). destruct fresh; [|done]. cbn [negb] in Hi.
  apply or_unavailable_inv in Hi as (wallets & w3 & Hw & Hi). case_bool_decide as Hin; [|done]. cbn [negb] in Hi.
  unfold WalletsApi.UserWalletSet in Hw. apply wbind_inv in Hw as (l & w4 & Hl & Hw). injection Hw as <- <-.
  apply callDir_inv in Hl as [Hl Hk3]. apply elem_of_list_to_set in Hin.
  destruct (wallet_set_own _ _ _ _ _ _ Hl Hin) as [Hd3 Hown]. rewrite Hd2, Hd1 in Hd3, Hown.
  apply register_registers in Hi; [|rewrite Hd3; eapply DReachable_steps; [exact Hr|apply others_step]|done].
  cbv zeta in Hi. rewrite Hk3, Hd3 in Hi. rewrite Hat, Hk1 in Hf. destruct Hi as (Hreg & Ho & Hp & Hm).
  exists req, (ob_Wallet obs), (st_calls (w_node w2)). cbv zeta. split; [exact Hreq|]. split; [done|].
  split; [exact Hatt|].
  split; [by apply Hf|]. split; [rewrite Hk1 in Hk2; destruct Hk2 as [->| ->]; auto|]. done.
Qed.
End Registration.

(** ** Joining with a deploy key *)
Lemma find_key_ok h t e d key d' : run (FindActiveDeployKey h t) e d = (Ok key, d') ->
  d' = d /\ exists id r, deploy_keys d !! id = Some r /\ dk_key_hash r = h /\ dk_active r = true /\ dk_revoked_at r = None /\
    (forall x, dk_expires_at r = Some x -> t <= x) /\ dy_UserID key = dk_user_id r /\ dy_KeyHash key = h.
Proof.
  unfold FindActiveDeployKey, scanDeployKey, select. generalize h as x. intros x.
  unfold run, found, scan_row, attempt, bind, pool_stmt. cbn.
  destruct (e_fault e 0); cbn; try done. unfold deploy_key_by_hash.
  destruct (find_row _ _) as [[id r]|] eqn:Hf; cbn; [|done]. apply find_row_Some in Hf as [Hr Hh]. apply String.eqb_eq in Hh.
  unfold lift, deploy_key_info. cbn. destruct (dk_name r); cbn; [|done].
  destruct (dk_active r) eqn:Ha; cbn; [|done]. destruct (dk_revoked_at r) eqn:Hv; cbn; [done|].
  unfold Expired. cbn. destruct (dk_expires_at r) as [y|] eqn:He; cbn.
  - unfold After. destruct (Z.ltb_spec y t); cbn; [done|]. intros [= <- <-]. split; [done|]. exists id, r.
    repeat (split; [done|]). split; [intros z Hz; rewrite He in Hz; injection Hz as <-; lia|done].
  - intros [= <- <-]. split; [done|]. exists id, r. repeat (split; [done|]). split; [intros z Hz; congruence|done].
Qed.
Lemma wallet_linked_row a wallet d : wallet_linked a wallet d = true ->
  exists k r, user_wallets d !! k = Some r /\ wl_account_id r = a /\ wl_wallet r = wallet.
Proof.
  unfold wallet_linked. destruct (find_row _ _) as [[k r]|] eqn:Hf; [|done]. apply find_row_Some in Hf as [Hk Hp].
  apply andb_prop in Hp as [?%String.eqb_eq ?%String.eqb_eq]. by exists k, r.
Qed.
Lemma create_linked i e d j d' : run (CreateInstance i) e d = (Ok j, d') ->
  exists k r, user_wallets d !! k = Some r /\ wl_account_id r = in_AccountID i /\ wl_wallet r = in_OwnerWallet i.
Proof.
  unfold CreateInstance, sql_insert_instance, write_instance. intros E. run_all.
  match goal with F : negb (wallet_linked _ _ _) = false |- _ => apply negb_false_iff, wallet_linked_row in F as (k & r & ?) end.
  by exists k, r.
Qed.

Section Joining.
Context `{Ed25519} `{surroundings} `{Libp2p}.
Hypothesis others_step : forall k d, rtc dstep d (dir_others k d).

(** Everything a peer that joins has been checked for, from the [k]-th call on: the key
    and the proof, the use that is spent, and the row made. *)
Definition joined (r : request) (d0 : dir) (k : nat) (rep : DeployKeys.linkResponse) (d' : dir) : Prop :=
  exists req ch d2 dA user dB dC,
    let token := DeployKeys.deploy_token (h_Header r "Authorization") in
    let p := DeployKeys.kq_proof req in let peer := TrimSpace (iq_PeerID p) in
    let proof := mkIssueRequest (iq_ChallengeID p) peer (iq_Nonce p) (iq_PublicKey p) (iq_Signature p) in
    let d1 := dir_others (S k) d0 in
    DecodeStrict DeployKeys.maxBodyBytes DeployKeys.dec_linkRequest DeployKeys.zeroLinkRequest r = Ok req /\
    HasPrefix token "otd-" = true /\
    (exists id row, deploy_keys d1 !! id = Some row /\ dk_key_hash row = HashKey token /\ dk_active row = true /\
      dk_revoked_at row = None /\ forall x, dk_expires_at row = Some x -> site_now k <= x) /\
    takes (site_now (2 + k)) (iq_ChallengeID p) peer (iq_Nonce p) DeployKeys.Audience (dir_others (3 + k) d1) d2 ch /\
    proves proof (nd_ChallengeMessage ch) = true /\
    rtc dstep d2 dA /\
    (exists id row, deploy_keys dA !! id = Some row /\ dk_key_hash row = HashKey token /\
      spendable (site_now (2 + k)) row = true /\ dk_user_id row = user /\
      dB = set_deploy_keys (<[id := spend (site_now (2 + k)) row]> (deploy_keys dA)) dA) /\
    rtc dstep dB dC /\
    (exists row, instances d' = <[DeployKeys.ka_ID rep := row]> (instances dC) /\ ir_account_id row = user /\
      ir_peer_id row = peer /\ ir_access_mode row = "restricted"%string /\
      (exists i w, user_wallets dC !! i = Some w /\ wl_account_id w = user /\ wl_wallet w = ir_owner_wallet row) /\
      forall i q, instances dC !! i = Some q -> ir_peer_id q <> peer).

(** A computation that leaves the directory alone. *)
Definition still {A} (m : W site A) : Prop := forall o w, st_dir (w_node (snd (m o w))) = st_dir (w_node w).
Lemma still_bind {A B} (m : W site A) (k : A -> W site B) : still m -> (forall a, still (k a)) -> still (wbind m k).
Proof.
  intros Hm Hk o w. unfold wbind. specialize (Hm o w). destruct (m o w) as [[[a|e]|] w1]; [by rewrite Hk|done..].
Qed.
Lemma still_attempt {A B} (m : W site A) (k : res A -> W site B) : still m -> (forall a, still (k a)) -> still (wattempt m k).
Proof.
  intros Hm Hk o w. unfold wattempt. specialize (Hm o w). destruct (m o w) as [[r|] w1]; [by rewrite Hk|done].
Qed.
Lemma still_observePeers table ids : forall out, still (observePeers table ids out).
Proof.
  induction ids as [|i ids IH]; intros out; simpl; [done|].
  destruct (table !! i) as [peer|]; [|apply IH]. destruct (negb _); [apply IH|].
  apply still_bind; [done|intros wallet]. apply still_bind; [done|intros t; apply IH].
Qed.
Lemma still_LookupPeer id : still (LookupPeer id).
Proof.
  apply still_bind; [|intros obs o w; by destruct (obs !! id)].
  apply still_bind; [done|intros table; apply still_observePeers].
Qed.
Lemma still_another s peer wallet : still (DeployKeys.of_another_wallet s peer wallet).
Proof.
  unfold DeployKeys.of_another_wallet, InstancesApi.observationFresh. apply still_attempt; [apply still_LookupPeer|].
  intros [obs|e]; [|done]. apply still_bind; [|done]. destruct (_ <=? 0); [done|]. by apply still_bind.
Qed.

Lemma read_steps {A} (m : dstore A) o w r w' : Moves (=) m -> callDir m o w = (Some r, w') ->
  rtc dstep (st_dir (w_node w)) (st_dir (w_node w')).
Proof.
  intros Hm [Hr _]%callDir_inv. pose proof (moves_run (=) m (dir_env (st_calls (w_node w)))
    (dir_others (st_calls (w_node w)) (st_dir (w_node w))) Hm) as Hd. rewrite Hr in Hd. simpl in Hd. rewrite <- Hd. apply others_step.
Qed.
Lemma wallet_set_reads a : Moves (=) (GetUserWalletSet a).
Proof. unfold GetUserWalletSet. moves; by intros ? ? ? [= _ <-]. Qed.

(** The part that makes the row, for one use of the key. *)
Lemma link_new_joins s key peer label now o w rep w' :
  DeployKeys.link_new s key peer label now o w = (Some (Ok (WriteJSON 201 rep)), w') ->
  exists dA user dB dC, rtc dstep (st_dir (w_node w)) dA /\
    (exists id row, deploy_keys dA !! id = Some row /\ dk_key_hash row = dy_KeyHash key /\
      spendable now row = true /\ dk_user_id row = user /\ dB = set_deploy_keys (<[id := spend now row]> (deploy_keys dA)) dA) /\
    rtc dstep dB dC /\
    (exists row, instances (st_dir (w_node w')) = <[DeployKeys.ka_ID rep := row]> (instances dC) /\ ir_account_id row = user /\
      ir_peer_id row = peer /\ ir_access_mode row = "restricted"%string /\
      (exists i w, user_wallets dC !! i = Some w /\ wl_account_id w = user /\ wl_wallet w = ir_owner_wallet row) /\
      forall i q, instances dC !! i = Some q -> ir_peer_id q <> peer).
Proof.
  unfold DeployKeys.link_new. destruct (negb _); [done|].
  intros (l & w1 & Hl & Hi)%or_unavailable_inv. destruct l as [|wallet l]; [done|].
  apply read_steps in Hl; [|apply wallet_set_reads].
  apply wbind_inv in Hi as (other & w2 & Ho & Hi). pose proof (still_another s peer wallet o w1) as Hd. rewrite Ho in Hd. simpl in Hd.
  destruct other; [done|]. apply wattempt_inv in Hi as ([user|e] & w3 & Hu & Hi); [|by destruct (errors_is e _)].
  apply callDir_inv in Hu as [Hu _]. apply spend_ok in Hu as (id & row & Hrow & Hh & Hs & Hus & Hb).
  apply wattempt_inv in Hi as ([j|e] & w4 & Hj & Hi); [|by destruct (errors_is e _)]. injection Hi as <- <-.
  apply callDir_inv in Hj as [Hj _]. pose proof (create_linked _ _ _ _ _ Hj) as Hlink.
  apply create_ok in Hj as (k & t & -> & Hi & Hn).
  eexists _, user, _, _. split; [|split; [|split; [|]]].
  - etrans; [exact Hl|]. rewrite <- Hd. apply (others_step (st_calls (w_node w2))).
  - exists id, row. do 4 (split; [done|]). exact Hb.
  - apply (others_step (st_calls (w_node w3))).
  - eexists. split; [exact Hi|]. do 3 (split; [done|]). split; [exact Hlink|exact Hn].
Qed.

(** C28: a peer joins an account with a deploy key only by proof: whenever the link is
    answered with 201, the bearer's key was an active, unrevoked and unexpired deploy key,
    the challenge named was open, made for this peer and this purpose, and is taken, the
    peer's own key has signed it, one use of the deploy key has been spent while it was
    still spendable, and the row made is of the key's account, under a wallet linked to
    that account, for a peer that had no row. *)
Theorem link_needs_proof s r o w rep w' :
  DeployKeys.LinkHandler s r o w = (Some (Ok (WriteJSON 201 rep)), w') ->
  joined r (st_dir (w_node w)) (st_calls (w_node w)) rep (st_dir (w_node w')).
Proof.
  unfold DeployKeys.LinkHandler. destruct (negb _); [done|]. unfold DeployKeys.authorized. cbv zeta.
  destruct (_ || _) eqn:Htok; [done|]. apply orb_false_elim in Htok as [_ Htok%negb_false_iff].
  intros (now & w1 & (-> & Hd1 & Hk1)%timeNow_inv & Hi)%wbind_inv.
  apply wattempt_inv in Hi as ([key|e] & w2 & Hkey & Hi); [|done].
  apply callDir_inv in Hkey as [Hkey Hk2]. apply find_key_ok in Hkey as (Hd2 & id & row & Hrow & Hh & Ha & Hv & Hx & _ & Hkh).
  destruct (DecodeStrict _ _ _ r) as [req|] eqn:Hreq; [|done]. cbv zeta in Hi.
  destruct (negb _); [done|]. destruct (_ >? _); [done|].
  apply wbind_inv in Hi as (now & w3 & (-> & Hd3 & Hk3)%timeNow_inv & Hi).
  apply wattempt_inv in Hi as ([ch|e] & w4 & Hch & Hi);
    [|unfold DeployKeys.consume_refusal in Hi; destruct (errors_is e _); [done|]; by destruct (_ || _)].
  apply callDir_inv in Hch as [Hch Hk4]. apply consume_takes in Hch; [|done].
  destruct (proves _ _) eqn:Hp; [|done]. cbn [negb] in Hi.
  apply wattempt_inv in Hi as ([old|e] & w5 & Hold & Hi); [by destruct (String.eqb _ _)|].
  destruct (negb _); [done|]. apply read_steps in Hold; [|apply loadInstance_read].
  apply link_new_joins in Hi as (dA & user & dB & dC & HA & Hspent & HC & Hmade).
  rewrite Hd1, Hk1 in Hd2, Hrow. rewrite Hd3, Hd2, Hk3, Hk2, Hk1 in Hch. rewrite Hk2, Hk1 in Hspent. rewrite Hkh in Hspent.
  exists req, ch, (st_dir (w_node w4)), dA, user, dB, dC. cbv zeta. split; [exact Hreq|]. split; [exact Htok|].
  split; [by exists id, row|]. split; [exact Hch|]. split; [exact Hp|]. split; [by etrans|]. done.
Qed.
End Joining.

(** ** A link and a registration *)
#[local] Existing Instance Demo.scheme.
Definition demo_peer : string := "12D3KooWQgHcDzv1UEUGDQAWYFJqeHHVfdCFmJx8jvVBPLVnmSXp".
Definition demo_table : json := JObj [(demo_peer, JObj [("connected", JBool true); ("owner", JStr Demo.wallet);
  ("identity_attestation", JObj [("peer_id", JStr demo_peer); ("wallet_pubkey", JStr Demo.wallet); ("timestamp", JInt 7);
     ("signature", JStr (EncodeToString (repeat Byte.x00 64)))])]%string)].
#[local] Instance demo_around : surroundings := {
  dir_env _ := fine_env Demo.start; dir_others _ d := d; mesh_answer _ := Ok (200, Some demo_table);
  rand_Read _ n := Ok (repeat Byte.x01 n); site_now k := Demo.start + Z.of_nat k }.
Definition demo_asks (user : string) (l : list (string * json)) : request :=
  mkHttp "POST" (Some user) None (fun _ => ""%string) (fun _ => ""%string) (fun _ => ""%string)
    ("{"%char :: print_fields l ++ ["}"%char]) false.
Definition demo_challenged : dir := dplay [(DChallenge (mkWalletChallenge "c1" "alice" Demo.wallet "n" "message" Demo.start
  (Demo.start + WalletsApi.challengeTTL)), Demo.start)] empty_dir.
Definition demo_link_request : request :=
  demo_asks "alice" [("challenge_id", JStr "c1"); ("signature", JStr (EncodeBase58 (repeat Byte.x00 64)))]%string.
Definition demo_register_request : request :=
  demo_asks "alice" [("peer_id", JStr demo_peer); ("label", JStr "box")]%string.
Definition demo_wallets : WalletsApi.WalletService := WalletsApi.mkWalletService true 0.
Definition demo_instances : InstancesApi.InstanceService := InstancesApi.mkInstanceService (60 * second) 0.
Definition demo_home_dir : dir := dplay [(DLink "alice" Demo.wallet, Demo.start)] empty_dir.
Lemma demo_linked : exists rep w',
  WalletsApi.handleLink demo_wallets demo_link_request Demo.outside0 (Demo.world0 demo_challenged) = (Some (Ok (WriteJSON 201 rep)), w') /\ WalletsApi.wr_Wallet rep = Demo.wallet.
Proof. do 2 eexists. split; vm_compute; reflexivity. Qed.
Lemma wallet_link_needs_signature_witness : exists rep w',
  WalletsApi.handleLink demo_wallets demo_link_request Demo.outside0 (Demo.world0 demo_challenged) = (Some (Ok (WriteJSON 201 rep)), w') /\
  link_earned demo_link_request (st_dir (w_node (Demo.world0 demo_challenged))) (st_calls (w_node (Demo.world0 demo_challenged))) rep (st_dir (w_node w')).
Proof.
  destruct demo_linked as (rep & w' & He & _). exists rep, w'. split; [exact He|].
  exact (wallet_link_needs_signature demo_wallets demo_link_request Demo.outside0 (Demo.world0 demo_challenged) rep w' He).
Defined.

Lemma demo_registered : exists rep w',
  InstancesApi.handleCreate demo_instances demo_register_request Demo.outside0 (Demo.world0 demo_home_dir) = (Some (Ok (WriteJSON 201 rep)), w') /\
  InstancesApi.nr_PeerID rep = demo_peer.
Proof. do 2 eexists. split; vm_compute; reflexivity. Qed.
Lemma demo_home_reachable : DReachable demo_home_dir.
Proof. apply dplay_steps. Qed.
Lemma registration_needs_live_wallet_witness : exists rep w',
  InstancesApi.handleCreate demo_instances demo_register_request Demo.outside0 (Demo.world0 demo_home_dir) = (Some (Ok (WriteJSON 201 rep)), w') /\
  registration_earned demo_instances demo_register_request (st_dir (w_node (Demo.world0 demo_home_dir)))
    (st_calls (w_node (Demo.world0 demo_home_dir))) rep (st_dir (w_node w')).
Proof.
  destruct demo_registered as (rep & w' & He & _). exists rep, w'. split; [exact He|].
  exact (registration_needs_live_wallet (fun k d => rtc_refl dstep d) demo_instances demo_register_request Demo.outside0
    (Demo.world0 demo_home_dir) rep w' demo_home_reachable He).
Defined.

#[local] Instance demo_libp2p : Libp2p := {
  PubKey := bytes; crypto_UnmarshalPublicKey b := Ok b; peer_IDFromPublicKey _ := Ok demo_peer; pub_Verify _ _ _ := Ok true }.
Definition demo_keyed : dir := dplay [(DLink "alice" Demo.wallet, Demo.start);
  (DInsertDeploy "alice" (HashKey "otd-1") "otd-1" "fleet" 1 None, Demo.start);
  (DLinkChallenge (mkNodeChallenge "c1" demo_peer "" "" DeployKeys.Audience (hashSecret "n") "message" Demo.start
     (Demo.start + DeployKeys.challengeTTL) None), Demo.start)] empty_dir.
Definition demo_join_request : request :=
  mkHttp "POST" None None (fun k => if String.eqb k "Authorization" then "Bearer otd-1"%string else ""%string)
    (fun _ => ""%string) (fun _ => ""%string)
    ("{"%char :: print_fields [("challenge_id", JStr "c1"); ("peer_id", JStr demo_peer); ("nonce", JStr "n");
       ("public_key", JStr "AA"); ("signature", JStr "AA"); ("label", JStr "box")]%string ++ ["}"%char]) false.
Definition demo_links : DeployKeys.LinkService := DeployKeys.mkLinkService (60 * second) 5.
Lemma demo_joins : exists rep w',
  DeployKeys.LinkHandler demo_links demo_join_request Demo.outside0 (Demo.world0 demo_keyed) = (Some (Ok (WriteJSON 201 rep)), w').
Proof. do 2 eexists. vm_compute. reflexivity. Qed.
Lemma link_needs_proof_witness : exists rep w',
  DeployKeys.LinkHandler demo_links demo_join_request Demo.outside0 (Demo.world0 demo_keyed) = (Some (Ok (WriteJSON 201 rep)), w') /\
  joined demo_join_request (st_dir (w_node (Demo.world0 demo_keyed))) (st_calls (w_node (Demo.world0 demo_keyed))) rep
    (st_dir (w_node w')).
Proof.
  destruct demo_joins as (rep & w' & He). exists rep, w'. split; [exact He|].
  exact (link_needs_proof (fun k d => rtc_refl dstep d) demo_links demo_join_request Demo.outside0
    (Demo.world0 demo_keyed) rep w' He).
Defined.

(** ** An outage ends the checks of ownership

    The refusal of a change while the mesh cannot be asked writes the instance down
    without an observed wallet, which is how an instance that joined with a deploy key is
    kept: from then on changes are let through without asking the mesh. *)
Definition demo_down : surroundings := {|
  dir_env _ := fine_env Demo.start; dir_others _ d := d; mesh_answer _ := Err (Errorf "down");
  rand_Read _ n := Ok (repeat Byte.x01 n); site_now k := Demo.start + Z.of_nat k |}.
Definition demo_observed : dir := dplay [(DLink "alice" Demo.wallet, Demo.start);
  (DCreate (mkInstance 0 "alice" demo_peer "box" Demo.wallet "restricted" "" 0 "active" (Some Demo.wallet) (Some Demo.start)
     zeroTime zeroTime [] None []), Demo.start)] empty_dir.
Definition demo_patch : request :=
  mkHttp "PATCH" (Some "alice"%string) None (fun _ => ""%string) (fun _ => ""%string)
    (fun k => if String.eqb k "id" then "1"%string else ""%string)
    ("{"%char :: print_fields [("mode", JStr "public")]%string ++ ["}"%char]) false.
Lemma outage_ends_ownership_checks : exists w1,
  @InstancesApi.handlePatch Demo.scheme demo_down demo_instances demo_patch Demo.outside0 (Demo.world0 demo_observed) =
    (Some (Ok (http_error 409 "peer ownership currently unavailable")), w1) /\
  exists rep w2, @InstancesApi.handlePatch Demo.scheme demo_down demo_instances demo_patch Demo.outside0 w1 =
    (Some (Ok (WriteJSON 200 rep)), w2).
Proof. eexists. split; [vm_compute; reflexivity|]. do 2 eexists. vm_compute. reflexivity. Qed.

(** A life in seconds is multiplied into nanoseconds in 64 bits. *)
Example ttl_wraps : DeployKeys.seconds (2 ^ 55) = 0 /\ DeployKeys.check_mint 1 (DeployKeys.seconds (2 ^ 55)) = Ok tt.
Proof. by vm_compute. Qed.
