(* ===== verification/Faucet.v ===== *)
(** * internal/faucet and internal/faucetapi: one payout per account

    A claim is reserved before the transfer is broadcast and completed with its
    signature after.  The Solana node answers by the number of the call. *)
From Stdlib Require Import ZArith Lia Strings.Ascii Strings.String.
From stdpp Require Import base gmap strings list.
From S2P Require Import Prelude Sha256 Base58 Tx Schema BillingStore Worker GoText Json Base64 AclTypes Solana Rpc DirSchema Directory Regions Keys Gate Jwt Http Mesh BillingApi Inputs WalletsApi.

Open Scope Z_scope.
Local Open Scope worker_scope.
Local Open Scope go_scope.

Module Faucet.
(** ** rpc.go: every response is decoded with its error member beside the result *)
Record answer (A : Type) := mkAnswer { an_Result : A; an_Error : option rpcError }.
Arguments mkAnswer {A} _ _.
Arguments an_Result {A} _.
Arguments an_Error {A} _.
Definition dec_answer {A} (d : decoder A) : decoder (answer A) := dec_struct [
  fld "result" an_Result (fun v x => mkAnswer v (an_Error x)) d;
  fld "error" an_Error (fun v x => mkAnswer (an_Result x) v) (dec_ptr zeroRpcError dec_rpcError)]%string.
Definition read_answer {A} (d : decoder A) (zero : A) (r : response) : res (answer A) :=
  match r with
  | TransportError e => Err (Wrapf "faucet: solana rpc request: %w" e)
  | Status code => Err (Errorf "faucet: solana rpc status %d")
  | Body body =>
    match Unmarshal (dec_answer d) (mkAnswer zero None) body with
    | Ok a => Ok a
    | Err e => Err (Wrapf "faucet: decode solana rpc response: %w" e)
    end
  end.
Definition rpc_result {A} (d : decoder A) (zero : A) (r : response) : res A :=
  let? a := read_answer d zero r in
  match an_Error a with
  | Some _ => Err (Errorf "faucet: solana rpc error (%d): %s")
  | None => Ok (an_Result a)
  end.

Definition opt (name : string) (j : json) : string * json := (name, j).
(** An [any] takes any value, a slice of them an array or null. *)
Definition dec_anys : decoder unit := fun _ j => match j with JArr _ | JNull => Ok tt | _ => Err mismatch end.
(** A base-10 integer with a sign or none. *)
Definition big_SetString (s : string) : option Z :=
  match chars_of s with
  | "-"%char :: l => Z.opp <$> parse_nat l
  | "+"%char :: l => parse_nat l
  | l => parse_nat l
  end.
Definition dec_amount : decoder string := dec_value (dec_struct [ ("amount"%string, dec_string) ]).
Definition read_tokenBalance (r : response) : res Z :=
  let? a := read_answer dec_amount ""%string r in
  match an_Error a with
  | Some _ => Ok 0          (* no such account *)
  | None =>
    match big_SetString (an_Result a) with
    | None => Err (Errorf "faucet: invalid token balance %q")
    | Some raw => if (0 <=? raw) && (raw <? two64) then Ok raw else Err (Errorf "faucet: token balance %s overflows uint64")
    end
  end.

(** The signature of a transfer that was sent. *)
Definition read_signature (r : response) : res string :=
  let? s := rpc_result dec_string ""%string r in
  if String.eqb s "" then Err (Errorf "faucet: solana rpc returned an empty signature") else Ok s.
Definition read_blockhash (r : response) : res bytes :=
  let? v := rpc_result (dec_value dec_blockhashValue) (mkBlockhash "" 0) r in
  match DecodeBase58 (bh_Blockhash v) 32 with
  | Ok bh => if bool_decide (length bh = 32%nat) then Ok bh else Err (Errorf "faucet: invalid blockhash from rpc")
  | Err _ => Err (Errorf "faucet: invalid blockhash from rpc")
  end.
Definition read_exists (r : response) : res bool :=
  let? v := rpc_result (dec_value (dec_ptr tt (dec_struct [ ("data"%string, dec_anys) ]))) None r in
  Ok (bool_decide (is_Some v)).

(** ** tx.go *)
Definition meta (k : bytes) : AccountMeta := mkMeta k false false.
Definition buildTransferMessage (faucet sourceATA destATA recipient mint tokenProgram : bytes) (createATA token2022 : bool)
    (blockhash : bytes) (amountRaw : Z) : bytes :=
  let accounts := [mkMeta faucet true true; mkMeta sourceATA false true; mkMeta destATA false true] in
  let accounts := if createATA
    then accounts ++ [meta recipient; meta mint; meta SystemProgramID; meta ATAProgramID; meta tokenProgram] ++
         (if token2022 then [] else [meta RentSysvarID])
    else accounts ++ [meta tokenProgram] in
  let createAccounts := [0; 2; 3; 4; 5; 7] ++ (if token2022 then [] else [8]) in
  let ixs := if createATA then [mkInstruction (byteZ 6) (map byteZ createAccounts) CreateATAInstructionData] else [] in
  let tokenProgramIndex := if createATA then 7 else 3 in
  BuildMessage accounts blockhash
    (ixs ++ [mkInstruction (byteZ tokenProgramIndex) (map byteZ [1; 2; 0]) (TransferInstructionData amountRaw)]).

(** ** faucet.go *)
Record FaucetService := mkFaucet {
  fs_mint : bytes; fs_tokenProgram : bytes; fs_token2022 : bool; fs_faucetKey : bytes; fs_faucetPub : bytes; fs_amountRaw : Z }.
Definition address32 (text : string) (v : string) : res bytes :=
  match DecodeBase58 v PublicKeyBytes with
  | Ok b => if Z.of_nat (length b) =? PublicKeyBytes then Ok b else Err (Errorf text)
  | Err _ => Err (Errorf text)
  end.
Definition New (rpcURL mint tokenProgram : string) (faucetKey : bytes) (amountRaw : Z) : res FaucetService :=
  if negb (bool_decide (length faucetKey = PrivateKeySize)) then Err (Errorf "faucet: private key must be %d bytes") else
  let? mintBytes := address32 "faucet: invalid mint address: %v" mint in
  let? tpBytes := address32 "faucet: invalid token program address: %v" tokenProgram in
  if String.eqb rpcURL "" then Err (Errorf "faucet: rpc url is required")
  else Ok (mkFaucet mintBytes tpBytes (bool_decide (tpBytes = Token2022ProgramID)) faucetKey (drop 32 faucetKey) amountRaw).
Definition FaucetWallet (f : FaucetService) : string := EncodeBase58 (fs_faucetPub f).
Definition Mint (f : FaucetService) : string := EncodeBase58 (fs_mint f).

Definition txBaseFeeLamports : Z := 5000.
Definition tokenAccountDataLen : Z := 165.
Record FundCheck := mkFundCheck { fd_TokenRaw : Z; fd_Lamports : Z; fd_NeededTokenRaw : Z; fd_NeededLamports : Z; fd_Funded : bool }.
Definition fund_check (f : FaucetService) (tokenRaw lamports rent : Z) : FundCheck :=
  let needed := u64 (txBaseFeeLamports + rent) in
  mkFundCheck tokenRaw lamports (fs_amountRaw f) needed ((fs_amountRaw f <=? tokenRaw) && (needed <=? lamports)).

Class solana_node := { rpc_post : nat -> string -> list json -> response }.

(** ** api.go: amounts *)
Definition trimTrailingZeros (l : chars) : chars :=
  rev ((fix drop_zeros l := match l with "0"%char :: r => drop_zeros r | _ => l end) (rev l)).
Definition formatAmount (raw decimals : Z) : string :=
  if decimals =? 0 then text_of (Itoa raw) else
  let pow := if decimals <=? 0 then 1 else 10 ^ decimals in
  let frac := raw mod pow in
  let fracStr := trimTrailingZeros (pad (Z.to_nat decimals) frac) in
  if (frac =? 0) || bool_decide (fracStr = []) then text_of (Itoa (raw / pow))
  else text_of (Itoa (raw / pow)) +:+ "." +:+ text_of fracStr.

Record ClaimService := mkClaimService { cs_faucet : option FaucetService; cs_amountRaw : Z; cs_decimals : Z }.
Record statusResponse := mkStatus {
  sr_Enabled : bool; sr_EmailVerified : bool; sr_Mint : string; sr_AmountRaw : Z; sr_AmountUI : string; sr_Decimals : Z;
  sr_Claimed : bool; sr_ClaimedAt : option time; sr_Wallet : string; sr_TxSignature : string; sr_Funded : option bool;
  sr_FaucetWallet : string }.
Record claimResponse := mkClaim {
  fr_Status : string; fr_Wallet : string; fr_AmountRaw : Z; fr_AmountUI : string; fr_TxSignature : string }.
(** The principal of the request's context. *)
Definition emailVerified (p : option IdentityInfo) : bool :=
  match p with Some p => negb (String.eqb (id_AccountID p) "") && id_EmailVerified p | None => false end.

Section Process.
Context `{Ed25519} `{surroundings} `{solana_node}.

Definition rpc {A} (method : string) (params : list json) (k : response -> res A) : W site A :=
  asks_site (fun n => k (rpc_post n method params)).
Definition confirmed : string * json := opt "commitment" (JStr "confirmed").
Definition latestBlockhash : W site bytes := rpc "getLatestBlockhash" [JObj [confirmed]] read_blockhash.
Definition accountExists (pubkey : bytes) : W site bool :=
  rpc "getAccountInfo" [JStr (EncodeBase58 pubkey);
    JObj [confirmed; opt "dataSlice" (JObj [opt "length" (JInt 0); opt "offset" (JInt 0)]); opt "encoding" (JStr "base58")]] read_exists.
Definition sendTransaction (wire : bytes) : W site string :=
  rpc "sendTransaction" [JStr (EncodeToString wire);
    JObj [opt "encoding" (JStr "base64"); opt "preflightCommitment" (JStr "confirmed")]] read_signature.
Definition solBalance (pubkey : bytes) : W site Z :=
  rpc "getBalance" [JStr (EncodeBase58 pubkey)] (rpc_result (dec_value dec_uint64) 0).
Definition tokenBalance (ata : bytes) : W site Z :=
  rpc "getTokenAccountBalance" [JStr (EncodeBase58 ata)] read_tokenBalance.
Definition rentExemptMinimum (dataLen : Z) : W site Z :=
  rpc "getMinimumBalanceForRentExemption" [JInt dataLen] (rpc_result dec_uint64 0).

(** [solana.SignMessage] *)
Definition signAndSerialize (priv message : bytes) : bytes := SerializeTransaction (ed25519_Sign priv message) message.
Definition Send (f : FaucetService) (recipientOwner : string) : W site string :=
  match DecodeBase58 recipientOwner PublicKeyBytes with
  | Err e => wfail (Wrapf "faucet: invalid recipient wallet: %w" e)
  | Ok owner =>
    if negb (Z.of_nat (length owner) =? PublicKeyBytes) then wfail (Errorf "faucet: invalid recipient wallet: %w") else
    let* sourceATA := wwrap "faucet: derive faucet ata: %w"
      (wlift (AssociatedTokenAddress (fs_faucetPub f) (fs_mint f) (fs_tokenProgram f))) in
    let* destATA := wwrap "faucet: derive recipient ata: %w"
      (wlift (AssociatedTokenAddress owner (fs_mint f) (fs_tokenProgram f))) in
    let* exists_ := accountExists destATA in
    let* blockhash := latestBlockhash in
    sendTransaction (signAndSerialize (fs_faucetKey f)
      (buildTransferMessage (fs_faucetPub f) sourceATA destATA owner (fs_mint f) (fs_tokenProgram f) (negb exists_)
         (fs_token2022 f) blockhash (fs_amountRaw f)))
  end.
Definition CheckFunded (f : FaucetService) : W site FundCheck :=
  let* sourceATA := wwrap "faucet: derive faucet ata: %w"
    (wlift (AssociatedTokenAddress (fs_faucetPub f) (fs_mint f) (fs_tokenProgram f))) in
  let* tokenRaw := tokenBalance sourceATA in
  let* lamports := solBalance (fs_faucetPub f) in
  let* rent := rentExemptMinimum tokenAccountDataLen in
  wret (fund_check f tokenRaw lamports rent).

(** ** api.go *)
Definition primary_of (l : list WalletInfo) : option string :=
  match find wi_Primary l with
  | Some w => Some (wi_Wallet w)
  | None => match l with w :: _ => Some (wi_Wallet w) | [] => None end
  end.
Definition primaryWallet (accountID : string) : W site string :=
  let* wallets := callDir (ListWalletsByUser accountID) in
  match primary_of wallets with Some w => wret w | None => wfail (Errorf "faucet: no linked wallet") end.

(** A claim that was paid. *)
Definition paid_claim (accountID : string) : W site (option FaucetClaim) :=
  let*? claim := callDir (GetFaucetClaim accountID) in
  wret match claim with
  | Ok c => if String.eqb (ft_TxSignature c) "" then None else Some c
  | Err _ => None
  end.

Definition handleStatus (s : ClaimService) (p : option IdentityInfo) (r : request) : W site (reply statusResponse) :=
  let* claim := paid_claim (WalletsApi.userID r) in
  let answer := fun funded wallet => mkStatus (bool_decide (is_Some (cs_faucet s))) (emailVerified p)
    (match cs_faucet s with Some f => Mint f | None => "" end) (cs_amountRaw s) (formatAmount (cs_amountRaw s) (cs_decimals s))
    (cs_decimals s) (bool_decide (is_Some claim)) (ft_ClaimedAt <$> claim)
    (match claim with Some c => ft_Wallet c | None => "" end) (match claim with Some c => ft_TxSignature c | None => "" end)
    funded wallet in
  match cs_faucet s with
  | None => wret (WriteJSON 200 (answer None ""%string))
  | Some f =>
    let*? check := CheckFunded f in
    wret (WriteJSON 200 (answer (match check with Ok c => Some (fd_Funded c) | Err _ => None end) (FaucetWallet f)))
  end.

(** Phases 2 and 3 of a claim that is reserved. *)
Definition pay_reserved (s : ClaimService) (f : FaucetService) (userID wallet : string) : W site (reply claimResponse) :=
  let*? sent := Send f wallet in
  match sent with
  | Err _ =>
    let*? _ := callDir (ClearFaucetClaim userID) in
    wret (http_error 503 "faucet payout failed")
  | Ok sig =>
    let*? completed := callDir (CompleteFaucetClaim userID sig) in
    match completed with
    | Err _ => wret (http_error 503 "faucet payout sent but not recorded")
    | Ok _ => wret (WriteJSON 201 (mkClaim "claimed" wallet (cs_amountRaw s) (formatAmount (cs_amountRaw s) (cs_decimals s)) sig))
    end
  end.
Definition already_claimed {A} : W site (reply A) := wret (http_error 409 "already claimed").
Definition claim_from (s : ClaimService) (f : FaucetService) (r : request) : W site (reply claimResponse) :=
  let userID := WalletsApi.userID r in
  let*? wallet := primaryWallet userID in
  match wallet with
  | Err _ => wret (http_error 409 "link a wallet before claiming from the faucet")
  | Ok wallet =>
    if String.eqb wallet "" then wret (http_error 409 "link a wallet before claiming from the faucet") else
    let* paid := paid_claim userID in
    if bool_decide (is_Some paid) then already_claimed else
    or_unavailable (callDir (ClaimFaucet userID wallet "" (i64 (cs_amountRaw s)))) (fun reserved =>
    if negb reserved then already_claimed else pay_reserved s f userID wallet)
  end.
Definition handleClaim (s : ClaimService) (p : option IdentityInfo) (r : request) : W site (reply claimResponse) :=
  match cs_faucet s with
  | None => wret (http_error 404 "faucet disabled")
  | Some f =>
    if negb (emailVerified p) then wret (http_error 403 "email must be verified to claim from the faucet") else
    let*? check := CheckFunded f in
    match check with
    | Ok c =>
      if negb (fd_Funded c) then wret (http_error 503 "faucet wallet underfunded — the operator must top it up")
      else claim_from s f r
    | Err _ => claim_from s f r
    end
  end.
End Process.

Example amounts : map (fun rd => formatAmount (fst rd) (snd rd)) [(1500000, 6); (2000000, 6); (1, 6); (7, 0)] =
  ["1.5"; "2"; "0.000001"; "7"]%string.
Proof. by vm_compute. Qed.
End Faucet.
