(* ===== verification/FaucetSpec.v ===== *)
(** * The faucet pays an account once *)
From Stdlib Require Import ZArith Lia Strings.Ascii Strings.String.
From stdpp Require Import base gmap strings list sorting relations.
From S2P Require Import Prelude Sha256 Base58 Tx Schema BillingStore Worker GoText Json Base64 AclTypes Solana Rpc DirSchema Directory Regions DirInv Keys DirReach DirSpec Gate JsonPrint Pricing PricingSpec Jwt Http Mesh NodeCred NodeCredSpec BillingApi Inputs InputsSpec WalletsApi InstancesApi Access DeployLink ManageSpec Faucet.

Open Scope Z_scope.
Import Faucet.

Lemma wallets_linked a e d l d' : run (ListWalletsByUser a) e d = (Ok l, d') -> d' = d /\
  forall i, i ∈ l -> exists k r, user_wallets d !! k = Some r /\ wl_account_id r = a /\ wl_wallet r = wi_Wallet i.
Proof.
  unfold ListWalletsByUser, select. intros E. run_all. split; [done|].
  intros i ([k r] & -> & Hin)%list_elem_of_fmap. unfold primary_first in Hin.
  match type of Hin with context [account_wallets a ?x] => assert (Hi : (k, r) ∈ account_wallets a x) end.
  { apply elem_of_app in Hin as [Hin|Hin]; apply list_elem_of_In, filter_In in Hin as [Hin _]; by apply list_elem_of_In. }
  unfold account_wallets in Hi. rewrite merge_sort_Permutation in Hi.
  apply list_elem_of_In, filter_In in Hi as [Hi Ha]. apply list_elem_of_In, elem_of_map_to_list in Hi.
  exists k, r. split; [done|]. by apply String.eqb_eq in Ha.
Qed.
Lemma primary_of_in l w : primary_of l = Some w -> exists i, i ∈ l /\ wi_Wallet i = w.
Proof.
  unfold primary_of. destruct (find wi_Primary l) as [i|] eqn:E.
  - intros [= <-]. exists i. split; [|done]. apply find_some in E as [E _]. by apply list_elem_of_In.
  - destruct l as [|i l]; [done|]. intros [= <-]. exists i. split; [by left|done].
Qed.
Lemma complete_row a sig e d d1 : run (CompleteFaucetClaim a sig) e d = (Ok tt, d1) ->
  exists r, faucet_claims d !! a = Some r /\ fc_tx_signature r = ""%string /\
    faucet_claims d1 !! a = Some (mkFaucetClaimRow (fc_wallet r) (fc_amount_raw r) sig (fc_claimed_at r)).
Proof.
  unfold CompleteFaucetClaim, sql_complete_claim. intros E. run_all.
  match goal with F : String.eqb _ "" = true |- _ => apply String.eqb_eq in F end.
  eexists. split; [done|]. split; [done|]. apply lookup_insert_eq.
Qed.
Lemma claim_row a w sig amount e d d1 : run (ClaimFaucet a w sig amount) e d = (Ok true, d1) ->
  exists r, faucet_claims d1 !! a = Some r /\ fc_wallet r = w /\ fc_amount_raw r = amount.
Proof.
  unfold ClaimFaucet, sql_claim_faucet. intros E. run_all; (eexists; split; [apply lookup_insert_eq|done]).
Qed.

Section Specs.
Context `{Ed25519} `{surroundings} `{solana_node}.
Hypothesis others_step : forall k d, rtc dstep d (dir_others k d).

Lemma sent_signed wire o w sig w' : sendTransaction wire o w = (Some (Ok sig), w') -> sig <> ""%string.
Proof.
  unfold sendTransaction, rpc. intros E. injection E as E _. unfold read_signature in E.
  apply res_bind_Ok in E as (x & _ & E). destruct (String.eqb_spec x ""); [done|]. by injection E as <-.
Qed.
Lemma Send_signed f wallet o w sig w' : Send f wallet o w = (Some (Ok sig), w') -> sig <> ""%string.
Proof.
  unfold Send. destruct (DecodeBase58 _ _) as [owner|]; [|done]. destruct (negb _); [done|]. intros Hi.
  do 4 (apply wbind_inv in Hi as (? & ? & _ & Hi)). by eapply sent_signed.
Qed.

(** The answers given after a transfer was handed to the network. *)
Definition after_send (x : option (res (reply claimResponse))) : Prop :=
  (exists rep, x = Some (Ok (WriteJSON 201 rep))) \/ x = Some (Ok (http_error 503 "faucet payout failed")) \/
  x = Some (Ok (http_error 503 "faucet payout sent but not recorded")).

(** ** Computations that only let the directory move on *)
Definition moves_on {A} (m : W site A) : Prop := forall o w, rtc dstep (st_dir (w_node w)) (st_dir (w_node (snd (m o w)))).
Lemma moves_on_still {A} (m : W site A) : still m -> moves_on m.
Proof. intros Hm o w. rewrite Hm. apply rtc_refl. Qed.
Lemma moves_on_bind {A B} (m : W site A) (k : A -> W site B) : moves_on m -> (forall a, moves_on (k a)) -> moves_on (wbind m k).
Proof.
  intros Hm Hk o w. unfold wbind. specialize (Hm o w). destruct (m o w) as [[[a|e]|] w1]; [|done..].
  etrans; [exact Hm|apply Hk].
Qed.
Lemma moves_on_attempt {A B} (m : W site A) (k : res A -> W site B) : moves_on m -> (forall a, moves_on (k a)) -> moves_on (wattempt m k).
Proof.
  intros Hm Hk o w. unfold wattempt. specialize (Hm o w). destruct (m o w) as [[r|] w1]; [|done].
  etrans; [exact Hm|apply Hk].
Qed.
Lemma moves_on_read {A} (m : dstore A) : Moves (=) m -> moves_on (callDir m).
Proof.
  intros Hm o w. destruct (callDir m o w) as [x w'] eqn:E. destruct (dir_total _ _ _ _ _ E) as [r ->].
  by eapply read_steps.
Qed.
Lemma moves_on_primary a : moves_on (primaryWallet a).
Proof.
  apply moves_on_bind; [apply moves_on_read; unfold ListWalletsByUser; moves; by intros ? ? ? [= _ <-]|].
  intros l. apply moves_on_still. intros o w. by destruct (primary_of l).
Qed.
Lemma moves_on_paid a : moves_on (paid_claim a).
Proof.
  apply moves_on_attempt; [apply moves_on_read; unfold GetFaucetClaim, found; moves; by intros ? ? ? [= _ <-]|].
  intros c. by apply moves_on_still.
Qed.
Lemma moves_on_funded f : moves_on (CheckFunded f).
Proof.
  apply moves_on_still, still_bind.
  - intros o w. unfold wwrap, wattempt, wlift. by destruct (AssociatedTokenAddress _ _ _).
  - intros ata. repeat (apply still_bind; [done|intros]). done.
Qed.

Lemma op_moves {A} (m : dstore A) op e d r d1 : dexec op = ignore m -> run m e d = (r, d1) -> dstep d d1.
Proof.
  intros Ho Hm. exists op, e. rewrite Ho. unfold ignore, run, bind in *. destruct (m e _) as [[x|x] c]; simpl in *; congruence.
Qed.
Lemma moves_on_op {A} (m : dstore A) op : dexec op = ignore m -> moves_on (callDir m).
Proof.
  intros Ho o w. destruct (callDir m o w) as [x w'] eqn:E. destruct (dir_total _ _ _ _ _ E) as [r ->].
  apply callDir_inv in E as [E _]. etrans; [apply others_step|]. apply rtc_once. by eapply op_moves.
Qed.
Lemma moves_on_exec op : moves_on (callDir (dexec op)).
Proof.
  intros o w. destruct (callDir (dexec op) o w) as [x w'] eqn:E. destruct (dir_total _ _ _ _ _ E) as [r ->].
  apply callDir_inv in E as [E _]. etrans; [apply others_step|]. apply rtc_once.
  eexists op, _. by rewrite E.
Qed.
Lemma still_Send f wallet : still (Send f wallet).
Proof.
  unfold Send. destruct (DecodeBase58 _ _) as [owner|]; [|done]. destruct (negb _); [done|].
  apply still_bind; [intros o w; unfold wwrap, wattempt, wlift; by destruct (AssociatedTokenAddress _ _ _)|intros sa].
  apply still_bind; [intros o w; unfold wwrap, wattempt, wlift; by destruct (AssociatedTokenAddress _ _ _)|intros da].
  apply still_bind; [done|intros x]. by apply still_bind.
Qed.

(** A step of a computation, and where the directory is after it. *)
Lemma moved_on {A} (m : W site A) o w x w' : moves_on m -> m o w = (x, w') -> rtc dstep (st_dir (w_node w)) (st_dir (w_node w')).
Proof. intros Hm E. specialize (Hm o w). by rewrite E in Hm. Qed.

(** ** Up to the reservation *)
Lemma claim_from_reserves s f r o w x w' : claim_from s f r o w = (x, w') -> after_send x ->
  exists wallet w1 w2, x = fst (pay_reserved s f (WalletsApi.userID r) wallet o w2) /\ w' = snd (pay_reserved s f (WalletsApi.userID r) wallet o w2) /\
    (exists d, rtc dstep (st_dir (w_node w)) d /\
      exists k row, user_wallets d !! k = Some row /\ wl_account_id row = WalletsApi.userID r /\ wl_wallet row = wallet) /\
    rtc dstep (st_dir (w_node w)) (st_dir (w_node w1)) /\
    callDir (ClaimFaucet (WalletsApi.userID r) wallet "" (i64 (cs_amountRaw s))) o w1 = (Some (Ok true), w2).
Proof.
  unfold claim_from. cbv zeta. unfold wattempt at 1. destruct (primaryWallet _ o w) as [[[wallet|e]|] wa] eqn:Ep.
  2, 3: intros [= <- _] [[? ?]|[?|?]]; done.
  pose proof (moved_on _ _ _ _ _ (moves_on_primary _) Ep) as Hs1.
  assert (Hw : exists d, rtc dstep (st_dir (w_node w)) d /\
    exists k row, user_wallets d !! k = Some row /\ wl_account_id row = WalletsApi.userID r /\ wl_wallet row = wallet).
  { exists (st_dir (w_node wa)). split; [done|]. unfold primaryWallet in Ep. apply wbind_inv in Ep as (l & wb & Hl & Ep).
    apply callDir_inv in Hl as [Hl _]. destruct (primary_of l) as [y|] eqn:Ey; [|done]. injection Ep as -> <-.
    apply primary_of_in in Ey as (i & Hi & <-). apply wallets_linked in Hl as [Hd Hl]. rewrite Hd. by apply Hl. }
  destruct (String.eqb wallet ""); [intros [= <- _] [[? ?]|[?|?]]; done|].
  unfold wbind at 1. destruct (paid_claim _ o wa) as [[[paid|e]|] wb] eqn:Epd.
  2, 3: intros [= <- _] [[? ?]|[?|?]]; done.
  pose proof (moved_on _ _ _ _ _ (moves_on_paid _) Epd) as Hs2.
  destruct (bool_decide _); [intros [= <- _] [[? ?]|[?|?]]; done|].
  unfold or_unavailable, wattempt. destruct (callDir _ o wb) as [y wc] eqn:Ec.
  destruct (dir_total _ _ _ _ _ Ec) as [[[]|e] ->]; [|intros [= <- _] [[? ?]|[?|?]]; done..].
  cbn [negb]. intros E _. exists wallet, wb, wc. rewrite E. split; [done|]. split; [done|]. split; [exact Hw|].
  split; [by etrans|exact Ec].
Qed.

Lemma handleClaim_from s p r o w x w' : handleClaim s p r o w = (x, w') -> after_send x ->
  exists f w1, cs_faucet s = Some f /\ emailVerified p = true /\ rtc dstep (st_dir (w_node w)) (st_dir (w_node w1)) /\
    claim_from s f r o w1 = (x, w').
Proof.
  unfold handleClaim. destruct (cs_faucet s) as [f|]; [|intros [= <- _] [[? ?]|[?|?]]; done].
  destruct (emailVerified p); [|intros [= <- _] [[? ?]|[?|?]]; done]. cbn [negb].
  unfold wattempt. destruct (CheckFunded f o w) as [[y|] w1] eqn:Ec; [|intros [= <- _] [[? ?]|[?|?]]; done].
  apply (moved_on _ _ _ _ _ (moves_on_funded f)) in Ec. destruct y as [c|e]; [|intros E _; by exists f, w1].
  destruct (fd_Funded c); [|intros [= <- _] [[? ?]|[?|?]]; done]. intros E _. by exists f, w1.
Qed.

(** C19: after a completed claim the faucet pays the account no more.  A claim answered
    with 201 was made for a verified e-mail address, for the wallet linked to the account,
    and leaves the transfer's signature in the account's claim; and from then on, whatever
    is done to the directory, lost or answered by the node, no claim of that account gets
    as far as a transfer.  Of claims that were paid but not answered so nothing is said:
    a transfer whose answer was lost can be paid again ([lost_answer_pays_again]). *)
Theorem faucet_pays_once s p r o w rep w' :
  DReachable (st_dir (w_node w)) ->
  handleClaim s p r o w = (Some (Ok (WriteJSON 201 rep)), w') ->
  emailVerified p = true /\ fr_AmountRaw rep = cs_amountRaw s /\
  (exists d k row, rtc dstep (st_dir (w_node w)) d /\ user_wallets d !! k = Some row /\
    wl_account_id row = WalletsApi.userID r /\ wl_wallet row = fr_Wallet rep) /\
  (exists row, faucet_claims (st_dir (w_node w')) !! WalletsApi.userID r = Some row /\
    fc_tx_signature row = fr_TxSignature rep /\ fr_TxSignature rep <> ""%string) /\
  forall s2 p2 r2 o2 w2 x w2', WalletsApi.userID r2 = WalletsApi.userID r ->
    rtc dstep (st_dir (w_node w')) (st_dir (w_node w2)) -> handleClaim s2 p2 r2 o2 w2 = (x, w2') -> ~ after_send x.
Proof.
  intros Hreach0 Hc. apply handleClaim_from in Hc as (f & w1 & Hf & Hp & Hs1 & Hc); [|left; by eexists].
  apply claim_from_reserves in Hc as (wallet & w2 & w3 & Hx & Hw & (d & Hd & k & row & Hrow & Ha & Hwal) & Hs2 & Hcl); [|left; by eexists].
  unfold pay_reserved, wattempt in Hx, Hw. destruct (Send f wallet o w3) as [[[sig|e]|] w4] eqn:Es; [|..|done].
  2: { by destruct (callDir (ClearFaucetClaim _) o w4) as [[?|] ?]. }
  pose proof (moved_on _ _ _ _ _ (moves_on_op _ (DClaim _ _ _ _) eq_refl) Hcl) as Hs3.
  pose proof (moved_on _ _ _ _ _ (moves_on_still _ (still_Send _ _)) Es) as Hs4.
  apply Send_signed in Es. destruct (callDir _ o w4) as [y w5] eqn:Ec.
  pose proof (moved_on _ _ _ _ _ (moves_on_exec (DComplete _ _)) Ec) as Hs5.
  destruct (dir_total _ _ _ _ _ Ec) as [[[]|e] ->]; [|done]. cbn in Hx, Hw. injection Hx as ->. subst w5.
  assert (Hreach : DReachable (st_dir (w_node w'))).
  { eapply DReachable_steps; [exact Hreach0|]. by do 4 (etrans; [eassumption|]). }
  apply callDir_inv in Ec as [Ec _]. apply complete_row in Ec as (q & Hq & _ & Hq').
  split; [done|]. split; [done|]. split; [exists d, k, row; split; [by etrans|done]|].
  split; [eexists; split; [exact Hq'|done]|].
  clear Hs1 Hs2 Hs3 Hs4 Hs5 Hcl. intros s2 p2 r2 o2 w2' x w2'' Hu Hs2 Hc2 Hafter.
  apply handleClaim_from in Hc2 as (f2 & wa & _ & _ & Hsa & Hc2); [|done].
  apply claim_from_reserves in Hc2 as (wallet2 & wb & wc & _ & _ & _ & Hsb & Hcl); [|done].
  apply callDir_inv in Hcl as [Hcl _]. rewrite Hu in Hcl.
  assert (Hs : rtc dstep (st_dir (w_node w')) (dir_others (st_calls (w_node wb)) (st_dir (w_node wb)))).
  { do 3 (etrans; [eassumption|]). apply others_step. }
  apply (sp_claim _ _ (dsteps_spent _ _ Hreach Hs)) in Hq'; [|done].
  eapply claim_paid; [exact Hq'|done|]. exact (f_equal fst Hcl).
Qed.
End Specs.

(** ** A claim *)
#[local] Existing Instance Demo.scheme.
#[local] Existing Instance Demo.around.
Definition demo_node_answers (send : nat -> response) (n : nat) (method : string) : response :=
  if String.eqb method "getLatestBlockhash"
  then Body (Some (JObj [("result", JObj [("value", JObj [("blockhash", JStr Demo.wallet)])])]%string))
  else if String.eqb method "getAccountInfo" then Body (Some (JObj [("result", JObj [("value", JNull)])]%string))
  else if String.eqb method "sendTransaction" then send n
  else TransportError (Errorf "down").
Definition demo_node (send : nat -> response) : solana_node := {| rpc_post n method _ := demo_node_answers send n method |}.
Definition demo_sent : response := Body (Some (JObj [("result", JStr "sig1")]%string)).
Definition demo_faucet : FaucetService :=
  mkFaucet (repeat Byte.x05 32) TokenProgramID false (repeat Byte.x00 64) (repeat Byte.x00 32) 1000.
Definition demo_claims : ClaimService := mkClaimService (Some demo_faucet) 1000 6.
Definition demo_claimer : option IdentityInfo := Some (mkIdentity "alice" "a@example.com" "example.com" true Demo.start).
Definition demo_claim_request : request :=
  mkHttp "POST" (Some "alice"%string) None (fun _ => ""%string) (fun _ => ""%string) (fun _ => ""%string) [] false.
Definition demo_linked_dir : dir := dplay [(DLink "alice" Demo.wallet, Demo.start)] empty_dir.
Lemma demo_linked_reachable : DReachable demo_linked_dir.
Proof. apply dplay_steps. Qed.

Lemma demo_claims_ok : exists rep w',
  @handleClaim Demo.scheme Demo.around (demo_node (fun _ => demo_sent)) demo_claims demo_claimer demo_claim_request Demo.outside0 (Demo.world0 demo_linked_dir)
    = (Some (Ok (WriteJSON 201 rep)), w') /\ fr_TxSignature rep = "sig1"%string.
Proof. do 2 eexists. split; vm_compute; reflexivity. Qed.
Lemma faucet_pays_once_witness : exists rep w',
  @handleClaim Demo.scheme Demo.around (demo_node (fun _ => demo_sent)) demo_claims demo_claimer demo_claim_request Demo.outside0 (Demo.world0 demo_linked_dir)
    = (Some (Ok (WriteJSON 201 rep)), w') /\
  exists row, faucet_claims (st_dir (w_node w')) !! "alice"%string = Some row /\ fc_tx_signature row = fr_TxSignature rep.
Proof.
  destruct demo_claims_ok as (rep & w' & He & _). exists rep, w'. split; [exact He|].
  destruct (@faucet_pays_once Demo.scheme Demo.around (demo_node (fun _ => demo_sent)) (fun k d => rtc_refl dstep d) demo_claims demo_claimer
    demo_claim_request Demo.outside0 (Demo.world0 demo_linked_dir) rep w' demo_linked_reachable He) as (_ & _ & _ & (row & Hr & Hs & _) & _).
  exists row. split; [exact Hr|exact Hs].
Defined.

(** A transfer whose answer was lost is taken for one that failed: the claim is cleared,
    and the account's next claim hands out a second transfer. *)
Definition demo_first_lost : solana_node := demo_node (fun n => if (n <? 12)%nat then TransportError (Errorf "timeout") else demo_sent).
Lemma lost_answer_pays_again : exists w1,
  @handleClaim Demo.scheme Demo.around demo_first_lost demo_claims demo_claimer demo_claim_request Demo.outside0 (Demo.world0 demo_linked_dir)
    = (Some (Ok (http_error 503 "faucet payout failed")), w1) /\
  exists rep w2, @handleClaim Demo.scheme Demo.around demo_first_lost demo_claims demo_claimer demo_claim_request Demo.outside0 w1
    = (Some (Ok (WriteJSON 201 rep)), w2).
Proof. eexists. split; [vm_compute; reflexivity|]. do 2 eexists. vm_compute. reflexivity. Qed.
