(* ===== verification/BillingApiSpec.v ===== *)
(** * What the billing endpoints may change and what they answer *)
From Stdlib Require Import ZArith Lia Strings.Ascii Strings.String.
From stdpp Require Import base gmap strings list fin_maps.
From S2P Require Import Prelude Sha256 Base58 Billing Tx Schema BillingStore Projection WithdrawalStore DepositStore AllowanceStore Reachable Market Recon Worker GoText Json Base64 AclTypes DirSchema Directory Delegations Jwt Http Mesh Pricing PricingSpec BillingApi.

Open Scope Z_scope.

(** ** The endpoints *)
Inductive endpoint :=
  | GetState | PutPreferences | GetLedger | GetDeposits | GetWithdrawals | PostWithdrawal | GetWithdrawal
  | GetAsks | GetModelCaps | PutModelCaps | GetAskConfigs | PutAskConfig | DeleteAskConfig
  | GetReconciliation | GetMerkleProof.

#[export] Instance endpoint_dec : EqDecision endpoint.
Proof. solve_decision. Defined.

Definition serve_billing `{Ed25519} `{surroundings} `{chainReader site} (e : endpoint) (s : BillingService) (r : request)
    : W site unit :=
  match e with
  | GetState => quietly (handleState s r)
  | PutPreferences => quietly (handlePreferences s r)
  | GetLedger => quietly (handleLedger s r)
  | GetDeposits => quietly (handleDeposits s r)
  | GetWithdrawals => quietly (handleWithdrawalsList s r)
  | PostWithdrawal => quietly (handleWithdrawalsCreate s r)
  | GetWithdrawal => quietly (handleWithdrawal s r)
  | GetAsks => quietly (handleAsks s r)
  | GetModelCaps => quietly (handleModelCapsGet s r)
  | PutModelCaps => quietly (handleModelCapsPut s r)
  | GetAskConfigs => quietly (handleAsksConfigList s r)
  | PutAskConfig => quietly (handleAsksConfigPut s r)
  | DeleteAskConfig => quietly (handleAsksConfigDelete s r)
  | GetReconciliation => quietly (handleReconciliation s r)
  | GetMerkleProof => quietly (handleMerkleProof s r)
  end.

(** ** What an account and its peer have in the database *)
Definition config_of (p : string) (d : db) : gmap (string * string * string) Ask :=
  filter (fun ka => fst (fst (fst ka)) = p) (ask_config d).
Definition caps_of (b : string) (d : db) : gmap (string * string * string) ModelCaps :=
  filter (fun ka => fst (fst (fst ka)) = b) (model_caps d).
Definition entries_of (b : string) (d : db) : list LedgerRow := filter (fun row => lg_account_id row = b) (ledger d).
Definition withdrawals_of (b : string) (d : db) : gmap Z WithdrawalRow :=
  filter (fun kr => wr_account_id (snd kr) = b) (withdrawals d).

(** Ids come from a sequence, so a new row takes no other's place. *)
Definition numbered (d : db) : Prop := forall id, is_Some (withdrawals d !! id) -> id < withdrawals_seq d.

(** The account [b] sees the same balance, limits, ledger and withdrawals, its peer [p] the
    same durable asks, and nobody any difference in requests, deposits, links, allowances
    and batches. *)
Record untouched (b p : string) (d d' : db) : Prop := {
  un_numbered : numbered d -> numbered d';
  un_credit : credits d' !! b = credits d !! b;
  un_entries : entries_of b d' = entries_of b d;
  un_withdrawals : numbered d -> withdrawals_of b d' = withdrawals_of b d;
  un_caps : caps_of b d' = caps_of b d;
  un_config : config_of p d' = config_of p d;
  un_asks : same_asks p d d';
  un_requests : requests d' = requests d;
  un_deposits : deposits d' = deposits d /\ dep_cursors d' = dep_cursors d;
  un_allowances : Schema.allowances d' = Schema.allowances d /\ wallets d' = wallets d;
  un_batches : settlements d' = settlements d /\ settle_legs d' = settle_legs d /\ settle_cursors d' = settle_cursors d }.
#[export] Instance untouched_preorder b p : PreOrder (untouched b p).
Proof.
  split; [by split|]. unfold same_asks. intros x y z [] []. unfold same_asks in *. split; unfold same_asks; intuition congruence.
Qed.

Create HintDb untouched discriminated.

Section Statements.
Variables (a b p peer : string).
Hypotheses (Ha : a <> b) (Hp : peer <> p).

Lemma un_write_credit r d d' : write_credit a r d = Ok d' -> untouched b p d d'.
Proof. intros [-> _]%write_credit_Ok. split; try done. simpl. by rewrite lookup_insert_ne. Qed.
Lemma un_ensure t d u d' : sql_ensure_credit a t d = Ok (u, d') -> untouched b p d d'.
Proof.
  unfold sql_ensure_credit. destruct (credits d !! a); [by intros [= _ <-]|].
  intros (d'' & Hw & [= _ <-])%res_bind_Ok. by eapply un_write_credit.
Qed.
Lemma un_update f d u d' : sql_update_credit a f d = Ok (u, d') -> untouched b p d d'.
Proof.
  unfold sql_update_credit. destruct (credits d !! a); [|by intros [= _ <-]].
  intros (d'' & Hw & [= _ <-])%res_bind_Ok. by eapply un_write_credit.
Qed.
Lemma un_insert_ledger row d u d' : lg_account_id row = a -> sql_insert_ledger row d = Ok (u, d') -> untouched b p d d'.
Proof.
  unfold sql_insert_ledger. intros Hr. destruct (ledger_row_check row); [done|]. destruct (ledger_taken _ _ _); [done|].
  intros [= _ <-]. split; try done. unfold entries_of. simpl. rewrite filter_app, filter_cons_False; [by rewrite app_nil_r|].
  simpl. congruence.
Qed.
Lemma un_insert_withdrawal row d o d' : wr_account_id row = a -> sql_insert_withdrawal row d = Ok (o, d') -> untouched b p d d'.
Proof.
  unfold sql_insert_withdrawal. intros Hr. destruct (wr_amount_raw row <=? 0); [done|]. cbv zeta.
  destruct (find_key _ _); intros [= _ <-]; split; try done; unfold numbered, withdrawals_of; simpl.
  - intros Hd id Hid. specialize (Hd id Hid). lia.
  - intros Hd id. destruct (decide (id = withdrawals_seq d)) as [->|]; [lia|]. rewrite lookup_insert_ne by done.
    intros Hid. specialize (Hd id Hid). lia.
  - intros Hd. apply map_filter_insert_not'; [simpl; congruence|]. intros y Hy.
    assert (withdrawals_seq d < withdrawals_seq d) by (apply Hd; by eexists). lia.
Qed.
Lemma un_delete_caps d u d' : sql_delete_model_caps a d = Ok (u, d') -> untouched b p d d'.
Proof.
  intros [= _ <-]. split; try done. unfold caps_of. simpl. rewrite map_filter_filter. apply map_filter_ext.
  intros k x _. simpl. split; [by intros [? _]|]. intros ->. by split.
Qed.
Lemma un_insert_caps r d u d' : sql_insert_model_caps a r d = Ok (u, d') -> untouched b p d d'.
Proof.
  unfold sql_insert_model_caps. destruct (negb _); [done|]. destruct (model_caps d !! _); [done|]. intros [= _ <-].
  split; try done. unfold caps_of. simpl. by apply map_filter_insert_not.
Qed.
Lemma un_delete_config d u d' : sql_delete_ask_config peer d = Ok (u, d') -> untouched b p d d'.
Proof.
  intros [= _ <-]. split; try done. unfold config_of. simpl. rewrite map_filter_filter. apply map_filter_ext.
  intros k x _. simpl. split; [by intros [? _]|]. intros ->. by split.
Qed.
Lemma un_insert_config t x d u d' : sql_insert_ask_config peer t x d = Ok (u, d') -> untouched b p d d'.
Proof.
  unfold sql_insert_ask_config. destruct (negb _); [done|]. destruct (ask_config d !! _); [done|]. intros [= _ <-].
  split; try done. unfold config_of. simpl. by apply map_filter_insert_not.
Qed.
Lemma un_set_asks v d : same_asks p d (set_asks v d) -> untouched b p d (set_asks v d).
Proof. by split. Qed.
Lemma un_delete_asks d u d' : sql_delete_asks peer d = Ok (u, d') -> untouched b p d d'.
Proof. intros Hd. pose proof Hd as [v ->]%eff_delete_asks. by eapply un_set_asks, delete_asks_elsewhere. Qed.
Lemma un_insert_ask x d u d' : ak_PeerID x = peer -> sql_insert_ask x d = Ok (u, d') -> untouched b p d d'.
Proof.
  intros Hx Hd. pose proof Hd as [v ->]%eff_insert_ask. eapply un_set_asks, insert_ask_elsewhere; [|done]. congruence.
Qed.
Lemma un_query {A} (f : db -> A) d x d' : query f d = Ok (x, d') -> untouched b p d d'.
Proof. intros ->%eff_query. reflexivity. Qed.

(** ** The methods *)
Ltac by_untouched := moves; eauto using un_ensure, un_update, un_delete_caps, un_insert_caps, un_delete_config, un_insert_config,
  un_delete_asks, un_insert_ask, un_query.

Lemma EnsureAccountCredit_untouched : Moves (untouched b p) (EnsureAccountCredit a).
Proof using Ha. unfold EnsureAccountCredit. by_untouched. Qed.
Lemma SetAccountCaps_untouched caps : Moves (untouched b p) (SetAccountCaps a caps).
Proof using Ha. unfold SetAccountCaps. by_untouched. Qed.
Lemma ReserveWithdrawal_untouched q now : wq_AccountID q = a -> Moves (untouched b p) (ReserveWithdrawal q now).
Proof using Ha.
  intros Hq. unfold ReserveWithdrawal, existingWithdrawal, debitWithdrawal, applyDelta, insert_leg, now_or.
  moves; eauto using un_query.
  all: intros ? ? ?; rewrite ?Hq; eauto using un_ensure, un_update.
  - by apply un_insert_withdrawal.
  - by apply un_insert_ledger.
Qed.
Lemma ReplaceModelCaps_untouched rows : Moves (untouched b p) (ReplaceModelCaps a rows).
Proof using Ha.
  assert (Hins : Moves (untouched b p) (insertModelCaps a rows)) by (induction rows as [|r rows' IH]; simpl; by_untouched).
  unfold ReplaceModelCaps. by_untouched.
Qed.
Lemma ReplaceAskConfig_untouched l : Moves (untouched b p) (ReplaceAskConfig peer l).
Proof using Hp.
  assert (Hins : forall t, Moves (untouched b p) (insertAskConfig peer t l)).
  { intros t. induction l as [|x l' IH]; simpl; by_untouched. }
  unfold ReplaceAskConfig. by_untouched.
Qed.
Lemma ReplaceAsks_untouched l ttl : Moves (untouched b p) (ReplaceAsks peer l ttl).
Proof using Hp.
  assert (Hins : forall rev ex t, Moves (untouched b p) (insertAsks peer rev ex t l)).
  { intros rev ex t. induction l as [|x l IH]; simpl; by_untouched. intros ? ? ?. by apply un_insert_ask. }
  unfold ReplaceAsks, scan_int64. by_untouched.
Qed.
End Statements.

(** ** The handlers *)
Section Handlers.
Context `{Ed25519} `{surroundings} `{chainReader site}.

Section Writes.
Variables (a b p : string).
Hypothesis (Ha : a <> b).
Notation keeps := (wmoves (untouched b p)).

Lemma keeps_read {A} (m : store A) : Moves (=) m -> keeps (callStore (N := site) m).
Proof. intros Hm. apply wm_store; [typeclasses eauto|]. intros e d. by rewrite read_stays. Qed.
Lemma keeps_method {A} (m : store A) : Moves (untouched b p) m -> keeps (callStore (N := site) m).
Proof. intros Hm. apply wm_store; [typeclasses eauto|]. intros e d. exact (moves_run (untouched b p) m e d Hm). Qed.
Lemma keeps_dir {A} (m : dstore A) : keeps (callDir m).
Proof. apply wm_node. typeclasses eauto. Qed.
Lemma keeps_site {A} (f : nat -> res A) : keeps (asks_site f).
Proof. apply wm_node. typeclasses eauto. Qed.
Lemma keeps_unavailable {A B} (m : W site A) (k : A -> W site (reply B)) :
  keeps m -> (forall x, keeps (k x)) -> keeps (or_unavailable m k).
Proof. intros Hm Hk. unfold or_unavailable, service_unavailable. wmoves; auto. Qed.
(** Handlers by their syntax; a store call is a read, or one of the methods above. *)
Create HintDb keeps discriminated.
Ltac by_keeps := repeat match goal with
  | |- wmoves _ (or_unavailable _ _) => apply keeps_unavailable; [|intros ?]
  | |- wmoves _ (callStore _) => first [apply keeps_read; solve [eauto with reads] | apply keeps_method]
  | |- wmoves _ (quietly _) => unfold quietly
  | |- wmoves _ (wbind _ _) => apply wm_bind; [typeclasses eauto| |intros ?]
  | |- wmoves _ (wattempt _ _) => apply wm_attempt; [typeclasses eauto| |intros ?]
  | |- wmoves _ (wwrap _ _) => apply wm_wrap; [typeclasses eauto|]
  | |- wmoves _ (let _ := _ in _) => cbv zeta
  | |- wmoves _ (match ?x with _ => _ end) => destruct x
  | |- wmoves _ _ => solve [eauto with keeps wmoves typeclass_instances]
  end.

Lemma publish_keeps mesh account peer l : peer <> p -> keeps (publishAskConfig mesh account peer l).
Proof using Ha.
  intros Hp. unfold publishAskConfig. by_keeps. by eapply ReplaceAsks_untouched.
Qed.
Lemma Report_keeps rec account : keeps (Report rec account).
Proof. unfold Report, observeChain. by_keeps. Qed.
Lemma pricing_keeps s byPeer l : keeps (pricing_all s byPeer l).
Proof. induction l as [|i l IH]; simpl; [by_keeps|]. unfold pricing_of. by_keeps. Qed.
Hint Resolve Report_keeps pricing_keeps : keeps.

(** The instance of [p] is somebody else's, at the call and whatever is done to it. *)
Definition not_of (account : string) (w : world site) : Prop :=
  forall k kr, by_peer p (dir_others k (st_dir (w_node w))) = Some kr -> ir_account_id (snd kr) <> account.

(** What is done with an instance of the caller's own is not done to [p]. *)
Lemma instance_keeps {B} peer (refuse : W site B) (accept : InstanceInfo -> W site B) o w :
  (forall i d, untouched b p d (o_others o i d)) -> not_of a w ->
  keeps refuse -> (peer <> p -> forall inst, keeps (accept inst)) ->
  untouched b p (w_db w) (w_db (snd (wattempt (callDir (GetInstanceByPeerID peer)) (fun inst =>
    match inst with
    | Err _ => refuse
    | Ok inst => if negb (String.eqb (in_AccountID inst) a) then refuse else accept inst
    end) o w))).
Proof using Ha.
  intros Ho Hn Hrefuse Haccept. unfold wattempt. destruct (callDir _ o w) as [r1 w1] eqn:Ec.
  pose proof (dir_total _ _ _ _ _ Ec) as [r ->]. unfold callDir, callNode, run in Ec.
  destruct (GetInstanceByPeerID peer _ _) as [r2 c] eqn:Eg. injection Ec as -> <-.
  destruct r as [inst|x]; [|exact (Hrefuse o (mkWorld (w_db w) _ _) Ho)].
  destruct (String.eqb_spec (in_AccountID inst) a) as [Hacc|]; [|exact (Hrefuse o (mkWorld (w_db w) _ _) Ho)].
  refine (Haccept _ inst o (mkWorld (w_db w) _ _) Ho). intros Hpeer.
  apply loadInstance_row in Eg as (kr & Hq & Hrow & _).
  apply (Hn (st_calls (w_node w)) kr); [by rewrite <- Hpeer|congruence].
Qed.

Lemma quietly_db {B} (m : W site B) o w : w_db (snd (quietly m o w)) = w_db (snd (m o w)).
Proof. unfold quietly, wattempt. by destruct (m o w) as [[r|] w']. Qed.

Ltac use_methods := by_keeps; first
  [ by apply EnsureAccountCredit_untouched | by apply SetAccountCaps_untouched | by eapply ReserveWithdrawal_untouched
  | by apply ReplaceModelCaps_untouched | by eapply ReplaceAskConfig_untouched ].

(** Every endpoint but the two that take a peer id. *)
Lemma endpoint_keeps e s r : accountID r = Some a -> e <> PutAskConfig -> e <> DeleteAskConfig -> keeps (serve_billing e s r).
Proof using Ha.
  intros Hr Hput Hdel. destruct e; try done; unfold serve_billing, quietly; apply wm_attempt; try typeclasses eauto;
    try (intros ?; apply wm_ret; typeclasses eauto).
  all: unfold handleState, handlePreferences, handleLedger, handleDeposits, handleWithdrawalsList, handleWithdrawalsCreate,
    handleWithdrawal, handleAsks, handleModelCapsGet, handleModelCapsPut, handleAsksConfigList, handleReconciliation,
    handleMerkleProof, requireAccount, service_unavailable, allowances, live_asks, reserve_refusal; rewrite Hr.
  all: use_methods.
Qed.

Lemma publish_now_keeps s account peer l : peer <> p -> keeps (publish_now s account peer l).
Proof using Ha. intros Hp. unfold publish_now. by_keeps. by apply publish_keeps. Qed.
Hint Resolve publish_now_keeps : keeps.

(** The two that take one: the instance is looked up first. *)
Lemma config_untouched e s r o w : accountID r = Some a -> e = PutAskConfig \/ e = DeleteAskConfig ->
  (forall i d, untouched b p d (o_others o i d)) -> not_of a w ->
  untouched b p (w_db w) (w_db (snd (serve_billing e s r o w))).
Proof using Ha.
  intros Hr He Ho Hn. destruct He as [-> | ->]; unfold serve_billing; rewrite quietly_db;
    unfold handleAsksConfigPut, handleAsksConfigDelete, requireAccount; rewrite Hr; cbv zeta.
  all: destruct (off s); [reflexivity|].
  1: destruct (String.eqb _ ""); [reflexivity|]; destruct (DecodeStrict _ _ _ r) as [body|]; [|reflexivity];
     destruct (validateAskConfig _); [|reflexivity].
  all: apply instance_keeps; [done..|by_keeps|intros Hpeer inst].
  all: use_methods.
Qed.
End Writes.

(** C7: the billing endpoints act for their caller only.  Whatever request reaches
    whichever of them, in whatever state the service is, an account [b] that is not the
    caller keeps its balance, limits, ledger and withdrawals, and a peer [p] whose instance
    is not the caller's its asks, on the market and on file; requests, deposits, links,
    allowances and settlement batches change for nobody; unless someone else changes them
    meanwhile.  A caller without an account changes nothing at all. *)
Theorem billing_api_isolated e s r b p o w :
  (forall a, accountID r = Some a -> a <> b /\ not_of p a w) ->
  (forall i d, untouched b p d (o_others o i d)) ->
  untouched b p (w_db w) (w_db (snd (serve_billing e s r o w))).
Proof.
  intros Hr Ho. destruct (accountID r) as [a|] eqn:Ha.
  - destruct (Hr a eq_refl) as [Hab Hn]. destruct (decide (e = PutAskConfig)); [eapply config_untouched; eauto|].
    destruct (decide (e = DeleteAskConfig)); [eapply config_untouched; eauto|]. by eapply endpoint_keeps.
  - destruct e; unfold serve_billing; rewrite quietly_db;
      unfold handleState, handlePreferences, handleLedger, handleDeposits, handleWithdrawalsList, handleWithdrawalsCreate,
        handleWithdrawal, handleAsks, handleModelCapsGet, handleModelCapsPut, handleAsksConfigList, handleAsksConfigPut,
        handleAsksConfigDelete, handleReconciliation, handleMerkleProof, requireAccount; rewrite Ha; reflexivity.
Qed.
End Handlers.

(** ** Somebody else's asks *)
#[local] Existing Instance Demo.scheme.
#[local] Existing Instance Demo.around.
Definition silent_chain : chainReader site := {| node_TokenDelegation := fun _ n => (Ok None, n) |}.
#[local] Existing Instance silent_chain.
Definition filed_key : string * string * string := ("peerA", "llm", "m")%string.
Definition filed_world : world site :=
  mkWorld (set_ask_config {[ filed_key := demo_ask ]} empty_db) (mkSite Demo.directory 0) 0.
Definition delete_asks_as (caller : string) : request :=
  mkHttp "DELETE" (Some caller) None (fun _ => ""%string) (fun _ => ""%string)
    (fun k => if String.eqb k "peerID" then "peerA"%string else ""%string) [] false.
Definition api_service : BillingService := NewBilling MarketGate.BillingEnforce "ata" "" "mint" "tp" 6 true true.
Definition deleted_as (caller : string) : world site :=
  snd (serve_billing DeleteAskConfig api_service (delete_asks_as caller) Demo.outside0 filed_world).

(** The owner may. *)
Example owner_deletes : ask_config (w_db (deleted_as "seller")) !! filed_key = None.
Proof. vm_compute. reflexivity. Qed.
Lemma not_mallory : not_of "peerA" "mallory" filed_world.
Proof. intros k kr. vm_compute. by intros [= <-]. Qed.
Lemma billing_api_isolated_witness : untouched "seller" "peerA" (w_db filed_world) (w_db (deleted_as "mallory")).
Proof.
  unfold deleted_as. apply (billing_api_isolated DeleteAskConfig api_service (delete_asks_as "mallory") "seller" "peerA" Demo.outside0 filed_world).
  - intros a Ha. injection Ha as <-. split; [discriminate|exact not_mallory].
  - intros i d. reflexivity.
Defined.
