(* ===== verification/PostSpec.v ===== *)
(** * POST /billing/withdrawals: every answer, and the same request twice *)
From Stdlib Require Import ZArith Lia Strings.Ascii Strings.String.
From stdpp Require Import base gmap strings list fin_maps.
From S2P Require Import Prelude Billing Tx Schema BillingStore WithdrawalStore WithdrawalInv Reachable BillingSpec StoreSpec WithdrawSpec ReconSpec DelegationsSpec Worker GoText Json JsonPrint AclTypes DirSchema Directory Delegations MarketGate Jwt Http Mesh Pricing BillingApi BillingApiSpec.

Open Scope Z_scope.

(** ** The reservation, without a fault *)
Definition leg_of (q : WithdrawalRequest) (id : Z) (t : time) : LedgerRow :=
  movement (wq_AccountID q) (- wq_AmountRaw q) "withdraw" "withdraw" (wq_DestinationWallet q) (WithdrawalRef id) t.
Definition debited (q : WithdrawalRequest) (t : time) (d : db) : db :=
  let id := withdrawals_seq d in
  append_ledger (leg_of q id t)
    (bump (wq_AccountID q) (- wq_AmountRaw q) 0 t (set_withdrawal id (row_reserved q t) (set_withdrawals_seq (id + 1) d))).
Definition leg_taken (d : db) : bool := ledger_taken (Some (WithdrawalRef (withdrawals_seq d))) "withdraw" (ledger d).

(** What [ReserveWithdrawal] returns and leaves, when the credit suffices. *)
Definition reserves (q : WithdrawalRequest) (t : time) (d : db) : res Withdrawal * db :=
  match find_key (wq_IdempotencyKey q) d with
  | Some (id, r) =>
    if String.eqb (wr_account_id r) (wq_AccountID q)
    then (Ok (scanWithdrawal id r), set_withdrawals_seq (withdrawals_seq d + 1) d)
    else (Err (Wrapf "store: reserve withdrawal: %w: idempotency key in use by another account" ErrConflict), d)
  | None =>
    if leg_taken d then (Err (Wrapf "store: reserve withdrawal: %w: withdraw leg exists" ErrConflict), d)
    else (Ok (scanWithdrawal (withdrawals_seq d) (row_reserved q t)), debited q t d)
  end.

Section Reserve.
Context (q : WithdrawalRequest) (t0 t : time) (d : db).
Hypotheses (Hq : checkWithdrawalRequest q = None) (Hok : rows_ok d) (Hseq : 0 < withdrawals_seq d)
  (Hav : wq_AmountRaw q <= credit_of (wq_AccountID q) d - reserved_of (wq_AccountID q) d).

Lemma amount_positive : 0 < wq_AmountRaw q.
Proof using Hq.
  unfold checkWithdrawalRequest in Hq.
  repeat match type of Hq with context [if ?b then _ else _] => destruct b eqn:? end; zb; done || lia.
Qed.

Lemma existing_runs id r : find_key (wq_IdempotencyKey q) d = Some (id, r) ->
  fine_end t0 (existingWithdrawal q) d (set_withdrawals_seq (withdrawals_seq d + 1) d) (fst (reserves q t d)) (snd (reserves q t d)).
Proof.
  intros Hf. unfold reserves. rewrite Hf. unfold existingWithdrawal.
  eapply fe_bind; [apply fr_wrap, fr_scan, fr_stmt; unfold query; rewrite <- Hf; reflexivity|]. cbn [fst snd scanWithdrawal wd_AccountID].
  destruct (String.eqb _ _); cbn [negb]; [apply fe_commit|apply fe_fail].
Qed.

Lemma debit_runs : find_key (wq_IdempotencyKey q) d = None ->
  let id := withdrawals_seq d in
  fine_end t0 (debitWithdrawal id q t) d (set_withdrawal id (row_reserved q t) (set_withdrawals_seq (id + 1) d))
    (fst (reserves q t d)) (snd (reserves q t d)).
Proof.
  intros Hf id. unfold reserves. rewrite Hf. unfold debitWithdrawal.
  set (d1 := set_withdrawal _ _ _). pose proof amount_positive as Hpos.
  destruct (rows_ok_default d (wq_AccountID q) t Hok) as (_ & _ & _ & Hb & Hm).
  eapply fe_attempt; [apply fr_applyDelta_value|].
  - exact Hok.
  - unfold bump_fits, credit_of, reserved_of in *. simpl in *. lia.
  - change (credit_of _ d1) with (credit_of (wq_AccountID q) d). change (reserved_of _ d1) with (reserved_of (wq_AccountID q) d).
    rewrite !i64_id by (unfold_i64; lia).
    rewrite (proj2 (Z.ltb_ge _ _)) by lia. rewrite Z.gtb_ltb, (proj2 (Z.ltb_ge _ _)) by lia. cbn [orb].
    unfold leg_taken. destruct (ledger_taken _ _ (ledger d)) eqn:Ht.
    + eapply fe_bind_err. unfold insert_leg. apply fe_attempt_fail with (x := UniqueViolation); [|reflexivity].
      unfold sql_insert_ledger. change (ledger_row_check _) with (@None err). cbv iota.
      replace (ledger_taken _ _ _) with true by (symmetry; exact Ht). done.
    + eapply fe_bind; [apply fr_insert_leg; [done|exact Ht]|]. apply fe_commit.
Qed.

Lemma ReserveWithdrawal_runs now (s := if IsZero now then t0 else now) : s = t ->
  run (ReserveWithdrawal q now) (fine_env t0) d = reserves q t d.
Proof using All.
  intros Hs. unfold ReserveWithdrawal. rewrite Hq, now_or_run. cbn [e_now fine_env]. fold s. rewrite Hs.
  rewrite (surjective_pairing (reserves q t d)). apply run_with_tx. pose proof amount_positive as Hpos.
  destruct (find_key (wq_IdempotencyKey q) d) as [[id r]|] eqn:Hf.
  - eapply fe_attempt; [apply fr_scan_none, fr_stmt|].
    + unfold sql_insert_withdrawal. cbn [row_reserved wr_amount_raw wr_idempotency_key].
      rewrite (proj2 (Z.leb_gt _ _)) by lia. cbv zeta.
      change (find_key _ (set_withdrawals_seq _ d)) with (find_key (wq_IdempotencyKey q) d). by rewrite Hf.
    + cbv match. cbn [errors_is]. by eapply existing_runs.
  - eapply fe_attempt; [apply fr_scan, fr_stmt|].
    + unfold sql_insert_withdrawal. cbn [row_reserved wr_amount_raw wr_idempotency_key].
      rewrite (proj2 (Z.leb_gt _ _)) by lia. cbv zeta.
      change (find_key _ (set_withdrawals_seq _ d)) with (find_key (wq_IdempotencyKey q) d). by rewrite Hf.
    + cbv match. rewrite (proj2 (Z.eqb_neq _ _)) by lia. by apply debit_runs.
Qed.
End Reserve.

(** ** The endpoint *)
Section Post.
Context `{Ed25519} `{surroundings} `{chainReader site}.

(** The request can be served: what it carries, and the caller's wallet. *)
Record well_asked (s : BillingService) (r : request) (q : WithdrawalRequest) : Prop := {
  wa_account : accountID r = Some (wq_AccountID q);
  wa_body : exists body, DecodeStrict maxBodyBytes dec_create (mkCreate "" 0 "") r = Ok body /\
    withdrawalIdempotencyKey r (wn_IdempotencyKey body) = Ok (wq_IdempotencyKey q) /\
    wn_AmountRaw body = wq_AmountRaw q /\
    (wn_DestinationWallet body = ""%string \/ wn_DestinationWallet body = wq_DestinationWallet q);
  wa_key : wq_IdempotencyKey q <> ""%string;
  wa_amount : 0 < wq_AmountRaw q;
  wa_enabled : bs_withdrawalsEnabled s = true;
  wa_valid : validateDestinationWallet (wq_DestinationWallet q) = true }.

(** What the endpoint answers and leaves. *)
Definition post_answer (q : WithdrawalRequest) (t : time) (d : db) : reply withdrawalJSON * db :=
  if credit_of (wq_AccountID q) d - reserved_of (wq_AccountID q) d <? wq_AmountRaw q
  then (http_error 402 "insufficient available credit", d)
  else match reserves q t d with
       | (Ok wd, d') => (WriteJSON 202 (withdrawalToJSON wd), d')
       | (Err _, d') => (http_error 409 "idempotency key in use", d')
       end.

(** What a request asks for, or the refusal it gets unread of the balance: its account,
    its body, its key, then the linked wallet and the amount. *)
Definition asked_for (s : BillingService) (r : request) (d : db) : reply withdrawalJSON + WithdrawalRequest :=
  match accountID r with
  | None => inl (http_error 401 "billing account required")
  | Some a =>
    match DecodeStrict maxBodyBytes dec_create (mkCreate "" 0 "") r with
    | Err _ => inl (http_error 400 "invalid JSON body")
    | Ok body =>
      match withdrawalIdempotencyKey r (wn_IdempotencyKey body) with
      | Err e => inl (http_error 400 (error_text e))
      | Ok key =>
        if decide (key = ""%string) then inl (http_error 400 "idempotency_key is required")
        else if negb (bs_withdrawalsEnabled s) then inl (http_error 503 "withdrawals are disabled")
        else match wallets d !! a with
          | None => inl (http_error 409 "primary linked wallet required")
          | Some wallet =>
            if decide (wallet = ""%string) then inl (http_error 409 "primary linked wallet required")
            else if negb (validateDestinationWallet wallet)
            then inl (http_error 409 "primary linked wallet is not a valid 32-byte base58 pubkey")
            else if decide (wn_DestinationWallet body = ""%string \/ wn_DestinationWallet body = wallet)
            then if decide (0 < wn_AmountRaw body) then inr (mkWithdrawalRequest a key wallet (wn_AmountRaw body))
                 else inl (http_error 400 "amount_raw must be positive")
            else inl (http_error 409 "destination_wallet must match the primary linked wallet")
          end
      end
    end
  end.

(** The endpoint as a function of the database. *)
Definition withdrawal_reply (s : BillingService) (r : request) (t : time) (d : db) : reply withdrawalJSON * db :=
  match asked_for s r d with
  | inl refusal => (refusal, d)
  | inr q => match credits d !! wq_AccountID q with
             | Some _ => post_answer q t d
             | None => (http_error 503 "service unavailable", d)
             end
  end.

Lemma asked_for_well s r d q : asked_for s r d = inr q -> well_asked s r q /\ wallets d !! wq_AccountID q = Some (wq_DestinationWallet q).
Proof.
  unfold asked_for. destruct (accountID r) as [a|] eqn:Ha; [|done].
  destruct (DecodeStrict _ _ _ r) as [body|e] eqn:Hd; [|done].
  destruct (withdrawalIdempotencyKey r _) as [key|e] eqn:Hk; [|done]. case_decide; [done|].
  destruct (bs_withdrawalsEnabled s) eqn:Hen; [|done]. cbn [negb].
  destruct (wallets d !! a) as [wallet|] eqn:Hw; [|done]. case_decide; [done|].
  destruct (validateDestinationWallet wallet) eqn:Hval; [|done]. cbn [negb]. case_decide; [|done]. case_decide; [|done].
  intros [= <-]. split; [|done]. split; try done. by exists body.
Qed.

Lemma well_asked_checked s r q : well_asked s r q -> checkWithdrawalRequest q = None /\ wq_AccountID q <> ""%string /\
  wq_DestinationWallet q <> ""%string.
Proof.
  intros [Ha _ Hk Hm _ Hv]. assert (Hacc : wq_AccountID q <> ""%string).
  { unfold accountID, principal_UserID, keyOwner, named in Ha. intros E. rewrite E in Ha.
    destruct (h_Principal r) as [x|]; [destruct (String.eqb_spec x "")|]; try congruence;
      (destruct (h_Account r) as [y|]; [destruct (String.eqb_spec y "")|]; congruence). }
  assert (Hw : wq_DestinationWallet q <> ""%string) by (intros E; rewrite E in Hv; by vm_compute in Hv).
  split; [|done]. unfold checkWithdrawalRequest. apply String.eqb_neq in Hacc, Hk, Hw. rewrite Hacc, Hk, Hw.
  by rewrite (proj2 (Z.leb_gt _ _)).
Qed.

Lemma primary_run a wallet d t : a <> ""%string -> wallets d !! a = Some wallet ->
  run (PrimaryWalletForAccount a) (fine_env t) d = (Ok (wallet, true), d).
Proof.
  intros Ha%String.eqb_neq Hw. unfold PrimaryWalletForAccount. rewrite Ha.
  unfold run, attempt, scan_row, bind, pool_stmt, sql_primary_wallet, query. simpl. by rewrite Hw.
Qed.
Lemma primary_none a d t : wallets d !! a = None ->
  exists ok, run (PrimaryWalletForAccount a) (fine_env t) d = (Ok (""%string, ok), d) /\ ok = false.
Proof.
  intros Hw. exists false. split; [|done]. unfold PrimaryWalletForAccount. destruct (String.eqb a ""); [done|].
  unfold run, attempt, scan_row, bind, pool_stmt, sql_primary_wallet, query. simpl. by rewrite Hw.
Qed.
Lemma credit_none a d t : credits d !! a = None -> run (AccountCreditOf a) (fine_env t) d = (Err ErrNotFound, d).
Proof.
  intros Hr. unfold AccountCreditOf, run, attempt, scan_row, bind, pool_stmt, sql_select_credit, query. simpl. by rewrite Hr.
Qed.
Lemma credit_run a row d t : credits d !! a = Some row -> run (AccountCreditOf a) (fine_env t) d = (Ok (credit_of_row a row), d).
Proof.
  intros Hr. unfold AccountCreditOf, run, attempt, scan_row, bind, pool_stmt, sql_select_credit, query. simpl. by rewrite Hr.
Qed.

Section Quiet.
Context (o : outside).
Hypothesis (Hquiet : quiet o).

Lemma quiet_call {A} (m : store A) r d' (w : world site) : (forall t, run m (fine_env t) (w_db w) = (r, d')) ->
  callStore m o w = (Some r, mkWorld d' (w_node w) (S (w_calls w))).
Proof using Hquiet.
  intros Hm. unfold callStore. destruct (qt_env o Hquiet (w_calls w)) as [t ->]. by rewrite (qt_others o Hquiet), Hm.
Qed.

Lemma post_runs s r q row (w : world site) : well_asked s r q -> rows_ok (w_db w) -> 0 < withdrawals_seq (w_db w) ->
  wallets (w_db w) !! wq_AccountID q = Some (wq_DestinationWallet q) -> credits (w_db w) !! wq_AccountID q = Some row ->
  let t := site_now (st_calls (w_node w)) in t <> zeroTime ->
  exists w', handleWithdrawalsCreate s r o w = (Some (Ok (fst (post_answer q t (w_db w)))), w') /\
    w_db w' = snd (post_answer q t (w_db w)).
Proof using All.
  intros Hw Hok Hseq Hlink Hrow t Ht. destruct (well_asked_checked s r q Hw) as (Hchk & Hne & Hwal).
  destruct Hw as [Ha (body & Hd & Hk & Ham & Hdest) Hkey Hpos Hen Hval].
  unfold handleWithdrawalsCreate, requireAccount. rewrite Ha, Hd, Hk. cbv match.
  rewrite (proj2 (String.eqb_neq _ _) Hkey), Hen. cbn [negb]. unfold or_unavailable.
  unfold wattempt at 1. erewrite quiet_call; [|intros; by apply primary_run]. cbv match. cbn [negb orb].
  rewrite (proj2 (String.eqb_neq _ _) Hwal), Hval. cbn [negb].
  replace (negb _ && negb _) with false by
    (destruct Hdest as [-> | ->]; [done|]; rewrite (String.eqb_refl (wq_DestinationWallet q)); by rewrite andb_false_r).
  rewrite Ham, (proj2 (Z.leb_gt _ _)) by lia.
  unfold wattempt at 1. erewrite quiet_call; [|intros; by apply credit_run]. cbv match.
  unfold Available, post_answer, credit_of, reserved_of. cbn [credit_of_row CreditRaw ReservedRaw]. rewrite Hrow.
  destruct (Hok _ _ Hrow) as (Hb & Hm & _). rewrite i64_id by (unfold_i64; lia).
  destruct (Z.ltb_spec (cr_credit_raw row - cr_reserved_raw row) (wq_AmountRaw q)) as [|Hav]; [by eexists|].
  unfold wbind, timeNow, asks_site, callNode. cbn [w_node st_calls w_db]. fold t.
  unfold wattempt. destruct (reserves q t (w_db w)) as [x d'] eqn:Er. destruct q as [a key wal amount]. cbn in *.
  erewrite quiet_call.
  2: { intros t0. cbn [w_db]. rewrite <- Er. apply ReserveWithdrawal_runs; try done.
       - cbn [wq_AccountID wq_AmountRaw]. unfold credit_of, reserved_of. rewrite Hrow. lia.
       - unfold IsZero. by rewrite (proj2 (Z.eqb_neq _ _)). }
  unfold reserves in Er. cbn [wq_IdempotencyKey wq_AccountID] in Er. destruct (find_key key (w_db w)) as [[id r0]|].
  - destruct (String.eqb _ a); injection Er as <- <-; by eexists.
  - destruct (leg_taken _); injection Er as <- <-; by eexists.
Qed.

Lemma account_named r a : accountID r = Some a -> a <> ""%string.
Proof.
  unfold accountID, principal_UserID, keyOwner, named. intros Ha E. rewrite E in Ha.
  destruct (h_Principal r) as [x|]; [destruct (String.eqb_spec x "")|]; try congruence;
    (destruct (h_Account r) as [y|]; [destruct (String.eqb_spec y "")|]; congruence).
Qed.

(** The wallet is read, and the refusals that follow change nothing. *)
Lemma refusal_runs s r x (w : world site) : asked_for s r (w_db w) = inl x ->
  exists w', handleWithdrawalsCreate s r o w = (Some (Ok x), w') /\ w_db w' = w_db w.
Proof using Hquiet.
  unfold asked_for, handleWithdrawalsCreate, requireAccount. destruct (accountID r) as [a|] eqn:Ha.
  2: { intros [= <-]. by exists w. }
  pose proof (account_named r a Ha) as Hne.
  destruct (DecodeStrict _ _ _ r) as [body|e]; [|intros [= <-]; by exists w].
  destruct (withdrawalIdempotencyKey r _) as [key|e]; [|intros [= <-]; by exists w].
  case_decide as Hkey; [subst key; intros [= <-]; by exists w|]. rewrite (proj2 (String.eqb_neq _ _) Hkey).
  destruct (bs_withdrawalsEnabled s); cbn [negb]; [|intros [= <-]; by exists w]. unfold or_unavailable, wattempt at 1.
  destruct (wallets (w_db w) !! a) as [wallet|] eqn:Hw.
  - erewrite quiet_call; [|intros; by apply primary_run]. cbv match. cbn [negb orb].
    case_decide as Hwal; [subst wallet; intros [= <-]; by eexists|]. rewrite (proj2 (String.eqb_neq _ _) Hwal).
    destruct (validateDestinationWallet wallet); cbn [negb]; [|intros [= <-]; by eexists].
    case_decide as Hd.
    + case_decide as Hm; [done|]. intros [= <-]. rewrite (proj2 (Z.leb_le _ _)) by lia.
      replace (negb _ && negb _) with false by (destruct Hd as [-> | ->]; [done|]; rewrite String.eqb_refl; by rewrite andb_false_r).
      by eexists.
    + intros [= <-]. assert (Hd' : wn_DestinationWallet body <> ""%string /\ wn_DestinationWallet body <> wallet) by tauto.
      destruct Hd' as [He Hn]. rewrite (proj2 (String.eqb_neq _ _) He), (proj2 (String.eqb_neq _ _) Hn). by eexists.
  - erewrite quiet_call; [|intros t; destruct (primary_none a (w_db w) t Hw) as (? & Hp & ->); exact Hp].
    intros [= <-]. by eexists.
Qed.
Lemma uncredited_runs s r q (w : world site) : asked_for s r (w_db w) = inr q -> credits (w_db w) !! wq_AccountID q = None ->
  exists w', handleWithdrawalsCreate s r o w = (Some (Ok (http_error 503 "service unavailable")), w') /\ w_db w' = w_db w.
Proof using Hquiet.
  intros [Hw Hlink]%asked_for_well Hrow. destruct (well_asked_checked s r q Hw) as (_ & Hne & Hwal).
  destruct Hw as [Ha (body & Hd & Hk & Ham & Hdest) Hkey Hpos Hen Hval].
  unfold handleWithdrawalsCreate, requireAccount. rewrite Ha, Hd, Hk. cbv match.
  rewrite (proj2 (String.eqb_neq _ _) Hkey), Hen. cbn [negb]. unfold or_unavailable.
  unfold wattempt at 1. erewrite quiet_call; [|intros; by apply primary_run]. cbv match. cbn [negb orb].
  rewrite (proj2 (String.eqb_neq _ _) Hwal), Hval. cbn [negb].
  replace (negb _ && negb _) with false by
    (destruct Hdest as [-> | ->]; [done|]; rewrite (String.eqb_refl (wq_DestinationWallet q)); by rewrite andb_false_r).
  rewrite Ham, (proj2 (Z.leb_gt _ _)) by lia.
  unfold wattempt at 1. erewrite quiet_call; [|intros; by apply credit_none]. by eexists.
Qed.

(** C13: every answer of the withdrawal endpoint, whatever the request, on every
    reachable database and when no call is lost: the refusal that its account, its body,
    its key, the service's switch, the linked wallet and the amount call for, which
    leaves everything as it was; 503 while the account has no balance row; 402 while the
    available credit is less than the amount, which is looked at before the key; then
    the stored record for a key the account has used, whatever was asked for now; 409
    for a key another account has used; otherwise a new record, reserved, with the
    amount debited and a ledger entry that names it, all in one step. *)
Theorem withdrawal_answers s r (w : world site) : Reachable (w_db w) ->
  let t := site_now (st_calls (w_node w)) in t <> zeroTime ->
  exists w', handleWithdrawalsCreate s r o w = (Some (Ok (fst (withdrawal_reply s r t (w_db w)))), w') /\
    w_db w' = snd (withdrawal_reply s r t (w_db w)).
Proof using All.
  intros HR t Ht. unfold withdrawal_reply. destruct (asked_for s r (w_db w)) as [x|q] eqn:Eq; [by apply refusal_runs|].
  destruct (credits (w_db w) !! wq_AccountID q) as [row|] eqn:Er; [|by eapply uncredited_runs].
  apply asked_for_well in Eq as [Hw Hl]. pose proof (Reachable_Good _ HR) as HG. eapply post_runs; try done.
  - destruct (good_projection _ _ HG) as [x HI]. by eapply Inv_rows_ok.
  - apply (wi_seq _ _ _ (good_withdrawals _ _ HG)).
Qed.

(** *** The same request again *)
Lemma find_key_insert q t d : find_key (wq_IdempotencyKey q) d = None -> withdrawals d !! withdrawals_seq d = None ->
  find_key (wq_IdempotencyKey q) (debited q t d) = Some (withdrawals_seq d, row_reserved q t).
Proof.
  unfold find_key. intros Hf Hn. change (withdrawals (debited q t d)) with (<[withdrawals_seq d := row_reserved q t]> (withdrawals d)).
  assert (He : filter (fun p => wr_idempotency_key (snd p) = wq_IdempotencyKey q) (map_to_list (withdrawals d)) = []).
  { destruct (filter _ _); [done|discriminate]. }
  assert (Hp : filter (fun p => wr_idempotency_key (snd p) = wq_IdempotencyKey q)
    (map_to_list (<[withdrawals_seq d := row_reserved q t]> (withdrawals d))) ≡ₚ [(withdrawals_seq d, row_reserved q t)]).
  { rewrite map_to_list_insert by done. rewrite filter_cons_True by done. by rewrite He. }
  apply Permutation_singleton_r in Hp. by rewrite Hp.
Qed.

(** The record is found again. *)
Lemma reserves_again q t d wd d' : reserves q t d = (Ok wd, d') -> withdrawals d !! withdrawals_seq d = None ->
  (forall t', reserves q t' d' = (Ok wd, set_withdrawals_seq (withdrawals_seq d' + 1) d')) /\
  (d' = set_withdrawals_seq (withdrawals_seq d + 1) d \/ d' = debited q t d).
Proof.
  unfold reserves. intros Hr Hn. destruct (find_key _ d) as [[id row]|] eqn:Hf.
  - destruct (String.eqb (wr_account_id row) (wq_AccountID q)) eqn:Ha; [|done]. injection Hr as <- <-. split; [|by left].
    intros t'. change (find_key _ (set_withdrawals_seq _ d)) with (find_key (wq_IdempotencyKey q) d). by rewrite Hf, Ha.
  - destruct (leg_taken d); [done|]. injection Hr as <- <-. split; [|by right].
    intros t'. rewrite find_key_insert by done. cbn [wr_account_id row_reserved]. by rewrite String.eqb_refl.
Qed.

(** What is left after the answer. *)
Definition left_for (q : WithdrawalRequest) (d : db) : Z := credit_of (wq_AccountID q) d - reserved_of (wq_AccountID q) d.

Lemma debited_ok q t d : rows_ok d -> 0 < wq_AmountRaw q <= left_for q d -> rows_ok (debited q t d).
Proof.
  intros Hok Hq. destruct (rows_ok_default d (wq_AccountID q) t Hok) as (_ & _ & _ & Hb & Hm). unfold left_for in Hq.
  apply (bump_rows_ok (wq_AccountID q) (- wq_AmountRaw q) 0 t _ Hok). unfold bump_fits. lia.
Qed.
Lemma debited_row q t d row : credits d !! wq_AccountID q = Some row -> exists row', credits (debited q t d) !! wq_AccountID q = Some row'.
Proof. intros Hr. eexists. unfold debited, bump. simpl. by rewrite lookup_insert_eq. Qed.

(** A withdrawal request that was accepted can be sent again without harm: nothing is
    debited a second time, and while what is left covers the amount the answer is the same
    record.  But the balance is looked at before the key: once less than the amount is
    left, the same request is answered 402 and not with its record. *)
Theorem withdrawal_repost s r q row (w : world site) ans w' : well_asked s r q -> Reachable (w_db w) ->
  wallets (w_db w) !! wq_AccountID q = Some (wq_DestinationWallet q) -> credits (w_db w) !! wq_AccountID q = Some row ->
  (forall k, site_now k <> zeroTime) ->
  handleWithdrawalsCreate s r o w = (Some (Ok (WriteJSON 202 ans)), w') ->
  exists w'', handleWithdrawalsCreate s r o w' =
      (Some (Ok (if left_for q (w_db w') <? wq_AmountRaw q then http_error 402 "insufficient available credit"
                 else WriteJSON 202 ans)), w'') /\
    left_for q (w_db w'') = left_for q (w_db w').
Proof using All.
  intros Hw HR Hl Hr Ht Hans. pose proof (Reachable_Good _ HR) as HG. pose proof (good_withdrawals _ _ HG) as HW.
  assert (Hok : rows_ok (w_db w)) by (destruct (good_projection _ _ HG) as [x HI]; by eapply Inv_rows_ok).
  destruct (post_runs s r q row w Hw Hok (wi_seq _ _ _ HW) Hl Hr (Ht _)) as (w1 & Hrun1 & Hd1).
  rewrite Hans in Hrun1. injection Hrun1 as Ha <-. unfold post_answer in Ha, Hd1. fold (left_for q (w_db w)) in *.
  destruct (Z.ltb_spec (left_for q (w_db w)) (wq_AmountRaw q)) as [|Hle]; [discriminate|].
  destruct (reserves q _ (w_db w)) as [[wd|e] d'] eqn:Er; [|discriminate]. cbn [fst snd] in *. injection Ha as ->.
  apply reserves_again in Er as [Hagain Hd'].
  2: { destruct (withdrawals (w_db w) !! withdrawals_seq (w_db w)) eqn:E; [|done]. apply (wi_rows _ _ _ HW) in E. lia. }
  rewrite <- Hd1 in Hagain, Hd'.
  assert (Hnext : rows_ok (w_db w') /\ 0 < withdrawals_seq (w_db w') /\ wallets (w_db w') = wallets (w_db w) /\
    exists row', credits (w_db w') !! wq_AccountID q = Some row').
  { pose proof (wi_seq _ _ _ HW). pose proof (wa_amount _ _ _ Hw).
    destruct Hd' as [-> | ->].
    - split; [exact Hok|]. split; [cbn; lia|]. split; [done|]. by exists row.
    - split; [by apply debited_ok|]. split; [cbn; lia|]. split; [done|]. by eapply debited_row. }
  destruct Hnext as (Hok' & Hseq' & Hl' & row' & Hr'). rewrite <- Hl' in Hl.
  destruct (post_runs s r q row' w' Hw Hok' Hseq' Hl Hr' (Ht _)) as (w2 & Hrun2 & Hd2). exists w2.
  rewrite Hrun2, Hd2. unfold post_answer. fold (left_for q (w_db w')). destruct (_ <? _); [done|]. by rewrite Hagain.
Qed.
End Quiet.
End Post.

(** ** 1000 credited, 600 asked for, twice *)
#[local] Existing Instance Demo.scheme.
#[local] Existing Instance Demo.around.
#[local] Existing Instance silent_chain.
Definition post_db : db := play [(OpWallets {[ "buyer"%string := Demo.wallet ]}, 10);
  (OpDeposit (mkDeposit "sig" 0 5 Demo.wallet 1000 None Unassigned None 6), 11); (OpApply "sig" 0 "buyer" 12, 12)]%string empty_db.
Definition post_body : chars := print_fields [("amount_raw", JStr "600"); ("idempotency_key", JStr "k1")]%string.
Definition post_request : request :=
  mkHttp "POST" (Some "buyer"%string) None (fun _ => ""%string) (fun _ => ""%string) (fun _ => ""%string)
    ("{"%char :: post_body ++ ["}"%char]) false.
Definition post_service : BillingService := NewBilling BillingEnforce "ata" "" "mint" "tp" 6 true false.
Definition post_q : WithdrawalRequest := mkWithdrawalRequest "buyer" "k1" Demo.wallet 600.
Definition post_world : world site := mkWorld post_db (mkSite Demo.directory 0) 0.
Definition posted : option (res (reply withdrawalJSON)) * world site :=
  handleWithdrawalsCreate post_service post_request Demo.outside0 post_world.
Definition reposted : option (res (reply withdrawalJSON)) * world site :=
  handleWithdrawalsCreate post_service post_request Demo.outside0 (snd posted).

Lemma post_quiet : quiet Demo.outside0.
Proof. split; try done. intros k. by eexists. Qed.
Lemma post_well_asked : well_asked post_service post_request post_q.
Proof.
  split; try done.
  exists (mkCreate "" 600 "k1"). split; [vm_compute; reflexivity|]. split; [vm_compute; reflexivity|]. split; [done|by left].
Qed.
Lemma post_reachable : Reachable post_db.
Proof. apply play_steps. Qed.
Lemma post_credit : exists row, credits post_db !! "buyer"%string = Some row.
Proof. eexists. vm_compute. reflexivity. Qed.
Lemma posted_ok : exists ans, posted = (Some (Ok (WriteJSON 202 ans)), snd posted).
Proof. eexists. vm_compute. reflexivity. Qed.
Lemma demo_clock k : site_now k <> zeroTime.
Proof. cbn. unfold Demo.start, zeroTime. lia. Qed.

(** 400 are left: the second answer is the refusal. *)
Example reposted_refused : fst reposted = Some (Ok (http_error 402 "insufficient available credit")).
Proof. vm_compute. reflexivity. Qed.

Lemma withdrawal_answers_witness :
  asked_for post_service post_request post_db = inr post_q /\
  exists w', posted = (Some (Ok (fst (withdrawal_reply post_service post_request Demo.start post_db))), w').
Proof.
  split; [vm_compute; reflexivity|]. unfold posted.
  destruct (withdrawal_answers Demo.outside0 post_quiet post_service post_request post_world post_reachable (demo_clock 0))
    as (w' & Hw & _). by exists w'.
Defined.
Lemma withdrawal_repost_witness : exists w'', reposted = (Some (Ok (http_error 402 "insufficient available credit")), w'').
Proof.
  destruct post_credit as [row Hr]. destruct posted_ok as [ans Hans]. unfold posted in Hans at 1. unfold reposted.
  destruct (withdrawal_repost Demo.outside0 post_quiet post_service post_request post_q row post_world ans (snd posted) post_well_asked
    post_reachable eq_refl Hr demo_clock Hans) as (w'' & Hw & _).
  exists w''. rewrite Hw. replace (left_for post_q (w_db (snd posted))) with 400 by (vm_compute; reflexivity). reflexivity.
Defined.
