(* ===== verification/PagesSpec.v ===== *)
(** * The listings of the billing endpoints: cursors and pages *)
From Stdlib Require Import ZArith Lia Strings.Ascii Strings.String Structures.OrderedTypeEx.
From stdpp Require Import base gmap strings list fin_maps sorting.
From S2P Require Import Prelude Sha256 Billing Tx Schema BillingStore WithdrawalStore WithdrawalInv DepositStore DepositInv Reachable StoreSpec WithdrawSpec ReconSpec Worker GoText Json Base64 AclTypes DirSchema Delegations Jwt Http Mesh Pages BillingApi PostSpec.

Open Scope Z_scope.

(** ** Eight bytes of a cursor *)
Lemma getLE_app a b : getLE (a ++ b) = getLE a + 256 ^ Z.of_nat (length a) * getLE b.
Proof.
  induction a as [|x a IH]; cbn [getLE app length]; [lia|]. rewrite IH, Nat2Z.inj_succ, Z.pow_succ_r by lia. ring.
Qed.
Lemma getBE_cons b l : getBE (b :: l) = Zbyte b * 256 ^ Z.of_nat (length l) + getBE l.
Proof. unfold getBE. cbn [rev]. rewrite getLE_app, length_rev. cbn [getLE]. ring. Qed.
Lemma shift_in_value acc b : in_i64 acc -> shift_in acc b = i64 (acc * 256 + Zbyte b).
Proof.
  intros _. unfold shift_in. f_equal. rewrite Z.shiftl_mul_pow2 by lia. change (2 ^ 8) with 256.
  pose proof (Zbyte_range b). rewrite <- Z.add_lor_land.
  replace (Z.land (acc * 256) (Zbyte b)) with 0; [lia|].
  symmetry. apply Z.bits_inj'. intros n Hn. rewrite Z.land_spec, Z.bits_0. change 256 with (2 ^ 8).
  destruct (Z.ltb_spec n 8); [by rewrite Z.mul_pow2_bits_low|].
  rewrite (Z.bits_above_log2 (Zbyte b) n), andb_false_r; [done|lia|].
  destruct (Z.eq_dec (Zbyte b) 0) as [->|]; [cbn; lia|]. apply Z.log2_lt_pow2; [lia|].
  assert (2 ^ 8 <= 2 ^ n) by (apply Z.pow_le_mono_r; lia). lia.
Qed.
Lemma i64_add_wraps z k : i64 (z + k * two64) = i64 z.
Proof. unfold i64. replace (z + k * two64 + two63) with (z + two63 + k * two64) by lia. by rewrite Z.mod_add. Qed.
Lemma un_be8_value l acc : in_i64 acc -> fold_left shift_in l acc = i64 (acc * 256 ^ Z.of_nat (length l) + getBE l).
Proof.
  revert acc. induction l as [|b l IH]; intros acc Hacc; cbn [fold_left length].
  - change (getBE []) with 0. rewrite Z.mul_1_r, Z.add_0_r. symmetry. by apply i64_id.
  - rewrite IH, shift_in_value by (try done; rewrite shift_in_value by done; apply i64_range).
    rewrite getBE_cons, Nat2Z.inj_succ, Z.pow_succ_r by lia.
    destruct (i64_congr (acc * 256 + Zbyte b)) as [k ->].
    symmetry. rewrite <- (i64_add_wraps _ (k * 256 ^ Z.of_nat (length l))). f_equal. ring.
Qed.
Lemma getBE_putBE n z : getBE (putBE n z) = z mod 2 ^ (8 * Z.of_nat n).
Proof. unfold getBE, putBE. rewrite rev_involutive. apply getLE_putLE. Qed.
Lemma un_be8_be8 z : in_i64 z -> un_be8 (be8 z) = z.
Proof.
  intros Hz. unfold un_be8, be8. rewrite un_be8_value by (unfold_i64; lia). rewrite Z.mul_0_l, Z.add_0_l, getBE_putBE.
  change (2 ^ (8 * Z.of_nat 8)) with two64. transitivity (i64 z); [|by apply i64_id].
  rewrite <- (i64_add_wraps _ (z / two64)). f_equal. pose proof (Z.div_mod z two64). unfold two64 in *. lia.
Qed.
Lemma length_be8 z : length (be8 z) = 8%nat.
Proof. apply length_putBE. Qed.

(** ** Cursors *)
Lemma encode_nonempty l : l <> [] -> RawURL_EncodeToString l <> ""%string.
Proof. intros Hl E. pose proof (raw_url_round_trip l) as Hr. rewrite E in Hr. by injection Hr as <-. Qed.

Lemma encode16_nonempty t id : encode16 t id <> ""%string.
Proof. apply encode_nonempty. intros E. apply (f_equal length) in E. by rewrite length_app, length_be8 in E. Qed.
Lemma encodeDepositCursor_nonempty c : encodeDepositCursor c <> ""%string.
Proof. apply encode_nonempty. by destruct (bytes_of_string _). Qed.

Lemma decode16_encode16 {C} (mk : time -> Z -> C) what t id : in_i64 t -> in_i64 id ->
  decode16 mk what (encode16 t id) = Ok (Some (mk t id)).
Proof.
  intros Ht Hid. unfold decode16, encode16.
  rewrite (proj2 (String.eqb_neq _ _)) by (apply encode_nonempty; intros E; apply (f_equal length) in E; by rewrite length_app, length_be8 in E).
  rewrite raw_url_round_trip, length_app, !length_be8, bool_decide_eq_true_2 by done.
  rewrite take_app_length', drop_app_length' by (by rewrite length_be8). unfold UnixNano. by rewrite (i64_id t), !un_be8_be8.
Qed.

Definition no_nul (s : string) : Prop := Forall (fun b => b <> Byte.x00) (bytes_of_string s).
Lemma nul_index_app l r : Forall (fun b => b <> Byte.x00) l -> nul_index (l ++ Byte.x00 :: r) = Some (length l).
Proof.
  induction 1 as [|b l Hb _ IH]; [done|]. cbn. destruct (Byte.eqb b Byte.x00) eqn:E; [by apply Byte.byte_dec_bl in E|].
  by rewrite IH.
Qed.
Lemma decodeDepositCursor_encode c : in_i64 (dc_SeenAt c) -> 0 <= dc_InstructionIndex c < 2 ^ 32 ->
  no_nul (dc_TransactionSignature c) -> decodeDepositCursor (encodeDepositCursor c) = Ok (Some c).
Proof.
  intros Ht Hi Hs. unfold decodeDepositCursor. rewrite (proj2 (String.eqb_neq _ _) (encodeDepositCursor_nonempty c)).
  unfold encodeDepositCursor.
  rewrite raw_url_round_trip. set (sig := bytes_of_string (dc_TransactionSignature c)).
  rewrite !length_app, length_be8, length_putBE. cbn [length].
  rewrite (proj2 (Nat.ltb_ge _ _)) by lia.
  change ([Byte.x00] ++ ?r) with (Byte.x00 :: r). rewrite nul_index_app by done.
  rewrite (proj2 (Nat.ltb_ge _ _)) by lia.
  assert (Hd : forall n r, drop (length sig + n) (sig ++ r) = drop n r) by (intros; by rewrite drop_app_add').
  rewrite !Hd, take_app_length. cbn [drop]. rewrite drop_0.
  rewrite take_app_length', drop_app_length', (take_ge (putBE 4 (u32 (dc_InstructionIndex c)))) by (rewrite ?length_be8, ?length_putBE; done || lia).
  unfold UnixNano. rewrite (i64_id _ Ht), un_be8_be8 by done. rewrite getBE_putBE. unfold u32.
  change (2 ^ (8 * Z.of_nat 4)) with 4294967296. change (2 ^ 32) with 4294967296 in Hi.
  rewrite Z.mod_mod, Z.mod_small by lia. unfold sig, bytes_of_string. rewrite String.string_of_list_byte_of_string. by destruct c.
Qed.

(** ** The three orders *)
Lemma ltb_lt x y : String.ltb x y = true <-> String.compare x y = Lt.
Proof. unfold String.ltb. by destruct (String.compare x y). Qed.
Lemma ltb_irrefl x : String.ltb x x = false.
Proof. unfold String.ltb. pose proof (String.compare_antisym x x) as H. by destruct (String.compare x x). Qed.
Lemma ltb_trans x y z : String.ltb x y = true -> String.ltb y z = true -> String.ltb x z = true.
Proof.
  rewrite !ltb_lt. change String.compare with String_as_OT.cmp. rewrite !String_as_OT.cmp_lt. apply String_as_OT.lt_trans.
Qed.
Lemma ltb_total x y : String.ltb x y = true \/ x = y \/ String.ltb y x = true.
Proof.
  rewrite !ltb_lt, (String.compare_antisym y x). destruct (String.compare x y) eqn:E; [|by left|by right; right].
  right. left. by apply String.compare_eq_iff.
Qed.

(** By time, then by id. *)
Definition timed_older (t : time) (i : Z) (t' : time) (i' : Z) : bool := (t <? t') || ((t =? t') && (i <? i')).
Lemma timed_older_spec t i t' i' : timed_older t i t' i' = true <-> t < t' \/ (t = t' /\ i < i').
Proof. unfold timed_older. rewrite orb_true_iff, andb_true_iff, !Z.ltb_lt, Z.eqb_eq. done. Qed.

#[export] Instance ledger_keyset : Keyset LedgerRow LedgerCursor.
Proof.
  refine {| key r := mkLedgerCursor (lg_created_at r) (lg_id r);
            older x y := timed_older (lc_CreatedAt x) (lc_ID x) (lc_CreatedAt y) (lc_ID y) |}.
  - intros [t i]. apply not_true_is_false. rewrite timed_older_spec. cbn. lia.
  - intros x y z. rewrite !timed_older_spec. lia.
  - intros [t i] [t' i']. rewrite !timed_older_spec. cbn. destruct (decide (t = t')) as [->|]; [|lia].
    destruct (decide (i = i')) as [->|]; [by right; left|lia].
Defined.
#[export] Instance withdrawal_keyset : Keyset (Z * WithdrawalRow) WithdrawalCursor.
Proof.
  refine {| key r := mkWithdrawalCursor (wr_reserved_at (snd r)) (fst r);
            older x y := timed_older (wc_ReservedAt x) (wc_ID x) (wc_ReservedAt y) (wc_ID y) |}.
  - intros [t i]. apply not_true_is_false. rewrite timed_older_spec. cbn. lia.
  - intros x y z. rewrite !timed_older_spec. lia.
  - intros [t i] [t' i']. rewrite !timed_older_spec. cbn. destruct (decide (t = t')) as [->|]; [|lia].
    destruct (decide (i = i')) as [->|]; [by right; left|lia].
Defined.
Lemma cursor_lt_spec x y : cursor_lt x y = true <-> dc_SeenAt x < dc_SeenAt y \/ (dc_SeenAt x = dc_SeenAt y /\
  (String.ltb (dc_TransactionSignature x) (dc_TransactionSignature y) = true \/
   (dc_TransactionSignature x = dc_TransactionSignature y /\ dc_InstructionIndex x < dc_InstructionIndex y))).
Proof.
  unfold cursor_lt. rewrite orb_true_iff, andb_true_iff, orb_true_iff, andb_true_iff, !Z.ltb_lt, Z.eqb_eq, String.eqb_eq. done.
Qed.
#[export] Instance deposit_keyset : Keyset DepositEvent DepositListCursor.
Proof.
  refine {| key := deposit_cursor; older := cursor_lt |}.
  - intros [t g i]. apply not_true_is_false. rewrite cursor_lt_spec. cbn. rewrite ltb_irrefl. intros [?|[_ [?|[_ ?]]]]; [lia|done|lia].
  - intros [t g i] [t' g' i'] [t'' g'' i'']. rewrite !cursor_lt_spec. cbn.
    intros [H1|[-> [H1|[-> H1]]]] [H2|[-> [H2|[-> H2]]]]; try (left; lia); right; (split; [done|]);
      [left; by eapply ltb_trans|by left|by left|right; split; [done|lia]].
  - intros [t g i] [t' g' i']. rewrite !cursor_lt_spec. cbn. destruct (decide (t = t')) as [->|]; [|lia].
    destruct (ltb_total g g') as [?|[->|?]]; [left; right; auto| |right; right; right; auto].
    destruct (decide (i = i')) as [->|]; [by right; left|].
    destruct (decide (i < i')); [left|right; right]; right; (split; [done|]); right; (split; [done|lia]).
Defined.

(** ** A page of the store is a page *)
Definition ledger_rows (a : string) (d : db) : list LedgerRow := filter (fun r => lg_account_id r = a) (ledger d).
Definition withdrawal_rows (a : string) (d : db) : list (Z * WithdrawalRow) :=
  filter (fun r => wr_account_id (snd r) = a) (map_to_list (withdrawals d)).
Definition deposit_rows (a : string) (d : db) : list DepositEvent :=
  filter (fun ev => DepositStore.credited_to a ev = true) (map snd (map_to_list (deposits d))).

Lemma next_key_eq {E C} `{Keyset E C} limit (p : list E) : 0 <= limit ->
  (if Z.of_nat (length p) =? limit then match last p with Some r => Some (key r) | None => None end else None)
  = next_key (Z.to_nat limit) p.
Proof.
  intros Hl. unfold next_key. destruct (Z.eqb_spec (Z.of_nat (length p)) limit).
  - rewrite bool_decide_eq_true_2 by lia. by destruct (last p).
  - by rewrite bool_decide_eq_false_2 by lia.
Qed.
Lemma page_limit_fits a b limit : 0 < limit <= a -> clampLimit a b limit = limit.
Proof.
  intros Hl. unfold clampLimit. destruct (Z.leb_spec limit 0); [lia|]. by rewrite Z.gtb_ltb, (proj2 (Z.ltb_ge _ _)) by lia. Qed.
Lemma timed_older_ge t i t' i' : timed_older t i t' i' = false <-> t' < t \/ (t = t' /\ i' <= i).
Proof. rewrite <- not_true_iff_false, timed_older_spec. lia. Qed.

Lemma run_listed {A B} fmt (f : db -> A) (g : A -> B) d t :
  run (let! x := wrap fmt (pool_stmt (query f)) in ret (g x))%tx (fine_env t) d = (Ok (g (f d)), d).
Proof. reflexivity. Qed.

Lemma ListLedger_page a c limit d t : 0 < limit <= 500 ->
  let p := page_rows (Z.to_nat limit) c (ledger_rows a d) in
  run (ListLedger a c limit) (fine_env t) d = (Ok (p, next_key (Z.to_nat limit) p), d).
Proof.
  intros Hl p. unfold ListLedger. rewrite page_limit_fits by done. cbv zeta. unfold sql_ledger_page. rewrite run_listed.
  assert (Hp : p = take (Z.to_nat limit) (merge_sort ledger_key_le
    (filter (fun r => String.eqb (lg_account_id r) a && before_cursor c r = true) (ledger d)))).
  { unfold p, page_rows, ledger_rows. rewrite list_filter_filter. f_equal.
    rewrite (merge_sort_ext ledger_key_le newest_first) by (intros x y; symmetry; apply timed_older_ge). f_equal.
    apply list_filter_iff. intros r. rewrite andb_true_iff, String.eqb_eq. destruct c; tauto. }
  rewrite <- Hp. by rewrite <- next_key_eq by lia.
Qed.
Lemma ListWithdrawals_page a c limit d t : 0 < limit <= 500 ->
  let p := page_rows (Z.to_nat limit) c (withdrawal_rows a d) in
  run (ListWithdrawals a c limit) (fine_env t) d =
    (Ok (map (fun kr => scanWithdrawal (fst kr) (snd kr)) p, next_key (Z.to_nat limit) p), d).
Proof.
  intros Hl p. unfold ListWithdrawals. rewrite page_limit_fits by done. cbv zeta. unfold sql_withdrawal_page. rewrite run_listed.
  assert (Hp : p = take (Z.to_nat limit) (merge_sort withdrawal_key_le
    (filter (fun r => String.eqb (wr_account_id (snd r)) a && before_withdrawal c r = true) (map_to_list (withdrawals d))))).
  { unfold p, page_rows, withdrawal_rows. rewrite list_filter_filter. f_equal.
    rewrite (merge_sort_ext withdrawal_key_le newest_first) by (intros x y; symmetry; apply timed_older_ge). f_equal.
    apply list_filter_iff. intros r. rewrite andb_true_iff, String.eqb_eq. destruct c; tauto. }
  rewrite <- Hp. rewrite <- next_key_eq by lia. rewrite length_map, fmap_last. by destruct (last p) as [[i r]|].
Qed.
Lemma ListDepositEvents_page a c limit d t : 0 < limit <= 500 ->
  let p := page_rows (Z.to_nat limit) c (deposit_rows a d) in
  run (ListDepositEvents a c limit) (fine_env t) d = (Ok (p, next_key (Z.to_nat limit) p), d).
Proof.
  intros Hl p. unfold ListDepositEvents. rewrite page_limit_fits by done. cbv zeta. unfold sql_deposit_page. rewrite run_listed.
  assert (Hp : p = take (Z.to_nat limit) (merge_sort deposit_newer
    (filter (fun ev => DepositStore.credited_to a ev && before_deposit c ev = true) (map snd (map_to_list (deposits d)))))).
  { unfold p, page_rows, deposit_rows. rewrite list_filter_filter. f_equal.
    etrans; [|symmetry; by apply (merge_sort_ext deposit_newer newest_first)]. f_equal.
    apply list_filter_iff. intros r. rewrite andb_true_iff. destruct c; tauto. }
  rewrite <- Hp. by rewrite <- next_key_eq by lia.
Qed.

(** What the columns hold: timestamps and ids that fit eight bytes, indices of four, and
    text without a NUL. *)
Record storable (d : db) : Prop := {
  sb_ledger : forall r, r ∈ ledger d -> in_i64 (lg_created_at r) /\ in_i64 (lg_id r);
  sb_withdrawals : forall id r, withdrawals d !! id = Some r -> in_i64 (wr_reserved_at r) /\ in_i64 id;
  sb_deposits : forall k ev, deposits d !! k = Some ev ->
    in_i64 (de_SeenAt ev) /\ 0 <= de_InstructionIndex ev < 2 ^ 32 /\ no_nul (de_TransactionSignature ev) }.

(** ** A client that follows the cursors *)
Definition at_cursor (r : request) (cursor : string) : request :=
  mkHttp (h_Method r) (h_Principal r) (h_Account r) (h_Header r)
    (fun k => if String.eqb k "cursor" then cursor else h_Query r k) (h_PathValue r) (h_Body r) (h_BodyErr r).
Fixpoint follow {E} (fuel : nat) (get : string -> W site (reply (page E))) (cursor : string) : W site (option (list E)) :=
  match fuel with
  | O => wret None
  | S k => wbind (get cursor) (fun rep =>
    match rep with
    | WriteJSON 200 p =>
      if String.eqb (pg_Next p) "" then wret (Some (pg_Entries p))
      else wbind (follow k get (pg_Next p)) (fun rest => wret (app (pg_Entries p) <$> rest))
    | _ => wret None
    end)
  end.

Section Follow.
Context {E F C : Type} `{Keyset E C} (enc : C -> string) (show : E -> F) (n : nat) (l : list E) (d : db) (o : outside).
Context (get : string -> W site (reply (page F))).
Definition cursor_text (c : option C) : string := match c with Some c => enc c | None => "" end.
(** A page is asked for with the text of a key, and tells the next one's. *)
Hypothesis (Hget : forall c w, w_db w = d -> match c with Some c => exists x, x ∈ l /\ c = key x | None => True end ->
  let p := page_rows n c l in
  exists w', get (cursor_text c) o w = (Some (Ok (WriteJSON 200 (mkPage (show <$> p) (cursor_text (next_key n p))))), w') /\ w_db w' = d).
Hypothesis (Henc : forall x, x ∈ l -> enc (key x) <> ""%string).

Lemma page_rows_In c x : x ∈ page_rows n c l -> x ∈ l.
Proof using.
  unfold page_rows. intros (i & Hi%list_elem_of_lookup_2 & _)%elem_of_take. rewrite merge_sort_Permutation in Hi.
  by apply list_elem_of_filter in Hi as [_ ?].
Qed.

Lemma follow_walk fuel c w rows : w_db w = d -> match c with Some c => exists x, x ∈ l /\ c = key x | None => True end ->
  walk fuel n c l = Some rows ->
  exists w', follow fuel get (cursor_text c) o w = (Some (Ok (Some (show <$> rows))), w') /\ w_db w' = d.
Proof using All.
  revert c w rows. induction fuel as [|k IH]; intros c w rows Hw Hc; [done|]. cbn [walk follow].
  destruct (Hget c w Hw Hc) as (w1 & Hg & Hw1). unfold wbind at 1. rewrite Hg. cbn [pg_Next pg_Entries].
  destruct (next_key n (page_rows n c l)) as [c'|] eqn:Hn.
  2: { intros [= <-]. exists w1. by split. }
  assert (Hc' : exists x, x ∈ l /\ c' = key x).
  { unfold next_key in Hn. case_bool_decide; [|done]. destruct (last _) as [x|] eqn:Hx; [|done]. injection Hn as <-. exists x. split; [|done].
    apply last_Some_elem_of in Hx. by apply page_rows_In in Hx. }
  destruct (walk k n (Some c') l) as [rest|] eqn:Hr; [|done]. intros [= <-].
  destruct Hc' as (x & Hx & ->). cbn [cursor_text]. rewrite (proj2 (String.eqb_neq _ _) (Henc x Hx)).
  destruct (IH (Some (key x)) w1 rest Hw1) as (w2 & H2 & Hw2); [by exists x|done|].
  exists w2. unfold wbind. cbn [cursor_text] in H2. rewrite H2. cbn. by rewrite fmap_app.
Qed.
End Follow.

(** ** Rows have keys of their own *)
Lemma ledger_rows_keyed a d : Reachable d -> keyed (ledger_rows a d).
Proof.
  intros [Hi _]%reachable_rows. apply keyed_filter. unfold keyed.
  induction Hi as [|r l _ IH Hr]; [constructor|]. constructor; [|done]. intros (s & Hk & Hs)%list_elem_of_fmap.
  rewrite Forall_forall in Hr. specialize (Hr s Hs). injection Hk as _ Hk. lia.
Qed.
Lemma withdrawal_rows_keyed a d : keyed (withdrawal_rows a d).
Proof.
  apply keyed_filter. unfold keyed. apply (NoDup_fmap_1 wc_ID). rewrite <- list_fmap_compose. apply NoDup_fst_map_to_list.
Qed.
Lemma deposit_rows_keyed a d : Reachable d -> keyed (deposit_rows a d).
Proof.
  intros HR. apply keyed_filter. unfold keyed. pose proof (di_key _ _ (good_deposits _ _ (Reachable_Good _ HR))) as Hkey.
  apply (NoDup_fmap_1 (fun c => (dc_TransactionSignature c, dc_InstructionIndex c))). rewrite <- !list_fmap_compose.
  rewrite (list_fmap_ext _ fst); [apply NoDup_fst_map_to_list|].
  intros i [k ev] Hi. apply list_elem_of_lookup_2, elem_of_map_to_list in Hi. cbn. by destruct (Hkey k ev Hi) as [-> _].
Qed.

Section Listings.
Context `{Ed25519} `{surroundings}.
Context (s : BillingService) (r : request) (a : string) (o : outside).
Hypotheses (Hacc : accountID r = Some a) (Hquiet : quiet o).

Lemma limit_fits q def : 0 < def <= 500 -> 0 < limit_of q def <= 500.
Proof.
  intros Hd. unfold limit_of. destruct (String.eqb q ""); [done|]. destruct (ParseInt q) as [n|]; [|done].
  destruct (Z.leb_spec n 0); [done|]. rewrite Z.gtb_ltb. destruct (Z.ltb_spec 200 n); lia.
Qed.

(** A key that survives its text. *)
Lemma ledger_text c : match c with Some c => in_i64 (lc_CreatedAt c) /\ in_i64 (lc_ID c) | None => True end ->
  decodeLedgerCursor (cursor_text encodeLedgerCursor c) = Ok c.
Proof.
  destruct c as [[t i]|]; [|done]. intros []. unfold decodeLedgerCursor, cursor_text, encodeLedgerCursor. by rewrite decode16_encode16.
Qed.
Lemma withdrawal_text c : match c with Some c => in_i64 (wc_ReservedAt c) /\ in_i64 (wc_ID c) | None => True end ->
  decodeWithdrawalCursor (cursor_text encodeWithdrawalCursor c) = Ok c.
Proof.
  destruct c as [[t i]|]; [|done]. intros []. unfold decodeWithdrawalCursor, cursor_text, encodeWithdrawalCursor. by rewrite decode16_encode16.
Qed.
Lemma deposit_text c : match c with Some c => in_i64 (dc_SeenAt c) /\ 0 <= dc_InstructionIndex c < 2 ^ 32 /\
    no_nul (dc_TransactionSignature c) | None => True end ->
  decodeDepositCursor (cursor_text encodeDepositCursor c) = Ok c.
Proof. destruct c as [c|]; [|done]. intros (Ht & Hi & Hn). by apply decodeDepositCursor_encode. Qed.

(** One request for a page, by the cursor's text and the store's page. *)
Ltac one_page Htext Hpage Hl :=
  unfold requireAccount; change (accountID (at_cursor r _)) with (accountID r); rewrite Hacc;
  cbn [at_cursor h_Query String.eqb Ascii.eqb Bool.eqb]; cbv zeta; rewrite Htext by done;
  unfold or_unavailable, wattempt;
  rewrite (quiet_call o Hquiet _ _ _ _ (fun t => Hpage a _ _ _ t (limit_fits _ _ Hl))); by eexists.

Lemma ledger_page c (w : world site) : 0 < bs_ledgerLimit s <= 500 ->
  match c with Some c => in_i64 (lc_CreatedAt c) /\ in_i64 (lc_ID c) | None => True end ->
  let n := Z.to_nat (limit_of (h_Query r "limit") (bs_ledgerLimit s)) in
  let p := page_rows n c (ledger_rows a (w_db w)) in
  exists w', handleLedger s (at_cursor r (cursor_text encodeLedgerCursor c)) o w =
    (Some (Ok (WriteJSON 200 (mkPage p (cursor_text encodeLedgerCursor (next_key n p))))), w') /\ w_db w' = w_db w.
Proof using Hacc Hquiet. intros Hl Hc n p. unfold handleLedger. one_page ledger_text ListLedger_page Hl. Qed.
Lemma deposits_page c (w : world site) : 0 < bs_depositLimit s <= 500 ->
  match c with Some c => in_i64 (dc_SeenAt c) /\ 0 <= dc_InstructionIndex c < 2 ^ 32 /\ no_nul (dc_TransactionSignature c) | None => True end ->
  let n := Z.to_nat (limit_of (h_Query r "limit") (bs_depositLimit s)) in
  let p := page_rows n c (deposit_rows a (w_db w)) in
  exists w', handleDeposits s (at_cursor r (cursor_text encodeDepositCursor c)) o w =
    (Some (Ok (WriteJSON 200 (mkPage p (cursor_text encodeDepositCursor (next_key n p))))), w') /\ w_db w' = w_db w.
Proof using Hacc Hquiet. intros Hl Hc n p. unfold handleDeposits. one_page deposit_text ListDepositEvents_page Hl. Qed.
Definition shown (kr : Z * WithdrawalRow) : withdrawalJSON := withdrawalToJSON (scanWithdrawal (fst kr) (snd kr)).
Lemma withdrawals_page c (w : world site) : 0 < bs_depositLimit s <= 500 ->
  match c with Some c => in_i64 (wc_ReservedAt c) /\ in_i64 (wc_ID c) | None => True end ->
  let n := Z.to_nat (limit_of (h_Query r "limit") (bs_depositLimit s)) in
  let p := page_rows n c (withdrawal_rows a (w_db w)) in
  exists w', handleWithdrawalsList s (at_cursor r (cursor_text encodeWithdrawalCursor c)) o w =
    (Some (Ok (WriteJSON 200 (mkPage (map withdrawalToJSON (map (fun kr => scanWithdrawal (fst kr) (snd kr)) p))
      (cursor_text encodeWithdrawalCursor (next_key n p))))), w') /\ w_db w' = w_db w.
Proof using Hacc Hquiet. intros Hl Hc n p. unfold handleWithdrawalsList. one_page withdrawal_text ListWithdrawals_page Hl. Qed.

(** Enough rounds for every row to be on a page of its own. *)
Definition rounds (fuel : nat) (d : db) : Prop :=
  (length (ledger_rows a d) < fuel)%nat /\ (length (deposit_rows a d) < fuel)%nat /\ (length (withdrawal_rows a d) < fuel)%nat.

(** C34: a client that follows the cursors of the ledger, of the deposits or of the
    withdrawals from the first page to the last, at whatever page size it asks for, is
    shown every row of its account, each once, newest first, and nothing of anyone
    else's, and it is done after as many pages as there are rows at most; asking changes
    nothing.  For the ledger the same holds of any page size between 1 and 500 the
    service is set to. *)
Theorem pages_complete fuel (w : world site) : let d := w_db w in
  Reachable d -> storable d -> 0 < bs_ledgerLimit s <= 500 -> 0 < bs_depositLimit s <= 500 -> rounds fuel d ->
  (exists w1, follow fuel (fun c => handleLedger s (at_cursor r c)) "" o w =
     (Some (Ok (Some (merge_sort newest_first (ledger_rows a d)))), w1) /\ w_db w1 = d) /\
  (exists w1, follow fuel (fun c => handleDeposits s (at_cursor r c)) "" o w =
     (Some (Ok (Some (merge_sort newest_first (deposit_rows a d)))), w1) /\ w_db w1 = d) /\
  (exists w1, follow fuel (fun c => handleWithdrawalsList s (at_cursor r c)) "" o w =
     (Some (Ok (Some (map shown (merge_sort newest_first (withdrawal_rows a d))))), w1) /\ w_db w1 = d).
Proof using All.
  intros d HR HS Hl Hl' (H1 & H2 & H3). pose proof (limit_fits (h_Query r "limit") _ Hl). pose proof (limit_fits (h_Query r "limit") _ Hl').
  split; [|split].
  - rewrite <- (list_fmap_id (merge_sort newest_first (ledger_rows a d))).
    apply (follow_walk encodeLedgerCursor id (Z.to_nat (limit_of (h_Query r "limit") (bs_ledgerLimit s))) (ledger_rows a d) d o _)
      with (c := None) (fuel := fuel); try done.
    + intros c w0 Hw Hc p. rewrite list_fmap_id. subst p. rewrite <- Hw. apply ledger_page; [done|]. destruct c as [c|]; [|done].
      destruct Hc as (x & [_ Hx]%list_elem_of_filter & ->). by apply (sb_ledger d).
    + intros x _. unfold encodeLedgerCursor. apply encode16_nonempty.
    + apply walk_all; [lia|by apply ledger_rows_keyed|done].
  - rewrite <- (list_fmap_id (merge_sort newest_first (deposit_rows a d))).
    apply (follow_walk encodeDepositCursor id (Z.to_nat (limit_of (h_Query r "limit") (bs_depositLimit s))) (deposit_rows a d) d o _)
      with (c := None) (fuel := fuel); try done.
    + intros c w0 Hw Hc p. rewrite list_fmap_id. subst p. rewrite <- Hw. apply deposits_page; [done|]. destruct c as [c|]; [|done].
      destruct Hc as (x & [_ ([k x'] & -> & Hx%elem_of_map_to_list)%list_elem_of_fmap]%list_elem_of_filter & ->).
      by apply (sb_deposits d HS k).
    + intros x _. apply encodeDepositCursor_nonempty.
    + apply walk_all; [lia|by apply deposit_rows_keyed|done].
  - apply (follow_walk encodeWithdrawalCursor shown (Z.to_nat (limit_of (h_Query r "limit") (bs_depositLimit s))) (withdrawal_rows a d) d o _)
      with (c := None) (fuel := fuel); try done.
    + intros c w0 Hw Hc p. subst p. rewrite <- Hw. destruct (withdrawals_page c w0 Hl') as (w1 & Hg & Hw1).
      * destruct c as [c|]; [|done]. destruct Hc as ([k x] & [_ Hx%elem_of_map_to_list]%list_elem_of_filter & ->).
        by apply (sb_withdrawals d HS k).
      * exists w1. split; [|done]. rewrite Hg. by rewrite <- list_fmap_compose.
    + intros x _. unfold encodeWithdrawalCursor. apply encode16_nonempty.
    + apply walk_all; [lia|by apply withdrawal_rows_keyed|done].
Qed.
End Listings.

(** ** The listings of an account with one deposit *)
#[local] Existing Instance Demo.scheme.
#[local] Existing Instance Demo.around.
Definition pages_service : BillingService := post_service.

Lemma post_storable : storable post_db.
Proof.
  assert (Hl : Forall (fun r => in_i64 (lg_created_at r) /\ in_i64 (lg_id r)) (ledger post_db)).
  { apply (bool_decide_unpack _). vm_compute. exact I. }
  assert (Hw : map_Forall (fun id r => in_i64 (wr_reserved_at r) /\ in_i64 id) (withdrawals post_db)).
  { apply (bool_decide_unpack _). vm_compute. exact I. }
  assert (Hd : map_Forall (fun _ ev => in_i64 (de_SeenAt ev) /\ (0 <= de_InstructionIndex ev < 2 ^ 32 /\
    Forall (fun b => Byte.eqb b Byte.x00 = false) (bytes_of_string (de_TransactionSignature ev)))) (deposits post_db)).
  { apply (bool_decide_unpack _). vm_compute. exact I. }
  split.
  - rewrite Forall_forall in Hl. exact Hl.
  - exact Hw.
  - intros k ev Hev. destruct (Hd k ev Hev) as (Ht & Hi & Hn). split; [done|]. split; [done|].
    eapply Forall_impl; [exact Hn|]. intros b Hb ->. done.
Qed.

Lemma pages_complete_witness : exists w1,
  follow 5 (fun c => handleLedger pages_service (at_cursor post_request c)) "" Demo.outside0 post_world =
    (Some (Ok (Some (merge_sort newest_first (ledger_rows "buyer" post_db)))), w1) /\ w_db w1 = post_db.
Proof.
  unfold pages_service.
  apply (pages_complete post_service post_request "buyer" Demo.outside0 eq_refl post_quiet 5 post_world post_reachable post_storable);
    [done..|]. repeat split; vm_compute; lia.
Defined.
