(* ===== verification/PublicApi.v ===== *)
(** * What is served without an account: catalogue, leaderboard, RPC proxy

    internal/catalog/catalog.go, internal/leaderboard (leaderboard.go, usage.go) and
    internal/solrpcproxy/proxy.go.  A handler's own cache is passed through its calls;
    the analytics queries and the upstream node are arguments. *)
From Stdlib Require Import ZArith Lia Strings.Ascii Strings.String.
From stdpp Require Import base gmap strings list sorting fin_maps.
From S2P Require Import Prelude Sha256 Base58 GoText Tx Schema Billing BillingStore Worker Json Acl AclTypes DirSchema Directory Jwt Gate Peers MarketGate Http Inputs InputsSpec.

Open Scope Z_scope.
Local Open Scope worker_scope.
Local Open Scope go_scope.

(** [sort.Strings] of a set's elements. *)
Definition text_le (a b : string) : Prop := String.leb a b = true.
#[export] Instance text_le_dec : RelDecision text_le.
Proof. intros a b. unfold text_le. apply _. Defined.
Definition sortedKeys (s : gset string) : list string := merge_sort text_le (elements s).

(** ** internal/catalog *)
Module Catalog.
Record Service := mkService {
  sv_Name : string; sv_Models : list string; sv_IdentityGroups : list string; sv_Providers : Z; sv_Online : Z }.
Record priceTriple := mkTriple { pt_Min : Z; pt_Median : Z; pt_Max : Z }.
Record MarketEntry := mkMarket {
  me_Service : string; me_Model : string; me_Quoters : Z; me_Input : priceTriple; me_CachedInput : priceTriple; me_Output : priceTriple }.
Record Response := mkResponse { rp_Services : list Service; rp_Market : list MarketEntry }.
Record Model := mkModel { md_ID : string; md_Object : string; md_Created : Z; md_OwnedBy : string }.
Definition modelPrefix : string := "model=".

(** *** Summarise *)
Record acc := mkAcc { ac_models : gset string; ac_groups : gset string; ac_providers : Z; ac_online : Z }.
Definition no_acc : acc := mkAcc ∅ ∅ 0 0.
(** The model of an identity group that names one. *)
Definition model_of (group : string) : option string :=
  let l := chars_of group in
  if (length (chars_of modelPrefix) <? length l)%nat && has_prefix (chars_of modelPrefix) l
  then Some (text_of (drop (length (chars_of modelPrefix)) l)) else None.
Definition add_group (a : acc) (group : string) : acc :=
  if String.eqb group "" then a
  else mkAcc (match model_of group with Some m => {[m]} ∪ ac_models a | None => ac_models a end)
         ({[group]} ∪ ac_groups a) (ac_providers a) (ac_online a).
Definition add_service (connected : bool) (m : gmap string acc) (svc : PeerService) : gmap string acc :=
  if String.eqb (ps_Name svc) "" then m else
  let a := default no_acc (m !! ps_Name svc) in
  let a := mkAcc (ac_models a) (ac_groups a) (ac_providers a + 1) (if connected then ac_online a + 1 else ac_online a) in
  <[ps_Name svc := fold_left add_group (ps_IdentityGroup svc) a]> m.
Definition add_peer (m : gmap string acc) (peer : Peer) : gmap string acc :=
  fold_left (add_service (pe_Connected peer)) (pe_Service peer) m.
Definition service_of (e : string * acc) : Service :=
  mkService (fst e) (sortedKeys (ac_models (snd e))) (sortedKeys (ac_groups (snd e))) (ac_providers (snd e)) (ac_online (snd e)).
Definition name_le (a b : Service) : Prop := text_le (sv_Name a) (sv_Name b).
#[export] Instance name_le_dec : RelDecision name_le.
Proof. intros a b. unfold name_le. apply _. Defined.
(** The peers in the order in which the runtime walks the table. *)
Definition Summarise (peers : list Peer) : list Service :=
  merge_sort name_le (map service_of (map_to_list (fold_left add_peer peers ∅))).

(** *** The market *)
Definition peerCanQuote (snap : Snapshot) (peerID service model : string) : bool :=
  match sn_Entries snap !! peerID with
  | None => false
  | Some en =>
    match en_Instance en with
    | None => false
    | Some i => BillableProvider (in_AccountID i) (in_OwnerWallet i) && peerServesModel (en_Peer en) service model
    end
  end.
Definition live_asks (service model : string) (asks : list Ask) (snap : Snapshot) (now : time) : list Ask :=
  List.filter (fun a => negb (negb (ak_ExpiresAt a =? zeroTime) && negb (now <? ak_ExpiresAt a)) &&
    peerCanQuote snap (ak_PeerID a) service model) asks.
Definition rates (asks : list Ask) (pick : Ask -> Z) : list Z := merge_sort Z.le (map pick asks).
Definition triple (sorted : list Z) : priceTriple :=
  let n := length sorted in
  let at_ i := nth i sorted 0 in
  if bool_decide (n = 0%nat) then mkTriple 0 0 0 else
  let med := if Nat.even n then Z.quot (i64 (at_ (n / 2 - 1)%nat + at_ (n / 2)%nat)) 2 else at_ (n / 2)%nat in
  mkTriple (at_ 0%nat) med (at_ (n - 1)%nat).
Definition marketTriple (service model : string) (asks : list Ask) (snap : Snapshot) (now : time) : MarketEntry :=
  let live := live_asks service model asks snap now in
  if bool_decide (live = []) then mkMarket service model 0 (mkTriple 0 0 0) (mkTriple 0 0 0) (mkTriple 0 0 0)
  else mkMarket service model (Z.of_nat (length live)) (triple (rates live ak_InputPerMillion))
         (triple (rates live ak_CachedInputPerMillion)) (triple (rates live ak_OutputPerMillion)).
Definition ErrAskUnavailable : err := Sentinel "catalogue: ask source unavailable".
Fixpoint market (routes : list (string * string)) (snap : Snapshot) (now : time) : W node (list MarketEntry) :=
  match routes with
  | [] => wret []
  | (service, model) :: rest =>
    let*? r := callStore (LiveAsks service model now) in
    match r with
    | Err _ => wfail ErrAskUnavailable
    | Ok asks =>
      let* more := market rest snap now in
      wret (marketTriple service model asks snap now :: more)
    end
  end.
Definition routes_of (services : list Service) : list (string * string) :=
  concat (map (fun s => map (pair (sv_Name s)) (sv_Models s)) services).

(** *** The handler *)
Record CatalogHandler := mkCatalog { ch_snap : PeersService; ch_ttl : Z; ch_asks : bool }.
Record cache := mkCache { c_services : list Service; c_snap : Snapshot; c_fetched : time }.
(** The cached view, or a new one; a failed read leaves the cache. *)
Definition view (h : CatalogHandler) (x : exchange_in) (order : list Peer -> list Peer) (c : option cache) : W node cache :=
  let* t := clock in
  match (match c with Some k => if t - c_fetched k <? ch_ttl h then c else None | None => None end) with
  | Some k => wret k
  | None =>
    let* snap := fetchSnapshot (ch_snap h) x in
    let* t := clock in
    wret (mkCache (Summarise (order (map (fun e => en_Peer (snd e)) (map_to_list (sn_Entries snap))))) snap t)
  end.
Fixpoint modelsForService (services : list Service) (service : string) (created : Z) : list Model :=
  match services with
  | [] => []
  | s :: rest => if String.eqb (sv_Name s) service then map (fun id => mkModel id "model" created "opentela") (sv_Models s)
                 else modelsForService rest service created
  end.
Inductive catalogue_page := CatalogueError (text : string) | Catalogue (r : Response) | ModelList (data : list Model).
Definition writeCatalogueError (e : err) : reply catalogue_page :=
  WriteJSON (if errors_is e ErrPolicyUnavailable || errors_is e ErrAskUnavailable then 503 else 502) (CatalogueError "catalogue unavailable").
(** The reply and the cache after it. *)
Definition ServeCatalogue (h : CatalogHandler) (x : exchange_in) (order : list Peer -> list Peer) (r : request)
    (c : option cache) : W node (reply catalogue_page * option cache) :=
  let service := h_PathValue r "service" in
  let*? v := view h x order c in
  match v with
  | Err e => wret (writeCatalogueError e, c)
  | Ok k =>
    if negb (String.eqb service "") then
      wret (WriteJSON 200 (ModelList (modelsForService (c_services k) service (Z.max 0 (Unix (c_fetched k))))), Some k)
    else if negb (ch_asks h) then wret (WriteJSON 200 (Catalogue (mkResponse (c_services k) [])), Some k)
    else
      let* now := clock in
      let*? m := market (routes_of (c_services k)) (c_snap k) now in
      match m with
      | Err e => wret (writeCatalogueError e, Some k)
      | Ok entries => wret (WriteJSON 200 (Catalogue (mkResponse (c_services k) entries)), Some k)
      end
  end.
End Catalog.

(** ** internal/leaderboard *)
Module Leaderboard.
Definition defaultWindowHours : Z := 168.
Definition maxWindowHours : Z := 720.
Definition maxWindowDays : Z := 30.
Record Row := mkRow {
  rw_GPUModel : string; rw_Model : string; rw_Requests : Z; rw_ServerErrors : Z; rw_ClientAborts : Z; rw_Providers : Z }.
Record UsageRow := mkUsage {
  us_Day : string; us_Model : string; us_Requests : Z; us_InputTokens : Z; us_CachedInputTokens : Z; us_OutputTokens : Z }.
(** The success rate is kept as the two integers that are divided, before rounding; the
    averages and percentiles are copied from the row and are left out. *)
Record entry := mkEntry { en_GPUModel : string; en_Model : string; en_Requests : Z; en_Providers : Z; en_Success : Z * Z }.
Record response := mkResponse {
  rs_GeneratedAt : time; rs_WindowHours : Z; rs_WindowDays : Z; rs_SuccessOnly : option bool;
  rs_Entries : list entry; rs_Usage : option (list UsageRow) }.
Definition cacheKey : Type := (Z * bool * string * string)%type.
Record cacheEntry := mkCacheEntry { ce_payload : response; ce_expires : time }.

Definition parseHours (raw : string) : res Z :=
  if String.eqb raw "" then Ok defaultWindowHours else
  match ParseInt raw with
  | Ok hours => if (hours <? 1) || (hours >? maxWindowHours) then Err (Errorf "invalid syntax") else Ok hours
  | Err _ => Err (Errorf "invalid syntax")
  end.
Definition parseSuccessOnly (raw : string) : res bool :=
  if String.eqb raw "" || String.eqb raw "1" || String.eqb raw "true" then Ok true
  else if String.eqb raw "0" || String.eqb raw "false" then Ok false
  else Err (Errorf "invalid success_only (expected 0 or 1)").
(** A rune outside ASCII starts with a byte outside it. *)
Definition filter_char (c : ascii) : bool :=
  let z := ascii_Z c in
  ((97 <=? z) && (z <=? 122)) || ((65 <=? z) && (z <=? 90)) || ((48 <=? z) && (z <=? 57)) ||
  existsb (Ascii.eqb c) ["-"; "_"; "."; "/"; ":"]%char.
Definition validFilter (s : string) : bool := (length (chars_of s) <=? 128)%nat && forallb filter_char (chars_of s).
Definition windowDays (hours : Z) : Z := Z.min maxWindowDays (Z.max 1 (Z.quot (hours + 23) 24)).

Definition entry_of_row (r : Row) : entry :=
  mkEntry (rw_GPUModel r) (rw_Model r) (rw_Requests r) (rw_Providers r)
    (if rw_Requests r >? 0 then (u64 (rw_Requests r - rw_ServerErrors r), rw_Requests r) else (1, 1)).

(** The two queries: the performance aggregate and, when it is configured, the usage. *)
Record LeaderboardHandler := mkHandler {
  hd_q : Z -> string -> string -> res (list Row);
  hd_u : option (Z -> string -> string -> bool -> res (list UsageRow));
  hd_ttl : Z }.
Inductive board_page := BadRequest (text : string) | Unavailable (text : string) | Board (r : response).
Definition bad_request (e : err) : reply board_page :=
  WriteJSON 400 (BadRequest (match e with Errorf s => s | _ => "" end)).
Definition payload_of (h : LeaderboardHandler) (hours : Z) (successOnly : bool) (service model : string) (now : time) (rows : list Row) : response :=
  mkResponse now hours (match hd_u h with Some _ => windowDays hours | None => 0 end)
    (match hd_u h with Some _ => Some successOnly | None => None end)
    (map entry_of_row rows)
    (match hd_u h with
     | Some u => match u (windowDays hours) service model successOnly with Ok l => Some l | Err _ => None end
     | None => None end).
(** The clock is read when the request comes, when the queries have ended, and at the
    sweep. *)
Definition ServeLeaderboard (h : LeaderboardHandler) (now1 now2 now3 : time) (r : request) (c : gmap cacheKey cacheEntry)
    : reply board_page * gmap cacheKey cacheEntry :=
  match parseHours (h_Query r "hours") with
  | Err e => (bad_request e, c)
  | Ok hours =>
    match parseSuccessOnly (h_Query r "success_only") with
    | Err e => (bad_request e, c)
    | Ok successOnly =>
      let service := h_Query r "service" in
      let model := h_Query r "model" in
      if negb (validFilter service) || negb (validFilter model) then (bad_request (Errorf "invalid service or model filter"), c) else
      let key := (hours, successOnly, service, model) in
      match (match c !! key with Some ce => if now1 <? ce_expires ce then Some (ce_payload ce) else None | None => None end) with
      | Some payload => (WriteJSON 200 (Board payload), c)
      | None =>
        match hd_q h hours service model with
        | Err _ => (WriteJSON 503 (Unavailable "leaderboard temporarily unavailable"), c)
        | Ok rows =>
          let payload := payload_of h hours successOnly service model now2 rows in
          let swept := filter (fun e => negb (ce_expires (snd e) <? now3) = true) c in
          (WriteJSON 200 (Board payload), <[key := mkCacheEntry payload (now3 + hd_ttl h)]> swept)
        end
      end
    end
  end.
End Leaderboard.

(** ** internal/solrpcproxy

    The token bucket (floating point) answers through [limited]; the upstream's reply to a
    forwarded body is not looked at. *)
Module SolRPC.
Definition maxBody : Z := 1048576.
Definition maxBatch : Z := 10.
Definition DefaultMethods : list string := [
  "getAccountInfo"; "getBalance"; "getBlock"; "getBlockTime"; "getEpochInfo"; "getFeeForMessage"; "getGenesisHash"; "getHealth";
  "getLatestBlockhash"; "getMinimumBalanceForRentExemption"; "getMultipleAccounts"; "getSignatureStatuses";
  "getSignaturesForAddress"; "getSlot"; "getTokenAccountBalance"; "getTokenAccountsByOwner"; "getTransaction"; "getVersion";
  "isBlockhashValid"; "sendTransaction"; "simulateTransaction" ]%string.
(** The allow-list of [New]. *)
Definition NewProxy (methods : list string) : gset string :=
  let allow := list_to_set (map TrimSpace methods) : gset string in
  if bool_decide (allow = ∅) then list_to_set DefaultMethods else allow.

(** The two raw members take any value. *)
Record rpcRequest := mkRpc { rr_Version : string; rr_Method : string; rr_Params : option json; rr_ID : option json }.
Definition zeroRpc : rpcRequest := mkRpc "" "" None None.
Definition dec_rpcRequest : decoder rpcRequest := dec_struct [
  fld "jsonrpc" rr_Version (fun v x => mkRpc v (rr_Method x) (rr_Params x) (rr_ID x)) dec_string;
  fld "method" rr_Method (fun v x => mkRpc (rr_Version x) v (rr_Params x) (rr_ID x)) dec_string;
  fld "params" rr_Params (fun v x => mkRpc (rr_Version x) (rr_Method x) v (rr_ID x)) dec_raw;
  fld "id" rr_ID (fun v x => mkRpc (rr_Version x) (rr_Method x) (rr_Params x) v) dec_raw ]%string.

Inductive answer := Refuse (status : Z) (text : string) | Forward (body : chars).
Fixpoint check_batch (allow : gset string) (l : list rpcRequest) : option string :=
  match l with
  | [] => None
  | call :: rest => if bool_decide (rr_Method call ∈ allow) then check_batch allow rest else Some (rr_Method call)
  end.
Definition denied (method : string) : answer := Refuse 403 ("method not allowed: " +:+ method).
(** The body's calls against the list. *)
Definition admit_body (allow : gset string) (body : chars) : answer :=
  let batch :=
    match Unmarshal (dec_slice zeroRpc dec_rpcRequest) [] (parse body) with
    | Err _ | Ok [] => Refuse 400 "invalid JSON-RPC request"
    | Ok batch =>
      if Z.of_nat (length batch) >? maxBatch then Refuse 400 "batch too large"
      else match check_batch allow batch with Some m => denied m | None => Forward body end
    end in
  match Unmarshal dec_rpcRequest zeroRpc (parse body) with
  | Ok single =>
    if String.eqb (rr_Method single) "" then batch
    else if bool_decide (rr_Method single ∈ allow) then Forward body else denied (rr_Method single)
  | Err _ => batch
  end.

(** [clientIP]: the headers, then the connection's address without its port. *)
Fixpoint IndexByte (c : ascii) (l : chars) : option nat :=
  match l with
  | [] => None
  | x :: r => if Ascii.eqb x c then Some 0%nat else S <$> IndexByte c r
  end.
Definition LastIndexByte (c : ascii) (l : chars) : option nat :=
  match IndexByte c (rev l) with Some j => Some (length l - 1 - j)%nat | None => None end.
Definition clientIP (r : request) (remote : string) : string :=
  let cf := TrimSpace (h_Header r "CF-Connecting-IP") in
  if negb (String.eqb cf "") then cf else
  let xr := TrimSpace (h_Header r "X-Real-IP") in
  if negb (String.eqb xr "") then xr else
  let fwd := h_Header r "X-Forwarded-For" in
  if negb (String.eqb fwd "") then
    match IndexByte "," (chars_of fwd) with
    | Some (S i) => TrimSpace (text_of (take (S i) (chars_of fwd)))
    | _ => TrimSpace fwd
    end
  else match LastIndexByte ":" (chars_of remote) with
       | Some (S i) => text_of (take (S i) (chars_of remote))
       | _ => remote
       end.
Definition ServeRPC (allow : gset string) (limited : string -> bool) (remote : string) (r : request) : answer :=
  if negb (String.eqb (h_Method r) "POST") then Refuse 405 "POST only"
  else if limited (clientIP r remote) then Refuse 429 "rate limited"
  else if h_BodyErr r || (Z.of_nat (length (h_Body r)) >? maxBody) then Refuse 413 "body too large"
  else admit_body allow (h_Body r).
End SolRPC.

(** ** The catalogue's rows *)
#[export] Instance text_le_trans : Transitive text_le.
Proof. exact string_leb_trans. Qed.
#[export] Instance text_le_total : Total text_le.
Proof. intros a b. apply String.leb_total. Qed.
#[export] Instance text_le_antisym : AntiSymm (=) text_le.
Proof. intros a b. apply String.leb_antisym. Qed.
Lemma sortedKeys_NoDup (s : gset string) : NoDup (sortedKeys s).
Proof. unfold sortedKeys. rewrite merge_sort_Permutation. apply NoDup_elements. Qed.

Module CatalogSpec.
Import Catalog.

(** Every service that is advertised, with whether its peer is connected. *)
Definition adverts (peers : list Peer) : list (bool * PeerService) :=
  concat (map (fun p => map (pair (pe_Connected p)) (pe_Service p)) peers).
Definition advertised (name : string) (l : list (bool * PeerService)) : list (bool * PeerService) :=
  List.filter (fun a => String.eqb (ps_Name (snd a)) name) l.
Definition groups_of (l : list (bool * PeerService)) : list string :=
  List.filter (fun g => negb (String.eqb g "")) (concat (map (fun a => ps_IdentityGroup (snd a)) l)).
Definition names_of (peers : list Peer) : gset string :=
  list_to_set (List.filter (fun n => negb (String.eqb n "")) (map (fun a => ps_Name (snd a)) (adverts peers))).
(** The row that the catalogue promises for a name. *)
Definition row (peers : list Peer) (name : string) : Service :=
  let l := advertised name (adverts peers) in
  mkService name (sortedKeys (list_to_set (omap model_of (groups_of l)))) (sortedKeys (list_to_set (groups_of l)))
    (Z.of_nat (length l)) (Z.of_nat (length (List.filter fst l))).

Lemma add_peers_adverts peers m :
  fold_left add_peer peers m = fold_left (fun m a => add_service (fst a) m (snd a)) (adverts peers) m.
Proof.
  revert m. induction peers as [|p peers IH]; intros m; [done|]. unfold adverts in *. cbn [map concat fold_left].
  rewrite fold_left_app, IH. f_equal. unfold add_peer. generalize (pe_Service p). intros l. revert m.
  induction l as [|s l IHl]; intros m; [done|]. cbn [map fold_left fst snd]. apply IHl.
Qed.
Lemma add_groups_acc l a :
  fold_left add_group l a = mkAcc (list_to_set (omap model_of (List.filter (fun g => negb (String.eqb g "")) l)) ∪ ac_models a)
    (list_to_set (List.filter (fun g => negb (String.eqb g "")) l) ∪ ac_groups a) (ac_providers a) (ac_online a).
Proof.
  revert a. induction l as [|g l IH]; intros a.
  - cbn. destruct a. cbn. f_equal; set_solver.
  - cbn [fold_left List.filter]. rewrite IH. unfold add_group. destruct (String.eqb g ""); cbn [negb]; [done|].
    cbn [ac_models ac_groups ac_providers ac_online omap list_omap list_to_set].
    f_equal; [destruct (model_of g) as [m|]; cbn [list_to_set]; set_solver|cbn [list_to_set]; set_solver].
Qed.
(** What is kept for a name after some services. *)
Definition acc_of (l : list (bool * PeerService)) : acc :=
  mkAcc (list_to_set (omap model_of (groups_of l))) (list_to_set (groups_of l)) (Z.of_nat (length l)) (Z.of_nat (length (List.filter fst l))).
Definition lookup_of (name : string) (l : list (bool * PeerService)) : option acc :=
  if String.eqb name "" then None else
  match advertised name l with [] => None | n => Some (acc_of n) end.
Lemma groups_app a b : groups_of (a ++ b) = groups_of a ++ groups_of b.
Proof. unfold groups_of. by rewrite map_app, concat_app, List.filter_app. Qed.
Lemma acc_snoc l c svc : mkAcc (ac_models (acc_of l)) (ac_groups (acc_of l)) (ac_providers (acc_of l) + 1)
     (if c : bool then ac_online (acc_of l) + 1 else ac_online (acc_of l)) = mkAcc (ac_models (acc_of l)) (ac_groups (acc_of l))
     (Z.of_nat (length (l ++ [(c, svc)]))) (Z.of_nat (length (List.filter fst (l ++ [(c, svc)])))).
Proof. rewrite List.filter_app, !length_app. cbn. destruct c; cbn; f_equal; lia. Qed.
Lemma add_services_lookup l name :
  fold_left (fun m a => add_service (fst a) m (snd a)) l (∅ : gmap string acc) !! name = lookup_of name l.
Proof.
  induction l as [|[c svc] l IH] using rev_ind; [unfold lookup_of; by destruct (String.eqb name "")|].
  rewrite fold_left_app. cbn [fold_left fst snd]. unfold add_service. set (m := fold_left _ l _) in *.
  unfold lookup_of, advertised in *. rewrite List.filter_app. cbn [List.filter snd].
  destruct (String.eqb_spec (ps_Name svc) "") as [E|E].
  { rewrite IH. destruct (String.eqb_spec name "") as [|En]; [done|]. destruct (String.eqb_spec (ps_Name svc) name); [congruence|].
    by rewrite app_nil_r. }
  destruct (String.eqb_spec (ps_Name svc) name) as [<-|Hn].
  - rewrite lookup_insert_eq, IH. destruct (String.eqb_spec (ps_Name svc) "") as [|_]; [done|].
    set (n := List.filter _ l). assert (Hacc : default no_acc (match n with [] => None | p :: l0 => Some (acc_of (p :: l0)) end) = acc_of n) by (by destruct n).
    rewrite Hacc, (acc_snoc n c svc), add_groups_acc. cbn [ac_models ac_groups ac_providers ac_online].
    replace (match n ++ [(c, svc)] with [] => None | p :: l0 => Some (acc_of (p :: l0)) end) with (Some (acc_of (n ++ [(c, svc)]))) by (by destruct n). unfold acc_of. rewrite groups_app. f_equal.
    assert (Hg : groups_of [(c, svc)] = List.filter (fun g => negb (String.eqb g "")) (ps_IdentityGroup svc))
      by (unfold groups_of; cbn; by rewrite app_nil_r).
    rewrite Hg. cbn [ac_models ac_groups]. f_equal; [rewrite omap_app|]; rewrite list_to_set_app_L; set_solver.
  - rewrite lookup_insert_ne, IH, app_nil_r by done. done.
Qed.
Lemma rows_lookup peers name :
  fold_left add_peer peers (∅ : gmap string acc) !! name = if bool_decide (name ∈ names_of peers) then Some (acc_of (advertised name (adverts peers))) else None.
Proof.
  rewrite add_peers_adverts, add_services_lookup. unfold lookup_of, names_of.
  assert (Hin : name ∈@{gset string} list_to_set (List.filter (fun n => negb (String.eqb n "")) (map (fun a => ps_Name (snd a)) (adverts peers))) <->
    name <> ""%string /\ advertised name (adverts peers) <> []).
  { rewrite elem_of_list_to_set, list_elem_of_In, filter_In, in_map_iff, negb_true_iff, String.eqb_neq. split.
    - intros [[a [Ha Hin]] Hn]. split; [done|]. intros E. assert (In a (advertised name (adverts peers))) as Hx; [|by rewrite E in Hx].
      unfold advertised. rewrite filter_In. split; [done|]. by apply String.eqb_eq.
    - intros [Hn Hne]. destruct (advertised name (adverts peers)) as [|a l] eqn:E; [done|]. split; [|done]. exists a.
      assert (In a (advertised name (adverts peers))) as Hx by (rewrite E; by left). unfold advertised in Hx. apply filter_In in Hx as [H1 H2].
      by apply String.eqb_eq in H2. }
  destruct (String.eqb_spec name "") as [->|Hn].
  - rewrite bool_decide_eq_false_2; [done|]. rewrite Hin. naive_solver.
  - destruct (advertised name (adverts peers)) as [|a l] eqn:E; [rewrite bool_decide_eq_false_2|rewrite bool_decide_eq_true_2]; rewrite ?Hin; naive_solver.
Qed.

Lemma summarise_is peers : Summarise peers = map (row peers) (sortedKeys (names_of peers)).
Proof.
  unfold Summarise. set (m := fold_left add_peer peers ∅).
  assert (Hm : map_to_list m ≡ₚ map (fun n => (n, acc_of (advertised n (adverts peers)))) (elements (names_of peers))).
  { apply NoDup_Permutation; [apply NoDup_map_to_list|apply NoDup_fmap_2; [intros ? ? [=]; done|apply NoDup_elements]|].
    intros [n a]. rewrite elem_of_map_to_list. unfold m. rewrite rows_lookup, list_elem_of_fmap. split.
    - case_bool_decide as E; [|done]. intros [= <-]. exists n. split; [done|]. by apply elem_of_elements.
    - intros (n' & [= -> ->] & Hn%elem_of_elements). by rewrite bool_decide_eq_true_2. }
  apply (StronglySorted_unique_strong name_le).
  - intros x y Hx Hy Hxy Hyx. rewrite merge_sort_Permutation, Hm, map_map in Hx.
    apply list_elem_of_fmap in Hx as (n & -> & _). apply list_elem_of_fmap in Hy as (n' & -> & _).
    assert (n = n') as ->; [|done]. by apply (anti_symm text_le).
  - apply StronglySorted_merge_sort.
    + intros a b c. unfold name_le. apply text_le_trans.
    + intros a b. unfold name_le. apply text_le_total.
  - assert (Hs : StronglySorted text_le (sortedKeys (names_of peers))) by (apply StronglySorted_merge_sort; apply _).
    revert Hs. generalize (sortedKeys (names_of peers)). clear. induction 1 as [|n l Hl IH Hn]; [constructor|]. constructor; [done|].
    apply Forall_forall. intros s (n' & -> & Hn')%list_elem_of_fmap. exact (proj1 (Forall_forall _ _) Hn n' Hn').
  - rewrite merge_sort_Permutation, Hm, map_map. unfold sortedKeys. by rewrite merge_sort_Permutation.
Qed.

(** The catalogue has exactly one row for every service name that some peer advertises,
    sorted by name, whatever the order in which the peers are visited: its providers are
    the advertisements of the name, those online are the ones of connected peers, its
    groups are the names of the advertised groups without duplicates and sorted, and its
    models what follows [model=] in them, also without duplicates and sorted. *)
Theorem Summarise_rows (peers : list Peer) : Summarise peers = map (row peers) (sortedKeys (names_of peers)).
Proof. apply summarise_is. Qed.



(** *** Prices *)
Definition pricesAt (pick : Ask -> Z) (live : list Ask) (t : priceTriple) : Prop :=
  pt_Min t <= pt_Median t <= pt_Max t /\ (forall a, In a live -> pt_Min t <= pick a <= pt_Max t) /\
  (live <> [] -> exists a b, In a live /\ In b live /\ pick a = pt_Min t /\ pick b = pt_Max t).
Lemma sorted_nth (l : list Z) i j : StronglySorted Z.le l -> (i <= j)%nat -> (j < length l)%nat -> nth i l 0 <= nth j l 0.
Proof.
  intros Hl. revert i j. induction Hl as [|x l Hl IH Hx]; intros [|i] [|j] Hij Hj; cbn in *; try lia.
  - apply (proj1 (Forall_forall _ _) Hx). apply list_elem_of_In, nth_In. lia.
  - apply IH; lia.
Qed.
Lemma triple_ordered l : StronglySorted Z.le l -> l <> [] -> (forall x, In x l -> 0 <= x < MaxBaseRate) ->
  let t := triple l in pt_Min t <= pt_Median t <= pt_Max t /\ (forall x, In x l -> pt_Min t <= x <= pt_Max t) /\
  In (pt_Min t) l /\ In (pt_Max t) l.
Proof.
  intros Hs Hne Hb. assert (Hn : (0 < length l)%nat) by (destruct l; [done|simpl; lia]).
  assert (Hat : forall i, (i < length l)%nat -> 0 <= nth i l 0 < MaxBaseRate) by (intros i Hi; apply Hb, nth_In; lia).
  unfold triple. rewrite bool_decide_eq_false_2 by lia. cbn [pt_Min pt_Median pt_Max].
  assert (Hall : forall x, In x l -> nth 0 l 0 <= x <= nth (length l - 1) l 0).
  { intros x Hx. destruct (In_nth l x 0 Hx) as (i & Hi & <-). split; apply sorted_nth; (done || lia). }
  split; [|split; [done|split; apply nth_In; lia]]. destruct (Nat.even (length l)) eqn:He.
  - apply Nat.even_spec in He as [k Hk]. replace (length l / 2)%nat with k by (rewrite Hk, Nat.mul_comm, Nat.div_mul; lia).
    assert (Hk' : (k - 1 < length l)%nat /\ (k < length l)%nat) by lia. destruct Hk' as [K1 K2].
    pose proof (Hat _ K1) as B1. pose proof (Hat _ K2) as B2.
    pose proof (Hall _ (nth_In l 0 K1)) as R1. pose proof (Hall _ (nth_In l 0 K2)) as R2. unfold MaxBaseRate in *.
    rewrite i64_id by (unfold in_i64, two63; lia). rewrite Z.quot_div_nonneg by lia. split.
    + apply Z.div_le_lower_bound; lia.
    + apply Z.div_le_upper_bound; lia.
  - assert (Hk : (length l / 2 < length l)%nat) by (apply Nat.div_lt; lia). exact (Hall _ (nth_In l 0 Hk)).
Qed.
Lemma rates_prices pick live : live <> [] -> (forall a, In a live -> 0 <= pick a < MaxBaseRate) -> pricesAt pick live (triple (rates live pick)).
Proof.
  intros Hne Hb. assert (Hin : forall x, In x (rates live pick) <-> exists a, pick a = x /\ In a live).
  { intros x. unfold rates. rewrite <- list_elem_of_In, merge_sort_Permutation, list_elem_of_In. apply in_map_iff. }
  destruct (triple_ordered (rates live pick)) as (H1 & H2 & H3 & H4).
  - apply StronglySorted_merge_sort; apply _.
  - destruct live as [|a live]; [done|]. intros E. assert (In (pick a) (rates (a :: live) pick)) as Hx by (apply Hin; exists a; split; [done|by left]).
    by rewrite E in Hx.
  - intros x (a & <- & Ha)%Hin. by apply Hb.
  - split; [done|]. split; [intros a Ha; apply H2, Hin; eauto|]. intros _.
    apply Hin in H3 as (a & Ha1 & Ha2). apply Hin in H4 as (b & Hb1 & Hb2). by exists a, b.
Qed.

(** A row of the public market counts exactly the asks that have not expired and whose
    peer can be billed and serves the model, and in each of the three tiers the prices it
    shows are in order, minimum, median, maximum: every one of those asks lies between the
    minimum and the maximum and both are reached.  This needs the rates to be within the
    store's bound, without which the sum of the middle two could wrap. *)
Theorem market_prices_ordered (service model : string) (asks : list Ask) (snap : Snapshot) (now : time) :
  (forall a, In a asks -> 0 <= ak_InputPerMillion a < MaxBaseRate /\ 0 <= ak_CachedInputPerMillion a < MaxBaseRate /\
                          0 <= ak_OutputPerMillion a < MaxBaseRate) ->
  let e := marketTriple service model asks snap now in
  let live := live_asks service model asks snap now in
  me_Quoters e = Z.of_nat (length live) /\ pricesAt ak_InputPerMillion live (me_Input e) /\
  pricesAt ak_CachedInputPerMillion live (me_CachedInput e) /\ pricesAt ak_OutputPerMillion live (me_Output e).
Proof.
  intros Hb. cbv zeta. set (live := live_asks service model asks snap now).
  assert (Hl : forall a, In a live -> In a asks) by (intros a Ha; unfold live, live_asks in Ha; apply filter_In in Ha as [Ha _]; exact Ha).
  unfold marketTriple. fold live. case_bool_decide as E.
  - rewrite E. cbn. unfold pricesAt. cbn. repeat split; try lia; try done.
  - cbn [me_Quoters me_Input me_CachedInput me_Output]. split; [done|].
    split; [|split]; apply rates_prices; try done; intros a Ha%Hl; by destruct (Hb a Ha) as (? & ? & ?).
Qed.

(** *** At work

    A provider that can be billed serves one model openly; another keeps its own closed. *)
Definition demo_instance (peer scope : string) (services : list InstanceService) : InstanceInfo :=
  mkInstance 1 "seller" peer "" "wallet" "restricted" scope 1 "" None None zeroTime zeroTime [] None services.
Definition demo_service : InstanceService :=
  AclTypes.mkService 1 1 "llm" ExposurePermissionless None None "" 1 true None zeroTime zeroTime [].
Definition demo_table : gmap string Peer := {[
  "open" := mkPeer true [mkPeerService "llm" ["all"; "model=m"]];
  "closed" := mkPeer true [mkPeerService "llm" ["model=secret"]] ]}%string.
Definition demo_managed : list InstanceInfo := [
  demo_instance "open" PolicyScopeService [demo_service];
  demo_instance "closed" PolicyScopeService [] ]%string.
Definition demo_snap : Snapshot := mkSnapshot (entries_of demo_table demo_managed) 0.
Definition demo_ask (peer : string) (rate : Z) : Ask := mkAsk peer "llm" "m" rate rate rate 1 100 0.
Lemma market_prices_ordered_witness :
  (forall a, In a [demo_ask "open" 5; demo_ask "closed" 1; demo_ask "open" 8] -> 0 <= ak_InputPerMillion a < MaxBaseRate /\
     0 <= ak_CachedInputPerMillion a < MaxBaseRate /\ 0 <= ak_OutputPerMillion a < MaxBaseRate) /\
  let e := marketTriple "llm" "m" [demo_ask "open" 5; demo_ask "closed" 1; demo_ask "open" 8] demo_snap 50 in
  me_Quoters e = 2 /\ me_Input e = mkTriple 5 6 8 /\
  pricesAt ak_InputPerMillion (live_asks "llm" "m" [demo_ask "open" 5; demo_ask "closed" 1; demo_ask "open" 8] demo_snap 50) (me_Input e).
Proof.
  assert (Hb : forall a, In a [demo_ask "open" 5; demo_ask "closed" 1; demo_ask "open" 8] -> 0 <= ak_InputPerMillion a < MaxBaseRate /\
     0 <= ak_CachedInputPerMillion a < MaxBaseRate /\ 0 <= ak_OutputPerMillion a < MaxBaseRate).
  { intros a [<-|[<-|[<-|[]]]]; cbn; unfold MaxBaseRate; lia. }
  split; [exact Hb|]. cbv zeta. split; [vm_compute; reflexivity|]. split; [vm_compute; reflexivity|].
  apply (market_prices_ordered "llm" "m" [demo_ask "open" 5; demo_ask "closed" 1; demo_ask "open" 8] demo_snap 50 Hb).
Defined.
End CatalogSpec.

(** ** The leaderboard *)
Module LeaderboardSpec.
Import Leaderboard.
Lemma parseHours_range raw hours : parseHours raw = Ok hours -> 1 <= hours <= maxWindowHours.
Proof.
  unfold parseHours, maxWindowHours, defaultWindowHours. destruct (String.eqb raw ""); [intros [= <-]; lia|].
  destruct (ParseInt raw) as [z|e]; [|done]. destruct ((z <? 1) || (z >? 720)) eqn:E; [done|]. intros [= <-].
  apply orb_false_iff in E as [? ?]. lia.
Qed.
(** The window of days covers the hours asked for, up to the retention. *)
Lemma windowDays_covers hours : 1 <= hours <= maxWindowHours -> 1 <= windowDays hours <= maxWindowDays /\ hours <= 24 * windowDays hours.
Proof.
  unfold windowDays, maxWindowHours, maxWindowDays. intros Hh. rewrite Z.quot_div_nonneg by lia.
  pose proof (Z.div_mod (hours + 23) 24 ltac:(lia)). pose proof (Z.mod_pos_bound (hours + 23) 24 ltac:(lia)).
  assert ((hours + 23) / 24 < 31) by (apply Z.div_lt_upper_bound; lia). lia.
Qed.
(** No byte of a filter can end a string of a query: neither quote, backslash, semicolon
    nor a blank, and nothing outside ASCII. *)
Lemma validFilter_safe s c : validFilter s = true -> In c (chars_of s) ->
  ~ In c ["'"; "034"; "\"; ";"; " "; "`"; "010"; "000"]%char /\ ascii_Z c < 128.
Proof.
  unfold validFilter. rewrite andb_true_iff, forallb_forall. intros [_ H] Hin. specialize (H _ Hin).
  destruct c as [[] [] [] [] [] [] [] []]; vm_compute in H; try discriminate H;
    (split; [vm_compute; intros Hx; decompose [or] Hx; congruence|reflexivity]).
Qed.

(** A caller decides nothing about the analytics queries but a window of 1 to 720
    hours, a switch, and two filters of at most 128 harmless characters: two stores that
    answer alike on such arguments are told apart by no request, whatever its parameters
    and whatever is cached, so no other text of a caller's ever reaches a query. *)
Theorem queries_are_validated (q q' : Z -> string -> string -> res (list Row)) (u u' : Z -> string -> string -> bool -> res (list UsageRow))
    (ttl : Z) (now1 now2 now3 : time) (r : request) (c : gmap cacheKey cacheEntry) :
  (forall hours service model successOnly, 1 <= hours <= maxWindowHours -> validFilter service = true -> validFilter model = true ->
     q hours service model = q' hours service model /\
     u (windowDays hours) service model successOnly = u' (windowDays hours) service model successOnly) ->
  ServeLeaderboard (mkHandler q (Some u) ttl) now1 now2 now3 r c = ServeLeaderboard (mkHandler q' (Some u') ttl) now1 now2 now3 r c.
Proof.
  intros Hq. unfold ServeLeaderboard. destruct (parseHours _) as [hours|e] eqn:Eh; [|done]. apply parseHours_range in Eh.
  destruct (parseSuccessOnly _) as [so|e]; [|done].
  destruct (validFilter (h_Query r "service")) eqn:E1, (validFilter (h_Query r "model")) eqn:E2; try done. cbn [negb orb].
  destruct (Hq hours _ _ so Eh E1 E2) as [H1 H2]. cbn [hd_q]. rewrite H1. destruct (match c !! _ with Some _ => _ | None => _ end); [done|].
  destruct (q' _ _ _); [|done]. unfold payload_of. cbn [hd_u hd_ttl]. by rewrite H2.
Qed.
Definition demo_request (q : string -> string) : request := mkHttp "GET" None None (fun _ => "")%string q (fun _ => "")%string [] false.
Lemma queries_are_validated_witness :
  let q := fun (_ : Z) (_ _ : string) => Ok ([] : list Row) in
  let q' := fun (_ : Z) (s _ : string) => if validFilter s then Ok ([] : list Row) else Err (Errorf "syntax error") in
  let u := fun (_ : Z) (_ _ : string) (_ : bool) => Ok ([] : list UsageRow) in
  ServeLeaderboard (mkHandler q (Some u) 60) 0 1 2 (demo_request (fun k => if String.eqb k "service" then "x' OR 1" else "")%string) ∅ =
  ServeLeaderboard (mkHandler q' (Some u) 60) 0 1 2 (demo_request (fun k => if String.eqb k "service" then "x' OR 1" else "")%string) ∅.
Proof.
  cbv zeta. apply queries_are_validated. intros hours service model so Hh Hs Hm. by rewrite Hs.
Defined.
End LeaderboardSpec.

(** ** The RPC proxy *)
Module SolRPCSpec.
Import SolRPC.
(** The members that Go's decoder takes for the method, and their last text. *)
Definition method_members (l : list (string * json)) : list (string * json) := List.filter (fun x => same_key "method" (fst x)) l.
Fixpoint last_method (cur : string) (l : list (string * json)) : string :=
  match l with
  | [] => cur
  | (key, JStr s) :: r => last_method (if same_key "method" key then s else cur) r
  | _ :: r => last_method cur r
  end.
Lemma same_key_excl a b key : same_key a key = true -> same_key a b = false -> same_key b key = false.
Proof.
  unfold same_key. rewrite bool_decide_eq_true, !bool_decide_eq_false. intros -> H1 H2. congruence.
Qed.
Lemma members_method l : forall cur x, match dec_rpcRequest cur (JObj l) with Ok y => y = x | Err _ => False end ->
  rr_Method x = last_method (rr_Method cur) l.
Proof.
  unfold dec_rpcRequest, dec_struct. set (fs := _ : fields rpcRequest).
  induction l as [|[key j] l IH]; intros cur x; cbn [dec_members last_method]; [by intros ->|].
  assert (Hother : same_key "method" key = false -> match j with JStr s => last_method (if same_key "method" key then s else rr_Method cur) l | _ => last_method (rr_Method cur) l end = last_method (rr_Method cur) l)
    by (intros ->; by destruct j).
  assert (Hm : forall n, same_key n key = true -> same_key n "method" = false -> same_key "method" key = false).
  { intros n. apply same_key_excl. }
  unfold fs at 1, fld. cbn [find_field].
  destruct (same_key "jsonrpc" key) eqn:E1.
  { rewrite Hother by (by apply (Hm "jsonrpc"%string)). unfold dec_string. destruct j; try done; intros H; by rewrite (IH _ _ H). }
  destruct (same_key "method" key) eqn:E2.
  { unfold dec_string. destruct j; try done; intros H; by rewrite (IH _ _ H). }
  rewrite Hother by done. destruct (same_key "params" key); [intros H; by rewrite (IH _ _ H)|].
  destruct (same_key "id" key); intros H; by rewrite (IH _ _ H).
Qed.
Lemma last_method_none cur l : method_members l = [] -> last_method cur l = cur.
Proof.
  induction l as [|[key j] l IH]; [done|]. unfold method_members. cbn [List.filter fst last_method].
  destruct (same_key "method" key); [done|]. intros H. destruct j; by apply IH.
Qed.
Lemma last_method_one cur l key m : method_members l = [(key, JStr m)] -> last_method cur l = m.
Proof.
  revert cur. induction l as [|[k j] l IH]; [done|]. intros cur. unfold method_members. cbn [List.filter fst last_method].
  destruct (same_key "method" k); [|intros H; destruct j; by apply IH]. intros [= -> -> H]. by apply last_method_none.
Qed.

(** A call that was admitted: an object with a method, and when nothing in it is ambiguous
    the method is a listed one. *)
Definition listed (allow : gset string) (call : json) : Prop :=
  exists l, call = JObj l /\ method_members l <> [] /\ forall key m, method_members l = [(key, JStr m)] -> m ∈ allow.
Lemma admitted_listed allow call x : (""%string ∉ allow) -> dec_rpcRequest zeroRpc call = Ok x -> rr_Method x ∈ allow -> listed allow call.
Proof.
  intros He Hd Hx. destruct call as [| | | | | |l]; try done; [by injection Hd as <-|]. exists l. split; [done|].
  assert (Hm : rr_Method x = last_method "" l) by (apply (members_method l zeroRpc x); by rewrite Hd).
  rewrite Hm in Hx. split; [intros E; by rewrite last_method_none in Hx|]. intros key m E. by rewrite (last_method_one _ _ _ _ E) in Hx.
Qed.
Lemma batch_listed allow l calls : (""%string ∉ allow) -> dec_elems zeroRpc dec_rpcRequest l = Ok calls -> check_batch allow calls = None ->
  length calls = length l /\ Forall (listed allow) l.
Proof.
  intros He. revert calls. induction l as [|j l IH]; intros calls; cbn [dec_elems]; [by intros [= <-]|].
  destruct (dec_rpcRequest zeroRpc j) as [x|e] eqn:Ex; [|done]. cbn beta iota. destruct (dec_elems _ _ l) as [rest|e]; [|done].
  cbn beta iota. intros [= <-]. cbn [check_batch]. case_bool_decide as Hx; [|done]. intros Hc. destruct (IH rest eq_refl Hc) as [H1 H2].
  split; [by simpl; f_equal|]. constructor; [|done]. by eapply admitted_listed.
Qed.

(** C20: What the proxy lets through to the node is a POST of at most one megabyte whose
    sender was not over its rate, as it came: one call or a batch of one to ten, each an
    object that names its method, and every call that names it once names one of the
    listed methods. *)
Theorem forwarded_calls_are_listed (allow : gset string) (limited : string -> bool) (remote : string) (r : request) (body : chars) :
  (""%string ∉ allow) -> ServeRPC allow limited remote r = Forward body ->
  h_Method r = "POST"%string /\ limited (clientIP r remote) = false /\ body = h_Body r /\ Z.of_nat (length body) <= maxBody /\
  exists j, parse body = Some j /\
    match j with
    | JArr calls => (1 <= Z.of_nat (length calls) <= maxBatch) /\ Forall (listed allow) calls
    | _ => listed allow j
    end.
Proof.
  intros He. unfold ServeRPC. destruct (String.eqb_spec (h_Method r) "POST") as [Hp|]; [|done]. cbn [negb].
  destruct (limited _); [done|]. destruct (h_BodyErr r || _) eqn:Eb; [done|]. apply orb_false_iff in Eb as [_ Eb].
  unfold admit_body. set (batch := match Unmarshal (dec_slice zeroRpc dec_rpcRequest) [] _ with Ok _ => _ | Err _ => _ end).
  assert (Hbatch : batch = Forward body -> body = h_Body r /\ exists calls, parse body = Some (JArr calls) /\
    (1 <= Z.of_nat (length calls) <= maxBatch) /\ Forall (listed allow) calls).
  { unfold batch. destruct (parse (h_Body r)) as [j|] eqn:Ej; [|done]. cbn [Unmarshal]. destruct j as [| | | | |l|]; try done.
    cbn [dec_slice]. destruct (dec_elems _ _ l) as [[|x calls]|e] eqn:Ed; try done. destruct (Z.gtb_spec (Z.of_nat (length (x :: calls))) maxBatch) as [|Hle]; [done|].
    destruct (check_batch allow (x :: calls)) eqn:Ec; [done|]. intros [= <-]. split; [done|]. exists l. split; [done|].
    destruct (batch_listed _ _ _ He Ed Ec) as [Hlen Hall]. split; [|done]. rewrite <- Hlen. cbn [length] in *. lia. }
  assert (Hlen : Z.of_nat (length (h_Body r)) <= maxBody) by lia. clear Eb. intros Hf.
  assert (Hcase : batch = Forward body \/ exists x, Unmarshal dec_rpcRequest zeroRpc (parse (h_Body r)) = Ok x /\
    rr_Method x ∈ allow /\ body = h_Body r).
  { destruct (Unmarshal dec_rpcRequest zeroRpc (parse (h_Body r))) as [x|e]; [|by left].
    destruct (String.eqb (rr_Method x) ""); [by left|]. case_bool_decide; [|done]. injection Hf as <-. right. by exists x. }
  destruct Hcase as [[-> (calls & Hj & Hc)]%Hbatch|(x & Hx & Hin & ->)].
  - repeat split; try done. by exists (JArr calls).
  - repeat split; try done. destruct (parse (h_Body r)) as [j|]; [|done]. cbn [Unmarshal] in Hx.
    exists j. split; [done|]. assert (Hl : listed allow j) by (by eapply admitted_listed). by destruct Hl as (l & -> & _); eauto using admitted_listed.
Qed.

(** *** At work, single quotes standing for double ones *)
Definition requoted (s : string) : chars := map (fun c => if Ascii.eqb c "'" then "034"%char else c) (chars_of s).
Definition rpc_post (body : string) : request := mkHttp "POST" None None (fun _ => ""%string) (fun _ => ""%string) (fun _ => ""%string) (requoted body) false.
Definition slot_call : string := "{'jsonrpc':'2.0','id':1,'method':'getSlot'}".
Lemma forwarded_calls_are_listed_witness :
  (""%string ∉ NewProxy []) /\ ServeRPC (NewProxy []) (fun _ => false) "10.0.0.1:80" (rpc_post slot_call) = Forward (requoted slot_call) /\
  exists j, parse (requoted slot_call) = Some j /\ match j with JArr calls => False | _ => listed (NewProxy []) j end.
Proof.
  assert (H1 : (""%string ∉ NewProxy [])) by (vm_compute; intros H; discriminate H || set_solver).
  assert (H2 : ServeRPC (NewProxy []) (fun _ => false) "10.0.0.1:80" (rpc_post slot_call) = Forward (requoted slot_call)) by (vm_compute; reflexivity).
  split; [exact H1|]. split; [exact H2|].
  destruct (forwarded_calls_are_listed _ _ _ _ _ H1 H2) as (_ & _ & _ & _ & j & Hj & Hl). exists j. split; [exact Hj|].
  assert (E : parse (requoted slot_call) = Some j) by exact Hj. destruct j; try exact Hl. exfalso. vm_compute in E. discriminate E.
Defined.
(** A method that is not listed is refused; hidden before one in other letters it gets
    through, as it came, to a node that reads only [method]. *)
Example airdrop_refused :
  ServeRPC (NewProxy []) (fun _ => false) "10.0.0.1:80" (rpc_post "{'id':1,'method':'requestAirdrop'}") =
  Refuse 403 "method not allowed: requestAirdrop".
Proof. vm_compute. reflexivity. Qed.
Lemma airdrop_smuggled :
  ServeRPC (NewProxy []) (fun _ => false) "10.0.0.1:80" (rpc_post "{'id':1,'method':'requestAirdrop','METHOD':'getSlot'}") =
    Forward (requoted "{'id':1,'method':'requestAirdrop','METHOD':'getSlot'}") /\
  exists l, parse (requoted "{'id':1,'method':'requestAirdrop','METHOD':'getSlot'}") = Some (JObj l) /\
    List.filter (fun x => String.eqb (fst x) "method") l = [("method", JStr "requestAirdrop")]%string.
Proof. split; [vm_compute; reflexivity|]. eexists. split; [vm_compute; reflexivity|]. reflexivity. Qed.
End SolRPCSpec.
