(* ===== verification/Server.v ===== *)
(** * The server's front: routes, CORS, configuration, and the reference publisher

    internal/server/server.go with internal/corsmw and internal/manageapi/router.go (which
    handler a path reaches, and behind which middleware), internal/config/config.go (what
    the environment must say) and internal/askpublish/client.go.  Parsing of URLs, durations
    and floating-point numbers, and libp2p's private keys, are arguments. *)
From Stdlib Require Import ZArith Lia Strings.Ascii Strings.String.
From stdpp Require Import base gmap strings list.
From S2P Require Import Prelude Sha256 Base58 Billing Tx Schema BillingStore Worker GoText Json Base64 AclTypes DirSchema Directory Regions Keys Peers Jwt Http Mesh BillingApi Pricing Inputs DirReach Access.

Open Scope Z_scope.
Local Open Scope worker_scope.
Local Open Scope go_scope.

(** ** Routes *)
Section Routing.
Context `{Ed25519} `{surroundings} `{provider} {A : Type}.
Notation handler := (request -> W door (reply A)).

(** *** internal/corsmw: the headers that are set, and the answer *)
Definition allowed_origins (l : list string) : list string := List.filter (fun o => negb (String.eqb o "")) (map TrimSpace l).
Definition cors_headers (origin : string) : list (string * string) := [
  ("Access-Control-Allow-Origin", origin); ("Vary", "Origin");
  ("Access-Control-Allow-Methods", "GET, POST, PUT, PATCH, DELETE, OPTIONS");
  ("Access-Control-Allow-Headers", "Authorization, Content-Type, X-Api-Key, Anthropic-Version, Anthropic-Beta") ]%string.
Definition answer : Type := (list (string * string) * reply A)%type.
Definition cors (allowed : list string) (next : handler) (r : request) : W door answer :=
  let origin := h_Header r "Origin" in
  let headers := if negb (String.eqb origin "") && bool_decide (origin ∈ allowed_origins allowed) then cors_headers origin else [] in
  if String.eqb (h_Method r) "OPTIONS" then wret (headers, WriteHeader 204)
  else let* a := next r in wret (headers, a).
Definition plain (next : handler) (r : request) : W door answer := let* a := next r in wret ([], a).

(** *** net/http's ServeMux on the patterns that are registered

    A path is the list of what stands between its slashes: ["v1"; "services"] is
    /v1/services, and a last empty text a slash at the end.  A pattern that ends in a slash
    takes every path below it. *)
Inductive segment := Lit (s : string) | Wild | Below.
Record route := mkRoute { rt_Method : option string; rt_Path : list segment; rt_Handler : request -> W door answer }.
Fixpoint match_path (p : list segment) (path : list string) : bool :=
  match p, path with
  | [], [] => true
  | [Below], _ :: _ => true
  | Lit s :: p, x :: path => String.eqb s x && match_path p path
  | Wild :: p, x :: path => negb (String.eqb x "") && match_path p path
  | _, _ => false
  end.
(** GET also takes HEAD. *)
Definition match_method (m : option string) (method : string) : bool :=
  match m with None => true | Some m => String.eqb m method || (String.eqb m "GET" && String.eqb method "HEAD") end.
Definition matches (method : string) (path : list string) (t : route) : bool :=
  match_method (rt_Method t) method && match_path (rt_Path t) path.
(** A clean path has no empty, dot or dot-dot part before its end. *)
Fixpoint clean_path (path : list string) : bool :=
  match path with
  | [] => true
  | [x] => negb (existsb (String.eqb x) ["."; ".."]%string)
  | x :: rest => negb (existsb (String.eqb x) [""; "."; ".."]%string) && clean_path rest
  end.
(** The route of a request: the routes are listed with the catch-all last, and of the others
    no two match one request. *)
Definition serve (routes : list route) (path : list string) (r : request) : W door answer :=
  if negb (clean_path path) then wret ([], WriteHeader 301) else
  match List.find (matches (h_Method r) path) routes with
  | Some t =>
    if match rt_Path t with [Below] => existsb (fun t' => bool_decide (rt_Method t' = None) && match rt_Path t' with
           | [Lit s; Below] => bool_decide (path = [s]) | _ => false end) routes | _ => false end
    then wret ([], WriteHeader 301)    (* the same path with a slash is registered *)
    else rt_Handler t r
  | None => wret ([], http_error 404 "404 page not found")
  end.

(** *** NewWithBillingOpts: the planes that are given *)
Record planes := mkPlanes {
  keyMgmt : option (request -> W door answer);
  internalACLv1 : option handler; internalACLv2 : option handler; nodeChallenge : option handler; nodeIssue : option handler;
  pricing : option handler; pricingChallenge : option handler; pricingIssue : option handler;
  linkChallenge : option handler; linkIssue : option handler;
  solRPC : option handler; leaderboard : option handler; catalog : option handler;
  proxy : handler; billingGate : option handler }.
Definition given {B} (o : option B) (f : B -> route) : list route := match o with Some h => [f h] | None => [] end.
Definition exact (method : option string) (path : list string) (h : request -> W door answer) : route := mkRoute method (map Lit path) h.
Definition NewWithBillingOpts (v : ValidatorConfig) (enforceAccount : bool) (corsOrigins : list string) (p : planes) : list route :=
  let c := cors corsOrigins in
  let forward := default (proxy p) (billingGate p) in
  [exact None ["healthz"]%string (fun _ => wret ([], WriteHeader 200))] ++
  given (keyMgmt p) (mkRoute None [Lit "manage"; Below]%string) ++
  given (internalACLv1 p) (fun h => exact None ["internal"; "acl"; "evaluate"]%string (plain h)) ++
  given (internalACLv2 p) (fun h => exact None ["internal"; "acl"; "evaluate-v2"]%string (plain h)) ++
  given (nodeChallenge p) (fun h => exact None ["internal"; "node-credentials"; "challenges"]%string (plain h)) ++
  given (nodeIssue p) (fun h => exact None ["internal"; "node-credentials"]%string (plain h)) ++
  given (pricing p) (fun h => exact None ["internal"; "pricing"]%string (plain h)) ++
  given (pricingChallenge p) (fun h => exact None ["internal"; "pricing"; "challenges"]%string (plain h)) ++
  given (pricingIssue p) (fun h => exact None ["internal"; "pricing"; "issue"]%string (plain h)) ++
  given (linkChallenge p) (fun h => exact None ["internal"; "instances"; "link"; "challenges"]%string (plain h)) ++
  given (linkIssue p) (fun h => exact None ["internal"; "instances"; "link"]%string (plain h)) ++
  given (solRPC p) (fun h => exact None ["solana-rpc"]%string (c h)) ++
  given (leaderboard p) (fun h => exact (Some "GET") ["v1"; "leaderboard"]%string (c h)) ++
  given (catalog p) (fun h => exact (Some "GET") ["v1"; "services"]%string (c h)) ++
  given (catalog p) (fun h => mkRoute (Some "GET"%string) [Lit "v1"; Lit "service"; Wild; Lit "v1"; Lit "models"]%string
    (c (auth_Middleware v enforceAccount h))) ++
  [mkRoute None [Below] (c (auth_Middleware v enforceAccount forward))].

(** *** manageapi.Router: a name, its subtree, and the one middleware before all of them *)
Record management := mkManagement {
  mg_keys : handler; mg_deployKeys : option handler; mg_wallets : option handler; mg_instances : option handler;
  mg_regions : option handler; mg_faucet : option handler; mg_billing : option handler }.
Definition managed (path : list string) (m : management) : option handler :=
  match path with
  | "manage"%string :: name :: _ =>
    if String.eqb name "keys" then Some (mg_keys m)
    else if String.eqb name "deploy-keys" then mg_deployKeys m
    else if String.eqb name "wallets" then mg_wallets m
    else if String.eqb name "instances" then mg_instances m
    else if String.eqb name "regions" then mg_regions m
    else if String.eqb name "faucet" then mg_faucet m
    else if String.eqb name "billing" then mg_billing m
    else None
  | _ => None
  end.
Definition Router (m : management) (v : NeonVerifier) (corsOrigins : list string) (path : list string) (r : request) : W door answer :=
  cors corsOrigins (principal_Middleware v true (fun _ r =>
    match managed path m with Some h => h r | None => wret (http_error 404 "404 page not found") end)) r.
End Routing.

(** ** internal/askpublish *)
Module AskPublish.
Definition challengePath : string := "/internal/pricing/challenges".
Definition issuePath : string := "/internal/pricing/issue".
Definition publishPath : string := "/internal/pricing".
Record challengeResponse := mkChallenge { cr_ChallengeID : string; cr_Nonce : string; cr_Message : string }.
Record publishResponse := mkPublished { pr_Revision : Z; pr_ExpiresAt : time }.
(** Members that are decoded and not looked at are left out. *)
Definition dec_challengeResponse : decoder challengeResponse := dec_struct [
  fld "challenge_id" cr_ChallengeID (fun v c => mkChallenge v (cr_Nonce c) (cr_Message c)) dec_string;
  fld "nonce" cr_Nonce (fun v c => mkChallenge (cr_ChallengeID c) v (cr_Message c)) dec_string;
  fld "message" cr_Message (fun v c => mkChallenge (cr_ChallengeID c) (cr_Nonce c) v) dec_string ]%string.
Definition dec_issueResponse : decoder string := dec_struct [ ("token"%string, dec_string) ].
Definition dec_publishResponse : decoder publishResponse := dec_struct [
  fld "revision" pr_Revision (fun v c => mkPublished v (pr_ExpiresAt c)) dec_int64;
  fld "expires_at" pr_ExpiresAt (fun v c => mkPublished (pr_Revision c) v) dec_time ]%string.

(** A request, with its bearer token, and the response of the exchange: a failure, or a
    status and a body. *)
Inductive posted := Fields (l : list (string * string)) | Asks (l : list Ask).
Definition transport : Type := string -> string -> posted -> res (Z * chars).
Definition postJSON (send : transport) (path token : string) (body : posted) : res chars :=
  match send path token body with
  | Err e => Err e
  | Ok (status, data) =>
    if (status <? 200) || (300 <=? status) then
      Err (if status =? 401 then Errorf "%s: 401 unauthorized (control token rejected)" else Errorf "%s: %d %s")
    else Ok data
  end.

(** The node's key, of libp2p: its marshalled public key, its peer id, and its signatures. *)
Record PrivKey := mkPrivKey { pk_public : res bytes; pk_peerID : res string; pk_Sign : bytes -> res bytes }.
Definition or_wrap {B} (fmt : string) (r : res B) : res B := match r with Ok x => Ok x | Err e => Err (Wrapf fmt e) end.
Definition Publish (send : transport) (controlToken : string) (priv : option PrivKey) (asks : list Ask) : res publishResponse :=
  match priv with
  | None => Err (Errorf "askpublish: nil node key")
  | Some key =>
    let? pubRaw := or_wrap "askpublish: marshal public key: %w" (pk_public key) in
    let? peerID := or_wrap "askpublish: derive peer id: %w" (pk_peerID key) in
    let? raw := or_wrap "askpublish: challenge: %w" (postJSON send challengePath controlToken (Fields [("peer_id", peerID)]%string)) in
    let? ch := or_wrap "askpublish: challenge response: %w" (Unmarshal dec_challengeResponse (mkChallenge "" "" "") (parse raw)) in
    if String.eqb (cr_ChallengeID ch) "" || String.eqb (cr_Nonce ch) "" || String.eqb (cr_Message ch) ""
    then Err (Errorf "askpublish: incomplete challenge response") else
    let? sig := or_wrap "askpublish: sign challenge: %w" (pk_Sign key (bytes_of_string (cr_Message ch))) in
    let? raw := or_wrap "askpublish: issue credential: %w" (postJSON send issuePath controlToken (Fields [
      ("challenge_id", cr_ChallengeID ch); ("peer_id", peerID); ("nonce", cr_Nonce ch);
      ("public_key", Base64.EncodeToString pubRaw); ("signature", Base64.EncodeToString sig)]%string)) in
    let? token := or_wrap "askpublish: issue response: %w" (Unmarshal dec_issueResponse ""%string (parse raw)) in
    if String.eqb token "" then Err (Errorf "askpublish: issue response carried no token") else
    let? raw := or_wrap "askpublish: publish asks: %w" (postJSON send publishPath token (Asks asks)) in
    or_wrap "askpublish: publish response: %w" (Unmarshal dec_publishResponse (mkPublished 0 zeroTime) (parse raw))
  end.

(** *** The asks file *)
Definition dec_asksFile : decoder (list Ask) := dec_struct [ ("asks"%string, dec_slice zeroAsk (dec_struct ask_fields)) ].
Definition without_peer (a : Ask) : Ask :=
  mkAsk "" (ak_Service a) (ak_Model a) (ak_InputPerMillion a) (ak_CachedInputPerMillion a) (ak_OutputPerMillion a)
    (ak_Revision a) (ak_ExpiresAt a) (ak_UpdatedAt a).
Fixpoint check_file (seen : gset string) (l : list Ask) : res (list Ask) :=
  match l with
  | [] => Ok []
  | a :: rest =>
    let a := without_peer a in
    if String.eqb (ak_Service a) "" || String.eqb (ak_Model a) "" then Err (Errorf "askpublish: asks[%d]: service and model are required")
    else if bool_decide (askKey a ∈ seen) then Err (Errorf "askpublish: asks[%d]: duplicate (%s, %s)")
    else if (ak_InputPerMillion a <? 0) || (ak_CachedInputPerMillion a <? 0) || (ak_OutputPerMillion a <? 0)
    then Err (Errorf "askpublish: asks[%d]: rates must be non-negative")
    else if (ak_InputPerMillion a >? MaxBaseRate) || (ak_CachedInputPerMillion a >? MaxBaseRate) || (ak_OutputPerMillion a >? MaxBaseRate)
    then Err (Errorf "askpublish: asks[%d]: rate exceeds bound %d")
    else let? more := check_file ({[askKey a]} ∪ seen) rest in Ok (a :: more)
  end.
Definition LoadAsksFile (raw : chars) : res (list Ask) :=
  match Unmarshal dec_asksFile [] (parse raw) with
  | Err e => Err (Wrapf "askpublish: asks file: %w" e)
  | Ok l => check_file ∅ l
  end.
End AskPublish.

(** ** internal/config: Load

    A group of settings at a time, in the order in which [Load] reads and checks them. *)
Module Config.
Record url := mkURL { u_Scheme : string; u_Host : string }.
Inductive BillingMode := BillingOff | BillingObserve | BillingEnforce.
Definition ParseBool (s : string) : option bool :=
  if existsb (String.eqb s) ["1"; "t"; "T"; "TRUE"; "true"; "True"]%string then Some true
  else if existsb (String.eqb s) ["0"; "f"; "F"; "FALSE"; "false"; "False"]%string then Some false else None.
(** [strings.Split] at commas, the parts trimmed, the empty ones left out. *)
Definition comma_list (raw : string) : list string :=
  List.filter (fun s => negb (String.eqb s "")) (map (fun l => TrimSpace (text_of l)) (split_on "," (chars_of raw))).
(** [strings.Cut] at the first colon. *)
Definition cut_colon (s : string) : option (string * string) :=
  match split_on ":" (chars_of s) with
  | a :: (_ :: _) => Some (text_of a, text_of (drop (S (length a)) (chars_of s)))
  | _ => None
  end.

Record base := mkBase { cf_UpstreamURL : url; cf_DatabaseURL : string; cf_CacheTTL : Z; cf_CacheNegTTL : Z; cf_JanitorEvery : Z }.
Record limits := mkLimits {
  cf_JWKSCacheTTL : Z; cf_MaxKeysPerUser : Z; cf_MaxDeployKeysPerUser : Z; cf_IdentityMaxAge : Z; cf_OwnershipMaxAge : Z;
  cf_DecisionCacheTTL : Z; cf_EvaluatorRateLimitBurst : Z; cf_InternalControlToken : string; cf_InternalACLEnabled : bool;
  cf_NeonAuthJWKSURL : string; cf_NeonAuthIssuer : string; cf_CORSAllowedOrigins : list string; cf_KeyMgmtEnabled : bool }.
Record node_keys := mkNodeKeys {
  cf_NodeCredentialIssuer : string; cf_NodeCredentialSigningKID : string; cf_NodeCredentialSigningKey : option bytes;
  cf_NodeCredentialVerifyKeys : gmap string bytes; cf_NodeCredentialEnabled : bool }.
Record faucet := mkFaucetConfig {
  cf_FaucetEnabled : bool; cf_FaucetRPCURL : string; cf_FaucetMint : string; cf_FaucetTokenProgram : string;
  cf_FaucetWalletKey : option bytes; cf_FaucetAmountRaw : Z; cf_FaucetDecimals : Z }.
Record perf := mkPerf {
  cf_ClickHouseURL : option url; cf_ClickHouseDatabase : string; cf_TinybirdHost : url; cf_TinybirdAppendToken : string;
  cf_TinybirdLeaderboard : string; cf_TinybirdUsageToken : string; cf_PerfFlushInterval : Z; cf_PerfBatchSize : Z; cf_PerfQueueSize : Z;
  cf_PerfPeerCacheTTL : Z; cf_LeaderboardCacheTTL : Z }.
Record billing := mkBillingConfig {
  cf_BillingMode : BillingMode; cf_BillingOutputMax : Z; cf_BillingFeeBps : Z; cf_BillingSweepInterval : Z;
  cf_BillingSweepAge : Z; cf_BillingRequirePricedPeer : bool }.
Record deposits := mkDeposits {
  cf_BillingTreasuryWallet : string; cf_BillingSolanaRPC : string; cf_SolRPCProxyUpstream : string; cf_SolRPCProxyMethods : list string;
  cf_SolRPCProxyBurst : Z; cf_BillingDepositMint : string; cf_BillingDepositTokenProgram : string;
  cf_BillingDepositPollInterval : Z; cf_BillingDepositDecimals : Z }.
Record treasury := mkTreasury { cf_BillingTreasuryKeypair : option bytes; cf_BillingWithdrawPollInterval : Z; cf_BillingWithdrawBlockhashMaxAge : Z }.
Record settlement := mkSettlement {
  cf_BillingSettlementAuthority : string; cf_BillingAllowanceRefresh : Z; cf_BillingSettlementKeypair : option bytes;
  cf_BillingSettlementPollInterval : Z }.
Record Config := mkConfig {
  cf_base : base; cf_limits : limits; cf_node : node_keys; cf_faucet : faucet; cf_perf : perf; cf_billing : billing;
  cf_deposits : deposits; cf_treasury : treasury; cf_settlement : settlement; cf_ListenAddr : string }.

(** ed25519: the second half of a private key is its public key. *)
Definition public_of (key : bytes) : bytes := drop 32 key.

Section Load.
Context `{Ed25519} {F : Type}.
Context (ParseFloat : string -> res F) (negative : F -> bool) (ParseDuration : string -> res Z) (ParseURL : string -> res url).
Context (Getenv : string -> string).

Definition bad {B} (text : string) : res B := Err (Errorf text).
Definition stringEnv (key def : string) : string := if String.eqb (Getenv key) "" then def else Getenv key.
Definition boolEnv (key : string) (def : bool) : res bool :=
  if String.eqb (Getenv key) "" then Ok def else
  match ParseBool (Getenv key) with Some b => Ok b | None => bad "%s must be a boolean, got %q" end.
Definition positive (r : res Z) : res Z :=
  match r with
  | Err e => Err (Wrapf "%s is invalid: %w" e)
  | Ok n => if n <=? 0 then bad "%s must be positive, got %q" else Ok n
  end.
Definition durationEnv (key : string) (def : Z) : res Z :=
  if String.eqb (Getenv key) "" then Ok def else positive (ParseDuration (Getenv key)).
Definition intEnv (key : string) (def : Z) : res Z :=
  if String.eqb (Getenv key) "" then Ok def else positive (ParseInt (Getenv key)).
Definition uint64Env (key : string) (def : Z) : res Z :=
  if String.eqb (Getenv key) "" then Ok def else positive (ParseUint (Getenv key)).
(** The number itself only tunes a token bucket. *)
Definition floatEnv (key : string) : res unit :=
  if String.eqb (Getenv key) "" then Ok tt else
  match ParseFloat (Getenv key) with
  | Err e => Err (Wrapf "%s is invalid: %w" e)
  | Ok f => if negative f then bad "%s must be non-negative, got %q" else Ok tt
  end.
Definition levelEnv (key : string) : res unit :=
  if String.eqb (Getenv key) "" || existsb (String.eqb (ToLower (Getenv key))) ["debug"; "info"; "warn"; "error"]%string then Ok tt
  else bad "%s must be one of debug|info|warn|error, got %q".
Definition validCHIdentifier (s : string) : bool :=
  let l := chars_of s in
  (0 <? length l)%nat && (length l <=? 64)%nat &&
  forallb (fun c => let z := ascii_Z c in
    ((97 <=? z) && (z <=? 122)) || ((65 <=? z) && (z <=? 90)) || ((48 <=? z) && (z <=? 57)) || (z =? 95)) l.
Definition absolute_url (text : string) (raw : string) : res url :=
  match ParseURL raw with
  | Ok u => if String.eqb (u_Scheme u) "" || String.eqb (u_Host u) "" then bad text else Ok u
  | Err _ => bad text
  end.
(** A secret of at least [n] bytes without blanks around it, when it is set. *)
Definition secret (key : string) (n : nat) : res string :=
  let s := Getenv key in
  if String.eqb s "" then Ok s
  else if negb (String.eqb (TrimSpace s) s) then bad "%s must not contain surrounding whitespace"
  else if (length (chars_of s) <? n)%nat then bad "%s must be at least %d bytes" else Ok s.

Definition load_base : res base :=
  if String.eqb (Getenv "OPENTELA_UPSTREAM_URL") "" then bad "OPENTELA_UPSTREAM_URL is required" else
  let? upstream := (match ParseURL (Getenv "OPENTELA_UPSTREAM_URL") with
    | Err e => Err (Wrapf "OPENTELA_UPSTREAM_URL is invalid: %w" e)
    | Ok u => if String.eqb (u_Scheme u) "" || String.eqb (u_Host u) "" then bad "OPENTELA_UPSTREAM_URL must be an absolute URL, got %q" else Ok u
    end) in
  if String.eqb (Getenv "DATABASE_URL") "" then bad "DATABASE_URL is required" else
  let? cacheTTL := durationEnv "CACHE_TTL" (5 * minute) in
  let? negTTL := durationEnv "CACHE_NEGATIVE_TTL" (30 * second) in
  let? janitor := durationEnv "CACHE_JANITOR_INTERVAL" minute in
  Ok (mkBase upstream (Getenv "DATABASE_URL") cacheTTL negTTL janitor).
Definition check_logging : res unit :=
  let? token := secret "BETTERSTACK_SOURCE_TOKEN" 16 in
  let? level := levelEnv "BETTERSTACK_LOG_LEVEL" in
  let format := ToLower (stringEnv "LOG_FORMAT" "json") in
  if negb (String.eqb format "json") && negb (String.eqb format "text") then bad "LOG_FORMAT must be one of json|text, got %q" else Ok tt.
Definition load_limits : res limits :=
  let? jwksTTL := durationEnv "NEON_AUTH_JWKS_CACHE_TTL" (60 * minute) in
  let? maxKeys := intEnv "MAX_KEYS_PER_USER" 10 in
  let? maxDeployKeys := intEnv "MAX_DEPLOY_KEYS_PER_USER" 20 in
  let? identityMaxAge := durationEnv "IDENTITY_MAX_AGE" (30 * 24 * 60 * minute) in
  let? ownershipMaxAge := durationEnv "OWNERSHIP_MAX_AGE" (30 * second) in
  let? decisionTTL := durationEnv "DECISION_CACHE_TTL" (30 * second) in
  let? rps := floatEnv "EVALUATOR_RATE_LIMIT_RPS" in
  let? burst := intEnv "EVALUATOR_RATE_LIMIT_BURST" 100 in
  let? token := secret "INTERNAL_CONTROL_TOKEN" 32 in
  let jwksURL := Getenv "NEON_AUTH_JWKS_URL" in
  let issuer := Getenv "NEON_AUTH_ISSUER" in
  if negb (Bool.eqb (String.eqb jwksURL "") (String.eqb issuer "")) then bad "NEON_AUTH_JWKS_URL and NEON_AUTH_ISSUER must be set together" else
  Ok (mkLimits jwksTTL maxKeys maxDeployKeys identityMaxAge ownershipMaxAge decisionTTL burst token (negb (String.eqb token ""))
    jwksURL issuer (comma_list (Getenv "CORS_ALLOWED_ORIGINS")) (negb (String.eqb jwksURL "") && negb (String.eqb issuer ""))).

Fixpoint verify_keys (l : list string) (m : gmap string bytes) : res (gmap string bytes) :=
  match l with
  | [] => Ok m
  | entry :: rest =>
    match cut_colon entry with
    | None => bad "NODE_CREDENTIAL_VERIFY_KEYS entry %q must be kid:base64"
    | Some (kid, encoded) =>
      if String.eqb kid "" || String.eqb encoded "" then bad "NODE_CREDENTIAL_VERIFY_KEYS entry %q must be kid:base64" else
      match DecodePublicKey encoded with
      | Err e => Err (Wrapf "NODE_CREDENTIAL_VERIFY_KEYS entry %q is invalid: %w" e)
      | Ok pub => verify_keys rest (<[kid := pub]> m)
      end
    end
  end.
(** A private key from a variable, when it is set. *)
Definition keyEnv (text key : string) : res (option bytes) :=
  if String.eqb (Getenv key) "" then Ok None else
  match DecodeSigningKey (Getenv key) with Ok k => Ok (Some k) | Err e => Err (Wrapf text e) end.
Definition load_node (token : string) : res node_keys :=
  let kid := Getenv "NODE_CREDENTIAL_SIGNING_KID" in
  let? key := keyEnv "NODE_CREDENTIAL_SIGNING_KEY is invalid: %w" "NODE_CREDENTIAL_SIGNING_KEY" in
  let? own := match key with
    | None => Ok ∅
    | Some k => if String.eqb kid "" then bad "NODE_CREDENTIAL_SIGNING_KID is required when NODE_CREDENTIAL_SIGNING_KEY is set"
                else Ok {[kid := public_of k]}
    end in
  let? keys := verify_keys (comma_list (Getenv "NODE_CREDENTIAL_VERIFY_KEYS")) own in
  let signs := match key with Some k => bool_decide (length k = PrivateKeySize) | None => false end in
  if signs && String.eqb token "" then bad "INTERNAL_CONTROL_TOKEN is required when NODE_CREDENTIAL_SIGNING_KEY is set"
  else Ok (mkNodeKeys (stringEnv "NODE_CREDENTIAL_ISSUER" "api.opentela.ai") kid key keys (negb (bool_decide (keys = ∅)) && signs)).

Definition load_faucet : res faucet :=
  let raw := Getenv "FAUCET_WALLET_KEYPAIR" in
  let mint := Getenv "FAUCET_MINT" in
  let rpc := Getenv "FAUCET_SOLANA_RPC_URL" in
  let? amount := uint64Env "FAUCET_AMOUNT" 1000000 in
  let? decimals := intEnv "FAUCET_DECIMALS" 6 in
  let any := negb (String.eqb raw "") || negb (String.eqb mint "") || negb (String.eqb rpc "") in
  if any && String.eqb raw "" then bad "FAUCET_WALLET_KEYPAIR is required when the faucet is configured"
  else if any && String.eqb mint "" then bad "FAUCET_MINT is required when the faucet is configured"
  else if any && String.eqb rpc "" then bad "FAUCET_SOLANA_RPC_URL is required when the faucet is configured" else
  let? key := keyEnv "FAUCET_WALLET_KEYPAIR is invalid: %w" "FAUCET_WALLET_KEYPAIR" in
  Ok (mkFaucetConfig (bool_decide (is_Some key) && negb (String.eqb mint "") && negb (String.eqb rpc "")) rpc mint
    (stringEnv "FAUCET_TOKEN_PROGRAM" "TokenkegQfeZyiNwAJbNbGKPFXCWuBvf9Ss623VQ5DA") key amount decimals).

Definition load_perf : res perf :=
  let? clickHouse := (if String.eqb (Getenv "CLICKHOUSE_URL") "" then Ok None else
    let? u := absolute_url "CLICKHOUSE_URL must be an absolute URL (e.g. http://clickhouse:8123)" (Getenv "CLICKHOUSE_URL") in Ok (Some u)) in
  let database := stringEnv "CLICKHOUSE_DATABASE" "opentela" in
  if negb (validCHIdentifier database) then bad "CLICKHOUSE_DATABASE must match [A-Za-z0-9_]{1,64}"
  else if bool_decide (clickHouse = None) && (negb (String.eqb (Getenv "CLICKHOUSE_USERNAME") "") || negb (String.eqb (Getenv "CLICKHOUSE_PASSWORD") ""))
  then bad "CLICKHOUSE_USERNAME and CLICKHOUSE_PASSWORD require CLICKHOUSE_URL" else
  let? host := absolute_url "TINYBIRD_HOST must be an absolute URL (e.g. https://api.tinybird.co)" (stringEnv "TINYBIRD_HOST" "https://api.tinybird.co") in
  let append := Getenv "TINYBIRD_APPEND_TOKEN" in
  let read := Getenv "TINYBIRD_LEADERBOARD_TOKEN" in
  let usage := Getenv "TINYBIRD_USAGE_TOKEN" in
  if negb (Bool.eqb (String.eqb append "") (String.eqb read "")) then bad "TINYBIRD_APPEND_TOKEN and TINYBIRD_LEADERBOARD_TOKEN must be set together"
  else if negb (String.eqb usage "") && String.eqb append "" then bad "TINYBIRD_USAGE_TOKEN requires TINYBIRD_APPEND_TOKEN and TINYBIRD_LEADERBOARD_TOKEN"
  else if negb (String.eqb append "") && bool_decide (is_Some clickHouse) then bad "CLICKHOUSE_URL and TINYBIRD_APPEND_TOKEN are mutually exclusive" else
  let? flush := durationEnv "PERF_FLUSH_INTERVAL" (5 * second) in
  let? batch := intEnv "PERF_BATCH_SIZE" 1024 in
  let? queue := intEnv "PERF_QUEUE_SIZE" 16384 in
  let? peerTTL := durationEnv "PERF_PEER_CACHE_TTL" (5 * minute) in
  let? boardTTL := durationEnv "LEADERBOARD_CACHE_TTL" minute in
  Ok (mkPerf clickHouse database host append read usage flush batch queue peerTTL boardTTL).

Definition parse_mode (mode : string) : res BillingMode :=
  if String.eqb mode "off" then Ok BillingOff else if String.eqb mode "observe" then Ok BillingObserve
  else if String.eqb mode "enforce" then Ok BillingEnforce else bad "BILLING_MODE must be one of off|observe|enforce, got %q".
Definition load_billing : res billing :=
  let? mode := parse_mode (stringEnv "BILLING_MODE" "off") in
  let? outputMax := intEnv "BILLING_OUTPUT_TOKEN_MAX" 0 in
  let? feeBps := intEnv "BILLING_FEE_BPS" 0 in
  if (feeBps <? 0) || (feeBps >? 10000) then bad "BILLING_FEE_BPS must be 0–10000, got %d" else
  let? sweepInterval := durationEnv "BILLING_SWEEP_INTERVAL" (2 * minute) in
  let? sweepAge := durationEnv "BILLING_SWEEP_AGE" (15 * minute) in
  let? priced := boolEnv "BILLING_REQUIRE_PRICED_PEER" false in
  Ok (mkBillingConfig mode outputMax feeBps sweepInterval sweepAge priced).

Definition load_deposits (f : faucet) : res deposits :=
  let wallet := Getenv "BILLING_TREASURY_WALLET" in
  let rpc := stringEnv "BILLING_SOLANA_RPC_URL" (cf_FaucetRPCURL f) in
  let upstream := stringEnv "SOLANA_RPC_PROXY_UPSTREAM" rpc in
  let methods := comma_list (TrimSpace (Getenv "SOLANA_RPC_PROXY_METHODS")) in
  let? rps := floatEnv "SOLANA_RPC_PROXY_RATE_RPS" in
  let? burst := intEnv "SOLANA_RPC_PROXY_BURST" 40 in
  let mint := stringEnv "BILLING_DEPOSIT_MINT" (cf_FaucetMint f) in
  let? poll := durationEnv "BILLING_DEPOSIT_POLL_INTERVAL" (30 * second) in
  let? decimals := intEnv "BILLING_DEPOSIT_DECIMALS" (cf_FaucetDecimals f) in
  let on := negb (String.eqb wallet "") in
  if on && String.eqb rpc "" then bad "BILLING_TREASURY_WALLET set but BILLING_SOLANA_RPC_URL is empty (and FAUCET_SOLANA_RPC_URL unset)"
  else if on && String.eqb mint "" then bad "BILLING_TREASURY_WALLET set but BILLING_DEPOSIT_MINT is empty (and FAUCET_MINT unset)"
  else if on && ((decimals <? 0) || (decimals >? 18)) then bad "BILLING_DEPOSIT_DECIMALS must be 0–18, got %d"
  else Ok (mkDeposits wallet rpc upstream methods burst mint (stringEnv "BILLING_DEPOSIT_TOKEN_PROGRAM" (cf_FaucetTokenProgram f)) poll decimals).

(** A private key that must be the one of an address that is configured too. *)
Definition matching_key (invalid unset mismatch key address : string) : res (option bytes) :=
  let? k := keyEnv invalid key in
  match k with
  | None => Ok None
  | Some k =>
    if String.eqb address "" then bad unset
    else if negb (String.eqb (EncodeBase58 (public_of k)) address) then bad mismatch else Ok (Some k)
  end.
Definition load_treasury (wallet : string) : res treasury :=
  let? key := matching_key "BILLING_TREASURY_KEYPAIR is invalid: %w" "BILLING_TREASURY_KEYPAIR set but BILLING_TREASURY_WALLET is empty"
    "BILLING_TREASURY_KEYPAIR does not match BILLING_TREASURY_WALLET (got %s, want %s)" "BILLING_TREASURY_KEYPAIR" wallet in
  let? poll := durationEnv "BILLING_WITHDRAW_POLL_INTERVAL" (5 * second) in
  let? maxAge := durationEnv "BILLING_WITHDRAW_BLOCKHASH_MAX_AGE" (90 * second) in
  Ok (mkTreasury key poll maxAge).
Definition load_settlement : res settlement :=
  let authority := Getenv "BILLING_SETTLEMENT_AUTHORITY" in
  let valid := match DecodeBase58 authority 64 with Ok k => bool_decide (length k = PublicKeySize) | Err _ => false end in
  if negb (String.eqb authority "") && negb valid then bad "BILLING_SETTLEMENT_AUTHORITY is not a valid base58 ed25519 pubkey: %q" else
  let? refresh := durationEnv "BILLING_ALLOWANCE_REFRESH" (60 * second) in
  if negb (String.eqb authority "") && (refresh <=? 0) then bad "BILLING_ALLOWANCE_REFRESH must be positive, got %s" else
  let? key := matching_key "BILLING_SETTLEMENT_KEYPAIR is invalid: %w" "BILLING_SETTLEMENT_KEYPAIR set but BILLING_SETTLEMENT_AUTHORITY is empty"
    "BILLING_SETTLEMENT_KEYPAIR does not match BILLING_SETTLEMENT_AUTHORITY (got %s, want %s)" "BILLING_SETTLEMENT_KEYPAIR" authority in
  let? poll := durationEnv "BILLING_SETTLEMENT_POLL_INTERVAL" (10 * second) in
  if bool_decide (is_Some key) && (poll <=? 0) then bad "BILLING_SETTLEMENT_POLL_INTERVAL must be positive, got %s"
  else Ok (mkSettlement authority refresh key poll).
Definition listenAddr : string :=
  let port := Getenv "PORT" in
  if String.eqb port "" then stringEnv "LISTEN_ADDR" ":8080"
  else ":" +:+ match chars_of port with ":"%char :: r => text_of r | _ => port end.

Definition Load : res Config :=
  let? b := load_base in
  let? _ := check_logging in
  let? l := load_limits in
  let? n := load_node (cf_InternalControlToken l) in
  let? f := load_faucet in
  let? p := load_perf in
  let? m := load_billing in
  let? d := load_deposits f in
  let? t := load_treasury (cf_BillingTreasuryWallet d) in
  let? s := load_settlement in
  Ok (mkConfig b l n f p m d t s listenAddr).
End Load.
End Config.

(** ** The front doors *)
Section Doors.
Context `{Ed25519} `{surroundings} `{provider} {A : Type}.
Notation handler := (request -> W door (reply A)).

(** A request that the API-key middleware lets by, and one that the session's lets by. *)
Definition key_accepted (v : ValidatorConfig) (r : request) (o : outside) (w : world door) : Prop :=
  exists token account, credential r = Some token /\ fst (Valid v token o w) = Some (Ok (account, true)).
Definition session_accepted (v : NeonVerifier) (r : request) (o : outside) (w : world door) : Prop :=
  exists token c, auth_bearer (h_Header r "Authorization") = Some token /\ fst (neon_Verify v token o w) = Some (Ok c).
Lemma auth_refuses v e (next next' : handler) r o w : ~ key_accepted v r o w ->
  auth_Middleware v e next r o w = auth_Middleware v e next' r o w.
Proof.
  intros Hn. unfold auth_Middleware. destruct (credential r) as [token|] eqn:Ec; [|done]. unfold wattempt.
  destruct (Valid v token o w) as [[[[account valid]|e0]|] w'] eqn:Ev; [|done..]. destruct valid; [|done].
  destruct Hn. exists token, account. by rewrite Ev.
Qed.
Lemma principal_refuses v b (next next' : IdentityInfo -> handler) r o w : ~ session_accepted v r o w ->
  principal_Middleware v b next r o w = principal_Middleware v b next' r o w.
Proof.
  intros Hn. unfold principal_Middleware. destruct (auth_bearer _) as [token|] eqn:Ec; [|done]. unfold wattempt at 1 3.
  destruct (neon_Verify v token o w) as [[[c|e0]|] w'] eqn:Ev; [|done..]. destruct Hn. exists token, c. by rewrite Ev.
Qed.
Lemma cors_same origins (next next' : handler) r o w : next r o w = next' r o w -> cors origins next r o w = cors origins next' r o w.
Proof. intros Hn. unfold cors. destruct (String.eqb (h_Method r) "OPTIONS"); [done|]. unfold wbind. by rewrite Hn. Qed.

(** The planes of [p] with other handlers behind the middlewares. *)
Definition behind (p : planes (A := A)) (manage : request -> W door (answer (A := A))) (forward : handler) (gate : option handler) (models : handler) : planes (A := A) :=
  mkPlanes (Some manage) (internalACLv1 p) (internalACLv2 p) (nodeChallenge p) (nodeIssue p) (pricing p) (pricingChallenge p)
    (pricingIssue p) (linkChallenge p) (linkIssue p) (solRPC p) (leaderboard p) (option_map (fun _ => models) (catalog p)) forward gate.

Definition alike (path : list string) (r : request) (o : outside) (w : world door) (t t' : route (A := A)) : Prop :=
  rt_Method t = rt_Method t' /\ rt_Path t = rt_Path t' /\
  (matches (h_Method r) path t = true -> rt_Handler t r o w = rt_Handler t' r o w).
Lemma serve_alike path r o w l l' : Forall2 (alike path r o w) l l' -> serve l path r o w = serve l' path r o w.
Proof.
  intros Hl. unfold serve. destruct (negb (clean_path path)); [done|].
  assert (Hx : forall f : option string -> list segment -> bool, existsb (fun t => f (rt_Method t) (rt_Path t)) l = existsb (fun t => f (rt_Method t) (rt_Path t)) l').
  { intros f. induction Hl as [|t t' l l' (K1 & K2 & _) _ IH]; [done|]. cbn. by rewrite K1, K2, IH. }
  specialize (Hx (fun m p => bool_decide (m = None) && match p with [Lit s; Below] => bool_decide (path = [s]) | _ => false end)).
  cbv beta in Hx. rewrite Hx. generalize (existsb (fun t' : route (A := A) => bool_decide (rt_Method t' = None) && match rt_Path t' with [Lit s; Below] => bool_decide (path = [s]) | _ => false end) l').
  intros slash. clear Hx. induction Hl as [|t t' l l' (K1 & K2 & K3) _ IH]; [done|]. cbn [List.find].
  assert (Hm : matches (h_Method r) path t' = matches (h_Method r) path t) by (unfold matches; by rewrite K1, K2).
  rewrite Hm. destruct (matches _ path t); [|apply IH]. rewrite K2.
  match goal with |- (if ?b then _ else _) _ _ = _ => destruct b end; [done|]. by apply K3.
Qed.
Lemma alike_refl path r o w (t : route (A := A)) : alike path r o w t t.
Proof. done. Qed.
Lemma given_alike {B} path r o w (x : option B) f : Forall2 (alike path r o w) (given x f) (given x f).
Proof. destruct x; repeat constructor. Qed.

Lemma match_lits l path : match_path (map Lit l) path = true -> path = l.
Proof.
  revert path. induction l as [|s l IH]; intros [|x path]; cbn; try done.
  rewrite andb_true_iff, String.eqb_eq. intros [-> Hl]. f_equal. by apply IH.
Qed.

(** C24: Behind the two middlewares nothing is reached without their leave: a request that
    has neither an API key that is accepted nor a session that is accepted is answered in
    the same way, with the same effects, whatever the handlers behind them are, the proxy,
    the billing gate, the model lists and every management handler.  The one exception is
    the path of the public catalogue, which the model lists share their handler with. *)
Theorem doors_are_guarded (v : ValidatorConfig) (enforce : bool) (nv : NeonVerifier) (origins : list string) (p : planes (A := A))
    (path : list string) (r : request) (o : outside) (w : world door) (mg mg' : management (A := A)) (f f' : handler) (g g' : option handler) (c c' : handler) :
  ~ key_accepted v r o w -> ~ session_accepted nv r o w -> path <> ["v1"; "services"]%string ->
  serve (NewWithBillingOpts v enforce origins (behind p (Router mg nv origins path) f g c)) path r o w =
  serve (NewWithBillingOpts v enforce origins (behind p (Router mg' nv origins path) f' g' c')) path r o w.
Proof.
  intros Hk Hs Hp. apply serve_alike. unfold NewWithBillingOpts, behind.
  cbn [keyMgmt internalACLv1 internalACLv2 nodeChallenge nodeIssue pricing pricingChallenge pricingIssue linkChallenge linkIssue solRPC leaderboard catalog proxy billingGate].
  apply Forall2_app; [repeat constructor|]. apply Forall2_app.
  { cbn. constructor; [|constructor]. split; [done|]. split; [done|]. intros _. cbn. unfold Router. apply cors_same. by apply principal_refuses. }
  do 11 (apply Forall2_app; [apply given_alike|]).
  apply Forall2_app.
  { destruct (catalog p); cbn; [|constructor]. constructor; [|constructor]. split; [done|]. split; [done|].
    unfold matches. rewrite andb_true_iff. intros [_ Hm]. exfalso. apply Hp. by apply match_lits. }
  apply Forall2_app.
  { destruct (catalog p); cbn; [|constructor]. constructor; [|constructor]. split; [done|]. split; [done|]. intros _. cbn.
    apply cors_same. by apply auth_refuses. }
  constructor; [|constructor]. split; [done|]. split; [done|]. intros _. cbn. apply cors_same. by apply auth_refuses.
Qed.

(** The patterns before the catch-all exclude each other: their order does not matter. *)
Fixpoint overlap (p q : list segment) : bool :=
  match p, q with
  | [], [] => true
  | [Below], _ :: _ => true
  | _ :: _, [Below] => true
  | Lit a :: p, Lit b :: q => String.eqb a b && overlap p q
  | Lit _ :: p, Wild :: q | Wild :: p, Lit _ :: q | Wild :: p, Wild :: q => overlap p q
  | _, _ => false
  end.
Lemma overlap_complete p : forall q path, match_path p path = true -> match_path q path = true -> overlap p q = true.
Proof.
  assert (Hb : forall s p, match_path (Below :: s :: p) = fun _ => false) by done.
  induction p as [|s p IH]; intros [|t q] [|x path] K1 K2; try done; [by destruct t, q|by destruct s, p|].
  destruct s as [a| |], t as [b| |].
  1,2,4,5: cbn in K1, K2; apply andb_prop in K1 as [E1 K1]; apply andb_prop in K2 as [E2 K2]; cbn; rewrite (IH q path K1 K2), ?andb_true_r; try done.
  1: apply String.eqb_eq in E1, E2; subst; apply String.eqb_refl.
  all: destruct p, q; try done; by rewrite ?Hb in *.
Qed.
Fixpoint pairwise_apart (l : list (list segment)) : bool :=
  match l with [] => true | p :: r => forallb (fun q => negb (overlap p q)) r && pairwise_apart r end.
End Doors.

(** ** The publisher and the server on the same asks *)
Module AskPublishSpec.
Import AskPublish.
Definition at_bound (a : Ask) : Prop :=
  ak_InputPerMillion a = MaxBaseRate \/ ak_CachedInputPerMillion a = MaxBaseRate \/ ak_OutputPerMillion a = MaxBaseRate.
Lemma check_file_valid l : forall seen l' seenl, check_file seen l = Ok l' -> (forall k, k ∈ seenl -> k ∈ seen) ->
  (forall a, a ∈ l' -> ~ at_bound a) -> validateAskList seenl l' = None.
Proof.
  induction l as [|a l IH]; intros seen l' seenl; cbn [check_file]; [by intros [= <-]|]. set (b := without_peer a).
  destruct (String.eqb (ak_Service b) "" || String.eqb (ak_Model b) "") eqn:E1; [done|]. case_bool_decide as E2; [done|].
  destruct ((ak_InputPerMillion b <? 0) || (ak_CachedInputPerMillion b <? 0) || (ak_OutputPerMillion b <? 0)) eqn:E3; [done|].
  destruct ((ak_InputPerMillion b >? MaxBaseRate) || (ak_CachedInputPerMillion b >? MaxBaseRate) || (ak_OutputPerMillion b >? MaxBaseRate)) eqn:E4; [done|].
  destruct (check_file ({[askKey b]} ∪ seen) l) as [more|e] eqn:Em; [|done]. intros [= <-] Hs Hb. cbn [validateAskList].
  rewrite E1, bool_decide_eq_false_2 by (intros Hk; by apply E2, Hs). rewrite E3.
  assert (Hn : ~ at_bound b) by (apply Hb; left). unfold at_bound in Hn. rewrite !orb_false_iff, !Z.gtb_ltb, !Z.ltb_ge in E4.
  assert (E5 : (ak_InputPerMillion b >=? MaxBaseRate) || (ak_CachedInputPerMillion b >=? MaxBaseRate) || (ak_OutputPerMillion b >=? MaxBaseRate) = false).
  { rewrite !orb_false_iff, !Z.geb_leb, !Z.leb_gt. lia. }
  rewrite E5. apply (IH _ _ _ Em); [|intros x Hx; apply Hb; by right]. intros k Hk. apply elem_of_cons in Hk as [->|Hk]; [apply elem_of_union_l; by apply elem_of_singleton|]. apply elem_of_union_r. by apply Hs.
Qed.

(** What the publisher accepts from its file the server accepts from the publisher: no
    ask of a file that loads is refused by the checks of the store's replacement, unless a
    rate is the bound itself or there are more than 256 of them. *)
Theorem file_asks_are_valid (raw : chars) (l : list Ask) :
  LoadAsksFile raw = Ok l -> (forall a, a ∈ l -> ~ at_bound a) -> Z.of_nat (length l) <= maxAsksPerReplacement -> validateAsks l = None.
Proof.
  unfold LoadAsksFile, validateAsks. destruct (Unmarshal _ _ _) as [asks|e]; [|done]. intros Hl Hb Hn.
  destruct (Z.gtb_spec (Z.of_nat (length l)) maxAsksPerReplacement); [lia|].
  apply (check_file_valid asks ∅ l [] Hl); [|done]. by intros k Hk%elem_of_nil.
Qed.
Definition requoted (s : string) : chars := map (fun c => if Ascii.eqb c "'" then "034"%char else c) (chars_of s).
Definition demo_file (rate : string) : chars := requoted ("{'asks':[{'service':'llm','model':'m','input_per_million':" +:+ rate +:+ "}]}").
Definition demo_loaded (rate : Z) : Ask := mkAsk "" "llm" "m" rate 0 0 0 zeroTime zeroTime.
Lemma file_asks_are_valid_witness :
  LoadAsksFile (demo_file "100") = Ok [demo_loaded 100] /\ validateAsks [demo_loaded 100] = None.
Proof.
  assert (Hl : LoadAsksFile (demo_file "100") = Ok [demo_loaded 100]) by (vm_compute; reflexivity). split; [exact Hl|].
  apply (file_asks_are_valid (demo_file "100") _ Hl); [|vm_compute; discriminate].
  intros a Ha. apply list_elem_of_singleton in Ha as ->. unfold at_bound, demo_loaded, MaxBaseRate. cbn. lia.
Defined.
(** The bound itself passes the publisher's checks and not the store's. *)
Lemma bound_is_refused_later :
  LoadAsksFile (demo_file "1000000000000") = Ok [demo_loaded MaxBaseRate] /\
  validateAsks [demo_loaded MaxBaseRate] = Some (Wrapf "store: asks: %w: rate exceeds bound" ErrConflict).
Proof. split; vm_compute; reflexivity. Qed.
End AskPublishSpec.

(** ** What a configuration that loads promises *)
Module ConfigSpec.
Import Config.
Section Loaded.
Context `{Ed25519} {F : Type}.
Context (ParseFloat : string -> res F) (negative : F -> bool) (ParseDuration : string -> res Z) (ParseURL : string -> res url).
Context (Getenv : string -> string).
Notation Load := (Load ParseFloat negative ParseDuration ParseURL Getenv).

Ltac steps := repeat (match goal with
  | E : res_bind ?r _ = Ok _ |- _ => let x := fresh "x" in let Ex := fresh "Ex" in
      destruct r as [x|] eqn:Ex; cbn [res_bind] in E; [|discriminate E]
  | E : (if ?b then _ else _) = Ok _ |- _ => let Eb := fresh "Eb" in destruct b eqn:Eb; [first [discriminate E|idtac]|first [discriminate E|idtac]]
  | E : Ok _ = Ok _ |- _ => injection E as <-
  end).
Lemma duration_positive key def d : durationEnv ParseDuration Getenv key def = Ok d -> 0 < def -> 0 < d.
Proof.
  unfold durationEnv, positive. destruct (String.eqb _ _); [by intros [= <-]|]. destruct (ParseDuration _) as [a|]; [|done].
  destruct (Z.leb_spec a 0); [done|]. by intros [= <-].
Qed.
Lemma int_nonneg key def n : intEnv Getenv key def = Ok n -> 0 <= def -> 0 <= n.
Proof.
  unfold intEnv, positive. destruct (String.eqb _ _); [by intros [= <-]|]. destruct (ParseInt _) as [a|]; [|done].
  destruct (Z.leb_spec a 0); [done|]. intros [= <-]. lia.
Qed.
Lemma matching_key_spec a b c key address k : matching_key Getenv a b c key address = Ok (Some k) ->
  address <> ""%string /\ EncodeBase58 (public_of k) = address.
Proof.
  unfold matching_key. intros E. steps. destruct x as [k'|]; [|discriminate E]. steps. apply String.eqb_neq in Eb.
  apply negb_false_iff, String.eqb_eq in Eb0. done.
Qed.
Lemma treasury_spec wallet t : load_treasury ParseDuration Getenv wallet = Ok t ->
  (forall k, cf_BillingTreasuryKeypair t = Some k -> wallet <> ""%string /\ EncodeBase58 (public_of k) = wallet) /\
  0 < cf_BillingWithdrawPollInterval t /\ 0 < cf_BillingWithdrawBlockhashMaxAge t.
Proof.
  unfold load_treasury. intros E. steps. cbn. split; [intros k ->; by eapply matching_key_spec|].
  split; eapply duration_positive; try eassumption; unfold second; lia.
Qed.
Lemma settlement_spec s : load_settlement ParseDuration Getenv = Ok s ->
  (cf_BillingSettlementAuthority s <> ""%string -> exists key, DecodeBase58 (cf_BillingSettlementAuthority s) 64 = Ok key /\ length key = PublicKeySize) /\
  (forall k, cf_BillingSettlementKeypair s = Some k ->
     cf_BillingSettlementAuthority s <> ""%string /\ EncodeBase58 (public_of k) = cf_BillingSettlementAuthority s) /\
  0 < cf_BillingAllowanceRefresh s /\ 0 < cf_BillingSettlementPollInterval s.
Proof.
  unfold load_settlement. intros E. steps. cbn. split; [|split; [intros k ->; by eapply matching_key_spec|]].
  - intros Hne. apply String.eqb_neq in Hne. rewrite Hne in Eb. cbn [negb andb] in Eb. apply negb_false_iff in Eb.
    destruct (DecodeBase58 _ _) as [key|]; [|done]. exists key. split; [done|]. by apply bool_decide_eq_true in Eb.
  - split; eapply duration_positive; try eassumption; unfold second; lia.
Qed.
Lemma deposits_spec f d : load_deposits ParseFloat negative ParseDuration Getenv f = Ok d -> cf_BillingTreasuryWallet d <> ""%string ->
  cf_BillingSolanaRPC d <> ""%string /\ cf_BillingDepositMint d <> ""%string /\ 0 <= cf_BillingDepositDecimals d <= 18.
Proof.
  unfold load_deposits. intros E. steps. cbn. intros Hw. apply String.eqb_neq in Hw. rewrite Hw in *. cbn [negb andb] in *.
  apply String.eqb_neq in Eb, Eb0. apply orb_false_iff in Eb1 as [? ?]. split; [done|]. split; [done|]. lia.
Qed.
Lemma billing_spec m : load_billing ParseDuration Getenv = Ok m ->
  0 <= cf_BillingOutputMax m /\ 0 <= cf_BillingFeeBps m <= 10000 /\ 0 < cf_BillingSweepInterval m /\ 0 < cf_BillingSweepAge m.
Proof.
  unfold load_billing. intros E. steps. cbn. apply orb_false_iff in Eb as [? ?].
  split; [eapply int_nonneg; [eassumption|lia]|]. split; [lia|]. split; eapply duration_positive; try eassumption; unfold minute, second; lia.
Qed.
Lemma secret_spec key n s : secret Getenv key n = Ok s -> s <> ""%string -> TrimSpace s = s /\ (n <= length (chars_of s))%nat.
Proof.
  unfold secret. intros E Hs. steps; [by apply String.eqb_eq in Eb|]. apply negb_false_iff, String.eqb_eq in Eb0. apply Nat.ltb_ge in Eb1. done.
Qed.
Lemma node_spec token n : load_node Getenv token = Ok n -> cf_NodeCredentialEnabled n = true ->
  token <> ""%string /\ cf_NodeCredentialSigningKID n <> ""%string /\ is_Some (cf_NodeCredentialVerifyKeys n !! cf_NodeCredentialSigningKID n) /\
  exists k, cf_NodeCredentialSigningKey n = Some k /\ length k = PrivateKeySize.
Proof.
  assert (Hkeep : forall l m m' kid, verify_keys l m = Ok m' -> is_Some (m !! kid) -> is_Some (m' !! kid)).
  { induction l as [|e l IH]; intros m m' kid; cbn [verify_keys]; [by intros [= <-]|]. destruct (cut_colon e) as [[a b]|]; [|done].
    destruct (_ || _); [done|]. destruct (DecodePublicKey b) as [pub|]; [|done]. intros Hv Hm. apply (IH _ _ _ Hv).
    destruct (decide (a = kid)) as [->|]; [by rewrite lookup_insert_eq|by rewrite lookup_insert_ne]. }
  unfold load_node. intros E He. steps. cbn [cf_NodeCredentialEnabled cf_NodeCredentialSigningKID cf_NodeCredentialVerifyKeys cf_NodeCredentialSigningKey] in *.
  apply andb_prop in He as [_ He]. rewrite He in Eb. cbn [andb] in Eb. apply String.eqb_neq in Eb. destruct x as [k|]; [|done].
  apply bool_decide_eq_true in He. steps. apply String.eqb_neq in Eb0. split; [done|]. split; [done|]. split; [|by exists k].
  eapply Hkeep; [eassumption|]. by rewrite lookup_singleton_eq.
Qed.

(** C39: A configuration that loads is one the workers can be started with: the treasury's
    key and the settlement key are the keys of the addresses that are configured beside
    them, a settlement authority is a public key of 32 bytes, a treasury has a node and a
    mint, node credentials are only issued under a named key that is also verified and with
    a control token of at least 32 bytes, the fee is a share, and no interval is zero or
    negative. *)
Theorem loaded_configuration_is_coherent (c : Config) : Load = Ok c ->
  (forall k, cf_BillingTreasuryKeypair (cf_treasury c) = Some k -> EncodeBase58 (public_of k) = cf_BillingTreasuryWallet (cf_deposits c)) /\
  (forall k, cf_BillingSettlementKeypair (cf_settlement c) = Some k ->
     EncodeBase58 (public_of k) = cf_BillingSettlementAuthority (cf_settlement c) /\
     exists key, DecodeBase58 (cf_BillingSettlementAuthority (cf_settlement c)) 64 = Ok key /\ length key = PublicKeySize) /\
  (cf_BillingTreasuryWallet (cf_deposits c) <> ""%string ->
     cf_BillingSolanaRPC (cf_deposits c) <> ""%string /\ cf_BillingDepositMint (cf_deposits c) <> ""%string /\
     0 <= cf_BillingDepositDecimals (cf_deposits c) <= 18) /\
  (cf_NodeCredentialEnabled (cf_node c) = true ->
     (32 <= length (chars_of (cf_InternalControlToken (cf_limits c))))%nat /\
     is_Some (cf_NodeCredentialVerifyKeys (cf_node c) !! cf_NodeCredentialSigningKID (cf_node c))) /\
  0 <= cf_BillingFeeBps (cf_billing c) <= 10000 /\
  Forall (fun d => 0 < d) [cf_BillingSweepInterval (cf_billing c); cf_BillingSweepAge (cf_billing c);
    cf_BillingWithdrawPollInterval (cf_treasury c); cf_BillingWithdrawBlockhashMaxAge (cf_treasury c);
    cf_BillingAllowanceRefresh (cf_settlement c); cf_BillingSettlementPollInterval (cf_settlement c)].
Proof.
  unfold Config.Load. intros E. steps. cbn [cf_treasury cf_deposits cf_settlement cf_limits cf_node cf_billing].
  match goal with E : load_treasury _ _ _ = Ok _ |- _ => apply treasury_spec in E as (T1 & T2 & T3) end.
  match goal with E : load_settlement _ _ = Ok _ |- _ => apply settlement_spec in E as (S1 & S2 & S3 & S4) end.
  match goal with E : load_billing _ _ = Ok _ |- _ => apply billing_spec in E as (B1 & B2 & B3 & B4) end.
  split; [intros k Hk; by apply T1|]. split; [intros k Hk; destruct (S2 k Hk); auto|]. split; [by eapply deposits_spec|].
  split; [|split; [done|by repeat constructor]]. intros Hn.
  match goal with E : load_node _ _ = Ok _ |- _ => apply node_spec in E as (N1 & N2 & N3 & _); [|done] end. split; [|done].
  match goal with E : load_limits _ _ _ _ = Ok ?l |- _ => unfold load_limits in E; steps end. cbn in *.
  match goal with E : secret _ _ _ = Ok _ |- _ => by apply secret_spec in E as [_ E] end.
Qed.
End Loaded.

(** *** At work: the smallest environment, and one with a treasury and its key *)
Definition smallest : list (string * string) := [("OPENTELA_UPSTREAM_URL", "http://node"); ("DATABASE_URL", "postgres://")]%string.
Definition environment (l : list (string * string)) (key : string) : string :=
  match List.find (fun kv => String.eqb (fst kv) key) l with Some kv => snd kv | None => "" end.
Definition parse_none {B} (s : string) : res B := Err (Errorf "not parsed here").
Definition any_url (s : string) : res url := Ok (mkURL "http" s).
Definition toy_ed25519 : Ed25519 := {| ed25519_NewKeyFromSeed s := s ++ s; ed25519_Sign _ m := m; ed25519_Verify _ m s := bool_decide (m = s) |}.
Definition demo_load (l : list (string * string)) : res Config :=
  @Load toy_ed25519 unit parse_none (fun _ => false) parse_none any_url (environment (l ++ smallest)).
Definition zero_key : string := text_of (repeat "A"%char 86).
Definition zero_wallet : string := text_of (repeat "1"%char 32).
Definition with_treasury : list (string * string) := [
  ("BILLING_TREASURY_WALLET", zero_wallet); ("BILLING_TREASURY_KEYPAIR", zero_key); ("BILLING_SOLANA_RPC_URL", "http://rpc");
  ("BILLING_DEPOSIT_MINT", "mint"); ("BILLING_FEE_BPS", "250") ]%string.
Definition loaded (l : list (string * string)) : bool := match demo_load l with Ok _ => true | Err _ => false end.
Example loads : loaded [] = true /\ loaded with_treasury = true /\
  loaded (("BILLING_TREASURY_WALLET", "other") :: with_treasury)%string = false.
Proof. vm_compute. done. Qed.
Lemma loaded_configuration_is_coherent_witness :
  match demo_load with_treasury with
  | Ok c => (forall k, cf_BillingTreasuryKeypair (cf_treasury c) = Some k -> EncodeBase58 (public_of k) = cf_BillingTreasuryWallet (cf_deposits c)) /\
            0 <= cf_BillingFeeBps (cf_billing c) <= 10000
  | Err _ => False
  end.
Proof.
  destruct (demo_load with_treasury) as [c|e] eqn:E; [|vm_compute in E; discriminate E].
  destruct (@loaded_configuration_is_coherent toy_ed25519 unit parse_none (fun _ => false) parse_none any_url
    (environment (with_treasury ++ smallest)) c E) as (T & _ & _ & _ & B & _). split; [exact T|exact B].
Defined.
(** Zero is in the range that the messages name, and is refused. *)
Example zero_is_refused :
  loaded [("BILLING_FEE_BPS", "0")]%string = false /\ loaded [("BILLING_OUTPUT_TOKEN_MAX", "0")]%string = false /\
  loaded [("BILLING_DEPOSIT_DECIMALS", "0")]%string = false.
Proof. vm_compute. done. Qed.
End ConfigSpec.

(** ** The doors at work *)
Module DoorsDemo.
#[local] Existing Instance Demo.scheme.
#[local] Existing Instance Demo.around.
#[local] Instance silent_provider : provider := {| provider_answer _ := Err (Errorf "down") |}.
Definition says (n : Z) (_ : request) : W door (reply unit) := wret (WriteHeader n).
Definition demo_planes : planes (A := unit) :=
  mkPlanes (Some (plain (says 1))) (Some (says 2)) (Some (says 3)) (Some (says 4)) (Some (says 5)) (Some (says 6)) (Some (says 7)) (Some (says 8))
    (Some (says 9)) (Some (says 10)) (Some (says 11)) (Some (says 12)) (Some (says 13)) (says 14) (Some (says 15)).
Definition demo_management (n : Z) : management (A := unit) :=
  mkManagement (says n) (Some (says n)) (Some (says n)) (Some (says n)) (Some (says n)) None None.
Definition demo_validator : ValidatorConfig := mkValidator (60 * second) (5 * second).
Definition demo_neon : NeonVerifier := NewNeon "issuer" "" minute.
Definition table : list (route (A := unit)) := NewWithBillingOpts demo_validator true [] demo_planes.
(** No two of the fifteen patterns before the catch-all match one request. *)
Example patterns_apart : length table = 16%nat /\ pairwise_apart (map rt_Path (take 15 table)) = true.
Proof. vm_compute. done. Qed.
Definition asks (method : string) : request := mkHttp method None None (fun _ => ""%string) (fun _ => ""%string) (fun _ => ""%string) [] false.
Definition quiet : outside := mkOutside (fun _ => fine_env 0) (fun _ d => d) (fun _ => false).
Definition idle : world door := mkWorld empty_db (mkDoor (mkSite empty_dir 0) ∅ no_jwks) 0.
Definition status (method : string) (path : list string) : option Z :=
  match fst (serve table path (asks method) quiet idle) with Some (Ok (_, a)) => Some (status_of a) | _ => None end.
Example statuses :
  map (fun x => status (fst x) (snd x)) [
    ("GET", ["healthz"]); ("GET", ["manage"]); ("GET", ["manage"; "keys"]); ("POST", ["internal"; "acl"; "evaluate-v2"]);
    ("GET", ["v1"; "services"]); ("POST", ["v1"; "services"]); ("GET", ["v1"; "service"; "llm"; "v1"; "models"]);
    ("POST", ["v1"; "service"; "llm"; "v1"; "chat"]); ("OPTIONS", ["v1"; "service"; "llm"; "v1"; "chat"]); ("GET", ["v1"; ""; "services"]) ]%string =
  [Some 200; Some 301; Some 1; Some 3; Some 13; Some 401; Some 401; Some 401; Some 204; Some 301].
Proof. vm_compute. reflexivity. Qed.
Lemma doors_are_guarded_witness :
  ~ key_accepted demo_validator (asks "POST") quiet idle /\ ~ session_accepted demo_neon (asks "POST") quiet idle /\
  serve (NewWithBillingOpts demo_validator true [] (behind demo_planes (Router (demo_management 1) demo_neon [] ["manage"; "keys"]%string) (says 14) None (says 13)))
    ["manage"; "keys"]%string (asks "POST") quiet idle =
  serve (NewWithBillingOpts demo_validator true [] (behind demo_planes (Router (demo_management 2) demo_neon [] ["manage"; "keys"]%string) (says 15) (Some (says 16)) (says 17)))
    ["manage"; "keys"]%string (asks "POST") quiet idle.
Proof.
  assert (K : ~ key_accepted demo_validator (asks "POST") quiet idle) by (intros (t & a & E & _); discriminate E).
  assert (S : ~ session_accepted demo_neon (asks "POST") quiet idle) by (intros (t & c & E & _); discriminate E).
  split; [exact K|]. split; [exact S|]. apply doors_are_guarded; [exact K|exact S|discriminate].
Defined.
End DoorsDemo.
