(* ===== verification/WorkersSpec.v ===== *)
(** * The settlement worker's batches, and the processes at work

    Why a pass of the settlement worker moves a batch.  Then: a pass of any worker, a
    request through the market gate, a response through the settlement hook, a billing
    endpoint and a publication of asks change the database by store operations only, so
    what holds of every reachable state holds while they all run. *)
From Stdlib Require Import ZArith Lia Relations.
From stdpp Require Import base gmap strings list.
From S2P Require Import Prelude GoText AclTypes DirSchema Directory Jwt Http Mesh Pricing PricingSpec BillingApi BillingApiSpec Sha256 Base58 Solana Base64 Billing Tx Schema BillingStore Projection WithdrawalStore DepositStore DepositInv SettlementStore SettlementInv WithdrawalInv Reachable BillingSpec StoreSpec Json Rpc Worker Watcher WatcherSpec Withdraw WithdrawSpec SettlementWorker AllowanceStore Market Recon ReconSpec Delegations DelegationsSpec Gate Peers MarketGate Response.

Open Scope Z_scope.
Open Scope worker_scope.

(** ** What a call does to the batches *)
(** Fresh ids stay fresh, and the batches are kept, but for [id]'s, which may go along
    [P]. *)
Definition batch_touches (id : Z) (P : relation SettlementRow) (d d' : db) : Prop :=
  fresh_ids d -> fresh_ids d' /\
  forall k r, settlements d !! k = Some r ->
  exists r', settlements d' !! k = Some r' /\ (r' = r \/ k = id /\ P r r').
(** All of them are kept. *)
Definition batches_kept (d d' : db) : Prop :=
  fresh_ids d -> fresh_ids d' /\ forall k r, settlements d !! k = Some r -> settlements d' !! k = Some r.
#[export] Instance batches_kept_preorder : PreOrder batches_kept.
Proof. split; [by split|]. intros d1 d2 d3 H1 H2 F1. destruct (H1 F1) as [F2 K1]. destruct (H2 F2) as [F3 K2]. auto. Qed.
Lemma kept_same d d' : settlements d' = settlements d -> settlements_seq d' = settlements_seq d -> batches_kept d d'.
Proof. intros H1 H2 F. unfold fresh_ids in *. rewrite H1, H2. auto. Qed.

#[export] Instance batch_touches_refl id P : Reflexive (batch_touches id P).
Proof. intros d F. split; [done|]. intros k r Hr. exists r. auto. Qed.
Lemma kept_touches id P d1 d2 d3 : batches_kept d1 d2 -> batch_touches id P d2 d3 -> batch_touches id P d1 d3.
Proof. intros H1 H2 F. destruct (H1 F) as [F2 K]. destruct (H2 F2) as [F3 T]. split; [done|]. intros k r Hr. by apply T, K. Qed.
Lemma batch_mono id (P Q : relation SettlementRow) d d' :
  (forall r r', settlements d !! id = Some r -> P r r' -> Q r r') -> batch_touches id P d d' -> batch_touches id Q d d'.
Proof.
  intros H Ht F. destruct (Ht F) as [F' T]. split; [done|]. intros k r Hr. destruct (T k r Hr) as (r' & Hr' & C).
  exists r'. split; [done|]. destruct C as [?|[-> C]]; [by left|]. right. auto.
Qed.

Section Batch.
Context (id : Z) (f : time -> SettlementRow -> SettlementRow).
Context (Hf : forall t t' r, f t (f t' r) = f t r) (Ha : forall t r, sr_amount_raw (f t r) = sr_amount_raw r).
Definition batch_becomes (r r' : SettlementRow) : Prop := exists t, r' = f t r.
#[local] Instance batch_preorder : PreOrder (batch_touches id batch_becomes).
Proof using Hf.
  split; [apply _|]. intros d1 d2 d3 H1 H2 F1. destruct (H1 F1) as [F2 T1]. destruct (H2 F2) as [F3 T2]. split; [done|].
  intros k r Hr. destruct (T1 k r Hr) as (r1 & Hr1 & C1). destruct (T2 k r1 Hr1) as (r2 & Hr2 & C2).
  exists r2. split; [done|]. destruct C1 as [->|[-> [t1 ->]]]; [done|]. right. split; [done|].
  destruct C2 as [->|[_ [t2 ->]]]; [by exists t1|]. exists t2. apply Hf.
Qed.
Lemma batch_same d d' : settlements d' = settlements d -> settlements_seq d' = settlements_seq d ->
  batch_touches id batch_becomes d d'.
Proof. intros H1 H2. eapply kept_touches; [by apply kept_same|reflexivity]. Qed.
Lemma batch_update t d r : settlements d !! id = Some r ->
  batch_touches id batch_becomes d (set_settlements (<[id := f t r]> (settlements d)) d).
Proof using Ha.
  intros Hr F. split.
  - intros k x Hk. simpl in *. apply lookup_insert_Some in Hk as [[<- <-]|[_ Hk]]; [|by eapply F].
    rewrite Ha. by apply F.
  - intros k x Hk. simpl. destruct (decide (id = k)) as [<-|Hne].
    + exists (f t r). rewrite lookup_insert_eq. split; [done|]. right. split; [done|]. exists t. by simplify_eq.
    + exists x. rewrite lookup_insert_ne by done. auto.
Qed.
Lemma batch_advance from t d n d' : sql_advance_settlement id from (f t) d = Ok (n, d') -> batch_touches id batch_becomes d d'.
Proof using Ha. intros [->|(r & Hr & _ & ->)]%eff_advance; [reflexivity|]. by apply batch_update. Qed.
Lemma batch_moves now fmt e d (m : time -> stmt db Z) :
  (forall t w n w', m t w = Ok (n, w') -> batch_touches id batch_becomes w w') ->
  batch_touches id batch_becomes d
    (snd (run (let! t := now_or now in let! n := wrap fmt (pool_stmt (m t)) in ret (n >? 0))%tx e d)).
Proof using Hf Ha. intros Hm. apply moves_run; [apply _|]. unfold now_or. moves. Qed.
End Batch.

Lemma batch_signed_touches id wire sig hash height expires now e d :
  batch_touches id (batch_becomes (settlement_signed wire sig hash height expires)) d
    (snd (run (MarkSettlementSigned id wire sig hash height expires now) e d)).
Proof.
  unfold MarkSettlementSigned. apply batch_moves; [done|done|]. intros t w n w'.
  destruct (bool_decide _); [|done]. by apply batch_advance.
Qed.
Lemma batch_broadcast_touches id now e d :
  batch_touches id (batch_becomes (settlement_in SettlementBroadcast)) d (snd (run (MarkSettlementBroadcast id now) e d)).
Proof. unfold MarkSettlementBroadcast. apply batch_moves; [done|done|]. intros t w n w'. by apply batch_advance. Qed.
Lemma batch_finalized_touches id now e d :
  batch_touches id (batch_becomes (settlement_in SettlementFinalized)) d (snd (run (FinalizeSettlement id now) e d)).
Proof. unfold FinalizeSettlement. apply batch_moves; [done|done|]. intros t w n w'. by apply batch_advance. Qed.
Lemma batch_restored_touches id reason now e d :
  batch_touches id (batch_becomes (settlement_restored reason)) d (snd (run (RestoreSettlement id reason now) e d)).
Proof.
  pose proof (batch_preorder id (settlement_restored reason) ltac:(done)) as HP. apply moves_run; [exact HP|].
  unfold RestoreSettlement, now_or. moves.
  - intros d1 x d2 ->%eff_query. reflexivity.
  - intros d1 u d2 [->|[v ->]]%eff_refund; [reflexivity|by apply batch_same].
  - intros d1 u d2 [->|(r & Hr & ->)]%eff_restore_settlement; [reflexivity|by apply batch_update].
Qed.

(** ** Why a batch moves *)
Section BatchCause.
Context {N : Type} {RPC : withdrawRPC N} (s : settlementWorker).

(** The transfer cannot land, or no longer: the delegation gets its amount back. *)
Inductive batch_hopeless (n : N) (r : SettlementRow) : string -> Prop :=
  | bad_source : sr_state r = SettlementPending -> is_ok (DecodeBase58 (sr_source_ata r) PublicKeyBytes) = false ->
      batch_hopeless n r "invalid source ata"
  | bad_destination : sr_state r = SettlementPending ->
      is_ok (DecodeBase58 (sr_destination_ata r) PublicKeyBytes) = false -> batch_hopeless n r "invalid destination ata"
  | batch_corrupt wire : sr_state r = SettlementSigned ->
      sr_signed_wire r = Some wire -> is_ok (DecodeString wire) = false -> batch_hopeless n r "corrupt signed wire"
  | batch_refused e : sr_state r = SettlementSigned -> sent n (sr_signed_wire r) (Err e) ->
      already_landed (ToLower (err_text e)) = false -> says_expired (ToLower (err_text e)) = true ->
      batch_hopeless n r "blockhash_expired"
  | batch_failed st n' : sr_state r = SettlementBroadcast -> status_is n (sr_tx_signature r) (Some st) n' ->
      Finalized st = false -> has_err st = true -> batch_hopeless n r "tx_failed"
  | batch_lapsed n' last height : sr_state r = SettlementBroadcast -> status_is n (sr_tx_signature r) None n' ->
      sr_last_valid_block_height r = Some last -> fst (node_GetBlockHeight n') = Ok height -> last < height ->
      batch_hopeless n r "blockhash_expired_unconfirmed".

(** What the node says in state [n] that takes batch [r] to a later one. *)
Inductive batch_cause (n : N) (r : SettlementRow) : SettlementRow -> Prop :=
  | batch_signed source dest exists_ n1 bh height n2 expires t : sr_state r = SettlementPending ->
      DecodeBase58 (sr_source_ata r) PublicKeyBytes = Ok source ->
      DecodeBase58 (sr_destination_ata r) PublicKeyBytes = Ok dest ->
      node_AccountExists (sr_destination_ata r) n = (Ok exists_, n1) -> node_LatestBlockhash n1 = (Ok (bh, height), n2) ->
      let tx := signedBatch s source dest (negb exists_) bh (sr_amount_raw r) in
      batch_cause n r (settlement_signed (EncodeToString (snd tx)) (EncodeBase58 (fst tx)) (EncodeBase58 bh) height expires t r)
  | batch_sent answer t : sr_state r = SettlementSigned -> sent n (sr_signed_wire r) answer ->
      (forall e, answer = Err e -> already_landed (ToLower (err_text e)) = true) ->
      batch_cause n r (settlement_in SettlementBroadcast t r)
  | batch_landed st n' t : sr_state r = SettlementBroadcast -> status_is n (sr_tx_signature r) (Some st) n' ->
      Finalized st = true -> batch_cause n r (settlement_in SettlementFinalized t r)
  | batch_returned reason t : batch_hopeless n r reason -> batch_cause n r (settlement_restored reason t r).

(** The others claim batches, and move none. *)
Context (o : outside) (Ho : forall k d, batches_kept d (o_others o k d)).

Lemma batch_call {A} (m : store A) id P (w : world N) :
  (forall e d, batch_touches id P d (snd (run m e d))) -> batch_touches id P (w_db w) (w_db (snd (callStore m o w))).
Proof using Ho.
  intros Hm. eapply kept_touches; [apply (Ho (w_calls w))|]. unfold callStore.
  specialize (Hm (o_env o (w_calls w)) (o_others o (w_calls w) (w_db w))). by destruct (run _ _ _).
Qed.
Lemma batch_step {A} (m : time -> store A) fmt id P (w : world N) :
  (forall t e d, batch_touches id P d (snd (run (m t) e d))) ->
  batch_touches id P (w_db w) (w_db (snd ((let* t := clock in discardW (wwrap fmt (callStore (m t)))) o w))).
Proof using Ho. intros Hm. unfold wbind at 1, clock. cbv beta iota. rewrite snd_discard, snd_wrap. by apply batch_call. Qed.
Lemma batch_stop n id r reason (d d' : db) : settlements d !! id = Some r -> batch_hopeless n r reason ->
  batch_touches id (batch_becomes (settlement_restored reason)) d d' -> batch_touches id (batch_cause n) d d'.
Proof. intros Hr Hh. apply batch_mono. intros r0 r' Hr0 [t ->]. simplify_eq. by apply batch_returned. Qed.
#[local] Ltac stop := eapply batch_stop; [eassumption| |apply batch_step; intros; apply batch_restored_touches].

Lemma signAndStoreBatch_cause id r (w : world N) :
  settlements (w_db w) !! id = Some r -> sr_state r = SettlementPending ->
  batch_touches id (batch_cause (w_node w)) (w_db w) (w_db (snd (signAndStoreBatch s (scanSettlement id r) o w))).
Proof using Ho.
  intros Hr Hst. unfold signAndStoreBatch. cbn [scanSettlement ds_SourceATA ds_DestinationATA ds_ID ds_AmountRaw].
  destruct (DecodeBase58 (sr_source_ata r) PublicKeyBytes) as [source|e] eqn:Es; [|stop; apply bad_source; by rewrite ?Es].
  destruct (DecodeBase58 (sr_destination_ata r) PublicKeyBytes) as [dest|e] eqn:Ed; [|stop; apply bad_destination; by rewrite ?Ed].
  rewrite asked. cbv zeta.
  destruct (node_AccountExists (sr_destination_ata r) (w_node w)) as [[ex|e] n1] eqn:Ex; [|reflexivity].
  cbn [fst snd]. rewrite asked. cbv zeta. cbn [w_node w_db w_calls].
  destruct (node_LatestBlockhash n1) as [[[bh height]|e] n2] eqn:Eb; [|reflexivity]. cbn [fst snd].
  set (w2 := mkWorld (w_db w) n2 (w_calls w)). change (w_db w) with (w_db w2) at 1.
  set (tx := signedBatch s source dest (negb ex) bh (sr_amount_raw r)).
  eapply batch_mono; [|apply (batch_step (fun t => MarkSettlementSigned id (EncodeToString (snd tx)) (EncodeBase58 (fst tx))
     (EncodeBase58 bh) height (t + sw_blockhashMaxAge s) t) "mark signed: %w" id (fun r r' => exists expires t,
       r' = settlement_signed (EncodeToString (snd tx)) (EncodeBase58 (fst tx)) (EncodeBase58 bh) height expires t r))].
  - intros r0 r' Hr0 (expires & t & ->). change (settlements (w_db w) !! id = Some r0) in Hr0. simplify_eq.
    by eapply batch_signed.
  - intros t e d. eapply batch_mono; [|apply batch_signed_touches]. intros ? ? _ [t0 ->]. by do 2 eexists.
Qed.

Lemma broadcastBatch_cause id r (w : world N) :
  settlements (w_db w) !! id = Some r -> sr_state r = SettlementSigned ->
  batch_touches id (batch_cause (w_node w)) (w_db w) (w_db (snd (broadcastBatch (scanSettlement id r) o w))).
Proof using Ho.
  intros Hr Hst. unfold broadcastBatch. cbn [scanSettlement ds_SignedWire ds_ID].
  destruct (String.eqb _ "") eqn:Ew; [reflexivity|].
  destruct (sr_signed_wire r) as [wire|] eqn:Hw; [|done]. change (opt_str (Some wire)) with wire in *.
  destruct (DecodeString wire) as [tx|e] eqn:Ed; [|stop; eapply batch_corrupt; [done|done|by rewrite Ed]].
  unfold wattempt at 1, callNode at 1. destruct (node_SendTransaction tx (w_node w)) as [res n1] eqn:Es.
  assert (Hsent : sent (w_node w) (sr_signed_wire r) res) by (exists wire, tx; by rewrite Es).
  set (w1 := mkWorld (w_db w) n1 (w_calls w)). change (w_db w) with (w_db w1) at 1.
  assert (Hb : (forall e, res = Err e -> already_landed (ToLower (err_text e)) = true) ->
    batch_touches id (batch_cause (w_node w)) (w_db w1) (w_db (snd (markBatchBroadcast id o w1)))).
  { intros Hres. eapply batch_mono; [|apply batch_step; intros; apply batch_broadcast_touches].
    intros r0 r' Hr0 [t ->]. change (settlements (w_db w) !! id = Some r0) in Hr0. simplify_eq. by eapply batch_sent. }
  destruct res as [sig|e]; [by apply Hb|]. cbv zeta. destruct (already_landed _) eqn:Ea; [apply Hb; by intros ? [= <-]|].
  destruct (says_expired _) eqn:Ee; [|reflexivity]. stop. by eapply batch_refused.
Qed.

Lemma finalizeOrRestoreBatch_cause id r (w : world N) :
  settlements (w_db w) !! id = Some r -> sr_state r = SettlementBroadcast ->
  batch_touches id (batch_cause (w_node w)) (w_db w) (w_db (snd (finalizeOrRestoreBatch (scanSettlement id r) o w))).
Proof using Ho.
  intros Hr Hst. unfold finalizeOrRestoreBatch. cbn [scanSettlement ds_Signature ds_ID ds_LastValidBlockHeight].
  destruct (String.eqb _ "") eqn:Ew; [reflexivity|]. apply String.eqb_neq in Ew.
  destruct (sr_tx_signature r) as [sig|] eqn:Hw; [|done]. change (opt_str (Some sig)) with sig in *.
  rewrite asked. cbv zeta.
  destruct (node_GetSignatureStatuses [sig] (w_node w)) as [[l|e] n1] eqn:Eg; [|reflexivity].
  cbn [fst snd]. set (w1 := mkWorld (w_db w) n1 (w_calls w)). change (w_db w) with (w_db w1) at 1.
  assert (Hs : status_is (w_node w) (sr_tx_signature r) (default None (head l)) n1) by (by exists sig, l).
  unfold wbind at 1, clock. cbv beta iota zeta. generalize (e_now (o_env o (w_calls w1))). intros t.
  assert (Hstop : forall reason (w2 : world N), w_db w2 = w_db w -> batch_hopeless (w_node w) r reason -> forall fmt,
    batch_touches id (batch_cause (w_node w)) (w_db w2) (w_db (snd (restoreBatch fmt id reason t o w2)))).
  { intros reason w2 Hdb Hh fmt. eapply batch_stop; [by rewrite Hdb|exact Hh|]. unfold restoreBatch.
    rewrite snd_discard, snd_wrap. apply batch_call. intros. apply batch_restored_touches. }
  destruct (default None (head l)) as [st|].
  - destruct (Finalized st) eqn:Ef.
    + rewrite snd_discard, snd_wrap. eapply batch_mono; [|apply batch_call; intros; apply batch_finalized_touches].
      intros r0 r' Hr0 [t' ->]. change (settlements (w_db w) !! id = Some r0) in Hr0. simplify_eq. by eapply batch_landed.
    + destruct (has_err st) eqn:Eh; [|reflexivity]. apply Hstop; [done|by eapply batch_failed].
  - destruct (sr_last_valid_block_height r) as [last|] eqn:El; [|reflexivity]. rewrite asked. cbv zeta.
    destruct (node_GetBlockHeight (w_node w1)) as [[height|e] n2] eqn:Eh; [|reflexivity]. cbn [fst snd].
    destruct (height >? last) eqn:Eg2; [|reflexivity]. apply Z.gtb_lt in Eg2.
    apply (Hstop _ (mkWorld (w_db w1) n2 (w_calls w1))); [done|].
    eapply batch_lapsed; [done|done|done| |exact Eg2]. simpl in Eh. by rewrite Eh.
Qed.

Lemma advanceBatch_cause id r (w : world N) : settlements (w_db w) !! id = Some r ->
  batch_touches id (batch_cause (w_node w)) (w_db w) (w_db (snd (advanceBatch s (scanSettlement id r) o w))).
Proof using Ho.
  intros Hr. unfold advanceBatch. cbn [scanSettlement ds_State]. destruct (sr_state r) eqn:E; try reflexivity.
  - by apply signAndStoreBatch_cause.
  - by apply broadcastBatch_cause.
  - by apply finalizeOrRestoreBatch_cause.
Qed.

(** *** A pass *)
Lemma advanceBatches_count due : forall n m (w : world N), snd (advanceBatches s due n o w) = snd (advanceBatches s due m o w).
Proof.
  induction due as [|b due IH]; intros n m w; simpl; [done|]. unfold wbind, cancelled, wattempt.
  destruct (o_cancelled o (w_calls w)); [done|]. destruct (advanceBatch s b o w) as [[[u|e]|] w1]; [apply IH|apply IH|done].
Qed.
Lemma advanceBatches_cons b due n (w : world N) :
  snd (advanceBatches s (b :: due) n o w) = w \/
  (forall due' m, let w1 := snd (advanceBatch s b o w) in
    snd (advanceBatches s (b :: due') m o w) = snd (advanceBatches s due' 0 o w1)) \/
  snd (advanceBatches s (b :: due) n o w) = snd (advanceBatch s b o w).
Proof.
  simpl. unfold wbind, cancelled, wattempt. destruct (o_cancelled o (w_calls w)); [by left|].
  destruct (advanceBatch s b o w) as [[[u|e]|] w1]; simpl; [right; left; intros; apply advanceBatches_count..|by right; right].
Qed.

Notation as_batches l := (map (fun p => scanSettlement (fst p) (snd p)) l).
Notation batch_turn l w := (snd (advanceBatches s (as_batches l) 0 o w)).
Definition in_batches (d : db) (p : Z * SettlementRow) : Prop := settlements d !! fst p = Some (snd p).
Lemma advanceBatches_cause l : forall n (w : world N), NoDup l.*1 -> fresh_ids (w_db w) -> Forall (in_batches (w_db w)) l ->
  forall id r, settlements (w_db w) !! id = Some r ->
  exists r', settlements (w_db (snd (advanceBatches s (as_batches l) n o w))) !! id = Some r' /\
    (r' = r \/ exists before after, l = before ++ (id, r) :: after /\ batch_cause (w_node (batch_turn before w)) r r').
Proof using Ho.
  induction l as [|[k rk] l IH]; intros n w Hnd Hfresh Hl id r Hr; [exists r; by split; [|left]|].
  apply NoDup_cons in Hnd as [Hk Hnd]. apply Forall_cons in Hl as [Hrk Hl]. unfold in_batches in Hrk. cbn [fst snd] in *.
  destruct (advanceBatch_cause k rk w Hrk Hfresh) as [Hfresh1 Hadv]. cbn [map fst snd].
  destruct (Hadv id r Hr) as (r1 & Hr1 & C1).
  assert (Hhere : r1 = r \/ exists before after, (k, rk) :: l = before ++ (id, r) :: after /\ batch_cause (w_node (batch_turn before w)) r r1).
  { destruct C1 as [?|[-> C1]]; [by left|]. right. exists [], l. by simplify_eq. }
  destruct (advanceBatches_cons (scanSettlement k rk) (as_batches l) n w) as [E|[E|E]].
  - exists r. rewrite E. by split; [|left].
  - cbv zeta in E. rewrite E. set (w1 := snd (advanceBatch s (scanSettlement k rk) o w)) in *.
    assert (Hl1 : Forall (in_batches (w_db w1)) l).
    { rewrite Forall_forall in Hl |- *. intros [j rj] Hj. destruct (Hadv j rj (Hl _ Hj)) as (r2 & Hr2 & [->|[-> _]]); [done|].
      destruct Hk. apply list_elem_of_fmap. by exists (k, rj). }
    destruct (IH 0 w1 Hnd Hfresh1 Hl1 id r1 Hr1) as (r' & Hr' & C). exists r'. split; [done|].
    destruct C as [->|(before & after & -> & C)]; [done|]. destruct (decide (id = k)) as [->|Hne].
    { destruct Hk. apply list_elem_of_fmap. exists (k, r1). split; [done|]. apply elem_of_app. right. left. }
    destruct C1 as [->|[? _]]; [|done]. right. exists ((k, rk) :: before), after. split; [done|].
    cbn [map fst snd]. by rewrite E.
  - exists r1. by rewrite E.
Qed.

Lemma claim_keeps_batches p now e d : batches_kept d (snd (run (ClaimDelegationSettlements p now) e d)).
Proof.
  apply moves_run; [apply _|]. apply mv_claim; [apply _|..].
  - apply (mv_consume batches_kept). intros. by apply kept_same.
  - intros. by apply kept_same.
  - intros r d1 x d2 [->|[Hpos ->]]%eff_insert_settlement F; split; try (by intros k y Hk).
    + intros k y Hk. simpl in *. specialize (F k y Hk). simpl in F. lia.
    + intros k y Hk. simpl in *. apply lookup_insert_Some in Hk as [[<- <-]|[_ Hk]]; [lia|].
      specialize (F k y Hk). simpl in F. lia.
    + intros k y Hk. simpl. rewrite lookup_insert_ne; [done|]. specialize (F k y Hk). simpl in F. lia.
  - intros id leg d1 u d2 [->|[_ ->]]%eff_anchor; [reflexivity|by apply kept_same].
Qed.
Lemma batch_sweep limit (w : world N) :
  let out := callStore (SweepDelegationSettlements limit) o w in
  w_db (snd out) = o_others o (w_calls w) (w_db w) /\
  forall due, fst out = Some (Ok due) -> exists l, due = as_batches l /\ NoDup l.*1 /\ Forall (in_batches (w_db (snd out))) l.
Proof.
  cbv zeta. unfold callStore. set (d := o_others o (w_calls w) (w_db w)). set (e := o_env o (w_calls w)). clearbody d e.
  unfold run, SweepDelegationSettlements, bind, wrap, pool_stmt, ret, query.
  set (l := Prelude.select settlement_id_le (fun p => open_settlement (sr_state (snd p)) = true) (Z.to_nat (clampLimit 100 20 limit)) (settlements d)).
  repeat (cbn -[Prelude.select]; case_match; try congruence; simplify_eq/=); try (by split).
  all: split; [done|]; intros due [= <-]; exists l; split; [done|]; split; [apply select_NoDup|];
    apply Forall_forall; intros [k r] Hk; apply select_In in Hk as [Hk _]; exact Hk.
Qed.
Lemma claim_call fmt p t (w : world N) : fresh_ids (w_db w) ->
  let w1 := snd (wwrap fmt (callStore (ClaimDelegationSettlements p t)) o w) in
  fresh_ids (w_db w1) /\ forall id r, settlements (w_db w) !! id = Some r -> settlements (w_db w1) !! id = Some r.
Proof using Ho.
  cbv zeta. rewrite snd_wrap. unfold callStore. intros F. destruct (Ho (w_calls w) (w_db w) F) as [F1 K1].
  pose proof (claim_keeps_batches p t (o_env o (w_calls w)) (o_others o (w_calls w) (w_db w)) F1) as [F2 K2].
  destruct (run _ _ _). simpl in *. auto.
Qed.

(** C6: a settlement batch moves only for cause.  Whatever the node answers, whatever is
    lost and whenever the worker is stopped, a pass leaves every batch in the table as it
    was, or moves it once, when it is its turn in the sweep's list, for what the node
    says at that moment or what the row holds: pending to signed with the transfer of its
    own amount between its own token accounts on the blockhash the node just gave; signed
    to broadcast when the node takes the stored transaction or says it has landed;
    broadcast to finalized when the node says its signature is finalized; and to
    restored, the delegation getting its amount back, only when an account is no address,
    the stored transaction does not decode, the node refuses it as expired, the node says
    its signature failed, or the node does not know its signature and is then past its
    last valid block.  The claim that opens the pass touches no batch that is there.
    Ids are fresh in every reachable database ([Reachable_fresh]). *)
Theorem settlements_move_for_cause (w : world N) id r :
  fresh_ids (w_db w) -> settlements (w_db w) !! id = Some r ->
  exists r', settlements (w_db (snd (SettlementWorker.RunOnce s o w))) !! id = Some r' /\
    (r' = r \/ exists before after w2,
       let w1 := snd (callStore (ClaimDelegationSettlements (claimParams s) (e_now (o_env o (w_calls w)))) o w) in
       callStore (SweepDelegationSettlements (sw_sweepLimit s)) o w1 = (Some (Ok (as_batches (before ++ (id, r) :: after))), w2) /\
       batch_cause (w_node (batch_turn before w2)) r r').
Proof using Ho.
  intros F Hr. unfold SettlementWorker.RunOnce. unfold wbind at 1, clock. cbv beta iota.
  generalize (e_now (o_env o (w_calls w))). intros t.
  destruct (claim_call "claim: %w" (claimParams s) t w F) as [F1 K1].
  pose proof (snd_wrap o "claim: %w" (callStore (ClaimDelegationSettlements (claimParams s) t)) w) as Ec. unfold wbind at 1.
  destruct (wwrap "claim: %w" _ o w) as [[[c|e]|] w1]; cbn [fst snd] in F1, K1.
  2,3: exists r; split; [by apply K1|by left].
  pose proof (batch_sweep (sw_sweepLimit s) w1) as Hs. cbv zeta in Hs.
  unfold wbind at 1, wwrap, wattempt. destruct (callStore (SweepDelegationSettlements _) o w1) as [[[due|e]|] w2] eqn:Esw; cbn [fst snd] in Hs; destruct Hs as [Hdb Hs].
  2,3: exists r; cbn; rewrite Hdb; split; [by apply (Ho (w_calls w1) (w_db w1) F1), K1|by left].
  destruct (Hs due eq_refl) as (l & -> & Hnd & Hl). unfold wret.
  destruct (Ho (w_calls w1) (w_db w1) F1) as [F2 K2]. rewrite <- Hdb in F2.
  destruct (advanceBatches_cause l 0 w2 Hnd F2 Hl id r) as (r' & Hr' & C); [rewrite Hdb; by apply K2, K1|].
  exists r'. split; [done|]. destruct C as [?|(before & after & -> & C)]; [by left|]. right. exists before, after, w2. cbv zeta. by rewrite <- Ec.
Qed.
End BatchCause.

(** ** Every process takes store operations *)
(** The other clients are store operations too. *)
Definition others_step (o : outside) : Prop := forall k d, rtc step d (o_others o k d).

Notation wsteps := (wmoves (rtc step)).

Section Steps.
Context {N : Type}.

(** A method is an operation, or a read. *)
Definition is_op {A} (m : store A) : Prop := forall e d, rtc step d (snd (run m e d)).

Lemma ws_store {A} (m : store A) : is_op m -> wsteps (callStore (N := N) m).
Proof. apply wm_store. typeclasses eauto. Qed.

Lemma op_discard {A} (m : store A) (x : op) : exec_op x = discard m -> is_op m.
Proof.
  intros Hx e d. apply rtc_once. exists x, e. rewrite Hx. unfold run, discard, bind.
  by destruct (m e _) as [[a|y] c].
Qed.
Lemma op_plain (m : store unit) (x : op) : exec_op x = m -> is_op m.
Proof. intros Hx e d. apply rtc_once. exists x, e. by rewrite Hx. Qed.
Lemma op_read {A} (m : store A) : Moves (=) m -> is_op m.
Proof. intros Hm e d. by rewrite <- (moves_run (=) m e d Hm). Qed.
End Steps.

Create HintDb wsteps discriminated.

(** Proves [wsteps] by a worker's syntax. *)
Ltac wsteps :=
  repeat match goal with
  | |- wmoves _ (callStore _) => apply ws_store
  | |- wmoves _ _ => solve [eauto with wsteps wmoves typeclass_instances]
  | |- wmoves _ (wbind _ _) => apply wm_bind; [typeclasses eauto| |intros ?]
  | |- wmoves _ (wattempt _ _) => apply wm_attempt; [typeclasses eauto| |intros ?]
  | |- wmoves _ (wwrap _ _) => apply wm_wrap; [typeclasses eauto|]
  | |- wmoves _ (match ?x with _ => _ end) => destruct x
  | |- is_op _ => solve [apply op_read; eauto with reads]
  end.

Ltac by_op := first
  [ match goal with |- is_op (InsertDepositEvent ?ev) => apply (op_discard _ (OpDeposit ev)); reflexivity
    | |- is_op (ApplyDeposit ?a ?b ?c ?d) => apply (op_discard _ (OpApply a b c d)); reflexivity
    | |- is_op (AdvanceDepositCursor ?a ?b ?c) => apply (op_discard _ (OpCursor a b c)); reflexivity
    | |- is_op (SweepWithdrawalsDue ?l) => apply (op_discard _ (OpDue l)); reflexivity
    | |- is_op (MarkWithdrawalSigned ?a ?b ?c ?d ?e ?f ?g) => apply (op_discard _ (OpSigned a b c d e f g)); reflexivity
    | |- is_op (MarkWithdrawalBroadcast ?a ?b) => apply (op_discard _ (OpBroadcast a b)); reflexivity
    | |- is_op (FinalizeWithdrawal ?a ?b) => apply (op_discard _ (OpFinalize a b)); reflexivity
    | |- is_op (RestoreWithdrawal ?a ?b ?c) => apply (op_discard _ (OpRestore a b c)); reflexivity
    | |- is_op (ClaimDelegationSettlements ?a ?b) => apply (op_discard _ (OpClaim a b)); reflexivity
    | |- is_op (SweepDelegationSettlements ?l) => apply (op_discard _ (OpSettleSweep l)); reflexivity
    | |- is_op (MarkSettlementSigned ?a ?b ?c ?d ?e ?f ?g) =>
        apply (op_discard _ (OpSettleSigned a b c d e f g)); reflexivity
    | |- is_op (MarkSettlementBroadcast ?a ?b) => apply (op_discard _ (OpSettleBroadcast a b)); reflexivity
    | |- is_op (FinalizeSettlement ?a ?b) => apply (op_discard _ (OpSettleFinalize a b)); reflexivity
    | |- is_op (UpsertAllowance ?ch) => apply (op_discard _ (OpAllowance ch)); reflexivity
    | |- is_op (EnsureAccountCredit ?a) => apply (op_plain _ (OpEnsure a)); reflexivity
    | |- is_op (ReserveBilling ?r) => apply (op_discard _ (OpReserve r)); reflexivity
    | |- is_op (SettleBilling ?a ?b ?c ?d ?e) => apply (op_discard _ (OpSettle a b c d e)); reflexivity
    | |- is_op (ReleaseBilling ?a ?b ?c) => apply (op_discard _ (OpRelease a b c)); reflexivity
    | |- is_op (SweepStaleReservations ?a ?b) => apply (op_discard _ (OpSweep a b)); reflexivity
    | |- is_op (SetAccountCaps ?a ?c) => apply (op_discard _ (OpCaps a c)); reflexivity
    | |- is_op (ReserveWithdrawal ?q ?t) => apply (op_discard _ (OpWithdraw q t)); reflexivity
    | |- is_op (ReplaceModelCaps ?a ?l) => apply (op_plain _ (OpModelCaps a l)); reflexivity
    | |- is_op (ReplaceAskConfig ?p ?l) => apply (op_plain _ (OpAskConfig p l)); reflexivity
    | |- is_op (ReplaceAsks ?p ?l ?t) => apply (op_discard _ (OpReplaceAsks p l t)); reflexivity
    | |- is_op (RestoreSettlement ?a ?b ?c) => apply (op_discard _ (OpSettleRestore a b c)); reflexivity
    end ].

Section Workers.
Context {N : Type}.

Lemma watcher_steps `{RD : signaturesReader N} s fuel : wsteps (Watcher.RunOnce s fuel).
Proof.
  assert (H0 : forall sig tx l, wmoves (N:=N) (rtc step) (processTransfers s sig tx l)).
  { induction l as [|tr l IH]; simpl; wsteps.
    unfold processTransfer. wsteps; by_op. }
  assert (H1 : forall sig, wsteps (processSignature s sig)).
  { intros sig. unfold processSignature. wsteps. }
  assert (H2 : forall c before pending, wsteps (fetchPages s fuel c before pending)).
  { induction fuel as [|k IH]; intros; simpl; wsteps. }
  assert (H3 : forall todo b c n, wsteps (processPending s todo b c n)).
  { induction todo as [|sig todo IH]; intros; simpl; wsteps; by_op. }
  unfold Watcher.RunOnce. wsteps.
Qed.

Lemma withdrawals_step `{RPC : withdrawRPC N} s : wsteps (Withdraw.RunOnce s).
Proof.
  assert (H1 : forall fmt id reason t, wmoves (N:=N) (rtc step) (restore fmt id reason t)).
  { intros. unfold restore, discardW. wsteps. by_op. }
  assert (H2 : forall id, wmoves (N:=N) (rtc step) (markBroadcast id)) by (intros; unfold markBroadcast, discardW; wsteps; by_op).
  assert (H3 : forall w, wsteps (advance s w)).
  { intros w. unfold advance, signAndStore, broadcastStored, finalizeOrRestore, discardW. cbv zeta.
    wsteps; by_op. }
  assert (H4 : forall due n, wsteps (advanceAll s due n)).
  { induction due as [|w due IH]; intros; simpl; wsteps. }
  unfold Withdraw.RunOnce. wsteps. by_op.
Qed.

Lemma settlements_step `{RPC : withdrawRPC N} s : wsteps (SettlementWorker.RunOnce s).
Proof.
  assert (H1 : forall fmt id reason t, wmoves (N:=N) (rtc step) (restoreBatch fmt id reason t)).
  { intros. unfold restoreBatch, discardW. wsteps. by_op. }
  assert (H2 : forall id, wmoves (N:=N) (rtc step) (markBatchBroadcast id)) by (intros; unfold markBatchBroadcast, discardW; wsteps; by_op).
  assert (H3 : forall b, wsteps (advanceBatch s b)).
  { intros b. unfold advanceBatch, signAndStoreBatch, broadcastBatch, finalizeOrRestoreBatch, discardW. cbv zeta.
    wsteps; by_op. }
  assert (H4 : forall due n, wsteps (advanceBatches s due n)).
  { induction due as [|b due IH]; intros; simpl; wsteps. }
  unfold SettlementWorker.RunOnce. wsteps; by_op.
Qed.

Lemma poller_steps `{RPC : chainReader N} s : wsteps (PollOnce s).
Proof.
  assert (H1 : forall link n slot fmt, wmoves (N:=N) (rtc step) (mirror s link n slot fmt)).
  { intros. unfold mirror. wsteps; by_op. }
  assert (H2 : forall link, wsteps (observeWallet s link)).
  { intros link. unfold observeWallet. cbv zeta. wsteps. }
  assert (H3 : forall links n, wsteps (observeWallets s n links)).
  { induction links as [|l links IH]; intros; simpl; wsteps. }
  unfold PollOnce. wsteps.
Qed.

Lemma sweeper_steps s : wmoves (N:=N) (rtc step) (sweep_tick s).
Proof. unfold sweep_tick. wsteps; by_op. Qed.

Lemma response_steps fee rp evs : wmoves (N:=N) (rtc step) (HookWithSettle fee rp evs).
Proof.
  assert (H : forall ms, wmoves (N:=N) (rtc step) (callbacks fee rp ms)).
  { induction ms as [|m ms IH]; simpl; unfold Callback; wsteps; by_op. }
  unfold HookWithSettle. wsteps.
Qed.
End Workers.

Lemma gate_steps s x r : wsteps (Middleware s x r).
Proof.
  assert (H1 : forall r, wsteps (inspect s x r)).
  { intros q o w _. unfold inspect. destruct (Inspect _ _ _ _) as [[pr|] m]; done. }
  assert (H2 : forall b h p c, wsteps (resolveCaps b h p c)).
  { intros. unfold resolveCaps. wsteps; by_op. }
  assert (H3 : forall p c, wsteps (resolveQuotes s x p c)).
  { intros. unfold resolveQuotes, fetchSnapshot, refresh, callDirectory, storeCache, getNode. wsteps. }
  assert (H4 : forall b p c q, wsteps (reserve x b p c q)).
  { intros. unfold reserve. wsteps; by_op. }
  unfold Middleware, serve. wsteps.
Qed.

(** ** The billing endpoints and the three ways onto the market *)
Section Api.
Context `{Ed25519} `{surroundings}.

Lemma publishAskConfig_steps mesh a peer l : wsteps (publishAskConfig mesh a peer l).
Proof. unfold publishAskConfig. wsteps; by_op. Qed.
Lemma pricing_handler_steps s r : wsteps (Pricing.Handler s r).
Proof. unfold Handler, authenticate, resolveSeller, observationFresh, classifyStoreErr. wsteps; by_op. Qed.
Lemma refresher_steps s order : wsteps (refreshOnce s order).
Proof.
  assert (He : forall l, wsteps (refreshEach s l)).
  { induction l as [|[peer l'] l IH]; simpl; unfold observationFresh; wsteps; by_op. }
  unfold refreshOnce. wsteps.
Qed.
Lemma publish_steps pb : wsteps (publish pb).
Proof.
  destruct pb; unfold publish, quietly; wsteps; auto using pricing_handler_steps, publishAskConfig_steps, refresher_steps.
Qed.

Context `{chainReader site}.
Lemma api_steps e s r : wsteps (serve_billing e s r).
Proof.
  assert (Hp : forall byPeer l, wsteps (pricing_all s byPeer l)).
  { intros byPeer l. induction l as [|i l IH]; simpl; unfold pricing_of; wsteps. }
  assert (Hr : forall rec a, wsteps (Report rec a)).
  { intros rec a. unfold Report, observeChain. wsteps. }
  destruct e; unfold serve_billing, quietly, handleState, handlePreferences, handleLedger, handleDeposits, handleWithdrawalsList,
    handleWithdrawalsCreate, handleWithdrawal, handleAsks, handleModelCapsGet, handleModelCapsPut, handleAsksConfigList,
    handleAsksConfigPut, handleAsksConfigDelete, handleReconciliation, handleMerkleProof, requireAccount, or_unavailable,
    service_unavailable, BillingApi.allowances, live_asks, reserve_refusal, publish_now, not_found; cbv zeta; wsteps;
    first [by_op | apply publishAskConfig_steps].
Qed.
End Api.

(** ** The whole program at work

    One turn of a process, whatever its node (the chain, the mesh and the directory)
    answers, whatever is lost ([o_env]) and whenever it is stopped ([o_cancelled]): the
    database before and after. *)
Inductive turn (o : outside) : db -> db -> Prop :=
  | turn_watcher {N} `{RD : signaturesReader N} s fuel (w : world N) :
      turn o (w_db w) (w_db (snd (Watcher.RunOnce s fuel o w)))
  | turn_withdrawals {N} `{RPC : withdrawRPC N} s (w : world N) :
      turn o (w_db w) (w_db (snd (Withdraw.RunOnce s o w)))
  | turn_settlements {N} `{RPC : withdrawRPC N} s (w : world N) :
      turn o (w_db w) (w_db (snd (SettlementWorker.RunOnce s o w)))
  | turn_poller {N} `{RPC : chainReader N} s (w : world N) :
      turn o (w_db w) (w_db (snd (PollOnce s o w)))
  | turn_sweeper {N} s (w : world N) :
      turn o (w_db w) (w_db (snd (sweep_tick s o w)))
  | turn_request s x r (w : world node) :
      turn o (w_db w) (w_db (snd (Middleware s x r o w)))
  | turn_billing `{Ed25519} `{surroundings} `{chainReader site} e s r (w : world site) :
      turn o (w_db w) (w_db (snd (serve_billing e s r o w)))
  | turn_publisher `{Ed25519} `{surroundings} pb (w : world site) :
      turn o (w_db w) (w_db (snd (publish pb o w)))
  | turn_response {N} feeBps rp evs (w : world N) :
      turn o (w_db w) (w_db (snd (HookWithSettle feeBps rp evs o w))).

Definition works (d d' : db) : Prop := exists o, others_step o /\ turn o d d'.

Lemma turn_steps o d d' : others_step o -> turn o d d' -> rtc step d d'.
Proof.
  intros Ho [N RD s fuel w|N RPC s w|N RPC s w|N RPC s w|N s w|s x r w|? ? ? e s r w|? ? pb w|N fee rp evs w].
  - by apply watcher_steps.
  - by apply withdrawals_step.
  - by apply settlements_step.
  - by apply poller_steps.
  - by apply sweeper_steps.
  - by apply gate_steps.
  - by apply api_steps.
  - by apply publish_steps.
  - by apply response_steps.
Qed.

Lemma works_steps d d' : rtc works d d' -> rtc step d d'.
Proof.
  induction 1 as [|d1 d2 d3 (o & Ho & Ht) _ IH]; [done|].
  etrans; [by eapply turn_steps|exact IH].
Qed.

(** The program keeps the books. Let the deposit watcher, the withdrawal worker, the
    settlement worker, the allowance poller, the reservation sweeper, requests through the
    market gate, responses through the settlement hook, the billing endpoints and the
    publishers of asks take turns in any order, with
    other clients of the store in between, whatever the chain, the mesh and the upstreams
    answer and whatever is lost: the database stays one the store reaches, every account
    has 0 <= reserved <= credit with reserved the sum of its open reservations, the
    registered allowances stay well-formed, no ledger entry is gone, and no withdrawal and
    no settlement batch leaves a final state. *)
Theorem workers_keep_the_books d d' :
  Reachable d -> rtc works d d' ->
  Reachable d' /\ rtc step d d' /\
  (forall a, 0 <= reserved_of a d' <= credit_of a d' /\ reserved_of a d' = open_sum a d') /\
  registry_ok d' /\
  (forall row, row ∈ ledger d -> row ∈ ledger d') /\
  (forall id r, withdrawals d !! id = Some r -> open_state (wr_state r) = false ->
     exists r', withdrawals d' !! id = Some r' /\ wr_state r' = wr_state r) /\
  (forall id r, settlements d !! id = Some r -> open_settlement (sr_state r) = false ->
     exists r', settlements d' !! id = Some r' /\ sr_state r' = sr_state r).
Proof.
  intros HR Hw%works_steps. assert (HR' : Reachable d') by (unfold Reachable in *; by etrans).
  split; [done|]. split; [done|]. destruct (good_projection _ _ (Reachable_Good _ HR')) as [x HI].
  split; [|split; [by apply Reachable_registry|split; [|split]]].
  - intros a. destruct (rows_ok_default _ a 0 (Inv_rows_ok _ _ HI)) as (_ & _ & _ & H1 & H2).
    split; [done|]. rewrite (core_reserved _ _ _ _ HI). unfold zero. lia.
  - intros row. destruct (gr_prefix _ _ (steps_grow _ _ Hw)) as [k ->]. set_solver.
  - intros id r Hr Hc.
    pose proof (Good_steps _ _ _ (Good_here _ _ (Reachable_Good _ HR)) Hw) as HG.
    destruct (good_wlife _ _ HG id r Hr) as (r' & Hr' & Hev). exists r'.
    split; [done|]. apply rtc_wstep_terminal; [done|apply Hev].
  - intros id r Hr Hc. destruct (steps_SLife _ _ Hw (Reachable_fresh _ HR)) as [_ [Hrows _]].
    destruct (Hrows id r Hr) as (r' & Hr' & Hv). exists r'. split; [done|]. by eapply rtc_sstep_terminal, sv_state.
Qed.

(** ** A signed batch, and a node that refuses it *)
Definition batch_db : db := play [(OpSettleSigned 1 "AQID" "sig" "hash" 100 zeroTime zeroTime, 15)]%string twin_claimed.
Definition batch_world : world unit := mkWorld batch_db tt 0.
Definition batch_worker : settlementWorker :=
  mkSettlementWorker (fun _ => repeat (byteZ 1) 64) [] "nobody" [byteZ 1] [byteZ 2] "treasury" 6 500 20 0.
Lemma batch_reachable : Reachable batch_db.
Proof. unfold Reachable. etrans; [apply twin_reachable|apply play_steps]. Qed.

Lemma settlements_move_for_cause_witness : exists r r',
  settlements (w_db batch_world) !! 1 = Some r /\
  settlements (w_db (snd (@SettlementWorker.RunOnce unit refused batch_worker quiet_outside batch_world))) !! 1 = Some r' /\
  (sr_state r, sr_state r') = (SettlementSigned, SettlementRestored) /\
  exists n, @batch_cause unit refused batch_worker n r r'.
Proof.
  destruct (settlements (w_db batch_world) !! 1) as [r|] eqn:E; [|vm_compute in E; discriminate].
  destruct (@settlements_move_for_cause unit refused batch_worker quiet_outside (fun _ _ F => conj F (fun _ _ H => H)) batch_world 1 r
    (Reachable_fresh _ batch_reachable) E) as (r' & E' & H).
  assert (Hs : (sr_state r, sr_state r') = (SettlementSigned, SettlementRestored)).
  { vm_compute in E. injection E as <-. vm_compute in E'. injection E' as <-. reflexivity. }
  exists r, r'. split; [reflexivity|]. split; [exact E'|]. split; [exact Hs|].
  destruct H as [->|(before & after & w2 & _ & H)]; [injection Hs; congruence|]. eexists. exact H.
Defined.

(** ** A withdrawal in flight, a node that finalizes it, and a chain that is polled *)
Definition in_flight_world : world unit := mkWorld (play race_ops empty_db) tt 0.
Definition passed_world : world unit := snd (@Withdraw.RunOnce unit prompt_node demo_worker quiet_outside in_flight_world).
Definition polled_world : world unit := snd (@PollOnce unit slow_chain demo_poller quiet_outside passed_world).

Lemma quiet_others : others_step quiet_outside.
Proof. intros k d. apply rtc_refl. Qed.

Lemma workers_keep_the_books_witness :
  let d := w_db polled_world in
  0 <= reserved_of "buyer" d <= credit_of "buyer" d /\ registry_ok d.
Proof.
  destruct (workers_keep_the_books (w_db in_flight_world) (w_db polled_world)) as (_ & _ & H & Hreg & _).
  - apply play_steps.
  - eapply rtc_l; [exists quiet_outside; split; [apply quiet_others|apply (@turn_withdrawals quiet_outside unit prompt_node demo_worker)]|].
    eapply rtc_l; [exists quiet_outside; split; [apply quiet_others|apply (@turn_poller quiet_outside unit slow_chain demo_poller)]|].
    apply rtc_refl.
  - split; [apply H|exact Hreg].
Defined.
